(* ===== verification/_CoqProject ===== *)
-Q . S2P
Prelude.v
Ordering.v
Bytes.v
Ieee.v
Json.v
Storage.v
Engine.v
MemoryStorage.v
FaultStorage.v
Format.v
Migration.v
CoreBase.v
Provenance.v
Policy.v
Identity.v
Evidence.v
Semantic.v
MemoryTypes.v
Mutation.v
Maintenance.v
JournalModel.v
Journal.v
JournalSpec.v
JournalSample.v
JournalRefinement.v
JournalSnapshot.v
JournalRecovery.v
Security.v
Admission.v
LivePolicy.v
AuditChain.v
Deletion.v
SecureBackup.v
ModelTypes.v
Reliability.v
ModelSchema.v
Routing.v
Gateway.v
RefModel.v
RefEngine.v
RefReads.v
RefKeys.v
RefInvariant.v
RefRuns.v
RefHistory.v
RefQuery.v
RefTraverse.v
RefDelete.v
RefClaims.v
RefRetry.v
RefImport.v
RefEvents.v
RefIsolation.v
RefAdapter.v
RefAccess.v
RefCore.v
RefCoreIdentity.v
RefSample.v
RefWitness.v
RefCoreWitness.v
Hierarchy.v
HierValidate.v
HierBuild.v
HierDag.v
HierStats.v
HierProposal.v
HierAssign.v
HierEngine.v
HierReads.v
HierPersist.v
HierRuns.v
HierPaths.v
HierRestore.v
HierRoutes.v
HierCached.v
HierBeam.v
HierDelete.v
HierWitness.v
