(* ===== verification/Prelude.v ===== *)
(** * ContextDB: a verification development of its storage, format, core,
    journal, security, model and hierarchy layers and of its reference engine

    ** The program

    ContextDB is a Rust workspace (src/crates/) for a database of evidence and
    semantic memory.  The development covers its lower layers:

    - a storage contract (contextdb-storage): snapshots, transactions and bounded
      scans over (keyspace, key), with an in-memory engine
      (contextdb-storage-memory) and a fault-injecting wrapper
      (contextdb-storage-fault);
    - the physical framing of durable records and the planner of format
      migrations (contextdb-format);
    - the logical records and their validation (contextdb-core);
    - the journal (contextdb-journal), which accepts observations and publishes
      semantic and maintenance mutations as one ordered history over any storage
      engine, framing records with contextdb-format and validating requests with
      contextdb-core;
    - security services beside the journal (contextdb-security): admission
      control, the deny overlay, the signed audit chain, deletion workflows and
      encrypted backups;
    - the model runtime (contextdb-model), which routes requests to untrusted
      providers and returns only validated proposals;
    - the reference engine (contextdb-reference), a complete in-memory database
      that serves as the oracle of the workspace: commits with idempotent
      receipts, bitemporal histories, hard deletion, authorised reads, searches,
      traversal, workspace event pages, export and import, and an adapter that
      turns the values of contextdb-core into its records;
    - hierarchy views (contextdb-hierarchy): versioned navigation graphs over
      semantic state, built from ranked candidates, validated as acyclic graphs
      inside policy partitions, published as immutable generations, and queried
      for nodes, routes and beam traversals under authorisation, freshness and a
      live deletion barrier.

    ** Files and what they model

    - [Prelude], [Ordering], [Bytes]: Rust results and the [?] operator, bounded
      loops, checked arithmetic, [Ord] and the ordered view of [BTreeMap] and
      [BTreeSet], stable sorting, byte strings, big-endian integers, text and
      serialisation.
    - [Storage], [Engine]: contextdb-storage/src/lib.rs.  [collect_scan_page] and
      [collect_prefix_pages] are the functions of that name; the traits are the
      class [StorageEngine], their promises the class [StorageEngineSpec].
    - [MemoryStorage], [FaultStorage]: the two engines, each with the instance of
      [StorageEngineSpec] that discharges the contract.
    - [Format], [Migration]: contextdb-format/src/lib.rs; records, manifests and
      readers, then the registry and the breadth-first planner.
    - [CoreBase] (error.rs, id.rs, collections.rs, time.rs), [Provenance],
      [Policy], [Identity], [Evidence], [Semantic], [MemoryTypes] (memory.rs),
      [Mutation], [Maintenance]: the files of contextdb-core/src of those names.
      A struct is a record, an enum an inductive type, and a [validate] method a
      function [T_validate] into [result ValidationError], with its checks in the
      order of the source.
    - [JournalModel] (key.rs, model.rs, error.rs) and [Journal] (coordinator.rs):
      every operation of the coordinator in a monad that threads the engine.
      [JournalSpec] defines the abstract journal, a list of events and a map of
      receipts, and the relation [represents] between it and a store.
      [JournalRefinement], [JournalSnapshot] and [JournalRecovery] hold the
      theorems, [JournalSample] concrete requests and codecs.
    - [Security] (error.rs and the keys of backup.rs), [Admission],
      [LivePolicy] (policy.rs), [AuditChain] (audit.rs), [Deletion],
      [SecureBackup] (backup.rs): contextdb-security/src.  A method that changes
      its object only when it succeeds returns the new object inside the result;
      one that may change it and fail returns both.
    - [ModelTypes] (types.rs, error.rs), [Reliability], [ModelSchema] (schema.rs,
      prompt.rs), [Routing] (policy.rs, registry.rs), [Gateway] (gateway.rs,
      audit.rs, fallback.rs, provider.rs): contextdb-model/src.
    - [Ieee], [Json]: the double arithmetic of the vector search, and JSON values
      with the serialisation of [serde_json] in canonical key order.
    - [RefModel] (model.rs, error.rs, canonical.rs), [RefEngine] and [RefReads]
      (the writes and the reads of db.rs): contextdb-reference/src.  The state
      under the lock is the record [State]; a write returns the new state beside
      its result, with the crash points of the source as an argument.
      [RefKeys], [RefInvariant] and [RefRuns] hold the invariant [wf] of the
      state and show that every run of writes keeps it; [RefHistory], [RefQuery],
      [RefTraverse], [RefDelete], [RefClaims], [RefRetry], [RefImport],
      [RefEvents] and [RefIsolation] hold the theorems, [RefSample] and
      [RefWitness] concrete databases.
    - [RefAdapter] (core_adapter.rs, and [observe_core] and [commit_core] of
      db.rs), with the theorems of [RefAccess], [RefCore] and [RefCoreIdentity]
      and the concrete codec of [RefCoreWitness].  [commit_core] takes the lock
      four times, so [commit_core_at] has four states.
    - [Hierarchy] (types.rs, query.rs, error.rs), [HierValidate] (validation.rs and
      [verify_manifest]), [HierBuild] (builder.rs), [HierEngine] (the writes of
      engine.rs), [HierReads] (its queries) and [HierPersist] (its bundles):
      contextdb-hierarchy/src.  A read is a function of the catalog of its snapshot
      and of the deletion registry at the time of the read, as in the source.
      [HierDag], [HierStats] and [HierProposal] hold the theory of the validator,
      [HierAssign] that of the builder, [HierRuns] the step relation over the
      writes and its invariant, [HierPaths], [HierRoutes], [HierCached] and
      [HierBeam] the theorems about queries, [HierRestore] the round trip of
      bundles, [HierDelete] the deletion barrier, and [HierWitness] a sample view.

    ** What the theorems show

    - Storage: a page is exactly the next run of wanted entries, the vector scan
      returns all entries or an exhausted resource, snapshots are isolated, the
      first committer wins, and a commit is atomic under every fault schedule.
    - Format: records decode to what was encoded; a migration plan is a shortest
      chain, and a missing path means that there is none.
    - Core: the mutation validator accepts exactly its declarative contract, the
      lineage check ends and accepts exactly the acyclic graphs; accepted revision
      chains are unambiguous; derived policies never broaden their sources, spelled
      out use by use, audience by audience and label by label.
    - Journal: on every engine that meets the contract each operation implements
      an append to the abstract journal; acknowledged observations survive later
      operations, faults and reopenings; recovery removes exactly the records
      beyond the head; a snapshot is exactly the requested prefix.
    - Security: quotas hold and expired leases free them; hard deletion is
      permanent; merges keep live denials; a rewritten audit chain and a
      substituted archive are refused unless their texts collide with the genuine
      ones; sealed receipts verify; backups restore to their plaintext.
    - Model: every provider call follows its audit record and carries a payload
      that the policy allows; effort is bounded; only validated proposals are
      returned; routing, down to each privacy condition, and schema validation are
      characterised exactly; an open circuit admits one probe after its cooldown,
      late failures included.
    - Reference engine: a write happens once or not at all, whatever crash and
      retry; a read at a snapshot is stable; scans, searches and event pages
      return exactly what single reads authorise; the traversal terminates within
      its limits; what a hard deletion reached stays out of every read, and its
      contents and earlier requests are erased; competing claims share a conflict
      record; writes in another workspace are invisible, up to the reason of a
      refusal; an import restores an export without floating point numbers.  Core
      values with a retrieval grant are readable exactly under their grants, and a
      core commit is atomic however it is interleaved.
    - Hierarchy: the validator accepts exactly its contract and its statistics
      count the graph; a built proposal does not depend on the order of candidates
      and validates; in every reachable state the retained catalogs are complete,
      verified and never changed; after an acknowledged deletion no read, cached
      route or publication brings the deleted material back; routes and
      traversals are exactly the visible paths up to their reported cuts, and the
      search for routes ends; a cached route is accepted only while its catalog,
      deletions and partitions are unchanged, and then it is accepted for everyone
      who can open the view; a restored bundle is the engine that exported it;
      confidences stay in the unit interval.
    - Several theorems state a behaviour that differs from the documentation of
      the code: a refused audit record that disables a route, a merge that
      rejects a superseded history, a policy check that sees only the last of two
      envelopes, a digest parser that accepts plus signs, two puts of one record
      that make an export unusable, a deletion that leaves the content of its own
      request, a node identity that is replaced, owners who read a value that has
      no retrieval grant ([ungranted_value_readable_by_owner]), a cached route whose
      check ignores when the authorization was evaluated
      ([validation_ignores_evaluation]), a traversal whose exhausted expansion
      budget is not reported, and others next to the operations they concern.

    ** Conventions, bounds and fuel

    Unsigned integers are [N], signed ones [Z]; where the code checks or
    saturates, the width is written out.  Rust strings are byte strings.
    Operations on a lock's content run one at a time, and lock poisoning, which
    needs a panic under the lock, is left out.

    Loops that are not structural have fuel that is proved sufficient:
    [collect_prefix_pages] has one step more than the entry cap, since every
    further page adds an entry; the migration search has the number of edges plus
    two, since a target is queued once; the lineage visit has the number of nodes
    plus one, since the nodes being visited are distinct; running out of fuel is the
    result [Err None] of [lineage_search], which is proved not to occur.  The attempts of the
    gateway are counted by the retry policy itself.  In the reference engine the
    closure of a deletion has the number of records plus one, since every round
    but the last adds a record; the traversal has the starts and the records plus
    one, since a node is queued once; reading all event pages has the number of
    events plus one.  In the hierarchy the topological order has the number of
    items plus one, since an item becomes ready once; the closure of a branch has
    twice the number of edges plus one, since an item is expanded once; the route
    search has the power of the memberships plus one to the items plus one, a
    bound on the paths of the graph, counted in binary; [materialize_routes] is
    [None] when it runs out, which is proved not to occur; the traversal has as many
    rounds as its depth bound.

    Third-party code is a parameter with its documented laws: BLAKE3 ([Blake3]),
    [serde_json] ([Json], [Serialize], [JsonParser], [JsonValue]), Ed25519,
    XChaCha20-Poly1305 ([Aead]), the clock, providers and sinks of the gateway
    ([GatewayEnv]), the hash and serialisation of the reference engine
    ([RefCodec], [RefCodecLaws], [ExportLaws], [AdapterCodec], [AdapterLaws]), the Unicode
    tables of its tokeniser ([Unicode]), and the texts of the hierarchy
    ([PartitionJson], [RouteJson], [PayloadJson], [PayloadJsonLaws]).  Each has a
    concrete instance on which the theorems are applied.  [ExportLaws] speaks only of
    exports without floating point numbers and of bounded depth: the workspace does
    not enable the feature [float_roundtrip] of [serde_json], so a float may be read
    back differently.  Where security rests on a hash, a theorem speaks of
    [hash_collision] of the listed texts: two different texts, one of each list, with
    the same hash.  Collisions exist for every hash with a fixed output size, but
    those among the texts at hand are what an attacker would have to find.

    ** Not modelled

    - The redb and Fjall engines are adapters to third-party transactions; their
      contract is [StorageEngineSpec].
    - contextdb-core: assertion.rs, capability.rs, capture.rs, event.rs, raw.rs
      and runtime.rs, contracts of the layers above.
    - contextdb-security: field_encryption.rs, secrets.rs, taint.rs and
      benchmark.rs.
    - contextdb-model: batch.rs and mock.rs; the real-time scheduling and
      cancellation inside provider adapters.
    - The layers above the journal: graph, index, recall, cognition,
      context, continuity, knowledge, chat, the secure store, the services, the
      agent runtime and the domain pack.  They are clients of the layers modelled
      here and are not translated.
    - Network, protocol and command-line adapters, bindings, SDKs, tools,
      benchmarks and test harnesses. *)

From Stdlib Require Export Strings.Byte.
From stdpp Require Export sorting base tactics gmap strings countable numbers list.

#[global] Set Default Goal Selector "!".
#[global] Set Warnings "-notation-overridden".

(** ** Results: the Rust [Result] type and the [?] operator *)

Inductive result (E A : Type) : Type :=
  | Ok (a : A)
  | Err (e : E).

Arguments Ok {E A} a.
Arguments Err {E A} e.

Definition result_bind {E A B} (m : result E A) (k : A → result E B) : result E B :=
  match m with
  | Ok a => k a
  | Err e => Err e
  end.

Definition map_err {E F A} (f : E → F) (m : result E A) : result F A :=
  match m with
  | Ok a => Ok a
  | Err e => Err (f e)
  end.

Definition map_ok {E A B} (f : A → B) (m : result E A) : result E B :=
  match m with
  | Ok a => Ok (f a)
  | Err e => Err e
  end.

(** [Option::ok_or]. *)
Definition ok_or {E A} (o : option A) (e : E) : result E A :=
  match o with
  | Some a => Ok a
  | None => Err e
  end.

Definition is_ok {E A} (m : result E A) : bool :=
  match m with
  | Ok _ => true
  | Err _ => false
  end.

Declare Scope rust_scope.
Delimit Scope rust_scope with rust.
Open Scope rust_scope.

Notation "'let?' x := m 'in' k" := (result_bind m (λ x, k))
  (at level 200, x name, m at level 100, k at level 200,
   format "'[v' 'let?'  x  :=  m  'in' '/' k ']'") : rust_scope.
Notation "'let?' ' p := m 'in' k" := (result_bind m (λ p, k))
  (at level 200, p pattern, m at level 100, k at level 200) : rust_scope.
Notation "'try?' m 'in' k" := (result_bind m (λ _, k))
  (at level 200, m at level 100, k at level 200,
   format "'[v' 'try?'  m  'in' '/' k ']'") : rust_scope.

(** [for x in xs { f(x)?; }]: the first error ends the loop. *)
Fixpoint for_each {E A} (f : A → result E unit) (xs : list A) : result E unit :=
  match xs with
  | [] => Ok tt
  | x :: rest => try? f x in for_each f rest
  end.

(** [xs.iter().try_fold(init, f)]. *)
Fixpoint try_fold {E A B} (f : B → A → result E B) (acc : B) (xs : list A) : result E B :=
  match xs with
  | [] => Ok acc
  | x :: rest => let? acc' := f acc x in try_fold f acc' rest
  end.

(** A loop that maps each item and collects the values in order. *)
Fixpoint try_map {E A B} (f : A → result E B) (xs : list A) : result E (list B) :=
  match xs with
  | [] => Ok []
  | x :: rest =>
      let? y := f x in
      let? ys := try_map f rest in
      Ok (y :: ys)
  end.

Lemma imp_iff (P Q R : Prop) : (P → Q ↔ R) → (P → Q) ↔ (P → R).
Proof. naive_solver. Qed.

Lemma result_bind_Ok {E A B} (m : result E A) (k : A → result E B) b :
  result_bind m k = Ok b ↔ ∃ a, m = Ok a ∧ k a = Ok b.
Proof. destruct m; simpl; naive_solver. Qed.

Lemma try_Ok {E} (m : result E unit) (k : result E unit) :
  (try? m in k) = Ok tt ↔ m = Ok tt ∧ k = Ok tt.
Proof. rewrite result_bind_Ok. split; [by intros ([] & ? & ?)|by exists tt]. Qed.

Lemma result_bind_Err {E A B} (m : result E A) (k : A → result E B) e :
  result_bind m k = Err e ↔ m = Err e ∨ ∃ a, m = Ok a ∧ k a = Err e.
Proof. destruct m; simpl; naive_solver. Qed.

Lemma ok_or_Ok {E A} (o : option A) (e : E) a : ok_or o e = Ok a ↔ o = Some a.
Proof. destruct o; naive_solver. Qed.

Lemma map_err_Ok {E F A} (f : E → F) (m : result E A) a : map_err f m = Ok a ↔ m = Ok a.
Proof. destruct m; naive_solver. Qed.

Lemma for_each_Ok {E A} (f : A → result E unit) xs :
  for_each f xs = Ok tt ↔ Forall (λ x, f x = Ok tt) xs.
Proof.
  induction xs as [|x xs IH]; simpl; [by split|].
  rewrite Forall_cons, <- IH, result_bind_Ok. split.
  - intros ([] & ? & ?); done.
  - intros [? ?]; by exists tt.
Qed.

Lemma try_map_Ok {E A B} (f : A → result E B) xs ys :
  try_map f xs = Ok ys ↔ Forall2 (λ x y, f x = Ok y) xs ys.
Proof.
  revert ys; induction xs as [|x xs IH]; intros ys; simpl.
  - split; [intros [= <-]; constructor | by inversion 1].
  - rewrite result_bind_Ok. split.
    + intros (y & Hy & (ys' & Hys & [= <-])%result_bind_Ok).
      constructor; [done|]. by apply IH.
    + inversion 1 as [|? y ? ys' Hy Hys]; subst. exists y; split; [done|].
      apply IH in Hys. by rewrite Hys.
Qed.

Lemma try_map_app {E A B} (f : A → result E B) xs1 xs2 ys1 ys2 :
  try_map f xs1 = Ok ys1 → try_map f xs2 = Ok ys2 → try_map f (xs1 ++ xs2) = Ok (ys1 ++ ys2).
Proof. rewrite !try_map_Ok. apply Forall2_app. Qed.

(** Reasoning about [try_fold] by an invariant over the processed prefix. *)
Lemma try_fold_invariant {E A B} (I : list A → B → Prop) (f : B → A → result E B) xs pre acc r :
  I pre acc → (∀ pre acc x acc', I pre acc → f acc x = Ok acc' → I (pre ++ [x]) acc') →
  try_fold f acc xs = Ok r → I (pre ++ xs) r.
Proof.
  intros Hacc Hstep. revert pre acc Hacc; induction xs as [|x xs IH]; intros pre acc Hacc; simpl.
  - intros [= <-]. by rewrite app_nil_r.
  - intros (acc' & Hf & Hr)%result_bind_Ok.
    specialize (IH (pre ++ [x]) acc'). rewrite <- app_assoc in IH. by apply IH; [eapply Hstep|].
Qed.

Lemma try_fold_total {E A B} (I : B → Prop) (f : B → A → result E B) xs acc :
  I acc → (∀ acc x, x ∈ xs → I acc → ∃ acc', f acc x = Ok acc' ∧ I acc') →
  ∃ r, try_fold f acc xs = Ok r ∧ I r.
Proof.
  revert acc; induction xs as [|x xs IH]; intros acc Hacc Hstep; simpl; [by exists acc|].
  destruct (Hstep acc x) as (acc' & -> & Hacc'); [by left|done|]. simpl.
  apply IH; [done|]. intros; apply Hstep; [by right|done].
Qed.

(** What a loop ends with, on success and on failure. *)
Lemma try_fold_outcome {E A B} (I : B → Prop) (Q : E → Prop) (f : B → A → result E B) xs acc :
  I acc → (∀ acc x, x ∈ xs → I acc → match f acc x with Ok b => I b | Err e => Q e end) →
  match try_fold f acc xs with Ok b => I b | Err e => Q e end.
Proof.
  revert acc; induction xs as [|x xs IH]; intros acc Hacc Hf; simpl; [done|].
  specialize (Hf acc x) as Hx. destruct (f acc x) as [b|e]; simpl; [|by apply Hx; [left|]].
  apply IH; [by apply Hx; [left|]|]. intros acc' y Hy. apply Hf. by right.
Qed.

Lemma try_fold_app {E A B} (f : B → A → result E B) acc xs ys :
  try_fold f acc (xs ++ ys) = (let? acc' := try_fold f acc xs in try_fold f acc' ys).
Proof.
  revert acc; induction xs as [|x xs IH]; intros acc; simpl; [done|]. destruct (f acc x); simpl; [apply IH|done].
Qed.

(** [res_inv] splits every hypothesis [let? .. = Ok ..] into its steps. *)
Ltac res_inv_step :=
  match goal with
  | H : result_bind _ _ = Ok _ |- _ =>
      let a := fresh "a" in
      let H1 := fresh "Hm" in
      let H2 := fresh "Hk" in
      apply result_bind_Ok in H; destruct H as (a & H1 & H2)
  | H : ok_or _ _ = Ok _ |- _ => apply ok_or_Ok in H
  | H : map_err _ _ = Ok _ |- _ => apply map_err_Ok in H
  | H : Err _ = Ok _ |- _ => discriminate H
  | H : Ok _ = Err _ |- _ => discriminate H
  | H : Ok _ = Ok _ |- _ => injection H; clear H; intros; subst
  | a : unit |- _ => destruct a
  end.
Ltac res_inv := repeat res_inv_step.

(** ** Machine integers: unsigned values are [N], kept below [2 ^ width] *)

Definition U8_MAX : N := 2 ^ 8 - 1.
Definition U16_MAX : N := 2 ^ 16 - 1.
Definition U32_MAX : N := 2 ^ 32 - 1.
Definition U64_MAX : N := 2 ^ 64 - 1.
Definition U128_MAX : N := 2 ^ 128 - 1.
(** The development fixes a 64-bit target: [usize] is [u64]. *)
Definition USIZE_MAX : N := U64_MAX.

Definition checked_add (max a b : N) : option N :=
  if (a + b <=? max)%N then Some (a + b)%N else None.
Definition checked_mul (max a b : N) : option N :=
  if (a * b <=? max)%N then Some (a * b)%N else None.
Definition checked_sub (a b : N) : option N :=
  if (b <=? a)%N then Some (a - b)%N else None.
Definition saturating_add (max a b : N) : N := N.min max (a + b).
Definition saturating_mul (max a b : N) : N := N.min max (a * b).
(** [try_from] into a type with maximum [max]. *)
Definition try_from_max (max a : N) : option N :=
  if (a <=? max)%N then Some a else None.

Lemma checked_add_Some max a b c :
  checked_add max a b = Some c ↔ (c = a + b ∧ a + b <= max)%N.
Proof. unfold checked_add. destruct (N.leb_spec (a + b) max); naive_solver lia. Qed.

Lemma checked_add_None max a b : checked_add max a b = None ↔ (max < a + b)%N.
Proof. unfold checked_add. destruct (N.leb_spec (a + b) max); naive_solver lia. Qed.

(** The length of a vector, as a [usize]. *)
Definition len {A} (l : list A) : N := N.of_nat (length l).

(** [Vec::is_empty]. *)
Definition is_empty {A} (l : list A) : bool :=
  match l with
  | [] => true
  | _ :: _ => false
  end.

Lemma len_app {A} (l1 l2 : list A) : len (l1 ++ l2) = (len l1 + len l2)%N.
Proof. unfold len. rewrite length_app. lia. Qed.

Lemma len_cons {A} (x : A) l : len (x :: l) = (1 + len l)%N.
Proof. unfold len. simpl. lia. Qed.

Lemma len_nil {A} : len (@nil A) = 0%N.
Proof. done. Qed.

Lemma filter_all {A} (P : A → Prop) `{∀ x, Decision (P x)} l : Forall P l → filter P l = l.
Proof. induction 1; [done|]. rewrite filter_cons_True by done. by f_equal. Qed.

Lemma filter_none {A} (P : A → Prop) `{∀ x, Decision (P x)} l :
  Forall (λ x, ¬ P x) l → filter P l = [].
Proof. induction 1; [done|]. by rewrite filter_cons_False. Qed.

Create HintDb rust.
#[export] Hint Rewrite @len_app @len_cons @len_nil : rust.
#[export] Hint Rewrite N.leb_le N.leb_gt N.ltb_lt N.ltb_ge N.eqb_eq N.eqb_neq
  andb_true_iff orb_true_iff negb_true_iff andb_false_iff orb_false_iff negb_false_iff : rust.

Ltac bool_simpl := repeat progress (autorewrite with rust in * ).

(** ** Loops

    [loop_pos p step s] runs the body of a Rust [loop] at most [p] times: [inl s']
    is the state the next iteration starts from, [inr r] the value the loop is
    left with.  The fuel is a binary number, so a bound of millions of iterations
    costs nothing when the loop ends early. *)

Fixpoint loop_pos {St R} (p : positive) (step : St → St + R) (s : St) : St + R :=
  match p with
  | xH => step s
  | xO p =>
      match loop_pos p step s with
      | inl s' => loop_pos p step s'
      | inr r => inr r
      end
  | xI p =>
      match step s with
      | inl s' =>
          match loop_pos p step s' with
          | inl s'' => loop_pos p step s''
          | inr r => inr r
          end
      | inr r => inr r
      end
  end.

Fixpoint loop_nat {St R} (n : nat) (step : St → St + R) (s : St) : St + R :=
  match n with
  | O => inl s
  | S n =>
      match step s with
      | inl s' => loop_nat n step s'
      | inr r => inr r
      end
  end.

Section loops.
Context {St R : Type} (step : St → St + R).

Lemma loop_nat_add n m s :
  loop_nat (n + m) step s =
    match loop_nat n step s with inl s' => loop_nat m step s' | inr r => inr r end.
Proof.
  revert s; induction n as [|n IH]; intros s; simpl; [done|].
  destruct (step s); [apply IH|done].
Qed.

Lemma loop_pos_nat p s : loop_pos p step s = loop_nat (Pos.to_nat p) step s.
Proof.
  revert s; induction p as [p IH|p IH|]; intros s; simpl loop_pos.
  - rewrite Pos2Nat.inj_xI. simpl. destruct (step s) as [s'|]; [|done].
    rewrite Nat.add_0_r, loop_nat_add, IH. destruct (loop_nat _ _ s'); [apply IH|done].
  - rewrite Pos2Nat.inj_xO. simpl. rewrite Nat.add_0_r, loop_nat_add, IH.
    destruct (loop_nat _ _ s); [apply IH|done].
  - change (Pos.to_nat 1) with 1%nat. simpl. by destruct (step s).
Qed.

(** A measure that every further iteration decreases bounds the iterations. *)
Lemma loop_nat_terminates (I : St → Prop) (measure : St → nat) n s :
  (∀ s s', I s → step s = inl s' → I s' ∧ (measure s' < measure s)%nat) →
  I s → (measure s < n)%nat → ∃ r, loop_nat n step s = inr r.
Proof.
  intros Hstep. revert s; induction n as [|n IH]; intros s HI Hn; [lia|]. simpl.
  destruct (step s) as [s'|r] eqn:Es; [|by eexists].
  destruct (Hstep _ _ HI Es). apply IH; [done|lia].
Qed.

(** Partial correctness by a loop invariant. *)
Lemma loop_nat_invariant (I : St → Prop) (Q : R → Prop) n s r :
  (∀ s, I s → match step s with inl s' => I s' | inr r => Q r end) →
  I s → loop_nat n step s = inr r → Q r.
Proof.
  intros Hstep. revert s; induction n as [|n IH]; intros s HI; simpl; [done|].
  specialize (Hstep s HI). destruct (step s) as [s'|r'].
  - by apply IH.
  - by intros [= <-].
Qed.
End loops.
