(* ===== verification/Ordering.v ===== *)
(** * Total orders and ordered maps

    The Rust [Ord] trait as a class with its laws, the lexicographic order of
    slices, and the ordered view of a [BTreeMap]/[BTreeSet]: the container is a
    stdpp [gmap]/[gset], and iteration visits it in ascending key order. *)

From S2P Require Import Prelude.

(** ** The [Ord] trait *)

Class Ordered (A : Type) := {
  cmp : A → A → comparison;
  cmp_eq : ∀ a b, cmp a b = Eq ↔ a = b;
  cmp_antisym : ∀ a b, cmp b a = CompOpp (cmp a b);
  cmp_trans : ∀ a b c, cmp a b = Lt → cmp b c = Lt → cmp a c = Lt;
}.

Definition klt `{Ordered A} (a b : A) : Prop := cmp a b = Lt.
Definition kle `{Ordered A} (a b : A) : Prop := cmp a b ≠ Gt.

(** The operators [<] and [<=] of the source, as booleans. *)
Definition kltb `{Ordered A} (a b : A) : bool :=
  match cmp a b with Lt => true | _ => false end.
Definition kleb `{Ordered A} (a b : A) : bool :=
  match cmp a b with Gt => false | _ => true end.

#[export] Instance klt_dec `{Ordered A} (a b : A) : Decision (klt a b).
Proof. unfold klt. destruct (cmp a b); [right|left|right]; done. Defined.
#[export] Instance kle_dec `{Ordered A} (a b : A) : Decision (kle a b).
Proof. unfold kle. destruct (cmp a b); [left|left|right]; naive_solver. Defined.

Section laws.
Context `{Ordered A}.
Implicit Types a b c : A.

Lemma kltb_true a b : kltb a b = true ↔ klt a b.
Proof. unfold kltb, klt. destruct (cmp a b); naive_solver. Qed.

Lemma kleb_true a b : kleb a b = true ↔ kle a b.
Proof. unfold kleb, kle. destruct (cmp a b); naive_solver. Qed.

Lemma cmp_refl a : cmp a a = Eq.
Proof. by apply cmp_eq. Qed.

Lemma klt_irrefl a : ¬ klt a a.
Proof. unfold klt. by rewrite cmp_refl. Qed.

Lemma klt_trans a b c : klt a b → klt b c → klt a c.
Proof. apply cmp_trans. Qed.

Lemma kle_klt_eq a b : kle a b ↔ klt a b ∨ a = b.
Proof.
  unfold kle, klt. rewrite <- cmp_eq. destruct (cmp a b); naive_solver.
Qed.

Lemma not_kle a b : ¬ kle a b ↔ klt b a.
Proof.
  unfold kle, klt. rewrite (cmp_antisym a b). destruct (cmp a b); naive_solver.
Qed.

Lemma not_klt a b : ¬ klt a b ↔ kle b a.
Proof.
  unfold kle, klt. rewrite (cmp_antisym a b). destruct (cmp a b); naive_solver.
Qed.

Lemma klt_trichotomy a b : klt a b ∨ a = b ∨ klt b a.
Proof.
  unfold klt. rewrite (cmp_antisym a b), <- (cmp_eq a b). destruct (cmp a b); naive_solver.
Qed.

Lemma klt_kle_trans a b c : klt a b → kle b c → klt a c.
Proof. rewrite kle_klt_eq. intros ? [?| ->]; [by eapply klt_trans|done]. Qed.

Lemma kle_klt_trans a b c : kle a b → klt b c → klt a c.
Proof. rewrite kle_klt_eq. intros [?| ->] ?; [by eapply klt_trans|done]. Qed.

Lemma kltb_false a b : kltb a b = false ↔ kle b a.
Proof. rewrite <- not_klt, <- kltb_true. destruct (kltb a b); naive_solver. Qed.

Lemma kleb_false a b : kleb a b = false ↔ klt b a.
Proof. rewrite <- not_kle, <- kleb_true. destruct (kleb a b); naive_solver. Qed.

#[global] Instance kle_trans_instance : Transitive (@kle A _).
Proof.
  intros a b c ?. rewrite (kle_klt_eq b c). intros [?| <-]; [|done].
  apply kle_klt_eq. left. by eapply kle_klt_trans.
Qed.
#[global] Instance kle_total : Total (@kle A _).
Proof.
  intros a b. rewrite !kle_klt_eq. destruct (klt_trichotomy a b) as [?|[?|?]]; naive_solver.
Qed.
#[global] Instance klt_trans_instance : Transitive (@klt A _).
Proof. intros a b c. apply klt_trans. Qed.
End laws.

(** An order carried along an injection. *)
Definition Ordered_inj `{Ordered B} {A} (f : A → B) `{!Inj (=) (=) f} : Ordered A.
Proof.
  refine {| cmp a b := cmp (f a) (f b) |}.
  - abstract (intros a b; rewrite cmp_eq; split; [apply (inj f)|by intros ->]).
  - abstract (intros a b; apply cmp_antisym).
  - abstract (intros a b c; apply cmp_trans).
Defined.

#[export] Instance N_Ordered : Ordered N.
Proof.
  refine {| cmp := N.compare |}.
  - abstract (intros a b; apply N.compare_eq_iff).
  - abstract (intros a b; apply N.compare_antisym).
  - abstract (intros a b c; rewrite !N.compare_lt_iff; lia).
Defined.

#[export] Instance Z_Ordered : Ordered Z.
Proof.
  refine {| cmp := Z.compare |}.
  - abstract (intros a b; apply Z.compare_eq_iff).
  - abstract (intros a b; apply Z.compare_antisym).
  - abstract (intros a b c; rewrite !Z.compare_lt_iff; lia).
Defined.

#[export] Instance byte_Ordered : Ordered byte.
Proof.
  refine {| cmp a b := N.compare (Byte.to_N a) (Byte.to_N b) |}.
  - abstract (intros a b; rewrite N.compare_eq_iff; split; [|by intros ->];
      intros Heq; pose proof (Byte.of_to_N a) as Ha;
      pose proof (Byte.of_to_N b) as Hb; rewrite Heq in Ha; congruence).
  - abstract (intros a b; apply N.compare_antisym).
  - abstract (intros a b c; rewrite !N.compare_lt_iff; lia).
Defined.

(** Slices compare lexicographically; a proper prefix is smaller. *)
Fixpoint list_cmp `{Ordered A} (l1 l2 : list A) : comparison :=
  match l1, l2 with
  | [], [] => Eq
  | [], _ :: _ => Lt
  | _ :: _, [] => Gt
  | x1 :: l1, x2 :: l2 =>
      match cmp x1 x2 with
      | Eq => list_cmp l1 l2
      | c => c
      end
  end.

#[export] Instance list_Ordered `{Ordered A} : Ordered (list A).
Proof.
  refine {| cmp := list_cmp |}.
  - abstract (intros a; induction a as [|x a IH]; intros [|y b]; simpl; try done;
      pose proof (cmp_eq x y) as Hxy; destruct (cmp x y) eqn:E;
      [rewrite IH; assert (x = y) as -> by (by apply Hxy); naive_solver
      | split; [done|]; intros [= -> ->]; by rewrite cmp_refl in E
      | split; [done|]; intros [= -> ->]; by rewrite cmp_refl in E]).
  - abstract (intros a; induction a as [|x a IH]; intros [|y b]; simpl; try done;
      rewrite (cmp_antisym x y); destruct (cmp x y); simpl; auto).
  - abstract (intros a; induction a as [|x a IH]; intros [|y b] [|z c]; simpl; try done;
      destruct (cmp x y) eqn:E1; [apply cmp_eq in E1 as -> | |done];
      (destruct (cmp y z) eqn:E2; [apply cmp_eq in E2 as <- | |done]);
      rewrite ?E1, ?E2, ?cmp_refl, ?(cmp_trans _ _ _ E1 E2); eauto).
Defined.

Definition pair_cmp `{Ordered A, Ordered B} (p q : A * B) : comparison :=
  match cmp p.1 q.1 with
  | Eq => cmp p.2 q.2
  | c => c
  end.

#[export] Instance pair_Ordered `{Ordered A, Ordered B} : Ordered (A * B).
Proof.
  refine {| cmp := pair_cmp |}.
  - abstract (intros [a1 a2] [b1 b2]; unfold pair_cmp; simpl;
      pose proof (cmp_eq a1 b1) as Hab; destruct (cmp a1 b1) eqn:E;
      [rewrite cmp_eq; naive_solver
      | split; [done|]; intros [= -> ->]; by rewrite cmp_refl in E
      | split; [done|]; intros [= -> ->]; by rewrite cmp_refl in E]).
  - abstract (intros [a1 a2] [b1 b2]; unfold pair_cmp; simpl;
      rewrite (cmp_antisym a1 b1); destruct (cmp a1 b1); simpl; auto using cmp_antisym).
  - abstract (intros [a1 a2] [b1 b2] [c1 c2]; unfold pair_cmp; simpl;
      destruct (cmp a1 b1) eqn:E1; [apply cmp_eq in E1 as -> | |done];
      (destruct (cmp b1 c1) eqn:E2; [apply cmp_eq in E2 as <- | |done]);
      rewrite ?E1, ?E2, ?cmp_refl, ?(cmp_trans _ _ _ E1 E2); eauto using cmp_trans).
Defined.

(** [None] comes before every value. *)
Definition option_cmp `{Ordered A} (a b : option A) : comparison :=
  match a, b with
  | None, None => Eq
  | None, Some _ => Lt
  | Some _, None => Gt
  | Some x, Some y => cmp x y
  end.

#[export] Instance option_Ordered `{Ordered A} : Ordered (option A).
Proof.
  refine {| cmp := option_cmp |}.
  - abstract (intros [x|] [y|]; simpl; try done; rewrite cmp_eq; split; [by intros ->|by intros [= ->]]).
  - abstract (intros [x|] [y|]; simpl; try done; apply cmp_antisym).
  - abstract (intros [x|] [y|] [z|]; simpl; try done; apply cmp_trans).
Defined.

(** [std::cmp::Reverse]. *)
Record Reverse (A : Type) := MkReverse { unreverse : A }.
Arguments MkReverse {A} _.
Arguments unreverse {A} _.

#[export] Instance Reverse_Ordered `{Ordered A} : Ordered (Reverse A).
Proof.
  refine {| cmp a b := cmp (unreverse b) (unreverse a) |}.
  - abstract (intros [a] [b]; simpl; rewrite cmp_eq; split; [by intros ->|by intros [= ->]]).
  - abstract (intros [a] [b]; simpl; apply cmp_antisym).
  - abstract (intros [a] [b] [c] Hab Hbc; simpl in *; by apply (cmp_trans _ _ _ Hbc)).
Defined.

(** ** Ordered iteration over maps and sets *)

Definition fst_lt `{Ordered K} {V} (a b : K * V) : Prop := klt a.1 b.1.

Definition bt_entries `{Countable K, Ordered K} {V} (m : gmap K V) : list (K * V) :=
  merge_sort (λ a b, kle a.1 b.1) (map_to_list m).
Definition bt_keys `{Countable K, Ordered K} {V} (m : gmap K V) : list K :=
  (bt_entries m).*1.
Definition bt_values `{Countable K, Ordered K} {V} (m : gmap K V) : list V :=
  (bt_entries m).*2.
Definition bt_elements `{Countable K, Ordered K} (s : gset K) : list K :=
  merge_sort kle (elements s).

Section bt.
Context `{Countable K, Ordered K} {V : Type}.
Implicit Types (m : gmap K V) (l : list (K * V)).

Lemma bt_entries_Permutation m : bt_entries m ≡ₚ map_to_list m.
Proof. apply merge_sort_Permutation. Qed.

Lemma bt_entries_elem m k v : (k, v) ∈ bt_entries m ↔ m !! k = Some v.
Proof. by rewrite bt_entries_Permutation, elem_of_map_to_list. Qed.

Lemma fst_lt_sorted_of_le l :
  NoDup l.*1 → StronglySorted (λ a b, kle a.1 b.1) l → StronglySorted fst_lt l.
Proof.
  induction l as [|[k v] l IH]; simpl; [constructor|].
  intros [Hk Hnd]%NoDup_cons [Hle Hs]%StronglySorted_cons.
  apply StronglySorted_cons; split; [|by apply IH].
  rewrite Forall_forall in Hle |- *. intros [k' v'] Hin.
  specialize (Hle _ Hin); simpl in Hle. unfold fst_lt; simpl.
  apply kle_klt_eq in Hle as [?| ->]; [done|].
  destruct Hk. apply list_elem_of_fmap. by exists (k', v').
Qed.

Lemma sort_by_key_sorted l :
  NoDup l.*1 → StronglySorted fst_lt (merge_sort (λ a b, kle a.1 b.1) l).
Proof.
  intros Hnd. apply fst_lt_sorted_of_le; [by rewrite merge_sort_Permutation|].
  apply StronglySorted_merge_sort.
  - intros [] [] []; simpl. apply kle_trans_instance.
  - intros [] []; simpl. apply kle_total.
Qed.

Lemma bt_entries_sorted m : StronglySorted fst_lt (bt_entries m).
Proof. apply sort_by_key_sorted, NoDup_fst_map_to_list. Qed.

Lemma fst_lt_sorted_NoDup l : StronglySorted fst_lt l → NoDup l.
Proof.
  induction l as [|x l IH]; [constructor|].
  intros [Hx Hs]%StronglySorted_cons. constructor; [|by apply IH].
  intros Hin. rewrite Forall_forall in Hx. by destruct (klt_irrefl x.1); apply Hx.
Qed.

(** A strictly ascending list is determined by its elements. *)
Lemma fst_lt_sorted_ext l1 l2 :
  StronglySorted fst_lt l1 → StronglySorted fst_lt l2 →
  (∀ x, x ∈ l1 ↔ x ∈ l2) → l1 = l2.
Proof.
  intros Hs1 Hs2 Hext. eapply StronglySorted_unique_strong; [|done|done|].
  - intros x y _ _ Hxy Hyx. destruct (klt_irrefl x.1).
    by eapply (klt_trans (A:=K)); [apply Hxy|apply Hyx].
  - apply NoDup_Permutation; auto using fst_lt_sorted_NoDup.
Qed.

Lemma bt_entries_unique m l :
  StronglySorted fst_lt l → (∀ k v, (k, v) ∈ l ↔ m !! k = Some v) → l = bt_entries m.
Proof.
  intros Hs Hl. apply fst_lt_sorted_ext; [done|apply bt_entries_sorted|].
  intros [k v]. by rewrite Hl, bt_entries_elem.
Qed.

Lemma bt_entries_empty : bt_entries (∅ : gmap K V) = [].
Proof. unfold bt_entries. by rewrite map_to_list_empty. Qed.

Lemma length_bt_entries m : length (bt_entries m) = size m.
Proof. by rewrite bt_entries_Permutation, length_map_to_list. Qed.
End bt.

Lemma StronglySorted_filter {A} (R : relation A) (P : A → Prop) `{∀ x, Decision (P x)} l :
  StronglySorted R l → StronglySorted R (filter P l).
Proof.
  induction l as [|x l IH]; [done|]. intros [Hx Hs]%StronglySorted_cons.
  rewrite filter_cons. case_decide; [|by apply IH].
  apply StronglySorted_cons; split; [|by apply IH].
  rewrite Forall_forall in Hx |- *. intros y [_ ?]%list_elem_of_filter. by apply Hx.
Qed.

Lemma bt_elements_elem `{Countable K, Ordered K} (s : gset K) k : k ∈ bt_elements s ↔ k ∈ s.
Proof. unfold bt_elements. by rewrite merge_sort_Permutation, elem_of_elements. Qed.

Lemma bt_elements_NoDup `{Countable K, Ordered K} (s : gset K) : NoDup (bt_elements s).
Proof. unfold bt_elements. rewrite merge_sort_Permutation. apply NoDup_elements. Qed.

Lemma bt_elements_sorted `{Countable K, Ordered K} (s : gset K) : StronglySorted klt (bt_elements s).
Proof.
  assert (StronglySorted kle (bt_elements s)) as Hs by (apply StronglySorted_merge_sort; apply _).
  pose proof (bt_elements_NoDup s) as Hnd. induction Hs as [|x l Hs IH Hx]; [constructor|].
  apply NoDup_cons in Hnd as [Hnin Hnd]. constructor; [by apply IH|].
  rewrite Forall_forall in Hx |- *. intros y Hy. specialize (Hx y Hy).
  apply kle_klt_eq in Hx as [?| ->]; [done|]. by destruct Hnin.
Qed.

Lemma length_bt_elements `{Countable K, Ordered K} (s : gset K) : length (bt_elements s) = size s.
Proof. unfold bt_elements. by rewrite merge_sort_Permutation. Qed.

Lemma elem_of_bt_values `{Countable K, Ordered K} {V} (m : gmap K V) v :
  v ∈ bt_values m ↔ ∃ k, m !! k = Some v.
Proof.
  unfold bt_values. rewrite list_elem_of_fmap. split.
  - intros ([k v'] & -> & Hin). exists k. by apply bt_entries_elem.
  - intros [k Hk]. exists (k, v). split; [done|]. by apply bt_entries_elem.
Qed.

Lemma elem_of_bt_keys `{Countable K, Ordered K} {V} (m : gmap K V) k : k ∈ bt_keys m ↔ is_Some (m !! k).
Proof.
  unfold bt_keys. rewrite list_elem_of_fmap. split.
  - intros ([k' v] & -> & Hin). apply bt_entries_elem in Hin. eauto.
  - intros [v Hv]. exists (k, v). split; [done|]. by apply bt_entries_elem.
Qed.

(** ** The stable sort of slices *)

(** [Ordering::then_with]. *)
Definition then_with (c : comparison) (next : comparison) : comparison :=
  match c with Eq => next | _ => c end.

Lemma cmp_pair `{Ordered A, Ordered B} (a c : A) (b d : B) : cmp (a, b) (c, d) = then_with (cmp a c) (cmp b d).
Proof. change (pair_cmp (a, b) (c, d) = then_with (cmp a c) (cmp b d)). unfold pair_cmp. cbn. by destruct (cmp a c). Qed.

(** [slice::sort_by]: equal elements keep their order. *)
Fixpoint insert_by {A} (compare : A → A → comparison) (x : A) (l : list A) : list A :=
  match l with
  | [] => [x]
  | y :: rest =>
      match compare x y with
      | Gt => y :: insert_by compare x rest
      | _ => x :: y :: rest
      end
  end.
Definition sort_by {A} (compare : A → A → comparison) (l : list A) : list A := foldr (insert_by compare) [] l.

Lemma insert_by_Permutation {A} (compare : A → A → comparison) x l : insert_by compare x l ≡ₚ x :: l.
Proof.
  induction l as [|y l IH]; cbn; [done|]. destruct (compare x y); [done|done|].
  rewrite IH. apply perm_swap.
Qed.
Lemma sort_by_Permutation {A} (compare : A → A → comparison) l : sort_by compare l ≡ₚ l.
Proof. induction l as [|x l IH]; cbn; [done|]. by rewrite insert_by_Permutation, IH. Qed.

(** Sorting by a key of an ordered type sorts. *)
Section sort_by_key.
Context `{Ordered K} {A} (compare : A → A → comparison) (key : A → K).
Hypothesis compare_key : ∀ x y, compare x y = cmp (key x) (key y).

Lemma insert_by_sorted x l :
  StronglySorted (λ a b, kle (key a) (key b)) l → StronglySorted (λ a b, kle (key a) (key b)) (insert_by compare x l).
Proof.
  induction 1 as [|y l Hs IH Hy]; cbn; [by repeat constructor|].
  destruct (compare x y) eqn:Hc; rewrite compare_key in Hc.
  1,2: assert (kle (key x) (key y)) as Hle by (unfold kle; by rewrite Hc);
    constructor; [by constructor|]; constructor; [done|];
    (eapply Forall_impl; [exact Hy|]); intros z Hz; cbn in *; by trans (key y).
  constructor; [done|]. rewrite insert_by_Permutation. constructor; [|done].
  unfold kle. rewrite (cmp_antisym (key x) (key y)), Hc. done.
Qed.
Lemma sort_by_sorted l : StronglySorted (λ a b, kle (key a) (key b)) (sort_by compare l).
Proof. induction l as [|x l IH]; cbn; [constructor|]. by apply insert_by_sorted. Qed.
End sort_by_key.
