(* ===== verification/Bytes.v ===== *)
(** * Byte strings, big-endian integers and text

    [Vec<u8>] and [&[u8]] are lists of [Byte.byte] ordered lexicographically by
    unsigned value; [String] and [&str] are Rocq strings, whose characters are
    the UTF-8 bytes of the Rust value. *)

From S2P Require Import Prelude.
From S2P Require Import Ordering.

Abbreviation bytes := (list byte).

#[export] Instance byte_eq_decision : EqDecision byte := Byte.byte_eq_dec.
#[export] Program Instance byte_countable : Countable byte :=
  inj_countable Byte.to_N Byte.of_N _.
Next Obligation. apply Byte.of_to_N. Qed.

Lemma to_N_inj a b : Byte.to_N a = Byte.to_N b → a = b.
Proof. intros Heq. apply (cmp_eq (A:=byte)). simpl. by apply N.compare_eq_iff. Qed.

(** ** Slices *)

(** [slice.starts_with(prefix)]. *)
Fixpoint starts_with (prefix key : bytes) : bool :=
  match prefix, key with
  | [], _ => true
  | _ :: _, [] => false
  | p :: prefix, k :: key => bool_decide (p = k) && starts_with prefix key
  end.

(** [slice.get(from..to)]: [None] when the range leaves the slice. *)
Definition slice_get {A} (from to : nat) (l : list A) : option (list A) :=
  if bool_decide (from ≤ to ∧ to ≤ length l) then Some (take (to - from) (drop from l)) else None.

Lemma starts_with_spec prefix key :
  starts_with prefix key = true ↔ ∃ suffix, key = prefix ++ suffix.
Proof.
  revert key; induction prefix as [|p prefix IH]; intros [|k key]; simpl.
  - split; [by exists []|done].
  - split; [by exists (k :: key)|done].
  - naive_solver.
  - rewrite andb_true_iff, bool_decide_eq_true, IH. naive_solver.
Qed.

Lemma starts_with_app prefix suffix : starts_with prefix (prefix ++ suffix) = true.
Proof. apply starts_with_spec. eauto. Qed.

Lemma starts_with_nil key : starts_with [] key = true.
Proof. done. Qed.

(** A key with the prefix is not below the prefix. *)
Lemma starts_with_kle prefix key : starts_with prefix key = true → kle prefix key.
Proof.
  revert key; induction prefix as [|p prefix IH]; intros [|k key]; unfold kle; simpl; try done.
  rewrite andb_true_iff, bool_decide_eq_true. intros [-> ?].
  rewrite N.compare_refl. by apply IH.
Qed.

(** Once an ascending scan has passed the keys with the prefix, no later key has it. *)
Lemma starts_with_past prefix k1 k2 :
  kle prefix k1 → starts_with prefix k1 = false → klt k1 k2 → starts_with prefix k2 = false.
Proof.
  revert k1 k2; induction prefix as [|p prefix IH]; [done|].
  intros [|x k1] [|y k2]; unfold kle, klt; simpl; try done.
  destruct (N.compare_spec (Byte.to_N p) (Byte.to_N x)) as [Hpx|Hpx|Hpx]; try done.
  - apply to_N_inj in Hpx as ->.
    rewrite bool_decide_true by done; simpl.
    intros Hle Hno. destruct (N.compare_spec (Byte.to_N x) (Byte.to_N y)) as [Hxy|Hxy|Hxy];
      try done; intros Hlt.
    + apply to_N_inj in Hxy as ->. rewrite bool_decide_true by done; simpl. by eapply IH.
    + by rewrite bool_decide_false by (intros ->; lia).
  - intros _ _. destruct (N.compare_spec (Byte.to_N x) (Byte.to_N y)); try done; intros _;
      by rewrite bool_decide_false by (intros ->; lia).
Qed.

(** ** Big-endian integers *)

Definition byte_of_N (x : N) : byte := default "000"%byte (Byte.of_N (x mod 256)).

Lemma to_N_byte_of_N x : Byte.to_N (byte_of_N x) = (x mod 256)%N.
Proof.
  unfold byte_of_N. destruct (Byte.of_N (x mod 256)) as [b|] eqn:E; simpl.
  - by apply Byte.to_of_N.
  - apply Byte.of_N_None_iff in E.
    pose proof (N.mod_lt x 256). lia.
Qed.

Lemma to_N_lt b : (Byte.to_N b < 256)%N.
Proof. pose proof (Byte.to_N_bounded b). lia. Qed.

Lemma byte_of_N_to_N b : byte_of_N (Byte.to_N b) = b.
Proof.
  unfold byte_of_N. rewrite N.mod_small by apply to_N_lt. by rewrite Byte.of_to_N.
Qed.

(** [x.to_be_bytes()] for an integer of [n] bytes. *)
Fixpoint to_be_bytes (n : nat) (x : N) : bytes :=
  match n with
  | O => []
  | S n => byte_of_N (x / 256 ^ N.of_nat n) :: to_be_bytes n x
  end.

(** [uN::from_be_bytes]. *)
Fixpoint from_be_bytes (bs : bytes) : N :=
  match bs with
  | [] => 0
  | b :: bs => Byte.to_N b * 256 ^ N.of_nat (length bs) + from_be_bytes bs
  end.

Lemma length_to_be_bytes n x : length (to_be_bytes n x) = n.
Proof. induction n; simpl; congruence. Qed.

Lemma pow256_pos n : (0 < 256 ^ n)%N.
Proof. apply N.neq_0_lt_0, N.pow_nonzero. lia. Qed.

Lemma from_be_bytes_bound bs : (from_be_bytes bs < 256 ^ len bs)%N.
Proof.
  unfold len. induction bs as [|b bs IH]; [simpl; lia|].
  cbn [from_be_bytes length].
  rewrite Nat2N.inj_succ, N.pow_succ_r'. pose proof (to_N_lt b). nia.
Qed.

Lemma to_be_bytes_mod n m x : (n ≤ m)%nat → to_be_bytes n (x mod 256 ^ N.of_nat m) = to_be_bytes n x.
Proof.
  induction n as [|n IH]; intros Hnm; simpl; [done|]. f_equal; [|apply IH; lia].
  assert (N.of_nat m = N.of_nat n + N.succ (N.of_nat (m - S n)))%N as -> by lia.
  rewrite N.pow_add_r, N.pow_succ_r'. pose proof (pow256_pos (N.of_nat n)).
  set (p := (256 ^ N.of_nat n)%N) in *. set (q := (256 ^ N.of_nat (m - S n))%N).
  unfold byte_of_N. do 2 f_equal.
  rewrite N.Div0.mod_mul_r, (N.mul_comm p), N.div_add by lia.
  rewrite (N.div_small (x mod _)) by (apply N.mod_lt; lia).
  rewrite N.add_0_l, N.Div0.mod_mul_r, (N.mul_comm 256), N.Div0.mod_add.
  apply N.Div0.mod_mod.
Qed.

Lemma from_to_be_bytes n x : from_be_bytes (to_be_bytes n x) = (x mod 256 ^ N.of_nat n)%N.
Proof.
  induction n as [|n IH]; [simpl; by rewrite N.mod_1_r|].
  cbn [to_be_bytes from_be_bytes]. rewrite length_to_be_bytes, IH, to_N_byte_of_N.
  rewrite Nat2N.inj_succ, N.pow_succ_r', (N.mul_comm 256).
  rewrite N.Div0.mod_mul_r. lia.
Qed.

Lemma from_to_be_bytes_small n x :
  (x < 256 ^ N.of_nat n)%N → from_be_bytes (to_be_bytes n x) = x.
Proof. intros ?. by rewrite from_to_be_bytes, N.mod_small. Qed.

Lemma to_from_be_bytes bs : to_be_bytes (length bs) (from_be_bytes bs) = bs.
Proof.
  induction bs as [|b bs IH]; [done|]. simpl. pose proof (pow256_pos (N.of_nat (length bs))).
  pose proof (from_be_bytes_bound bs) as Hb. unfold len in Hb. f_equal.
  - rewrite N.div_add_l, N.div_small, N.add_0_r by lia. apply byte_of_N_to_N.
  - rewrite <- (to_be_bytes_mod _ (length bs)), N.add_comm, N.Div0.mod_add, N.mod_small by lia.
    done.
Qed.

Lemma to_be_bytes_inj n x y :
  (x < 256 ^ N.of_nat n)%N → (y < 256 ^ N.of_nat n)%N →
  to_be_bytes n x = to_be_bytes n y → x = y.
Proof.
  intros Hx Hy Heq. rewrite <- (from_to_be_bytes_small n x Hx), Heq.
  by apply from_to_be_bytes_small.
Qed.

(** Big-endian encodings of one width order like the integers they encode. *)
Lemma to_be_bytes_cmp n x y :
  (x < 256 ^ N.of_nat n)%N → (y < 256 ^ N.of_nat n)%N →
  cmp (to_be_bytes n x) (to_be_bytes n y) = N.compare x y.
Proof.
  revert x y; induction n as [|n IH]; intros x y Hx Hy.
  { simpl in *. assert (x = 0%N) as -> by lia. by assert (y = 0%N) as -> by lia. }
  rewrite Nat2N.inj_succ, N.pow_succ_r' in Hx, Hy.
  pose proof (pow256_pos (N.of_nat n)) as Hp. set (p := (256 ^ N.of_nat n)%N) in *.
  assert (x / p < 256)%N as Hxp by (apply N.Div0.div_lt_upper_bound; lia).
  assert (y / p < 256)%N as Hyp by (apply N.Div0.div_lt_upper_bound; lia).
  pose proof (N.div_mod x p ltac:(lia)) as Ex. pose proof (N.div_mod y p ltac:(lia)) as Ey.
  pose proof (N.mod_lt x p ltac:(lia)). pose proof (N.mod_lt y p ltac:(lia)).
  simpl. rewrite !to_N_byte_of_N, !(N.mod_small (_ / _) 256) by done. fold p.
  rewrite <- (to_be_bytes_mod n n x), <- (to_be_bytes_mod n n y) by done. fold p.
  change (list_cmp ?a ?b) with (cmp a b). rewrite IH by done.
  generalize dependent (x / p)%N; generalize dependent (y / p)%N.
  generalize dependent (x mod p)%N; generalize dependent (y mod p)%N.
  intros ry ? rx ? qy ? Ey qx ? Ex. clearbody p.
  destruct (N.compare_spec qx qy) as [->|E|E].
  - destruct (N.compare_spec rx ry), (N.compare_spec x y); try done; nia.
  - symmetry. apply N.compare_lt_iff.
    assert (p * (qx + 1) <= p * qy)%N by (apply N.mul_le_mono_l; lia). lia.
  - symmetry. apply N.compare_gt_iff.
    assert (p * (qy + 1) <= p * qx)%N by (apply N.mul_le_mono_l; lia). lia.
Qed.

(** ** Text *)

Definition str_bytes (s : string) : bytes := String.list_byte_of_string s.

#[export] Instance str_bytes_inj : Inj (=) (=) str_bytes.
Proof.
  intros s t Heq. rewrite <- (String.string_of_list_byte_of_string s).
  unfold str_bytes in Heq. rewrite Heq. apply String.string_of_list_byte_of_string.
Qed.

(** [str] compares bytewise. *)
#[export] Instance string_Ordered : Ordered string := Ordered_inj str_bytes.

(** [s.len()] counts bytes. *)
Definition str_len (s : string) : N := len (str_bytes s).

(** [s.trim().is_empty()]: every character has the Unicode White_Space property.
    The cases are the UTF-8 encodings of U+0009..U+000D, U+0020, U+0085, U+00A0,
    U+1680, U+2000..U+200A, U+2028, U+2029, U+202F, U+205F and U+3000. *)
Fixpoint all_white_space (s : bytes) : bool :=
  match s with
  | [] => true
  | a :: rest =>
      let x := Byte.to_N a in
      if ((9 <=? x) && (x <=? 13) || (x =? 32))%N then all_white_space rest
      else match rest with
      | [] => false
      | b :: rest2 =>
          let y := Byte.to_N b in
          if ((x =? 194) && ((y =? 133) || (y =? 160)))%N then all_white_space rest2
          else match rest2 with
          | [] => false
          | c :: rest3 =>
              let z := Byte.to_N c in
              if ((x =? 225) && (y =? 154) && (z =? 128)
                  || (x =? 226) && (y =? 128)
                     && ((128 <=? z) && (z <=? 138) || (z =? 168) || (z =? 169) || (z =? 175))
                  || (x =? 226) && (y =? 129) && (z =? 159)
                  || (x =? 227) && (y =? 128) && (z =? 128))%N
              then all_white_space rest3 else false
          end
      end
  end.

Definition trim_is_empty (s : string) : bool := all_white_space (str_bytes s).

Definition is_ascii_lowercase (b : byte) : bool :=
  let x := Byte.to_N b in ((97 <=? x) && (x <=? 122))%N.
Definition is_ascii_uppercase (b : byte) : bool :=
  let x := Byte.to_N b in ((65 <=? x) && (x <=? 90))%N.
Definition is_ascii_digit (b : byte) : bool :=
  let x := Byte.to_N b in ((48 <=? x) && (x <=? 57))%N.
Definition is_ascii_alphanumeric (b : byte) : bool :=
  is_ascii_lowercase b || is_ascii_uppercase b || is_ascii_digit b.

Example trim_is_empty_blank : trim_is_empty "   " = true.
Proof. reflexivity. Qed.
Example trim_is_empty_text : trim_is_empty " a " = false.
Proof. reflexivity. Qed.

(** ** A byte form of every countable value, for concrete codecs *)

Fixpoint pos_bytes (p : positive) : bytes :=
  match p with
  | xH => []
  | xO p => x00 :: pos_bytes p
  | xI p => x01 :: pos_bytes p
  end.
Fixpoint bytes_pos (bs : bytes) : positive :=
  match bs with
  | [] => xH
  | x00 :: bs => xO (bytes_pos bs)
  | _ :: bs => xI (bytes_pos bs)
  end.

Lemma bytes_pos_bytes p : bytes_pos (pos_bytes p) = p.
Proof. induction p; simpl; congruence. Qed.

(** ** JSON serialisation *)

(** [serde_json::to_vec] for one type; [None] is its error. *)
Class Serialize (T : Type) := to_json : T → option bytes.
Class SerializeInj (T : Type) `{Serialize T} :=
  to_json_inj : ∀ a b x, to_json a = Some x → to_json b = Some x → a = b.

(** A concrete serialisation of every countable type. *)
Definition countable_serialize `{Countable T} : Serialize T := λ v, Some (pos_bytes (encode v)).

Lemma countable_serialize_inj `{Countable T} : @SerializeInj T countable_serialize.
Proof.
  intros u v x [= <-] [= Heq%(f_equal bytes_pos)]. rewrite !bytes_pos_bytes in Heq. by apply (inj encode).
Qed.
