(* ===== verification/Ieee.v ===== *)
(** * IEEE 754 numbers

    The Rust types [f32] and [f64] as the specification floats of the standard
    library restricted to their format, and the operations on [f32] that the
    sources use: conversion from [usize], arithmetic rounded to nearest even, and
    the total order of [f32::total_cmp]. *)

From Stdlib Require Export Floats.SpecFloat.
From S2P Require Import Prelude.
From S2P Require Import Ordering.

Record f32 := MkF32 { f32_val : spec_float; f32_valid : valid_binary 24 128 f32_val = true }.
Record f64 := MkF64 { f64_val : spec_float; f64_valid : valid_binary 53 1024 f64_val = true }.

Definition sf_is_finite (x : spec_float) : bool :=
  match x with
  | S754_zero _ | S754_finite _ _ _ => true
  | S754_infinity _ | S754_nan => false
  end.

Definition f32_zero : f32 := MkF32 (S754_zero false) eq_refl.
Definition f32_one : f32 := MkF32 (S754_finite false 8388608 (-23)) eq_refl.

(** ** Arithmetic on single-precision numbers *)

Definition f32_mul (x y : spec_float) : spec_float := SFmul 24 128 x y.
Definition f32_add (x y : spec_float) : spec_float := SFadd 24 128 x y.
Definition f32_div (x y : spec_float) : spec_float := SFdiv 24 128 x y.
(** [n as f32]. *)
Definition f32_of_usize (n : N) : spec_float := binary_normalize 24 128 (Z.of_N n) 0 false.
(** [Iterator::sum] for [f32] starts from negative zero. *)
Definition f32_sum (xs : list spec_float) : spec_float := foldl f32_add (S754_zero true) xs.

(** ** The total order *)

(** The sign of a computed NaN is not specified by the language; it is a
    parameter.  Canonical numbers of one sign compare by exponent, then by
    mantissa. *)
Definition total_key (nan_negative : bool) (x : spec_float) : Z * (Z * Z) :=
  match x with
  | S754_nan => ((if nan_negative then -4 else 4), (0, 0))
  | S754_infinity s => ((if s then -3 else 3), (0, 0))
  | S754_finite true m e => (-2, (- e, Z.neg m))
  | S754_finite false m e => (2, (e, Z.pos m))
  | S754_zero s => ((if s then -1 else 1), (0, 0))
  end%Z.

Lemma total_key_inj nan_negative x y : total_key nan_negative x = total_key nan_negative y → x = y.
Proof.
  destruct nan_negative, x as [[]|[]| |[] ? ?], y as [[]|[]| |[] ? ?]; simpl; intros [= ]; try done;
    f_equal; lia.
Qed.

(** [f32::total_cmp]. *)
Definition total_cmp (nan_negative : bool) (x y : spec_float) : comparison :=
  cmp (total_key nan_negative x) (total_key nan_negative y).

Example total_cmp_zeros : total_cmp false (S754_zero true) (S754_zero false) = Lt.
Proof. reflexivity. Qed.
Example f32_half : f32_div (f32_of_usize 1) (f32_of_usize 2) = S754_finite false 8388608 (-24).
Proof. reflexivity. Qed.
