(* ===== verification/Json.v ===== *)
(** * JSON values

    [serde_json::Value] with its number type.  Without the feature
    [preserve_order] a JSON object is an ordered map, which is modelled by its
    entries in key order. *)

From S2P Require Import Prelude.
From S2P Require Import Ordering.
From S2P Require Import Bytes.

(** [serde_json::Number]; a float is its IEEE-754 bit pattern. *)
Inductive JsonNumber :=
  | PosInt (n : N)
  | NegInt (z : Z)
  | Float (bits : N).
Inductive JsonValue :=
  | JNull
  | JBool (b : bool)
  | JNumber (n : JsonNumber)
  | JString (s : string)
  | JArray (values : list JsonValue)
  | JObject (members : list (string * JsonValue)).

Definition as_i64 (v : JsonValue) : option Z :=
  match v with
  | JNumber (PosInt n) => if (n <=? 2 ^ 63 - 1)%N then Some (Z.of_N n) else None
  | JNumber (NegInt z) => Some z
  | _ => None
  end.
Definition is_number (v : JsonValue) : bool :=
  match v with JNumber _ => true | _ => false end.
Definition is_finite (bits : N) : bool := negb (N.land (N.shiftr bits 52) 2047 =? 2047)%N.
Definition number_of_i64 (z : Z) : JsonNumber := if (z <? 0)%Z then NegInt z else PosInt (Z.to_N z).

