(* ===== verification/Storage.v ===== *)
(** * The physical storage contract (crate contextdb-storage)

    Keyspaces, scan pages, the portable page collector [collect_scan_page] and the
    bounded vector scan [collect_prefix_pages] built on it.  The storage traits and
    their laws are in [Engine]. *)

From S2P Require Import Prelude.
From S2P Require Import Ordering.
From S2P Require Import Bytes.

(** ** Errors *)

(** Storage boundary failures.  [&'static str] and [String] fields are strings. *)
Inductive StorageError :=
  | InvalidKeyspace (name : string)
  | SnapshotUnavailable (requested head : N)
  | WriteConflict (base head : N)
  | LockPoisoned
  | InvalidScanPage (field : string) (value maximum : N)
  | ResourceExhausted (resource : string) (limit required : N)
  | ScanContractViolation (reason : string)
  | Backend (backend message : string)
  | Unsupported (backend operation : string).

(** ** Keyspaces *)

Record Keyspace := MkKeyspace { as_str : string }.

#[export] Instance Keyspace_eq_dec : EqDecision Keyspace.
Proof. solve_decision. Defined.

Definition keyspace_byte_ok (b : byte) : bool :=
  is_ascii_alphanumeric b || bool_decide (b = "-"%byte) || bool_decide (b = "_"%byte).

Definition Keyspace_new (value : string) : result StorageError Keyspace :=
  let valid :=
    negb (bool_decide (value = EmptyString))
    && (str_len value <=? 128)%N
    && forallb keyspace_byte_ok (str_bytes value) in
  if negb valid then Err (InvalidKeyspace value) else Ok (MkKeyspace value).

(** ** Snapshots, durability and entries *)

Inductive SnapshotSelector :=
  | Latest
  | At (sequence : N).

Inductive Durability :=
  | Ephemeral
  | Sync.

#[export] Instance Durability_eq_dec : EqDecision Durability.
Proof. solve_decision. Defined.

Record Entry := MkEntry { key : bytes; value : bytes }.

#[export] Instance Entry_eq_dec : EqDecision Entry.
Proof. solve_decision. Defined.

Definition MAX_SCAN_PAGE_ENTRIES : N := 65536.
Definition MAX_SCAN_PAGE_BYTES : N := 64 * 1024 * 1024.

Record ScanPageRequest := MkScanPageRequest {
  prefix : bytes;
  start_after : option bytes;
  max_entries : N;
  max_bytes : N;
}.

Definition validate_request (r : ScanPageRequest) : result StorageError unit :=
  if ((max_entries r =? 0) || (MAX_SCAN_PAGE_ENTRIES <? max_entries r))%N then
    Err (InvalidScanPage "max_entries" (max_entries r) MAX_SCAN_PAGE_ENTRIES)
  else if ((max_bytes r =? 0) || (MAX_SCAN_PAGE_BYTES <? max_bytes r))%N then
    Err (InvalidScanPage "max_bytes" (max_bytes r) MAX_SCAN_PAGE_BYTES)
  else Ok tt.

Record ScanPage := MkScanPage {
  entries : list Entry;
  continuation : option bytes;
}.

(** ** The page collector *)

(** [key.len().checked_add(value.len())]. *)
Definition checked_entry_bytes (e : Entry) : option N :=
  checked_add USIZE_MAX (len (key e)) (len (value e)).

(** The body of the loop of [collect_scan_page]: [page], [used_bytes] and
    [previous_key] are its mutable locals. *)
Fixpoint scan_page_loop (request : ScanPageRequest)
    (items : list (result StorageError Entry))
    (page : list Entry) (used_bytes : N) (previous_key : option bytes)
    : result StorageError ScanPage :=
  match items with
  | [] => Ok {| entries := page; continuation := None |}
  | item :: rest =>
      let? entry := item in
      if match previous_key with
         | Some previous => kleb (key entry) previous
         | None => false
         end
      then Err (ScanContractViolation "backend scan is not in strict lexicographic key order")
      else
      let previous_key := Some (key entry) in
      if negb (starts_with (prefix request) (key entry)) then
        if kltb (key entry) (prefix request)
        then scan_page_loop request rest page used_bytes previous_key
        else Ok {| entries := page; continuation := None |}
      else if match start_after request with
              | Some start_after => kleb (key entry) start_after
              | None => false
              end
      then scan_page_loop request rest page used_bytes previous_key
      else
      let? entry_bytes :=
        ok_or (checked_entry_bytes entry)
          (ResourceExhausted "scan_page_bytes" (max_bytes request) USIZE_MAX) in
      if bool_decide (page = []) && (max_bytes request <? entry_bytes)%N
      then Err (ResourceExhausted "scan_page_bytes" (max_bytes request) entry_bytes)
      else if (len page =? max_entries request)%N
           || match checked_add USIZE_MAX used_bytes entry_bytes with
              | None => true
              | Some next => (max_bytes request <? next)%N
              end
      then Ok {| entries := page; continuation := key <$> last page |}
      else scan_page_loop request rest (page ++ [entry]) (used_bytes + entry_bytes)%N previous_key
  end.

Definition collect_scan_page (request : ScanPageRequest)
    (items : list (result StorageError Entry)) : result StorageError ScanPage :=
  try? validate_request request in
  scan_page_loop request items [] 0 None.

(** ** The bounded vector scan *)

Definition LEGACY_SCAN_PAGE_ENTRIES : N := 4096.
Definition LEGACY_SCAN_PAGE_BYTES : N := 16 * 1024 * 1024.
Definition LEGACY_SCAN_MAX_ENTRIES : N := 10000000.
Definition LEGACY_SCAN_MAX_BYTES : N := 512 * 1024 * 1024.

(** The mutable locals of [collect_prefix_pages]. *)
Record PrefixScan := MkPrefixScan {
  scanned : list Entry;
  cursor : option bytes;
  total_bytes : N;
}.

(** The inner [for entry in &page.entries] loop that adds up [total_bytes]. *)
Definition add_page_bytes (total : N) (es : list Entry) : result StorageError N :=
  try_fold (λ total entry,
    let overflow := ResourceExhausted "legacy_scan_bytes" LEGACY_SCAN_MAX_BYTES USIZE_MAX in
    let? entry_bytes := ok_or (checked_entry_bytes entry) overflow in
    ok_or (checked_add USIZE_MAX total entry_bytes) overflow) total es.

(** One iteration of the [loop] of [collect_prefix_pages]; the snapshot is given
    by its [scan_prefix_page]. *)
Definition collect_prefix_step (scan_prefix_page : ScanPageRequest → result StorageError ScanPage)
    (pfx : bytes) (st : PrefixScan) : PrefixScan + result StorageError (list Entry) :=
  match scan_prefix_page {| prefix := pfx; start_after := cursor st;
                            max_entries := LEGACY_SCAN_PAGE_ENTRIES;
                            max_bytes := LEGACY_SCAN_PAGE_BYTES |} with
  | Err e => inr (Err e)
  | Ok page =>
      if bool_decide (is_Some (continuation page)) && bool_decide (entries page = []) then
        inr (Err (ScanContractViolation "continuation page made no progress"))
      else if match cursor st, continuation page with
              | Some previous, Some next => kleb next previous
              | _, _ => false
              end
      then inr (Err (ScanContractViolation "continuation key did not advance"))
      else
      match add_page_bytes (total_bytes st) (entries page) with
      | Err e => inr (Err e)
      | Ok total =>
          let required_entries :=
            saturating_add USIZE_MAX (len (scanned st)) (len (entries page)) in
          if (LEGACY_SCAN_MAX_ENTRIES <? required_entries)%N then
            inr (Err (ResourceExhausted "legacy_scan_entries" LEGACY_SCAN_MAX_ENTRIES
                        required_entries))
          else if (LEGACY_SCAN_MAX_BYTES <? total)%N then
            inr (Err (ResourceExhausted "legacy_scan_bytes" LEGACY_SCAN_MAX_BYTES total))
          else
          let all := scanned st ++ entries page in
          match continuation page with
          | None => inr (Ok all)
          | Some next => inl {| scanned := all; cursor := Some next; total_bytes := total |}
          end
      end
  end.

(** The fuel is one more than the entry cap.  Every further iteration adds an
    entry, so the fuel is never used up (lemma [collect_prefix_pages_fuel]); the
    branch for it repeats the error of the cap. *)
Definition LEGACY_SCAN_FUEL : positive := 10000001.

Definition collect_prefix_pages
    (scan_prefix_page : ScanPageRequest → result StorageError ScanPage)
    (pfx : bytes) : result StorageError (list Entry) :=
  match loop_pos LEGACY_SCAN_FUEL (collect_prefix_step scan_prefix_page pfx)
          {| scanned := []; cursor := None; total_bytes := 0 |} with
  | inr r => r
  | inl st =>
      Err (ResourceExhausted "legacy_scan_entries" LEGACY_SCAN_MAX_ENTRIES (len (scanned st)))
  end.

(** ** What a page promises

    [wanted] is the set of keys a request asks for; [page_from] is the greedy
    fill of a page with the wanted entries, the reference the collector is
    compared with. *)

Definition entry_size (e : Entry) : N := len (key e) + len (value e).
Definition total_size (es : list Entry) : N := foldr (λ e acc, (entry_size e + acc)%N) 0%N es.
Definition key_lt (a b : Entry) : Prop := klt (key a) (key b).
Definition after (cursor : option bytes) (k : bytes) : Prop :=
  match cursor with
  | Some c => klt c k
  | None => True
  end.
Definition wanted (r : ScanPageRequest) (e : Entry) : Prop :=
  starts_with (prefix r) (key e) = true ∧ after (start_after r) (key e).

#[export] Instance after_dec c k : Decision (after c k).
Proof. destruct c; simpl; apply _. Defined.
#[export] Instance wanted_dec r e : Decision (wanted r e).
Proof. unfold wanted; apply _. Defined.

Fixpoint page_from (r : ScanPageRequest) (page : list Entry) (used : N) (ws : list Entry)
    : result StorageError ScanPage :=
  match ws with
  | [] => Ok {| entries := page; continuation := None |}
  | w :: rest =>
      let? size :=
        ok_or (checked_entry_bytes w) (ResourceExhausted "scan_page_bytes" (max_bytes r) USIZE_MAX) in
      if bool_decide (page = []) && (max_bytes r <? size)%N
      then Err (ResourceExhausted "scan_page_bytes" (max_bytes r) size)
      else if (len page =? max_entries r)%N || (max_bytes r <? used + size)%N
      then Ok {| entries := page; continuation := key <$> last page |}
      else page_from r (page ++ [w]) (used + size) rest
  end.

Lemma total_size_app es1 es2 : total_size (es1 ++ es2) = (total_size es1 + total_size es2)%N.
Proof. unfold total_size. induction es1; simpl; [done|]. rewrite IHes1. lia. Qed.

Lemma key_lt_trans : Transitive key_lt.
Proof. intros a b c. apply klt_trans. Qed.
#[export] Existing Instance key_lt_trans.

Lemma validate_request_Ok r :
  validate_request r = Ok tt ↔
  (0 < max_entries r ≤ MAX_SCAN_PAGE_ENTRIES ∧ 0 < max_bytes r ≤ MAX_SCAN_PAGE_BYTES)%N.
Proof.
  unfold validate_request.
  destruct (_ || _) eqn:E1; [split; [done|]; bool_simpl; lia|].
  destruct ((max_bytes r =? 0)%N || _) eqn:E2; bool_simpl; split; intros; try done; lia.
Qed.

Lemma checked_entry_bytes_small e :
  (entry_size e ≤ USIZE_MAX)%N → checked_entry_bytes e = Some (entry_size e).
Proof. intros ?. by apply checked_add_Some. Qed.

Lemma checked_entry_bytes_Some e n : checked_entry_bytes e = Some n → n = entry_size e.
Proof. by intros [-> _]%checked_add_Some. Qed.

Lemma last_app_singleton {A} (l : list A) x : last (l ++ [x]) = Some x.
Proof. apply last_snoc. Qed.

(** No wanted key follows a key past the prefix range. *)
Lemma filter_wanted_past r e es :
  starts_with (prefix r) (key e) = false → kle (prefix r) (key e) →
  Forall (key_lt e) es → filter (wanted r) es = [].
Proof.
  intros Hno Hle Hes. induction es as [|e' es IH]; [done|].
  apply Forall_cons in Hes as [Hlt Hes].
  rewrite filter_cons_False; [by apply IH|]. intros [Hsw _].
  by rewrite (starts_with_past _ _ _ Hle Hno Hlt) in Hsw.
Qed.

Section collector.
Context (r : ScanPageRequest) (Hvalid : validate_request r = Ok tt).

(** On a strictly ascending source the loop is the greedy fill with the wanted entries. *)
Lemma scan_page_loop_spec es page used prev :
  StronglySorted key_lt es → Forall (λ e, after prev (key e)) es → (used ≤ max_bytes r)%N →
  scan_page_loop r (Ok <$> es) page used prev = page_from r page used (filter (wanted r) es).
Proof using Hvalid.
  apply validate_request_Ok in Hvalid as [_ [_ Hmax]].
  revert page used prev; induction es as [|e es IH]; intros page used prev Hs Hprev Hu; [done|].
  apply StronglySorted_cons in Hs as [Hlt Hs].
  apply Forall_cons in Hprev as [Hp Hprev].
  assert (Forall (λ e', after (Some (key e)) (key e')) es) as Hnext by done.
  simpl. replace (match prev with Some p => kleb (key e) p | None => false end) with false.
  2:{ destruct prev as [p|]; [|done]. symmetry. by apply kleb_false. }
  rewrite filter_cons. destruct (starts_with (prefix r) (key e)) eqn:Hsw; simpl.
  2:{ rewrite decide_False by (intros [? _]; congruence).
      destruct (kltb _ _) eqn:Hk; [by apply IH|].
      apply kltb_false in Hk. by rewrite (filter_wanted_past r e es). }
  destruct (decide (wanted r e)) as [[_ Hw]|Hnw].
  2:{ replace (match start_after r with Some s => kleb (key e) s | None => false end) with true;
        [by apply IH|].
      unfold wanted, after in Hnw. rewrite Hsw in Hnw. destruct (start_after r) as [s|]; [|naive_solver].
      symmetry. apply kleb_true, not_klt. naive_solver. }
  replace (match start_after r with Some s => kleb (key e) s | None => false end) with false.
  2:{ unfold after in Hw. destruct (start_after r); [|done]. symmetry. by apply kleb_false. }
  simpl. destruct (checked_entry_bytes e) as [size|]; simpl; [|done].
  destruct (bool_decide (page = []) && _) eqn:E1; [done|].
  destruct (len page =? max_entries r)%N eqn:E2; [done|]. simpl.
  destruct (max_bytes r <? used + size)%N eqn:E3.
  - destruct (checked_add _ _ _) as [n|] eqn:Ec; [|done].
    apply checked_add_Some in Ec as [-> _]. by rewrite E3.
  - bool_simpl. rewrite (proj2 (checked_add_Some USIZE_MAX used _ (used + size)%N)).
    + rewrite (proj2 (N.ltb_ge _ _)) by done. by apply IH.
    + split; [done|]. etrans; [done|]. etrans; [done|]. by vm_compute.
Qed.

(** A full description of the pages the greedy fill returns. *)
Definition page_of (page ws : list Entry) (p : ScanPage) : Prop :=
  ∃ taken rest, ws = taken ++ rest ∧ entries p = page ++ taken ∧
    (len (entries p) ≤ max_entries r)%N ∧ (total_size (entries p) ≤ max_bytes r)%N ∧
    match rest with
    | [] => continuation p = None
    | w :: _ =>
        (∃ e, last (entries p) = Some e ∧ continuation p = Some (key e)) ∧
        (len (entries p) = max_entries r ∨
         max_bytes r < total_size (entries p) + entry_size w)%N
    end.

Lemma page_from_Ok page ws p :
  (len page ≤ max_entries r)%N → (total_size page ≤ max_bytes r)%N →
  page_from r page (total_size page) ws = Ok p → page_of page ws p.
Proof using Hvalid.
  pose proof Hvalid as [[Hme _] _]%validate_request_Ok.
  revert page; induction ws as [|w ws IH]; intros page Hlen Hsz; simpl.
  { intros [= <-]. exists [], []. rewrite ?app_nil_r.
    split_and!; try done. }
  destruct (checked_entry_bytes w) as [size|] eqn:Ew; simpl; [|done].
  apply checked_entry_bytes_Some in Ew as ->.
  destruct (bool_decide (page = []) && _) eqn:E1; [done|].
  destruct (_ || _) eqn:E2.
  - intros [= <-]. exists [], (w :: ws). rewrite ?app_nil_r. bool_simpl.
    split_and!; try done.
    destruct (last page) as [e|] eqn:Hl; [by exists e|]. apply last_None in Hl as ->. exfalso.
    unfold len, total_size in E2; simpl in E2. rewrite bool_decide_true in E1 by done.
    destruct E1; [done|]. lia.
  - bool_simpl. destruct E2 as [E2 E3].
    replace (total_size page + entry_size w)%N with (total_size (page ++ [w])).
    2:{ rewrite total_size_app. unfold total_size at 2. simpl. lia. }
    intros (taken & rest & -> & Hent & Hrest)%IH.
    + exists (w :: taken), rest. by rewrite Hent, <- app_assoc in Hrest |- *.
    + rewrite len_app, len_cons, len_nil. lia.
    + rewrite total_size_app. unfold total_size at 2. simpl. lia.
Qed.

Lemma max_bytes_small : (max_bytes r ≤ USIZE_MAX)%N.
Proof using Hvalid.
  pose proof Hvalid as [_ [_ Hm]]%validate_request_Ok. etrans; [exact Hm|]. by vm_compute.
Qed.

Lemma page_from_fits page used ws :
  Forall (λ w, (entry_size w ≤ max_bytes r)%N) ws → ∃ p, page_from r page used ws = Ok p.
Proof using Hvalid.
  pose proof max_bytes_small.
  revert page used; induction ws as [|w ws IH]; intros page used Hws; simpl; [by eexists|].
  apply Forall_cons in Hws as [Hw Hws]. rewrite checked_entry_bytes_small by lia. simpl.
  rewrite (proj2 (N.ltb_ge _ (entry_size w))) by done.
  rewrite andb_false_r. destruct (_ || _); [by eexists|by apply IH].
Qed.

Lemma page_from_Err page used ws e :
  page_from r page used ws = Err e →
  ∃ w required, w ∈ ws ∧ (max_bytes r < entry_size w)%N ∧
    (page = [] ∧ head ws = Some w ∨ (USIZE_MAX < entry_size w)%N) ∧
    e = ResourceExhausted "scan_page_bytes" (max_bytes r) required.
Proof using Hvalid.
  pose proof max_bytes_small.
  revert page used; induction ws as [|w ws IH]; intros page used; simpl; [done|].
  destruct (checked_entry_bytes w) as [size|] eqn:Ew; simpl.
  2:{ intros [= <-]. apply checked_add_None in Ew. exists w, USIZE_MAX. unfold entry_size.
      split_and!; [set_solver|lia|by right|done]. }
  apply checked_entry_bytes_Some in Ew as ->.
  destruct (bool_decide (page = []) && _) eqn:E1.
  - intros [= <-]. bool_simpl. destruct E1 as [Hnil%bool_decide_eq_true Hbig].
    exists w, (entry_size w). split_and!; [set_solver|done|by left|done].
  - destruct (_ || _); [done|]. intros (w' & q & Hw' & Hb & [[Hnil _]|Hu] & ->)%IH.
    + by apply app_nil in Hnil as [_ ?].
    + exists w', q. split_and!; [set_solver|done|by right|done].
Qed.
End collector.

Lemma collect_scan_page_fill r es :
  validate_request r = Ok tt → StronglySorted key_lt es →
  collect_scan_page r (Ok <$> es) = page_from r [] 0 (filter (wanted r) es).
Proof.
  intros Hv Hs. unfold collect_scan_page. rewrite Hv. simpl.
  apply scan_page_loop_spec; try done; [|lia]. by apply Forall_true.
Qed.

(** ** The vector scan over pages *)

(** [page_reader scan es]: the pages of [scan] are those of the ascending table [es]. *)
Definition page_reader (scan : ScanPageRequest → result StorageError ScanPage)
    (es : list Entry) : Prop :=
  StronglySorted key_lt es ∧
  ∀ r, validate_request r = Ok tt → scan r = page_from r [] 0 (filter (wanted r) es).

Definition with_prefix (pfx : bytes) (es : list Entry) : list Entry :=
  filter (λ e, starts_with pfx (key e) = true) es.

(** The caps of the vector scan. *)
Definition scan_fits (ws : list Entry) : Prop :=
  Forall (λ w, (entry_size w ≤ LEGACY_SCAN_PAGE_BYTES)%N) ws ∧
  (len ws ≤ LEGACY_SCAN_MAX_ENTRIES)%N ∧ (total_size ws ≤ LEGACY_SCAN_MAX_BYTES)%N.

Lemma collect_prefix_pages_fuel scan pfx :
  ∃ r, loop_pos LEGACY_SCAN_FUEL (collect_prefix_step scan pfx)
         {| scanned := []; cursor := None; total_bytes := 0 |} = inr r.
Proof.
  rewrite loop_pos_nat.
  apply (loop_nat_terminates _ (λ st, (len (scanned st) ≤ LEGACY_SCAN_MAX_ENTRIES)%N)
    (λ st, N.to_nat (LEGACY_SCAN_MAX_ENTRIES - len (scanned st)))).
  - intros st st' Hst. unfold collect_prefix_step.
    destruct (scan _) as [page|]; [|done].
    destruct (bool_decide (is_Some _) && _) eqn:E1; [done|].
    destruct (match cursor st with Some _ => _ | None => _ end); [done|].
    destruct (add_page_bytes _ _) as [total|]; [|done].
    destruct (_ <? _)%N eqn:E2; [done|]. destruct (_ <? total)%N; [done|].
    destruct (continuation page) as [next|] eqn:Ec; [|done]. intros [= <-]; simpl.
    rewrite len_app. unfold saturating_add in E2. bool_simpl.
    assert (0 < len (entries page))%N.
    { destruct (entries page); [|rewrite len_cons; lia].
      destruct E1 as [E1|E1]; apply bool_decide_eq_false in E1; naive_solver. }
    unfold LEGACY_SCAN_MAX_ENTRIES, USIZE_MAX, U64_MAX in *. lia.
  - simpl. unfold len, LEGACY_SCAN_MAX_ENTRIES. simpl. lia.
  - simpl. unfold len, LEGACY_SCAN_MAX_ENTRIES, LEGACY_SCAN_FUEL. simpl. lia.
Qed.

Lemma add_page_bytes_small total es :
  (total + total_size es ≤ USIZE_MAX)%N → add_page_bytes total es = Ok (total + total_size es)%N.
Proof.
  unfold add_page_bytes. revert total; induction es as [|e es IH]; intros total; simpl.
  { intros _. f_equal. unfold total_size; simpl; lia. }
  unfold total_size; simpl. fold (total_size es). intros Hle.
  rewrite checked_entry_bytes_small by lia. simpl.
  rewrite (proj2 (checked_add_Some USIZE_MAX total _ (total + entry_size e)%N)) by lia. simpl.
  rewrite IH by lia. f_equal. lia.
Qed.

Lemma total_size_Forall es bound :
  (total_size es ≤ bound)%N → Forall (λ e, (entry_size e ≤ bound)%N) es.
Proof.
  unfold total_size. induction es as [|e es IH]; simpl; [constructor|].
  intros Hle. constructor; [lia|]. apply IH. lia.
Qed.

Lemma sorted_last_kle pre e x :
  StronglySorted key_lt pre → last pre = Some e → x ∈ pre → kle (key x) (key e).
Proof.
  intros Hs Hl. apply last_Some in Hl as [pre' ->].
  apply StronglySorted_app in Hs as [Hs _].
  rewrite elem_of_app, list_elem_of_singleton. intros [Hx| ->]; apply kle_klt_eq; [left|by right].
  apply Hs; [done|]. by apply list_elem_of_singleton.
Qed.

(** Resuming after the last key of what was returned asks for exactly the rest. *)
Lemma wanted_resume pfx es pre rest r :
  StronglySorted key_lt es → with_prefix pfx es = pre ++ rest →
  prefix r = pfx → start_after r = key <$> last pre → filter (wanted r) es = rest.
Proof.
  intros Hs Hes Hpfx Hsa.
  assert (StronglySorted key_lt (pre ++ rest)) as Hpr.
  { rewrite <- Hes. by apply StronglySorted_filter. }
  assert (filter (wanted r) es = filter (λ e, after (start_after r) (key e)) (pre ++ rest)) as ->.
  { rewrite <- Hes. unfold with_prefix. rewrite list_filter_filter.
    apply list_filter_iff. intros e. unfold wanted. rewrite Hpfx. naive_solver. }
  apply StronglySorted_app in Hpr as (Hcross & Hpre & _). rewrite filter_app, Hsa.
  destruct (last pre) as [e|] eqn:Hl; simpl.
  - rewrite filter_none, filter_all; [done|..]; apply Forall_forall; intros x Hx.
    + apply Hcross; [|done]. apply last_Some in Hl as [l' ->]. set_solver.
    + apply not_klt. by eapply sorted_last_kle.
  - apply last_None in Hl as ->. simpl. by apply filter_all, Forall_true.
Qed.

Section vector_scan.
Context (scan : ScanPageRequest → result StorageError ScanPage) (es : list Entry).
Context (Hreader : page_reader scan es).
Context (pfx : bytes).
#[local] Abbreviation ws := (with_prefix pfx es).

Definition scan_outcome (r : result StorageError (list Entry)) : Prop :=
  (scan_fits ws ∧ r = Ok ws) ∨
  (¬ scan_fits ws ∧ ∃ resource limit required, r = Err (ResourceExhausted resource limit required)).

Definition scan_invariant (st : PrefixScan) : Prop :=
  ∃ rest, ws = scanned st ++ rest ∧ cursor st = key <$> last (scanned st) ∧
    total_bytes st = total_size (scanned st) ∧ scan_fits (scanned st).

Lemma collect_prefix_step_invariant st :
  scan_invariant st →
  match collect_prefix_step scan pfx st with
  | inl st' => scan_invariant st'
  | inr r => scan_outcome r
  end.
Proof using Hreader.
  destruct Hreader as [Hs Hscan]. intros (rest & Hws & Hcur & Htot & Hfit & Hn & Hb).
  unfold collect_prefix_step.
  set (r := {| prefix := pfx; start_after := cursor st; max_entries := _; max_bytes := _ |}).
  assert (validate_request r = Ok tt) as Hv by done.
  rewrite (Hscan r Hv), (wanted_resume pfx es (scanned st) rest r Hs Hws eq_refl Hcur).
  destruct (page_from r [] 0 rest) as [page|e] eqn:Hp.
  2:{ apply page_from_Err in Hp as (w & q & Hin & Hbig & _ & ->); [|done]. right.
      split; [|by eauto]. intros (Hall & _).
      rewrite Hws, Forall_app, !Forall_forall in Hall. destruct Hall as [_ Hall].
      specialize (Hall w Hin). simpl in Hbig, Hall. lia. }
  apply (page_from_Ok r Hv []) in Hp as (taken & rest' & -> & Hent & Hl & Hsz & Hc); try done.
  simpl in Hent. subst taken.
  destruct (bool_decide (is_Some _) && _) eqn:E1.
  { bool_simpl. destruct E1 as [[? E0]%bool_decide_eq_true E1%bool_decide_eq_true].
    rewrite E1 in Hc. destruct rest'; [congruence|]. by destruct Hc as [(? & ? & ?) _]. }
  assert (match cursor st, continuation page with
          | Some previous, Some next => kleb next previous | _, _ => false end = false) as ->.
  { destruct (cursor st) as [c|], (continuation page) as [n|] eqn:En; try done.
    destruct rest' as [|w rest']; [done|]. destruct Hc as [(e & He & [= ->]) _].
    destruct (last (scanned st)) as [e0|] eqn:He0; simplify_eq/=. apply kleb_false.
    assert (StronglySorted key_lt ws) as Hsw by (by apply StronglySorted_filter).
    rewrite Hws in Hsw. eapply (StronglySorted_app_1_elem_of key_lt _ _ e0 e Hsw).
    - apply last_Some in He0 as [? ->]. set_solver.
    - apply last_Some in He as [? ->]. set_solver. }
  change (max_bytes r) with LEGACY_SCAN_PAGE_BYTES in *.
  change (max_entries r) with LEGACY_SCAN_PAGE_ENTRIES in *.
  rewrite add_page_bytes_small.
  2:{ unfold LEGACY_SCAN_MAX_BYTES, LEGACY_SCAN_PAGE_BYTES, USIZE_MAX, U64_MAX in *. lia. }
  assert (saturating_add USIZE_MAX (len (scanned st)) (len (entries page))
          = len (scanned st ++ entries page)) as ->.
  { unfold saturating_add. rewrite len_app.
    unfold LEGACY_SCAN_MAX_ENTRIES, LEGACY_SCAN_PAGE_ENTRIES, USIZE_MAX, U64_MAX in *. lia. }
  rewrite Htot, <- total_size_app.
  assert (ws = (scanned st ++ entries page) ++ rest') as Hws' by (by rewrite <- app_assoc).
  destruct (LEGACY_SCAN_MAX_ENTRIES <? _)%N eqn:E2.
  { right. bool_simpl. split; [|by eauto]. intros (_ & Hle & _). rewrite Hws', !len_app in Hle. lia. }
  destruct (LEGACY_SCAN_MAX_BYTES <? _)%N eqn:E3; bool_simpl.
  { right. split; [|by eauto]. intros (_ & _ & Hle). rewrite Hws', total_size_app in Hle. lia. }
  assert (scan_fits (scanned st ++ entries page)) as Hfits.
  { split_and!; [|by rewrite len_app|done]. apply Forall_app; split; [done|].
    by apply total_size_Forall. }
  destruct rest' as [|w rest'].
  - rewrite Hc. left. rewrite app_nil_r in Hws'. by rewrite Hws'.
  - destruct Hc as [(e & He & ->) _]. exists (w :: rest'). simpl.
    split_and!; try done. rewrite last_app, He. done.
Qed.

(** The vector scan returns every entry with the prefix, in key order, or says
    that one of its caps is exceeded; it never reports a contract violation. *)
Lemma collect_prefix_pages_outcome : scan_outcome (collect_prefix_pages scan pfx).
Proof using Hreader.
  unfold collect_prefix_pages. destruct (collect_prefix_pages_fuel scan pfx) as [r Hr].
  rewrite Hr. rewrite loop_pos_nat in Hr.
  eapply (loop_nat_invariant _ scan_invariant scan_outcome); [|..|exact Hr].
  - apply collect_prefix_step_invariant.
  - exists ws. split_and!; try done.
Qed.

Lemma collect_prefix_pages_fits :
  scan_fits ws → collect_prefix_pages scan pfx = Ok ws.
Proof using Hreader. destruct collect_prefix_pages_outcome as [[_ ?]|[? _]]; [done|naive_solver]. Qed.

Lemma collect_prefix_pages_Ok l : collect_prefix_pages scan pfx = Ok l → l = ws.
Proof using Hreader.
  destruct collect_prefix_pages_outcome as [[_ ->]|[_ (? & ? & ? & ->)]]; congruence.
Qed.
End vector_scan.

(** ** Pages of arbitrary sources *)

(** What holds of a page whatever the source yields. *)
Definition page_safe (r : ScanPageRequest) (page : list Entry) : Prop :=
  StronglySorted key_lt page ∧ Forall (wanted r) page ∧
  (len page ≤ max_entries r)%N ∧ (total_size page ≤ max_bytes r)%N.

Lemma page_safe_snoc r page e previous :
  page_safe r page → Forall (λ x, ∃ p, previous = Some p ∧ kle (key x) p) page →
  match previous with Some p => kleb (key e) p | None => false end = false →
  wanted r e → len page ≠ max_entries r → (total_size page + entry_size e ≤ max_bytes r)%N →
  page_safe r (page ++ [e]).
Proof.
  intros (Hs & Hw & Hl & Hb) Hprev Hp He Hne Hsz. split_and!.
  - apply StronglySorted_app_2; [|done|repeat constructor].
    intros x y Hx ->%list_elem_of_singleton. rewrite Forall_forall in Hprev.
    destruct (Hprev x Hx) as (p & -> & Hle). apply kleb_false in Hp. unfold key_lt.
    by eapply kle_klt_trans.
  - apply Forall_app; split; [done|by constructor].
  - rewrite len_app, len_cons, len_nil. lia.
  - rewrite total_size_app. unfold total_size at 2. simpl. lia.
Qed.

Lemma scan_page_loop_safe r items page previous p :
  page_safe r page → Forall (λ x, ∃ p, previous = Some p ∧ kle (key x) p) page →
  scan_page_loop r items page (total_size page) previous = Ok p →
  page_safe r (entries p) ∧ ∀ k, continuation p = Some k → key <$> last (entries p) = Some k.
Proof.
  revert page previous; induction items as [|item items IH]; intros page previous Hsafe Hprev; simpl.
  { by intros [= <-]. }
  destruct item as [e|]; simpl; [|done].
  destruct (match previous with Some _ => _ | None => _ end) eqn:Hp; [done|].
  assert (∀ x, x ∈ page → klt (key x) (key e)) as Hlt.
  { intros x Hx. rewrite Forall_forall in Hprev. destruct (Hprev x Hx) as (q & -> & Hle).
    apply kleb_false in Hp. by eapply kle_klt_trans. }
  assert (Forall (λ x, ∃ p, Some (key e) = Some p ∧ kle (key x) p) page) as Hprev'.
  { apply Forall_forall. intros x Hx. exists (key e). split; [done|]. apply kle_klt_eq. auto. }
  destruct (starts_with _ _) eqn:Hsw; simpl.
  2:{ destruct (kltb _ _); [by apply IH|]. by intros [= <-]. }
  destruct (match start_after r with Some _ => _ | None => _ end) eqn:Ha; [by apply IH|].
  destruct (checked_entry_bytes e) as [size|] eqn:Hsz; simpl; [|done].
  apply checked_entry_bytes_Some in Hsz as ->.
  destruct (bool_decide _ && _); [done|].
  destruct (_ || _) eqn:Hfull; [by intros [= <-]|]. apply orb_false_iff in Hfull as [Hne Hfit].
  destruct (checked_add _ _ _) as [next|] eqn:Hadd; [|done].
  apply checked_add_Some in Hadd as [-> _]. apply N.eqb_neq in Hne. apply N.ltb_ge in Hfit.
  replace (total_size page + entry_size e)%N with (total_size (page ++ [e])).
  2:{ rewrite total_size_app. unfold total_size at 2. simpl. lia. }
  apply IH.
  - apply (page_safe_snoc _ _ _ previous); [done|done|done| |done|done]. split; [done|]. unfold after.
    destruct (start_after r); [by apply kleb_false|done].
  - apply Forall_app; split; [done|]. constructor; [|done]. exists (key e).
    split; [done|]. apply kle_klt_eq. by right.
Qed.

(** C23: on a strictly ascending source a returned page is exactly the next run
    of wanted entries: it is a prefix of them, within both limits, it stops only
    because a limit is reached, and it has a continuation, the last returned key,
    exactly when wanted entries are left. *)
Theorem collect_scan_page_exact r es p :
  StronglySorted key_lt es → collect_scan_page r (Ok <$> es) = Ok p →
  ∃ rest, filter (wanted r) es = entries p ++ rest ∧
    (len (entries p) ≤ max_entries r)%N ∧ (total_size (entries p) ≤ max_bytes r)%N ∧
    match rest with
    | [] => continuation p = None
    | w :: _ =>
        (∃ e, last (entries p) = Some e ∧ continuation p = Some (key e)) ∧
        (len (entries p) = max_entries r ∨
         max_bytes r < total_size (entries p) + entry_size w)%N
    end.
Proof.
  intros Hs Hc. assert (validate_request r = Ok tt) as Hv.
  { unfold collect_scan_page in Hc. by destruct (validate_request r) as [[]|]. }
  rewrite collect_scan_page_fill in Hc by done.
  apply (page_from_Ok r Hv []) in Hc as (taken & rest & Hws & Hent & Hrest);
    [|unfold len; simpl; lia|unfold total_size; simpl; lia].
  simpl in Hent. subst taken. by exists rest.
Qed.

Lemma collect_scan_page_exact_witness :
  let es := [MkEntry [x61] [x01]; MkEntry [x62; x61] [x02]; MkEntry [x62; x62] [x03]] in
  let r := MkScanPageRequest [x62] None 1 16 in
  ∃ rest, filter (wanted r) es = [MkEntry [x62; x61] [x02]] ++ rest.
Proof.
  set (es := [MkEntry [x61] [x01]; MkEntry [x62; x61] [x02]; MkEntry [x62; x62] [x03]]).
  intros ? r.
  destruct (collect_scan_page_exact r es
    (MkScanPage [MkEntry [x62; x61] [x02]] (Some [x62; x61]))) as (rest & Hf & _).
  - repeat constructor.
  - vm_compute. reflexivity.
  - exists rest. exact Hf.
Defined.

(** whatever a backend yields, errors and misordered records included, a
    page that is returned is strictly ascending, holds only keys with the prefix
    and after the cursor, respects both limits, and its continuation is its last
    key. *)
Theorem collect_scan_page_safe r items p :
  collect_scan_page r items = Ok p →
  StronglySorted key_lt (entries p) ∧ Forall (wanted r) (entries p) ∧
  (len (entries p) ≤ max_entries r)%N ∧ (total_size (entries p) ≤ max_bytes r)%N ∧
  ∀ k, continuation p = Some k → key <$> last (entries p) = Some k.
Proof.
  intros Hc. assert (page_safe r (entries p) ∧
    ∀ k, continuation p = Some k → key <$> last (entries p) = Some k) as [Hsafe Hk].
  { unfold collect_scan_page in Hc. res_inv.
    eapply (scan_page_loop_safe r items [] None); [|constructor|done].
    split_and!; [constructor|constructor|unfold len|unfold total_size]; simpl; lia. }
  destruct Hsafe as (? & ? & ? & ?). done.
Qed.

Lemma collect_scan_page_safe_witness :
  let r := MkScanPageRequest [x62] (Some [x62; x61]) 4 16 in
  Forall (wanted r) [MkEntry [x62; x62] [x03]].
Proof.
  intros r. apply (collect_scan_page_safe r
    [Ok (MkEntry [x62; x61] [x02]); Ok (MkEntry [x62; x62] [x03]); Ok (MkEntry [x63] []);
     Err LockPoisoned] (MkScanPage [MkEntry [x62; x62] [x03]] None)).
  vm_compute. reflexivity.
Defined.

(** over any backend whose pages follow the page contract, the vector scan
    ends, and it returns every entry with the prefix in key order when they are
    within its caps, and otherwise reports an exhausted resource; it never blames
    the backend. *)
Theorem collect_prefix_pages_complete scan pfx es :
  page_reader scan es →
  let ws := with_prefix pfx es in
  (scan_fits ws ∧ collect_prefix_pages scan pfx = Ok ws) ∨
  (¬ scan_fits ws ∧ ∃ resource limit required,
     collect_prefix_pages scan pfx = Err (ResourceExhausted resource limit required)).
Proof. intros Hreader ws. exact (collect_prefix_pages_outcome scan es Hreader pfx). Qed.

Lemma collect_prefix_pages_complete_witness :
  let es := [MkEntry [x61] [x01]; MkEntry [x62; x61] [x02]] in
  let scan r := collect_scan_page r (Ok <$> es) in
  let ws := with_prefix [x62] es in
  (scan_fits ws ∧ collect_prefix_pages scan [x62] = Ok ws) ∨
  (¬ scan_fits ws ∧ ∃ resource limit required,
     collect_prefix_pages scan [x62] = Err (ResourceExhausted resource limit required)).
Proof.
  intros es scan. apply (collect_prefix_pages_complete scan [x62] es). split.
  - repeat constructor.
  - intros r Hv. apply collect_scan_page_fill; [done|repeat constructor].
Defined.
