(* ===== verification/Engine.v ===== *)
(** * The storage traits and their laws (crate contextdb-storage)

    [ReadSnapshot] and [StorageEngine] are the operations of the Rust traits.  An
    operation that takes [&self] on a shared engine and changes it returns the new
    engine.  [StorageEngineSpec] states what an engine promises its clients over
    one logical map from (keyspace, key) to value: stable reads, staged writes and
    an atomic commit.  The journal is proved against these laws only. *)

From S2P Require Import Prelude.
From S2P Require Import Ordering.
From S2P Require Import Bytes.
From S2P Require Import Storage.

(** ** Reports *)

Record CommitReceipt := MkCommitReceipt {
  receipt_sequence : N;
  receipt_durability : Durability;
}.

Inductive VerifyMode :=
  | Quick
  | Deep.

Record VerifyReport := MkVerifyReport {
  report_sequence : N;
  report_keyspaces : N;
  report_records : N;
  report_warnings : list string;
}.

Record CompactRequest := MkCompactRequest { compact_max_bytes : option N }.

Record CompactReport := MkCompactReport {
  compact_sequence : N;
  bytes_reclaimed : N;
}.

Record CheckpointManifest := MkCheckpointManifest {
  format_version : N;
  checkpoint_sequence : N;
  checkpoint_backend : string;
}.

(** ** The traits *)

Class ReadSnapshot (S : Type) := {
  sequence : S → N;
  get : S → Keyspace → bytes → result StorageError (option bytes);
  scan_prefix : S → Keyspace → bytes → result StorageError (list Entry);
  scan_prefix_page : S → Keyspace → ScanPageRequest → result StorageError ScanPage;
}.

(** The provided method of the trait: pages cut from the vector scan. *)
Definition default_scan_prefix_page {S}
    (scan_prefix : S → Keyspace → bytes → result StorageError (list Entry))
    (s : S) (ks : Keyspace) (request : ScanPageRequest) : result StorageError ScanPage :=
  let? es := scan_prefix s ks (prefix request) in
  collect_scan_page request (Ok <$> es).

Class StorageEngine (E : Type) := {
  Snap : Type;
  Txn : Type;
  Snap_read :: ReadSnapshot Snap;
  Txn_read :: ReadSnapshot Txn;
  put : Txn → Keyspace → bytes → bytes → result StorageError Txn;
  delete_key : Txn → Keyspace → bytes → result StorageError Txn;
  commit : E → Txn → Durability → E * result StorageError CommitReceipt;
  rollback : Txn → result StorageError unit;
  head_sequence : E → result StorageError N;
  begin_read : E → SnapshotSelector → result StorageError Snap;
  begin_write : E → result StorageError Txn;
  checkpoint : E → string → result StorageError CheckpointManifest;
  compact : E → CompactRequest → result StorageError CompactReport;
  verify_engine : E → VerifyMode → result StorageError VerifyReport;
}.

(** ** The abstract store *)

Abbreviation content := (gmap (string * bytes) bytes).

(** The table of one keyspace and its entries in key order. *)
Definition keyspace_table (c : content) (ks : Keyspace) : gmap bytes bytes :=
  default ∅ (map_curry (M1:=gmap string) (M2:=gmap bytes) c !! as_str ks).
Definition table_entries (t : gmap bytes bytes) : list Entry :=
  (λ kv, MkEntry kv.1 kv.2) <$> bt_entries t.

(** The vector scan as a function of the abstract store. *)
Definition scan_table (t : gmap bytes bytes) (pfx : bytes) : result StorageError (list Entry) :=
  collect_prefix_pages (λ r, collect_scan_page r (Ok <$> table_entries t)) pfx.

Class StorageEngineSpec (E : Type) {HE : StorageEngine E} := {
  engine_ok : E → Prop;
  engine_content : E → content;
  snap_content : Snap → content;
  txn_content : Txn → content;
  (** The transaction was opened on the engine's current head. *)
  txn_current : E → Txn → Prop;

  begin_read_latest e :
    engine_ok e → ∃ s, begin_read e Latest = Ok s ∧ snap_content s = engine_content e;
  snap_get s ks k : get s ks k = Ok (snap_content s !! (as_str ks, k));
  snap_scan s ks pfx : scan_prefix s ks pfx = scan_table (keyspace_table (snap_content s) ks) pfx;

  begin_write_current e :
    engine_ok e → ∃ t, begin_write e = Ok t ∧ txn_content t = engine_content e ∧ txn_current e t;
  txn_get t ks k : get t ks k = Ok (txn_content t !! (as_str ks, k));
  txn_scan t ks pfx : scan_prefix t ks pfx = scan_table (keyspace_table (txn_content t) ks) pfx;
  put_staged t ks k v :
    ∃ t', put t ks k v = Ok t' ∧ txn_content t' = <[(as_str ks, k) := v]> (txn_content t) ∧
          ∀ e, txn_current e t → txn_current e t';
  delete_staged t ks k :
    ∃ t', delete_key t ks k = Ok t' ∧ txn_content t' = delete (as_str ks, k) (txn_content t) ∧
          ∀ e, txn_current e t → txn_current e t';
  rollback_ok t : rollback t = Ok tt;
  commit_atomic e t d e' r :
    engine_ok e → txn_current e t → commit e t d = (e', r) →
    engine_ok e' ∧
    (engine_content e' = txn_content t ∨
     engine_content e' = engine_content e ∧ ∃ err, r = Err err);
  verify_readable e mode : engine_ok e → ∃ rep, verify_engine e mode = Ok rep;
}.

(** ** Facts about tables *)

Lemma lookup_keyspace_table c ks k : keyspace_table c ks !! k = c !! (as_str ks, k).
Proof.
  unfold keyspace_table. rewrite <- (lookup_map_curry (M1:=gmap string) (M2:=gmap bytes) c).
  destruct (map_curry c !! as_str ks); simpl; [done|]. by rewrite lookup_empty.
Qed.

Lemma keyspace_table_insert c ks k v :
  keyspace_table (<[(as_str ks, k) := v]> c) ks = <[k := v]> (keyspace_table c ks).
Proof.
  apply map_eq. intros k'. rewrite lookup_keyspace_table, !lookup_insert, lookup_keyspace_table.
  repeat case_decide; naive_solver.
Qed.

Lemma keyspace_table_insert_ne c ks ks' k v :
  as_str ks ≠ as_str ks' → keyspace_table (<[(as_str ks', k) := v]> c) ks = keyspace_table c ks.
Proof.
  intros Hne. apply map_eq. intros k'. rewrite !lookup_keyspace_table.
  apply lookup_insert_ne. congruence.
Qed.

Lemma table_entries_elem t e : e ∈ table_entries t ↔ t !! key e = Some (value e).
Proof.
  unfold table_entries. rewrite list_elem_of_fmap. split.
  - intros ([k v] & -> & Hin). by apply bt_entries_elem.
  - intros Hl. exists (key e, value e). split; [by destruct e|]. by apply bt_entries_elem.
Qed.

Lemma table_entries_sorted t : StronglySorted key_lt (table_entries t).
Proof.
  unfold table_entries. pose proof (bt_entries_sorted t) as Hs.
  induction Hs as [|x l _ IH Hx]; simpl; [constructor|].
  constructor; [done|]. rewrite Forall_fmap. eapply Forall_impl; [exact Hx|]. done.
Qed.

Lemma key_lt_sorted_NoDup l : StronglySorted key_lt l → NoDup l.
Proof.
  induction 1 as [|x l _ IH Hx]; constructor; [|done].
  intros Hin. rewrite Forall_forall in Hx. by destruct (klt_irrefl (key x)); apply Hx.
Qed.

(** Strictly ascending entry lists with the same elements are equal. *)
Lemma key_lt_sorted_ext l1 l2 :
  StronglySorted key_lt l1 → StronglySorted key_lt l2 → (∀ e, e ∈ l1 ↔ e ∈ l2) → l1 = l2.
Proof.
  intros Hs1 Hs2 Hext. eapply StronglySorted_unique_strong; [|done|done|].
  - intros x y _ _ Hxy Hyx. destruct (klt_irrefl (key x)). by eapply klt_trans.
  - apply NoDup_Permutation; auto using key_lt_sorted_NoDup.
Qed.

Lemma table_entries_unique t l :
  StronglySorted key_lt l → (∀ e, e ∈ l ↔ t !! key e = Some (value e)) → l = table_entries t.
Proof.
  intros Hs Hl. apply key_lt_sorted_ext; [done|apply table_entries_sorted|].
  intros e. by rewrite Hl, table_entries_elem.
Qed.

Lemma table_page_reader t : page_reader (λ r, collect_scan_page r (Ok <$> table_entries t)) (table_entries t).
Proof.
  split; [apply table_entries_sorted|]. intros r Hv.
  apply collect_scan_page_fill; [done|apply table_entries_sorted].
Qed.

Lemma scan_table_Ok t pfx l : scan_table t pfx = Ok l → l = with_prefix pfx (table_entries t).
Proof. apply collect_prefix_pages_Ok, table_page_reader. Qed.

Lemma scan_table_fits t pfx :
  scan_fits (with_prefix pfx (table_entries t)) →
  scan_table t pfx = Ok (with_prefix pfx (table_entries t)).
Proof. apply collect_prefix_pages_fits, table_page_reader. Qed.

(** Pages depend only on the wanted entries of an ascending source. *)
Lemma collect_scan_page_wanted r es1 es2 :
  StronglySorted key_lt es1 → StronglySorted key_lt es2 →
  (∀ e, wanted r e → e ∈ es1 ↔ e ∈ es2) →
  collect_scan_page r (Ok <$> es1) = collect_scan_page r (Ok <$> es2).
Proof.
  intros Hs1 Hs2 Hw. destruct (validate_request r) as [[]|err] eqn:Hv.
  - rewrite !collect_scan_page_fill by done. f_equal.
    apply key_lt_sorted_ext; [by apply StronglySorted_filter..|].
    intros e. rewrite !list_elem_of_filter. naive_solver.
  - unfold collect_scan_page. by rewrite Hv.
Qed.

Lemma collect_prefix_pages_ext f g pfx :
  (∀ r, f r = g r) → collect_prefix_pages f pfx = collect_prefix_pages g pfx.
Proof.
  intros Hfg. unfold collect_prefix_pages. rewrite !loop_pos_nat.
  generalize (Pos.to_nat LEGACY_SCAN_FUEL) as n.
  generalize {| scanned := []; cursor := None; total_bytes := 0 |} as st.
  intros st n; revert st; induction n as [|n IH]; intros st; [done|]. simpl.
  assert (collect_prefix_step f pfx st = collect_prefix_step g pfx st) as ->.
  { unfold collect_prefix_step. by rewrite Hfg. }
  by destruct (collect_prefix_step g pfx st); [apply IH|].
Qed.
