(* ===== verification/MemoryStorage.v ===== *)
(** * The in-memory engine (crate contextdb-storage-memory)

    [State] is the content of the engine's lock: the head sequence and every
    retained table set.  A transaction holds its base snapshot and the staged
    changes; the commit publishes them when the head has not moved.  The file ends
    with the instance that discharges the laws of [Engine] and with what those laws
    do not say: isolation of old snapshots and rejection of stale writers.  Lock
    poisoning needs a panic under the lock and is not modelled. *)

From S2P Require Import Prelude.
From S2P Require Import Ordering.
From S2P Require Import Bytes.
From S2P Require Import Storage.
From S2P Require Import Engine.

Abbreviation Table := (gmap bytes bytes).
Abbreviation Tables := (gmap string (gmap bytes bytes)).

Record State := MkState {
  state_head : N;
  retained : gmap N Tables;
}.

Definition MemoryStorage_new : State := MkState 0 {[ 0%N := ∅ ]}.

Record MemorySnapshot := MkMemorySnapshot {
  snapshot_sequence : N;
  snapshot_tables : Tables;
}.

Definition MemorySnapshot_get (s : MemorySnapshot) (ks : Keyspace) (k : bytes)
    : result StorageError (option bytes) :=
  Ok (snapshot_tables s !! as_str ks ≫= λ table : Table, table !! k).

(** The lower bound of a page request: excluded after a cursor, included otherwise. *)
Definition above_lower (r : ScanPageRequest) (k : bytes) : bool :=
  match start_after r with
  | Some start => kltb start k
  | None => kleb (prefix r) k
  end.

(** [table.range((lower, Unbounded))]. *)
Definition table_range (r : ScanPageRequest) (table : Table) : list Entry :=
  filter (λ e, above_lower r (key e)) (table_entries table).

Definition MemorySnapshot_scan_prefix_page (s : MemorySnapshot) (ks : Keyspace)
    (request : ScanPageRequest) : result StorageError ScanPage :=
  match snapshot_tables s !! as_str ks with
  | None =>
      try? validate_request request in
      Ok (MkScanPage [] None)
  | Some table => collect_scan_page request (Ok <$> table_range request table)
  end.

Definition MemorySnapshot_scan_prefix (s : MemorySnapshot) (ks : Keyspace) (pfx : bytes)
    : result StorageError (list Entry) :=
  collect_prefix_pages (MemorySnapshot_scan_prefix_page s ks) pfx.

Inductive Change :=
  | Put (v : bytes)
  | Delete.

Record MemoryTransaction := MkMemoryTransaction {
  base : MemorySnapshot;
  changes : gmap (string * bytes) Change;
}.

Definition MemoryTransaction_get (t : MemoryTransaction) (ks : Keyspace) (k : bytes)
    : result StorageError (option bytes) :=
  match changes t !! (as_str ks, k) with
  | Some (Put v) => Ok (Some v)
  | Some Delete => Ok None
  | None => MemorySnapshot_get (base t) ks k
  end.

(** One staged change as it leaves the merge: a deletion yields nothing. *)
Definition emit_change (k : bytes) (c : Change) (rest : list (result StorageError Entry))
    : list (result StorageError Entry) :=
  match c with
  | Put v => Ok (MkEntry k v) :: rest
  | Delete => rest
  end.

Fixpoint merge_staged (base : list (result StorageError Entry))
    : list (bytes * Change) → list (result StorageError Entry) :=
  fix go staged :=
    match base, staged with
    | Ok e :: base', (k, c) :: staged' =>
        match cmp (key e) k with
        | Lt => Ok e :: merge_staged base' staged
        | Eq => emit_change k c (merge_staged base' staged')
        | Gt => emit_change k c (go staged')
        end
    | Err err :: base', _ => Err err :: merge_staged base' staged
    | Ok e :: base', [] => Ok e :: merge_staged base' staged
    | [], (k, c) :: staged' => emit_change k c (go staged')
    | [], [] => []
    end.

(** The staged changes a page request can return, before sorting. *)
Definition staged_matches (ks : Keyspace) (r : ScanPageRequest) (k : string * bytes) : bool :=
  bool_decide (k.1 = as_str ks) && starts_with (prefix r) k.2 &&
  match start_after r with
  | Some start => kltb start k.2
  | None => true
  end.
Definition staged_changes (t : MemoryTransaction) (ks : Keyspace) (r : ScanPageRequest)
    : list (bytes * Change) :=
  merge_sort (λ a b, kle a.1 b.1)
    ((λ kc, (kc.1.2, kc.2)) <$>
     filter (λ kc, staged_matches ks r kc.1) (map_to_list (changes t))).

Definition MemoryTransaction_scan_prefix_page (t : MemoryTransaction) (ks : Keyspace)
    (request : ScanPageRequest) : result StorageError ScanPage :=
  try? validate_request request in
  let base_entries :=
    match snapshot_tables (base t) !! as_str ks with
    | Some table => Ok <$> table_range request table
    | None => []
    end in
  collect_scan_page request (merge_staged base_entries (staged_changes t ks request)).

Definition MemoryTransaction_scan_prefix (t : MemoryTransaction) (ks : Keyspace) (pfx : bytes)
    : result StorageError (list Entry) :=
  collect_prefix_pages (MemoryTransaction_scan_prefix_page t ks) pfx.

Definition MemoryTransaction_put (t : MemoryTransaction) (ks : Keyspace) (k v : bytes)
    : result StorageError MemoryTransaction :=
  Ok (MkMemoryTransaction (base t) (<[(as_str ks, k) := Put v]> (changes t))).

Definition MemoryTransaction_delete (t : MemoryTransaction) (ks : Keyspace) (k : bytes)
    : result StorageError MemoryTransaction :=
  Ok (MkMemoryTransaction (base t) (<[(as_str ks, k) := Delete]> (changes t))).

Definition apply_change (next : Tables) (c : string * bytes * Change) : Tables :=
  let '(space, k, change) := c in
  let table := default ∅ (next !! space) in
  <[space := match change with
             | Put v => <[k := v]> table
             | Delete => delete k table
             end]> next.

(** The commit runs under the write lock: the returned state is what it leaves. *)
Definition MemoryTransaction_commit (state : State) (t : MemoryTransaction) (d : Durability)
    : State * result StorageError CommitReceipt :=
  if negb (state_head state =? snapshot_sequence (base t))%N then
    (state, Err (WriteConflict (snapshot_sequence (base t)) (state_head state)))
  else
    let next := foldl apply_change (snapshot_tables (base t)) (map_to_list (changes t)) in
    match checked_add U64_MAX (state_head state) 1 with
    | None => (state, Err (Backend "memory" "commit sequence exhausted"))
    | Some sequence =>
        (MkState sequence (<[sequence := next]> (retained state)),
         Ok (MkCommitReceipt sequence d))
    end.

Definition MemoryStorage_begin_read (state : State) (selector : SnapshotSelector)
    : result StorageError MemorySnapshot :=
  let requested := match selector with Latest => state_head state | At sequence => sequence end in
  let? tables := ok_or (retained state !! requested)
                   (SnapshotUnavailable requested (state_head state)) in
  Ok (MkMemorySnapshot requested tables).

Definition MemoryStorage_begin_write (state : State) : result StorageError MemoryTransaction :=
  let? base := MemoryStorage_begin_read state Latest in
  Ok (MkMemoryTransaction base ∅).

Definition MemoryStorage_checkpoint (_ : State) (_ : string) : result StorageError CheckpointManifest :=
  Err (Unsupported "memory" "physical checkpoint; use journal portable backup").

Definition MemoryStorage_compact (state : State) (_ : CompactRequest)
    : result StorageError CompactReport :=
  Ok (MkCompactReport (state_head state) 0).

Definition MemoryStorage_verify (state : State) (_ : VerifyMode) : result StorageError VerifyReport :=
  let? snapshot := MemoryStorage_begin_read state Latest in
  let as_u64 n := default U64_MAX (try_from_max U64_MAX (N.of_nat n)) in
  let records :=
    default U64_MAX
      (foldl (λ sum table, sum ≫= λ s, checked_add U64_MAX s (as_u64 (size table)))
         (Some 0%N) (bt_values (snapshot_tables snapshot))) in
  Ok (MkVerifyReport (snapshot_sequence snapshot) (as_u64 (size (snapshot_tables snapshot)))
        records []).

#[export] Instance MemorySnapshot_ReadSnapshot : ReadSnapshot MemorySnapshot := {|
  sequence := snapshot_sequence;
  get := MemorySnapshot_get;
  scan_prefix := MemorySnapshot_scan_prefix;
  scan_prefix_page := MemorySnapshot_scan_prefix_page;
|}.

#[export] Instance MemoryTransaction_ReadSnapshot : ReadSnapshot MemoryTransaction := {|
  sequence := λ t, snapshot_sequence (base t);
  get := MemoryTransaction_get;
  scan_prefix := MemoryTransaction_scan_prefix;
  scan_prefix_page := MemoryTransaction_scan_prefix_page;
|}.

#[export] Instance MemoryStorage_StorageEngine : StorageEngine State := {|
  put := MemoryTransaction_put;
  delete_key := MemoryTransaction_delete;
  commit := MemoryTransaction_commit;
  rollback := λ _, Ok tt;
  head_sequence := λ state, Ok (state_head state);
  begin_read := MemoryStorage_begin_read;
  begin_write := MemoryStorage_begin_write;
  checkpoint := MemoryStorage_checkpoint;
  compact := MemoryStorage_compact;
  verify_engine := MemoryStorage_verify;
|}.

(** ** The merge of a base range with staged changes *)

(** An entry of the merge is a staged replacement or an untouched base entry. *)
Definition merged (bs : list Entry) (st : list (bytes * Change)) (e : Entry) : Prop :=
  (key e, Put (value e)) ∈ st ∨ (e ∈ bs ∧ key e ∉ st.*1).

Definition emitted (k : bytes) (c : Change) : list Entry :=
  match c with Put v => [MkEntry k v] | Delete => [] end.

Lemma emit_change_Ok k c m : emit_change k c (Ok <$> m) = Ok <$> emitted k c ++ m.
Proof. by destruct c. Qed.

Lemma emitted_elem k c e : e ∈ emitted k c ↔ (key e, Put (value e)) = (k, c).
Proof.
  destruct c; simpl; rewrite ?list_elem_of_singleton; destruct e; simpl; [naive_solver|].
  split; [by intros ?%elem_of_nil|done].
Qed.

Lemma emitted_sorted k c m :
  StronglySorted key_lt m → (∀ e, e ∈ m → klt k (key e)) → StronglySorted key_lt (emitted k c ++ m).
Proof.
  intros Hs Hm. destruct c; simpl; [|done].
  constructor; [done|]. by apply Forall_forall.
Qed.

Lemma merged_above k bs st e :
  Forall (λ b, klt k (key b)) bs → Forall (λ c, klt k c.1) st → merged bs st e → klt k (key e).
Proof.
  rewrite !Forall_forall. intros Hb Hst [Hin|[Hin _]]; [by apply (Hst _ Hin)|by apply Hb].
Qed.

Lemma klt_not_in_keys k (st : list (bytes * Change)) : Forall (λ c, klt k c.1) st → k ∉ st.*1.
Proof.
  rewrite Forall_forall. intros Hst (c & -> & Hin)%list_elem_of_fmap. destruct (klt_irrefl c.1). by apply Hst.
Qed.

Lemma merge_staged_cons b bs k c st :
  merge_staged (Ok <$> b :: bs) ((k, c) :: st) =
    match cmp (key b) k with
    | Lt => Ok b :: merge_staged (Ok <$> bs) ((k, c) :: st)
    | Eq => emit_change k c (merge_staged (Ok <$> bs) st)
    | Gt => emit_change k c (merge_staged (Ok <$> b :: bs) st)
    end.
Proof. reflexivity. Qed.

(** What the merge must deliver, and the two ways one more item extends it. *)
Definition merges bs st : Prop :=
  ∃ m, merge_staged (Ok <$> bs) st = Ok <$> m ∧ StronglySorted key_lt m ∧
       ∀ e, e ∈ m ↔ merged bs st e.

Lemma merges_base b bs st :
  StronglySorted key_lt (b :: bs) → Forall (λ c, klt (key b) c.1) st →
  merge_staged (Ok <$> b :: bs) st = Ok b :: merge_staged (Ok <$> bs) st →
  merges bs st → merges (b :: bs) st.
Proof.
  intros [Hb _]%StronglySorted_cons Hlt Heq (m & Hm & Hs & Hel).
  exists (b :: m). split_and!; [by rewrite Heq, Hm| |].
  - constructor; [done|]. apply Forall_forall. intros e He%Hel. by eapply merged_above.
  - intros e. rewrite elem_of_cons, Hel. unfold merged. rewrite elem_of_cons.
    pose proof (klt_not_in_keys _ _ Hlt). naive_solver.
Qed.

Lemma merges_staged bs bs' k c st :
  Forall (λ b, klt k (key b)) bs' → Forall (λ s, klt k s.1) st →
  (∀ e, e ∈ bs ↔ e ∈ bs' ∨ e ∈ bs ∧ key e = k) →
  merge_staged (Ok <$> bs) ((k, c) :: st) = emit_change k c (merge_staged (Ok <$> bs') st) →
  merges bs' st → merges bs ((k, c) :: st).
Proof.
  intros Hb Hst Hbs Heq (m & Hm & Hs & Hel). exists (emitted k c ++ m).
  split_and!; [by rewrite Heq, Hm, emit_change_Ok| |].
  - apply emitted_sorted; [done|]. intros e He%Hel. by eapply merged_above.
  - intros e. rewrite elem_of_app, emitted_elem, Hel. unfold merged. simpl.
    rewrite !elem_of_cons, (Hbs e). rewrite Forall_forall in Hb.
    assert (e ∈ bs' → key e ≠ k) by (intros He <-; destruct (klt_irrefl (key e)); auto).
    naive_solver.
Qed.

Lemma Forall_klt_trans k k' (st : list (bytes * Change)) :
  klt k k' → Forall (λ s, klt k' s.1) st → Forall (λ s, klt k s.1) st.
Proof. intros Hk Hst. eapply Forall_impl; [exact Hst|]. intros x. by apply klt_trans. Qed.

(** On ascending inputs the merge is the ascending list of the merged entries. *)
Lemma merge_staged_spec bs st :
  StronglySorted key_lt bs → StronglySorted fst_lt st → merges bs st.
Proof.
  revert st; induction bs as [|b bs IHb]; intros st Hbs Hst;
    induction Hst as [|[k c] st Hst IHst Hk].
  - exists []. repeat split; [constructor|by intros ?%elem_of_nil|].
    by intros [?%elem_of_nil|[?%elem_of_nil _]].
  - apply (merges_staged [] []); [constructor|done| |done|done]. set_solver.
  - apply merges_base; [done|constructor|done|]. apply IHb; [|constructor].
    by apply StronglySorted_cons in Hbs as [_ ?].
  - pose proof (SSorted_cons _ Hst Hk) as Hkst. apply StronglySorted_cons in Hbs as Hbs'.
    destruct Hbs' as [Hb Hbs']. pose proof (merge_staged_cons b bs k c st) as Heq.
    destruct (cmp (key b) k) eqn:Hcmp.
    + apply cmp_eq in Hcmp as <-. apply (merges_staged _ bs); [done..| |done|by apply IHb].
      intros e. rewrite elem_of_cons. naive_solver.
    + apply merges_base; [done| |done|by apply IHb].
      constructor; [done|]. by eapply Forall_klt_trans.
    + apply (merges_staged _ (b :: bs)); [|done| |done|done]; [|naive_solver].
      assert (klt k (key b)) by (unfold klt; by rewrite cmp_antisym, Hcmp).
      constructor; [done|]. eapply Forall_impl; [exact Hb|]. intros x. by apply klt_trans.
Qed.

#[local] Arguments apply_change : simpl never.

(** ** Abstraction to one logical map *)

Definition tables_content (t : Tables) : content :=
  map_uncurry (M1:=gmap string) (M2:=gmap bytes) (M12:=gmap (string * bytes)) t.

(** The base content with the staged changes laid over it. *)
Definition overlay (c : content) (ch : gmap (string * bytes) Change) : content :=
  merge (λ old change,
    match change with
    | Some (Put v) => Some v
    | Some Delete => None
    | None => old
    end) c ch.

Definition mem_txn_content (t : MemoryTransaction) : content :=
  overlay (tables_content (snapshot_tables (base t))) (changes t).

Lemma lookup_tables_content t s k : tables_content t !! (s, k) = t !! s ≫= (.!! k).
Proof. apply (lookup_map_uncurry (M1:=gmap string) (M2:=gmap bytes)). Qed.

Lemma lookup_overlay c ch k :
  overlay c ch !! k =
    match ch !! k with Some (Put v) => Some v | Some Delete => None | None => c !! k end.
Proof. unfold overlay. rewrite lookup_merge. by destruct (c !! k), (ch !! k). Qed.

Lemma overlay_insert c ch k v : overlay c (<[k := Put v]> ch) = <[k := v]> (overlay c ch).
Proof.
  apply map_eq. intros k'. rewrite lookup_overlay, !lookup_insert, lookup_overlay.
  by case_decide.
Qed.

Lemma overlay_delete c ch k : overlay c (<[k := Delete]> ch) = delete k (overlay c ch).
Proof.
  apply map_eq. intros k'. rewrite lookup_overlay, lookup_insert, lookup_delete, lookup_overlay.
  by case_decide.
Qed.

Lemma overlay_empty c : overlay c ∅ = c.
Proof. apply map_eq. intros k. by rewrite lookup_overlay, lookup_empty. Qed.

Lemma apply_change_content t k c :
  tables_content (apply_change t (k, c)) = overlay (tables_content t) {[k := c]}.
Proof.
  destruct k as [s k]. apply map_eq. intros [s' k'].
  rewrite lookup_overlay, !lookup_tables_content, lookup_singleton. unfold apply_change.
  rewrite lookup_insert. case_decide as Hs; [subst s'|].
  - simpl. destruct c as [v|]; [rewrite lookup_insert|rewrite lookup_delete];
      repeat case_decide; simplify_eq; try done;
      destruct (t !! s); simpl; by rewrite ?lookup_empty.
  - case_decide; [congruence|done].
Qed.

(** Publishing the changes in any order of the hash map gives the overlay. *)
Lemma apply_changes_content l t :
  NoDup l.*1 → tables_content (foldl apply_change t l) = overlay (tables_content t) (list_to_map l).
Proof.
  revert t; induction l as [|[k c] l IH]; intros t; simpl; [by rewrite overlay_empty|].
  intros [Hk Hnd]%NoDup_cons. rewrite IH by done. rewrite apply_change_content.
  apply map_eq. intros k'. rewrite !lookup_overlay, lookup_singleton, lookup_insert.
  case_decide as Heq; [subst k'|done].
  by rewrite not_elem_of_list_to_map_1.
Qed.

Lemma commit_content t :
  tables_content (foldl apply_change (snapshot_tables (base t)) (map_to_list (changes t)))
    = mem_txn_content t.
Proof.
  rewrite apply_changes_content by apply NoDup_fst_map_to_list. by rewrite list_to_map_to_list.
Qed.

(** ** Scans *)

Lemma staged_changes_elem t ks r k c :
  (k, c) ∈ staged_changes t ks r ↔
    changes t !! (as_str ks, k) = Some c ∧ starts_with (prefix r) k = true ∧ after (start_after r) k.
Proof.
  unfold staged_changes. rewrite merge_sort_Permutation, list_elem_of_fmap. split.
  - intros ([[s k'] c'] & [= -> ->] & [Hm Hin]%list_elem_of_filter).
    apply elem_of_map_to_list in Hin. unfold staged_matches in Hm; simpl in Hm.
    apply Is_true_true in Hm. rewrite !andb_true_iff, bool_decide_eq_true in Hm.
    destruct Hm as [[-> Hsw] Ha]. split_and!; [done..|].
    destruct (start_after r); [by apply kltb_true|done].
  - intros (Hl & Hsw & Ha). exists ((as_str ks, k), c). split; [done|].
    apply list_elem_of_filter. split; [|by apply elem_of_map_to_list].
    unfold staged_matches; simpl. rewrite bool_decide_eq_true_2, Hsw by done.
    destruct (start_after r); [|done]. by apply Is_true_true, kltb_true.
Qed.

Lemma staged_changes_sorted t ks r : StronglySorted fst_lt (staged_changes t ks r).
Proof.
  apply sort_by_key_sorted. rewrite <- list_fmap_compose.
  apply NoDup_fmap_2_strong; [|apply NoDup_filter, NoDup_map_to_list].
  intros [[s1 k1] c1] [[s2 k2] c2] [Hm1 Hin1]%list_elem_of_filter [Hm2 Hin2]%list_elem_of_filter.
  unfold staged_matches in *; simpl in *. intros ->.
  apply Is_true_true in Hm1, Hm2. rewrite !andb_true_iff, bool_decide_eq_true in Hm1, Hm2.
  destruct Hm1 as [[-> _] _], Hm2 as [[-> _] _].
  apply elem_of_map_to_list in Hin1, Hin2. by simplify_eq.
Qed.

Lemma wanted_above_lower r e : wanted r e → above_lower r (key e) = true.
Proof.
  intros [Hsw Ha]. unfold above_lower. destruct (start_after r).
  - by apply kltb_true.
  - by apply kleb_true, starts_with_kle.
Qed.

Lemma table_range_sorted r t : StronglySorted key_lt (table_range r t).
Proof. apply StronglySorted_filter, table_entries_sorted. Qed.

Lemma table_range_wanted r t e : wanted r e → e ∈ table_range r t ↔ t !! key e = Some (value e).
Proof.
  intros Hw%wanted_above_lower. unfold table_range.
  rewrite list_elem_of_filter, table_entries_elem, Hw. naive_solver.
Qed.

Lemma keyspace_table_tables t ks : keyspace_table (tables_content t) ks = default ∅ (t !! as_str ks).
Proof.
  apply map_eq. intros k. rewrite lookup_keyspace_table, lookup_tables_content.
  destruct (t !! as_str ks); simpl; [done|by rewrite lookup_empty].
Qed.

Lemma collect_scan_page_nil r :
  collect_scan_page r [] = try? validate_request r in Ok (MkScanPage [] None).
Proof. reflexivity. Qed.

(** The page of a snapshot is the page of its table, present or absent. *)
Lemma MemorySnapshot_page_spec s ks r :
  MemorySnapshot_scan_prefix_page s ks r =
    collect_scan_page r
      (Ok <$> table_entries (keyspace_table (tables_content (snapshot_tables s)) ks)).
Proof.
  unfold MemorySnapshot_scan_prefix_page. rewrite keyspace_table_tables.
  destruct (snapshot_tables s !! as_str ks) as [t|]; simpl.
  - apply collect_scan_page_wanted; [apply table_range_sorted|apply table_entries_sorted|].
    intros e Hw. by rewrite table_range_wanted, table_entries_elem.
  - unfold table_entries. by rewrite bt_entries_empty.
Qed.

(** The page of a transaction is the page of its staged content. *)
Lemma MemoryTransaction_page_spec t ks r :
  MemoryTransaction_scan_prefix_page t ks r =
    collect_scan_page r (Ok <$> table_entries (keyspace_table (mem_txn_content t) ks)).
Proof.
  unfold MemoryTransaction_scan_prefix_page.
  destruct (validate_request r) as [[]|err] eqn:Hv; simpl;
    [|unfold collect_scan_page; by rewrite Hv].
  set (bs := table_range r (default ∅ (snapshot_tables (base t) !! as_str ks))).
  assert (∀ o : option Table, match o with Some table => Ok <$> table_range r table | None => [] end
            = Ok (E:=StorageError) <$> table_range r (default ∅ o)) as ->.
  { intros []; [done|]. unfold table_range, table_entries; simpl. by rewrite bt_entries_empty. }
  fold bs. destruct (merge_staged_spec bs (staged_changes t ks r)) as (m & -> & Hs & Hel);
    [apply table_range_sorted|apply staged_changes_sorted|].
  apply collect_scan_page_wanted; [done|apply table_entries_sorted|].
  intros e Hw. rewrite Hel, table_entries_elem, lookup_keyspace_table. unfold merged, mem_txn_content.
  rewrite staged_changes_elem, lookup_overlay, <- lookup_keyspace_table, keyspace_table_tables.
  unfold bs. rewrite table_range_wanted by done.
  assert (key e ∉ (staged_changes t ks r).*1 ↔ changes t !! (as_str ks, key e) = None) as ->.
  { rewrite eq_None_not_Some, list_elem_of_fmap. unfold is_Some. split; intros Hn Hx; apply Hn.
    - destruct Hx as [c Hc]. exists (key e, c). split; [done|].
      apply staged_changes_elem. by destruct Hw.
    - destruct Hx as ([k c] & Hk & Hin%staged_changes_elem). simpl in Hk; subst k.
      naive_solver. }
  destruct Hw. destruct (changes t !! _) as [[v|]|]; naive_solver.
Qed.

Lemma MemorySnapshot_scan_spec s ks pfx :
  MemorySnapshot_scan_prefix s ks pfx =
    scan_table (keyspace_table (tables_content (snapshot_tables s)) ks) pfx.
Proof. apply collect_prefix_pages_ext. intros r. apply MemorySnapshot_page_spec. Qed.

Lemma MemoryTransaction_scan_spec t ks pfx :
  MemoryTransaction_scan_prefix t ks pfx = scan_table (keyspace_table (mem_txn_content t) ks) pfx.
Proof. apply collect_prefix_pages_ext. intros r. apply MemoryTransaction_page_spec. Qed.

Lemma MemoryTransaction_get_spec t ks k :
  MemoryTransaction_get t ks k = Ok (mem_txn_content t !! (as_str ks, k)).
Proof.
  unfold MemoryTransaction_get, mem_txn_content, MemorySnapshot_get.
  rewrite lookup_overlay, lookup_tables_content. by destruct (changes t !! _) as [[]|].
Qed.

(** ** The engine's laws *)

(** The head is retained, nothing newer is, and no version is missing. *)
Record state_ok (state : State) : Prop := MkStateOk {
  head_bounded : (state_head state ≤ U64_MAX)%N;
  retained_dense n : is_Some (retained state !! n) ↔ (n ≤ state_head state)%N;
}.

(** The content at the head. *)
Definition state_content (state : State) : content :=
  default ∅ (tables_content <$> retained state !! state_head state).

Definition mem_current (state : State) (t : MemoryTransaction) : Prop :=
  snapshot_sequence (base t) = state_head state ∧
  retained state !! state_head state = Some (snapshot_tables (base t)).

Lemma state_ok_new : state_ok MemoryStorage_new.
Proof.
  split; [unfold U64_MAX; simpl; lia|]. intros n. simpl. rewrite lookup_singleton.
  case_decide; simplify_eq; [by split; [lia|eauto]|]. split; [by intros []|lia].
Qed.

Lemma head_retained state : state_ok state → ∃ tables, retained state !! state_head state = Some tables.
Proof. intros Hok. apply (retained_dense _ Hok). lia. Qed.

(** The two outcomes of a commit: nothing changes, or one more version is retained. *)
Lemma commit_cases state t d state' r :
  MemoryTransaction_commit state t d = (state', r) →
  (state' = state ∧ ∃ err, r = Err err) ∨
  (snapshot_sequence (base t) = state_head state ∧ (state_head state + 1 ≤ U64_MAX)%N ∧
   state' = MkState (state_head state + 1)
     (<[(state_head state + 1)%N :=
        foldl apply_change (snapshot_tables (base t)) (map_to_list (changes t))]> (retained state)) ∧
   r = Ok (MkCommitReceipt (state_head state + 1) d)).
Proof.
  unfold MemoryTransaction_commit. destruct (N.eqb_spec (state_head state) (snapshot_sequence (base t)));
    simpl; [|intros [= <- <-]; left; eauto].
  destruct (checked_add _ _ _) as [n|] eqn:Hadd; intros [= <- <-]; [|left; eauto].
  apply checked_add_Some in Hadd as [-> ?]. right. done.
Qed.

Lemma commit_state_ok state t d :
  state_ok state → state_ok (MemoryTransaction_commit state t d).1.
Proof.
  intros Hok. destruct (MemoryTransaction_commit state t d) as [state' r] eqn:Hc.
  apply commit_cases in Hc as [[-> _]|(Hb & Hle & -> & _)]; [done|]. simpl.
  split; simpl; [done|]. intros n. rewrite lookup_insert. case_decide.
  - subst. split; [lia|eauto].
  - rewrite (retained_dense _ Hok). lia.
Qed.

Lemma commit_retains state t d n tables :
  state_ok state → retained state !! n = Some tables →
  retained (MemoryTransaction_commit state t d).1 !! n = Some tables.
Proof.
  intros Hok Hn. destruct (MemoryTransaction_commit state t d) as [state' r] eqn:Hc.
  apply commit_cases in Hc as [[-> _]|(_ & _ & -> & _)]; [done|]. simpl.
  apply lookup_insert_Some. right. split; [|done].
  assert (n ≤ state_head state)%N by (apply (retained_dense _ Hok); eauto). lia.
Qed.

#[export] Program Instance MemoryStorage_spec : StorageEngineSpec State := {|
  engine_ok := state_ok;
  engine_content := state_content;
  snap_content := λ s, tables_content (snapshot_tables s);
  txn_content := mem_txn_content;
  txn_current := mem_current;
|}.
Next Obligation.
  intros state Hok. destruct (head_retained _ Hok) as [tables Ht]. simpl.
  unfold MemoryStorage_begin_read, state_content. rewrite Ht. simpl. eauto.
Qed.
Next Obligation. intros s ks k. simpl. unfold MemorySnapshot_get. by rewrite lookup_tables_content. Qed.
Next Obligation. exact MemorySnapshot_scan_spec. Qed.
Next Obligation.
  intros state Hok. destruct (head_retained _ Hok) as [tables Ht]. simpl.
  unfold MemoryStorage_begin_write, MemoryStorage_begin_read, state_content, mem_txn_content.
  rewrite Ht. simpl. eexists. split_and!; [done| |by split]. simpl. by rewrite overlay_empty.
Qed.
Next Obligation. exact MemoryTransaction_get_spec. Qed.
Next Obligation. exact MemoryTransaction_scan_spec. Qed.
Next Obligation.
  intros t ks k v. eexists. split_and!; [done|apply overlay_insert|]. by intros e [? ?].
Qed.
Next Obligation.
  intros t ks k. eexists. split_and!; [done|apply overlay_delete|]. by intros e [? ?].
Qed.
Next Obligation. done. Qed.
Next Obligation.
  simpl. intros state t d state' r Hok [Hb Ht] Hc.
  split; [change state' with (state', r).1; rewrite <- Hc; by apply commit_state_ok|].
  apply commit_cases in Hc as [[-> Hr]|(_ & _ & -> & _)]; [right; eauto|left].
  unfold state_content. simpl. rewrite lookup_insert_eq. simpl. by rewrite commit_content.
Qed.
Next Obligation.
  intros state mode Hok. simpl. unfold MemoryStorage_verify, MemoryStorage_begin_read.
  destruct (head_retained _ Hok) as [tables ->]. simpl. eauto.
Qed.

(** A run of commits by any writers, stale or not. *)
Definition run_commits (state : State) (ts : list (MemoryTransaction * Durability)) : State :=
  foldl (λ st td, (MemoryTransaction_commit st td.1 td.2).1) state ts.

Lemma run_commits_ok state ts : state_ok state → state_ok (run_commits state ts).
Proof.
  unfold run_commits. revert state; induction ts as [|[t d] ts IH]; intros state Hok; [done|].
  simpl. apply IH. by apply commit_state_ok.
Qed.

Lemma run_commits_retains state ts n tables :
  state_ok state → retained state !! n = Some tables →
  retained (run_commits state ts) !! n = Some tables.
Proof.
  unfold run_commits. revert state; induction ts as [|[t d] ts IH]; intros state Hok Hn; [done|].
  simpl. apply IH; [by apply commit_state_ok|by apply commit_retains].
Qed.

(** ** Properties *)

(** C21: a read snapshot is isolated.  After any run of commits by any writers,
    reopening the sequence of an earlier snapshot gives the identical snapshot. *)
Theorem memory_snapshot_isolation state ts n s :
  state_ok state → MemoryStorage_begin_read state (At n) = Ok s →
  MemoryStorage_begin_read (run_commits state ts) (At n) = Ok s.
Proof.
  unfold MemoryStorage_begin_read. intros Hok Hr. res_inv.
  by rewrite (run_commits_retains state ts n a Hok Hm).
Qed.

(** A transaction over the empty store, used by the witnesses. *)
Definition sample_space : Keyspace := MkKeyspace "events".
Definition sample_txn : MemoryTransaction :=
  MkMemoryTransaction (MkMemorySnapshot 0 ∅)
    {[ ("events", [x61]) := Put [x01]; ("events", [x62]) := Delete ]}.

Lemma memory_snapshot_isolation_witness :
  MemoryStorage_begin_read (run_commits MemoryStorage_new [(sample_txn, Sync); (sample_txn, Sync)])
    (At 0) = Ok (MkMemorySnapshot 0 ∅).
Proof. apply memory_snapshot_isolation; [apply state_ok_new|reflexivity]. Defined.

(** the retained history has no gap.  From a new store, after any run of
    commits, exactly the sequences up to the head can be opened. *)
Theorem memory_history_dense ts n :
  let state := run_commits MemoryStorage_new ts in
  (∃ s, MemoryStorage_begin_read state (At n) = Ok s) ↔ (n ≤ state_head state)%N.
Proof.
  intros state. assert (state_ok state) as Hok by (apply run_commits_ok, state_ok_new).
  rewrite <- (retained_dense _ Hok). unfold MemoryStorage_begin_read.
  destruct (retained state !! n); simpl; split; intros []; naive_solver.
Qed.

(** first committer wins.  Of two transactions opened on the same head, once
    one commit succeeds the other is refused with a write conflict and changes
    nothing. *)
Theorem memory_first_committer_wins state t1 t2 d1 d2 state' receipt :
  mem_current state t1 → mem_current state t2 →
  MemoryTransaction_commit state t1 d1 = (state', Ok receipt) →
  MemoryTransaction_commit state' t2 d2 =
    (state', Err (WriteConflict (state_head state) (state_head state + 1))).
Proof.
  intros _ [Hb2 _] [[_ [? [=]]]|(_ & _ & -> & _)]%commit_cases.
  unfold MemoryTransaction_commit. simpl. rewrite Hb2.
  by rewrite (proj2 (N.eqb_neq _ _)) by lia.
Qed.

Lemma memory_first_committer_wins_witness :
  (MemoryTransaction_commit (run_commits MemoryStorage_new [(sample_txn, Sync)]) sample_txn Sync).2
    = Err (WriteConflict 0 1).
Proof.
  erewrite (memory_first_committer_wins MemoryStorage_new sample_txn sample_txn Sync Sync
              (run_commits MemoryStorage_new [(sample_txn, Sync)]) (MkCommitReceipt 1 Sync)).
  - reflexivity.
  - by split.
  - by split.
  - reflexivity.
Defined.

(** a commit is atomic and publishes exactly the staged changes.  On success
    the head advances by one, the new head reads as the old head overlaid with the
    changes, in whatever order the hash map yields them, and the achieved
    durability is reported; on failure the store is untouched. *)
Theorem memory_commit_publishes state t d :
  mem_current state t →
  if (state_head state <? U64_MAX)%N
  then ∃ state', MemoryTransaction_commit state t d
                   = (state', Ok (MkCommitReceipt (state_head state + 1) d)) ∧
       state_head state' = (state_head state + 1)%N ∧
       ∀ k, state_content state' !! k =
              match changes t !! k with
              | Some (Put v) => Some v
              | Some Delete => None
              | None => state_content state !! k
              end
  else MemoryTransaction_commit state t d = (state, Err (Backend "memory" "commit sequence exhausted")).
Proof.
  intros [Hb Ht]. unfold MemoryTransaction_commit. rewrite Hb, N.eqb_refl. simpl.
  unfold checked_add. destruct (N.ltb_spec (state_head state) U64_MAX).
  - rewrite (proj2 (N.leb_le _ _)) by lia. eexists. split_and!; [done..|].
    intros k. unfold state_content. simpl. rewrite lookup_insert_eq, Ht. simpl.
    rewrite commit_content. apply lookup_overlay.
  - by rewrite (proj2 (N.leb_gt _ _)) by lia.
Qed.

Lemma memory_commit_publishes_witness :
  ∃ state', MemoryTransaction_commit MemoryStorage_new sample_txn Sync
              = (state', Ok (MkCommitReceipt 1 Sync)) ∧
            state_content state' !! ("events", [x61]) = Some [x01].
Proof.
  destruct (memory_commit_publishes MemoryStorage_new sample_txn Sync) as (state' & Hc & _ & Hk).
  - by split.
  - exists state'. split; [exact Hc|]. rewrite Hk. reflexivity.
Defined.

(** a transaction reads its own writes consistently.  When a prefix scan of
    it returns, the result is strictly ascending and holds exactly the keys with
    the prefix that [get] finds in the same transaction, with the same values. *)
Theorem memory_transaction_scan_get t ks pfx l :
  MemoryTransaction_scan_prefix t ks pfx = Ok l →
  StronglySorted key_lt l ∧
  ∀ e, e ∈ l ↔ starts_with pfx (key e) = true ∧
               MemoryTransaction_get t ks (key e) = Ok (Some (value e)).
Proof.
  rewrite MemoryTransaction_scan_spec. intros ->%scan_table_Ok.
  split; [apply StronglySorted_filter, table_entries_sorted|].
  intros e. unfold with_prefix. rewrite list_elem_of_filter, table_entries_elem.
  rewrite MemoryTransaction_get_spec, lookup_keyspace_table.
  split; intros [? Hl]; (split; [done|]); [by rewrite Hl|by injection Hl].
Qed.

Lemma memory_transaction_scan_get_witness :
  MemoryTransaction_scan_prefix sample_txn sample_space [x61] = Ok [MkEntry [x61] [x01]] ∧
  MemoryTransaction_get sample_txn sample_space [x61] = Ok (Some [x01]).
Proof.
  assert (MemoryTransaction_scan_prefix sample_txn sample_space [x61] = Ok [MkEntry [x61] [x01]])
    as Hs by (vm_compute; reflexivity).
  split; [exact Hs|].
  apply (memory_transaction_scan_get sample_txn sample_space [x61] _ Hs) with (e := MkEntry [x61] [x01]).
  constructor.
Defined.
