(* ===== verification/FaultStorage.v ===== *)
(** * Fault injection around an engine (crate contextdb-storage-fault)

    [FaultStorage] wraps any engine together with the FIFO schedule of faults that
    its controller handle arms.  The handle and every open transaction share the
    schedule, so the schedule is part of the engine's state.  The wrapper keeps the
    engine laws: a commit is atomic under every fault. *)

From S2P Require Import Prelude.
From S2P Require Import Ordering.
From S2P Require Import Bytes.
From S2P Require Import Storage.
From S2P Require Import Engine.
From S2P Require Import MemoryStorage.

Definition FAULT_BACKEND : string := "fault-injection".

Inductive FaultAction :=
  | NoSpaceBeforeCommit
  | LoseResponseAfterCommit
  | WeakenDurabilityReceipt.

Record FaultStorage (E : Type) := MkFaultStorage {
  engine : E;
  actions : list FaultAction;
}.
Arguments MkFaultStorage {E} _ _.
Arguments engine {E} _.
Arguments actions {E} _.

Record FaultTransaction (T : Type) := MkFaultTransaction { inner : T }.
Arguments MkFaultTransaction {T} _.
Arguments inner {T} _.



Definition pending {E} (fs : FaultStorage E) : N := len (actions fs).

(** [take]: the front action and the schedule left. *)
Definition take_action (l : list FaultAction) : option FaultAction * list FaultAction :=
  match l with
  | [] => (None, [])
  | a :: rest => (Some a, rest)
  end.

Section fault.
Context {E : Type} {HE : StorageEngine E}.
#[local] Abbreviation T := (FaultTransaction (@Txn E HE)).

#[export] Instance FaultTransaction_ReadSnapshot : ReadSnapshot T := {|
  sequence := λ t, sequence (inner t);
  get := λ t ks k, get (inner t) ks k;
  scan_prefix := λ t ks pfx, scan_prefix (inner t) ks pfx;
  scan_prefix_page := λ t ks request, scan_prefix_page (inner t) ks request;
|}.

Definition FaultTransaction_put (t : T) (ks : Keyspace) (k v : bytes) : result StorageError T :=
  map_ok MkFaultTransaction (put (inner t) ks k v).

Definition FaultTransaction_delete (t : T) (ks : Keyspace) (k : bytes) : result StorageError T :=
  map_ok MkFaultTransaction (delete_key (inner t) ks k).

Definition FaultTransaction_commit (fs : FaultStorage E) (t : T) (d : Durability)
    : FaultStorage E * result StorageError CommitReceipt :=
  let '(action, rest) := take_action (actions fs) in
  match action with
  | Some NoSpaceBeforeCommit =>
      (MkFaultStorage (engine fs) rest,
       Err (Backend FAULT_BACKEND "injected no space left on device before atomic commit"))
  | Some LoseResponseAfterCommit =>
      let '(e', r) := commit (engine fs) (inner t) d in
      (MkFaultStorage e' rest,
       try? r in
       Err (Backend FAULT_BACKEND "injected response loss after atomic commit"))
  | Some WeakenDurabilityReceipt =>
      let '(e', r) := commit (engine fs) (inner t) d in
      (MkFaultStorage e' rest,
       let? receipt := r in
       Ok (MkCommitReceipt (receipt_sequence receipt) Ephemeral))
  | None =>
      let '(e', r) := commit (engine fs) (inner t) d in
      (MkFaultStorage e' rest, r)
  end.

Definition FaultStorage_begin_write (fs : FaultStorage E) : result StorageError T :=
  let? inner := begin_write (engine fs) in
  Ok (MkFaultTransaction inner).

#[export] Instance FaultStorage_StorageEngine : StorageEngine (FaultStorage E) := {|
  Snap := @Snap E HE;
  Txn := T;
  put := FaultTransaction_put;
  delete_key := FaultTransaction_delete;
  commit := FaultTransaction_commit;
  rollback := λ t, rollback (inner t);
  head_sequence := λ fs, head_sequence (engine fs);
  begin_read := λ fs selector, begin_read (engine fs) selector;
  begin_write := FaultStorage_begin_write;
  checkpoint := λ fs target, checkpoint (engine fs) target;
  compact := λ fs request, compact (engine fs) request;
  verify_engine := λ fs mode, verify_engine (engine fs) mode;
|}.

Context {HS : StorageEngineSpec E}.

(** The commit of the wrapper, as one commit of the engine or none. *)
Lemma fault_commit_inner fs t d fs' r :
  FaultTransaction_commit fs t d = (fs', r) →
  (engine fs' = engine fs ∧ ∃ err, r = Err err) ∨
  ∃ r', commit (engine fs) (inner t) d = (engine fs', r') ∧
        ∀ err, r' = Err err → r = Err err.
Proof.
  unfold FaultTransaction_commit. destruct (take_action (actions fs)) as [[[]|] rest];
    [intros [= <- <-]; left; eauto|..];
    destruct (commit (engine fs) (inner t) d) as [e' r'] eqn:Hc; intros [= <- <-]; right; simpl;
    exists r'; (split; [done|]); by intros err ->.
Qed.

#[export] Program Instance FaultStorage_spec : StorageEngineSpec (FaultStorage E) := {|
  engine_ok := λ fs, engine_ok (engine fs);
  engine_content := λ fs, engine_content (engine fs);
  snap_content := snap_content (E:=E);
  txn_content := λ t, txn_content (inner t);
  txn_current := λ fs t, txn_current (engine fs) (inner t);
|}.
Next Obligation. intros fs. apply (begin_read_latest (E:=E)). Qed.
Next Obligation. intros s. apply (snap_get (E:=E)). Qed.
Next Obligation. intros s. apply (snap_scan (E:=E)). Qed.
Next Obligation.
  intros fs Hok. simpl. unfold FaultStorage_begin_write.
  destruct (begin_write_current (E:=E) _ Hok) as (t & -> & Hc & Hcur).
  exists (MkFaultTransaction t). done.
Qed.
Next Obligation. intros t. apply (txn_get (E:=E)). Qed.
Next Obligation. intros t. apply (txn_scan (E:=E)). Qed.
Next Obligation.
  intros t ks k v. simpl. unfold FaultTransaction_put.
  destruct (put_staged (E:=E) (inner t) ks k v) as (t' & -> & Hc & Hcur).
  exists (MkFaultTransaction t'). split_and!; [done..|]. intros fs. apply Hcur.
Qed.
Next Obligation.
  intros t ks k. simpl. unfold FaultTransaction_delete.
  destruct (delete_staged (E:=E) (inner t) ks k) as (t' & -> & Hc & Hcur).
  exists (MkFaultTransaction t'). split_and!; [done..|]. intros fs. apply Hcur.
Qed.
Next Obligation. intros t. apply (rollback_ok (E:=E)). Qed.
Next Obligation.
  simpl. intros fs t d fs' r Hok Hcur [[Heq Herr]|(r' & Hc & Hr)]%fault_commit_inner.
  - rewrite Heq. auto.
  - destruct (commit_atomic (E:=E) _ _ _ _ _ Hok Hcur Hc) as [Hok' [?|[? [err Herr]]]]; split; auto.
    right. split; [done|]. exists err. by apply Hr.
Qed.
Next Obligation. intros fs mode. apply (verify_readable (E:=E)). Qed.
End fault.

(** ** Properties *)


