(* ===== verification/Format.v ===== *)
(** * Durable record framing and reader compatibility (crate contextdb-format)

    The fixed 32-byte envelope with its checksum, the format manifest a database
    stores beside its state, and the capability check a reader makes before it
    opens that state.  The migration registry and planner are in [Migration].
    BLAKE3 is a parameter: the class [Blake3] holds the digest function and its
    documented output length. *)

From S2P Require Import Prelude.
From S2P Require Import Ordering.
From S2P Require Import Bytes.

Class Blake3 := {
  blake3_hash : bytes → bytes;
  blake3_length b : length (blake3_hash b) = 32%nat;
}.

Lemma blake3_length_eqb `{Blake3} bs : (length (blake3_hash bs) =? 32)%nat = true.
Proof. apply Nat.eqb_eq, blake3_length. Qed.

(** A text of the first list and a different one of the second have one hash.  The
    lists are the texts that were hashed on two sides, so that a collision is one
    that somebody found, not one that must exist. *)
Definition hash_collision `{Blake3} (xs ys : list bytes) : Prop :=
  Exists (λ x, Exists (λ y, x ≠ y ∧ blake3_hash x = blake3_hash y) ys) xs.
#[export] Instance hash_collision_dec `{Blake3} xs ys : Decision (hash_collision xs ys).
Proof. unfold hash_collision. apply _. Defined.

Lemma hash_collision_intro `{Blake3} x y : x ≠ y → blake3_hash x = blake3_hash y → hash_collision [x] [y].
Proof. intros Hne Heq. repeat constructor; done. Qed.

Lemma hash_collision_mono `{Blake3} xs xs' ys ys' :
  xs ⊆ xs' → ys ⊆ ys' → hash_collision xs ys → hash_collision xs' ys'.
Proof.
  intros Hx Hy (x & Hin & (y & Hin' & Hc)%Exists_exists)%Exists_exists.
  apply Exists_exists. exists x. split; [by apply Hx|]. apply Exists_exists. exists y. split; [by apply Hy|done].
Qed.

Inductive FormatError :=
  | InvalidIdentifier (kind : string) (value : string)
  | InvalidMigrationId (value : string)
  | InvalidReaderRange (read_min read_max : N)
  | UnsupportedWriterVersion (family : string) (writer read_min read_max : N)
  | UnknownRequiredFeature (family feature : string)
  | UnknownFormatFamily (family : string)
  | DuplicateReader (family : string)
  | DuplicateMigration (migration_id : string)
  | DuplicateMigrationEdge (family : string) (from_writer to_writer : N)
  | IdentityMigration (family : string) (writer : N)
  | InvalidFreeSpaceRequirement
  | FreeSpaceEstimateOverflow
  | MigrationPathUnavailable (family : string) (from_writer to_writer : N)
  | InsufficientMigrationSpace (required available : N)
  | PayloadTooLarge (length : N)
  | TruncatedHeader (actual : N)
  | BadMagic
  | LengthMismatch (declared actual : N)
  | InvalidLength
  | ChecksumMismatch (expected actual : N).

Definition identifier_byte_ok (b : byte) : bool :=
  is_ascii_lowercase b || is_ascii_digit b || bool_decide (b = x5f) || bool_decide (b = x2d).

Definition validate_identifier (kind value : string) : result FormatError unit :=
  match str_bytes value with
  | [] => Err (InvalidIdentifier kind value)
  | first :: rest =>
      if negb (is_ascii_lowercase first) || negb (forallb identifier_byte_ok rest)
      then Err (InvalidIdentifier kind value)
      else Ok tt
  end.

(** ** Stored manifests and reader capabilities *)

Record StoredFormatManifest := MkStoredFormatManifest {
  stored_family : string;
  writer : N;
  required_features : gset string;
}.

Definition StoredFormatManifest_validate (m : StoredFormatManifest) : result FormatError unit :=
  try? validate_identifier "format family" (stored_family m) in
  for_each (validate_identifier "required format feature") (bt_elements (required_features m)).

Definition StoredFormatManifest_new (family : string) (writer : N) (features : list string)
    : result FormatError StoredFormatManifest :=
  let manifest := MkStoredFormatManifest family writer (list_to_set features) in
  try? StoredFormatManifest_validate manifest in
  Ok manifest.

Record ReaderCapability := MkReaderCapability {
  read_min : N;
  read_max : N;
  supported_features : gset string;
}.

Definition ReaderCapability_validate (c : ReaderCapability) : result FormatError unit :=
  if (read_max c <? read_min c)%N then Err (InvalidReaderRange (read_min c) (read_max c))
  else for_each (validate_identifier "supported format feature") (bt_elements (supported_features c)).

Definition ReaderCapability_new (read_min read_max : N) (features : list string)
    : result FormatError ReaderCapability :=
  let capability := MkReaderCapability read_min read_max (list_to_set features) in
  try? ReaderCapability_validate capability in
  Ok capability.

Definition ensure_can_read (c : ReaderCapability) (stored : StoredFormatManifest)
    : result FormatError unit :=
  try? ReaderCapability_validate c in
  try? StoredFormatManifest_validate stored in
  if negb ((read_min c <=? writer stored) && (writer stored <=? read_max c))%N then
    Err (UnsupportedWriterVersion (stored_family stored) (writer stored) (read_min c) (read_max c))
  else
    match bt_elements (required_features stored ∖ supported_features c) with
    | feature :: _ => Err (UnknownRequiredFeature (stored_family stored) feature)
    | [] => Ok tt
    end.

(** ** The record envelope *)

Definition MAGIC : bytes := [x43; x54; x58; x4a].
Definition HEADER_LEN : nat := 32.

Inductive RecordKind :=
  | Observation
  | SemanticMutation
  | SemanticPublication
  | PolicyMutation
  | Outbox
  | Snapshot
  | DeletionProof
  | MaintenanceMutation
  | MaintenancePublication.

Definition RecordKind_u16 (k : RecordKind) : N :=
  match k with
  | Observation => 1
  | SemanticMutation => 2
  | SemanticPublication => 3
  | PolicyMutation => 4
  | Outbox => 5
  | Snapshot => 6
  | DeletionProof => 7
  | MaintenanceMutation => 8
  | MaintenancePublication => 9
  end.

Record RecordEnvelope := MkRecordEnvelope {
  record_kind : N;
  schema_version : N;
  flags : N;
  commit_seq : N;
  payload_len : N;
  payload_checksum : N;
}.

Record DecodedRecord := MkDecodedRecord {
  envelope : RecordEnvelope;
  payload : bytes;
}.

Definition checksum `{Blake3} (payload : bytes) : N :=
  from_be_bytes (take 8 (blake3_hash payload)).

Definition encode_record `{Blake3} (record_kind schema_version flags commit_seq : N) (payload : bytes)
    : result FormatError bytes :=
  let? payload_len := ok_or (try_from_max U32_MAX (len payload)) (PayloadTooLarge (len payload)) in
  let payload_checksum := checksum payload in
  Ok (MAGIC ++ to_be_bytes 2 record_kind ++ to_be_bytes 2 schema_version ++
      to_be_bytes 4 flags ++ to_be_bytes 8 commit_seq ++ to_be_bytes 4 payload_len ++
      to_be_bytes 8 payload_checksum ++ payload).

Definition read_u16 (bs : bytes) (offset : nat) : result FormatError N :=
  let? value := ok_or (slice_get offset (offset + 2) bs) InvalidLength in
  Ok (from_be_bytes value).
Definition read_u32 (bs : bytes) (offset : nat) : result FormatError N :=
  let? value := ok_or (slice_get offset (offset + 4) bs) InvalidLength in
  Ok (from_be_bytes value).
Definition read_u64 (bs : bytes) (offset : nat) : result FormatError N :=
  let? value := ok_or (slice_get offset (offset + 8) bs) InvalidLength in
  Ok (from_be_bytes value).

Definition decode_record `{Blake3} (frame : bytes) : result FormatError DecodedRecord :=
  if (length frame <? HEADER_LEN)%nat then Err (TruncatedHeader (len frame))
  else if negb (bool_decide (slice_get 0 4 frame = Some MAGIC)) then Err BadMagic
  else
  let? record_kind := read_u16 frame 4 in
  let? schema_version := read_u16 frame 6 in
  let? flags := read_u32 frame 8 in
  let? commit_seq := read_u64 frame 12 in
  let? payload_len := read_u32 frame 20 in
  let? payload_checksum := read_u64 frame 24 in
  let? expected_len :=
    ok_or (checked_add USIZE_MAX (N.of_nat HEADER_LEN) payload_len) InvalidLength in
  if negb (len frame =? expected_len)%N then
    Err (LengthMismatch payload_len (len frame - N.of_nat HEADER_LEN))
  else
  let? payload := ok_or (slice_get HEADER_LEN (length frame) frame) InvalidLength in
  let actual_checksum := checksum payload in
  if negb (payload_checksum =? actual_checksum)%N then
    Err (ChecksumMismatch payload_checksum actual_checksum)
  else
  Ok (MkDecodedRecord
        (MkRecordEnvelope record_kind schema_version flags commit_seq payload_len payload_checksum)
        payload).

(** ** Lemmas: slices and fields *)

Lemma slice_get_middle {A} (pre mid suf : list A) i j :
  i = length pre → j = (length pre + length mid)%nat →
  slice_get i j (pre ++ mid ++ suf) = Some mid.
Proof.
  intros -> ->. unfold slice_get. rewrite bool_decide_true by (rewrite !length_app; lia).
  rewrite drop_app_length.
  replace (length pre + length mid - length pre)%nat with (length mid) by lia.
  by rewrite take_app_length.
Qed.

Lemma slice_get_Some {A} (l m : list A) i j :
  slice_get i j l = Some m → (i ≤ j ≤ length l)%nat ∧ m = take (j - i) (drop i l).
Proof. unfold slice_get. case_bool_decide; [|done]. by intros [= <-]. Qed.

Lemma read_u16_middle pre x suf i :
  i = length pre → (x ≤ U16_MAX)%N → read_u16 (pre ++ to_be_bytes 2 x ++ suf) i = Ok x.
Proof.
  intros -> Hx. unfold read_u16. rewrite slice_get_middle by (by rewrite ?length_to_be_bytes).
  cbn [ok_or result_bind]. by rewrite from_to_be_bytes_small by (unfold U16_MAX in Hx; simpl; lia).
Qed.

Lemma read_u32_middle pre x suf i :
  i = length pre → (x ≤ U32_MAX)%N → read_u32 (pre ++ to_be_bytes 4 x ++ suf) i = Ok x.
Proof.
  intros -> Hx. unfold read_u32. rewrite slice_get_middle by (by rewrite ?length_to_be_bytes).
  cbn [ok_or result_bind]. by rewrite from_to_be_bytes_small by (unfold U32_MAX in Hx; simpl; lia).
Qed.

Lemma read_u64_middle pre x suf i :
  i = length pre → (x ≤ U64_MAX)%N → read_u64 (pre ++ to_be_bytes 8 x ++ suf) i = Ok x.
Proof.
  intros -> Hx. unfold read_u64. rewrite slice_get_middle by (by rewrite ?length_to_be_bytes).
  cbn [ok_or result_bind]. by rewrite from_to_be_bytes_small by (unfold U64_MAX in Hx; simpl; lia).
Qed.

Section envelope.
Context `{Blake3}.

Lemma checksum_bound p : (checksum p ≤ U64_MAX)%N.
Proof.
  unfold checksum. pose proof (from_be_bytes_bound (take 8 (blake3_hash p))) as Hb.
  unfold len in Hb. rewrite length_take, blake3_length in Hb. unfold U64_MAX. simpl in Hb. lia.
Qed.

(** The canonical frame of already narrowed fields. *)
Definition frame_of (k s f c l h : N) (p : bytes) : bytes :=
  MAGIC ++ to_be_bytes 2 k ++ to_be_bytes 2 s ++ to_be_bytes 4 f ++ to_be_bytes 8 c ++
  to_be_bytes 4 l ++ to_be_bytes 8 h ++ p.

Lemma length_frame_of k s f c l h p : length (frame_of k s f c l h p) = (32 + length p)%nat.
Proof. unfold frame_of. rewrite !length_app, !length_to_be_bytes. reflexivity. Qed.

Lemma len_frame_of k s f c l h p : len (frame_of k s f c l h p) = (32 + len p)%N.
Proof. unfold len. rewrite length_frame_of. lia. Qed.

Lemma encode_record_Ok k s f c p frame :
  encode_record k s f c p = Ok frame ↔
  (len p ≤ U32_MAX)%N ∧ frame = frame_of k s f c (len p) (checksum p) p.
Proof.
  unfold encode_record, try_from_max. destruct (N.leb_spec (len p) U32_MAX); simpl.
  - split; [by intros [= <-]|by intros [_ ->]].
  - split; [done|]. lia.
Qed.

Lemma frame_of_fields k s f c l h p :
  (k ≤ U16_MAX)%N → (s ≤ U16_MAX)%N → (f ≤ U32_MAX)%N → (c ≤ U64_MAX)%N → (l ≤ U32_MAX)%N →
  (h ≤ U64_MAX)%N →
  let frame := frame_of k s f c l h p in
  slice_get 0 4 frame = Some MAGIC ∧ read_u16 frame 4 = Ok k ∧ read_u16 frame 6 = Ok s ∧
  read_u32 frame 8 = Ok f ∧ read_u64 frame 12 = Ok c ∧ read_u32 frame 20 = Ok l ∧
  read_u64 frame 24 = Ok h ∧ slice_get 32 (32 + length p) frame = Some p.
Proof.
  intros Hk Hs Hf Hc Hl Hh frame.
  set (a0 := MAGIC). set (a1 := a0 ++ to_be_bytes 2 k). set (a2 := a1 ++ to_be_bytes 2 s).
  set (a3 := a2 ++ to_be_bytes 4 f). set (a4 := a3 ++ to_be_bytes 8 c).
  set (a5 := a4 ++ to_be_bytes 4 l). set (a6 := a5 ++ to_be_bytes 8 h).
  assert (length a1 = 6 ∧ length a2 = 8 ∧ length a3 = 12 ∧ length a4 = 20 ∧ length a5 = 24 ∧
          length a6 = 32)%nat as (L1 & L2 & L3 & L4 & L5 & L6).
  { unfold a6, a5, a4, a3, a2, a1. rewrite !length_app, !length_to_be_bytes. done. }
  assert (frame = [] ++ a0 ++ drop 4 frame) as E0 by done.
  assert (frame = a6 ++ p ++ []) as E6.
  { unfold frame, frame_of, a6, a5, a4, a3, a2, a1, a0. rewrite <- !app_assoc. by rewrite app_nil_r. }
  rewrite app_nil_r in E6. split_and!.
  - rewrite E0. by apply slice_get_middle.
  - by apply read_u16_middle.
  - rewrite E6. unfold a6, a5, a4, a3, a2. rewrite <- !app_assoc. apply read_u16_middle; [by rewrite L1|done].
  - rewrite E6. unfold a6, a5, a4, a3. rewrite <- !app_assoc. apply read_u32_middle; [by rewrite L2|done].
  - rewrite E6. unfold a6, a5, a4. rewrite <- !app_assoc. apply read_u64_middle; [by rewrite L3|done].
  - rewrite E6. unfold a6, a5. rewrite <- !app_assoc. apply read_u32_middle; [by rewrite L4|done].
  - rewrite E6. unfold a6. rewrite <- !app_assoc. apply read_u64_middle; [by rewrite L5|done].
  - rewrite E6. rewrite <- (app_nil_r p) at 2. apply slice_get_middle; by rewrite L6.
Qed.

(** What decoding does with any frame whose fields have their widths. *)
Lemma decode_frame_of k s f c l h p :
  (k ≤ U16_MAX)%N → (s ≤ U16_MAX)%N → (f ≤ U32_MAX)%N → (c ≤ U64_MAX)%N → (l ≤ U32_MAX)%N →
  (h ≤ U64_MAX)%N →
  decode_record (frame_of k s f c l h p) =
    if negb (len p =? l)%N then Err (LengthMismatch l (len p))
    else if negb (h =? checksum p)%N then Err (ChecksumMismatch h (checksum p))
    else Ok (MkDecodedRecord (MkRecordEnvelope k s f c l h) p).
Proof.
  intros Hk Hs Hf Hc Hl Hh.
  destruct (frame_of_fields k s f c l h p) as (F0 & F1 & F2 & F3 & F4 & F5 & F6 & F7); [done..|].
  unfold decode_record. rewrite length_frame_of.
  rewrite (proj2 (Nat.ltb_ge _ _)) by (unfold HEADER_LEN; lia).
  rewrite F0, bool_decide_true by done. cbn [negb].
  rewrite F1, F2, F3, F4, F5, F6. cbn [result_bind].
  rewrite (proj2 (checked_add_Some USIZE_MAX _ _ (32 + l)%N))
    by (unfold USIZE_MAX, U64_MAX, U32_MAX, HEADER_LEN in *; lia).
  cbn [result_bind ok_or]. rewrite len_frame_of. unfold HEADER_LEN. rewrite F7.
  replace (32 + len p =? 32 + l)%N with (len p =? l)%N
    by (destruct (N.eqb_spec (len p) l), (N.eqb_spec (32 + len p) (32 + l)); lia).
  replace (32 + len p - N.of_nat 32)%N with (len p) by lia. done.
Qed.

Lemma read_u16_Ok bs i x :
  read_u16 bs i = Ok x → to_be_bytes 2 x = take 2 (drop i bs).
Proof.
  unfold read_u16. intros. res_inv. apply slice_get_Some in Hm as [Hle ->].
  replace (i + 2 - i)%nat with 2%nat by lia.
  assert (length (take 2 (drop i bs)) = 2%nat) as Hl by (rewrite length_take, length_drop; lia).
  rewrite <- Hl at 1. apply to_from_be_bytes.
Qed.

Lemma read_u32_Ok bs i x :
  read_u32 bs i = Ok x → to_be_bytes 4 x = take 4 (drop i bs).
Proof.
  unfold read_u32. intros. res_inv. apply slice_get_Some in Hm as [Hle ->].
  replace (i + 4 - i)%nat with 4%nat by lia.
  assert (length (take 4 (drop i bs)) = 4%nat) as Hl by (rewrite length_take, length_drop; lia).
  rewrite <- Hl at 1. apply to_from_be_bytes.
Qed.

Lemma read_u64_Ok bs i x :
  read_u64 bs i = Ok x → to_be_bytes 8 x = take 8 (drop i bs).
Proof.
  unfold read_u64. intros. res_inv. apply slice_get_Some in Hm as [Hle ->].
  replace (i + 8 - i)%nat with 8%nat by lia.
  assert (length (take 8 (drop i bs)) = 8%nat) as Hl by (rewrite length_take, length_drop; lia).
  rewrite <- Hl at 1. apply to_from_be_bytes.
Qed.

Lemma take_drop_step {A} (l : list A) i n j :
  j = (i + n)%nat → take n (drop i l) ++ drop j l = drop i l.
Proof. intros ->. by rewrite <- drop_drop, take_drop. Qed.

(** Only the frame of the decoded fields decodes. *)
Lemma decode_record_Ok frame r :
  decode_record frame = Ok r →
  let e := envelope r in
  frame = frame_of (record_kind e) (schema_version e) (flags e) (commit_seq e)
            (payload_len e) (payload_checksum e) (payload r) ∧
  payload_len e = len (payload r) ∧ payload_checksum e = checksum (payload r) ∧
  (payload_len e ≤ U32_MAX)%N.
Proof.
  unfold decode_record. destruct (Nat.ltb_spec (length frame) HEADER_LEN) as [|Hlen]; [done|].
  destruct (bool_decide _) eqn:HM; simpl; [|done]. apply bool_decide_eq_true in HM.
  apply slice_get_Some in HM as [_ HM].
  destruct (read_u16 frame 4) as [k|] eqn:F1; simpl; [|done].
  destruct (read_u16 frame 6) as [s|] eqn:F2; simpl; [|done].
  destruct (read_u32 frame 8) as [f|] eqn:F3; simpl; [|done].
  destruct (read_u64 frame 12) as [c|] eqn:F4; simpl; [|done].
  destruct (read_u32 frame 20) as [l|] eqn:F5; simpl; [|done].
  destruct (read_u64 frame 24) as [h|] eqn:F6; simpl; [|done].
  destruct (checked_add _ _ _) as [n|] eqn:Hn; cbn [ok_or result_bind]; [|done].
  apply checked_add_Some in Hn as [-> _].
  destruct (len frame =? _)%N eqn:Hfl; cbn [negb]; [|done]. apply N.eqb_eq in Hfl.
  destruct (slice_get _ _ frame) as [p|] eqn:Hp; simpl; [|done].
  apply slice_get_Some in Hp as [_ Hp].
  rewrite take_ge in Hp by (rewrite length_drop; unfold HEADER_LEN; lia).
  destruct (N.eqb_spec h (checksum p)) as [Hh|]; simpl; [|done].
  intros [= <-]. simpl. split_and!; [|..|done|].
  - apply read_u16_Ok in F1, F2. apply read_u32_Ok in F3, F5. apply read_u64_Ok in F4, F6.
    unfold frame_of. rewrite HM, F1, F2, F3, F4, F5, F6, Hp. unfold HEADER_LEN.
    by rewrite 7!take_drop_step by done.
  - subst p. unfold len in *. rewrite length_drop. unfold HEADER_LEN in *. lia.
  - unfold read_u32 in F5. res_inv. apply slice_get_Some in Hm as [_ ->].
    pose proof (from_be_bytes_bound (take (20 + 4 - 20) (drop 20 frame))) as Hb.
    assert (len (take (20 + 4 - 20) (drop 20 frame)) = 4)%N as Hl4.
    { unfold len. rewrite length_take, length_drop. unfold HEADER_LEN in Hlen. lia. }
    rewrite Hl4 in Hb. unfold U32_MAX. change (256 ^ 4)%N with (2 ^ 32)%N in Hb. lia.
Qed.
End envelope.

(** ** Properties *)

(** A digest function of the documented length, used by the witnesses. *)
Definition padded_hash (b : bytes) : bytes := take 32 (b ++ replicate 32 x00).

Lemma length_padded_hash b : length (padded_hash b) = 32%nat.
Proof. unfold padded_hash. rewrite length_take, length_app, length_replicate. lia. Qed.

Definition sample_blake3 : Blake3 := {|
  blake3_hash := padded_hash;
  blake3_length := length_padded_hash;
|}.
#[local] Existing Instance sample_blake3.

(** C40: framing round trip.  Every record whose fields have their declared
    widths and whose payload is below 4 GiB encodes, and the frame decodes to the
    same fields, payload, length and checksum; a larger payload is refused. *)
Theorem record_roundtrip `{Blake3} k s f c p :
  (k ≤ U16_MAX)%N → (s ≤ U16_MAX)%N → (f ≤ U32_MAX)%N → (c ≤ U64_MAX)%N →
  match encode_record k s f c p with
  | Ok frame =>
      (len p ≤ U32_MAX)%N ∧
      decode_record frame =
        Ok (MkDecodedRecord (MkRecordEnvelope k s f c (len p) (checksum p)) p)
  | Err e => (U32_MAX < len p)%N ∧ e = PayloadTooLarge (len p)
  end.
Proof.
  intros Hk Hs Hf Hc. destruct (encode_record k s f c p) as [frame|e] eqn:He.
  - apply encode_record_Ok in He as [Hl ->]. split; [done|].
    rewrite decode_frame_of by (done || apply checksum_bound). by rewrite !N.eqb_refl.
  - unfold encode_record, try_from_max in He. destruct (N.leb_spec (len p) U32_MAX); simpl in He;
      [done|]. by injection He as <-.
Qed.

Lemma record_roundtrip_witness :
  match encode_record 1 1 0 7 [x61; x62] with
  | Ok frame =>
      (2 ≤ U32_MAX)%N ∧
      decode_record frame =
        Ok (MkDecodedRecord (MkRecordEnvelope 1 1 0 7 2 (checksum [x61; x62])) [x61; x62])
  | Err e => (U32_MAX < 2)%N ∧ e = PayloadTooLarge 2
  end.
Proof. apply (record_roundtrip 1 1 0 7 [x61; x62]); by vm_compute. Defined.

(** the encoding is canonical: a frame that decodes is the one and only
    encoding of what it decodes to. *)
Theorem record_canonical `{Blake3} frame r :
  decode_record frame = Ok r →
  let e := envelope r in
  encode_record (record_kind e) (schema_version e) (flags e) (commit_seq e) (payload r) = Ok frame.
Proof.
  intros (Hf & Hl & Hh & Hb)%decode_record_Ok e. apply encode_record_Ok.
  fold e in Hf, Hl, Hh, Hb. split; [lia|]. by rewrite Hf, Hl, Hh.
Qed.

Lemma record_canonical_witness :
  ∃ frame r, decode_record frame = Ok r ∧
    encode_record (record_kind (envelope r)) (schema_version (envelope r)) (flags (envelope r))
      (commit_seq (envelope r)) (payload r) = Ok frame.
Proof.
  eexists (frame_of 1 1 0 7 1 (checksum [x61]) [x61]), _. split.
  - vm_compute. reflexivity.
  - apply (record_canonical (frame_of 1 1 0 7 1 (checksum [x61]) [x61])). vm_compute. reflexivity.
Defined.

(** damage is detected.  Bytes after a frame, a frame cut short anywhere, and
    a replaced payload of the same length with another checksum are each refused,
    with the error that names the damage. *)
Theorem record_damage_detected `{Blake3} k s f c p frame :
  (k ≤ U16_MAX)%N → (s ≤ U16_MAX)%N → (f ≤ U32_MAX)%N → (c ≤ U64_MAX)%N →
  encode_record k s f c p = Ok frame →
  (∀ ext, ext ≠ [] → decode_record (frame ++ ext) = Err (LengthMismatch (len p) (len p + len ext))) ∧
  (∀ n, (n < length frame)%nat →
     decode_record (take n frame) =
       if (n <? HEADER_LEN)%nat then Err (TruncatedHeader (N.of_nat n))
       else Err (LengthMismatch (len p) (N.of_nat n - 32))) ∧
  (∀ p', len p' = len p → checksum p' ≠ checksum p →
     decode_record (take HEADER_LEN frame ++ p') = Err (ChecksumMismatch (checksum p) (checksum p'))).
Proof.
  intros Hk Hs Hf Hc [Hl ->]%encode_record_Ok. pose proof (checksum_bound p) as Hh.
  assert (∀ q, frame_of k s f c (len p) (checksum p) p ++ q
               = frame_of k s f c (len p) (checksum p) (p ++ q)) as Happ.
  { intros q. unfold frame_of. by rewrite <- !app_assoc. }
  assert (∀ n q, (32 ≤ n)%nat → take n (frame_of k s f c (len p) (checksum p) q)
               = frame_of k s f c (len p) (checksum p) (take (n - 32) q)) as Htake.
  { intros n q Hn. unfold frame_of. rewrite !take_app, !length_to_be_bytes.
    rewrite !(take_ge (to_be_bytes _ _)) by (rewrite length_to_be_bytes; simpl; lia).
    rewrite take_ge by (simpl; lia). do 7 f_equal. simpl. f_equal. lia. }
  split_and!.
  - intros ext Hext. rewrite Happ, decode_frame_of by done.
    rewrite (proj2 (N.eqb_neq _ _)); [by rewrite len_app|].
    rewrite len_app. destruct ext; [done|]. rewrite len_cons. lia.
  - intros n Hn. rewrite length_frame_of in Hn. destruct (Nat.ltb_spec n HEADER_LEN) as [Hlt|Hge].
    + unfold decode_record. unfold len.
      rewrite length_take, length_frame_of, Nat.min_l by (unfold HEADER_LEN in *; lia).
      by rewrite (proj2 (Nat.ltb_lt _ _)).
    + unfold HEADER_LEN in Hge. rewrite Htake, decode_frame_of by done.
      assert (len (take (n - 32) p) = N.of_nat n - 32)%N as ->.
      { unfold len. rewrite length_take. lia. }
      rewrite (proj2 (N.eqb_neq _ _)) by (unfold len; lia). done.
  - intros p' Hp' Hne. unfold HEADER_LEN. rewrite Htake by lia. simpl (32 - 32)%nat.
    assert (frame_of k s f c (len p) (checksum p) (take 0 p) ++ p'
            = frame_of k s f c (len p) (checksum p) p') as ->.
    { unfold frame_of. rewrite <- !app_assoc. by rewrite take_0. }
    rewrite decode_frame_of, Hp', N.eqb_refl by done. simpl.
    by rewrite (proj2 (N.eqb_neq _ _)).
Qed.

Lemma record_damage_detected_witness :
  decode_record (frame_of 1 1 0 7 1 (checksum [x61]) [x61] ++ [x00]) = Err (LengthMismatch 1 2).
Proof.
  apply (record_damage_detected 1 1 0 7 [x61] (frame_of 1 1 0 7 1 (checksum [x61]) [x61]));
    [by vm_compute..|done].
Defined.

Lemma validate_features_Ok kind (fs : gset string) :
  for_each (validate_identifier kind) (bt_elements fs) = Ok tt ↔
  set_Forall (λ f, validate_identifier kind f = Ok tt) fs.
Proof.
  rewrite for_each_Ok, Forall_forall. unfold set_Forall.
  split; intros Hf x Hx; apply Hf; by apply bt_elements_elem.
Qed.

(** the compatibility check fails closed.  A reader opens a stored
    generation exactly when its own range and features are well formed, the stored
    manifest is well formed, the writer version is in the range, and every
    required feature is supported. *)
Theorem ensure_can_read_iff c m :
  ensure_can_read c m = Ok tt ↔
  (read_min c ≤ read_max c)%N ∧
  set_Forall (λ f, validate_identifier "supported format feature" f = Ok tt) (supported_features c) ∧
  StoredFormatManifest_validate m = Ok tt ∧
  (read_min c ≤ writer m ≤ read_max c)%N ∧ required_features m ⊆ supported_features c.
Proof.
  unfold ensure_can_read, ReaderCapability_validate. rewrite <- validate_features_Ok.
  destruct (N.ltb_spec (read_max c) (read_min c)); simpl; [split; [done|lia]|].
  destruct (for_each _ (bt_elements (supported_features c))) as [[]|]; simpl; [|naive_solver].
  destruct (StoredFormatManifest_validate m) as [[]|]; simpl; [|naive_solver].
  destruct (_ && _) eqn:Hr; simpl; bool_simpl; [|split; [done|lia]].
  destruct (bt_elements _) as [|x xs] eqn:Hd.
  - split; [|done]. intros _. split_and!; try done; [lia..|]. intros x Hx.
    destruct (decide (x ∈ supported_features c)); [done|].
    assert (x ∈ bt_elements (required_features m ∖ supported_features c)) as Hin
      by (apply bt_elements_elem; set_solver).
    rewrite Hd in Hin. by apply elem_of_nil in Hin.
  - split; [done|]. intros (_ & _ & _ & _ & Hsub).
    assert (x ∈ required_features m ∖ supported_features c) by (apply bt_elements_elem; rewrite Hd; by left).
    set_solver.
Qed.
