(* ===== verification/Migration.v ===== *)
(** * Format migrations (crate contextdb-format)

    Migration descriptors, the free-space estimate at its 128-bit width, the
    registry of readers and migration edges, and the breadth-first planner. *)

From S2P Require Import Prelude.
From S2P Require Import Ordering.
From S2P Require Import Bytes.
From S2P Require Import Format.

Inductive MigrationKind :=
  | OnlineMetadata
  | BackgroundSegmentRewrite
  | SideBySideGeneration
  | OfflineMajor
  | LogicalExportImport.

Inductive RollbackPolicy :=
  | SwitchToUntouchedSource
  | VerifiedReverseMigration
  | UnsupportedRollback.

#[export] Instance RollbackPolicy_eq_dec : EqDecision RollbackPolicy.
Proof. solve_decision. Defined.

Record FreeSpaceRequirement := MkFreeSpaceRequirement {
  fixed_bytes : N;
  source_multiplier_numerator : N;
  source_multiplier_denominator : N;
}.

Definition FreeSpaceRequirement_NONE : FreeSpaceRequirement := MkFreeSpaceRequirement 0 0 1.

Definition estimate (q : FreeSpaceRequirement) (source_bytes : N) : result FormatError N :=
  if (source_multiplier_denominator q =? 0)%N then Err InvalidFreeSpaceRequirement
  else
  let? numerator :=
    ok_or (checked_mul U128_MAX source_bytes (source_multiplier_numerator q))
      FreeSpaceEstimateOverflow in
  let denominator := source_multiplier_denominator q in
  let? rounded :=
    ok_or (checked_add U128_MAX numerator (denominator - 1)) FreeSpaceEstimateOverflow in
  let scaled := (rounded / denominator)%N in
  let? total := ok_or (checked_add U128_MAX scaled (fixed_bytes q)) FreeSpaceEstimateOverflow in
  ok_or (try_from_max U64_MAX total) FreeSpaceEstimateOverflow.

Record MigrationDescriptor := MkMigrationDescriptor {
  migration_id : string;
  family : string;
  from_writer : N;
  to_writer : N;
  kind : MigrationKind;
  rollback_policy : RollbackPolicy;
  required_free_space : FreeSpaceRequirement;
  checksum_plan : string;
}.

(** [str::rsplit_once] with a one-byte separator. *)
Fixpoint rsplit_once (sep : byte) (l : bytes) : option (bytes * bytes) :=
  match l with
  | [] => None
  | b :: rest =>
      match rsplit_once sep rest with
      | Some (before, after) => Some (b :: before, after)
      | None => if bool_decide (b = sep) then Some ([], rest) else None
      end
  end.

Definition validate_migration_id (value : string) : result FormatError unit :=
  match rsplit_once x2d (str_bytes value) with
  | None => Err (InvalidMigrationId value)
  | Some (prefix, sequence) =>
      if bool_decide (prefix = []) || negb (forallb is_ascii_uppercase prefix)
         || (length sequence <? 4)%nat || negb (forallb is_ascii_digit sequence)
      then Err (InvalidMigrationId value)
      else Ok tt
  end.

Definition MigrationDescriptor_validate (m : MigrationDescriptor) : result FormatError unit :=
  try? validate_migration_id (migration_id m) in
  try? validate_identifier "format family" (family m) in
  try? validate_identifier "checksum plan" (checksum_plan m) in
  if (from_writer m =? to_writer m)%N then Err (IdentityMigration (family m) (from_writer m))
  else map_ok (λ _, tt) (estimate (required_free_space m) 0).

Record MigrationPlan := MkMigrationPlan {
  plan_family : string;
  plan_from : N;
  plan_to : N;
  steps : list MigrationDescriptor;
  required_free_space_bytes : N;
  rollback_supported : bool;
}.

Record FormatRegistry := MkFormatRegistry {
  readers : gmap string ReaderCapability;
  migrations : gmap string MigrationDescriptor;
}.

Definition FormatRegistry_new : FormatRegistry := MkFormatRegistry ∅ ∅.

(** The insertion happens before the duplicate is reported. *)
Definition register_reader (reg : FormatRegistry) (family : string) (capability : ReaderCapability)
    : FormatRegistry * result FormatError unit :=
  match (try? validate_identifier "format family" family in ReaderCapability_validate capability) with
  | Err e => (reg, Err e)
  | Ok _ =>
      let previous := readers reg !! family in
      let reg' := MkFormatRegistry (<[family := capability]> (readers reg)) (migrations reg) in
      if bool_decide (is_Some previous) then (reg', Err (DuplicateReader family)) else (reg', Ok tt)
  end.

Definition same_edge (m existing : MigrationDescriptor) : bool :=
  bool_decide (family existing = family m) && (from_writer existing =? from_writer m)%N
  && (to_writer existing =? to_writer m)%N.

Definition register_migration (reg : FormatRegistry) (m : MigrationDescriptor)
    : FormatRegistry * result FormatError unit :=
  match MigrationDescriptor_validate m with
  | Err e => (reg, Err e)
  | Ok _ =>
      if bool_decide (is_Some (migrations reg !! migration_id m))
      then (reg, Err (DuplicateMigration (migration_id m)))
      else if existsb (same_edge m) (bt_values (migrations reg))
      then (reg, Err (DuplicateMigrationEdge (family m) (from_writer m) (to_writer m)))
      else (MkFormatRegistry (readers reg) (<[migration_id m := m]> (migrations reg)), Ok tt)
  end.

Definition ensure_readable (reg : FormatRegistry) (stored : StoredFormatManifest)
    : result FormatError unit :=
  try? StoredFormatManifest_validate stored in
  let? reader := ok_or (readers reg !! stored_family stored)
                   (UnknownFormatFamily (stored_family stored)) in
  ensure_can_read reader stored.

(** ** The planner *)

(** The comparison of [outgoing.sort_by]. *)
Definition outgoing_le (a b : MigrationDescriptor) : Prop :=
  kle (to_writer a, migration_id a) (to_writer b, migration_id b).
#[export] Instance outgoing_le_dec a b : Decision (outgoing_le a b).
Proof. unfold outgoing_le; apply _. Defined.

Definition outgoing (reg : FormatRegistry) (fam : string) (w : N) : list MigrationDescriptor :=
  merge_sort outgoing_le
    (filter (λ m, bool_decide (family m = fam) && (from_writer m =? w)%N)
       (bt_values (migrations reg))).

(** The mutable locals of the search. *)
Record Search := MkSearch {
  queue : list (N * list string);
  visited : gset N;
}.

(** The inner [for] loop over the outgoing edges; [inr] is its [break] with the
    selected path. *)
Fixpoint visit_edges (to : N) (path : list string) (ms : list MigrationDescriptor) (st : Search)
    : Search + list string :=
  match ms with
  | [] => inl st
  | m :: rest =>
      if bool_decide (to_writer m ∈ visited st) then visit_edges to path rest st
      else
      let visited' := {[to_writer m]} ∪ visited st in
      let next_path := path ++ [migration_id m] in
      if (to_writer m =? to)%N then inr next_path
      else visit_edges to path rest (MkSearch (queue st ++ [(to_writer m, next_path)]) visited')
  end.

(** One iteration of the [while let]. *)
Definition search_step (reg : FormatRegistry) (fam : string) (to : N) (st : Search)
    : Search + option (list string) :=
  match queue st with
  | [] => inr None
  | (w, path) :: rest =>
      match visit_edges to path (outgoing reg fam w) (MkSearch rest (visited st)) with
      | inl st' => inl st'
      | inr p => inr (Some p)
      end
  end.

(** Each iteration takes one item off the queue, and an item is added only for a
    newly visited target: two more iterations than there are migrations suffice
    (lemma [search_terminates]). *)
Definition search_fuel (reg : FormatRegistry) : nat := size (migrations reg) + 2.

Definition search (reg : FormatRegistry) (fam : string) (from to : N) : option (list string) :=
  match loop_nat (search_fuel reg) (search_step reg fam to) (MkSearch [(from, [])] {[from]}) with
  | inr selected => selected
  | inl _ => None
  end.

Definition plan_migration (reg : FormatRegistry) (fam : string)
    (from to source_bytes available_free_space : N) : result FormatError MigrationPlan :=
  try? validate_identifier "format family" fam in
  if (from =? to)%N then Ok (MkMigrationPlan fam from to [] 0 true)
  else
  let? migration_ids := ok_or (search reg fam from to) (MigrationPathUnavailable fam from to) in
  let steps := omap (λ id, migrations reg !! id) migration_ids in
  let? required :=
    try_fold (λ acc step,
      let? e := estimate (required_free_space step) source_bytes in
      Ok (N.max acc e)) 0%N steps in
  if (available_free_space <? required)%N
  then Err (InsufficientMigrationSpace required available_free_space)
  else Ok (MkMigrationPlan fam from to steps required
             (forallb (λ s, bool_decide (rollback_policy s ≠ UnsupportedRollback)) steps)).

(** ** The estimate *)

Lemma checked_mul_Some max a b c : checked_mul max a b = Some c ↔ (c = a * b ∧ a * b ≤ max)%N.
Proof. unfold checked_mul. destruct (N.leb_spec (a * b) max); naive_solver lia. Qed.

Lemma ceil_div_bounds x d : (0 < d → x ≤ ((x + (d - 1)) / d) * d < x + d)%N.
Proof.
  intros Hd. pose proof (N.Div0.div_mod (x + (d - 1)) d) as Hdm.
  pose proof (N.mod_lt (x + (d - 1)) d ltac:(lia)).
  generalize dependent ((x + (d - 1)) mod d)%N. generalize ((x + (d - 1)) / d)%N. intros q r Hq Hr.
  rewrite (N.mul_comm q d). lia.
Qed.

(** ** The registry invariant *)

Definition registry_ok (reg : FormatRegistry) : Prop :=
  (∀ id m, migrations reg !! id = Some m →
     migration_id m = id ∧ from_writer m ≠ to_writer m) ∧
  (∀ id1 id2 m1 m2, migrations reg !! id1 = Some m1 → migrations reg !! id2 = Some m2 →
     family m1 = family m2 → from_writer m1 = from_writer m2 → to_writer m1 = to_writer m2 →
     id1 = id2).

Lemma same_edge_true m x :
  same_edge m x = true ↔
  family x = family m ∧ from_writer x = from_writer m ∧ to_writer x = to_writer m.
Proof. unfold same_edge. rewrite !andb_true_iff, bool_decide_eq_true, !N.eqb_eq. tauto. Qed.

Lemma registry_ok_new : registry_ok FormatRegistry_new.
Proof. split; simpl; intros; by simplify_map_eq. Qed.

Lemma register_reader_ok reg fam c : registry_ok reg → registry_ok (register_reader reg fam c).1.
Proof.
  intros Hok. unfold register_reader. destruct (result_bind _ _); [|done].
  by destruct (bool_decide _).
Qed.

Lemma register_migration_cases reg m :
  ((register_migration reg m).1 = reg ∧ ∃ e, (register_migration reg m).2 = Err e) ∨
  (MigrationDescriptor_validate m = Ok tt ∧ migrations reg !! migration_id m = None ∧
   (∀ id x, migrations reg !! id = Some x → same_edge m x = false) ∧
   register_migration reg m =
     (MkFormatRegistry (readers reg) (<[migration_id m := m]> (migrations reg)), Ok tt)).
Proof.
  unfold register_migration. destruct (MigrationDescriptor_validate m) as [[]|]; [|left; eauto].
  case_bool_decide as Hid; [left; eauto|].
  destruct (existsb _ _) eqn:He; [left; eauto|]. right.
  split_and!; [done|by apply eq_None_not_Some| |done].
  intros id x Hx. destruct (same_edge m x) eqn:Hs; [|done].
  assert (existsb (same_edge m) (bt_values (migrations reg)) = true); [|congruence].
  apply existsb_exists. exists x. split; [|done]. apply list_elem_of_In, elem_of_bt_values. eauto.
Qed.

Lemma register_migration_ok reg m : registry_ok reg → registry_ok (register_migration reg m).1.
Proof.
  intros [Hid Hedge].
  destruct (register_migration_cases reg m) as [[-> _]|(Hv & Hfresh & Hno & ->)]; [done|].
  unfold MigrationDescriptor_validate in Hv. res_inv.
  destruct (N.eqb_spec (from_writer m) (to_writer m)); [done|].
  split; simpl; setoid_rewrite lookup_insert_Some.
  - intros id x [[<- <-]|[_ Hx]]; [done|by apply Hid].
  - assert (∀ id x, migrations reg !! id = Some x → family x = family m →
              from_writer x = from_writer m → to_writer x = to_writer m → False) as Hclash.
    { intros id x Hx Hf Hfrom Hto. specialize (Hno _ _ Hx).
      rewrite (proj2 (same_edge_true m x)) in Hno by done. done. }
    intros id1 id2 m1 m2 [[<- <-]|[_ H1]] [[<- <-]|[_ H2]] Hf Hfrom Hto; [done|..].
    + exfalso. by eapply Hclash.
    + exfalso. by eapply Hclash.
    + by eapply Hedge.
Qed.

(** ** Walks in the migration graph *)

Section bfs.
Context (reg : FormatRegistry) (fam : string).

Definition edge (m : MigrationDescriptor) : Prop :=
  migrations reg !! migration_id m = Some m ∧ family m = fam.

Fixpoint walk (from : N) (ms : list MigrationDescriptor) (to : N) : Prop :=
  match ms with
  | [] => from = to
  | m :: rest => edge m ∧ from_writer m = from ∧ walk (to_writer m) rest to
  end.

Lemma walk_snoc from ms to m :
  walk from (ms ++ [m]) to ↔ walk from ms (from_writer m) ∧ edge m ∧ to_writer m = to.
Proof.
  revert from; induction ms as [|x ms IH]; intros from; simpl; [naive_solver|].
  rewrite IH. tauto.
Qed.

(** A path of ids names a walk. *)
Definition names_walk (from : N) (path : list string) (to : N) : Prop :=
  ∃ ms, path = migration_id <$> ms ∧ walk from ms to.

Lemma names_walk_snoc from path m :
  names_walk from path (from_writer m) → edge m →
  names_walk from (path ++ [migration_id m]) (to_writer m).
Proof.
  intros (ms & -> & Hw) He. exists (ms ++ [m]). rewrite fmap_app. split; [done|].
  by apply walk_snoc.
Qed.

Context (from to : N).

(** What one pass over outgoing edges of [w] does: every new target is queued with
    its extended path, or the target [to] is found. *)
Lemma visit_edges_spec w path ms st :
  (∀ m, m ∈ ms → edge m ∧ from_writer m = w) → names_walk from path w → to ∉ visited st →
  match visit_edges to path ms st with
  | inl st' =>
      ∃ new, queue st' = queue st ++ new ∧ to ∉ visited st' ∧
        (∀ v, v ∈ visited st' ↔ v ∈ visited st ∨ v ∈ new.*1) ∧
        (∀ m, m ∈ ms → to_writer m ∈ visited st') ∧
        Forall (λ vp, names_walk from vp.2 vp.1 ∧ length vp.2 = S (length path)) new ∧
        NoDup new.*1 ∧ (∀ v, v ∈ new.*1 → v ∉ visited st ∧ ∃ m, m ∈ ms ∧ v = to_writer m)
  | inr p => names_walk from p to ∧ length p = S (length path)
  end.
Proof.
  revert st; induction ms as [|m ms IH]; intros st Hms Hw Hto; simpl.
  { exists []. rewrite app_nil_r. split_and!; [done|done|set_solver|set_solver|constructor|constructor|set_solver]. }
  assert (edge m ∧ from_writer m = w) as [He Hf] by (apply Hms; by left).
  assert (names_walk from (path ++ [migration_id m]) (to_writer m)) as Hnw
    by (apply names_walk_snoc; [by rewrite Hf|done]).
  assert (∀ m', m' ∈ ms → edge m' ∧ from_writer m' = w) as Hms' by (intros; apply Hms; by right).
  case_bool_decide as Hv.
  - specialize (IH st Hms' Hw Hto). destruct (visit_edges to path ms st) as [st'|p]; [|done].
    destruct IH as (new & Hq & Hto' & Hvis & Hall & Hnew & Hnd & Hfr). exists new.
    split_and!; [done|done|done| |done|done|].
    + intros m' [->|?]%elem_of_cons; [|auto]. apply Hvis. by left.
    + intros v Hv'%Hfr. destruct Hv' as (? & m' & ? & ?). split; [done|]. exists m'. by split; [right|].
  - destruct (N.eqb_spec (to_writer m) to) as [Heq|Hneq].
    { rewrite <- Heq. split; [done|]. rewrite length_app. simpl. lia. }
    specialize (IH (MkSearch (queue st ++ [(to_writer m, path ++ [migration_id m])])
                      ({[to_writer m]} ∪ visited st)) Hms' Hw).
    destruct (visit_edges _ _ _ _) as [st'|p]; [|apply IH; set_solver].
    destruct IH as (new & Hq & Hto' & Hvis & Hall & Hnew & Hnd & Hfr); [set_solver|].
    simpl in *. exists ((to_writer m, path ++ [migration_id m]) :: new). simpl.
    split_and!; [by rewrite Hq, <- app_assoc|done|set_solver|..].
    + intros m' [->|?]%elem_of_cons; [|auto]. apply Hvis. set_solver.
    + constructor; [|done]. split; [done|]. simpl. rewrite length_app. simpl. lia.
    + constructor; [|done]. intros Hin%Hfr. set_solver.
    + intros v [->|Hin]%elem_of_cons; [split; [done|]; exists m; by split; [left|]|].
      apply Hfr in Hin as (? & m' & ? & ?). split; [set_solver|]. exists m'. by split; [right|].
Qed.

(** The search invariant: [finished] are the expanded writers, the queue is a run
    of writers at distance [d] followed by writers at distance [d + 1], and every
    writer within distance [d] is expanded or in the first run. *)
Definition bfs_state (finished : gset N) (q1 q2 : list (N * list string)) (d : nat) (st : Search)
    : Prop :=
  queue st = q1 ++ q2 ∧ to ∉ visited st ∧
  (∀ v, v ∈ visited st ↔ v ∈ finished ∨ v ∈ (queue st).*1) ∧
  (∀ m, edge m → from_writer m ∈ finished → to_writer m ∈ visited st) ∧
  Forall (λ vp, names_walk from vp.2 vp.1 ∧ length vp.2 = d) q1 ∧
  Forall (λ vp, names_walk from vp.2 vp.1 ∧ length vp.2 = S d) q2 ∧
  (∀ ms w, walk from ms w → (length ms ≤ d)%nat → w ∈ finished ∨ w ∈ q1.*1).

Definition bfs_inv (st : Search) : Prop := ∃ finished q1 q2 d, bfs_state finished q1 q2 d st.

Definition bfs_result (r : option (list string)) : Prop :=
  match r with
  | Some p => names_walk from p to ∧ ∀ ms, walk from ms to → (length p ≤ length ms)%nat
  | None => ∀ ms, ¬ walk from ms to
  end.

Lemma bfs_start : from ≠ to → bfs_inv (MkSearch [(from, [])] {[from]}).
Proof.
  intros Hne.
  exists ∅, [(from, [])], [], 0%nat. split_and!; simpl; [done|set_solver|set_solver|set_solver|..].
  - repeat constructor. by exists [].
  - constructor.
  - intros [|m ms] w; simpl; [|lia]. intros <- _. set_solver.
Qed.

(** When the first run is used up the second takes its place. *)
Lemma bfs_rotate finished q2 d st : bfs_state finished [] q2 d st → bfs_state finished q2 [] (S d) st.
Proof.
  intros (Hq & Hto & Hvis & Hedge & _ & Hq2 & Hnear). simpl in Hq.
  split_and!; [by rewrite app_nil_r|done|done|done|done|constructor|].
  intros ms w Hw Hlen. destruct (decide (length ms ≤ d)%nat) as [Hle|Hgt].
  { left. destruct (Hnear ms w Hw Hle); [done|set_solver]. }
  destruct ms as [|m ms _] using rev_ind; [simpl in Hgt; lia|].
  apply walk_snoc in Hw as (Hw & He & <-). rewrite length_app in Hlen; simpl in Hlen.
  destruct (Hnear ms _ Hw) as [Hf|Hin]; [lia| |set_solver].
  rewrite <- Hq. by apply Hvis, Hedge.
Qed.

Lemma bfs_exhausted finished d st : bfs_state finished [] [] d st → ∀ ms w, walk from ms w → w ∈ finished.
Proof.
  intros (Hq & _ & Hvis & Hedge & _ & _ & Hnear) ms.
  induction ms as [|m ms IH] using rev_ind; intros w Hw.
  - destruct (Hnear [] w Hw) as [?|?]; [simpl; lia|done|set_solver].
  - apply walk_snoc in Hw as (Hw & He & <-). apply IH in Hw. apply Hedge in Hw; [|done].
    apply Hvis in Hw as [?|Hin]; [done|]. rewrite Hq in Hin. set_solver.
Qed.

Context (Hids : ∀ id m, migrations reg !! id = Some m → migration_id m = id).

Lemma elem_of_outgoing w m : m ∈ outgoing reg fam w ↔ edge m ∧ from_writer m = w.
Proof.
  unfold outgoing. rewrite merge_sort_Permutation, list_elem_of_filter, elem_of_bt_values.
  rewrite Is_true_true, andb_true_iff, bool_decide_eq_true, N.eqb_eq. unfold edge. split.
  - intros [[? ?] [k Hk]]. pose proof (Hids _ _ Hk). by subst k.
  - naive_solver.
Qed.

Lemma bfs_expand finished w path q1 q2 d st :
  bfs_state finished ((w, path) :: q1) q2 d st → queue st = (w, path) :: q1 ++ q2 →
  match visit_edges to path (outgoing reg fam w) (MkSearch (q1 ++ q2) (visited st)) with
  | inl st' => bfs_inv st'
  | inr p => bfs_result (Some p)
  end.
Proof.
  intros (Hq & Hto & Hvis & Hedge & [[Hw Hd] Hq1]%Forall_cons & Hq2 & Hnear) Hqueue. simpl in Hw, Hd.
  pose proof (visit_edges_spec w path (outgoing reg fam w) (MkSearch (q1 ++ q2) (visited st))) as Hspec.
  destruct (visit_edges _ _ _ _) as [st'|p].
  - destruct Hspec as (new & Hq' & Hto' & Hvis' & Hall & Hnew & _);
      [by intros m ?%elem_of_outgoing|done|done|]. simpl in Hq', Hvis'.
    exists ({[w]} ∪ finished), q1, (q2 ++ new), d. rewrite Hqueue in Hvis. simpl in Hvis.
    split_and!; [by rewrite Hq', app_assoc|done| | |done| |].
    + intros v. rewrite Hvis', Hvis, Hq', !fmap_app. set_solver.
    + intros m He Hm. apply Hvis'.
      destruct (decide (from_writer m = w)) as [Heq|Hneq].
      * apply Hvis', Hall, elem_of_outgoing. done.
      * left. apply Hedge; [done|set_solver].
    + apply Forall_app; split; [done|]. rewrite Hd in Hnew. done.
    + intros ms v Hv Hlen. destruct (Hnear ms v Hv Hlen) as [?|Hin]; [left; set_solver|].
      simpl in Hin. apply elem_of_cons in Hin as [->|?]; [left; set_solver|by right].
  - destruct Hspec as [Hp Hlen]; [by intros m ?%elem_of_outgoing|done|done|].
    split; [done|]. intros ms Hms. rewrite Hlen, Hd.
    destruct (decide (length ms ≤ d)%nat) as [Hle|]; [|lia]. exfalso. apply Hto, Hvis.
    rewrite Hqueue. destruct (Hnear ms to Hms Hle); set_solver.
Qed.

Lemma search_step_inv st :
  bfs_inv st →
  match search_step reg fam to st with inl st' => bfs_inv st' | inr r => bfs_result r end.
Proof.
  intros (finished & q1 & q2 & d & Hst).
  assert (∃ q1' q2' d', bfs_state finished q1' q2' d' st ∧ (q1' = [] → q2' = []))
    as (q1' & q2' & d' & Hst' & Hemp).
  { destruct q1; [|by exists (p :: q1), q2, d]. exists q2, [], (S d). by split; [apply bfs_rotate|]. }
  unfold search_step. destruct q1' as [|[w path] q1'].
  - rewrite (Hemp eq_refl) in Hst'. destruct Hst' as (Hq & Hto & Hvis & Hrest). rewrite Hq. simpl.
    intros ms Hms. apply Hto, Hvis. left.
    eapply (bfs_exhausted _ d' st); [|done]. exact (conj Hq (conj Hto (conj Hvis Hrest))).
  - assert (queue st = (w, path) :: q1' ++ q2') as Hq by apply Hst'. rewrite Hq.
    pose proof (bfs_expand _ _ _ _ _ _ _ Hst' Hq) as Hex.
    by destruct (visit_edges _ _ _ _).
Qed.
End bfs.

(** ** Termination and correctness of the search *)

Definition targets (reg : FormatRegistry) : gset N := list_to_set (to_writer <$> bt_values (migrations reg)).
Definition search_measure (reg : FormatRegistry) (st : Search) : nat :=
  length (queue st) + size (targets reg ∖ visited st).

Lemma size_list_to_set_le (l : list N) : (size (list_to_set l : gset N) ≤ length l)%nat.
Proof.
  induction l as [|x l IH]; [done|]. rewrite list_to_set_cons. simpl.
  rewrite size_union_alt, size_singleton.
  assert (size (list_to_set l ∖ {[x]} : gset N) ≤ size (list_to_set l : gset N))%nat
    by (apply subseteq_size; set_solver). lia.
Qed.

Lemma size_targets reg : (size (targets reg) ≤ size (migrations reg))%nat.
Proof.
  unfold targets. etrans; [apply size_list_to_set_le|].
  unfold bt_values. by rewrite !length_fmap, length_bt_entries.
Qed.

Lemma size_difference_new (T V V' : gset N) (new : list N) :
  NoDup new → (∀ v, v ∈ new → v ∉ V ∧ v ∈ T) → (∀ v, v ∈ V' ↔ v ∈ V ∨ v ∈ new) →
  (size (T ∖ V') + length new = size (T ∖ V))%nat.
Proof.
  intros Hnd Hnew HV'. rewrite <- (size_list_to_set (C:=gset N) new) by done.
  rewrite <- size_union by set_solver.
  f_equal. apply set_eq. intros x.
  rewrite elem_of_union, !elem_of_difference, elem_of_list_to_set, HV'.
  destruct (decide (x ∈ new)) as [Hin|]; [|tauto]. destruct (Hnew x Hin). tauto.
Qed.

Lemma search_step_measure reg fam from to st st' :
  registry_ok reg → bfs_inv reg fam from to st → search_step reg fam to st = inl st' →
  (search_measure reg st' < search_measure reg st)%nat.
Proof.
  intros [Hids _] Hinv. unfold search_step.
  assert (∀ id m, migrations reg !! id = Some m → migration_id m = id) as Hid by (intros; by apply Hids).
  destruct (queue st) as [|[w path] rest] eqn:Hq; [done|].
  assert (names_walk reg fam from path w ∧ to ∉ visited st) as [Hw Hto].
  { destruct Hinv as (f & q1 & q2 & d & Hq' & Hto & _ & _ & H1 & H2 & _). split; [|done].
    rewrite Hq' in Hq. destruct q1 as [|x q1]; simpl in Hq; [subst q2|injection Hq as -> _].
    - by apply Forall_cons in H2 as [[? _] _].
    - by apply Forall_cons in H1 as [[? _] _]. }
  pose proof (visit_edges_spec reg fam from to w path (outgoing reg fam w)
                (MkSearch rest (visited st))) as Hspec.
  destruct (visit_edges _ _ _ _) as [st1|]; [|done]. intros [= <-].
  destruct Hspec as (new & Hq1 & _ & Hvis & _ & _ & Hnd & Hnew);
    [by intros m ?%elem_of_outgoing|done|done|]. simpl in Hq1, Hvis, Hnew.
  unfold search_measure. rewrite Hq1, Hq, length_app. simpl.
  rewrite <- (size_difference_new (targets reg) (visited st) (visited st1) new.*1); [|done| |done].
  - rewrite length_fmap. lia.
  - intros v Hv. apply Hnew in Hv as (? & m & Hm & ->). split; [done|].
    apply elem_of_outgoing in Hm as [[Hm _] _]; [|done].
    apply elem_of_list_to_set, list_elem_of_fmap. exists m. split; [done|].
    apply elem_of_bt_values. eauto.
Qed.

Lemma search_terminates reg fam from to :
  registry_ok reg → from ≠ to →
  ∃ r, loop_nat (search_fuel reg) (search_step reg fam to) (MkSearch [(from, [])] {[from]}) = inr r.
Proof.
  intros Hok Hne.
  assert (∀ id m, migrations reg !! id = Some m → migration_id m = id) as Hid by (intros; by apply Hok).
  apply (loop_nat_terminates _ (bfs_inv reg fam from to) (search_measure reg)).
  - intros st st' Hst Hstep. split.
    + pose proof (search_step_inv reg fam from to Hid st Hst) as Hs. by rewrite Hstep in Hs.
    + by eapply search_step_measure.
  - by apply bfs_start.
  - unfold search_measure, search_fuel. simpl. pose proof (size_targets reg).
    assert (size (targets reg ∖ {[from]}) ≤ size (targets reg))%nat by (apply subseteq_size; set_solver).
    lia.
Qed.

Lemma search_correct reg fam from to :
  registry_ok reg → from ≠ to → bfs_result reg fam from to (search reg fam from to).
Proof.
  intros Hok Hne. unfold search. destruct (search_terminates reg fam from to Hok Hne) as [r Hr].
  assert (∀ id m, migrations reg !! id = Some m → migration_id m = id) as Hid by (intros; by apply Hok).
  rewrite Hr. eapply loop_nat_invariant; [|by apply bfs_start|exact Hr].
  intros st Hst. by apply search_step_inv.
Qed.

Lemma omap_ids reg fam from ms to :
  walk reg fam from ms to → omap (λ id, migrations reg !! id) (migration_id <$> ms) = ms.
Proof.
  revert from; induction ms as [|m ms IH]; intros from; simpl; [done|].
  intros ([Hm _] & _ & Hw). rewrite Hm. f_equal. by eapply IH.
Qed.

Lemma max_estimate_Ok acc n ms r :
  try_fold (λ acc step, let? e := estimate (required_free_space step) n in Ok (N.max acc e)) acc ms
    = Ok r →
  (acc ≤ r)%N ∧ Forall (λ m, ∃ e, estimate (required_free_space m) n = Ok e ∧ (e ≤ r)%N) ms.
Proof.
  revert acc; induction ms as [|m ms IH]; intros acc; simpl; [intros [= <-]; split; [lia|constructor]|].
  destruct (estimate _ n) as [e|] eqn:He; simpl; [|done]. intros [Hle Hms]%IH.
  split; [lia|]. constructor; [|done]. exists e. split; [done|lia].
Qed.

Lemma estimate_Err q n err :
  estimate q n = Err err → err = InvalidFreeSpaceRequirement ∨ err = FreeSpaceEstimateOverflow.
Proof.
  unfold estimate. destruct (_ =? 0)%N; [intros [= <-]; auto|].
  destruct (checked_mul _ _ _); simpl; [|intros [= <-]; auto].
  destruct (checked_add U128_MAX _ (_ - 1)); simpl; [|intros [= <-]; auto].
  destruct (checked_add U128_MAX _ _); simpl; [|intros [= <-]; auto].
  destruct (try_from_max _ _); simpl; [done|intros [= <-]; auto].
Qed.

Lemma max_estimate_Err acc n ms err :
  try_fold (λ acc step, let? e := estimate (required_free_space step) n in Ok (N.max acc e)) acc ms
    = Err err →
  err = InvalidFreeSpaceRequirement ∨ err = FreeSpaceEstimateOverflow.
Proof.
  revert acc; induction ms as [|m ms IH]; intros acc; simpl; [done|].
  destruct (estimate _ n) as [e|] eqn:He; simpl; [apply IH|].
  intros [= <-]. by eapply estimate_Err.
Qed.

(** ** Properties *)

(** The registrations a host makes, in order; a refused one leaves what its code
    leaves. *)
Inductive Registration :=
  | Reader (fam : string) (c : ReaderCapability)
  | Migration (m : MigrationDescriptor).

Definition registry_of (ops : list Registration) : FormatRegistry :=
  foldl (λ reg op,
    match op with
    | Reader fam c => (register_reader reg fam c).1
    | Migration m => (register_migration reg m).1
    end) FormatRegistry_new ops.

Lemma registry_of_ok ops : registry_ok (registry_of ops).
Proof.
  unfold registry_of. generalize registry_ok_new. generalize FormatRegistry_new.
  induction ops as [|[fam c|m] ops IH]; intros reg Hok; simpl; [done|..]; apply IH.
  - by apply register_reader_ok.
  - by apply register_migration_ok.
Qed.

(** C39: the planner is correct and optimal on every registry a host can build.
    A plan is a chain of registered edges of the family from the source to the
    target, no registered chain is shorter, its space requirement covers every
    step and fits the free space, and it is marked reversible exactly when every
    step is; a missing path is reported only when no chain of any length exists. *)
Theorem plan_migration_correct ops fam from to source free :
  let reg := registry_of ops in
  match plan_migration reg fam from to source free with
  | Ok plan =>
      walk reg fam from (steps plan) to ∧
      (∀ ms, walk reg fam from ms to → (length (steps plan) ≤ length ms)%nat) ∧
      Forall (λ m, ∃ e, estimate (required_free_space m) source = Ok e ∧
                        (e ≤ required_free_space_bytes plan)%N) (steps plan) ∧
      (required_free_space_bytes plan ≤ free)%N ∧
      (rollback_supported plan = true ↔
         Forall (λ m, rollback_policy m ≠ UnsupportedRollback) (steps plan))
  | Err (MigrationPathUnavailable _ _ _) => ∀ ms, ¬ walk reg fam from ms to
  | Err (InsufficientMigrationSpace required available) => available = free ∧ (free < required)%N
  | Err _ => True
  end.
Proof.
  intros reg. pose proof (registry_of_ok ops) as Hok. fold reg in Hok. unfold plan_migration.
  destruct (validate_identifier "format family" fam) as [[]|err] eqn:Hv; simpl.
  2:{ unfold validate_identifier in Hv. destruct (str_bytes fam); [by injection Hv as <-|].
      destruct (_ || _); [by injection Hv as <-|done]. }
  destruct (N.eqb_spec from to) as [->|Hne].
  { simpl. split_and!; [done|intros; lia|constructor|lia|by split]. }
  pose proof (search_correct reg fam from to Hok Hne) as Hs.
  destruct (search reg fam from to) as [p|]; simpl; [|exact Hs].
  destruct Hs as [(ms & -> & Hw) Hmin]. rewrite (omap_ids reg fam from ms to Hw).
  destruct (try_fold _ _ _) as [required|err] eqn:Hf; simpl.
  - apply max_estimate_Ok in Hf as [_ Hf].
    destruct (N.ltb_spec free required); simpl; [done|].
    split_and!; [done| |done|done|].
    + intros ms' Hms'%Hmin. by rewrite length_fmap in Hms'.
    + rewrite forallb_forall, Forall_forall. setoid_rewrite list_elem_of_In.
      split; intros Hall x Hx; specialize (Hall x Hx); by apply bool_decide_eq_true in Hall || apply bool_decide_eq_true.
  - apply max_estimate_Err in Hf as [-> | ->]; done.
Qed.

(** the free-space estimate is exact.  With operands of their declared
    widths the 128-bit arithmetic never overflows; the estimate is the fixed
    allowance plus the scaled source size rounded up, and it is refused only when
    the denominator is zero or that value does not fit 64 bits. *)
Theorem estimate_exact q n :
  (n ≤ U64_MAX)%N → (fixed_bytes q ≤ U64_MAX)%N → (source_multiplier_numerator q ≤ U32_MAX)%N →
  (source_multiplier_denominator q ≤ U32_MAX)%N →
  match estimate q n with
  | Ok r =>
      (fixed_bytes q ≤ r ≤ U64_MAX)%N ∧
      (n * source_multiplier_numerator q
         ≤ (r - fixed_bytes q) * source_multiplier_denominator q
         < n * source_multiplier_numerator q + source_multiplier_denominator q)%N
  | Err InvalidFreeSpaceRequirement => source_multiplier_denominator q = 0%N
  | Err e =>
      e = FreeSpaceEstimateOverflow ∧
      (U64_MAX * source_multiplier_denominator q
         < n * source_multiplier_numerator q + fixed_bytes q * source_multiplier_denominator q
           + source_multiplier_denominator q)%N
  end.
Proof.
  destruct q as [fixed num den]. simpl. intros Hn Hfix Hnum Hden. unfold estimate. simpl.
  destruct (N.eqb_spec den 0) as [|Hd]; [done|].
  assert (n * num ≤ U64_MAX * U32_MAX)%N as Hprod by (by apply N.mul_le_mono).
  assert (U64_MAX * U32_MAX + U64_MAX + U64_MAX ≤ U128_MAX)%N as Hbig by (by vm_compute).
  assert (U32_MAX ≤ U64_MAX)%N as H32 by (by vm_compute).
  rewrite (proj2 (checked_mul_Some _ _ _ (n * num)%N)) by lia. simpl.
  rewrite (proj2 (checked_add_Some _ _ _ (n * num + (den - 1))%N)) by lia. simpl.
  pose proof (ceil_div_bounds (n * num) den ltac:(lia)) as Hc.
  set (c := ((n * num + (den - 1)) / den)%N) in *.
  assert (c ≤ n * num + (den - 1))%N as Hcle by (apply N.Div0.div_le_upper_bound; nia).
  rewrite (proj2 (checked_add_Some _ _ _ (c + fixed)%N)) by lia. simpl.
  unfold try_from_max. destruct (N.leb_spec (c + fixed) U64_MAX); simpl.
  - replace (c + fixed - fixed)%N with c by lia. lia.
  - split; [done|]. clearbody c. clear Hprod Hbig H32 Hcle. nia.
Qed.

Lemma estimate_exact_witness :
  match estimate (MkFreeSpaceRequirement 10 3 2) 5 with
  | Ok r => (10 ≤ r ≤ U64_MAX)%N ∧ (15 ≤ (r - 10) * 2 < 17)%N
  | Err InvalidFreeSpaceRequirement => 2%N = 0%N
  | Err e => e = FreeSpaceEstimateOverflow ∧ (U64_MAX * 2 < 15 + 20 + 2)%N
  end.
Proof. apply (estimate_exact (MkFreeSpaceRequirement 10 3 2) 5); by vm_compute. Defined.

(** registering a second reader for a family reports the duplicate, and the
    registry nevertheless holds the second capability afterwards. *)
Theorem register_reader_duplicate reg fam old new :
  validate_identifier "format family" fam = Ok tt → ReaderCapability_validate new = Ok tt →
  readers reg !! fam = Some old →
  let '(reg', r) := register_reader reg fam new in
  r = Err (DuplicateReader fam) ∧ readers reg' !! fam = Some new.
Proof.
  intros Hv Hc Hold. unfold register_reader. rewrite Hv. simpl. rewrite Hc, Hold. simpl.
  split; [done|]. apply lookup_insert_eq.
Qed.

Lemma register_reader_duplicate_witness :
  let reg := (register_reader FormatRegistry_new "storage" (MkReaderCapability 1 1 ∅)).1 in
  let '(reg', r) := register_reader reg "storage" (MkReaderCapability 1 9 ∅) in
  r = Err (DuplicateReader "storage") ∧
  readers reg' !! "storage" = Some (MkReaderCapability 1 9 ∅).
Proof.
  apply (register_reader_duplicate
           (register_reader FormatRegistry_new "storage" (MkReaderCapability 1 1 ∅)).1 "storage"
           (MkReaderCapability 1 1 ∅) (MkReaderCapability 1 9 ∅)); vm_compute; reflexivity.
Defined.
