(* ===== verification/CoreBase.v ===== *)
(** * Identifiers, collections and time (crate contextdb-core)

    [error.rs], [id.rs], [collections.rs] and [time.rs].  A stable identifier is a
    128-bit UUID that is not nil; the macro's forty-four identifier types are one
    type indexed by the type's name.  Fresh UUIDv7 values come from the clock and
    are arguments of the operations that need them. *)

From stdpp Require Import pretty.
From S2P Require Import Prelude.
From S2P Require Import Ordering.
From S2P Require Import Bytes.

(** ** Errors *)

Inductive ValidationError :=
  | NilIdentifier (kind : string)
  | InvalidStableIdentifier (kind : string)
  | EmptyCollection (field : string)
  | BlankText (field : string)
  | InvalidTimeRange (start end_ : Z)
  | InvalidCommitRange (start end_ : N)
  | InvalidRevisionSequence
  | OverlappingTransactionIntervals
  | DuplicateIdentifier (field : string)
  | MissingEvidence (basis : string)
  | InvalidAssertionDerivation
  | PolicyWeakening (reason : string)
  | CardinalityConflictWithoutConflictSet
  | PredicateTypeMismatch
  | LineageCycle
  | SelfSupportingLineage
  | HierarchyCycle
  | InvalidNumber (field : string)
  | InvalidEvidenceSelector (reason : string)
  | MissingObservationContent
  | InvalidConflictSet
  | InvalidCandidatePayload
  | InvalidState (reason : string).

(** The [Display] text of a validation error. *)
Definition ValidationError_to_string (e : ValidationError) : string :=
  match e with
  | NilIdentifier kind => kind +:+ " must not be the nil identifier"
  | InvalidStableIdentifier kind => kind +:+ " is not a valid stable identifier"
  | EmptyCollection field => field +:+ " must not be empty"
  | BlankText field => field +:+ " must not be blank"
  | InvalidTimeRange start end_ =>
      "invalid time range: start " +:+ pretty start +:+ " must be before end " +:+ pretty end_
  | InvalidCommitRange start end_ =>
      "invalid commit range: start " +:+ pretty start +:+ " must be before end " +:+ pretty end_
  | InvalidRevisionSequence => "revision numbers must start at one and be contiguous"
  | OverlappingTransactionIntervals => "transaction-time intervals overlap in a revision chain"
  | DuplicateIdentifier field => field +:+ " contains a duplicate identifier"
  | MissingEvidence basis => "semantic memory requires evidence for epistemic basis " +:+ basis
  | InvalidAssertionDerivation => "actor assertion basis requires an actor-assertion derivation"
  | PolicyWeakening reason => "derived policy is more permissive than its source: " +:+ reason
  | CardinalityConflictWithoutConflictSet =>
      "single-valued predicate has simultaneous accepted values without one conflict set"
  | PredicateTypeMismatch => "predicate domain or range is incompatible with the claim"
  | LineageCycle => "lineage contains a cycle"
  | SelfSupportingLineage => "an item cannot support itself through its own lineage"
  | HierarchyCycle => "a hierarchy view cannot contain a cycle"
  | InvalidNumber field => "numeric value " +:+ field +:+ " must be finite and within the documented range"
  | InvalidEvidenceSelector reason => "invalid evidence selector: " +:+ reason
  | MissingObservationContent => "observation must reference at least one content block or artifact"
  | InvalidConflictSet => "conflict set must contain at least two distinct claims"
  | InvalidCandidatePayload => "candidate payload must be a structured JSON object"
  | InvalidState reason => "invalid state transition: " +:+ reason
  end.

Abbreviation ValidationResult := (result ValidationError unit).

Definition validate_non_blank (value field : string) : ValidationResult :=
  if trim_is_empty value then Err (BlankText field) else Ok tt.

(** The [Validate] trait; [validated] is its provided method. *)
Class Validate (A : Type) := validate : A → ValidationResult.

Definition validated `{Validate A} (a : A) : result ValidationError A :=
  try? validate a in Ok a.

(** ** Stable identifiers *)

Record Uuid := MkUuid {
  uuid_value : N;
  uuid_width : (uuid_value <? 2 ^ 128)%N = true;
}.

Definition is_nil (u : Uuid) : bool := (uuid_value u =? 0)%N.
Definition as_bytes (u : Uuid) : bytes := to_be_bytes 16 (uuid_value u).

Record StableId (kind : string) := MkStableId {
  as_uuid : Uuid;
  not_nil : is_nil as_uuid = false;
}.
Arguments MkStableId {kind} _ _.
Arguments as_uuid {kind} _.
Arguments not_nil {kind} _.

Definition from_uuid (kind : string) (u : Uuid) : result ValidationError (StableId kind) :=
  match is_nil u as b return is_nil u = b → result ValidationError (StableId kind) with
  | true => λ _, Err (NilIdentifier kind)
  | false => λ H, Ok (MkStableId u H)
  end eq_refl.

Abbreviation WorkspaceId := (StableId "WorkspaceId").
Abbreviation MemorySpaceId := (StableId "MemorySpaceId").
Abbreviation MemorySubjectId := (StableId "MemorySubjectId").
Abbreviation AgentId := (StableId "AgentId").
Abbreviation ActorId := (StableId "ActorId").
Abbreviation SourceId := (StableId "SourceId").
Abbreviation StreamId := (StableId "StreamId").
Abbreviation ObservationId := (StableId "ObservationId").
Abbreviation EpisodeViewId := (StableId "EpisodeViewId").
Abbreviation ArtifactId := (StableId "ArtifactId").
Abbreviation ContentBlockId := (StableId "ContentBlockId").
Abbreviation EvidenceId := (StableId "EvidenceId").
Abbreviation NodeId := (StableId "NodeId").
Abbreviation NodeRevisionId := (StableId "NodeRevisionId").
Abbreviation AliasId := (StableId "AliasId").
Abbreviation PredicateId := (StableId "PredicateId").
Abbreviation ClaimId := (StableId "ClaimId").
Abbreviation EdgeId := (StableId "EdgeId").
Abbreviation EdgeTypeId := (StableId "EdgeTypeId").
Abbreviation ConflictSetId := (StableId "ConflictSetId").
Abbreviation CandidateId := (StableId "CandidateId").
Abbreviation ProcedureId := (StableId "ProcedureId").
Abbreviation RelationshipStateId := (StableId "RelationshipStateId").
Abbreviation SelfModelId := (StableId "SelfModelId").
Abbreviation ContinuityProfileId := (StableId "ContinuityProfileId").
Abbreviation SessionId := (StableId "SessionId").
Abbreviation AgentRunId := (StableId "AgentRunId").
Abbreviation TaskId := (StableId "TaskId").
Abbreviation CheckpointId := (StableId "CheckpointId").
Abbreviation RecallRunId := (StableId "RecallRunId").
Abbreviation ContextPackId := (StableId "ContextPackId").
Abbreviation ModelCallId := (StableId "ModelCallId").
Abbreviation ToolCallId := (StableId "ToolCallId").
Abbreviation DerivationId := (StableId "DerivationId").
Abbreviation SummaryId := (StableId "SummaryId").
Abbreviation ScopeId := (StableId "ScopeId").
Abbreviation PolicyId := (StableId "PolicyId").
Abbreviation VectorSpaceId := (StableId "VectorSpaceId").
Abbreviation RepresentationId := (StableId "RepresentationId").
Abbreviation DeletionJobId := (StableId "DeletionJobId").
Abbreviation MutationId := (StableId "MutationId").
Abbreviation PublicationId := (StableId "PublicationId").
Abbreviation HierarchyViewId := (StableId "HierarchyViewId").
Abbreviation ModelProfileId := (StableId "ModelProfileId").

Lemma Uuid_inj u1 u2 : uuid_value u1 = uuid_value u2 → u1 = u2.
Proof. destruct u1 as [v1 w1], u2 as [v2 w2]; simpl. intros ->. f_equal. apply (proof_irrel w1 w2). Qed.

Definition id_value {kind} (i : StableId kind) : N := uuid_value (as_uuid i).

#[export] Instance id_value_inj kind : Inj (=) (=) (@id_value kind).
Proof.
  intros [u1 n1] [u2 n2] H. unfold id_value in H; simpl in H. apply Uuid_inj in H as ->.
  f_equal. apply (proof_irrel n1 n2).
Qed.

#[export] Instance StableId_eq_dec kind : EqDecision (StableId kind).
Proof.
  refine (λ i j, cast_if (decide (id_value i = id_value j))).
  - by apply (inj id_value).
  - by intros ->.
Defined.

(** The identifier with a given number, when it is in range and not nil. *)
Definition id_of (kind : string) (n : N) : option (StableId kind) :=
  match (n <? 2 ^ 128)%N as b return (n <? 2 ^ 128)%N = b → option (StableId kind) with
  | true => λ H, match from_uuid kind (MkUuid n H) with Ok i => Some i | Err _ => None end
  | false => λ _, None
  end eq_refl.

Lemma from_uuid_Ok kind u i : from_uuid kind u = Ok i ↔ as_uuid i = u.
Proof.
  unfold from_uuid. generalize (eq_refl (is_nil u)).
  generalize (is_nil u) at 2 3. intros [] H; split.
  - done.
  - intros <-. by rewrite not_nil in H.
  - by intros [= <-].
  - intros Hu. f_equal. apply (inj id_value). unfold id_value. simpl. by rewrite Hu.
Qed.

Lemma from_uuid_nil kind u : from_uuid kind u = Err (NilIdentifier kind) ↔ is_nil u = true.
Proof.
  unfold from_uuid. generalize (eq_refl (is_nil u)).
  generalize (is_nil u) at 2 3. intros [] H; split; try done. intros Ht. congruence.
Qed.

Lemma id_of_value kind (i : StableId kind) : id_of kind (id_value i) = Some i.
Proof.
  unfold id_of. generalize (eq_refl (id_value i <? 2 ^ 128)%N).
  generalize (id_value i <? 2 ^ 128)%N at 2 3. intros [] H.
  - destruct (from_uuid kind _) as [j|] eqn:Hj.
    + apply from_uuid_Ok in Hj. f_equal. apply (inj id_value). unfold id_value at 1. by rewrite Hj.
    + exfalso. assert (from_uuid kind (MkUuid (id_value i) H) = Ok i) as He.
      { apply from_uuid_Ok. by apply Uuid_inj. }
      congruence.
  - exfalso. unfold id_value in H. by rewrite (uuid_width (as_uuid i)) in H.
Qed.

#[export] Instance StableId_countable kind : Countable (StableId kind).
Proof. apply (inj_countable id_value (id_of kind)), id_of_value. Defined.

(** [Ord] of a UUID compares its bytes from the most significant one. *)
#[export] Instance StableId_Ordered kind : Ordered (StableId kind) := Ordered_inj id_value.

Lemma as_bytes_inj kind (i j : StableId kind) : as_bytes (as_uuid i) = as_bytes (as_uuid j) → i = j.
Proof.
  intros H. apply to_be_bytes_inj in H; [by apply (inj id_value)|..];
    apply N.ltb_lt, uuid_width.
Qed.

(** The smallest identifier of a kind, for concrete examples. *)
Definition sample_id (kind : string) : StableId kind := MkStableId (MkUuid 1 eq_refl) eq_refl.

(** ** Commit sequences *)

Abbreviation CommitSeq := N.
Definition GENESIS : CommitSeq := 0.
Definition checked_next (s : CommitSeq) : option CommitSeq := checked_add U64_MAX s 1.

Record SnapshotRef := MkSnapshotRef { snapshot_commit_seq : CommitSeq }.

(** ** Non-empty vectors *)

Record NonEmptyVec (A : Type) := MkNonEmptyVec { ne_first : A; ne_rest : list A }.
Arguments MkNonEmptyVec {A} _ _.
Arguments ne_first {A} _.
Arguments ne_rest {A} _.

Definition into_vec {A} (v : NonEmptyVec A) : list A := ne_first v :: ne_rest v.

Definition NonEmptyVec_new {A} (first : A) : NonEmptyVec A := MkNonEmptyVec first [].

Definition try_from_vec {A} (values : list A) (field : string)
    : result ValidationError (NonEmptyVec A) :=
  match values with
  | [] => Err (EmptyCollection field)
  | x :: rest => Ok (MkNonEmptyVec x rest)
  end.

Definition ne_push {A} (v : NonEmptyVec A) (x : A) : NonEmptyVec A :=
  MkNonEmptyVec (ne_first v) (ne_rest v ++ [x]).

#[export] Instance NonEmptyVec_eq_dec `{EqDecision A} : EqDecision (NonEmptyVec A).
Proof. solve_decision. Defined.

(** [ensure_distinct]: the first value seen twice is an error. *)
Fixpoint ensure_distinct_from `{Countable A} (seen : gset A) (values : list A) (field : string)
    : ValidationResult :=
  match values with
  | [] => Ok tt
  | v :: rest =>
      if bool_decide (v ∈ seen) then Err (DuplicateIdentifier field)
      else ensure_distinct_from ({[v]} ∪ seen) rest field
  end.
Definition ensure_distinct `{Countable A} (values : list A) (field : string) : ValidationResult :=
  ensure_distinct_from ∅ values field.

(** ** Time *)

(** Microseconds since the epoch: an [i64]. *)
Abbreviation TimestampMicros := Z.

Record TimeRange := MkTimeRange { time_start : TimestampMicros; time_end : option TimestampMicros }.

(** [Option::is_none_or]. *)
Definition is_none_or {A} (o : option A) (f : A → bool) : bool :=
  match o with
  | None => true
  | Some a => f a
  end.

Definition TimeRange_validate (r : TimeRange) : ValidationResult :=
  match time_end r with
  | Some e => if (e <=? time_start r)%Z then Err (InvalidTimeRange (time_start r) e) else Ok tt
  | None => Ok tt
  end.
#[export] Instance TimeRange_Validate : Validate TimeRange := TimeRange_validate.

Definition TimeRange_new (start : TimestampMicros) (end_ : option TimestampMicros)
    : result ValidationError TimeRange :=
  let interval := MkTimeRange start end_ in
  try? TimeRange_validate interval in Ok interval.

Definition open_ended (start : TimestampMicros) : TimeRange := MkTimeRange start None.

Definition TimeRange_overlaps (a b : TimeRange) : bool :=
  let self_before_other_end := is_none_or (time_end b) (λ e, time_start a <? e)%Z in
  let other_before_self_end := is_none_or (time_end a) (λ e, time_start b <? e)%Z in
  self_before_other_end && other_before_self_end.

Definition TimeRange_contains (r : TimeRange) (instant : TimestampMicros) : bool :=
  (time_start r <=? instant)%Z && is_none_or (time_end r) (λ e, instant <? e)%Z.

Record CommitRange := MkCommitRange { commit_start : CommitSeq; commit_end : option CommitSeq }.

Definition CommitRange_validate (r : CommitRange) : ValidationResult :=
  match commit_end r with
  | Some e => if (e <=? commit_start r)%N then Err (InvalidCommitRange (commit_start r) e) else Ok tt
  | None => Ok tt
  end.
#[export] Instance CommitRange_Validate : Validate CommitRange := CommitRange_validate.

Definition CommitRange_new (start : CommitSeq) (end_ : option CommitSeq)
    : result ValidationError CommitRange :=
  let interval := MkCommitRange start end_ in
  try? CommitRange_validate interval in Ok interval.

Definition CommitRange_current (start : CommitSeq) : CommitRange := MkCommitRange start None.

Definition CommitRange_overlaps (a b : CommitRange) : bool :=
  let self_before_other_end := is_none_or (commit_end b) (λ e, commit_start a <? e)%N in
  let other_before_self_end := is_none_or (commit_end a) (λ e, commit_start b <? e)%N in
  self_before_other_end && other_before_self_end.

Definition CommitRange_contains (r : CommitRange) (commit : CommitSeq) : bool :=
  (commit_start r <=? commit)%N && is_none_or (commit_end r) (λ e, commit <? e)%N.

Record BitemporalRange := MkBitemporalRange {
  valid_time : TimeRange;
  transaction_time : CommitRange;
}.

Definition BitemporalRange_validate (r : BitemporalRange) : ValidationResult :=
  try? TimeRange_validate (valid_time r) in
  CommitRange_validate (transaction_time r).
#[export] Instance BitemporalRange_Validate : Validate BitemporalRange := BitemporalRange_validate.

#[export] Instance TimeRange_eq_dec : EqDecision TimeRange.
Proof. solve_decision. Defined.
#[export] Instance CommitRange_eq_dec : EqDecision CommitRange.
Proof. solve_decision. Defined.
#[export] Instance BitemporalRange_eq_dec : EqDecision BitemporalRange.
Proof. solve_decision. Defined.
#[export] Instance SnapshotRef_eq_dec : EqDecision SnapshotRef.
Proof. solve_decision. Defined.

(** ** Lemmas *)

Lemma ensure_distinct_from_Ok `{Countable A} (seen : gset A) values field :
  ensure_distinct_from seen values field = Ok tt ↔
  NoDup values ∧ ∀ v, v ∈ values → v ∉ seen.
Proof.
  revert seen; induction values as [|v values IH]; intros seen; simpl.
  - split; [split; [constructor|by intros ? ?%elem_of_nil]|done].
  - case_bool_decide as Hv.
    + split; [done|]. intros [_ Hno]. destruct (Hno v); [by left|done].
    + rewrite IH, NoDup_cons. split.
      * intros [Hnd Hno]. split_and!; [|done|].
        -- intros Hin. apply (Hno v Hin). set_solver.
        -- intros w [->|Hw]%elem_of_cons; [done|]. intros Hs. apply (Hno w Hw). set_solver.
      * intros [[Hnin Hnd] Hno]. split; [done|]. intros w Hw. pose proof (Hno w ltac:(by right)).
        set_solver.
Qed.

Lemma ensure_distinct_Ok `{Countable A} (values : list A) field :
  ensure_distinct values field = Ok tt ↔ NoDup values.
Proof. unfold ensure_distinct. rewrite ensure_distinct_from_Ok. set_solver. Qed.

Lemma TimeRange_validate_Ok r :
  TimeRange_validate r = Ok tt ↔ ∀ e, time_end r = Some e → (time_start r < e)%Z.
Proof.
  unfold TimeRange_validate. destruct (time_end r) as [e|]; [|done].
  destruct (Z.leb_spec e (time_start r)); split; try done.
  - intros Hall. specialize (Hall e eq_refl). lia.
  - by intros _ e' [= <-].
Qed.

Lemma CommitRange_validate_Ok r :
  CommitRange_validate r = Ok tt ↔ ∀ e, commit_end r = Some e → (commit_start r < e)%N.
Proof.
  unfold CommitRange_validate. destruct (commit_end r) as [e|]; [|done].
  destruct (N.leb_spec e (commit_start r)); split; try done.
  - intros Hall. specialize (Hall e eq_refl). lia.
  - by intros _ e' [= <-].
Qed.

Lemma TimeRange_contains_true r t :
  TimeRange_contains r t = true ↔
  (time_start r ≤ t)%Z ∧ ∀ e, time_end r = Some e → (t < e)%Z.
Proof.
  unfold TimeRange_contains. rewrite andb_true_iff, Z.leb_le.
  destruct (time_end r) as [e|]; simpl; [rewrite Z.ltb_lt|]; naive_solver.
Qed.

Lemma CommitRange_contains_true r t :
  CommitRange_contains r t = true ↔
  (commit_start r ≤ t)%N ∧ ∀ e, commit_end r = Some e → (t < e)%N.
Proof.
  unfold CommitRange_contains. rewrite andb_true_iff, N.leb_le.
  destruct (commit_end r) as [e|]; simpl; [rewrite N.ltb_lt|]; naive_solver.
Qed.

(** ** Properties *)

(** on validated intervals, valid time and transaction time alike, the
    overlap test holds exactly when some instant lies in both intervals. *)
Theorem ranges_overlap_iff_common_instant :
  (∀ a b, TimeRange_validate a = Ok tt → TimeRange_validate b = Ok tt →
     TimeRange_overlaps a b = true ↔
     ∃ t, TimeRange_contains a t = true ∧ TimeRange_contains b t = true) ∧
  (∀ a b, CommitRange_validate a = Ok tt → CommitRange_validate b = Ok tt →
     CommitRange_overlaps a b = true ↔
     ∃ t, CommitRange_contains a t = true ∧ CommitRange_contains b t = true).
Proof.
  split; intros [sa ea] [sb eb].
  - rewrite !TimeRange_validate_Ok. simpl. intros Ha Hb. unfold TimeRange_overlaps. simpl.
    setoid_rewrite TimeRange_contains_true. simpl. rewrite andb_true_iff. split.
    + intros [H1 H2]. exists (Z.max sa sb).
      destruct ea as [ea|], eb as [eb|]; simpl in *; bool_simpl; rewrite ?Z.ltb_lt in *;
        split_and!; try lia; intros e [= <-]; naive_solver lia.
    + intros (t & [? Hea] & [? Heb]).
      destruct ea as [ea|], eb as [eb|]; simpl; rewrite ?Z.ltb_lt;
        try specialize (Hea _ eq_refl); try specialize (Heb _ eq_refl); split; done || lia.
  - rewrite !CommitRange_validate_Ok. simpl. intros Ha Hb. unfold CommitRange_overlaps. simpl.
    setoid_rewrite CommitRange_contains_true. simpl. rewrite andb_true_iff. split.
    + intros [H1 H2]. exists (N.max sa sb).
      destruct ea as [ea|], eb as [eb|]; simpl in *; rewrite ?N.ltb_lt in *;
        split_and!; try lia; intros e [= <-]; naive_solver lia.
    + intros (t & [? Hea] & [? Heb]).
      destruct ea as [ea|], eb as [eb|]; simpl; rewrite ?N.ltb_lt;
        try specialize (Hea _ eq_refl); try specialize (Heb _ eq_refl); split; done || lia.
Qed.
