(* ===== verification/Provenance.v ===== *)
(** * Provenance and lineage (crate contextdb-core, provenance.rs)

    Revision numbers, lineage nodes, derivations, and the lineage graph whose
    depth-first validation rejects support cycles. *)

From S2P Require Import Prelude.
From S2P Require Import Ordering.
From S2P Require Import Bytes.
From S2P Require Import CoreBase.

(** A [RevisionNumber] is its [u32]; the constructor rejects zero. *)
Abbreviation RevisionNumber := N.
Definition RevisionNumber_FIRST : RevisionNumber := 1.
Definition RevisionNumber_new (value : N) : result ValidationError RevisionNumber :=
  if (value =? 0)%N then Err InvalidRevisionSequence else Ok value.
Definition RevisionNumber_checked_next (r : RevisionNumber) : option RevisionNumber :=
  checked_add U32_MAX r 1.

Record PipelineIdentity := MkPipelineIdentity {
  pipeline_name : string;
  pipeline_version : string;
  pipeline_schema_version : string;
}.

Definition PipelineIdentity_validate (p : PipelineIdentity) : ValidationResult :=
  try? validate_non_blank (pipeline_name p) "pipeline.name" in
  try? validate_non_blank (pipeline_version p) "pipeline.version" in
  validate_non_blank (pipeline_schema_version p) "pipeline.schema_version".

Inductive DerivationKind :=
  | ActorAssertion
  | DeterministicProjector
  | ModelExtraction
  | Consolidation
  | HumanAdjudication
  | Migration
  | Import.

Inductive LineageNode :=
  | LineageObservation (id : ObservationId)
  | LineageEpisodeView (id : EpisodeViewId) (revision : RevisionNumber)
  | LineageArtifact (id : ArtifactId)
  | LineageEvidence (id : EvidenceId)
  | LineageNodeRevision (id : NodeId) (revision : RevisionNumber)
  | LineageClaimRevision (id : ClaimId) (revision : RevisionNumber)
  | LineageEdgeRevision (id : EdgeId) (revision : RevisionNumber)
  | LineageConflictRevision (id : ConflictSetId) (revision : RevisionNumber)
  | LineageContinuityProfile (id : ContinuityProfileId) (revision : RevisionNumber)
  | LineageCandidate (id : CandidateId)
  | LineageSummary (id : SummaryId)
  | LineageContextPack (id : ContextPackId)
  | LineageExternal (namespace identifier : string).

Definition LineageNode_validate (n : LineageNode) : ValidationResult :=
  match n with
  | LineageExternal namespace identifier =>
      try? validate_non_blank namespace "lineage.namespace" in
      validate_non_blank identifier "lineage.identifier"
  | _ => Ok tt
  end.

(** The derived [Ord]: the variant's position, then its fields in order. *)
Definition lineage_key (n : LineageNode) : N * ((N * N) * (string * string)) :=
  match n with
  | LineageObservation id => (0, ((id_value id, 0), ("", "")))
  | LineageEpisodeView id r => (1, ((id_value id, r), ("", "")))
  | LineageArtifact id => (2, ((id_value id, 0), ("", "")))
  | LineageEvidence id => (3, ((id_value id, 0), ("", "")))
  | LineageNodeRevision id r => (4, ((id_value id, r), ("", "")))
  | LineageClaimRevision id r => (5, ((id_value id, r), ("", "")))
  | LineageEdgeRevision id r => (6, ((id_value id, r), ("", "")))
  | LineageConflictRevision id r => (7, ((id_value id, r), ("", "")))
  | LineageContinuityProfile id r => (8, ((id_value id, r), ("", "")))
  | LineageCandidate id => (9, ((id_value id, 0), ("", "")))
  | LineageSummary id => (10, ((id_value id, 0), ("", "")))
  | LineageContextPack id => (11, ((id_value id, 0), ("", "")))
  | LineageExternal namespace identifier => (12, ((0, 0), (namespace, identifier)))
  end%N.

#[export] Instance lineage_key_inj : Inj (=) (=) lineage_key.
Proof.
  intros [] []; simpl; intros [=]; simplify_eq; try done; f_equal; by apply (inj id_value).
Qed.

#[export] Instance LineageNode_eq_dec : EqDecision LineageNode.
Proof.
  refine (λ a b, cast_if (decide (lineage_key a = lineage_key b))).
  - by apply (inj lineage_key).
  - by intros ->.
Defined.

Definition lineage_of_key (k : N * ((N * N) * (string * string))) : option LineageNode :=
  let '(tag, ((i, r), (namespace, identifier))) := k in
  match tag with
  | 0 => i ← id_of _ i; Some (LineageObservation i)
  | 1 => i ← id_of _ i; Some (LineageEpisodeView i r)
  | 2 => i ← id_of _ i; Some (LineageArtifact i)
  | 3 => i ← id_of _ i; Some (LineageEvidence i)
  | 4 => i ← id_of _ i; Some (LineageNodeRevision i r)
  | 5 => i ← id_of _ i; Some (LineageClaimRevision i r)
  | 6 => i ← id_of _ i; Some (LineageEdgeRevision i r)
  | 7 => i ← id_of _ i; Some (LineageConflictRevision i r)
  | 8 => i ← id_of _ i; Some (LineageContinuityProfile i r)
  | 9 => i ← id_of _ i; Some (LineageCandidate i)
  | 10 => i ← id_of _ i; Some (LineageSummary i)
  | 11 => i ← id_of _ i; Some (LineageContextPack i)
  | _ => Some (LineageExternal namespace identifier)
  end%N.

#[export] Instance LineageNode_countable : Countable LineageNode.
Proof.
  apply (inj_countable lineage_key lineage_of_key).
  intros []; simpl; rewrite ?id_of_value; done.
Defined.

#[export] Instance LineageNode_Ordered : Ordered LineageNode := Ordered_inj lineage_key.

#[export] Instance DerivationKind_eq_dec : EqDecision DerivationKind.
Proof. solve_decision. Defined.
#[export] Instance PipelineIdentity_eq_dec : EqDecision PipelineIdentity.
Proof. solve_decision. Defined.

Record DerivationRef := MkDerivationRef {
  derivation_id : DerivationId;
  derivation_kind : DerivationKind;
  derivation_actor : option ActorId;
  model_call : option ModelCallId;
  pipeline : PipelineIdentity;
  inputs : list LineageNode;
}.

Definition DerivationRef_validate (d : DerivationRef) : ValidationResult :=
  try? PipelineIdentity_validate (pipeline d) in
  try? for_each LineageNode_validate (inputs d) in
  if bool_decide (derivation_kind d = ActorAssertion) && negb (bool_decide (is_Some (derivation_actor d)))
  then Err InvalidAssertionDerivation
  else if bool_decide (derivation_kind d = ModelExtraction) && negb (bool_decide (is_Some (model_call d)))
  then Err (InvalidState "model extraction requires model_call")
  else Ok tt.

Definition DerivationRef_validate_for (d : DerivationRef) (target : LineageNode) : ValidationResult :=
  try? DerivationRef_validate d in
  if existsb (λ input, bool_decide (input = target)) (inputs d) then Err SelfSupportingLineage
  else Ok tt.

#[export] Instance DerivationRef_eq_dec : EqDecision DerivationRef.
Proof. solve_decision. Defined.

(** ** The lineage graph *)

Record LineageEdge := MkLineageEdge { derived : LineageNode; source : LineageNode }.
Record LineageGraph := MkLineageGraph { edges : list LineageEdge }.

Abbreviation Adjacency := (gmap LineageNode (list LineageNode)).

(** One iteration of the loop that checks the edges and fills the adjacency map. *)
Definition add_lineage_edge (adjacency : Adjacency) (e : LineageEdge)
    : result ValidationError Adjacency :=
  try? LineageNode_validate (derived e) in
  try? LineageNode_validate (source e) in
  if bool_decide (derived e = source e) then Err SelfSupportingLineage
  else
  let adjacency := <[derived e := default [] (adjacency !! derived e) ++ [source e]]> adjacency in
  Ok (<[source e := default [] (adjacency !! source e)]> adjacency).

(** The two sets the depth-first search threads: [visiting] and [visited]. *)
Abbreviation Marks := (gset LineageNode * gset LineageNode)%type.

(** The recursion is bounded by the nodes not yet being visited.  [Err None] is no
    answer of the code: it says that the fuel ran out, which does not happen when
    the fuel exceeds their number (lemma [visit_lineage_ends]). *)
Fixpoint visit_lineage (fuel : nat) (adjacency : Adjacency) (node : LineageNode) (marks : Marks)
    : result (option ValidationError) Marks :=
  match fuel with
  | O => Err None
  | S fuel =>
      let '(visiting, visited) := marks in
      if bool_decide (node ∈ visited) then Ok marks
      else if bool_decide (node ∈ visiting) then Err (Some LineageCycle)
      else
      let? marks' :=
        match adjacency !! node with
        | Some sources =>
            try_fold (λ m source, visit_lineage fuel adjacency source m)
              ({[node]} ∪ visiting, visited) sources
        | None => Ok ({[node]} ∪ visiting, visited)
        end in
      Ok (marks'.1 ∖ {[node]}, {[node]} ∪ marks'.2)
  end.

(** [LineageGraph::validate], with running out of fuel told apart. *)
Definition lineage_search (g : LineageGraph) : result (option ValidationError) unit :=
  let? adjacency := map_err Some (try_fold add_lineage_edge ∅ (edges g)) in
  let fuel := S (size adjacency) in
  try? try_fold (λ m node, visit_lineage fuel adjacency node m) (∅, ∅) (bt_keys adjacency) in
  Ok tt.

(** The default is never used ([lineage_search_ends]). *)
Definition LineageGraph_validate (g : LineageGraph) : ValidationResult :=
  map_err (default LineageCycle) (lineage_search g).

(** ** Correctness of the search *)

Section lineage.
Context (adj : Adjacency).

Definition succ (a b : LineageNode) : Prop := ∃ l, adj !! a = Some l ∧ b ∈ l.

(** A set of visited nodes is closed under support and free of cycles. *)
Definition settled (V : gset LineageNode) : Prop :=
  (∀ a b, a ∈ V → succ a b → b ∈ V) ∧ (∀ a, a ∈ V → ¬ tc succ a a).

Lemma settled_tc V a b : settled V → a ∈ V → tc succ a b → b ∈ V.
Proof. intros [Hcl _] Ha Hab. induction Hab; eauto. Qed.

Lemma settled_add V n : settled V → (∀ b, succ n b → b ∈ V) → settled ({[n]} ∪ V).
Proof.
  intros HV Hn. split.
  - intros a b [->%elem_of_singleton|Ha]%elem_of_union Hab; apply elem_of_union; right; [by apply Hn|].
    by apply (proj1 HV a).
  - intros a [->%elem_of_singleton|Ha]%elem_of_union Hcyc; [|by apply (proj2 HV a)].
    assert (n ∈ V) as HnV.
    { inversion Hcyc as [? Hnn|? b ? Hnb Hbn]; subst; [by apply Hn|].
      eapply settled_tc; [done|by apply Hn|done]. }
    by apply (proj2 HV n).
Qed.

Lemma visit_lineage_settles fuel node m m' :
  visit_lineage fuel adj node m = Ok m' → settled m.2 →
  settled m'.2 ∧ m.2 ⊆ m'.2 ∧ node ∈ m'.2.
Proof.
  revert node m m'; induction fuel as [|fuel IH]; intros node [vg vd] m' Hv HV; simpl in *; [done|].
  case_bool_decide as Hvd; [by injection Hv as <-|]. case_bool_decide as Hvg; [done|].
  apply result_bind_Ok in Hv as ([vg1 vd1] & Hfold & [= <-]). simpl.
  assert (settled vd1 ∧ vd ⊆ vd1 ∧ ∀ b, succ node b → b ∈ vd1) as (Hs & Hsub & Hsucc).
  { destruct (adj !! node) as [sources|] eqn:Hadj.
    - pose proof (try_fold_invariant
        (λ done m, settled m.2 ∧ vd ⊆ m.2 ∧ ∀ b, b ∈ done → b ∈ m.2)
        (λ m source, visit_lineage fuel adj source m) sources [] ({[node]} ∪ vg, vd) (vg1, vd1))
        as (? & ? & Hall); [split_and!; [done|done|set_solver]| |done|].
      + intros pre acc x acc' (HS & Hsub & Hpre) Hx.
        apply IH in Hx as (? & ? & ?); [|done]. split_and!; set_solver.
      + split_and!; [done..|]. intros b (l & Hl & Hb). simplify_eq. auto.
    - injection Hfold as <- <-. split_and!; [done..|]. intros b (l & Hl & _). congruence. }
  split_and!; [by apply settled_add|set_solver..].
Qed.

Lemma remove_added (node : LineageNode) (vg : gset LineageNode) : node ∉ vg → ({[node]} ∪ vg) ∖ {[node]} = vg.
Proof. intros Hnin. apply set_eq. intros x. rewrite elem_of_difference, elem_of_union, elem_of_singleton. naive_solver. Qed.

(** Every call adds its node to those being visited, so the fuel suffices; the one
    error is the cycle. *)
Lemma visit_lineage_ends fuel node vg vd :
  (size (dom adj ∖ vg) < fuel)%nat →
  match visit_lineage fuel adj node (vg, vd) with Ok m' => m'.1 = vg | Err e => e = Some LineageCycle end.
Proof.
  revert node vg vd; induction fuel as [|fuel IH]; intros node vg vd Hfuel; [lia|]. simpl.
  case_bool_decide as Hvd; [done|]. case_bool_decide as Hvg; [done|].
  destruct (adj !! node) as [sources|] eqn:Hadj; simpl; [|by apply remove_added].
  assert (size (dom adj ∖ ({[node]} ∪ vg)) < fuel)%nat as Hfuel'.
  { assert (dom adj ∖ ({[node]} ∪ vg) ⊂ dom adj ∖ vg) as Hlt%subset_size; [|lia].
    apply elem_of_dom_2 in Hadj. clear -Hadj Hvg. set_solver. }
  pose proof (try_fold_outcome (λ m : Marks, m.1 = {[node]} ∪ vg) (λ e, e = Some LineageCycle)
    (λ m source, visit_lineage fuel adj source m) sources ({[node]} ∪ vg, vd) eq_refl) as Hfold.
  destruct (try_fold _ _ sources) as [[vg' vd']|e]; simpl in *.
  - rewrite Hfold; [by apply remove_added|]. intros [vg1 vd1] x _ Hm. simpl in Hm. subst vg1. by apply IH.
  - apply Hfold. intros [vg1 vd1] x _ Hm. simpl in Hm. subst vg1. by apply IH.
Qed.

Context (Hclosed : ∀ a b, succ a b → is_Some (adj !! b)).
Context (Hacyclic : ∀ a, ¬ tc succ a a).

(** Without cycles the search succeeds: the stack of nodes being visited is a
    chain of supports, so no node repeats on it and the fuel suffices. *)
Lemma visit_lineage_acyclic fuel node vg vd :
  is_Some (adj !! node) → (∀ v, v ∈ vg → tc succ v node) →
  (size (dom adj ∖ vg) < fuel)%nat →
  ∃ m', visit_lineage fuel adj node (vg, vd) = Ok m' ∧ m'.1 = vg.
Proof.
  revert node vg vd; induction fuel as [|fuel IH]; intros node vg vd Hnode Hchain Hfuel; [lia|]. simpl.
  case_bool_decide as Hvd; [by eexists|].
  case_bool_decide as Hvg; [by apply Hchain, Hacyclic in Hvg|].
  assert (size (dom adj ∖ ({[node]} ∪ vg)) < fuel)%nat as Hfuel'.
  { assert (dom adj ∖ ({[node]} ∪ vg) ⊂ dom adj ∖ vg) as Hlt%subset_size; [|lia].
    apply elem_of_dom in Hnode. set_solver. }
  destruct Hnode as [sources Hadj]. rewrite Hadj.
  destruct (try_fold_total (λ m : Marks, m.1 = {[node]} ∪ vg)
    (λ m source, visit_lineage fuel adj source m) sources ({[node]} ∪ vg, vd)) as ([vg' vd'] & -> & Hm);
    [done| |].
  - intros [vg1 vd1] x Hx Hm. simpl in Hm. subst vg1. assert (succ node x) as Hs by (by exists sources).
    apply IH; [by eapply Hclosed| |done].
    intros v [->%elem_of_singleton|Hv]%elem_of_union; [by apply tc_once|].
    eapply tc_r; [by apply Hchain|done].
  - simpl in *. subst vg'. eexists; split; [done|]. simpl. set_solver.
Qed.
End lineage.

(** The adjacency map of the accepted edges. *)
Definition adjacency_of (es : list LineageEdge) (adj : Adjacency) : Prop :=
  (∀ a b, succ adj a b ↔ MkLineageEdge a b ∈ es) ∧ (∀ a b, succ adj a b → is_Some (adj !! b)).

Definition edge_ok (e : LineageEdge) : Prop :=
  LineageNode_validate (derived e) = Ok tt ∧ LineageNode_validate (source e) = Ok tt ∧
  derived e ≠ source e.

Lemma add_lineage_edge_Ok adj e adj' :
  add_lineage_edge adj e = Ok adj' ↔
  edge_ok e ∧
  adj' = (let adj1 := <[derived e := default [] (adj !! derived e) ++ [source e]]> adj in
          <[source e := default [] (adj1 !! source e)]> adj1).
Proof.
  unfold add_lineage_edge, edge_ok.
  destruct (LineageNode_validate (derived e)) as [[]|]; simpl; [|naive_solver].
  destruct (LineageNode_validate (source e)) as [[]|]; simpl; [|naive_solver].
  case_bool_decide; naive_solver.
Qed.

Lemma add_lineage_edge_adjacency es adj e adj' :
  adjacency_of es adj → add_lineage_edge adj e = Ok adj' → adjacency_of (es ++ [e]) adj'.
Proof.
  intros [Hs Hc] [(_ & _ & Hne) ->]%add_lineage_edge_Ok. destruct e as [d s]; simpl in *.
  rewrite lookup_insert_ne by done.
  assert (∀ a b, succ (<[s:=default [] (adj !! s)]> (<[d:=default [] (adj !! d) ++ [s]]> adj)) a b
                 ↔ succ adj a b ∨ a = d ∧ b = s) as Hsucc.
  { intros a b. unfold succ. destruct (decide (a = s)) as [->|Hs'].
    - rewrite lookup_insert_eq. split.
      + intros (l & [= <-] & Hb). left. destruct (adj !! s) as [l|]; [eauto|by apply elem_of_nil in Hb].
      + intros [(l & -> & Hb)|[? _]]; [eauto|congruence].
    - rewrite lookup_insert_ne by done. destruct (decide (a = d)) as [->|Hd'].
      + rewrite lookup_insert_eq. split.
        * intros (l & [= <-] & Hb). apply elem_of_app in Hb as [Hb|Hb%list_elem_of_singleton]; [|auto].
          left. destruct (adj !! d) as [l|]; [eauto|by apply elem_of_nil in Hb].
        * intros [(l & -> & Hb)|[_ ->]]; eexists; (split; [done|]); apply elem_of_app; simpl; [auto|].
          right. by left.
      + rewrite lookup_insert_ne by done. naive_solver. }
  split.
  - intros a b. rewrite Hsucc, Hs, elem_of_app, list_elem_of_singleton. naive_solver.
  - intros a b [Hab|[-> ->]]%Hsucc; [|rewrite lookup_insert_eq; eauto].
    destruct (Hc _ _ Hab) as [l Hl]. rewrite !lookup_insert. repeat case_decide; eauto.
Qed.

Lemma build_adjacency_Ok es adj :
  try_fold add_lineage_edge ∅ es = Ok adj → Forall edge_ok es ∧ adjacency_of es adj.
Proof.
  apply (try_fold_invariant (λ done adj, Forall edge_ok done ∧ adjacency_of done adj)
           add_lineage_edge es []).
  - split; [constructor|]. split; intros a b; [split|]; [intros (l & Hl & _)|by intros ?%elem_of_nil|intros (l & Hl & _)];
      by rewrite lookup_empty in Hl.
  - intros pre acc x acc' [Hpre Hadj] Hx. split; [|by eapply add_lineage_edge_adjacency].
    apply add_lineage_edge_Ok in Hx as [Hok _]. apply Forall_app; split; [done|by constructor].
Qed.

Lemma build_adjacency_total es :
  Forall edge_ok es → ∃ adj, try_fold add_lineage_edge ∅ es = Ok adj.
Proof.
  rewrite Forall_forall. intros Hok.
  destruct (try_fold_total (λ _, True) add_lineage_edge es ∅) as (adj & Hadj & _); [done| |eauto].
  intros acc x Hx _. eexists. split; [|done]. apply add_lineage_edge_Ok. by split; [apply Hok|].
Qed.

Lemma tc_iff {A} (R S : relation A) a b : (∀ x y, R x y ↔ S x y) → tc R a b ↔ tc S a b.
Proof.
  intros HRS. split; induction 1 as [x y Hxy|x y z Hxy _ IH];
    [apply tc_once|eapply tc_l|apply tc_once|eapply tc_l]; try apply HRS; done.
Qed.

Lemma lineage_search_Ok g :
  lineage_search g = Ok tt ↔
  Forall edge_ok (edges g) ∧ ∀ n, ¬ tc (λ a b, MkLineageEdge a b ∈ edges g) n n.
Proof.
  unfold lineage_search. destruct g as [es]; cbn [edges]. split.
  - intros (adj & Hadj%map_err_Ok & Hvis)%result_bind_Ok. apply build_adjacency_Ok in Hadj as [Hok [Hs Hc]].
    split; [done|]. intros n Hcyc.
    apply result_bind_Ok in Hvis as (m & Hfold & _).
    pose proof (try_fold_invariant (λ done m, settled adj m.2 ∧ ∀ b, b ∈ done → b ∈ m.2)
      (λ m node, visit_lineage (S (size adj)) adj node m) (bt_keys adj) [] (∅, ∅) m) as [[_ Hno] Hall].
    + split; [split|]; simpl; set_solver.
    + intros pre acc x acc' [HS Hpre] Hx%visit_lineage_settles; [|done].
      destruct Hx as (? & ? & ?). split; [done|set_solver].
    + done.
    + rewrite <- (tc_iff (succ adj)) in Hcyc by (intros; apply Hs).
      apply (Hno n); [|done]. apply Hall, elem_of_bt_keys.
      assert (∃ b, succ adj n b) as (b & l & Hl & _) by (inversion Hcyc; subst; eauto). eauto.
  - intros [Hok Hno]. destruct (build_adjacency_total es Hok) as [adj Hadj]. rewrite Hadj. cbn [map_err result_bind].
    apply build_adjacency_Ok in Hadj as [_ [Hs Hc]].
    destruct (try_fold_total (λ m : Marks, m.1 = ∅)
      (λ m node, visit_lineage (S (size adj)) adj node m) (bt_keys adj) (∅, ∅)) as (m & Hm & _); [done| |].
    + intros [vg vd] x Hx Hm. simpl in Hm. subst vg.
      apply visit_lineage_acyclic; [done| |by apply elem_of_bt_keys|set_solver|].
      * intros a Ha. apply (Hno a). by rewrite <- (tc_iff (succ adj)) by (intros; apply Hs).
      * rewrite difference_empty_L, size_dom. lia.
    + by rewrite Hm.
Qed.

Lemma build_adjacency_error es e :
  try_fold add_lineage_edge ∅ es = Err e → e ≠ LineageCycle ∧ ¬ Forall edge_ok es.
Proof.
  intros Herr. split; [|intros [adj ?]%build_adjacency_total; congruence].
  pose proof (try_fold_outcome (λ _, True) (λ e, e ≠ LineageCycle) add_lineage_edge es ∅ I) as Hout.
  rewrite Herr in Hout. apply Hout. intros adj x _ _. unfold add_lineage_edge.
  assert (∀ n, LineageNode_validate n ≠ Err LineageCycle) as Hn
    by (intros n; destruct n; simpl; try done; unfold validate_non_blank; by repeat destruct (trim_is_empty _)).
  destruct (LineageNode_validate (derived x)) eqn:Hd; simpl; [|by intros ->; eapply Hn].
  destruct (LineageNode_validate (source x)) eqn:Hs; simpl; [|by intros ->; eapply Hn]. by case_bool_decide.
Qed.

(** The search ends on every graph, with an error of the edges, a cycle or success. *)
Lemma lineage_search_ends g :
  (∃ e, lineage_search g = Err (Some e) ∧ e ≠ LineageCycle ∧ ¬ Forall edge_ok (edges g)) ∨
  Forall edge_ok (edges g) ∧ (lineage_search g = Ok tt ∨ lineage_search g = Err (Some LineageCycle)).
Proof.
  unfold lineage_search.
  assert (∀ adj, match try_fold (λ m node, visit_lineage (S (size adj)) adj node m) (∅, ∅) (bt_keys adj) with
    Ok m => m.1 = ∅ | Err e => e = Some LineageCycle end) as Hends.
  { intros adj. apply (try_fold_outcome (λ m : Marks, m.1 = ∅) (λ e, e = Some LineageCycle)); [done|].
    intros [vg vd] x _ Hm. simpl in Hm. subst vg. apply visit_lineage_ends. rewrite difference_empty_L, size_dom. lia. }
  destruct (try_fold add_lineage_edge ∅ (edges g)) as [adj|e] eqn:Hadj; simpl; [right|left].
  - apply build_adjacency_Ok in Hadj as [Hok _]. split; [done|]. specialize (Hends adj).
    destruct (try_fold _ _ _) as [m|e]; simpl; [by left|subst e; by right].
  - apply build_adjacency_error in Hadj as [? ?]. by exists e.
Qed.

Lemma LineageGraph_validate_Ok g :
  LineageGraph_validate g = Ok tt ↔
  Forall edge_ok (edges g) ∧ ∀ n, ¬ tc (λ a b, MkLineageEdge a b ∈ edges g) n n.
Proof. unfold LineageGraph_validate. by rewrite map_err_Ok, lineage_search_Ok. Qed.

(** ** Properties *)

(** C36: the depth-first search of the lineage check ends on every graph without
    running out of fuel; the check accepts a graph exactly when every edge names
    valid, distinct nodes and no item supports itself through any chain of edges,
    and it reports a cycle exactly when the edges are valid and there is one. *)
Theorem lineage_validate_iff_acyclic g :
  lineage_search g ≠ Err None ∧
  (LineageGraph_validate g = Ok tt ↔
    Forall edge_ok (edges g) ∧ ∀ n, ¬ tc (λ a b, MkLineageEdge a b ∈ edges g) n n) ∧
  (LineageGraph_validate g = Err LineageCycle ↔
    Forall edge_ok (edges g) ∧ ¬ ∀ n, ¬ tc (λ a b, MkLineageEdge a b ∈ edges g) n n).
Proof.
  pose proof (LineageGraph_validate_Ok g) as Hiff. pose proof (lineage_search_ends g) as Hends.
  unfold LineageGraph_validate in *.
  destruct Hends as [(e & Heq & ? & ?)|[? [Heq|Heq]]]; rewrite Heq in *; simpl in *; naive_solver.
Qed.
