(* ===== verification/Policy.v ===== *)
(** * Policy envelopes (crate contextdb-core, policy.rs)

    Scopes, perspectives, audience grants, ownership, consent, memory use and
    security, and the check that a derived item never broadens its source. *)

From S2P Require Import Prelude.
From S2P Require Import Ordering.
From S2P Require Import Bytes.
From S2P Require Import CoreBase.
From S2P Require Import Provenance.

Inductive ScopeKind :=
  | ScopeWorkspace
  | ScopeMemorySpace
  | ScopeSubject
  | ScopeRelationship
  | ScopeProject
  | ScopeRepository
  | ScopeOrganisation
  | ScopeTeam
  | ScopeSession
  | ScopeTask
  | ScopePlace
  | ScopeTimeRegion
  | ScopeSecurityCompartment
  | ScopeDomain
  | ScopeOther (label : string).

Inductive ScopeInheritance :=
  | Exact
  | Descendants.

Record ScopeRef := MkScopeRef {
  scope_kind : ScopeKind;
  scope_id : ScopeId;
  inheritance : ScopeInheritance;
}.

#[export] Instance ScopeKind_eq_dec : EqDecision ScopeKind.
Proof. solve_decision. Defined.
#[export] Instance ScopeInheritance_eq_dec : EqDecision ScopeInheritance.
Proof. solve_decision. Defined.
#[export] Instance ScopeRef_eq_dec : EqDecision ScopeRef.
Proof. solve_decision. Defined.

Definition ScopeRef_validate (s : ScopeRef) : ValidationResult :=
  match scope_kind s with
  | ScopeOther label => validate_non_blank label "scope.kind"
  | _ => Ok tt
  end.

Inductive EpistemicRole :=
  | Experiencer
  | Witness
  | Asserter
  | Interpreter
  | Verifier
  | ExternalReporter
  | FictionalNarrator
  | RoleOther (label : string).

Record Perspective := MkPerspective {
  knower : MemorySubjectId;
  experiencer : option MemorySubjectId;
  narrator : ActorId;
  role : EpistemicRole;
}.

Definition Perspective_validate (p : Perspective) : ValidationResult :=
  match role p with
  | RoleOther label => validate_non_blank label "perspective.role"
  | _ => Ok tt
  end.

Inductive Purpose :=
  | Conversation
  | Personalisation
  | TaskExecution
  | KnowledgeRecall
  | Safety
  | PurposeAudit
  | PurposeExport
  | PurposeMigration
  | UserSpecified (label : string).

Definition Purpose_validate (p : Purpose) : ValidationResult :=
  match p with
  | UserSpecified label => validate_non_blank label "purpose"
  | _ => Ok tt
  end.

(** The derived [Ord] and [Hash] instances of [Purpose]. *)
Definition purpose_key (p : Purpose) : N * string :=
  match p with
  | Conversation => (0, "")
  | Personalisation => (1, "")
  | TaskExecution => (2, "")
  | KnowledgeRecall => (3, "")
  | Safety => (4, "")
  | PurposeAudit => (5, "")
  | PurposeExport => (6, "")
  | PurposeMigration => (7, "")
  | UserSpecified label => (8, label)
  end%N.
Definition purpose_of_key (k : N * string) : Purpose :=
  match k.1 with
  | 0 => Conversation
  | 1 => Personalisation
  | 2 => TaskExecution
  | 3 => KnowledgeRecall
  | 4 => Safety
  | 5 => PurposeAudit
  | 6 => PurposeExport
  | 7 => PurposeMigration
  | _ => UserSpecified k.2
  end%N.
#[export] Instance Purpose_eq_dec : EqDecision Purpose.
Proof. solve_decision. Defined.
#[export] Instance Purpose_countable : Countable Purpose.
Proof. apply (inj_countable' purpose_key purpose_of_key). by intros []. Defined.
#[export] Instance purpose_key_inj : Inj (=) (=) purpose_key.
Proof. intros [] [] [=]; by simplify_eq. Qed.
#[export] Instance Purpose_Ordered : Ordered Purpose := Ordered_inj purpose_key.

Inductive Audience :=
  | AudiencePublic
  | AudienceOwner
  | AudienceSubject (id : MemorySubjectId)
  | AudienceGroup (id : MemorySubjectId)
  | AudienceMemorySpace (id : MemorySpaceId).

#[export] Instance Audience_eq_dec : EqDecision Audience.
Proof. solve_decision. Defined.

Definition covers (self narrower : Audience) : bool :=
  bool_decide (self = AudiencePublic) || bool_decide (self = narrower).

Inductive AccessCapability :=
  | Retrieve
  | InfluenceResponse
  | Mention
  | Export
  | Derive
  | Modify.

Definition capability_index (c : AccessCapability) : N :=
  match c with
  | Retrieve => 0 | InfluenceResponse => 1 | Mention => 2 | Export => 3 | Derive => 4 | Modify => 5
  end.
Definition capability_of_index (n : N) : AccessCapability :=
  match n with
  | 0 => Retrieve | 1 => InfluenceResponse | 2 => Mention | 3 => Export | 4 => Derive | _ => Modify
  end%N.
#[export] Instance AccessCapability_eq_dec : EqDecision AccessCapability.
Proof. solve_decision. Defined.
#[export] Instance AccessCapability_countable : Countable AccessCapability.
Proof. apply (inj_countable' capability_index capability_of_index). by intros []. Defined.

Record AudienceGrant := MkAudienceGrant {
  audience : Audience;
  purposes : gset Purpose;
  capabilities : gset AccessCapability;
}.

Definition AudienceGrant_validate (g : AudienceGrant) : ValidationResult :=
  if bool_decide (purposes g = ∅) then Err (EmptyCollection "audience_grant.purposes")
  else if bool_decide (capabilities g = ∅) then Err (EmptyCollection "audience_grant.capabilities")
  else for_each Purpose_validate (bt_elements (purposes g)).

Record ModificationPolicy := MkModificationPolicy {
  owners_may_modify : bool;
  delegates_may_modify : bool;
  system_may_derive : bool;
}.

Record OwnershipPolicy := MkOwnershipPolicy {
  owners : NonEmptyVec MemorySubjectId;
  audience_grants : list AudienceGrant;
  allowed_purposes : gset Purpose;
  modification : ModificationPolicy;
}.

Definition OwnershipPolicy_validate (o : OwnershipPolicy) : ValidationResult :=
  try? ensure_distinct (into_vec (owners o)) "ownership.owners" in
  if bool_decide (allowed_purposes o = ∅) then Err (EmptyCollection "ownership.allowed_purposes")
  else
  try? for_each Purpose_validate (bt_elements (allowed_purposes o)) in
  for_each (λ grant,
    try? AudienceGrant_validate grant in
    if negb (bool_decide (purposes grant ⊆ allowed_purposes o))
    then Err (InvalidState "grant purpose is not allowed by ownership policy")
    else Ok tt) (audience_grants o).

Inductive MemoryClass :=
  | RawExperience
  | PersonalFact
  | ClassRelationship
  | Sensitive
  | Procedural
  | Operational
  | ClassArtifact
  | ClassOther (label : string).

#[export] Instance MemoryClass_eq_dec : EqDecision MemoryClass.
Proof. solve_decision. Defined.

Inductive ConsentStatus :=
  | Denied
  | ConsentUnknown
  | Granted.

(** The derived [Ord]: declaration order. *)
Definition consent_level (s : ConsentStatus) : N :=
  match s with Denied => 0 | ConsentUnknown => 1 | Granted => 2 end.

Record ConsentState := MkConsentState {
  consent_subject : MemorySubjectId;
  memory_class : MemoryClass;
  status : ConsentStatus;
  consent_valid_time : TimeRange;
}.

Definition ConsentState_validate (c : ConsentState) : ValidationResult :=
  try? (match memory_class c with
        | ClassOther label => validate_non_blank label "consent.memory_class"
        | _ => Ok tt
        end) in
  TimeRange_validate (consent_valid_time c).

Record ConsentPolicy := MkConsentPolicy {
  required : bool;
  decisions : list ConsentState;
}.

Definition ConsentPolicy_validate (p : ConsentPolicy) : ValidationResult :=
  if required p && is_empty (decisions p) then Err (EmptyCollection "consent.decisions")
  else for_each ConsentState_validate (decisions p).

Inductive PolicyDecision :=
  | Deny
  | Conditional
  | Allow.

Definition decision_level (d : PolicyDecision) : N :=
  match d with Deny => 0 | Conditional => 1 | Allow => 2 end.

Inductive RetentionPolicy :=
  | RetainEphemeral
  | RetainSession
  | RetainDuration (microseconds : N)
  | RetainIndefinite.

#[export] Instance RetentionPolicy_eq_dec : EqDecision RetentionPolicy.
Proof. solve_decision. Defined.

Definition permits_at_most (self source : RetentionPolicy) : bool :=
  match self, source with
  | _, RetainIndefinite => true
  | RetainEphemeral, _ => true
  | RetainSession, RetainSession => true
  | RetainSession, RetainDuration _ => true
  | RetainDuration derived, RetainDuration original => (derived <=? original)%N
  | l, r => bool_decide (l = r)
  end.

Record MemoryUsePolicy := MkMemoryUsePolicy {
  use_retrieve : PolicyDecision;
  influence_response : PolicyDecision;
  mention_explicitly : PolicyDecision;
  external_model_use : PolicyDecision;
  retention : RetentionPolicy;
}.

Inductive SecurityClassification :=
  | Public
  | Internal
  | Confidential
  | Restricted.

Definition classification_level (c : SecurityClassification) : N :=
  match c with Public => 0 | Internal => 1 | Confidential => 2 | Restricted => 3 end.

Record SecurityPolicy := MkSecurityPolicy {
  classification : SecurityClassification;
  labels : gset string;
  required_compartments : gset ScopeId;
  allow_external_processing : bool;
}.

Definition SecurityPolicy_validate (s : SecurityPolicy) : ValidationResult :=
  for_each (λ label, validate_non_blank label "security.label") (bt_elements (labels s)).

Record SemanticEnvelope := MkSemanticEnvelope {
  scopes : NonEmptyVec ScopeRef;
  perspective : Perspective;
  ownership : OwnershipPolicy;
  consent : ConsentPolicy;
  use_policy : MemoryUsePolicy;
  security : SecurityPolicy;
  derivation : DerivationRef;
}.

Definition SemanticEnvelope_validate (e : SemanticEnvelope) : ValidationResult :=
  try? for_each ScopeRef_validate (into_vec (scopes e)) in
  try? Perspective_validate (perspective e) in
  try? OwnershipPolicy_validate (ownership e) in
  try? ConsentPolicy_validate (consent e) in
  try? SecurityPolicy_validate (security e) in
  DerivationRef_validate (derivation e).

Definition validate_for_target (e : SemanticEnvelope) (target : LineageNode) : ValidationResult :=
  try? SemanticEnvelope_validate e in
  DerivationRef_validate_for (derivation e) target.

Definition modification_is_broader (derived source : ModificationPolicy) : bool :=
  (owners_may_modify derived && negb (owners_may_modify source))
  || (delegates_may_modify derived && negb (delegates_may_modify source))
  || (system_may_derive derived && negb (system_may_derive source)).

Definition same_consent_topic (decision item : ConsentState) : bool :=
  bool_decide (consent_subject item = consent_subject decision)
  && bool_decide (memory_class item = memory_class decision).

(** [iter().max()] of the matching levels. *)
Definition source_consent_level (source : ConsentPolicy) (decision : ConsentState) : option N :=
  match (consent_level ∘ status) <$> filter (λ item, same_consent_topic decision item) (decisions source) with
  | [] => None
  | l :: ls => Some (foldl N.max l ls)
  end.

Definition validate_consent_derivation (derived source : ConsentPolicy) : ValidationResult :=
  if required source && negb (required derived)
  then Err (PolicyWeakening "derived memory removed consent requirement")
  else
  for_each (λ decision,
    if is_none_or (source_consent_level source decision)
         (λ level, level <? consent_level (status decision))%N
    then Err (PolicyWeakening "derived memory broadened consent")
    else Ok tt) (decisions derived).

Definition grant_covered (source_grants : list AudienceGrant) (derived_grant : AudienceGrant) : bool :=
  existsb (λ source_grant,
    covers (audience source_grant) (audience derived_grant)
    && bool_decide (purposes derived_grant ⊆ purposes source_grant)
    && bool_decide (capabilities derived_grant ⊆ capabilities source_grant)) source_grants.

Definition use_is_broader (derived source : MemoryUsePolicy) : bool :=
  (decision_level (use_retrieve source) <? decision_level (use_retrieve derived))%N
  || (decision_level (influence_response source) <? decision_level (influence_response derived))%N
  || (decision_level (mention_explicitly source) <? decision_level (mention_explicitly derived))%N
  || (decision_level (external_model_use source) <? decision_level (external_model_use derived))%N
  || negb (permits_at_most (retention derived) (retention source)).

Definition security_is_weaker (derived source : SecurityPolicy) : bool :=
  (classification_level (classification derived) <? classification_level (classification source))%N
  || negb (bool_decide (labels source ⊆ labels derived))
  || negb (bool_decide (required_compartments source ⊆ required_compartments derived))
  || (allow_external_processing derived && negb (allow_external_processing source)).

Definition validate_derived_from (self source : SemanticEnvelope) : ValidationResult :=
  try? SemanticEnvelope_validate self in
  try? SemanticEnvelope_validate source in
  if existsb (λ scope, negb (bool_decide (scope ∈ into_vec (scopes source)))) (into_vec (scopes self))
  then Err (PolicyWeakening "derived scope is not constrained by the source")
  else if negb (bool_decide ((list_to_set (into_vec (owners (ownership self))) : gset _)
                             = list_to_set (into_vec (owners (ownership source)))))
  then Err (PolicyWeakening "derived ownership differs from source ownership")
  else if negb (bool_decide (allowed_purposes (ownership self) ⊆ allowed_purposes (ownership source)))
  then Err (PolicyWeakening "derived purpose set is broader")
  else if modification_is_broader (modification (ownership self)) (modification (ownership source))
  then Err (PolicyWeakening "derived modification permissions are broader")
  else
  try? for_each (λ derived_grant,
         if negb (grant_covered (audience_grants (ownership source)) derived_grant)
         then Err (PolicyWeakening "derived audience grant is broader")
         else Ok tt) (audience_grants (ownership self)) in
  if use_is_broader (use_policy self) (use_policy source)
  then Err (PolicyWeakening "derived memory-use policy is broader")
  else if security_is_weaker (security self) (security source)
  then Err (PolicyWeakening "derived security policy is weaker")
  else validate_consent_derivation (consent self) (consent source).

(** ** The derivation order *)

(** The level a consent policy grants for a topic is at most [n]. *)
Definition consent_within (source : ConsentPolicy) (decision : ConsentState) : Prop :=
  ∃ item, item ∈ decisions source ∧ consent_subject item = consent_subject decision ∧
    memory_class item = memory_class decision ∧
    (consent_level (status decision) ≤ consent_level (status item))%N.

Record narrower (d s : SemanticEnvelope) : Prop := MkNarrower {
  narrower_scopes x : x ∈ into_vec (scopes d) → x ∈ into_vec (scopes s);
  narrower_owners x : x ∈ into_vec (owners (ownership d)) ↔ x ∈ into_vec (owners (ownership s));
  narrower_purposes : allowed_purposes (ownership d) ⊆ allowed_purposes (ownership s);
  narrower_modification :
    modification_is_broader (modification (ownership d)) (modification (ownership s)) = false;
  narrower_grants : Forall (λ g, grant_covered (audience_grants (ownership s)) g = true)
                      (audience_grants (ownership d));
  narrower_use : use_is_broader (use_policy d) (use_policy s) = false;
  narrower_security : security_is_weaker (security d) (security s) = false;
  narrower_required : required (consent s) = true → required (consent d) = true;
  narrower_consent : Forall (consent_within (consent s)) (decisions (consent d));
}.

Lemma foldl_max_spec l ls n :
  (n ≤ foldl N.max l ls)%N ↔ ∃ x, x ∈ l :: ls ∧ (n ≤ x)%N.
Proof.
  rewrite <- (Exists_exists (λ x, n ≤ x)%N).
  revert l; induction ls as [|y ls IH]; intros l; simpl.
  - rewrite Exists_cons, Exists_nil. tauto.
  - rewrite IH, !Exists_cons, N.max_le_iff. tauto.
Qed.

Lemma source_consent_level_spec s x :
  is_none_or (source_consent_level s x) (λ level, level <? consent_level (status x))%N = false ↔
  consent_within s x.
Proof.
  unfold source_consent_level, consent_within.
  set (fs := filter (λ item, same_consent_topic x item) (decisions s)).
  assert (∀ i, i ∈ fs ↔ i ∈ decisions s ∧ consent_subject i = consent_subject x ∧
                        memory_class i = memory_class x) as Hfs.
  { intros i. unfold fs. rewrite list_elem_of_filter. unfold same_consent_topic.
    rewrite Is_true_true, andb_true_iff, !bool_decide_eq_true. tauto. }
  destruct fs as [|i rest] eqn:Hl.
  - split; [done|]. intros (item & ? & ? & ? & _). destruct (proj1 (elem_of_nil item)). by apply Hfs.
  - rewrite fmap_cons. cbn [is_none_or].
    rewrite N.ltb_ge, foldl_max_spec, <- (fmap_cons (consent_level ∘ status)). split.
    + intros (n & (item & -> & Hin%Hfs)%list_elem_of_fmap & Hle). exists item. naive_solver.
    + intros (item & ? & ? & ? & Hle). exists (consent_level (status item)). split; [|done].
      apply list_elem_of_fmap. exists item. split; [done|]. by apply Hfs.
Qed.

Lemma validate_consent_derivation_Ok d s :
  validate_consent_derivation d s = Ok tt ↔
  (required s = true → required d = true) ∧ Forall (consent_within s) (decisions d).
Proof.
  unfold validate_consent_derivation.
  assert (for_each (λ x, if is_none_or (source_consent_level s x)
              (λ level, level <? consent_level (status x))%N
            then Err (PolicyWeakening "derived memory broadened consent") else Ok tt) (decisions d)
          = Ok tt ↔ Forall (consent_within s) (decisions d)) as Heach.
  { rewrite for_each_Ok. apply Forall_proper; [|done]. intros x.
    rewrite <- source_consent_level_spec. by destruct (is_none_or _ _). }
  destruct (required s), (required d); cbn [andb negb]; rewrite ?Heach; intuition congruence.
Qed.

Lemma scopes_check_false d s :
  existsb (λ scope, negb (bool_decide (scope ∈ into_vec (scopes s)))) (into_vec (scopes d)) = false ↔
  ∀ x, x ∈ into_vec (scopes d) → x ∈ into_vec (scopes s).
Proof.
  rewrite <- not_true_iff_false, existsb_exists. setoid_rewrite <- list_elem_of_In.
  setoid_rewrite negb_true_iff. setoid_rewrite bool_decide_eq_false. split.
  - intros Hno x Hx. destruct (decide (x ∈ into_vec (scopes s))); [done|]. destruct Hno. eauto.
  - intros Hall (x & Hx & Hno). auto.
Qed.

Lemma owners_check d s :
  bool_decide ((list_to_set (into_vec (owners d)) : gset MemorySubjectId)
               = list_to_set (into_vec (owners s))) = true ↔
  ∀ x, x ∈ into_vec (owners d) ↔ x ∈ into_vec (owners s).
Proof.
  rewrite bool_decide_eq_true, set_eq. by setoid_rewrite elem_of_list_to_set.
Qed.

Lemma grants_check ds gs :
  for_each (λ g, if negb (grant_covered gs g)
                 then Err (PolicyWeakening "derived audience grant is broader") else Ok tt) ds = Ok tt ↔
  Forall (λ g, grant_covered gs g = true) ds.
Proof. rewrite for_each_Ok. apply Forall_proper; [|done]. intros g. by destruct (grant_covered gs g). Qed.

(** The check accepts exactly the pairs of valid envelopes in the order. *)
Lemma validate_derived_from_Ok d s :
  validate_derived_from d s = Ok tt ↔
  SemanticEnvelope_validate d = Ok tt ∧ SemanticEnvelope_validate s = Ok tt ∧ narrower d s.
Proof.
  unfold validate_derived_from.
  destruct (SemanticEnvelope_validate d) as [[]|]; cbn [result_bind]; [|naive_solver].
  destruct (SemanticEnvelope_validate s) as [[]|]; cbn [result_bind]; [|naive_solver].
  destruct (existsb _ _) eqn:Hsc.
  { split; [done|]. intros (_ & _ & Hn). pose proof (narrower_scopes _ _ Hn) as Hx.
    apply scopes_check_false in Hx. congruence. }
  destruct (bool_decide _) eqn:Hown; cbn [negb].
  2:{ split; [done|]. intros (_ & _ & Hn). pose proof (narrower_owners _ _ Hn) as Hx.
      apply owners_check in Hx. congruence. }
  destruct (bool_decide (allowed_purposes _ ⊆ _)) eqn:Hpur; cbn [negb].
  2:{ apply bool_decide_eq_false in Hpur. split; [done|]. intros (_ & _ & Hn). by destruct Hn. }
  destruct (modification_is_broader _ _) eqn:Hmod.
  { split; [done|]. intros (_ & _ & Hn). destruct Hn. congruence. }
  destruct (for_each _ _) as [[]|err] eqn:Hg; cbn [result_bind].
  2:{ split; [done|]. intros (_ & _ & Hn). pose proof (narrower_grants _ _ Hn) as Hx.
      apply grants_check in Hx. congruence. }
  destruct (use_is_broader _ _) eqn:Huse; [split; [done|]; intros (_ & _ & Hn); destruct Hn; congruence|].
  destruct (security_is_weaker _ _) eqn:Hsec; [split; [done|]; intros (_ & _ & Hn); destruct Hn; congruence|].
  rewrite validate_consent_derivation_Ok. pose proof (proj1 (scopes_check_false d s) Hsc) as Hsc'.
  pose proof (proj1 (owners_check _ _) Hown) as Hown'. apply bool_decide_eq_true in Hpur. apply grants_check in Hg. split.
  - intros [? ?]. by split_and!.
  - intros (_ & _ & Hn). by destruct Hn.
Qed.

Lemma permits_at_most_refl r : permits_at_most r r = true.
Proof. destruct r; simpl; [done|done| |done]. by apply N.leb_le. Qed.

Lemma permits_at_most_trans a b c :
  permits_at_most a b = true → permits_at_most b c = true → permits_at_most a c = true.
Proof. destruct a, b, c; simpl; try done. rewrite !N.leb_le. lia. Qed.

Lemma use_is_broader_false d s :
  use_is_broader d s = false ↔
  (decision_level (use_retrieve d) ≤ decision_level (use_retrieve s))%N ∧
  (decision_level (influence_response d) ≤ decision_level (influence_response s))%N ∧
  (decision_level (mention_explicitly d) ≤ decision_level (mention_explicitly s))%N ∧
  (decision_level (external_model_use d) ≤ decision_level (external_model_use s))%N ∧
  permits_at_most (retention d) (retention s) = true.
Proof. unfold use_is_broader. rewrite !orb_false_iff, !N.ltb_ge, negb_false_iff. tauto. Qed.

Lemma security_is_weaker_false d s :
  security_is_weaker d s = false ↔
  (classification_level (classification s) ≤ classification_level (classification d))%N ∧
  labels s ⊆ labels d ∧ required_compartments s ⊆ required_compartments d ∧
  (allow_external_processing d = true → allow_external_processing s = true).
Proof.
  unfold security_is_weaker.
  rewrite !orb_false_iff, N.ltb_ge, !negb_false_iff, !bool_decide_eq_true.
  destruct (allow_external_processing d), (allow_external_processing s); simpl; naive_solver.
Qed.

Lemma grant_covered_true gs g :
  grant_covered gs g = true ↔
  ∃ h, h ∈ gs ∧ covers (audience h) (audience g) = true ∧
       purposes g ⊆ purposes h ∧ capabilities g ⊆ capabilities h.
Proof.
  unfold grant_covered. rewrite existsb_exists. setoid_rewrite <- list_elem_of_In.
  setoid_rewrite andb_true_iff. setoid_rewrite andb_true_iff. setoid_rewrite bool_decide_eq_true.
  naive_solver.
Qed.

Lemma covers_trans a b c : covers a b = true → covers b c = true → covers a c = true.
Proof. unfold covers. rewrite !orb_true_iff, !bool_decide_eq_true. naive_solver. Qed.

Lemma covers_refl a : covers a a = true.
Proof. unfold covers. rewrite (bool_decide_true (a = a)) by done. apply orb_true_r. Qed.

Lemma modification_is_broader_false d s :
  modification_is_broader d s = false ↔
  implb (owners_may_modify d) (owners_may_modify s) = true ∧
  implb (delegates_may_modify d) (delegates_may_modify s) = true ∧
  implb (system_may_derive d) (system_may_derive s) = true.
Proof.
  unfold modification_is_broader. rewrite !orb_false_iff.
  assert (∀ x y, x && negb y = false ↔ implb x y = true) as Himp by (by intros [] []).
  rewrite !Himp. tauto.
Qed.

Lemma narrower_refl e : narrower e e.
Proof.
  split; try done.
  - unfold modification_is_broader. by destruct (modification (ownership e)) as [[] [] []].
  - apply Forall_forall. intros g Hg. apply grant_covered_true. exists g. by auto using covers_refl.
  - apply use_is_broader_false. split_and!; [done..|]. apply permits_at_most_refl.
  - by apply security_is_weaker_false.
  - apply Forall_forall. intros x Hx. by exists x.
Qed.

Lemma narrower_trans a b c : narrower a b → narrower b c → narrower a c.
Proof.
  intros [S1 O1 P1 M1 G1 U1 E1 R1 C1] [S2 O2 P2 M2 G2 U2 E2 R2 C2].
  apply use_is_broader_false in U1, U2. apply security_is_weaker_false in E1, E2.
  rewrite Forall_forall in G1, G2. rewrite Forall_forall in C1, C2. split.
  - auto.
  - intros x. by rewrite O1.
  - by etrans.
  - apply modification_is_broader_false in M1, M2. apply modification_is_broader_false.
    rewrite !implb_true_iff in *. intuition.
  - apply Forall_forall. intros g Hg. apply grant_covered_true.
    apply G1, grant_covered_true in Hg as (h & Hh & Hc1 & Hp1 & Hk1).
    apply G2, grant_covered_true in Hh as (k & Hk & Hc2 & Hp2 & Hk2).
    exists k. split_and!; [done|by eapply covers_trans|by etrans|by etrans].
  - apply use_is_broader_false. destruct U1 as (? & ? & ? & ? & ?), U2 as (? & ? & ? & ? & ?).
    split_and!; [lia..|]. by eapply permits_at_most_trans.
  - apply security_is_weaker_false. destruct E1 as (? & ? & ? & ?), E2 as (? & ? & ? & ?).
    split_and!; [lia|by etrans|by etrans|auto].
  - auto.
  - apply Forall_forall. intros x Hx. apply C1 in Hx as (y & Hy & Hs1 & Hm1 & Hl1).
    apply C2 in Hy as (z & Hz & Hs2 & Hm2 & Hl2). exists z. split_and!; [done|congruence..|lia].
Qed.

(** ** Properties *)

(** Whether some grant of the envelope gives an audience a capability for a purpose. *)
Definition permits (e : SemanticEnvelope) (a : Audience) (p : Purpose) (c : AccessCapability) : Prop :=
  ∃ g, g ∈ audience_grants (ownership e) ∧ covers (audience g) a = true ∧
       p ∈ purposes g ∧ c ∈ capabilities g.

(** Retention from the shortest to the longest. *)
Definition retention_rank (r : RetentionPolicy) : N * N :=
  match r with
  | RetainEphemeral => (0, 0)
  | RetainSession => (1, 0)
  | RetainDuration n => (2, n)
  | RetainIndefinite => (3, 0)
  end%N.

Lemma permits_at_most_rank d s : permits_at_most d s = true → kle (retention_rank d) (retention_rank s).
Proof.
  destruct d, s; simpl; try done; unfold kle; rewrite cmp_pair; try done.
  intros Hle%N.leb_le. change (N.compare microseconds microseconds0 ≠ Gt). by apply N.compare_le_iff.
Qed.

(** What the first envelope allows, the second allows; what the second demands, the
    first demands.  A consent decision is compared by subject, memory class and
    status. *)
Record no_broader (d s : SemanticEnvelope) : Prop := {
  nb_uses a p c : permits d a p c → permits s a p c;
  nb_scopes x : x ∈ into_vec (scopes d) → x ∈ into_vec (scopes s);
  nb_owners x : x ∈ into_vec (owners (ownership d)) ↔ x ∈ into_vec (owners (ownership s));
  nb_purposes p : p ∈ allowed_purposes (ownership d) → p ∈ allowed_purposes (ownership s);
  nb_owner_changes : owners_may_modify (modification (ownership d)) = true → owners_may_modify (modification (ownership s)) = true;
  nb_delegate_changes :
    delegates_may_modify (modification (ownership d)) = true → delegates_may_modify (modification (ownership s)) = true;
  nb_system : system_may_derive (modification (ownership d)) = true → system_may_derive (modification (ownership s)) = true;
  nb_retrieve : (decision_level (use_retrieve (use_policy d)) ≤ decision_level (use_retrieve (use_policy s)))%N;
  nb_influence : (decision_level (influence_response (use_policy d)) ≤ decision_level (influence_response (use_policy s)))%N;
  nb_mention : (decision_level (mention_explicitly (use_policy d)) ≤ decision_level (mention_explicitly (use_policy s)))%N;
  nb_models : (decision_level (external_model_use (use_policy d)) ≤ decision_level (external_model_use (use_policy s)))%N;
  nb_retention : kle (retention_rank (retention (use_policy d))) (retention_rank (retention (use_policy s)));
  nb_classification :
    (classification_level (classification (security s)) ≤ classification_level (classification (security d)))%N;
  nb_labels l : l ∈ labels (security s) → l ∈ labels (security d);
  nb_compartments c : c ∈ required_compartments (security s) → c ∈ required_compartments (security d);
  nb_external : allow_external_processing (security d) = true → allow_external_processing (security s) = true;
  nb_consent_required : required (consent s) = true → required (consent d) = true;
  nb_consent c : c ∈ decisions (consent d) → consent_within (consent s) c;
}.

Lemma narrower_no_broader d s : narrower d s → no_broader d s.
Proof.
  intros [S O P M G U E R C]. apply modification_is_broader_false in M as (? & ? & ?).
  apply use_is_broader_false in U as (? & ? & ? & ? & ?). apply security_is_weaker_false in E as (? & ? & ? & ?).
  rewrite Forall_forall in G. rewrite Forall_forall in C. rewrite !implb_true_iff in *. split; auto; [|by apply permits_at_most_rank].
  intros a p c (g & Hg & Ha & Hp & Hc). apply G, grant_covered_true in Hg as (h & Hh & Hcov & Hps & Hcs).
  exists h. split_and!; [done|by eapply covers_trans|set_solver|set_solver].
Qed.

(** an accepted derivation never broadens its source: every use some grant
    of the derived item permits is permitted by the source, its scopes and
    purposes are among the source's and its owners are the same, no memory-use
    gate is wider and retention is not longer, its classification, labels and
    compartments are at least the source's, and every consent it records is
    backed by a source decision of the same or a higher level. *)
Theorem derived_policy_never_broadens d s : validate_derived_from d s = Ok tt → no_broader d s.
Proof. intros (_ & _ & Hn)%validate_derived_from_Ok. by apply narrower_no_broader. Qed.

(** An envelope used by the witnesses. *)
Definition sample_envelope : SemanticEnvelope := {|
  scopes := NonEmptyVec_new (MkScopeRef ScopeProject (sample_id _) Exact);
  perspective := MkPerspective (sample_id _) None (sample_id _) Asserter;
  ownership := MkOwnershipPolicy (NonEmptyVec_new (sample_id _))
    [MkAudienceGrant AudienceOwner {[Conversation]} {[Retrieve]}] {[Conversation]}
    (MkModificationPolicy true false true);
  consent := MkConsentPolicy true
    [MkConsentState (sample_id _) PersonalFact Granted (open_ended 0)];
  use_policy := MkMemoryUsePolicy Allow Allow Conditional Deny RetainSession;
  security := MkSecurityPolicy Internal {["team"]} ∅ false;
  derivation := MkDerivationRef (sample_id _) Import None None
    (MkPipelineIdentity "import" "1" "1") [];
|}.

Lemma derived_policy_never_broadens_witness : no_broader sample_envelope sample_envelope.
Proof.
  apply (derived_policy_never_broadens sample_envelope sample_envelope). vm_compute. reflexivity.
Defined.

(** the derivation check is a preorder on valid envelopes, so a chain of
    accepted derivations can be checked link by link: every valid envelope may be
    derived from itself, and two accepted links give an accepted derivation from
    the first source. *)
Theorem derived_from_preorder :
  (∀ e, SemanticEnvelope_validate e = Ok tt → validate_derived_from e e = Ok tt) ∧
  (∀ a b c, validate_derived_from a b = Ok tt → validate_derived_from b c = Ok tt →
     validate_derived_from a c = Ok tt).
Proof.
  split.
  - intros e He. apply validate_derived_from_Ok. auto using narrower_refl.
  - intros a b c (Ha & _ & Hab)%validate_derived_from_Ok (_ & Hc & Hbc)%validate_derived_from_Ok.
    apply validate_derived_from_Ok. eauto using narrower_trans.
Qed.

(** the consent check does not look at the validity interval of a decision:
    whenever a derivation is accepted, it stays accepted after the interval of any
    of its decisions is replaced by any other. *)
Theorem consent_check_ignores_validity d s ranges :
  validate_consent_derivation d s = Ok tt →
  validate_consent_derivation
    (MkConsentPolicy (required d)
       (zip_with (λ c r, MkConsentState (consent_subject c) (memory_class c) (status c) r)
          (decisions d) ranges)) s = Ok tt.
Proof.
  rewrite !validate_consent_derivation_Ok. simpl. intros [Hr Hall]. split; [done|].
  rewrite Forall_forall in Hall |- *. intros x Hx.
  apply elem_of_zip_with in Hx as (c & r & -> & Hc & _). apply Hall in Hc.
  destruct Hc as (i & Hi). by exists i.
Qed.

Lemma consent_check_ignores_validity_witness :
  let source := MkConsentPolicy true
    [MkConsentState (sample_id _) PersonalFact Granted (MkTimeRange 0 (Some 10%Z))] in
  validate_consent_derivation
    (MkConsentPolicy true [MkConsentState (sample_id _) PersonalFact Granted (open_ended 0)]) source
    = Ok tt.
Proof.
  intros source. apply (consent_check_ignores_validity source source [open_ended 0]).
  vm_compute. reflexivity.
Defined.
