(* ===== verification/Identity.v ===== *)
(** * Administrative and cognitive identity (crate contextdb-core, identity.rs) *)

From S2P Require Import Prelude.
From S2P Require Import Ordering.
From S2P Require Import Bytes.
From S2P Require Import CoreBase.
From S2P Require Import Provenance.
From S2P Require Import Policy.

Inductive WorkspaceState :=
  | WorkspaceActive
  | WorkspaceReadOnly
  | WorkspaceArchived.

Record Workspace := MkWorkspace {
  workspace_id : WorkspaceId;
  workspace_name : string;
  policy_profile : PolicyId;
  ontology_profile : string;
  workspace_state : WorkspaceState;
}.

Definition Workspace_validate (w : Workspace) : ValidationResult :=
  try? validate_non_blank (workspace_name w) "workspace.name" in
  validate_non_blank (ontology_profile w) "workspace.ontology_profile".

Inductive MemorySpaceKind :=
  | SpaceUserPrivate
  | SpaceAgentPrivate
  | SpaceSharedUserAgent
  | SpaceGroup
  | SpaceOrganisation
  | SpacePublicKnowledge
  | SpaceSession
  | SpaceDomain
  | SpaceFictionalWorld
  | SpaceDeviceLocal
  | SpaceOther (label : string).

Record MemorySpace := MkMemorySpace {
  space_id : MemorySpaceId;
  space_workspace_id : WorkspaceId;
  space_kind : MemorySpaceKind;
  space_owners : NonEmptyVec MemorySubjectId;
  default_policy : OwnershipPolicy;
  retention_policy : RetentionPolicy;
  parent : option MemorySpaceId;
}.

Definition MemorySpace_validate (s : MemorySpace) : ValidationResult :=
  try? (match space_kind s with
        | SpaceOther label => validate_non_blank label "memory_space.kind"
        | _ => Ok tt
        end) in
  if bool_decide (parent s = Some (space_id s)) then Err HierarchyCycle
  else
  let owner_set : gset MemorySubjectId := list_to_set (into_vec (space_owners s)) in
  if negb (size owner_set =? length (into_vec (space_owners s)))%nat
  then Err (DuplicateIdentifier "memory_space.owners")
  else
  try? OwnershipPolicy_validate (default_policy s) in
  let policy_owners : gset MemorySubjectId := list_to_set (into_vec (owners (default_policy s))) in
  if negb (bool_decide (owner_set = policy_owners))
  then Err (InvalidState "memory-space owners and default-policy owners differ")
  else Ok tt.

Inductive SubjectKind :=
  | SubjectUser
  | SubjectAgent
  | SubjectRelationship
  | SubjectGroup
  | SubjectOrganisation
  | SubjectWorld
  | SubjectProject
  | SubjectOther (label : string).

Record MemorySubject := MkMemorySubject {
  subject_id : MemorySubjectId;
  subject_workspace_id : WorkspaceId;
  subject_kind : SubjectKind;
  canonical_node : NodeId;
  primary_spaces : NonEmptyVec MemorySpaceId;
  continuity_policy : PolicyId;
}.

Definition MemorySubject_validate (s : MemorySubject) : ValidationResult :=
  try? (match subject_kind s with
        | SubjectOther label => validate_non_blank label "memory_subject.kind"
        | _ => Ok tt
        end) in
  let spaces : gset MemorySpaceId := list_to_set (into_vec (primary_spaces s)) in
  if negb (size spaces =? length (into_vec (primary_spaces s)))%nat
  then Err (DuplicateIdentifier "memory_subject.primary_spaces")
  else Ok tt.

Inductive Capability :=
  | StructuredOutput
  | ToolUse
  | MultimodalInput
  | LocalInference
  | ExternalInference
  | MemoryModification
  | MemoryDeletion
  | CapabilityOther (label : string).

(** The agent's capability set is kept as its elements in order. *)
Record AgentIdentity := MkAgentIdentity {
  agent_id : AgentId;
  agent_subject_id : MemorySubjectId;
  display_name : string;
  configured_role : string;
  memory_policy : PolicyId;
  agent_capabilities : list Capability;
  continuity_profile : ContinuityProfileId;
}.

Definition AgentIdentity_validate (a : AgentIdentity) : ValidationResult :=
  try? validate_non_blank (display_name a) "agent.display_name" in
  try? validate_non_blank (configured_role a) "agent.configured_role" in
  for_each (λ capability,
    match capability with
    | CapabilityOther label => validate_non_blank label "agent.capability"
    | _ => Ok tt
    end) (agent_capabilities a).

Inductive ActorKind :=
  | ActorUser
  | ActorAgent
  | ActorService
  | ActorTool
  | ActorExternal
  | ActorOther (label : string).

Inductive TrustClass :=
  | Untrusted
  | TrustUnknown
  | SelfAsserted
  | Authenticated
  | Verified.

Record Actor := MkActor {
  actor_id : ActorId;
  actor_kind : ActorKind;
  actor_subject_id : option MemorySubjectId;
  actor_canonical_node : option NodeId;
  actor_trust : TrustClass;
}.

Definition Actor_validate (a : Actor) : ValidationResult :=
  match actor_kind a with
  | ActorOther label => validate_non_blank label "actor.kind"
  | _ => Ok tt
  end.

Lemma set_size_NoDup `{Countable A} (l : list A) :
  (size (list_to_set l : gset A) =? length l)%nat = true ↔ NoDup l.
Proof.
  rewrite Nat.eqb_eq. split; [|apply size_list_to_set].
  induction l as [|x l IH]; [constructor|]. rewrite list_to_set_cons. simpl. intros Hsz.
  assert (size (list_to_set l : gset A) ≤ length l)%nat as Hle.
  { clear. induction l as [|y l IH]; [done|]. rewrite list_to_set_cons, size_union_alt, size_singleton.
    assert (size (list_to_set l ∖ {[y]} : gset A) ≤ size (list_to_set l : gset A))%nat
      by (apply subseteq_size; set_solver). simpl. lia. }
  rewrite size_union_alt, size_singleton in Hsz.
  assert (x ∉ l) as Hx.
  { intros Hin. assert (list_to_set l ∖ {[x]} ⊂ (list_to_set l : gset A)) as Hlt%subset_size; [|lia].
    assert (x ∈ (list_to_set l : gset A)) by (by apply elem_of_list_to_set). set_solver. }
  constructor; [done|]. apply IH.
  assert (list_to_set l ∖ {[x]} = (list_to_set l : gset A)) as Heq
    by (apply set_eq; intros y; rewrite elem_of_difference, elem_of_list_to_set; set_solver).
  rewrite Heq in Hsz. lia.
Qed.

(** a validated memory space has distinct owners, the same owners as its
    default policy, a policy that validates, and is not its own parent. *)
Theorem memory_space_validate_iff s :
  MemorySpace_validate s = Ok tt ↔
  (∀ label, space_kind s = SpaceOther label → trim_is_empty label = false) ∧
  parent s ≠ Some (space_id s) ∧ NoDup (into_vec (space_owners s)) ∧
  OwnershipPolicy_validate (default_policy s) = Ok tt ∧
  (∀ x, x ∈ into_vec (space_owners s) ↔ x ∈ into_vec (owners (default_policy s))).
Proof.
  unfold MemorySpace_validate. rewrite <- set_size_NoDup.
  assert ((match space_kind s with SpaceOther label => validate_non_blank label "memory_space.kind"
           | _ => Ok tt end) = Ok tt ↔ ∀ label, space_kind s = SpaceOther label → trim_is_empty label = false)
    as Hkind.
  { destruct (space_kind s) as [ | | | | | | | | | |label]; try by (split; [intros _ l [=]|done]).
    unfold validate_non_blank. destruct (trim_is_empty label) eqn:Ht; split; try done.
    - intros Hl. by rewrite (Hl label eq_refl) in Ht.
    - by intros _ l [= <-]. }
  destruct (match space_kind s with SpaceOther _ => _ | _ => _ end) as [[]|]; cbn [result_bind];
    [|split; [done|]; intros (Hl & _); by apply Hkind in Hl].
  case_bool_decide as Hpar; [split; [done|]; by intros (_ & ? & _)|].
  destruct (_ =? _)%nat eqn:Hsz; cbn [negb]; [|split; [done|]; by intros (_ & _ & ? & _)].
  destruct (OwnershipPolicy_validate (default_policy s)) as [[]|]; cbn [result_bind];
    [|split; [done|]; by intros (_ & _ & _ & ? & _)].
  case_bool_decide as Hown; rewrite set_eq in Hown; setoid_rewrite elem_of_list_to_set in Hown; cbn [negb];
    split; try done.
  - intros _. by split_and!; [apply Hkind|..].
  - by intros (_ & _ & _ & _ & ?).
Qed.
