(* ===== verification/Evidence.v ===== *)
(** * Evidence, observations and episodes (crate contextdb-core, evidence.rs)

    The content digest with its hexadecimal text form, sources, content blocks,
    artifacts, evidence selectors and spans, immutable observations and episode
    views. *)

From S2P Require Import Prelude.
From S2P Require Import Ordering.
From S2P Require Import Bytes.
From S2P Require Import CoreBase.
From S2P Require Import Provenance.
From S2P Require Import Policy.
From S2P Require Import Identity.

(** ** Content digests *)

(** A digest is its 32 bytes. *)
Record ContentDigest := MkContentDigest {
  digest_bytes : bytes;
  digest_length : (length digest_bytes =? 32)%nat = true;
}.

Lemma ContentDigest_inj d1 d2 : digest_bytes d1 = digest_bytes d2 → d1 = d2.
Proof.
  destruct d1 as [b1 l1], d2 as [b2 l2]; simpl. intros ->. f_equal. apply (proof_irrel l1 l2).
Qed.

#[export] Instance ContentDigest_eq_dec : EqDecision ContentDigest.
Proof.
  refine (λ a b, cast_if (decide (digest_bytes a = digest_bytes b))).
  - by apply ContentDigest_inj.
  - by intros ->.
Defined.

(** One lowercase hexadecimal digit as written by the [02x] format. *)
Definition hex_digit (n : N) : byte :=
  if (n <? 10)%N then byte_of_N (48 + n) else byte_of_N (87 + n).
Definition hex_byte (b : byte) : bytes :=
  [hex_digit (Byte.to_N b / 16); hex_digit (Byte.to_N b mod 16)].

Definition ContentDigest_to_string (d : ContentDigest) : bytes := mjoin (hex_byte <$> digest_bytes d).

(** [char::to_digit] with radix 16 on an ASCII byte. *)
Definition to_digit (b : byte) : option N :=
  let n := Byte.to_N b in
  if (48 <=? n)%N && (n <=? 57)%N then Some (n - 48)%N
  else if (97 <=? n)%N && (n <=? 102)%N then Some (n - 87)%N
  else if (65 <=? n)%N && (n <=? 70)%N then Some (n - 55)%N
  else None.

(** [u8::from_str_radix] with radix 16 on a two-byte text: one leading plus sign is
    taken as a sign. *)
Definition from_str_radix_16 (a b : byte) : option N :=
  if bool_decide (a = x2b) then to_digit b
  else hi ← to_digit a; lo ← to_digit b; Some (16 * hi + lo)%N.

(** [str::from_utf8] on two bytes: two ASCII bytes or one two-byte character. *)
Definition from_utf8_pair (a b : byte) : bool :=
  let x := Byte.to_N a in
  let y := Byte.to_N b in
  ((x <? 128)%N && (y <? 128)%N)
  || ((194 <=? x)%N && (x <=? 223)%N && (128 <=? y)%N && (y <=? 191)%N).

Fixpoint digest_chunks (value : bytes) : result ValidationError bytes :=
  match value with
  | a :: b :: rest =>
      if negb (from_utf8_pair a b)
      then Err (InvalidState "content digest is not valid UTF-8 hexadecimal")
      else
      let? n := ok_or (from_str_radix_16 a b)
                  (InvalidState "content digest contains a non-hexadecimal character") in
      let? ns := digest_chunks rest in
      Ok (byte_of_N n :: ns)
  | _ => Ok []
  end.

Definition digest_of_bytes (bs : bytes) : option ContentDigest :=
  match (length bs =? 32)%nat as b return (length bs =? 32)%nat = b → option ContentDigest with
  | true => λ H, Some (MkContentDigest bs H)
  | false => λ _, None
  end eq_refl.

(** The text is given by its bytes.  The 64 bytes give 32 chunks, so the array is
    filled exactly (lemma [digest_chunks_length]). *)
Definition ContentDigest_from_str (value : bytes) : result ValidationError ContentDigest :=
  if negb (length value =? 64)%nat
  then Err (InvalidState "content digest must contain 64 hexadecimal characters")
  else
  let? bs := digest_chunks value in
  ok_or (digest_of_bytes bs) (InvalidState "content digest must contain 64 hexadecimal characters").

(** ** Sources and content *)

Inductive SourceKind :=
  | SourceConversation
  | SourceDocument
  | SourceImage
  | SourceAudio
  | SourceVideo
  | SourceTool
  | SourceApi
  | SourceGit
  | SourceSensor
  | SourceImport
  | SourceOther (label : string).

Record Source := MkSource {
  source_id : SourceId;
  source_workspace_id : WorkspaceId;
  source_kind : SourceKind;
  native_locator : string;
  owner_actor : option ActorId;
  owner_subject : option MemorySubjectId;
  source_trust_class : TrustClass;
  ingestion_policy : PolicyId;
  content_fingerprint : option ContentDigest;
}.

Definition Source_validate (s : Source) : ValidationResult :=
  try? (match source_kind s with
        | SourceOther label => validate_non_blank label "source.kind"
        | _ => Ok tt
        end) in
  validate_non_blank (native_locator s) "source.native_locator".

Record StreamPosition := MkStreamPosition {
  stream_id : StreamId;
  ordinal : N;
  native_revision : option string;
  wall_time : option TimestampMicros;
}.

Definition StreamPosition_validate (p : StreamPosition) : ValidationResult :=
  match native_revision p with
  | Some revision => validate_non_blank revision "stream.native_revision"
  | None => Ok tt
  end.

Inductive Modality :=
  | ModalityText
  | ModalityImage
  | ModalityAudio
  | ModalityVideo
  | ModalityStructured
  | ModalityCode
  | ModalitySensor
  | ModalityOther (label : string).

Inductive ContentEncoding :=
  | EncodingUtf8
  | EncodingBinary
  | EncodingJson
  | EncodingOther (label : string).

Inductive Compression :=
  | CompressionNone
  | CompressionGzip
  | CompressionZstd
  | CompressionOther (label : string).

Record ContentBlock := MkContentBlock {
  block_id : ContentBlockId;
  block_media_type : string;
  encoding : ContentEncoding;
  compression : Compression;
  byte_length : N;
  blob_locator : string;
  block_content_hash : ContentDigest;
}.

Definition validate_other_label (e : ContentEncoding) (field : string) : ValidationResult :=
  match e with
  | EncodingOther label => validate_non_blank label field
  | _ => Ok tt
  end.

Definition validate_compression (c : Compression) : ValidationResult :=
  match c with
  | CompressionOther label => validate_non_blank label "content_block.compression"
  | _ => Ok tt
  end.

Definition ContentBlock_validate (b : ContentBlock) : ValidationResult :=
  try? validate_non_blank (block_media_type b) "content_block.media_type" in
  try? validate_non_blank (blob_locator b) "content_block.blob_locator" in
  try? validate_other_label (encoding b) "content_block.encoding" in
  validate_compression (compression b).

Record Artifact := MkArtifact {
  artifact_id : ArtifactId;
  artifact_source_id : SourceId;
  modality : Modality;
  artifact_media_type : string;
  artifact_native_locator : option string;
  content_blocks : NonEmptyVec ContentBlockId;
  artifact_content_hash : ContentDigest;
  created_at : option TimestampMicros;
  ingested_at : TimestampMicros;
  artifact_envelope : SemanticEnvelope;
}.

Definition Artifact_validate (a : Artifact) : ValidationResult :=
  try? validate_non_blank (artifact_media_type a) "artifact.media_type" in
  try? (match artifact_native_locator a with
        | Some locator => validate_non_blank locator "artifact.native_locator"
        | None => Ok tt
        end) in
  try? (match modality a with
        | ModalityOther label => validate_non_blank label "artifact.modality"
        | _ => Ok tt
        end) in
  SemanticEnvelope_validate (artifact_envelope a).

(** ** Evidence *)

Inductive EvidenceSelector :=
  | Whole
  | ByteRange (start end_ : N)
  | CharacterRange (start end_ : N)
  | JsonPointer (pointer : string)
  | LineRange (start_line start_column end_line end_column : N)
  | DocumentHeading (path : NonEmptyVec string)
  | AstNode (language node_path : string)
  | GitDiffHunk (path : string) (old_start new_start : N)
  | ImageRegion (x y width height : N)
  | MediaTimeRange (start_millis end_millis : N)
  | SpeakerSegment (speaker : string) (start_millis end_millis : N)
  | ToolResultField (json_pointer : string)
  | SensorInterval (interval : TimeRange).

Definition require_ordered (start end_ : N) (reason : string) : ValidationResult :=
  if (end_ <=? start)%N then Err (InvalidEvidenceSelector reason) else Ok tt.

Definition validate_pointer (pointer : string) : ValidationResult :=
  if bool_decide (str_bytes pointer = []) || negb (starts_with [x2f] (str_bytes pointer))
  then Err (InvalidEvidenceSelector "JSON Pointer must start with '/'")
  else Ok tt.

Definition EvidenceSelector_validate (s : EvidenceSelector) : ValidationResult :=
  match s with
  | Whole => Ok tt
  | ByteRange start end_ | CharacterRange start end_ =>
      require_ordered start end_ "range must be non-empty"
  | JsonPointer pointer | ToolResultField pointer => validate_pointer pointer
  | LineRange start_line start_column end_line end_column =>
      if (start_line =? 0)%N || (end_line =? 0)%N
         || kleb (end_line, end_column) (start_line, start_column)
      then Err (InvalidEvidenceSelector "line range must use one-based lines and be non-empty")
      else Ok tt
  | DocumentHeading path =>
      for_each (λ heading, validate_non_blank heading "selector.heading") (into_vec path)
  | AstNode language node_path =>
      try? validate_non_blank language "selector.language" in
      validate_non_blank node_path "selector.node_path"
  | GitDiffHunk path _ _ => validate_non_blank path "selector.path"
  | ImageRegion _ _ width height =>
      if (width =? 0)%N || (height =? 0)%N
      then Err (InvalidEvidenceSelector "image region must have positive width and height")
      else Ok tt
  | MediaTimeRange start_millis end_millis =>
      require_ordered start_millis end_millis "media range must be non-empty"
  | SpeakerSegment speaker start_millis end_millis =>
      try? validate_non_blank speaker "selector.speaker" in
      require_ordered start_millis end_millis "speaker range must be non-empty"
  | SensorInterval interval => TimeRange_validate interval
  end.

#[export] Instance EvidenceSelector_eq_dec : EqDecision EvidenceSelector.
Proof. solve_decision. Defined.

Record EvidenceSpan := MkEvidenceSpan {
  span_id : EvidenceId;
  span_observation_id : ObservationId;
  span_artifact_id : option ArtifactId;
  content_block_id : ContentBlockId;
  selector : EvidenceSelector;
  quote_hash : ContentDigest;
  extracted_text : option string;
  span_trust : TrustClass;
  span_derivation : option DerivationRef;
}.

Definition EvidenceSpan_validate (s : EvidenceSpan) : ValidationResult :=
  try? EvidenceSelector_validate (selector s) in
  if match extracted_text s with Some text => bool_decide (text = "") | None => false end
  then Err (BlankText "evidence.extracted_text")
  else
  match span_derivation s with
  | Some derivation => DerivationRef_validate derivation
  | None => Ok tt
  end.

(** ** Observations and episodes *)

Record ObservationUnit := MkObservationUnit {
  observation_id : ObservationId;
  observation_workspace_id : WorkspaceId;
  memory_spaces : NonEmptyVec MemorySpaceId;
  observation_source_id : SourceId;
  stream_position : option StreamPosition;
  participants : NonEmptyVec ActorId;
  occurred_at : TimeRange;
  observed_at : TimestampMicros;
  recorded_at : TimestampMicros;
  artifact_refs : list ArtifactId;
  content_block_refs : list ContentBlockId;
  observation_content_hash : ContentDigest;
  observation_envelope : SemanticEnvelope;
}.

Definition ObservationUnit_validate (o : ObservationUnit) : ValidationResult :=
  if is_empty (artifact_refs o) && is_empty (content_block_refs o)
  then Err MissingObservationContent
  else
  try? TimeRange_validate (occurred_at o) in
  try? (match stream_position o with
        | Some position => StreamPosition_validate position
        | None => Ok tt
        end) in
  SemanticEnvelope_validate (observation_envelope o).

Definition ObservationUnit_try_new (value : ObservationUnit) : result ValidationError ObservationUnit :=
  try? ObservationUnit_validate value in Ok value.

Inductive EpisodeBoundary :=
  | SourceNative
  | TurnPair
  | Topic
  | TaskPhase
  | TemporalGap
  | ToolCallResult
  | BoundaryCheckpoint
  | BoundaryExplicit
  | ModelAssisted (pipeline : PipelineIdentity).

Record EpisodeView := MkEpisodeView {
  episode_id : EpisodeViewId;
  episode_revision : RevisionNumber;
  episode_workspace_id : WorkspaceId;
  observation_ids : NonEmptyVec ObservationId;
  episode_occurred_at : TimeRange;
  episode_transaction_time : CommitRange;
  boundary : EpisodeBoundary;
  episode_envelope : SemanticEnvelope;
}.

Definition EpisodeView_validate (v : EpisodeView) : ValidationResult :=
  try? TimeRange_validate (episode_occurred_at v) in
  try? CommitRange_validate (episode_transaction_time v) in
  try? (match boundary v with
        | ModelAssisted pipeline => PipelineIdentity_validate pipeline
        | _ => Ok tt
        end) in
  let observations : gset ObservationId := list_to_set (into_vec (observation_ids v)) in
  if negb (size observations =? length (into_vec (observation_ids v)))%nat
  then Err (DuplicateIdentifier "episode_view.observation_ids")
  else SemanticEnvelope_validate (episode_envelope v).

(** ** Lemmas *)

Lemma hex_byte_parse b :
  ∃ x y, hex_byte b = [x; y] ∧ from_utf8_pair x y = true ∧ from_str_radix_16 x y = Some (Byte.to_N b).
Proof. eexists _, _. split; [reflexivity|]. destruct b; vm_compute; split; reflexivity. Qed.

Lemma digest_chunks_hex bs : digest_chunks (mjoin (hex_byte <$> bs)) = Ok bs.
Proof.
  induction bs as [|b bs IH]; [done|]. rewrite fmap_cons. change (mjoin (hex_byte b :: (hex_byte <$> bs)))
    with (hex_byte b ++ mjoin (hex_byte <$> bs)).
  destruct (hex_byte_parse b) as (x & y & -> & Hu & Hr). cbn [app digest_chunks].
  rewrite Hu, Hr. cbn [negb ok_or result_bind]. rewrite IH. cbn [result_bind].
  by rewrite byte_of_N_to_N.
Qed.

Lemma length_hex bs : length (mjoin (hex_byte <$> bs)) = (2 * length bs)%nat.
Proof.
  induction bs as [|b bs IH]; [done|]. rewrite fmap_cons. change (mjoin (hex_byte b :: (hex_byte <$> bs)))
    with (hex_byte b ++ mjoin (hex_byte <$> bs)). rewrite length_app, IH. simpl. lia.
Qed.

Lemma digest_of_bytes_Some d : digest_of_bytes (digest_bytes d) = Some d.
Proof.
  unfold digest_of_bytes. generalize (eq_refl (length (digest_bytes d) =? 32)%nat).
  generalize (length (digest_bytes d) =? 32)%nat at 2 3. intros [] H.
  - f_equal. by apply ContentDigest_inj.
  - exfalso. pose proof (digest_length d). congruence.
Qed.

Lemma digest_chunks_length n value bs :
  length value = (2 * n)%nat → digest_chunks value = Ok bs → length bs = n.
Proof.
  revert n bs; induction value as [value IH] using (induction_ltof1 _ length); unfold ltof in IH.
  destruct value as [|a [|b rest]]; intros n bs Hlen; simpl.
  - intros [= <-]. simpl in Hlen. simpl. lia.
  - simpl in Hlen. lia.
  - destruct (from_utf8_pair a b); simpl; [|done]. destruct (from_str_radix_16 a b); simpl; [|done].
    intros (ns & Hns & [= <-])%result_bind_Ok. simpl in *. destruct n as [|n]; [lia|].
    f_equal. eapply IH; [|..|exact Hns]; lia.
Qed.

(** A text of digits that all have the sign or leading zero [c]. *)
Lemma digest_chunks_prefixed c ds :
  (∀ b n, to_digit b = Some n → from_utf8_pair c b = true ∧ from_str_radix_16 c b = Some n) →
  Forall (λ b, ∃ n, to_digit b = Some n) ds →
  digest_chunks (mjoin ((λ b, [c; b]) <$> ds)) = Ok (byte_of_N ∘ default 0%N ∘ to_digit <$> ds) ∧
  length (mjoin ((λ b, [c; b]) <$> ds)) = (2 * length ds)%nat.
Proof.
  intros Hc. induction 1 as [|b ds [n Hn] _ [IH1 IH2]]; [done|]. rewrite !fmap_cons.
  change (mjoin ([c; b] :: ((λ b, [c; b]) <$> ds))) with (c :: b :: mjoin ((λ b, [c; b]) <$> ds)).
  destruct (Hc b n Hn) as [Hu Hr]. split.
  - cbn [digest_chunks]. rewrite Hu, Hr. cbn [negb ok_or result_bind]. rewrite IH1.
    cbn [result_bind]. unfold compose. by rewrite Hn.
  - cbn [length]. rewrite IH2. lia.
Qed.

(** ** Properties *)

(** a digest parses back from its text form, and parsing accepts only texts
    of 64 bytes. *)
Theorem digest_text_roundtrip d :
  ContentDigest_from_str (ContentDigest_to_string d) = Ok d ∧
  length (ContentDigest_to_string d) = 64%nat ∧
  ∀ value, length value ≠ 64%nat →
    ContentDigest_from_str value
      = Err (InvalidState "content digest must contain 64 hexadecimal characters").
Proof.
  assert (length (ContentDigest_to_string d) = 64%nat) as Hlen.
  { unfold ContentDigest_to_string. rewrite length_hex.
    pose proof (digest_length d) as Hl. apply Nat.eqb_eq in Hl. lia. }
  split_and!; [|done|].
  - unfold ContentDigest_from_str. rewrite Hlen. cbn [negb Nat.eqb].
    unfold ContentDigest_to_string. rewrite digest_chunks_hex. cbn [result_bind].
    by rewrite digest_of_bytes_Some.
  - intros value Hne. unfold ContentDigest_from_str.
    by rewrite (proj2 (Nat.eqb_neq _ _)).
Qed.

(** the parser accepts texts that are not hexadecimal: each pair of bytes may
    be a plus sign and one digit, and such a text gives the same digest as the
    text with a zero in its place. *)
Theorem digest_accepts_plus_signs (ds : list byte) :
  length ds = 32%nat → Forall (λ b, ∃ n, to_digit b = Some n) ds →
  ∃ d, ContentDigest_from_str (mjoin ((λ b, [x2b; b]) <$> ds)) = Ok d ∧
       ContentDigest_from_str (mjoin ((λ b, [x30; b]) <$> ds)) = Ok d.
Proof.
  intros Hlen Hds. set (bs := byte_of_N ∘ default 0%N ∘ to_digit <$> ds).
  assert ((length bs =? 32)%nat = true) as Hbs by (unfold bs; by rewrite length_fmap, Hlen).
  exists (MkContentDigest bs Hbs).
  pose proof (digest_of_bytes_Some (MkContentDigest bs Hbs)) as Hd. simpl in Hd.
  destruct (digest_chunks_prefixed x2b ds) as [Hc1 Hl1]; [|done|].
  { intros b n Hn. split; [|done]. by destruct b. }
  destruct (digest_chunks_prefixed x30 ds) as [Hc2 Hl2]; [|done|].
  { intros b n. by destruct b; simpl; intros [= <-]. }
  fold bs in Hc1, Hc2. unfold ContentDigest_from_str. rewrite Hl1, Hl2, Hlen, Hc1, Hc2.
  cbn [result_bind]. by rewrite Hd.
Qed.

Lemma digest_accepts_plus_signs_witness :
  ∃ d, ContentDigest_from_str (mjoin ((λ b, [x2b; b]) <$> replicate 32 x66)) = Ok d ∧
       ContentDigest_from_str (mjoin ((λ b, [x30; b]) <$> replicate 32 x66)) = Ok d.
Proof.
  apply (digest_accepts_plus_signs (replicate 32 x66)); [reflexivity|].
  apply Forall_replicate. exists 15%N. reflexivity.
Defined.
