(* ===== verification/Semantic.v ===== *)
(** * Semantic nodes, claims, edges and conflicts (crate contextdb-core, semantic.rs)

    Stable identities with bitemporal revision chains, predicate definitions and
    the checks over them.  Floating-point fields are IEEE numbers of their format.
    [serde_json::Value] is a parameter: the class [JsonValue] holds its type, its
    equality test and [is_object]. *)

From Stdlib Require Import Floats.SpecFloat.
From S2P Require Import Prelude.
From S2P Require Import Ordering.
From S2P Require Import Bytes.
From S2P Require Import Ieee.
From S2P Require Import CoreBase.
From S2P Require Import Provenance.
From S2P Require Import Policy.
From S2P Require Import Identity.
From S2P Require Import Evidence.

Class JsonValue := {
  Value : Type;
  value_eqb : Value → Value → bool;
  is_object : Value → bool;
}.

(** ** Floating point *)

(** [!value.is_finite() || !(0.0..=1.0).contains(&value)], negated. *)
Definition unit_interval (x : f32) : bool :=
  sf_is_finite (f32_val x)
  && (SFleb (f32_val f32_zero) (f32_val x) && SFleb (f32_val x) (f32_val f32_one)).

Definition validate_unit (field : string) (x : f32) : ValidationResult :=
  if negb (unit_interval x) then Err (InvalidNumber field) else Ok tt.

Definition validate_f64 (value : f64) (field : string) : ValidationResult :=
  if negb (sf_is_finite (f64_val value)) then Err (InvalidNumber field) else Ok tt.

(** ** Nodes *)

Inductive NodeType :=
  | NodeActor
  | NodeEntity
  | NodeConcept
  | NodeEvent
  | NodeClaim
  | NodeRelationship
  | NodePreference
  | NodeBoundary
  | NodeGoal
  | NodeCommitment
  | NodeDecision
  | NodeProcedure
  | NodeEpisode
  | NodeArtifact
  | NodeCorrection
  | NodeConflict
  | NodeReflection
  | NodeSharedReference
  | NodeSelfModel
  | NodeOpenLoop
  | NodeUnknown
  | NodeDomain (pack name : string).

#[export] Instance NodeType_eq_dec : EqDecision NodeType.
Proof. solve_decision. Defined.

Definition NodeType_validate (t : NodeType) : ValidationResult :=
  match t with
  | NodeDomain pack name =>
      try? validate_non_blank pack "node_type.pack" in
      validate_non_blank name "node_type.name"
  | _ => Ok tt
  end.

Inductive IdentityState :=
  | Canonical
  | Ambiguous
  | Redirected
  | IdentitySplit
  | Retired.

Record Node := MkNode {
  node_id : NodeId;
  node_workspace_id : WorkspaceId;
  node_type : NodeType;
  node_created_seq : CommitSeq;
  retired_seq : option CommitSeq;
  identity_state : IdentityState;
  primary_scope : ScopeRef;
}.

Definition Node_validate (n : Node) : ValidationResult :=
  try? NodeType_validate (node_type n) in
  try? ScopeRef_validate (primary_scope n) in
  if match retired_seq n with Some retired => (retired <? node_created_seq n)%N | None => false end
  then Err (InvalidState "node retired before it was created")
  else Ok tt.

Inductive EpistemicBasis :=
  | BasisObservation
  | BasisActorAssertion
  | BasisModelInference
  | BasisDeterministicDerivation
  | BasisHumanAdjudication
  | BasisHypothesis.

#[export] Instance EpistemicBasis_eq_dec : EqDecision EpistemicBasis.
Proof. solve_decision. Defined.

Definition basis_label (b : EpistemicBasis) : string :=
  match b with
  | BasisObservation => "observation"
  | BasisActorAssertion => "actor_assertion"
  | BasisModelInference => "model_inference"
  | BasisDeterministicDerivation => "deterministic_derivation"
  | BasisHumanAdjudication => "human_adjudication"
  | BasisHypothesis => "hypothesis"
  end.

Inductive AcceptanceState :=
  | Proposed
  | AcceptanceValidated
  | Accepted
  | Consolidated
  | AcceptanceRejected.

Definition is_published (a : AcceptanceState) : bool :=
  match a with
  | Accepted | Consolidated => true
  | _ => false
  end.

Inductive ConflictState :=
  | ConflictNone
  | Disputed
  | InConflict (set_id : ConflictSetId)
  | ConflictResolved (set_id : ConflictSetId).

Definition conflict_set_id (c : ConflictState) : option ConflictSetId :=
  match c with
  | InConflict id | ConflictResolved id => Some id
  | ConflictNone | Disputed => None
  end.

Inductive LifecycleState :=
  | LifecycleActive
  | Historical
  | Superseded
  | Retracted
  | Suppressed
  | LifecycleDeleted.

#[export] Instance LifecycleState_eq_dec : EqDecision LifecycleState.
Proof. solve_decision. Defined.

Record EpistemicState := MkEpistemicState {
  basis : EpistemicBasis;
  acceptance : AcceptanceState;
  conflict : ConflictState;
  lifecycle : LifecycleState;
}.

Record ConfidenceProfile := MkConfidenceProfile {
  overall : f32;
  source_trust : f32;
  extraction_quality : f32;
  corroboration : f32;
}.

Definition ConfidenceProfile_validate (c : ConfidenceProfile) : ValidationResult :=
  for_each (λ fv, validate_unit fv.1 fv.2)
    [("confidence.overall", overall c);
     ("confidence.source_trust", source_trust c);
     ("confidence.extraction_quality", extraction_quality c);
     ("confidence.corroboration", corroboration c)].

Definition validate_semantic_support (b : EpistemicBasis) (evidence : list EvidenceId)
    (envelope : SemanticEnvelope) : ValidationResult :=
  if is_empty evidence
     && negb (match b with BasisActorAssertion | BasisHypothesis => true | _ => false end)
  then Err (MissingEvidence (basis_label b))
  else if bool_decide (b = BasisActorAssertion)
          && negb (bool_decide (derivation_kind (derivation envelope) = ActorAssertion))
  then Err InvalidAssertionDerivation
  else Ok tt.

(** ** Revision chains *)

(** The [TransactionRevision] trait. *)
Class TransactionRevision (T : Type) := {
  validate_revision : T → ValidationResult;
  revision_number : T → RevisionNumber;
  transaction_interval : T → CommitRange;
}.

(** The first loop: every revision validates and is numbered from [index + 1]. *)
Fixpoint check_numbers `{TransactionRevision T} (index : N) (revisions : list T) : ValidationResult :=
  match revisions with
  | [] => Ok tt
  | revision :: rest =>
      try? validate_revision revision in
      let? expected := ok_or (try_from_max U32_MAX (index + 1)) InvalidRevisionSequence in
      if negb (revision_number revision =? expected)%N then Err InvalidRevisionSequence
      else check_numbers (index + 1) rest
  end.

(** The two nested loops over pairs. *)
Fixpoint check_intervals `{TransactionRevision T} (revisions : list T) : ValidationResult :=
  match revisions with
  | [] => Ok tt
  | l :: rest =>
      try? for_each (λ r,
             if CommitRange_overlaps (transaction_interval l) (transaction_interval r)
             then Err OverlappingTransactionIntervals else Ok tt) rest in
      check_intervals rest
  end.

Definition validate_revision_chain `{TransactionRevision T} (revisions : list T) : ValidationResult :=
  if is_empty revisions then Err (EmptyCollection "revisions")
  else
  try? check_numbers 0 revisions in
  check_intervals revisions.

Section values.
Context `{JsonValue}.

Record NodeRevision := MkNodeRevision {
  nr_node_id : NodeId;
  nr_revision : RevisionNumber;
  nr_temporal : BitemporalRange;
  canonical_name : string;
  nr_attributes : gmap string Value;
  nr_epistemic : EpistemicState;
  nr_confidence : ConfidenceProfile;
  nr_evidence : list EvidenceId;
  nr_envelope : SemanticEnvelope;
}.

Definition NodeRevision_validate (r : NodeRevision) : ValidationResult :=
  try? BitemporalRange_validate (nr_temporal r) in
  try? validate_non_blank (canonical_name r) "node.canonical_name" in
  try? for_each (λ k, validate_non_blank k "node.attribute") (bt_keys (nr_attributes r)) in
  try? ConfidenceProfile_validate (nr_confidence r) in
  try? validate_for_target (nr_envelope r) (LineageNodeRevision (nr_node_id r) (nr_revision r)) in
  validate_semantic_support (basis (nr_epistemic r)) (nr_evidence r) (nr_envelope r).

#[export] Instance NodeRevision_TransactionRevision : TransactionRevision NodeRevision := {|
  validate_revision := NodeRevision_validate;
  revision_number := nr_revision;
  transaction_interval := λ r, transaction_time (nr_temporal r);
|}.

Record NodeRecord := MkNodeRecord {
  node : Node;
  node_revisions : NonEmptyVec NodeRevision;
}.

Definition NodeRecord_validate (r : NodeRecord) : ValidationResult :=
  try? Node_validate (node r) in
  if existsb (λ v, negb (bool_decide (nr_node_id v = node_id (node r)))) (into_vec (node_revisions r))
  then Err (InvalidState "node revision belongs to another node")
  else validate_revision_chain (into_vec (node_revisions r)).

Inductive AliasKind :=
  | AliasExact
  | NativeIdentifier
  | Nickname
  | Abbreviation
  | HistoricalName
  | ModelProposed
  | AliasOther (label : string).

Record Alias := MkAlias {
  alias_id : AliasId;
  alias_node_id : NodeId;
  normalized : string;
  original : string;
  alias_kind : AliasKind;
  alias_valid_time : TimeRange;
  alias_transaction_time : CommitRange;
  alias_confidence : ConfidenceProfile;
  alias_evidence : list EvidenceId;
  alias_envelope : SemanticEnvelope;
}.

Definition Alias_validate (a : Alias) : ValidationResult :=
  try? validate_non_blank (normalized a) "alias.normalized" in
  try? validate_non_blank (original a) "alias.original" in
  try? (match alias_kind a with
        | AliasOther label => validate_non_blank label "alias.kind"
        | _ => Ok tt
        end) in
  try? TimeRange_validate (alias_valid_time a) in
  try? CommitRange_validate (alias_transaction_time a) in
  try? ConfidenceProfile_validate (alias_confidence a) in
  try? SemanticEnvelope_validate (alias_envelope a) in
  if is_empty (alias_evidence a) && match alias_kind a with ModelProposed => true | _ => false end
  then Err (MissingEvidence "model_proposed_alias")
  else Ok tt.

(** ** Predicates and claims *)

Inductive ValueType :=
  | TypeNode
  | TypeString
  | TypeInteger
  | TypeFloat
  | TypeBoolean
  | TypeTimestamp
  | TypeTimeRange
  | TypeQuantity
  | TypeUri
  | TypeCodeLocation
  | TypeStructured.

#[export] Instance ValueType_eq_dec : EqDecision ValueType.
Proof. solve_decision. Defined.

Inductive Cardinality :=
  | RequiredSingle
  | OptionalSingle
  | CardinalitySet
  | CardinalityList.

Definition is_single (c : Cardinality) : bool :=
  match c with
  | RequiredSingle | OptionalSingle => true
  | _ => false
  end.

Inductive TemporalMode := Atemporal | Point | Interval | Bitemporal.
Inductive ConflictPolicy := AllowCoexistence | RequireConflictSet | PolicyTemporalTransition | PolicyReject.
Inductive Transitivity := NotTransitive | Transitively | Symmetrically | TransitiveAndSymmetric.
Inductive SecurityPropagation := InheritStrictest | InheritSource | InheritTarget | ExplicitOnly.

(** The domain is kept as the elements of its set in order. *)
Record PredicateDefinition := MkPredicateDefinition {
  predicate_id : PredicateId;
  predicate_name : string;
  predicate_domain : list NodeType;
  predicate_range : ValueType;
  cardinality : Cardinality;
  temporal_mode : TemporalMode;
  inverse : option PredicateId;
  transitivity : Transitivity;
  conflict_policy : ConflictPolicy;
  default_traversal_weight : f32;
  security_propagation : SecurityPropagation;
  predicate_version : RevisionNumber;
}.

Definition PredicateDefinition_validate (p : PredicateDefinition) : ValidationResult :=
  try? validate_non_blank (predicate_name p) "predicate.name" in
  if is_empty (predicate_domain p) then Err (EmptyCollection "predicate.domain")
  else
  try? for_each NodeType_validate (predicate_domain p) in
  validate_unit "predicate.default_traversal_weight" (default_traversal_weight p).

Inductive ClaimObject :=
  | ObjectNode (id : NodeId)
  | ObjectString (s : string)
  | ObjectInteger (n : Z)
  | ObjectFloat (x : f64)
  | ObjectBoolean (b : bool)
  | ObjectTimestamp (t : TimestampMicros)
  | ObjectTimeRange (r : TimeRange)
  | ObjectQuantity (x : f64) (unit_ : string)
  | ObjectUri (uri : string)
  | ObjectCodeLocation (artifact : ArtifactId) (sel : EvidenceSelector)
  | ObjectStructured (v : Value).

Definition value_type (o : ClaimObject) : ValueType :=
  match o with
  | ObjectNode _ => TypeNode
  | ObjectString _ => TypeString
  | ObjectInteger _ => TypeInteger
  | ObjectFloat _ => TypeFloat
  | ObjectBoolean _ => TypeBoolean
  | ObjectTimestamp _ => TypeTimestamp
  | ObjectTimeRange _ => TypeTimeRange
  | ObjectQuantity _ _ => TypeQuantity
  | ObjectUri _ => TypeUri
  | ObjectCodeLocation _ _ => TypeCodeLocation
  | ObjectStructured _ => TypeStructured
  end.

(** The derived [PartialEq]; floats compare as IEEE numbers. *)
Definition claim_object_eqb (a b : ClaimObject) : bool :=
  match a, b with
  | ObjectNode i, ObjectNode j => bool_decide (i = j)
  | ObjectString s, ObjectString t => bool_decide (s = t)
  | ObjectInteger m, ObjectInteger n => bool_decide (m = n)
  | ObjectFloat x, ObjectFloat y => SFeqb (f64_val x) (f64_val y)
  | ObjectBoolean x, ObjectBoolean y => Bool.eqb x y
  | ObjectTimestamp s, ObjectTimestamp t => bool_decide (s = t)
  | ObjectTimeRange r, ObjectTimeRange s => bool_decide (r = s)
  | ObjectQuantity x u, ObjectQuantity y v => SFeqb (f64_val x) (f64_val y) && bool_decide (u = v)
  | ObjectUri u, ObjectUri v => bool_decide (u = v)
  | ObjectCodeLocation i s, ObjectCodeLocation j t => bool_decide (i = j) && bool_decide (s = t)
  | ObjectStructured u, ObjectStructured v => value_eqb u v
  | _, _ => false
  end.

Definition ClaimObject_validate (o : ClaimObject) : ValidationResult :=
  match o with
  | ObjectString value => validate_non_blank value "claim.string"
  | ObjectFloat value => validate_f64 value "claim.float"
  | ObjectTimeRange value => TimeRange_validate value
  | ObjectQuantity value unit_ =>
      try? validate_f64 value "claim.quantity" in
      validate_non_blank unit_ "claim.quantity.unit"
  | ObjectUri uri => validate_non_blank uri "claim.uri"
  | ObjectCodeLocation _ sel => EvidenceSelector_validate sel
  | ObjectStructured _ | ObjectNode _ | ObjectInteger _ | ObjectBoolean _ | ObjectTimestamp _ => Ok tt
  end.

Record Claim := MkClaim {
  claim_id : ClaimId;
  claim_workspace_id : WorkspaceId;
  claim_subject : NodeId;
  claim_predicate : PredicateId;
  claim_created_seq : CommitSeq;
}.

Definition Claim_validate (_ : Claim) : ValidationResult := Ok tt.

Record ClaimRevision := MkClaimRevision {
  cr_claim_id : ClaimId;
  cr_revision : RevisionNumber;
  object : ClaimObject;
  cr_temporal : BitemporalRange;
  cr_epistemic : EpistemicState;
  cr_confidence : ConfidenceProfile;
  source_families : gset string;
  cr_evidence : list EvidenceId;
  supersedes : list ClaimId;
  cr_envelope : SemanticEnvelope;
}.

Definition is_current_published (r : ClaimRevision) : bool :=
  negb (bool_decide (is_Some (commit_end (transaction_time (cr_temporal r)))))
  && is_published (acceptance (cr_epistemic r))
  && bool_decide (lifecycle (cr_epistemic r) = LifecycleActive).

Definition ClaimRevision_validate (r : ClaimRevision) : ValidationResult :=
  try? ClaimObject_validate (object r) in
  try? BitemporalRange_validate (cr_temporal r) in
  try? ConfidenceProfile_validate (cr_confidence r) in
  try? for_each (λ f, validate_non_blank f "claim.source_family") (bt_elements (source_families r)) in
  try? validate_for_target (cr_envelope r) (LineageClaimRevision (cr_claim_id r) (cr_revision r)) in
  validate_semantic_support (basis (cr_epistemic r)) (cr_evidence r) (cr_envelope r).

#[export] Instance ClaimRevision_TransactionRevision : TransactionRevision ClaimRevision := {|
  validate_revision := ClaimRevision_validate;
  revision_number := cr_revision;
  transaction_interval := λ r, transaction_time (cr_temporal r);
|}.

Record ClaimRecord := MkClaimRecord {
  claim : Claim;
  claim_revisions : NonEmptyVec ClaimRevision;
}.

Definition ClaimRecord_validate (r : ClaimRecord) : ValidationResult :=
  try? Claim_validate (claim r) in
  if existsb (λ v, negb (bool_decide (cr_claim_id v = claim_id (claim r)))) (into_vec (claim_revisions r))
  then Err (InvalidState "claim revision belongs to another claim")
  else validate_revision_chain (into_vec (claim_revisions r)).

(** ** Edges *)

Inductive Directionality := Directed | Undirected.

#[export] Instance Directionality_eq_dec : EqDecision Directionality.
Proof. solve_decision. Defined.

Record Edge := MkEdge {
  edge_id : EdgeId;
  edge_workspace_id : WorkspaceId;
  edge_source : NodeId;
  edge_target : NodeId;
  edge_type : EdgeTypeId;
  directionality : Directionality;
  edge_created_seq : CommitSeq;
  materialized_from_claim : option ClaimId;
}.

Definition Edge_validate (e : Edge) : ValidationResult :=
  if bool_decide (edge_source e = edge_target e) && bool_decide (directionality e = Undirected)
  then Err (InvalidState "undirected self-edge has no traversal meaning")
  else Ok tt.

Record EdgeRevision := MkEdgeRevision {
  er_edge_id : EdgeId;
  er_revision : RevisionNumber;
  er_temporal : BitemporalRange;
  weight : f32;
  er_epistemic : EpistemicState;
  er_confidence : ConfidenceProfile;
  er_evidence : list EvidenceId;
  er_attributes : gmap string Value;
  er_envelope : SemanticEnvelope;
}.

Definition EdgeRevision_validate (r : EdgeRevision) : ValidationResult :=
  try? BitemporalRange_validate (er_temporal r) in
  try? validate_unit "edge.weight" (weight r) in
  try? ConfidenceProfile_validate (er_confidence r) in
  try? for_each (λ k, validate_non_blank k "edge.attribute") (bt_keys (er_attributes r)) in
  try? validate_for_target (er_envelope r) (LineageEdgeRevision (er_edge_id r) (er_revision r)) in
  validate_semantic_support (basis (er_epistemic r)) (er_evidence r) (er_envelope r).

#[export] Instance EdgeRevision_TransactionRevision : TransactionRevision EdgeRevision := {|
  validate_revision := EdgeRevision_validate;
  revision_number := er_revision;
  transaction_interval := λ r, transaction_time (er_temporal r);
|}.

Record EdgeRecord := MkEdgeRecord {
  edge : Edge;
  edge_revisions : NonEmptyVec EdgeRevision;
}.

Definition EdgeRecord_validate (r : EdgeRecord) : ValidationResult :=
  try? Edge_validate (edge r) in
  if existsb (λ v, negb (bool_decide (er_edge_id v = edge_id (edge r)))) (into_vec (edge_revisions r))
  then Err (InvalidState "edge revision belongs to another edge")
  else validate_revision_chain (into_vec (edge_revisions r)).

(** ** Conflict sets *)

Record ConflictSet := MkConflictSet {
  cs_id : ConflictSetId;
  cs_workspace_id : WorkspaceId;
  cs_subject : NodeId;
  cs_predicate : PredicateId;
  cs_scopes : NonEmptyVec ScopeRef;
  cs_created_seq : CommitSeq;
}.

Definition ConflictSet_validate (c : ConflictSet) : ValidationResult :=
  for_each ScopeRef_validate (into_vec (cs_scopes c)).

Inductive ConflictResolution :=
  | Unresolved
  | TemporalTransition
  | ScopedCoexistence
  | WinnerWithDissent (winner : ClaimId)
  | Corrected (replacement : ClaimId)
  | HumanAdjudicated (winner : option ClaimId).

Record ConflictSetRevision := MkConflictSetRevision {
  csr_conflict_set_id : ConflictSetId;
  csr_revision : RevisionNumber;
  csr_transaction_time : CommitRange;
  members : NonEmptyVec ClaimId;
  resolution : ConflictResolution;
  csr_evidence : list EvidenceId;
  csr_envelope : SemanticEnvelope;
}.

Definition declared_winner (r : ConflictResolution) : option ClaimId :=
  match r with
  | WinnerWithDissent winner | Corrected winner => Some winner
  | HumanAdjudicated winner => winner
  | Unresolved | TemporalTransition | ScopedCoexistence => None
  end.

Definition ConflictSetRevision_validate (r : ConflictSetRevision) : ValidationResult :=
  try? CommitRange_validate (csr_transaction_time r) in
  let member_set : gset ClaimId := list_to_set (into_vec (members r)) in
  if (size member_set <? 2)%nat || negb (size member_set =? length (into_vec (members r)))%nat
  then Err InvalidConflictSet
  else if match declared_winner (resolution r) with
          | Some winner => negb (bool_decide (winner ∈ member_set))
          | None => false
          end
  then Err InvalidConflictSet
  else
  try? validate_for_target (csr_envelope r)
         (LineageConflictRevision (csr_conflict_set_id r) (csr_revision r)) in
  if negb (match resolution r with Unresolved => true | _ => false end) && is_empty (csr_evidence r)
  then Err (MissingEvidence "conflict_resolution")
  else Ok tt.

#[export] Instance ConflictSetRevision_TransactionRevision : TransactionRevision ConflictSetRevision := {|
  validate_revision := ConflictSetRevision_validate;
  revision_number := csr_revision;
  transaction_interval := csr_transaction_time;
|}.

Record ConflictSetRecord := MkConflictSetRecord {
  conflict_set : ConflictSet;
  conflict_revisions : NonEmptyVec ConflictSetRevision;
}.

Definition ConflictSetRecord_validate (r : ConflictSetRecord) : ValidationResult :=
  try? ConflictSet_validate (conflict_set r) in
  if existsb (λ v, negb (bool_decide (csr_conflict_set_id v = cs_id (conflict_set r))))
       (into_vec (conflict_revisions r))
  then Err (InvalidState "conflict revision belongs to another conflict set")
  else validate_revision_chain (into_vec (conflict_revisions r)).

(** ** Candidates *)

Inductive CandidateType :=
  | CandidateNode
  | CandidateAlias
  | CandidateClaim
  | CandidateEdge
  | CandidateDecision
  | CandidateCommitment
  | CandidateProcedure
  | CandidatePreference
  | CandidateCorrection
  | CandidateOpenQuestion
  | CandidateHierarchyLabel
  | CandidateOther (label : string).

Inductive CandidateValidationState :=
  | Quarantined
  | CandidateValidated
  | CandidateRejected (errors : NonEmptyVec string)
  | Promoted (commit_seq : CommitSeq).

Inductive CandidateAdjudication :=
  | AdjudicationPending
  | AdjudicationAutomatic
  | HumanAccepted (actor : ActorId)
  | HumanRejected (actor : ActorId) (reason : string).

Record PromotionScore := MkPromotionScore {
  promotion_overall : f32;
  explicitness : f32;
  future_utility : f32;
  promotion_source_trust : f32;
  promotion_corroboration : f32;
  sensitivity_penalty : f32;
  ambiguity_penalty : f32;
}.

Definition PromotionScore_validate (p : PromotionScore) : ValidationResult :=
  for_each (λ fv, validate_unit fv.1 fv.2)
    [("promotion.overall", promotion_overall p);
     ("promotion.explicitness", explicitness p);
     ("promotion.future_utility", future_utility p);
     ("promotion.source_trust", promotion_source_trust p);
     ("promotion.corroboration", promotion_corroboration p);
     ("promotion.sensitivity_penalty", sensitivity_penalty p);
     ("promotion.ambiguity_penalty", ambiguity_penalty p)].

Record MemoryCandidate := MkMemoryCandidate {
  candidate_id : CandidateId;
  source_observations : NonEmptyVec ObservationId;
  candidate_type : CandidateType;
  candidate_payload : Value;
  evidence_spans : NonEmptyVec EvidenceId;
  candidate_pipeline : PipelineIdentity;
  candidate_model_call : option ModelCallId;
  validation_state : CandidateValidationState;
  promotion : PromotionScore;
  adjudication : CandidateAdjudication;
  candidate_envelope : SemanticEnvelope;
}.

Definition MemoryCandidate_validate (c : MemoryCandidate) : ValidationResult :=
  try? (match candidate_type c with
        | CandidateOther label => validate_non_blank label "candidate.type"
        | _ => Ok tt
        end) in
  if negb (is_object (candidate_payload c)) then Err InvalidCandidatePayload
  else
  try? PipelineIdentity_validate (candidate_pipeline c) in
  try? PromotionScore_validate (promotion c) in
  try? validate_for_target (candidate_envelope c) (LineageCandidate (candidate_id c)) in
  try? (match validation_state c with
        | CandidateRejected errors =>
            for_each (λ e, validate_non_blank e "candidate.error") (into_vec errors)
        | _ => Ok tt
        end) in
  match adjudication c with
  | HumanRejected _ reason => validate_non_blank reason "candidate.rejection_reason"
  | _ => Ok tt
  end.

Record ModelCall := MkModelCall {
  call_id : ModelCallId;
  call_purpose : string;
  provider : string;
  model : string;
  model_revision : option string;
  prompt_version : string;
  call_schema_version : string;
  input_hash : ContentDigest;
  output_hash : ContentDigest;
  input_tokens : option N;
  output_tokens : option N;
  latency_micros : N;
  external_processing_allowed : bool;
}.

Definition ModelCall_validate (c : ModelCall) : ValidationResult :=
  try? validate_non_blank (call_purpose c) "model_call.purpose" in
  try? validate_non_blank (provider c) "model_call.provider" in
  try? validate_non_blank (model c) "model_call.model" in
  try? validate_non_blank (prompt_version c) "model_call.prompt_version" in
  try? validate_non_blank (call_schema_version c) "model_call.schema_version" in
  match model_revision c with
  | Some revision => validate_non_blank revision "model_call.model_revision"
  | None => Ok tt
  end.

(** ** Checks across records *)

Definition validate_claim_against_predicate (p : PredicateDefinition) (subject_type : NodeType)
    (r : ClaimRevision) : ValidationResult :=
  try? PredicateDefinition_validate p in
  try? ClaimRevision_validate r in
  if negb (bool_decide (subject_type ∈ predicate_domain p))
     || negb (bool_decide (predicate_range p = value_type (object r)))
  then Err PredicateTypeMismatch
  else Ok tt.

Definition same_scope_signature (l r : list ScopeRef) : bool :=
  forallb (λ s, bool_decide (s ∈ r)) l && forallb (λ s, bool_decide (s ∈ l)) r.

(** The loop that collects the current published revisions of the predicate. *)
Fixpoint collect_active (p : PredicateDefinition) (records : list ClaimRecord)
    : result ValidationError (list (Claim * ClaimRevision)) :=
  match records with
  | [] => Ok []
  | record :: rest =>
      try? ClaimRecord_validate record in
      let? others := collect_active p rest in
      if negb (bool_decide (claim_predicate (claim record) = predicate_id p)) then Ok others
      else Ok (((λ v, (claim record, v)) <$>
                filter (λ v, is_current_published v) (into_vec (claim_revisions record))) ++ others)
  end.

Definition cardinality_clash (l r : Claim * ClaimRevision) : bool :=
  negb (negb (bool_decide (claim_subject l.1 = claim_subject r.1))
        || negb (same_scope_signature (into_vec (scopes (cr_envelope l.2)))
                   (into_vec (scopes (cr_envelope r.2))))
        || negb (TimeRange_overlaps (valid_time (cr_temporal l.2)) (valid_time (cr_temporal r.2)))
        || claim_object_eqb (object l.2) (object r.2)).

Definition shares_conflict_set (l r : Claim * ClaimRevision) : bool :=
  let left_set := conflict_set_id (conflict (cr_epistemic l.2)) in
  let right_set := conflict_set_id (conflict (cr_epistemic r.2)) in
  negb (negb (bool_decide (is_Some left_set)) || negb (bool_decide (left_set = right_set))).

Fixpoint check_cardinality (active : list (Claim * ClaimRevision)) : ValidationResult :=
  match active with
  | [] => Ok tt
  | l :: rest =>
      try? for_each (λ r,
             if cardinality_clash l r && negb (shares_conflict_set l r)
             then Err CardinalityConflictWithoutConflictSet else Ok tt) rest in
      check_cardinality rest
  end.

Definition validate_predicate_cardinality (p : PredicateDefinition) (records : list ClaimRecord)
    : ValidationResult :=
  try? PredicateDefinition_validate p in
  if negb (is_single (cardinality p)) then Ok tt
  else
  let? active := collect_active p records in
  check_cardinality active.
End values.

(** ** Revision chains: lemmas *)

Lemma check_numbers_Ok `{TransactionRevision T} n (rs : list T) :
  check_numbers n rs = Ok tt ↔
  ∀ i r, rs !! i = Some r →
    validate_revision r = Ok tt ∧ revision_number r = (n + N.of_nat i + 1)%N ∧
    (n + N.of_nat i + 1 ≤ U32_MAX)%N.
Proof.
  revert n; induction rs as [|r rs IH]; intros n; simpl; [done|].
  unfold try_from_max. split.
  - destruct (validate_revision r) as [[]|] eqn:Hv; simpl; [|done].
    destruct (N.leb_spec (n + 1) U32_MAX); simpl; [|done].
    destruct (N.eqb_spec (revision_number r) (n + 1)) as [Hn|]; simpl; [|done].
    intros Hk [|i] x; simpl.
    + intros [= <-]. split_and!; [done|lia|lia].
    + intros Hx. destruct (proj1 (IH (n + 1)%N) Hk i x Hx) as (? & ? & ?). split_and!; [done|lia|lia].
  - intros Hall. destruct (Hall 0%nat r eq_refl) as (-> & Hn & Hb). simpl.
    rewrite (proj2 (N.leb_le _ _)) by lia. simpl. rewrite (proj2 (N.eqb_eq _ _)) by lia. simpl.
    apply IH. intros i x Hx. destruct (Hall (S i) x Hx) as (? & ? & ?). split_and!; [done|lia|lia].
Qed.

Lemma check_intervals_Ok `{TransactionRevision T} (rs : list T) :
  check_intervals rs = Ok tt ↔
  ∀ i j a b, (i < j)%nat → rs !! i = Some a → rs !! j = Some b →
    CommitRange_overlaps (transaction_interval a) (transaction_interval b) = false.
Proof.
  induction rs as [|r rs IH]; simpl; [done|].
  assert (for_each (λ x, if CommitRange_overlaps (transaction_interval r) (transaction_interval x)
            then Err OverlappingTransactionIntervals else Ok tt) rs = Ok tt
          ↔ ∀ j b, rs !! j = Some b →
              CommitRange_overlaps (transaction_interval r) (transaction_interval b) = false) as Heach.
  { rewrite for_each_Ok, Forall_lookup. split; intros Hall j b Hb; specialize (Hall j b Hb);
      by destruct (CommitRange_overlaps _ _). }
  split.
  - intros Hc. res_inv. intros [|i] [|j] a b Hij Ha Hb; simpl in *; [lia| |lia|].
    + injection Ha as <-. by apply (proj1 Heach Hm j).
    + eapply (proj1 IH Hk i j); [lia|done|done].
  - intros Hall. rewrite (proj2 Heach); simpl.
    + apply IH. intros i j a b Hij Ha Hb. eapply (Hall (S i) (S j)); [lia|done|done].
    + intros j b Hb. eapply (Hall 0%nat (S j)); [lia|done|done].
Qed.

Lemma contains_overlaps a b c :
  CommitRange_contains a c = true → CommitRange_contains b c = true → CommitRange_overlaps a b = true.
Proof.
  rewrite !CommitRange_contains_true. unfold CommitRange_overlaps. intros [? Ha] [? Hb].
  destruct (commit_end a), (commit_end b); simpl; rewrite ?andb_true_iff, ?N.ltb_lt;
    try specialize (Ha _ eq_refl); try specialize (Hb _ eq_refl); split_and?; done || lia.
Qed.

(** ** Properties *)

(** in an accepted revision chain every revision validates, the [i]-th
    revision carries the number [i + 1] within 32 bits, and every snapshot sees at
    most one revision. *)
Theorem revision_chain_unambiguous `{TransactionRevision T} (rs : list T) :
  validate_revision_chain rs = Ok tt →
  (∀ i r, rs !! i = Some r →
     validate_revision r = Ok tt ∧ revision_number r = (N.of_nat i + 1)%N ∧
     (revision_number r ≤ U32_MAX)%N) ∧
  (∀ c i j a b, rs !! i = Some a → rs !! j = Some b →
     CommitRange_contains (transaction_interval a) c = true →
     CommitRange_contains (transaction_interval b) c = true → i = j).
Proof.
  unfold validate_revision_chain. intros Hv. destruct (is_empty rs); [done|]. res_inv. split.
  - intros i r Hr. destruct (proj1 (check_numbers_Ok 0 rs) Hm i r Hr) as (? & ? & ?).
    split_and!; [done|lia|lia].
  - pose proof (proj1 (check_intervals_Ok rs) Hk) as Hno.
    intros c i j a b Ha Hb Hca Hcb. destruct (Nat.lt_trichotomy i j) as [Hij|[Hij|Hij]]; [|done|].
    + pose proof (contains_overlaps _ _ _ Hca Hcb). rewrite (Hno i j a b Hij Ha Hb) in *. done.
    + pose proof (contains_overlaps _ _ _ Hcb Hca). rewrite (Hno j i b a Hij Hb Ha) in *. done.
Qed.

(** Values for the witnesses: a JSON type with one object, two conflict revisions. *)
Definition unit_json : JsonValue := {| Value := unit; value_eqb := λ _ _, true; is_object := λ _, true |}.
Definition second_claim : ClaimId := MkStableId (MkUuid 2 eq_refl) eq_refl.
Definition sample_conflict (n start : N) (end_ : option N) : ConflictSetRevision := {|
  csr_conflict_set_id := sample_id _;
  csr_revision := n;
  csr_transaction_time := MkCommitRange start end_;
  members := MkNonEmptyVec (sample_id _) [second_claim];
  resolution := Unresolved;
  csr_evidence := [];
  csr_envelope := sample_envelope;
|}.

Definition sample_chain : list ConflictSetRevision := [sample_conflict 1 0 (Some 5%N); sample_conflict 2 5 None].

Lemma revision_chain_unambiguous_witness :
  validate_revision_chain sample_chain = Ok tt ∧
  ∀ c i j a b, sample_chain !! i = Some a → sample_chain !! j = Some b →
    CommitRange_contains (transaction_interval a) c = true →
    CommitRange_contains (transaction_interval b) c = true → i = j.
Proof.
  split; [vm_compute; reflexivity|].
  apply (revision_chain_unambiguous sample_chain). vm_compute. reflexivity.
Defined.

Section cardinality.
Context `{JsonValue}.

Lemma collect_active_elem p records active c v :
  collect_active p records = Ok active →
  (c, v) ∈ active ↔
  ∃ record, record ∈ records ∧ claim record = c ∧ claim_predicate c = predicate_id p ∧
            v ∈ into_vec (claim_revisions record) ∧ is_current_published v = true.
Proof.
  revert active; induction records as [|x records IH]; intros active; simpl.
  - intros [= <-]. rewrite elem_of_nil. split; [done|]. by intros (? & ?%elem_of_nil & _).
  - intros Hc. res_inv. specialize (IH _ Hm0). case_bool_decide as Hp; simpl in Hk0; injection Hk0 as <-.
    + rewrite elem_of_app, IH, list_elem_of_fmap. setoid_rewrite list_elem_of_filter.
      setoid_rewrite Is_true_true. setoid_rewrite elem_of_cons. split.
      * intros [(w & [= -> ->] & Hpub & Hw)|(r & ? & ? & ? & ? & ?)]; [exists x|exists r]; naive_solver.
      * intros (r & [->|Hr] & <- & Hpr & Hv & Hpub); [left; eauto|right; eauto 10].
    + rewrite IH. setoid_rewrite elem_of_cons. split.
      * intros (r & ? & ?). eauto.
      * intros (r & [->|Hr] & <- & Hpr & ?); [done|eauto 10].
Qed.

Lemma check_cardinality_Ok active :
  check_cardinality active = Ok tt ↔
  ∀ i j a b, (i < j)%nat → active !! i = Some a → active !! j = Some b →
    cardinality_clash a b = true → shares_conflict_set a b = true.
Proof.
  induction active as [|x active IH]; simpl; [done|].
  assert (for_each (λ r, if cardinality_clash x r && negb (shares_conflict_set x r)
            then Err CardinalityConflictWithoutConflictSet else Ok tt) active = Ok tt
          ↔ ∀ j b, active !! j = Some b → cardinality_clash x b = true →
              shares_conflict_set x b = true) as Heach.
  { rewrite for_each_Ok, Forall_lookup. split; intros Hall j b Hb; specialize (Hall j b Hb);
      destruct (cardinality_clash x b), (shares_conflict_set x b); simpl in *; naive_solver. }
  split.
  - intros Hc. res_inv. intros [|i] [|j] a b Hij Ha Hb; simpl in *; [lia| |lia|].
    + injection Ha as <-. by apply (proj1 Heach Hm j).
    + eapply (proj1 IH Hk i j); [lia|done|done].
  - intros Hall. rewrite (proj2 Heach); simpl.
    + apply IH. intros i j a b Hij Ha Hb. eapply (Hall (S i) (S j)); [lia|done|done].
    + intros j b Hb. eapply (Hall 0%nat (S j)); [lia|done|done].
Qed.

Lemma shares_conflict_set_true a b :
  shares_conflict_set a b = true →
  ∃ s, conflict_set_id (conflict (cr_epistemic a.2)) = Some s ∧
       conflict_set_id (conflict (cr_epistemic b.2)) = Some s.
Proof.
  unfold shares_conflict_set. rewrite negb_true_iff, orb_false_iff, !negb_false_iff, !bool_decide_eq_true.
  intros [[s Hs] Heq]. exists s. by rewrite <- Heq.
Qed.

(** single-valued predicates.  When the check accepts a set of claim records
    for a single-valued predicate, any two current published revisions of it that
    have the same subject and scope signature, overlapping validity and different
    values are in one and the same conflict set. *)
Theorem cardinality_conflicts_are_declared p records :
  is_single (cardinality p) = true → validate_predicate_cardinality p records = Ok tt →
  ∃ active : list (Claim * ClaimRevision),
    (∀ c v, (c, v) ∈ active ↔
       ∃ record, record ∈ records ∧ claim record = c ∧ claim_predicate c = predicate_id p ∧
                 v ∈ into_vec (claim_revisions record) ∧ is_current_published v = true) ∧
    ∀ i j c1 v1 c2 v2, (i < j)%nat → active !! i = Some (c1, v1) → active !! j = Some (c2, v2) →
      claim_subject c1 = claim_subject c2 →
      same_scope_signature (into_vec (scopes (cr_envelope v1))) (into_vec (scopes (cr_envelope v2))) = true →
      TimeRange_overlaps (valid_time (cr_temporal v1)) (valid_time (cr_temporal v2)) = true →
      claim_object_eqb (object v1) (object v2) = false →
      ∃ s, conflict_set_id (conflict (cr_epistemic v1)) = Some s ∧
           conflict_set_id (conflict (cr_epistemic v2)) = Some s.
Proof.
  intros Hs Hv. unfold validate_predicate_cardinality in Hv. rewrite Hs in Hv. simpl in Hv. res_inv.
  exists a0. split; [intros c v; by apply collect_active_elem|].
  intros i j c1 v1 c2 v2 Hij Hi Hj Hsub Hsc Hov Hobj.
  apply (shares_conflict_set_true (c1, v1) (c2, v2)).
  eapply (proj1 (check_cardinality_Ok a0) Hk0 i j); [done..|].
  unfold cardinality_clash. simpl. by rewrite bool_decide_true, Hsc, Hov, Hobj.
Qed.
End cardinality.

(** Two claims with different values in one conflict set, for the witness. *)
#[local] Existing Instance unit_json.
Definition sample_confidence : ConfidenceProfile := MkConfidenceProfile f32_one f32_one f32_one f32_one.
Definition sample_predicate : PredicateDefinition := {|
  predicate_id := sample_id _; predicate_name := "lives_in"; predicate_domain := [NodeEntity];
  predicate_range := TypeString; cardinality := OptionalSingle; temporal_mode := Bitemporal;
  inverse := None; transitivity := NotTransitive; conflict_policy := RequireConflictSet;
  default_traversal_weight := f32_one; security_propagation := InheritStrictest;
  predicate_version := 1;
|}.
Definition sample_claim (i : ClaimId) (v : string) : ClaimRecord := {|
  claim := MkClaim i (sample_id _) (sample_id _) (sample_id _) 1;
  claim_revisions := NonEmptyVec_new {|
    cr_claim_id := i; cr_revision := 1; object := ObjectString v;
    cr_temporal := MkBitemporalRange (open_ended 0) (CommitRange_current 1);
    cr_epistemic := MkEpistemicState BasisObservation Accepted (InConflict (sample_id _)) LifecycleActive;
    cr_confidence := sample_confidence; source_families := ∅; cr_evidence := [sample_id _];
    supersedes := []; cr_envelope := sample_envelope |};
|}.

Lemma cardinality_conflicts_are_declared_witness :
  ∃ active : list (Claim * ClaimRevision),
    ∀ c v, (c, v) ∈ active ↔
       ∃ record, record ∈ [sample_claim (sample_id _) "Riga"; sample_claim second_claim "Vilnius"] ∧
                 claim record = c ∧ claim_predicate c = sample_id _ ∧
                 v ∈ into_vec (claim_revisions record) ∧ is_current_published v = true.
Proof.
  destruct (cardinality_conflicts_are_declared sample_predicate
    [sample_claim (sample_id _) "Riga"; sample_claim second_claim "Vilnius"]) as (active & Hel & _).
  - reflexivity.
  - vm_compute. reflexivity.
  - exists active. exact Hel.
Defined.
