(* ===== verification/MemoryTypes.v ===== *)
(** * Typed higher-level memories (crate contextdb-core, memory.rs)

    Preferences, boundaries, goals, commitments, procedures, relationships, shared
    references, self models, continuity profiles and interaction signals, each
    over the common revision header. *)

From S2P Require Import Prelude.
From S2P Require Import Ordering.
From S2P Require Import Bytes.
From S2P Require Import CoreBase.
From S2P Require Import Provenance.
From S2P Require Import Policy.
From S2P Require Import Identity.
From S2P Require Import Evidence.
From S2P Require Import Semantic.

Record MemoryRevisionHeader := MkMemoryRevisionHeader {
  mh_node_id : NodeId;
  mh_revision : RevisionNumber;
  mh_temporal : BitemporalRange;
  mh_epistemic : EpistemicState;
  mh_confidence : ConfidenceProfile;
  mh_evidence : list EvidenceId;
  mh_envelope : SemanticEnvelope;
}.

Definition validate_header (h : MemoryRevisionHeader) : ValidationResult :=
  try? BitemporalRange_validate (mh_temporal h) in
  try? ConfidenceProfile_validate (mh_confidence h) in
  try? validate_for_target (mh_envelope h) (LineageNodeRevision (mh_node_id h) (mh_revision h)) in
  validate_semantic_support (basis (mh_epistemic h)) (mh_evidence h) (mh_envelope h).

Inductive PreferenceStrength := Weak | Moderate | Strong | ExplicitRequirement.

Inductive BoundaryRule :=
  | DoNotStore
  | DoNotRetrieve
  | DoNotInfluence
  | DoNotMention
  | LocalOnly
  | RequireConfirmation
  | CustomRule (statement : string).

Inductive BoundarySeverity := SeverityPreference | SeverityRequired | SafetyCritical.

Record Boundary := MkBoundary {
  boundary_header : MemoryRevisionHeader;
  boundary_subject : MemorySubjectId;
  rule : BoundaryRule;
  applies_to : list MemorySubjectId;
  boundary_contexts : list ScopeRef;
  severity : BoundarySeverity;
}.

Definition Boundary_validate (b : Boundary) : ValidationResult :=
  try? validate_header (boundary_header b) in
  try? (match rule b with
        | CustomRule statement => validate_non_blank statement "boundary.statement"
        | _ => Ok tt
        end) in
  let applies : gset MemorySubjectId := list_to_set (applies_to b) in
  if negb (size applies =? length (applies_to b))%nat
  then Err (DuplicateIdentifier "boundary.applies_to")
  else for_each ScopeRef_validate (boundary_contexts b).

#[export] Instance Boundary_TransactionRevision : TransactionRevision Boundary := {|
  validate_revision := Boundary_validate;
  revision_number := λ v, mh_revision (boundary_header v);
  transaction_interval := λ v, transaction_time (mh_temporal (boundary_header v));
|}.

Inductive GoalStatus :=
  | GoalProposed | GoalActive | GoalPaused | GoalCompleted | GoalAbandoned | GoalBlocked.
Inductive GoalHorizon := Immediate | ShortTerm | MediumTerm | LongTerm | Unspecified.

Record Goal := MkGoal {
  goal_header : MemoryRevisionHeader;
  goal_owner : MemorySubjectId;
  goal_statement : string;
  goal_status : GoalStatus;
  horizon : GoalHorizon;
  related_nodes : list NodeId;
}.

Definition Goal_validate (g : Goal) : ValidationResult :=
  try? validate_header (goal_header g) in
  validate_non_blank (goal_statement g) "goal.statement".

#[export] Instance Goal_TransactionRevision : TransactionRevision Goal := {|
  validate_revision := Goal_validate;
  revision_number := λ v, mh_revision (goal_header v);
  transaction_interval := λ v, transaction_time (mh_temporal (goal_header v));
|}.

Inductive CommitmentStatus :=
  | CommitmentProposed | CommitmentActive | Fulfilled | Cancelled | Missed | CommitmentSuperseded.

Record ProcedureParameter := MkProcedureParameter {
  parameter_name : string;
  parameter_required : bool;
  parameter_description : string;
}.

Definition ProcedureParameter_validate (p : ProcedureParameter) : ValidationResult :=
  try? validate_non_blank (parameter_name p) "procedure.parameter.name" in
  validate_non_blank (parameter_description p) "procedure.parameter.description".

Record ProcedureStatistics := MkProcedureStatistics { successful_runs : N; failed_runs : N }.

Inductive RelationshipKind :=
  | UserAgent | Colleague | Family | Friend | OrganisationMembership | ProjectTeam | Fictional
  | RelationshipOther (label : string).

Record RelationshipState := MkRelationshipState {
  relationship_id : RelationshipStateId;
  relationship_header : MemoryRevisionHeader;
  relationship_participants : NonEmptyVec MemorySubjectId;
  relationship_kind : RelationshipKind;
  roles : gmap MemorySubjectId string;
  interaction_norms : list string;
  boundaries : list NodeId;
  shared_history_root : option NodeId;
}.

Definition RelationshipState_validate (r : RelationshipState) : ValidationResult :=
  try? validate_header (relationship_header r) in
  let members : gset MemorySubjectId := list_to_set (into_vec (relationship_participants r)) in
  if (size members <? 2)%nat
     || negb (size members =? length (into_vec (relationship_participants r)))%nat
  then Err (InvalidState "relationship requires at least two distinct participants")
  else
  try? (match relationship_kind r with
        | RelationshipOther label => validate_non_blank label "relationship.kind"
        | _ => Ok tt
        end) in
  if existsb (λ subject, negb (bool_decide (subject ∈ members))) (bt_keys (roles r))
  then Err (InvalidState "relationship role belongs to a non-participant")
  else
  try? for_each (λ role, validate_non_blank role "relationship.role") (bt_values (roles r)) in
  for_each (λ norm, validate_non_blank norm "relationship.norm") (interaction_norms r).

#[export] Instance RelationshipState_TransactionRevision : TransactionRevision RelationshipState := {|
  validate_revision := RelationshipState_validate;
  revision_number := λ v, mh_revision (relationship_header v);
  transaction_interval := λ v, transaction_time (mh_temporal (relationship_header v));
|}.

Record ModelRuntimeRef := MkModelRuntimeRef {
  runtime_provider : string;
  runtime_model : string;
  runtime_revision : option string;
  first_used_at : TimestampMicros;
  last_used_at : option TimestampMicros;
}.

Definition ModelRuntimeRef_validate (m : ModelRuntimeRef) : ValidationResult :=
  try? validate_non_blank (runtime_provider m) "model_runtime.provider" in
  try? validate_non_blank (runtime_model m) "model_runtime.model" in
  try? (match runtime_revision m with
        | Some revision => validate_non_blank revision "model_runtime.revision"
        | None => Ok tt
        end) in
  if match last_used_at m with Some last_used => (last_used <? first_used_at m)%Z | None => false end
  then Err (InvalidState "model runtime ended before first use")
  else Ok tt.

Inductive IdentityClaimPolicy :=
  | OperationalContinuityOnly | DiscloseMigrationOnRequest | AlwaysDiscloseMigration.

Record ContinuityProfile := MkContinuityProfile {
  profile_id : ContinuityProfileId;
  profile_revision : RevisionNumber;
  profile_transaction_time : CommitRange;
  profile_workspace_id : WorkspaceId;
  profile_agent_id : AgentId;
  stable_subject : MemorySubjectId;
  model_lineage : list ModelRuntimeRef;
  required_bootstrap_facets : NonEmptyVec string;
  migration_policy : string;
  identity_claim_policy : IdentityClaimPolicy;
  profile_envelope : SemanticEnvelope;
}.

Definition ContinuityProfile_validate (p : ContinuityProfile) : ValidationResult :=
  try? CommitRange_validate (profile_transaction_time p) in
  try? validate_for_target (profile_envelope p)
         (LineageContinuityProfile (profile_id p) (profile_revision p)) in
  if negb (bool_decide (stable_subject p ∈ into_vec (owners (ownership (profile_envelope p)))))
  then Err (InvalidState "continuity subject must be an explicit owner")
  else
  try? for_each ModelRuntimeRef_validate (model_lineage p) in
  try? for_each (λ facet, validate_non_blank facet "continuity.bootstrap_facet")
         (into_vec (required_bootstrap_facets p)) in
  validate_non_blank (migration_policy p) "continuity.migration_policy".

#[export] Instance ContinuityProfile_TransactionRevision : TransactionRevision ContinuityProfile := {|
  validate_revision := ContinuityProfile_validate;
  revision_number := profile_revision;
  transaction_interval := profile_transaction_time;
|}.

Inductive SignalStatus := Reported | Observed | Inferred.
Inductive SignalPersistence := Turn | SignalSession | SignalHistorical | CandidateTrait.

Section values.
Context `{JsonValue}.

Record Preference := MkPreference {
  preference_header : MemoryRevisionHeader;
  preference_subject : MemorySubjectId;
  domain : string;
  preference_value : Value;
  strength : PreferenceStrength;
  context : list ScopeRef;
}.

Definition Preference_validate (p : Preference) : ValidationResult :=
  try? validate_header (preference_header p) in
  try? validate_non_blank (domain p) "preference.domain" in
  for_each ScopeRef_validate (context p).

#[export] Instance Preference_TransactionRevision : TransactionRevision Preference := {|
  validate_revision := Preference_validate;
  revision_number := λ v, mh_revision (preference_header v);
  transaction_interval := λ v, transaction_time (mh_temporal (preference_header v));
|}.

Inductive Condition :=
  | AtTime (at_ : TimestampMicros)
  | AfterTime (at_ : TimestampMicros)
  | OnEvent (id : NodeId)
  | ClaimBecomesCurrent (id : ClaimId)
  | TextCue (text : string)
  | StructuredCondition (v : Value).

Definition Condition_validate (c : Condition) : ValidationResult :=
  match c with
  | TextCue text => validate_non_blank text "condition.text"
  | _ => Ok tt
  end.

(** [if let Some(trigger) = &self.trigger { trigger.validate()?; }]. *)
Definition validate_trigger (t : option Condition) : ValidationResult :=
  match t with
  | Some trigger => Condition_validate trigger
  | None => Ok tt
  end.

Record Commitment := MkCommitment {
  commitment_header : MemoryRevisionHeader;
  commitment_owner : MemorySubjectId;
  beneficiary : option MemorySubjectId;
  commitment_statement : string;
  due : option TimestampMicros;
  commitment_trigger : option Condition;
  commitment_status : CommitmentStatus;
}.

Definition Commitment_validate (c : Commitment) : ValidationResult :=
  try? validate_header (commitment_header c) in
  try? validate_non_blank (commitment_statement c) "commitment.statement" in
  validate_trigger (commitment_trigger c).

#[export] Instance Commitment_TransactionRevision : TransactionRevision Commitment := {|
  validate_revision := Commitment_validate;
  revision_number := λ v, mh_revision (commitment_header v);
  transaction_interval := λ v, transaction_time (mh_temporal (commitment_header v));
|}.

Inductive ProcedureStep :=
  | Instruction (text : string)
  | ToolSuggestion (tool : string) (arguments : Value)
  | RecallStep (facets : NonEmptyVec string)
  | VerifyStep (rule : string).

Definition ProcedureStep_validate (s : ProcedureStep) : ValidationResult :=
  match s with
  | Instruction text => validate_non_blank text "procedure.step"
  | ToolSuggestion tool _ => validate_non_blank tool "procedure.tool"
  | RecallStep facets => for_each (λ f, validate_non_blank f "procedure.facet") (into_vec facets)
  | VerifyStep rule => validate_non_blank rule "procedure.verification"
  end.

Record Procedure := MkProcedure {
  procedure_header : MemoryRevisionHeader;
  procedure_owner : option MemorySubjectId;
  procedure_name : string;
  procedure_trigger : option Condition;
  preconditions : list Condition;
  parameters : list ProcedureParameter;
  procedure_steps : NonEmptyVec ProcedureStep;
  expected_outcomes : NonEmptyVec string;
  failure_modes : list string;
  rollback_steps : list ProcedureStep;
  statistics : ProcedureStatistics;
}.

Definition Procedure_validate (p : Procedure) : ValidationResult :=
  try? validate_header (procedure_header p) in
  try? validate_non_blank (procedure_name p) "procedure.name" in
  try? validate_trigger (procedure_trigger p) in
  try? for_each Condition_validate (preconditions p) in
  try? for_each ProcedureParameter_validate (parameters p) in
  try? for_each ProcedureStep_validate (into_vec (procedure_steps p)) in
  try? for_each (λ o, validate_non_blank o "procedure.expected_outcome")
         (into_vec (expected_outcomes p)) in
  try? for_each (λ m, validate_non_blank m "procedure.failure_mode") (failure_modes p) in
  for_each ProcedureStep_validate (rollback_steps p).

#[export] Instance Procedure_TransactionRevision : TransactionRevision Procedure := {|
  validate_revision := Procedure_validate;
  revision_number := λ v, mh_revision (procedure_header v);
  transaction_interval := λ v, transaction_time (mh_temporal (procedure_header v));
|}.

Record SharedReference := MkSharedReference {
  reference_header : MemoryRevisionHeader;
  reference_participants : NonEmptyVec MemorySubjectId;
  reference_label : string;
  meaning : Value;
  origin_observations : NonEmptyVec ObservationId;
  tone : option string;
  mention_policy : PolicyDecision;
}.

Definition SharedReference_validate (r : SharedReference) : ValidationResult :=
  try? validate_header (reference_header r) in
  let members : gset MemorySubjectId := list_to_set (into_vec (reference_participants r)) in
  if (size members <? 2)%nat
     || negb (size members =? length (into_vec (reference_participants r)))%nat
  then Err (InvalidState "shared reference requires at least two distinct participants")
  else
  try? validate_non_blank (reference_label r) "shared_reference.label" in
  match tone r with
  | Some t => validate_non_blank t "shared_reference.tone"
  | None => Ok tt
  end.

#[export] Instance SharedReference_TransactionRevision : TransactionRevision SharedReference := {|
  validate_revision := SharedReference_validate;
  revision_number := λ v, mh_revision (reference_header v);
  transaction_interval := λ v, transaction_time (mh_temporal (reference_header v));
|}.

Record SelfModel := MkSelfModel {
  self_model_id : SelfModelId;
  self_model_header : MemoryRevisionHeader;
  self_model_subject : MemorySubjectId;
  self_model_role : string;
  self_capabilities : gset string;
  limitations : gset string;
  configured_style : gmap string Value;
  commitments : list NodeId;
  known_failures : list NodeId;
}.

Definition SelfModel_validate (m : SelfModel) : ValidationResult :=
  try? validate_header (self_model_header m) in
  try? validate_non_blank (self_model_role m) "self_model.role" in
  try? for_each (λ v, validate_non_blank v "self_model.capability_or_limitation")
         (bt_elements (self_capabilities m) ++ bt_elements (limitations m)) in
  for_each (λ k, validate_non_blank k "self_model.style_key") (bt_keys (configured_style m)).

#[export] Instance SelfModel_TransactionRevision : TransactionRevision SelfModel := {|
  validate_revision := SelfModel_validate;
  revision_number := λ v, mh_revision (self_model_header v);
  transaction_interval := λ v, transaction_time (mh_temporal (self_model_header v));
|}.

Record InteractionSignal := MkInteractionSignal {
  signal_header : MemoryRevisionHeader;
  signal_observation_id : ObservationId;
  signal_subject : MemorySubjectId;
  signal_kind : string;
  signal_value : Value;
  signal_status : SignalStatus;
  persistence : SignalPersistence;
}.

Definition InteractionSignal_validate (s : InteractionSignal) : ValidationResult :=
  try? validate_header (signal_header s) in
  validate_non_blank (signal_kind s) "interaction_signal.kind".

#[export] Instance InteractionSignal_TransactionRevision : TransactionRevision InteractionSignal := {|
  validate_revision := InteractionSignal_validate;
  revision_number := λ v, mh_revision (signal_header v);
  transaction_interval := λ v, transaction_time (mh_temporal (signal_header v));
|}.
End values.
