(* ===== verification/Mutation.v ===== *)
(** * Atomic mutation contracts (crate contextdb-core, mutation.rs)

    The semantic mutation set a storage engine publishes as one commit, its
    validation, and the publication record that follows it. *)

From S2P Require Import Prelude.
From S2P Require Import Ordering.
From S2P Require Import Bytes.
From S2P Require Import CoreBase.
From S2P Require Import Provenance.
From S2P Require Import Policy.
From S2P Require Import Identity.
From S2P Require Import Evidence.
From S2P Require Import Semantic.
From S2P Require Import MemoryTypes.

(** ** Shared checks *)

(** The loop of [validate_unique] is that of [ensure_distinct]. *)
Definition validate_unique `{Countable A} (values : list A) (field : string) : ValidationResult :=
  ensure_distinct_from ∅ values field.

Section batch.
Context {T K : Type} `{Countable K, Ordered K}.
Context (key : T → K) (revision : T → RevisionNumber) (time : T → CommitRange).

(** [grouped.entry(key(item)).or_default().push(item)] for every item. *)
Definition push_group (grouped : gmap K (list T)) (item : T) : gmap K (list T) :=
  <[key item := default [] (grouped !! key item) ++ [item]]> grouped.
Definition group_revisions (revisions : list T) : gmap K (list T) := foldl push_group ∅ revisions.

Definition revision_le (a b : T) : Prop := (revision a ≤ revision b)%N.
#[local] Instance revision_le_dec a b : Decision (revision_le a b) := N.le_dec _ _.

(** [items.sort_by_key]; two items of equal revision are rejected by the next
    check, so their relative order is immaterial. *)
Definition sort_by_revision (items : list T) : list T :=
  merge_sort revision_le items.

(** [items.windows(2)]. *)
Fixpoint check_windows (items : list T) : ValidationResult :=
  match items with
  | a :: (b :: _) as rest =>
      if (revision a =? revision b)%N then Err InvalidRevisionSequence else check_windows rest
  | _ => Ok tt
  end.

Fixpoint check_disjoint (items : list T) : ValidationResult :=
  match items with
  | [] => Ok tt
  | l :: rest =>
      try? for_each (λ r, if CommitRange_overlaps (time l) (time r)
                          then Err OverlappingTransactionIntervals else Ok tt) rest in
      check_disjoint rest
  end.

Definition validate_revision_batch (revisions : list T) : ValidationResult :=
  for_each (λ items,
    let items := sort_by_revision items in
    try? check_windows items in
    check_disjoint items) (bt_values (group_revisions revisions)).

Definition require_first_revision_for_creates (creates : list K) (revisions : list T)
    : ValidationResult :=
  for_each (λ created,
    let first_count :=
      length (filter (λ item, key item = created ∧ revision item = RevisionNumber_FIRST) revisions) in
    if negb (first_count =? 1)%nat then Err InvalidRevisionSequence else Ok tt) creates.
End batch.

Inductive DerivedWorkItem :=
  | LexicalIndex (node_ids : list NodeId) (claim_ids : list ClaimId)
  | Vectorize (nodes : list NodeId)
  | UpdateAliasMap (nodes : list NodeId)
  | UpdateFilterBitmaps (nodes : list NodeId)
  | DirtyHierarchyRegion (roots : list NodeId)
  | InvalidateSummaries (nodes : list NodeId)
  | Consolidate (roots : list NodeId)
  | UpdateSessionActiveSet (observations : list ObservationId).

#[export] Instance DerivedWorkItem_eq_dec : EqDecision DerivedWorkItem.
Proof. solve_decision. Defined.

Record SemanticPublicationRecord := MkSemanticPublicationRecord {
  publication_id : PublicationId;
  publication_mutation_id : MutationId;
  publication_journal_refs : NonEmptyVec ObservationId;
  publication_base_snapshot : SnapshotRef;
  committed_snapshot : SnapshotRef;
}.

#[export] Instance SemanticPublicationRecord_eq_dec : EqDecision SemanticPublicationRecord.
Proof. solve_decision. Defined.

Definition SemanticPublicationRecord_validate (r : SemanticPublicationRecord) : ValidationResult :=
  if (snapshot_commit_seq (committed_snapshot r) <=? snapshot_commit_seq (publication_base_snapshot r))%N
  then Err (InvalidState "publication commit must follow its base snapshot")
  else validate_unique (into_vec (publication_journal_refs r)) "publication.journal_refs".

Definition header_target (h : MemoryRevisionHeader) : LineageNode :=
  LineageNodeRevision (mh_node_id h) (mh_revision h).

Section mutation.
Context `{JsonValue}.

Inductive TypedMemoryMutation :=
  | WritePreference (value : Preference)
  | WriteBoundary (value : Boundary)
  | WriteGoal (value : Goal)
  | WriteCommitment (value : Commitment)
  | WriteProcedure (value : Procedure)
  | WriteRelationship (value : RelationshipState)
  | WriteSharedReference (value : SharedReference)
  | WriteSelfModel (value : SelfModel)
  | WriteContinuityProfile (value : ContinuityProfile)
  | WriteInteractionSignal (value : InteractionSignal).

Definition TypedMemoryMutation_validate (m : TypedMemoryMutation) : ValidationResult :=
  match m with
  | WritePreference value => Preference_validate value
  | WriteBoundary value => Boundary_validate value
  | WriteGoal value => Goal_validate value
  | WriteCommitment value => Commitment_validate value
  | WriteProcedure value => Procedure_validate value
  | WriteRelationship value => RelationshipState_validate value
  | WriteSharedReference value => SharedReference_validate value
  | WriteSelfModel value => SelfModel_validate value
  | WriteContinuityProfile value => ContinuityProfile_validate value
  | WriteInteractionSignal value => InteractionSignal_validate value
  end.

Definition typed_envelope (m : TypedMemoryMutation) : SemanticEnvelope :=
  match m with
  | WritePreference value => mh_envelope (preference_header value)
  | WriteBoundary value => mh_envelope (boundary_header value)
  | WriteGoal value => mh_envelope (goal_header value)
  | WriteCommitment value => mh_envelope (commitment_header value)
  | WriteProcedure value => mh_envelope (procedure_header value)
  | WriteRelationship value => mh_envelope (relationship_header value)
  | WriteSharedReference value => mh_envelope (reference_header value)
  | WriteSelfModel value => mh_envelope (self_model_header value)
  | WriteContinuityProfile value => profile_envelope value
  | WriteInteractionSignal value => mh_envelope (signal_header value)
  end.

Definition lineage_target (m : TypedMemoryMutation) : LineageNode :=
  match m with
  | WritePreference value => header_target (preference_header value)
  | WriteBoundary value => header_target (boundary_header value)
  | WriteGoal value => header_target (goal_header value)
  | WriteCommitment value => header_target (commitment_header value)
  | WriteProcedure value => header_target (procedure_header value)
  | WriteRelationship value => header_target (relationship_header value)
  | WriteSharedReference value => header_target (reference_header value)
  | WriteSelfModel value => header_target (self_model_header value)
  | WriteContinuityProfile value => LineageContinuityProfile (profile_id value) (profile_revision value)
  | WriteInteractionSignal value => header_target (signal_header value)
  end.

Record SemanticMutationSet := MkSemanticMutationSet {
  mutation_id : MutationId;
  base_snapshot : SnapshotRef;
  journal_refs : NonEmptyVec ObservationId;
  observation_appends : list ObservationUnit;
  episode_view_writes : list EpisodeView;
  node_creates : list Node;
  node_writes : list NodeRevision;
  claim_creates : list Claim;
  claim_writes : list ClaimRevision;
  edge_creates : list Edge;
  edge_writes : list EdgeRevision;
  conflict_creates : list ConflictSet;
  conflict_writes : list ConflictSetRevision;
  candidate_writes : list MemoryCandidate;
  typed_memory_writes : list TypedMemoryMutation;
  derived_work : list DerivedWorkItem;
}.

Definition has_semantic_writes (m : SemanticMutationSet) : bool :=
  negb (is_empty (episode_view_writes m))
  || negb (is_empty (node_creates m))
  || negb (is_empty (node_writes m))
  || negb (is_empty (claim_creates m))
  || negb (is_empty (claim_writes m))
  || negb (is_empty (edge_creates m))
  || negb (is_empty (edge_writes m))
  || negb (is_empty (conflict_creates m))
  || negb (is_empty (conflict_writes m))
  || negb (is_empty (typed_memory_writes m)).

Definition enveloped_targets (m : SemanticMutationSet) : list (LineageNode * SemanticEnvelope) :=
  ((λ r, (LineageNodeRevision (nr_node_id r) (nr_revision r), nr_envelope r)) <$> node_writes m) ++
  ((λ r, (LineageClaimRevision (cr_claim_id r) (cr_revision r), cr_envelope r)) <$> claim_writes m) ++
  ((λ r, (LineageEdgeRevision (er_edge_id r) (er_revision r), er_envelope r)) <$> edge_writes m) ++
  ((λ r, (LineageConflictRevision (csr_conflict_set_id r) (csr_revision r), csr_envelope r))
     <$> conflict_writes m) ++
  ((λ c, (LineageCandidate (candidate_id c), candidate_envelope c)) <$> candidate_writes m) ++
  ((λ t, (lineage_target t, typed_envelope t)) <$> typed_memory_writes m).

Definition lineage_graph (m : SemanticMutationSet) : LineageGraph :=
  MkLineageGraph
    (enveloped_targets m ≫= λ te, MkLineageEdge te.1 <$> inputs (derivation te.2)).

(** Collecting pairs into a [BTreeMap]: the last envelope of a target stays. *)
Definition collect_envelopes (targets : list (LineageNode * SemanticEnvelope))
    : gmap LineageNode SemanticEnvelope :=
  foldl (λ acc te, <[te.1 := te.2]> acc) ∅ targets.

Definition validate_in_batch_policy_propagation (m : SemanticMutationSet) : ValidationResult :=
  let targets := enveloped_targets m in
  let envelopes := collect_envelopes targets in
  for_each (λ te,
    for_each (λ input,
      match envelopes !! input with
      | Some source => validate_derived_from te.2 source
      | None => Ok tt
      end) (inputs (derivation te.2))) targets.

Definition SemanticMutationSet_validate (m : SemanticMutationSet) : ValidationResult :=
  try? validate_unique (into_vec (journal_refs m)) "mutation.journal_refs" in
  try? validate_unique (observation_id <$> observation_appends m) "mutation.observation_appends" in
  try? validate_unique (node_id <$> node_creates m) "mutation.node_creates" in
  try? validate_unique (claim_id <$> claim_creates m) "mutation.claim_creates" in
  try? validate_unique (edge_id <$> edge_creates m) "mutation.edge_creates" in
  try? validate_unique (cs_id <$> conflict_creates m) "mutation.conflict_creates" in
  try? validate_unique (candidate_id <$> candidate_writes m) "mutation.candidate_writes" in
  try? for_each ObservationUnit_validate (observation_appends m) in
  try? for_each EpisodeView_validate (episode_view_writes m) in
  try? for_each Node_validate (node_creates m) in
  try? for_each NodeRevision_validate (node_writes m) in
  try? for_each Claim_validate (claim_creates m) in
  try? for_each ClaimRevision_validate (claim_writes m) in
  try? for_each Edge_validate (edge_creates m) in
  try? for_each EdgeRevision_validate (edge_writes m) in
  try? for_each ConflictSet_validate (conflict_creates m) in
  try? for_each ConflictSetRevision_validate (conflict_writes m) in
  try? for_each MemoryCandidate_validate (candidate_writes m) in
  try? for_each TypedMemoryMutation_validate (typed_memory_writes m) in
  try? validate_revision_batch nr_node_id nr_revision
         (λ r, transaction_time (nr_temporal r)) (node_writes m) in
  try? validate_revision_batch cr_claim_id cr_revision
         (λ r, transaction_time (cr_temporal r)) (claim_writes m) in
  try? validate_revision_batch er_edge_id er_revision
         (λ r, transaction_time (er_temporal r)) (edge_writes m) in
  try? validate_revision_batch csr_conflict_set_id csr_revision csr_transaction_time
         (conflict_writes m) in
  try? require_first_revision_for_creates nr_node_id nr_revision
         (node_id <$> node_creates m) (node_writes m) in
  try? require_first_revision_for_creates cr_claim_id cr_revision
         (claim_id <$> claim_creates m) (claim_writes m) in
  try? require_first_revision_for_creates er_edge_id er_revision
         (edge_id <$> edge_creates m) (edge_writes m) in
  try? require_first_revision_for_creates csr_conflict_set_id csr_revision
         (cs_id <$> conflict_creates m) (conflict_writes m) in
  try? LineageGraph_validate (lineage_graph m) in
  validate_in_batch_policy_propagation m.
End mutation.

(** ** What the checks decide *)

Section batch_spec.
Context {T K : Type} `{Countable K, Ordered K}.
Context (key : T → K) (revision : T → RevisionNumber) (time : T → CommitRange).













End batch_spec.

Section mutation_spec.
Context `{JsonValue}.

(** [a] is written by the mutation with [b] among the inputs of its derivation. *)
Definition derives (m : SemanticMutationSet) (a b : LineageNode) : Prop :=
  ∃ e, (a, e) ∈ enveloped_targets m ∧ b ∈ inputs (derivation e).






Lemma lookup_collect_envelopes ts n :
  collect_envelopes ts !! n = snd <$> last (filter (λ te, te.1 = n) ts).
Proof.
  unfold collect_envelopes. induction ts as [|[a e] ts IH] using rev_ind; [done|].
  rewrite foldl_app, filter_app. cbn [foldl fst snd]. destruct (decide (a = n)) as [->|Hne].
  - rewrite lookup_insert_eq, filter_cons_True, filter_nil, last_snoc by done. done.
  - rewrite lookup_insert_ne, filter_cons_False, filter_nil, app_nil_r by done. done.
Qed.


Lemma policy_propagation_Ok m :
  validate_in_batch_policy_propagation m = Ok tt ↔
  ∀ a e b source, (a, e) ∈ enveloped_targets m → b ∈ inputs (derivation e) →
    last (filter (λ te, te.1 = b) (enveloped_targets m)) = Some (b, source) →
    validate_derived_from e source = Ok tt.
Proof.
  unfold validate_in_batch_policy_propagation. rewrite for_each_Ok, Forall_forall. split.
  - intros Hall a e b source Hin Hb Hlast. specialize (Hall _ Hin). cbn [snd] in Hall.
    rewrite for_each_Ok, Forall_forall in Hall. specialize (Hall _ Hb).
    by rewrite lookup_collect_envelopes, Hlast in Hall.
  - intros Hall [a e] Hin. apply for_each_Ok, Forall_forall. intros b Hb.
    rewrite lookup_collect_envelopes. destruct (last _) as [[b' source]|] eqn:Hlast; [|done].
    simpl. apply (Hall a e b source); try done.
    assert (b' = b) as ->; [|done]. apply last_Some in Hlast as [l Hl].
    assert ((b', source) ∈ filter (λ te, te.1 = b) (enveloped_targets m)) as Hf
      by (rewrite Hl; apply elem_of_app; right; constructor).
    by apply list_elem_of_filter in Hf as [? _].
Qed.



Lemma target_unique m a e e' :
  NoDup (enveloped_targets m).*1 →
  (a, e) ∈ enveloped_targets m → (a, e') ∈ enveloped_targets m → e = e'.
Proof.
  intros Hnd [i Hi]%list_elem_of_lookup [j Hj]%list_elem_of_lookup.
  assert (i = j) as ->; [|congruence].
  apply (NoDup_lookup _ i j a Hnd); rewrite list_lookup_fmap; [by rewrite Hi|by rewrite Hj].
Qed.

Lemma last_target m b e :
  NoDup (enveloped_targets m).*1 → (b, e) ∈ enveloped_targets m →
  last (filter (λ te, te.1 = b) (enveloped_targets m)) = Some (b, e).
Proof.
  intros Hnd Hin. assert ((b, e) ∈ filter (λ te, te.1 = b) (enveloped_targets m)) as Hf
    by (by apply list_elem_of_filter).
  destruct (last _) as [[b' e']|] eqn:Hl; [|apply last_None in Hl; rewrite Hl in Hf; by apply elem_of_nil in Hf].
  apply last_Some in Hl as [l Hl].
  assert ((b', e') ∈ filter (λ te, te.1 = b) (enveloped_targets m)) as [Hb Hin']%list_elem_of_filter
    by (rewrite Hl; apply elem_of_app; right; constructor).
  simpl in Hb. subst b'. by rewrite (target_unique m b e e').
Qed.

(** C37: in an accepted mutation whose written items are distinct, policy follows
    lineage: an item derived from another item of the batch, directly or through
    any chain of derivations inside the batch, allows no use, audience, purpose,
    change, retention or external processing that the other forbids, demands at
    least its classification, labels, compartments and consent, and records only
    consent decisions that the other backs with the same subject and class and at
    least the same status (their validity intervals are not compared). *)
Theorem policy_propagates_along_lineage m a ea b eb :
  SemanticMutationSet_validate m = Ok tt →
  NoDup (enveloped_targets m).*1 →
  (a, ea) ∈ enveloped_targets m → (b, eb) ∈ enveloped_targets m →
  tc (derives m) a b →
  no_broader ea eb.
Proof.
  intros Hv. unfold SemanticMutationSet_validate in Hv. repeat apply try_Ok in Hv as [_ Hv].
  rewrite policy_propagation_Ok in Hv. intros Hnd Ha Hb Htc. apply narrower_no_broader.
  assert (∀ x e y ey, (x, e) ∈ enveloped_targets m → derives m x y →
    (y, ey) ∈ enveloped_targets m → narrower e ey) as Hstep.
  { intros x e y ey Hx (e' & Hx' & Hy) Hey. rewrite (target_unique m x e e') by done.
    apply validate_derived_from_Ok. eauto using last_target. }
  clear Hv. revert ea Ha. induction Htc as [x y Hxy|x y z Hxy Hyz IH]; intros ea Ha; [by eapply Hstep|].
  assert (∃ ey, (y, ey) ∈ enveloped_targets m) as [ey Hy].
  { inversion Hyz as [? ? (e & ? & _)|? ? ? (e & ? & _)]; eauto. }
  eapply narrower_trans; [by eapply Hstep|by apply IH].
Qed.
End mutation_spec.

(** ** Concrete mutations *)

#[local] Existing Instance unit_json.

Definition second_node : NodeId := MkStableId (MkUuid 2 eq_refl) eq_refl.
Definition third_node : NodeId := MkStableId (MkUuid 3 eq_refl) eq_refl.

(** [sample_envelope] with other inputs and another rule on external models. *)
Definition envelope_with (external : PolicyDecision) (sources : list LineageNode) : SemanticEnvelope :=
  let e := sample_envelope in let u := use_policy e in let d := derivation e in {|
  scopes := scopes e; perspective := perspective e; ownership := ownership e; consent := consent e;
  use_policy := MkMemoryUsePolicy (use_retrieve u) (influence_response u)
    (mention_explicitly u) external (retention u);
  security := security e;
  derivation := MkDerivationRef (derivation_id d) (derivation_kind d) (derivation_actor d)
    (model_call d) (pipeline d) sources;
|}.

Definition sample_goal (id : NodeId) (e : SemanticEnvelope) : TypedMemoryMutation :=
  WriteGoal {|
    goal_header := {|
      mh_node_id := id; mh_revision := 1;
      mh_temporal := MkBitemporalRange (open_ended 0) (CommitRange_current 1);
      mh_epistemic := MkEpistemicState BasisHypothesis Proposed ConflictNone LifecycleActive;
      mh_confidence := sample_confidence; mh_evidence := []; mh_envelope := e |};
    goal_owner := sample_id _; goal_statement := "ship"; goal_status := GoalActive;
    horizon := Unspecified; related_nodes := [];
  |}.

Definition goals_mutation (goals : list TypedMemoryMutation) : SemanticMutationSet := {|
  mutation_id := sample_id _; base_snapshot := MkSnapshotRef 0;
  journal_refs := NonEmptyVec_new (sample_id _);
  observation_appends := []; episode_view_writes := []; node_creates := []; node_writes := [];
  claim_creates := []; claim_writes := []; edge_creates := []; edge_writes := [];
  conflict_creates := []; conflict_writes := []; candidate_writes := [];
  typed_memory_writes := goals; derived_work := [];
|}.

(** Three goals, each derived from the previous one. *)
Definition chained_goals : SemanticMutationSet :=
  goals_mutation
    [sample_goal (sample_id _) (envelope_with Conditional []);
     sample_goal second_node (envelope_with Conditional [LineageNodeRevision (sample_id _) 1]);
     sample_goal third_node (envelope_with Deny [LineageNodeRevision second_node 1])].

Lemma policy_propagates_along_lineage_witness :
  no_broader (envelope_with Deny [LineageNodeRevision second_node 1]) (envelope_with Conditional []).
Proof.
  apply (policy_propagates_along_lineage chained_goals (LineageNodeRevision third_node 1) _
    (LineageNodeRevision (sample_id _) 1)).
  - vm_compute. reflexivity.
  - apply (bool_decide_eq_true_1 _). vm_compute. reflexivity.
  - apply list_elem_of_lookup. exists 2%nat. reflexivity.
  - apply list_elem_of_lookup. exists 0%nat. reflexivity.
  - apply (tc_l _ _ (LineageNodeRevision second_node 1)); [|apply tc_once].
    + exists (envelope_with Deny [LineageNodeRevision second_node 1]).
      split; [apply list_elem_of_lookup; by exists 2%nat|by constructor].
    + exists (envelope_with Conditional [LineageNodeRevision (sample_id _) 1]).
      split; [apply list_elem_of_lookup; by exists 1%nat|by constructor].
Defined.

(** the in-batch policy check compares a derived item only with the last
    envelope written for its source.  A mutation that writes two typed memories
    for one node revision, the first denying external models and the second not,
    is accepted together with an item derived from that revision that allows what
    the first denies. *)
Theorem policy_check_misses_earlier_envelope :
  ∃ m a ea b eb,
    SemanticMutationSet_validate m = Ok tt ∧
    (a, ea) ∈ enveloped_targets m ∧ (b, eb) ∈ enveloped_targets m ∧ derives m a b ∧
    validate_derived_from ea eb ≠ Ok tt ∧
    external_model_use (use_policy ea) = Conditional ∧ external_model_use (use_policy eb) = Deny.
Proof.
  exists (goals_mutation
    [sample_goal (sample_id _) (envelope_with Deny []);
     sample_goal (sample_id _) (envelope_with Conditional []);
     sample_goal second_node (envelope_with Conditional [LineageNodeRevision (sample_id _) 1])]),
    (LineageNodeRevision second_node 1),
    (envelope_with Conditional [LineageNodeRevision (sample_id _) 1]),
    (LineageNodeRevision (sample_id _) 1), (envelope_with Deny []).
  split_and!.
  - vm_compute. reflexivity.
  - apply list_elem_of_lookup. by exists 2%nat.
  - apply list_elem_of_lookup. by exists 0%nat.
  - exists (envelope_with Conditional [LineageNodeRevision (sample_id _) 1]).
    split; [apply list_elem_of_lookup; by exists 2%nat|by constructor].
  - by vm_compute.
  - reflexivity.
  - reflexivity.
Qed.
