(* ===== verification/Maintenance.v ===== *)
(** * Maintenance transactions (crate contextdb-core, maintenance.rs)

    Policy revisions and physical-generation switches published in the same
    ordered history as semantic commits. *)

From S2P Require Import Prelude.
From S2P Require Import Ordering.
From S2P Require Import Bytes.
From S2P Require Import CoreBase.
From S2P Require Import Provenance.
From S2P Require Import Policy.
From S2P Require Import Identity.
From S2P Require Import Evidence.
From S2P Require Import Semantic.
From S2P Require Import MemoryTypes.
From S2P Require Import Mutation.

Inductive MaintenanceOperation :=
  | PolicyRevision (policy_id : PolicyId) (target : LineageNode) (envelope : SemanticEnvelope)
  | HierarchyPublication (view_id : HierarchyViewId) (generation : N) (manifest_digest : ContentDigest)
  | SummaryRevision (summary_id : SummaryId) (revision : N) (content_digest : ContentDigest)
  | MergeSplitDecision (namespace identifier : string) (inputs outputs : NonEmptyVec LineageNode)
  | DeletionPropagation (job_id : DeletionJobId) (targets : NonEmptyVec LineageNode)
  | CompactionMetadata (component : string) (from_generation to_generation : N)
      (manifest_digest : ContentDigest)
  | IndexGenerationSwitch (index : string) (from_generation to_generation : N)
      (manifest_digest : ContentDigest).

Definition validate_generation (value : N) (digest : ContentDigest) : ValidationResult :=
  if (value =? 0)%N then Err (InvalidState "maintenance generation must be positive")
  else if forallb (λ byte, bool_decide (byte = x00)) (digest_bytes digest)
  then Err (InvalidState "maintenance manifest digest must not be zero")
  else Ok tt.

Definition validate_generation_switch (from to : N) (digest : ContentDigest) : ValidationResult :=
  try? validate_generation to digest in
  if (to <=? from)%N then Err (InvalidState "maintenance generation switch must advance")
  else Ok tt.

Fixpoint validate_lineage_values (distinct : gset LineageNode) (values : list LineageNode)
    (field : string) : ValidationResult :=
  match values with
  | [] => Ok tt
  | value :: rest =>
      try? LineageNode_validate value in
      if bool_decide (value ∈ distinct) then Err (DuplicateIdentifier field)
      else validate_lineage_values ({[value]} ∪ distinct) rest field
  end.
Definition validate_lineage_set (values : NonEmptyVec LineageNode) (field : string)
    : ValidationResult :=
  validate_lineage_values ∅ (into_vec values) field.

Definition MaintenanceOperation_validate (o : MaintenanceOperation) : ValidationResult :=
  match o with
  | PolicyRevision _ target envelope =>
      try? LineageNode_validate target in
      SemanticEnvelope_validate envelope
  | HierarchyPublication _ generation manifest_digest =>
      validate_generation generation manifest_digest
  | SummaryRevision _ revision content_digest => validate_generation revision content_digest
  | MergeSplitDecision namespace identifier inputs outputs =>
      try? validate_non_blank namespace "maintenance.namespace" in
      try? validate_non_blank identifier "maintenance.identifier" in
      try? validate_lineage_set inputs "maintenance.inputs" in
      validate_lineage_set outputs "maintenance.outputs"
  | DeletionPropagation _ targets => validate_lineage_set targets "maintenance.targets"
  | CompactionMetadata component from to manifest_digest =>
      try? validate_non_blank component "maintenance.component" in
      validate_generation_switch from to manifest_digest
  | IndexGenerationSwitch index from to manifest_digest =>
      try? validate_non_blank index "maintenance.index" in
      validate_generation_switch from to manifest_digest
  end.

Record MaintenanceMutationSet := MkMaintenanceMutationSet {
  maintenance_id : MutationId;
  maintenance_base : SnapshotRef;
  operation : MaintenanceOperation;
  maintenance_derived_work : list DerivedWorkItem;
}.

Definition MaintenanceMutationSet_validate (m : MaintenanceMutationSet) : ValidationResult :=
  MaintenanceOperation_validate (operation m).
