(* ===== verification/JournalModel.v ===== *)
(** * Journal keys, requests, receipts and frames (crate contextdb-journal)

    key.rs, model.rs and error.rs, and the frame payloads of coordinator.rs.
    serde_json is a parameter: [Json T] is the pair of functions [to_vec] and
    [from_slice] at one type, [JsonRoundtrip T] its documented round trip for the
    frame payloads.  A [[u8; 32]] digest is a byte list. *)

From stdpp Require Import pretty.
From S2P Require Import Prelude.
From S2P Require Import Ordering.
From S2P Require Import Bytes.
From S2P Require Import Storage.
From S2P Require Import Engine.
From S2P Require Import Format.
From S2P Require Import CoreBase.
From S2P Require Import Provenance.
From S2P Require Import Policy.
From S2P Require Import Identity.
From S2P Require Import Evidence.
From S2P Require Import Semantic.
From S2P Require Import MemoryTypes.
From S2P Require Import Mutation.
From S2P Require Import Maintenance.

(** ** serde_json *)

(** The opaque [serde_json::Error]. *)
Class SerdeError := JsonError : Type.

Class Json `{SerdeError} (T : Type) := {
  to_vec : T → result JsonError bytes;
  from_slice : bytes → result JsonError T;
}.

Class JsonRoundtrip `{SerdeError} (T : Type) `{!Json T} :=
  json_roundtrip (v : T) bs : to_vec v = Ok bs → from_slice bs = Ok v.

(** ** Keys (key.rs) *)

Definition HEAD_KEY : bytes := str_bytes "head".
Definition EVENT_PREFIX : bytes := str_bytes "e".
Definition OUTBOX_PREFIX : bytes := str_bytes "o".
Definition IDEMPOTENCY_PREFIX : bytes := str_bytes "i".
Definition OBSERVATION_PREFIX : bytes := str_bytes "b".
Definition MUTATION_PREFIX : bytes := str_bytes "m".

Record Keyspaces := MkKeyspaces {
  ks_meta : Keyspace;
  ks_events : Keyspace;
  ks_outbox : Keyspace;
  ks_idempotency : Keyspace;
  ks_observations : Keyspace;
  ks_mutations : Keyspace;
}.

Definition Keyspaces_new : result StorageError Keyspaces :=
  let? meta := Keyspace_new "journal_meta" in
  let? events := Keyspace_new "semantic_journal" in
  let? outbox := Keyspace_new "journal_outbox" in
  let? idempotency := Keyspace_new "journal_idempotency" in
  let? observations := Keyspace_new "journal_observation" in
  let? mutations := Keyspace_new "journal_mutation" in
  Ok (MkKeyspaces meta events outbox idempotency observations mutations).

Definition sequence_key (prefix : bytes) (sequence : N) : bytes := prefix ++ to_be_bytes 8 sequence.
Definition uuid_key (prefix uuid : bytes) : bytes := prefix ++ uuid.
Definition event_key (sequence : N) : bytes := sequence_key EVENT_PREFIX sequence.
Definition outbox_key (sequence index : N) : bytes :=
  OUTBOX_PREFIX ++ to_be_bytes 8 sequence ++ to_be_bytes 4 index.
Definition outbox_sequence_prefix (sequence : N) : bytes := sequence_key OUTBOX_PREFIX sequence.
Definition idempotency_key (digest : bytes) : bytes := IDEMPOTENCY_PREFIX ++ digest.
Definition observation_key (id : ObservationId) : bytes :=
  uuid_key OBSERVATION_PREFIX (as_bytes (as_uuid id)).
Definition mutation_key (id : MutationId) : bytes :=
  uuid_key MUTATION_PREFIX (as_bytes (as_uuid id)).

Definition sequence_from_key (key prefix : bytes) (suffix_len : N) : option N :=
  with8 ← checked_add USIZE_MAX (len prefix) 8;
  expected ← checked_add USIZE_MAX with8 suffix_len;
  if negb (len key =? expected)%N || negb (starts_with prefix key) then None
  else
  bytes ← slice_get (length prefix) (length prefix + 8) key;
  Some (from_be_bytes bytes).

(** ** Requests (model.rs) *)

Inductive CommitStage :=
  | AfterValidation
  | AfterStaging
  | AfterCommitBeforeAck.

#[export] Instance CommitStage_eq_dec : EqDecision CommitStage.
Proof. solve_decision. Defined.

Record CommitOptions := MkCommitOptions {
  durability : Durability;
  fail_at : option CommitStage;
}.

Definition CommitOptions_default : CommitOptions := MkCommitOptions Sync None.

(** ** Errors (error.rs) *)

Inductive JournalError `{SerdeError} :=
  | JournalStorage (e : StorageError)
  | JournalFormat (e : FormatError)
  | JournalSerialization (e : JsonError)
  | InvalidBackup (reason : string)
  | RestoreTargetNotEmpty
  | JournalValidation (e : ValidationError)
  | InvalidIdempotencyKey
  | IdempotencyConflict
  | BaseSnapshotMismatch (base head : CommitSeq)
  | MissingObservation (id : ObservationId)
  | DuplicateObservation
  | EmbeddedObservationAppend
  | CommitSequenceExhausted
  | DurabilityNotAchieved (commit_seq : CommitSeq) (requested achieved : Durability)
  | InjectedFailure (stage : CommitStage)
  | LostResponse (commit_seq : CommitSeq)
  | Corruption (reason : string)
  | JournalSnapshotUnavailable (requested head : CommitSeq)
  | CoordinatorPoisoned.

Abbreviation JResult A := (result JournalError A).

(** The [From] conversions behind [?]. *)
Definition storage `{SerdeError} {A} (m : result StorageError A) : JResult A := map_err JournalStorage m.
Definition format `{SerdeError} {A} (m : result FormatError A) : JResult A := map_err JournalFormat m.
Definition json `{SerdeError} {A} (m : result JsonError A) : JResult A := map_err JournalSerialization m.
Definition valid `{SerdeError} {A} (m : result ValidationError A) : JResult A :=
  map_err JournalValidation m.

Definition MAX_IDEMPOTENCY_KEY_BYTES : N := 256.

Record IdempotencyKey := MkIdempotencyKey { idempotency_text : string }.

Definition IdempotencyKey_new `{SerdeError} (value : string) : JResult IdempotencyKey :=
  if trim_is_empty value || (MAX_IDEMPOTENCY_KEY_BYTES <? str_len value)%N
  then Err InvalidIdempotencyKey
  else Ok (MkIdempotencyKey value).

Section digests.
Context `{Blake3}.

Definition idempotency_digest (k : IdempotencyKey) : bytes :=
  blake3_hash (str_bytes (idempotency_text k)).

(** The incremental hasher fed the domain, a zero byte and the bytes. *)
Definition operation_digest (domain bs : bytes) : bytes := blake3_hash (domain ++ [x00] ++ bs).
End digests.

Section requests.
Context `{Blake3, JsonValue, SerdeError, !Json ObservationUnit, !Json SemanticMutationSet,
  !Json MaintenanceMutationSet}.

Record ValidatedObservationBytes := MkValidatedObservationBytes {
  vo_bytes : bytes;
  vo_observation : ObservationUnit;
  vo_digest : bytes;
}.

Definition Observation_from_json (bs : bytes) : JResult ValidatedObservationBytes :=
  let? observation := json (from_slice bs) in
  try? valid (ObservationUnit_validate observation) in
  let digest := operation_digest (str_bytes "observation-accepted-v1") bs in
  Ok (MkValidatedObservationBytes bs observation digest).

Definition from_observation (o : ObservationUnit) : JResult ValidatedObservationBytes :=
  let? bs := json (to_vec o) in Observation_from_json bs.

Definition vo_id (v : ValidatedObservationBytes) : ObservationId := observation_id (vo_observation v).

Record ValidatedMutationBytes := MkValidatedMutationBytes {
  vm_bytes : bytes;
  vm_mutation : SemanticMutationSet;
  vm_digest : bytes;
}.

Definition Mutation_from_json (bs : bytes) : JResult ValidatedMutationBytes :=
  let? mutation := json (from_slice bs) in
  try? valid (SemanticMutationSet_validate mutation) in
  if negb (is_empty (observation_appends mutation)) then Err EmbeddedObservationAppend
  else
  let digest := operation_digest (str_bytes "semantic-publication-v1") bs in
  Ok (MkValidatedMutationBytes bs mutation digest).

Definition from_mutation (m : SemanticMutationSet) : JResult ValidatedMutationBytes :=
  let? bs := json (to_vec m) in Mutation_from_json bs.

Definition vm_id (v : ValidatedMutationBytes) : MutationId := mutation_id (vm_mutation v).

Record ValidatedMaintenanceBytes := MkValidatedMaintenanceBytes {
  vx_bytes : bytes;
  vx_mutation : MaintenanceMutationSet;
  vx_digest : bytes;
}.

Definition Maintenance_from_json (bs : bytes) : JResult ValidatedMaintenanceBytes :=
  let? mutation := json (from_slice bs) in
  try? valid (MaintenanceMutationSet_validate mutation) in
  let digest := operation_digest (str_bytes "maintenance-publication-v1") bs in
  Ok (MkValidatedMaintenanceBytes bs mutation digest).

Definition from_maintenance (m : MaintenanceMutationSet) : JResult ValidatedMaintenanceBytes :=
  let? bs := json (to_vec m) in Maintenance_from_json bs.

Definition vx_id (v : ValidatedMaintenanceBytes) : MutationId := maintenance_id (vx_mutation v).
End requests.

(** ** Receipts, events and reports (model.rs) *)

Record ObservationReceipt := MkObservationReceipt {
  or_observation_id : ObservationId;
  or_commit_seq : CommitSeq;
  or_durability : Durability;
  or_replayed : bool;
  or_request_digest : bytes;
}.

(** [PublicationReceipt] and [MaintenanceReceipt] have the same fields. *)
Record PublicationReceipt := MkPublicationReceipt {
  pr_mutation_id : MutationId;
  pr_publication_id : PublicationId;
  pr_commit_seq : CommitSeq;
  pr_durability : Durability;
  pr_outbox_count : N;
  pr_replayed : bool;
  pr_mutation_digest : bytes;
}.
Definition MaintenanceReceipt : Type := PublicationReceipt.

Inductive JournalEvent :=
  | ObservationAccepted (commit_seq : CommitSeq) (observation_id : ObservationId)
      (exact_bytes request_digest : bytes)
  | SemanticPublished (commit_seq : CommitSeq) (mutation_id : MutationId)
      (publication_id : PublicationId) (exact_mutation_bytes mutation_digest : bytes)
      (outbox : list DerivedWorkItem)
  | MaintenancePublished (commit_seq : CommitSeq) (mutation_id : MutationId)
      (publication_id : PublicationId) (exact_mutation_bytes mutation_digest : bytes)
      (outbox : list DerivedWorkItem).

Definition event_commit_seq (e : JournalEvent) : CommitSeq :=
  match e with
  | ObservationAccepted commit_seq _ _ _
  | SemanticPublished commit_seq _ _ _ _ _
  | MaintenancePublished commit_seq _ _ _ _ _ => commit_seq
  end.

Record PortableJournalBackup := MkPortableJournalBackup {
  backup_schema_version : N;
  backup_commit_seq : CommitSeq;
  backup_records : N;
  payload_digest : bytes;
  backup_payload : bytes;
}.

#[export] Instance PortableJournalBackup_eq_dec : EqDecision PortableJournalBackup.
Proof. solve_decision. Defined.

Record RestoreReport := MkRestoreReport {
  restore_commit_seq : CommitSeq;
  restore_records : N;
  restore_payload_digest : bytes;
  restore_storage_sequence : N;
}.

Inductive JournalSnapshotSelector :=
  | JournalLatest
  | JournalAt (sequence : CommitSeq).

Record JournalSnapshot := MkJournalSnapshot {
  js_commit_seq : CommitSeq;
  js_storage_sequence : N;
  js_events : list JournalEvent;
}.

(** [ReplayMutation] and [ReplayMaintenance] have the same fields. *)
Record ReplayMutation := MkReplayMutation {
  replay_commit_seq : CommitSeq;
  replay_mutation_id : MutationId;
  replay_mutation_digest : bytes;
  replay_exact_bytes : bytes;
}.
Definition ReplayMaintenance : Type := ReplayMutation.

Record RecoveryReport := MkRecoveryReport {
  recovery_commit_seq : CommitSeq;
  recovery_storage_sequence : N;
  removed_tail_records : N;
  recovery_warnings : list string;
}.

Record JournalVerifyReport := MkJournalVerifyReport {
  jv_mode : VerifyMode;
  jv_commit_seq : CommitSeq;
  jv_storage_sequence : N;
  jv_events : N;
  jv_outbox_records : N;
  jv_idempotency_records : N;
  jv_warnings : list string;
}.

(** ** Frame payloads (coordinator.rs) *)

Record HeadPayload := MkHeadPayload { head_commit_seq : CommitSeq }.

Record IdentityIndexPayload := MkIdentityIndexPayload {
  index_commit_seq : CommitSeq;
  index_request_digest : bytes;
}.

Record ObservationFramePayload := MkObservationFramePayload {
  of_observation_id : ObservationId;
  of_request_digest : bytes;
  of_exact_bytes : bytes;
}.

Record SemanticMutationFramePayload := MkSemanticMutationFramePayload {
  mf_mutation_id : MutationId;
  mf_mutation_digest : bytes;
  mf_exact_bytes : bytes;
}.

Record SemanticPublicationFramePayload := MkSemanticPublicationFramePayload {
  pf_mutation_id : MutationId;
  pf_publication_id : PublicationId;
  pf_mutation_digest : bytes;
  pf_outbox_count : N;
}.

Record OutboxFramePayload := MkOutboxFramePayload {
  xf_mutation_id : MutationId;
  xf_index : N;
  xf_work : DerivedWorkItem;
}.

Inductive StoredReceipt :=
  | StoredObservation (receipt : ObservationReceipt)
  | StoredPublication (receipt : PublicationReceipt)
  | StoredMaintenance (receipt : MaintenanceReceipt).

Record IdempotencyPayload := MkIdempotencyPayload {
  ip_key_digest : bytes;
  ip_request_digest : bytes;
  ip_receipt : StoredReceipt;
}.

Record BackupEntry := MkBackupEntry { be_key : bytes; be_value : bytes }.
Record BackupSection := MkBackupSection { section_name : string; section_entries : list BackupEntry }.
Record BackupPayload := MkBackupPayload {
  bp_schema_version : N;
  bp_commit_seq : CommitSeq;
  bp_records : N;
  bp_sections : list BackupSection;
}.

Record DecodedPayload (T : Type) := MkDecodedPayload {
  decoded_sequence : CommitSeq;
  decoded_value : T;
}.
Arguments MkDecodedPayload {T} _ _.
Arguments decoded_sequence {T} _.
Arguments decoded_value {T} _.

Definition SCHEMA_VERSION : N := 1.
Definition BACKUP_SCHEMA_VERSION : N := 1.

Section frames.
Context `{Blake3, SerdeError}.

Definition encode_frame `{!Json T} (kind : RecordKind) (sequence : CommitSeq) (value : T) : JResult bytes :=
  let? payload := json (to_vec value) in
  format (encode_record (RecordKind_u16 kind) SCHEMA_VERSION 0 sequence payload).

Definition decode_any (T : Type) `{!Json T} (bs : bytes) (kind : RecordKind)
    : JResult (DecodedPayload T) :=
  let? record := format (decode_record bs) in
  if negb (record_kind (envelope record) =? RecordKind_u16 kind)%N
     || negb (schema_version (envelope record) =? SCHEMA_VERSION)%N
     || negb (flags (envelope record) =? 0)%N
  then Err (Corruption "record envelope kind, schema, or flags are invalid")
  else
  let? value := json (from_slice (payload record)) in
  Ok (MkDecodedPayload (commit_seq (envelope record)) value).

Definition decode_frame (T : Type) `{!Json T} (bs : bytes) (kind : RecordKind) (sequence : CommitSeq)
    : JResult T :=
  let? decoded := decode_any T bs kind in
  if negb (decoded_sequence decoded =? sequence)%N
  then Err (Corruption ("frame sequence " +:+ pretty (decoded_sequence decoded) +:+
                        " differs from expected " +:+ pretty sequence))
  else Ok (decoded_value decoded).

Definition fail_if (selected : option CommitStage) (stage : CommitStage) : JResult unit :=
  if bool_decide (selected = Some stage) then Err (InjectedFailure stage) else Ok tt.

Definition ensure_durability (commit_seq : CommitSeq) (requested achieved : Durability) : JResult unit :=
  if bool_decide (requested = Sync) && negb (bool_decide (achieved = Sync))
  then Err (DurabilityNotAchieved commit_seq requested achieved)
  else Ok tt.
End frames.

(** ** Facts about keys *)

Lemma sequence_from_key_Some pfx n suffix :
  (n ≤ U64_MAX)%N → (len pfx + 8 + len suffix ≤ USIZE_MAX)%N →
  sequence_from_key (pfx ++ to_be_bytes 8 n ++ suffix) pfx (len suffix) = Some n.
Proof.
  intros Hn Hl. unfold sequence_from_key.
  rewrite (proj2 (checked_add_Some USIZE_MAX (len pfx) 8 (len pfx + 8)%N)) by lia. cbn [mbind option_bind].
  rewrite (proj2 (checked_add_Some USIZE_MAX (len pfx + 8) (len suffix) (len pfx + 8 + len suffix)%N))
    by lia. cbn [mbind option_bind].
  assert (len (to_be_bytes 8 n) = 8%N) as Hbe by (unfold len; by rewrite length_to_be_bytes).
  rewrite !len_app, Hbe.
  rewrite (proj2 (N.eqb_eq _ _)) by lia. rewrite starts_with_app. cbn [negb orb].
  rewrite slice_get_middle by (rewrite ?length_to_be_bytes; lia). cbn [mbind option_bind].
  rewrite from_to_be_bytes_small; [done|]. unfold U64_MAX in Hn. simpl. lia.
Qed.

Lemma sequence_from_event_key n : (n ≤ U64_MAX)%N → sequence_from_key (event_key n) EVENT_PREFIX 0 = Some n.
Proof.
  intros Hn. unfold event_key, sequence_key. rewrite <- (app_nil_r (to_be_bytes 8 n)).
  apply (sequence_from_key_Some EVENT_PREFIX n []); [done|by vm_compute].
Qed.

Lemma sequence_from_outbox_key n i :
  (n ≤ U64_MAX)%N → sequence_from_key (outbox_key n i) OUTBOX_PREFIX 4 = Some n.
Proof.
  intros Hn. assert (len (to_be_bytes 4 i) = 4%N) as Hbe
    by (unfold len; by rewrite length_to_be_bytes).
  rewrite <- Hbe. apply sequence_from_key_Some; [done|]. rewrite Hbe. by vm_compute.
Qed.

Lemma klt_app_l (p a b : bytes) : klt (p ++ a) (p ++ b) ↔ klt a b.
Proof.
  induction p as [|x p IH]; [done|]. rewrite <- IH. unfold klt.
  change (cmp ((x :: p) ++ a) ((x :: p) ++ b))
    with (match cmp x x with Eq => cmp (p ++ a) (p ++ b) | c => c end).
  by rewrite cmp_refl.
Qed.

Lemma klt_to_be_bytes n x y :
  (x < 256 ^ N.of_nat n)%N → (y < 256 ^ N.of_nat n)%N → klt (to_be_bytes n x) (to_be_bytes n y) ↔ (x < y)%N.
Proof. intros Hx Hy. unfold klt. rewrite to_be_bytes_cmp by done. apply N.compare_lt_iff. Qed.

Lemma event_key_lt m n :
  (m ≤ U64_MAX)%N → (n ≤ U64_MAX)%N → klt (event_key m) (event_key n) ↔ (m < n)%N.
Proof.
  intros. unfold event_key, sequence_key. rewrite klt_app_l, klt_to_be_bytes; [done|..];
    unfold U64_MAX in *; simpl; lia.
Qed.

Lemma outbox_key_lt n i j :
  (i ≤ U32_MAX)%N → (j ≤ U32_MAX)%N → klt (outbox_key n i) (outbox_key n j) ↔ (i < j)%N.
Proof.
  intros. unfold outbox_key. rewrite !klt_app_l, klt_to_be_bytes; [done|..];
    unfold U32_MAX in *; simpl; lia.
Qed.

Lemma outbox_key_inj m n i j :
  (m ≤ U64_MAX)%N → (n ≤ U64_MAX)%N → (i ≤ U32_MAX)%N → (j ≤ U32_MAX)%N →
  outbox_key m i = outbox_key n j → m = n ∧ i = j.
Proof.
  intros Hm Hn Hi Hj [H1 H2]%(inj (app OUTBOX_PREFIX))%app_inj_1; [|by rewrite !length_to_be_bytes].
  split; [eapply (to_be_bytes_inj 8)|eapply (to_be_bytes_inj 4)]; try done;
    unfold U64_MAX, U32_MAX in *; simpl; lia.
Qed.

Lemma event_key_inj m n :
  (m ≤ U64_MAX)%N → (n ≤ U64_MAX)%N → event_key m = event_key n → m = n.
Proof.
  intros Hm Hn Heq%(inj (app EVENT_PREFIX)). eapply (to_be_bytes_inj 8); try done;
    unfold U64_MAX in *; simpl; lia.
Qed.

Lemma outbox_prefix_key m n i :
  (m ≤ U64_MAX)%N → (n ≤ U64_MAX)%N →
  starts_with (outbox_sequence_prefix m) (outbox_key n i) = true ↔ m = n.
Proof.
  intros Hm Hn. unfold outbox_sequence_prefix, sequence_key, outbox_key. split.
  - intros [k Heq]%starts_with_spec. rewrite <- app_assoc in Heq.
    apply (inj (app OUTBOX_PREFIX)), app_inj_1 in Heq as [Heq _]; [|by rewrite !length_to_be_bytes].
    symmetry. eapply (to_be_bytes_inj 8); try done; unfold U64_MAX in *; simpl; lia.
  - intros ->. rewrite app_assoc. apply starts_with_app.
Qed.

Lemma idempotency_key_inj d1 d2 : idempotency_key d1 = idempotency_key d2 → d1 = d2.
Proof. apply (inj (app IDEMPOTENCY_PREFIX)). Qed.

Lemma observation_key_inj i j : observation_key i = observation_key j → i = j.
Proof. intros ?%(inj (app OBSERVATION_PREFIX)). by apply as_bytes_inj. Qed.

Lemma mutation_key_inj i j : mutation_key i = mutation_key j → i = j.
Proof. intros ?%(inj (app MUTATION_PREFIX)). by apply as_bytes_inj. Qed.

(** ** Facts about frames *)

Section frame_facts.
Context `{Blake3, SerdeError}.

Lemma RecordKind_u16_bound k : (RecordKind_u16 k ≤ U16_MAX)%N.
Proof. by destruct k. Qed.

Lemma decode_record_frame `{!Json T} kind n (v : T) bs :
  (n ≤ U64_MAX)%N → encode_frame kind n v = Ok bs →
  ∃ p, to_vec v = Ok p ∧
    decode_record bs = Ok (MkDecodedRecord
      (MkRecordEnvelope (RecordKind_u16 kind) SCHEMA_VERSION 0 n (len p) (checksum p)) p).
Proof.
  intros Hn (p & Hp%map_err_Ok & [Hl ->]%map_err_Ok%encode_record_Ok)%result_bind_Ok.
  exists p. split; [done|]. rewrite decode_frame_of, !N.eqb_refl; try done;
    auto using checksum_bound, RecordKind_u16_bound.
Qed.

Lemma decode_any_frame `{!Json T, !JsonRoundtrip T} kind n (v : T) bs :
  (n ≤ U64_MAX)%N → encode_frame kind n v = Ok bs →
  decode_any T bs kind = Ok (MkDecodedPayload n v).
Proof.
  intros Hn (p & Hp & Hd)%decode_record_frame; [|done]. unfold decode_any.
  rewrite Hd. cbn [format map_err result_bind envelope record_kind schema_version flags payload commit_seq].
  rewrite !N.eqb_refl. cbn [negb orb]. by rewrite (json_roundtrip v p).
Qed.

Lemma decode_frame_encode `{!Json T, !JsonRoundtrip T} kind n (v : T) bs :
  (n ≤ U64_MAX)%N → encode_frame kind n v = Ok bs → decode_frame T bs kind n = Ok v.
Proof.
  intros Hn He. unfold decode_frame. rewrite (decode_any_frame _ _ _ _ Hn He). simpl.
  by rewrite N.eqb_refl.
Qed.

Lemma ensure_durability_Ok c r a :
  ensure_durability c r a = Ok tt ↔ (r = Sync → a = Sync).
Proof. unfold ensure_durability. repeat case_bool_decide; simpl; naive_solver. Qed.
End frame_facts.
