(* ===== verification/Journal.v ===== *)
(** * The journal coordinator (crate contextdb-journal, coordinator.rs)

    Every operation runs on the shared physical engine: [M E A] passes the engine
    state through and returns a result.  The commit mutex serialises the
    operations, so one operation is one transition of the engine.  Fresh
    publication ids ([PublicationId::new]) are arguments. *)

From stdpp Require Import pretty.
From S2P Require Import Prelude.
From S2P Require Import Ordering.
From S2P Require Import Bytes.
From S2P Require Import Storage.
From S2P Require Import Engine.
From S2P Require Import Format.
From S2P Require Import CoreBase.
From S2P Require Import Provenance.
From S2P Require Import Policy.
From S2P Require Import Identity.
From S2P Require Import Evidence.
From S2P Require Import Semantic.
From S2P Require Import MemoryTypes.
From S2P Require Import Mutation.
From S2P Require Import Maintenance.
From S2P Require Import JournalModel.

(** ** State and errors *)

Definition M `{SerdeError} (E A : Type) : Type := E → E * JResult A.

Section monad.
Context `{SerdeError} {E : Type}.

Definition ret {A} (a : A) : M E A := λ e, (e, Ok a).
Definition lift {A} (m : JResult A) : M E A := λ e, (e, m).
(** Reads of the engine do not change it. *)
Definition reading {A} (f : E → JResult A) : M E A := λ e, (e, f e).
Definition M_bind {A B} (m : M E A) (k : A → M E B) : M E B := λ e,
  match m e with
  | (e', Ok a) => k a e'
  | (e', Err err) => (e', Err err)
  end.
End monad.

Notation "'let!' x := m 'in' k" := (M_bind m (λ x, k))
  (at level 200, x name, m at level 100, k at level 200,
   format "'[v' 'let!'  x  :=  m  'in' '/' k ']'") : rust_scope.
Notation "'do!' m 'in' k" := (M_bind m (λ _, k))
  (at level 200, m at level 100, k at level 200,
   format "'[v' 'do!'  m  'in' '/' k ']'") : rust_scope.

(** ** Reading the store *)

(** The names the constructor checks. *)
Definition META : Keyspace := MkKeyspace "journal_meta".
Definition EVENTS : Keyspace := MkKeyspace "semantic_journal".
Definition OUTBOX : Keyspace := MkKeyspace "journal_outbox".
Definition IDEMPOTENCY : Keyspace := MkKeyspace "journal_idempotency".
Definition OBSERVATIONS : Keyspace := MkKeyspace "journal_observation".
Definition MUTATIONS : Keyspace := MkKeyspace "journal_mutation".

Definition portable_keyspaces : list (string * Keyspace) :=
  [("journal_meta", META); ("semantic_journal", EVENTS); ("journal_outbox", OUTBOX);
   ("journal_idempotency", IDEMPOTENCY); ("journal_observation", OBSERVATIONS);
   ("journal_mutation", MUTATIONS)].

Definition portable_keyspace (name : string) : option Keyspace :=
  snd <$> head (filter (λ nk, nk.1 = name) portable_keyspaces).

(** serde_json at the types the journal reads and writes. *)
Class JournalJson `{JsonValue, SerdeError} := {
  json_observation :: Json ObservationUnit;
  json_mutation :: Json SemanticMutationSet;
  json_maintenance :: Json MaintenanceMutationSet;
  json_head :: Json HeadPayload;
  json_index :: Json IdentityIndexPayload;
  json_observation_frame :: Json ObservationFramePayload;
  json_mutation_frame :: Json SemanticMutationFramePayload;
  json_publication_frame :: Json SemanticPublicationFramePayload;
  json_outbox_frame :: Json OutboxFramePayload;
  json_idempotency :: Json IdempotencyPayload;
  json_backup :: Json BackupPayload;
}.

Section reads.
Context `{Blake3, JournalJson} `{ReadSnapshot R}.

Definition logical_head (snapshot : R) : JResult CommitSeq :=
  let? found := storage (get snapshot META HEAD_KEY) in
  match found with
  | None => Ok GENESIS
  | Some bs =>
      let? record := decode_any HeadPayload bs Snapshot in
      if negb (head_commit_seq (decoded_value record) =? decoded_sequence record)%N
      then Err (Corruption "head payload and envelope sequence differ")
      else Ok (decoded_sequence record)
  end.

Definition observation_index (snapshot : R) (observation_id : ObservationId) (head : CommitSeq)
    : JResult (DecodedPayload IdentityIndexPayload) :=
  let? found := storage (get snapshot OBSERVATIONS (observation_key observation_id)) in
  match found with
  | None => Err (MissingObservation observation_id)
  | Some bs =>
      let? record := decode_any IdentityIndexPayload bs Snapshot in
      if negb (decoded_sequence record =? index_commit_seq (decoded_value record))%N
         || (head <? decoded_sequence record)%N
      then Err (Corruption "observation index points outside the published prefix")
      else Ok record
  end.

Definition validate_observation_reference (snapshot : R) (observation_id : ObservationId)
    (head : CommitSeq) : JResult unit :=
  map_ok (λ _, tt) (observation_index snapshot observation_id head).

(** The loop over the outbox entries of one publication. *)
Fixpoint read_outbox (sequence : N) (mutation_id : MutationId) (reason : string)
    (expected_index : N) (entries : list Entry) : JResult (list DerivedWorkItem) :=
  match entries with
  | [] => Ok []
  | entry :: rest =>
      let? payload := decode_frame OutboxFramePayload (value entry) Outbox sequence in
      if negb (bool_decide (xf_mutation_id payload = mutation_id))
         || negb (xf_index payload =? expected_index)%N
         || negb (bool_decide (key entry = outbox_key sequence (xf_index payload)))
      then Err (Corruption reason)
      else
      let? outbox := read_outbox sequence mutation_id reason (expected_index + 1) rest in
      Ok (xf_work payload :: outbox)
  end.

Definition materialize_observation (snapshot : R) (sequence : N) (record : DecodedRecord)
    : JResult JournalEvent :=
  let? p := json (from_slice (T:=ObservationFramePayload) (payload record)) in
  let? validated := Observation_from_json (of_exact_bytes p) in
  if negb (bool_decide (vo_id validated = of_observation_id p))
     || negb (bool_decide (vo_digest validated = of_request_digest p))
  then Err (Corruption ("observation exact bytes or digest mismatch at sequence " +:+ pretty sequence))
  else
  let? index := observation_index snapshot (of_observation_id p) sequence in
  if negb (decoded_sequence index =? sequence)%N
     || negb (bool_decide (index_request_digest (decoded_value index) = of_request_digest p))
  then Err (Corruption ("observation index mismatch at sequence " +:+ pretty sequence))
  else Ok (ObservationAccepted sequence (of_observation_id p) (of_exact_bytes p) (of_request_digest p)).

Definition materialize_semantic (snapshot : R) (sequence : N) (record : DecodedRecord)
    : JResult JournalEvent :=
  let? publication := json (from_slice (T:=SemanticPublicationFramePayload) (payload record)) in
  let? found := storage (get snapshot MUTATIONS (mutation_key (pf_mutation_id publication))) in
  let? mutation_bytes := ok_or found
    (Corruption ("publication at sequence " +:+ pretty sequence +:+ " has no exact mutation frame")) in
  let? mutation := decode_frame SemanticMutationFramePayload mutation_bytes SemanticMutation sequence in
  let? validated := Mutation_from_json (mf_exact_bytes mutation) in
  if negb (bool_decide (mf_mutation_id mutation = pf_mutation_id publication))
     || negb (bool_decide (mf_mutation_digest mutation = pf_mutation_digest publication))
     || negb (bool_decide (vm_id validated = pf_mutation_id publication))
     || negb (bool_decide (vm_digest validated = pf_mutation_digest publication))
  then Err (Corruption ("publication mutation bytes or digest mismatch at sequence " +:+ pretty sequence))
  else
  let? expected_base := ok_or (checked_sub sequence 1)
    (Corruption "semantic publication cannot occur at genesis") in
  if negb (snapshot_commit_seq (base_snapshot (vm_mutation validated)) =? expected_base)%N
  then Err (Corruption ("semantic publication base mismatch at sequence " +:+ pretty sequence))
  else
  try? for_each (λ observation_id, validate_observation_reference snapshot observation_id expected_base)
         (into_vec (journal_refs (vm_mutation validated))) in
  let? outbox_entries := storage (scan_prefix snapshot OUTBOX (outbox_sequence_prefix sequence)) in
  if negb (len outbox_entries =? pf_outbox_count publication)%N
  then Err (Corruption ("publication outbox is incomplete at sequence " +:+ pretty sequence))
  else
  let? outbox := read_outbox sequence (pf_mutation_id publication)
    ("publication outbox ordering mismatch at sequence " +:+ pretty sequence) 0 outbox_entries in
  if negb (bool_decide (outbox = derived_work (vm_mutation validated)))
  then Err (Corruption ("publication outbox content mismatch at sequence " +:+ pretty sequence))
  else Ok (SemanticPublished sequence (pf_mutation_id publication) (pf_publication_id publication)
             (mf_exact_bytes mutation) (pf_mutation_digest publication) outbox).

Definition materialize_maintenance (snapshot : R) (sequence : N) (record : DecodedRecord)
    : JResult JournalEvent :=
  let? publication := json (from_slice (T:=SemanticPublicationFramePayload) (payload record)) in
  let? found := storage (get snapshot MUTATIONS (mutation_key (pf_mutation_id publication))) in
  let? mutation_bytes := ok_or found
    (Corruption ("maintenance publication at sequence " +:+ pretty sequence +:+ " has no exact frame")) in
  let? mutation := decode_frame SemanticMutationFramePayload mutation_bytes MaintenanceMutation sequence in
  let? validated := Maintenance_from_json (mf_exact_bytes mutation) in
  if negb (bool_decide (mf_mutation_id mutation = pf_mutation_id publication))
     || negb (bool_decide (mf_mutation_digest mutation = pf_mutation_digest publication))
     || negb (bool_decide (vx_id validated = pf_mutation_id publication))
     || negb (bool_decide (vx_digest validated = pf_mutation_digest publication))
  then Err (Corruption ("maintenance mutation bytes or digest mismatch at sequence " +:+ pretty sequence))
  else
  let? expected_base := ok_or (checked_sub sequence 1)
    (Corruption "maintenance publication cannot occur at genesis") in
  if negb (snapshot_commit_seq (maintenance_base (vx_mutation validated)) =? expected_base)%N
  then Err (Corruption ("maintenance publication base mismatch at sequence " +:+ pretty sequence))
  else
  let? outbox_entries := storage (scan_prefix snapshot OUTBOX (outbox_sequence_prefix sequence)) in
  if negb (len outbox_entries =? pf_outbox_count publication)%N
  then Err (Corruption ("maintenance publication outbox is incomplete at sequence " +:+ pretty sequence))
  else
  let? outbox := read_outbox sequence (pf_mutation_id publication)
    ("maintenance outbox ordering mismatch at sequence " +:+ pretty sequence) 0 outbox_entries in
  if negb (bool_decide (outbox = maintenance_derived_work (vx_mutation validated)))
  then Err (Corruption ("maintenance outbox content mismatch at sequence " +:+ pretty sequence))
  else Ok (MaintenancePublished sequence (pf_mutation_id publication) (pf_publication_id publication)
             (mf_exact_bytes mutation) (pf_mutation_digest publication) outbox).

Definition materialize_event (snapshot : R) (sequence : N) (bs : bytes) : JResult JournalEvent :=
  let? record := format (decode_record bs) in
  if negb (schema_version (envelope record) =? SCHEMA_VERSION)%N
     || negb (flags (envelope record) =? 0)%N
     || negb (commit_seq (envelope record) =? sequence)%N
  then Err (Corruption ("event envelope metadata is invalid at sequence " +:+ pretty sequence))
  else
  let kind := record_kind (envelope record) in
  if (kind =? RecordKind_u16 Observation)%N then materialize_observation snapshot sequence record
  else if (kind =? RecordKind_u16 SemanticPublication)%N then materialize_semantic snapshot sequence record
  else if (kind =? RecordKind_u16 MaintenancePublication)%N
  then materialize_maintenance snapshot sequence record
  else Err (Corruption ("unsupported logical event kind " +:+ pretty kind +:+
                        " at sequence " +:+ pretty sequence)).

(** One iteration of the snapshot loop: the events so far and the next expected
    sequence. *)
Definition snapshot_entry (snapshot : R) (requested : CommitSeq) (st : list JournalEvent * N)
    (entry : Entry) : JResult (list JournalEvent * N) :=
  let? sequence := ok_or (sequence_from_key (key entry) EVENT_PREFIX 0)
    (Corruption "journal event has a malformed ordered key") in
  if (requested <? sequence)%N then Ok st
  else if negb (sequence =? st.2)%N
  then Err (Corruption ("logical journal is not contiguous: expected " +:+ pretty st.2 +:+
                        ", found " +:+ pretty sequence))
  else
  let? event := materialize_event snapshot sequence (value entry) in
  Ok (st.1 ++ [event], saturating_add U64_MAX st.2 1).

Definition read_journal (snapshot : R) (selector : JournalSnapshotSelector) : JResult JournalSnapshot :=
  let? head := logical_head snapshot in
  let? requested := match selector with
    | JournalLatest => Ok head
    | JournalAt sequence =>
        if (head <? sequence)%N then Err (JournalSnapshotUnavailable sequence head) else Ok sequence
    end in
  let? entries := storage (scan_prefix snapshot EVENTS EVENT_PREFIX) in
  let? requested_len := ok_or (try_from_max USIZE_MAX requested)
    (Corruption "logical sequence cannot be represented on this platform") in
  let? '(events, _) := try_fold (snapshot_entry snapshot requested) ([], 1%N) entries in
  if negb (len events =? requested_len)%N
  then Err (Corruption ("logical head " +:+ pretty requested +:+ " names " +:+ pretty requested +:+
                        " events but " +:+ pretty (len events) +:+ " were materialized"))
  else Ok (MkJournalSnapshot requested (sequence snapshot) events).

(** ** Tail collection *)

Definition collect_keyed_tail (snapshot : R) (keyspace : Keyspace) (prefix : bytes) (suffix_len : N)
    (head : CommitSeq) (deletions : list (Keyspace * bytes)) : JResult (list (Keyspace * bytes)) :=
  let? entries := storage (scan_prefix snapshot keyspace prefix) in
  try_fold (λ deletions entry,
    let? sequence := ok_or (sequence_from_key (key entry) prefix suffix_len)
      (Corruption "ordered journal key has invalid shape") in
    if (head <? sequence)%N then Ok (deletions ++ [(keyspace, key entry)]) else Ok deletions)
    deletions entries.

Definition collect_framed_tail (snapshot : R) (keyspace : Keyspace) (prefix : bytes)
    (head : CommitSeq) (deletions : list (Keyspace * bytes)) : JResult (list (Keyspace * bytes)) :=
  let? entries := storage (scan_prefix snapshot keyspace prefix) in
  try_fold (λ deletions entry,
    let? record := format (decode_record (value entry)) in
    if (head <? commit_seq (envelope record))%N then Ok (deletions ++ [(keyspace, key entry)])
    else Ok deletions)
    deletions entries.

(** The five collections at the start of [recover]. *)
Definition collect_tail (snapshot : R) (head : CommitSeq) : JResult (list (Keyspace * bytes)) :=
  let? deletions := collect_keyed_tail snapshot EVENTS EVENT_PREFIX 0 head [] in
  let? deletions := collect_keyed_tail snapshot OUTBOX OUTBOX_PREFIX 4 head deletions in
  let? deletions := collect_framed_tail snapshot MUTATIONS MUTATION_PREFIX head deletions in
  let? deletions := collect_framed_tail snapshot OBSERVATIONS OBSERVATION_PREFIX head deletions in
  collect_framed_tail snapshot IDEMPOTENCY IDEMPOTENCY_PREFIX head deletions.
End reads.

(** ** Operations on the engine *)

Section operations.
Context `{Blake3, JournalJson} `{StorageEngine E}.

Definition latest : M E Snap := reading (λ e, storage (begin_read e Latest)).
Definition open_transaction : M E Txn := reading (λ e, storage (begin_write e)).
Definition commit_transaction (t : Txn) (d : Durability) : M E CommitReceipt := λ e,
  let '(e', r) := commit e t d in (e', storage r).

(** [transaction.put(keyspace, key, encode(kind, sequence, value)?)?]. *)
Definition put_frame `{!Json T} (t : Txn) (keyspace : Keyspace) (key : bytes) (kind : RecordKind)
    (sequence : CommitSeq) (value : T) : JResult Txn :=
  let? bs := encode_frame kind sequence value in
  storage (put t keyspace key bs).

Definition stage_head (t : Txn) (head : CommitSeq) : JResult Txn :=
  put_frame t META HEAD_KEY Snapshot head (MkHeadPayload head).

(** *** Idempotent retries *)

Definition read_idempotency (key_digest : bytes) : M E (option IdempotencyPayload) :=
  let! snapshot := latest in
  lift (let? found := storage (get snapshot IDEMPOTENCY (idempotency_key key_digest)) in
        match found with
        | None => Ok None
        | Some bs =>
            let? record := decode_any IdempotencyPayload bs Snapshot in
            Ok (Some (decoded_value record))
        end).

Definition synchronize_retry_if_required (commit_seq : CommitSeq) (requested : Durability) : M E unit :=
  if bool_decide (requested = Sync) then
    let! transaction := open_transaction in
    let! receipt := commit_transaction transaction Sync in
    lift (ensure_durability commit_seq Sync (receipt_durability receipt))
  else ret tt.

(** The check shared by the three retry readers. *)
Definition retry_matches (stored : IdempotencyPayload) (key_digest request_digest : bytes) : bool :=
  bool_decide (ip_key_digest stored = key_digest)
  && bool_decide (ip_request_digest stored = request_digest).

Definition read_observation_retry (key_digest request_digest : bytes) (requested : Durability)
    : M E (option ObservationReceipt) :=
  let! found := read_idempotency key_digest in
  match found with
  | None => ret None
  | Some stored =>
      if negb (retry_matches stored key_digest request_digest) then lift (Err IdempotencyConflict)
      else
      match ip_receipt stored with
      | StoredObservation r =>
          do! lift (ensure_durability (or_commit_seq r) requested (or_durability r)) in
          do! synchronize_retry_if_required (or_commit_seq r) requested in
          ret (Some (MkObservationReceipt (or_observation_id r) (or_commit_seq r) (or_durability r)
                       true (or_request_digest r)))
      | _ => lift (Err IdempotencyConflict)
      end
  end.

Definition replay_publication (r : PublicationReceipt) (requested : Durability)
    : M E (option PublicationReceipt) :=
  do! lift (ensure_durability (pr_commit_seq r) requested (pr_durability r)) in
  do! synchronize_retry_if_required (pr_commit_seq r) requested in
  ret (Some (MkPublicationReceipt (pr_mutation_id r) (pr_publication_id r) (pr_commit_seq r)
               (pr_durability r) (pr_outbox_count r) true (pr_mutation_digest r))).

Definition read_publication_retry (key_digest request_digest : bytes) (requested : Durability)
    : M E (option PublicationReceipt) :=
  let! found := read_idempotency key_digest in
  match found with
  | None => ret None
  | Some stored =>
      if negb (retry_matches stored key_digest request_digest) then lift (Err IdempotencyConflict)
      else
      match ip_receipt stored with
      | StoredPublication r => replay_publication r requested
      | _ => lift (Err IdempotencyConflict)
      end
  end.

Definition read_maintenance_retry (key_digest request_digest : bytes) (requested : Durability)
    : M E (option MaintenanceReceipt) :=
  let! found := read_idempotency key_digest in
  match found with
  | None => ret None
  | Some stored =>
      if negb (retry_matches stored key_digest request_digest) then lift (Err IdempotencyConflict)
      else
      match ip_receipt stored with
      | StoredMaintenance r => replay_publication r requested
      | _ => lift (Err IdempotencyConflict)
      end
  end.

(** *** Commits *)

(** The end of every commit: the failpoint, the physical commit, the durability
    check, the lost response. *)
Definition finish_commit {A} (t : Txn) (next : CommitSeq) (options : CommitOptions) (receipt : A)
    : M E A :=
  if bool_decide (fail_at options = Some AfterStaging) then
    do! lift (storage (rollback t)) in
    lift (Err (InjectedFailure AfterStaging))
  else
  let! physical := commit_transaction t (durability options) in
  do! lift (ensure_durability next (durability options) (receipt_durability physical)) in
  if bool_decide (fail_at options = Some AfterCommitBeforeAck) then lift (Err (LostResponse next))
  else ret receipt.

(** The frames of an accepted observation. *)
Definition stage_observation (t : Txn) (next : CommitSeq) (key_digest : bytes)
    (o : ValidatedObservationBytes) (receipt : ObservationReceipt) : JResult Txn :=
  let? t := put_frame t EVENTS (event_key next) Observation next
    (MkObservationFramePayload (vo_id o) (vo_digest o) (vo_bytes o)) in
  let? t := put_frame t OBSERVATIONS (observation_key (vo_id o)) Snapshot next
    (MkIdentityIndexPayload next (vo_digest o)) in
  let? t := put_frame t IDEMPOTENCY (idempotency_key key_digest) Snapshot next
    (MkIdempotencyPayload key_digest (vo_digest o) (StoredObservation receipt)) in
  stage_head t next.

Definition accept_observation (idempotency : IdempotencyKey) (o : ValidatedObservationBytes)
    (options : CommitOptions) : M E ObservationReceipt :=
  let key_digest := idempotency_digest idempotency in
  let! retry := read_observation_retry key_digest (vo_digest o) (durability options) in
  match retry with
  | Some receipt => ret receipt
  | None =>
      do! lift (fail_if (fail_at options) AfterValidation) in
      let! t := open_transaction in
      let! head := lift (logical_head t) in
      let! next := lift (ok_or (checked_next head) CommitSequenceExhausted) in
      let! existing := lift (storage (get t OBSERVATIONS (observation_key (vo_id o)))) in
      if bool_decide (is_Some existing) then lift (Err DuplicateObservation)
      else
      let receipt := MkObservationReceipt (vo_id o) next (durability options) false (vo_digest o) in
      let! t := lift (stage_observation t next key_digest o receipt) in
      finish_commit t next options receipt
  end.

(** The outbox frames, one per derived work item. *)
Fixpoint stage_outbox (t : Txn) (next : CommitSeq) (mutation_id : MutationId) (index : N)
    (work : list DerivedWorkItem) : JResult Txn :=
  match work with
  | [] => Ok t
  | item :: rest =>
      let? index32 := ok_or (try_from_max U32_MAX index)
        (Corruption "derived-work index exceeds portable u32 range") in
      let? t := put_frame t OUTBOX (outbox_key next index32) Outbox next
        (MkOutboxFramePayload mutation_id index32 item) in
      stage_outbox t next mutation_id (index + 1) rest
  end.

(** The frames of a publication; semantic and maintenance publications differ in
    the two record kinds and in the stored receipt. *)
Definition stage_publication (t : Txn) (next : CommitSeq) (key_digest : bytes)
    (mutation_kind publication_kind : RecordKind) (store : PublicationReceipt → StoredReceipt)
    (exact : bytes) (work : list DerivedWorkItem) (receipt : PublicationReceipt) : JResult Txn :=
  let mutation_id := pr_mutation_id receipt in
  let digest := pr_mutation_digest receipt in
  let? t := put_frame t MUTATIONS (mutation_key mutation_id) mutation_kind next
    (MkSemanticMutationFramePayload mutation_id digest exact) in
  let? t := put_frame t EVENTS (event_key next) publication_kind next
    (MkSemanticPublicationFramePayload mutation_id (pr_publication_id receipt) digest
       (pr_outbox_count receipt)) in
  let? t := stage_outbox t next mutation_id 0 work in
  let? t := put_frame t IDEMPOTENCY (idempotency_key key_digest) Snapshot next
    (MkIdempotencyPayload key_digest digest (store receipt)) in
  stage_head t next.

Definition outbox_count_of (work : list DerivedWorkItem) : JResult N :=
  ok_or (try_from_max U32_MAX (len work))
    (Corruption "derived-work count exceeds portable u32 range").

Definition publish_semantic (publication_id : PublicationId) (idempotency : IdempotencyKey)
    (m : ValidatedMutationBytes) (options : CommitOptions) : M E PublicationReceipt :=
  let key_digest := idempotency_digest idempotency in
  let! retry := read_publication_retry key_digest (vm_digest m) (durability options) in
  match retry with
  | Some receipt => ret receipt
  | None =>
      do! lift (fail_if (fail_at options) AfterValidation) in
      let! t := open_transaction in
      let! head := lift (logical_head t) in
      let base := snapshot_commit_seq (base_snapshot (vm_mutation m)) in
      if negb (base =? head)%N then lift (Err (BaseSnapshotMismatch base head))
      else
      do! lift (for_each (λ observation_id, validate_observation_reference t observation_id head)
                  (into_vec (journal_refs (vm_mutation m)))) in
      let! existing := lift (storage (get t MUTATIONS (mutation_key (vm_id m)))) in
      if bool_decide (is_Some existing) then lift (Err IdempotencyConflict)
      else
      let! next := lift (ok_or (checked_next head) CommitSequenceExhausted) in
      let! outbox_count := lift (outbox_count_of (derived_work (vm_mutation m))) in
      let receipt := MkPublicationReceipt (vm_id m) publication_id next (durability options)
        outbox_count false (vm_digest m) in
      let! t := lift (stage_publication t next key_digest SemanticMutation SemanticPublication
        StoredPublication (vm_bytes m) (derived_work (vm_mutation m)) receipt) in
      finish_commit t next options receipt
  end.

Definition publish_maintenance (publication_id : PublicationId) (idempotency : IdempotencyKey)
    (m : ValidatedMaintenanceBytes) (options : CommitOptions) : M E MaintenanceReceipt :=
  let key_digest := idempotency_digest idempotency in
  let! retry := read_maintenance_retry key_digest (vx_digest m) (durability options) in
  match retry with
  | Some receipt => ret receipt
  | None =>
      do! lift (fail_if (fail_at options) AfterValidation) in
      let! t := open_transaction in
      let! head := lift (logical_head t) in
      let base := snapshot_commit_seq (maintenance_base (vx_mutation m)) in
      if negb (base =? head)%N then lift (Err (BaseSnapshotMismatch base head))
      else
      let! existing := lift (storage (get t MUTATIONS (mutation_key (vx_id m)))) in
      if bool_decide (is_Some existing) then lift (Err IdempotencyConflict)
      else
      let! next := lift (ok_or (checked_next head) CommitSequenceExhausted) in
      let! outbox_count := lift (outbox_count_of (maintenance_derived_work (vx_mutation m))) in
      let receipt := MkPublicationReceipt (vx_id m) publication_id next (durability options)
        outbox_count false (vx_digest m) in
      let! t := lift (stage_publication t next key_digest MaintenanceMutation MaintenancePublication
        StoredMaintenance (vx_bytes m) (maintenance_derived_work (vx_mutation m)) receipt) in
      finish_commit t next options receipt
  end.

(** *** Snapshots, replay, recovery and verification *)

Definition journal_snapshot (selector : JournalSnapshotSelector) : M E JournalSnapshot :=
  let! snapshot := latest in lift (read_journal snapshot selector).

Definition replay_mutations (selector : JournalSnapshotSelector) : M E (list ReplayMutation) :=
  let! snapshot := journal_snapshot selector in
  ret (omap (λ event, match event with
    | SemanticPublished commit_seq mutation_id _ exact digest _ =>
        Some (MkReplayMutation commit_seq mutation_id digest exact)
    | ObservationAccepted _ _ _ _ | MaintenancePublished _ _ _ _ _ _ => None
    end) (js_events snapshot)).

Definition replay_maintenance (selector : JournalSnapshotSelector) : M E (list ReplayMaintenance) :=
  let! snapshot := journal_snapshot selector in
  ret (omap (λ event, match event with
    | MaintenancePublished commit_seq mutation_id _ exact digest _ =>
        Some (MkReplayMutation commit_seq mutation_id digest exact)
    | ObservationAccepted _ _ _ _ | SemanticPublished _ _ _ _ _ _ => None
    end) (js_events snapshot)).

(** The cleanup transaction of [recover], when there is something to delete. *)
Definition remove_tail (head : CommitSeq) (deletions : list (Keyspace * bytes)) : M E unit :=
  let! t := open_transaction in
  let! t := lift (try_fold (λ t kk, storage (delete_key t kk.1 kk.2)) t deletions) in
  let! receipt := commit_transaction t Sync in
  if negb (bool_decide (receipt_durability receipt = Sync))
  then lift (Err (DurabilityNotAchieved head Sync (receipt_durability receipt)))
  else ret tt.

Definition recover : M E RecoveryReport :=
  let! snapshot := latest in
  let! head := lift (logical_head snapshot) in
  let! deletions := lift (collect_tail snapshot head) in
  let removed := len deletions in
  let! warnings :=
    if is_empty deletions then ret []
    else
      do! remove_tail head deletions in
      ret ["removed " +:+ pretty removed +:+ " unpublished tail records"] in
  let! validated := journal_snapshot JournalLatest in
  ret (MkRecoveryReport (js_commit_seq validated) (js_storage_sequence validated) removed warnings).

Definition JournalCoordinator_new : M E unit :=
  do! lift (storage Keyspaces_new) in
  do! recover in
  ret tt.

(** The number of outbox frames an event accounts for. *)
Definition event_outbox_len (event : JournalEvent) : N :=
  match event with
  | SemanticPublished _ _ _ _ _ outbox | MaintenancePublished _ _ _ _ _ outbox => len outbox
  | ObservationAccepted _ _ _ _ => 0
  end.

Definition verify_snapshot (mode : VerifyMode) (physical : VerifyReport) (logical : JournalSnapshot)
    (snapshot : Snap) : JResult JournalVerifyReport :=
  let? idempotency := storage (scan_prefix snapshot IDEMPOTENCY IDEMPOTENCY_PREFIX) in
  try? for_each (λ entry,
    let? record := decode_any IdempotencyPayload (value entry) Snapshot in
    if (js_commit_seq logical <? decoded_sequence record)%N
    then Err (Corruption "idempotency record exists beyond logical head")
    else if negb (bool_decide (idempotency_key (ip_key_digest (decoded_value record)) = key entry))
    then Err (Corruption "idempotency record key digest mismatch")
    else Ok tt) idempotency in
  let? outbox := storage (scan_prefix snapshot OUTBOX OUTBOX_PREFIX) in
  try? for_each (λ entry,
    let? sequence := ok_or (sequence_from_key (key entry) OUTBOX_PREFIX 4)
      (Corruption "outbox record has malformed ordered key") in
    let? payload := decode_frame OutboxFramePayload (value entry) Outbox sequence in
    Ok tt) outbox in
  let? expected_outbox := try_fold (λ count event,
    ok_or (checked_add U64_MAX count (event_outbox_len event)) (Corruption "outbox count overflow"))
    0%N (js_events logical) in
  if negb (expected_outbox =? len outbox)%N
  then Err (Corruption "materialized outbox count does not match durable frames")
  else if negb (len (js_events logical) =? len idempotency)%N
  then Err (Corruption "logical event and idempotency receipt counts differ")
  else Ok (MkJournalVerifyReport mode (js_commit_seq logical) (report_sequence physical)
             (len (js_events logical)) (len outbox) (len idempotency) (report_warnings physical)).

Definition verify (mode : VerifyMode) : M E JournalVerifyReport :=
  let! physical := reading (λ e, storage (verify_engine e mode)) in
  let! logical := journal_snapshot JournalLatest in
  let! snapshot := latest in
  lift (verify_snapshot mode physical logical snapshot).
End operations.

(** ** Portable backup and restore *)

Section backup.
Context `{Blake3, JournalJson} `{StorageEngine E}.

(** One iteration of the section loop of [create_backup]. *)
Definition backup_section (snapshot : Snap) (st : list BackupSection * N) (nk : string * Keyspace)
    : JResult (list BackupSection * N) :=
  let? entries := storage (scan_prefix snapshot nk.2 []) in
  let entries := (λ e, MkBackupEntry (key e) (value e)) <$> entries in
  let? records := ok_or (checked_add U64_MAX st.2 (len entries)) (InvalidBackup "record count overflow") in
  Ok (st.1 ++ [MkBackupSection nk.1 entries], records).

Definition backup_of (commit_seq : CommitSeq) (snapshot : Snap) : JResult PortableJournalBackup :=
  let? '(sections, records) := try_fold (backup_section snapshot) ([], 0%N) portable_keyspaces in
  let? payload := json (to_vec (MkBackupPayload BACKUP_SCHEMA_VERSION commit_seq records sections)) in
  Ok (MkPortableJournalBackup BACKUP_SCHEMA_VERSION commit_seq records (blake3_hash payload) payload).

Definition create_backup : M E PortableJournalBackup :=
  let! verified := verify Deep in
  let! snapshot := latest in
  lift (backup_of (jv_commit_seq verified) snapshot).

(** [entries.windows(2).any(|pair| pair[0].key >= pair[1].key)]. *)
Fixpoint keys_out_of_order (entries : list BackupEntry) : bool :=
  match entries with
  | a :: (b :: _) as rest => kleb (be_key b) (be_key a) || keys_out_of_order rest
  | _ => false
  end.

(** The sequence an entry of a section names, when it names one. *)
Definition backup_entry_sequence (name : string) (entry : BackupEntry) : JResult (option N) :=
  if bool_decide (name = "semantic_journal") then Ok (sequence_from_key (be_key entry) EVENT_PREFIX 0)
  else if bool_decide (name = "journal_outbox") then Ok (sequence_from_key (be_key entry) OUTBOX_PREFIX 4)
  else if bool_decide (name = "journal_meta") then Ok None
  else
  let? record := map_err (λ _, InvalidBackup ("backup " +:+ name +:+ " entry is not a valid framed record"))
    (decode_record (be_value entry)) in
  Ok (Some (commit_seq (envelope record))).

Definition validate_backup_entry (head : CommitSeq) (name : string) (entry : BackupEntry) : JResult unit :=
  let? sequence := backup_entry_sequence name entry in
  if (bool_decide (name = "semantic_journal") || bool_decide (name = "journal_outbox"))
     && negb (bool_decide (is_Some sequence))
  then Err (InvalidBackup ("backup " +:+ name +:+ " entry key has invalid ordered shape"))
  else if match sequence with Some value => (head <? value)%N | None => false end
  then Err (InvalidBackup ("backup " +:+ name +:+ " contains an unpublished tail record"))
  else Ok tt.

Definition validate_backup_section (head : CommitSeq) (records : N) (section : BackupSection) : JResult N :=
  if keys_out_of_order (section_entries section)
     || existsb (λ entry, is_empty (be_key entry)) (section_entries section)
  then Err (InvalidBackup "backup keys are empty, duplicated, or not bytewise ordered")
  else
  let? records := ok_or (checked_add U64_MAX records (len (section_entries section)))
    (InvalidBackup "record count overflow") in
  try? for_each (validate_backup_entry head (section_name section)) (section_entries section) in
  Ok records.

Definition validate_backup_payload (p : BackupPayload) (container : PortableJournalBackup) : JResult unit :=
  if negb (bp_schema_version p =? BACKUP_SCHEMA_VERSION)%N
     || negb (bp_commit_seq p =? backup_commit_seq container)%N
     || negb (bp_records p =? backup_records container)%N
  then Err (InvalidBackup "payload metadata differs from container manifest")
  else if negb (bool_decide (section_name <$> bp_sections p = portable_keyspaces.*1))
  then Err (InvalidBackup "portable keyspace manifest is missing, duplicated, or reordered")
  else
  let? records := try_fold (validate_backup_section (bp_commit_seq p)) 0%N (bp_sections p) in
  if negb (records =? bp_records p)%N then Err (InvalidBackup "payload record count mismatch")
  else Ok tt.

(** The entries of one section, put into the keyspace its name selects. *)
Definition install_section (t : Txn) (section : BackupSection) : JResult Txn :=
  let? keyspace := ok_or (portable_keyspace (section_name section))
    (InvalidBackup "backup contains an unknown keyspace") in
  try_fold (λ t entry, storage (put t keyspace (be_key entry) (be_value entry))) t
    (section_entries section).

Definition restore_backup (backup : PortableJournalBackup) : M E RestoreReport :=
  do! JournalCoordinator_new in
  let actual_digest := blake3_hash (backup_payload backup) in
  if negb (backup_schema_version backup =? BACKUP_SCHEMA_VERSION)%N
     || negb (bool_decide (payload_digest backup = actual_digest))
  then lift (Err (InvalidBackup "container schema or payload digest mismatch"))
  else
  let! p := lift (json (from_slice (T:=BackupPayload) (backup_payload backup))) in
  do! lift (validate_backup_payload p backup) in
  let! target := latest in
  do! lift (for_each (λ nk,
    let? entries := storage (scan_prefix target nk.2 []) in
    if negb (is_empty entries) then Err RestoreTargetNotEmpty else Ok tt) portable_keyspaces) in
  let! t := open_transaction in
  let! t := lift (try_fold install_section t (bp_sections p)) in
  let! receipt := commit_transaction t Sync in
  do! lift (ensure_durability (bp_commit_seq p) Sync (receipt_durability receipt)) in
  let! recovery := recover in
  if negb (removed_tail_records recovery =? 0)%N
  then lift (Err (InvalidBackup "restore input required unpublished-tail recovery"))
  else
  let! verified := verify Deep in
  if negb (recovery_commit_seq recovery =? bp_commit_seq p)%N
     || negb (jv_commit_seq verified =? bp_commit_seq p)%N
  then lift (Err (InvalidBackup "restored logical head differs from backup manifest"))
  else
  let! installed := create_backup in
  if negb (bool_decide (installed = backup))
  then lift (Err (InvalidBackup "installed journal differs from the exact backup manifest"))
  else ret (MkRestoreReport (backup_commit_seq installed) (backup_records installed)
              (payload_digest installed) (receipt_sequence receipt)).
End backup.
