(* ===== verification/JournalSpec.v ===== *)
(** * The abstract journal and the store that represents it

    An abstract journal is a list of events and a map of receipts.  [represents]
    says which key-value store implements one; it is the invariant of the
    coordinator.  Every event is a list of writes, each a keyed frame, and a
    commit stages the writes of one event, its receipt and the new head. *)

From S2P Require Import Prelude.
From S2P Require Import Ordering.
From S2P Require Import Bytes.
From S2P Require Import Storage.
From S2P Require Import Engine.
From S2P Require Import Format.
From S2P Require Import CoreBase.
From S2P Require Import Provenance.
From S2P Require Import Policy.
From S2P Require Import Identity.
From S2P Require Import Evidence.
From S2P Require Import Semantic.
From S2P Require Import MemoryTypes.
From S2P Require Import Mutation.
From S2P Require Import Maintenance.
From S2P Require Import JournalModel.
From S2P Require Import Journal.

(** The documented round trip of serde_json for the frame payloads. *)
Class JournalJsonLaws `{JJ : JournalJson} := {
  head_roundtrip :: JsonRoundtrip HeadPayload;
  index_roundtrip :: JsonRoundtrip IdentityIndexPayload;
  observation_frame_roundtrip :: JsonRoundtrip ObservationFramePayload;
  mutation_frame_roundtrip :: JsonRoundtrip SemanticMutationFramePayload;
  publication_frame_roundtrip :: JsonRoundtrip SemanticPublicationFramePayload;
  outbox_frame_roundtrip :: JsonRoundtrip OutboxFramePayload;
  idempotency_roundtrip :: JsonRoundtrip IdempotencyPayload;
}.

Record Journal := MkJournal {
  log : list JournalEvent;
  receipts : gmap bytes IdempotencyPayload;
}.

Definition head_of (J : Journal) : CommitSeq := len (log J).
Definition next_of (J : Journal) : CommitSeq := (len (log J) + 1)%N.

Definition stored_seq (r : StoredReceipt) : CommitSeq :=
  match r with
  | StoredObservation r => or_commit_seq r
  | StoredPublication r | StoredMaintenance r => pr_commit_seq r
  end.

(** The receipt names the event and repeats its identity and digest. *)
Definition receipt_for (p : IdempotencyPayload) (ev : JournalEvent) : Prop :=
  match ip_receipt p, ev with
  | StoredObservation r, ObservationAccepted n id _ digest =>
      or_commit_seq r = n ∧ or_observation_id r = id ∧ or_request_digest r = digest ∧
      ip_request_digest p = digest
  | StoredPublication r, SemanticPublished n id pid _ digest outbox
  | StoredMaintenance r, MaintenancePublished n id pid _ digest outbox =>
      pr_commit_seq r = n ∧ pr_mutation_id r = id ∧ pr_publication_id r = pid ∧
      pr_mutation_digest r = digest ∧ ip_request_digest p = digest ∧ pr_outbox_count r = len outbox
  | _, _ => False
  end.

Definition append (J : Journal) (ev : JournalEvent) (p : IdempotencyPayload) : Journal :=
  MkJournal (log J ++ [ev]) (<[ip_key_digest p := p]> (receipts J)).

Section spec.
Context `{Blake3, JournalJson}.

(** ** Writes *)

(** A key with the outcome of encoding its frame. *)
Abbreviation Write := (Keyspace * bytes * JResult bytes)%type.

Definition outbox_writes (n : CommitSeq) (id : MutationId) (outbox : list DerivedWorkItem) : list Write :=
  imap (λ i w, (OUTBOX, outbox_key n (N.of_nat i),
                encode_frame Outbox n (MkOutboxFramePayload id (N.of_nat i) w))) outbox.

Definition publication_writes (mutation_kind publication_kind : RecordKind) (n : CommitSeq)
    (id : MutationId) (pid : PublicationId) (exact digest : bytes) (outbox : list DerivedWorkItem)
    : list Write :=
  (MUTATIONS, mutation_key id,
   encode_frame mutation_kind n (MkSemanticMutationFramePayload id digest exact)) ::
  (EVENTS, event_key n,
   encode_frame publication_kind n (MkSemanticPublicationFramePayload id pid digest (len outbox))) ::
  outbox_writes n id outbox.

Definition event_writes (ev : JournalEvent) : list Write :=
  match ev with
  | ObservationAccepted n id exact digest =>
      [(EVENTS, event_key n, encode_frame Observation n (MkObservationFramePayload id digest exact));
       (OBSERVATIONS, observation_key id, encode_frame Snapshot n (MkIdentityIndexPayload n digest))]
  | SemanticPublished n id pid exact digest outbox =>
      publication_writes SemanticMutation SemanticPublication n id pid exact digest outbox
  | MaintenancePublished n id pid exact digest outbox =>
      publication_writes MaintenanceMutation MaintenancePublication n id pid exact digest outbox
  end.

Definition receipt_write (p : IdempotencyPayload) : Write :=
  (IDEMPOTENCY, idempotency_key (ip_key_digest p),
   encode_frame Snapshot (stored_seq (ip_receipt p)) p).

Definition head_write (n : CommitSeq) : Write :=
  (META, HEAD_KEY, encode_frame Snapshot n (MkHeadPayload n)).

Definition commit_writes (ev : JournalEvent) (p : IdempotencyPayload) : list Write :=
  event_writes ev ++ [receipt_write p; head_write (event_commit_seq ev)].

(** The store holds the frame. *)
Definition stored (c : content) (w : Write) : Prop :=
  ∃ bs, w.2 = Ok bs ∧ c !! (as_str w.1.1, w.1.2) = Some bs.

(** ** The invariant *)

(** What the exact bytes of an event decode to. *)
Definition event_valid (ev : JournalEvent) : Prop :=
  match ev with
  | ObservationAccepted n id exact digest =>
      ∃ v, Observation_from_json exact = Ok v ∧ vo_id v = id ∧ vo_digest v = digest
  | SemanticPublished n id pid exact digest outbox =>
      ∃ v, Mutation_from_json exact = Ok v ∧ vm_id v = id ∧ vm_digest v = digest ∧
        (snapshot_commit_seq (base_snapshot (vm_mutation v)) + 1)%N = n ∧
        derived_work (vm_mutation v) = outbox ∧ (len outbox ≤ U32_MAX)%N
  | MaintenancePublished n id pid exact digest outbox =>
      ∃ v, Maintenance_from_json exact = Ok v ∧ vx_id v = id ∧ vx_digest v = digest ∧
        (snapshot_commit_seq (maintenance_base (vx_mutation v)) + 1)%N = n ∧
        maintenance_derived_work (vx_mutation v) = outbox ∧ (len outbox ≤ U32_MAX)%N
  end.

(** The observation references of an event were accepted before it. *)
Definition refs_accepted (l : list JournalEvent) (ev : JournalEvent) : Prop :=
  match ev with
  | SemanticPublished n _ _ exact _ _ =>
      ∀ v id, Mutation_from_json exact = Ok v → id ∈ into_vec (journal_refs (vm_mutation v)) →
        ∃ n' bs d, ObservationAccepted n' id bs d ∈ l ∧ (n' < n)%N
  | _ => True
  end.

Record represents (c : content) (J : Journal) : Prop := {
  rep_bound : (head_of J ≤ U64_MAX)%N;
  rep_seq : ∀ i ev, log J !! i = Some ev → event_commit_seq ev = (N.of_nat i + 1)%N;
  rep_head : match log J with
    | [] => c !! (as_str META, HEAD_KEY) = None
    | _ => stored c (head_write (head_of J))
    end;
  rep_events : ∀ ev w, ev ∈ log J → w ∈ event_writes ev → stored c w;
  rep_valid : ∀ ev, ev ∈ log J → event_valid ev ∧ refs_accepted (log J) ev;
  rep_receipts : ∀ kd p, receipts J !! kd = Some p →
    ip_key_digest p = kd ∧ stored c (receipt_write p) ∧ ∃ ev, ev ∈ log J ∧ receipt_for p ev;
  rep_size : size (receipts J) = length (log J);
  rep_owned : ∀ nk k, nk ∈ portable_keyspaces → is_Some (c !! (as_str nk.2, k)) →
    (nk.2, k) = (META, HEAD_KEY) ∨
    (∃ ev, ev ∈ log J ∧ (nk.2, k) ∈ (event_writes ev).*1) ∨
    (∃ p, receipts J !! ip_key_digest p = Some p ∧ (nk.2, k) = (receipt_write p).1);
}.

(** The empty journal is represented by every store that holds no journal key. *)
Lemma represents_empty c :
  (∀ nk k, nk ∈ portable_keyspaces → c !! (as_str nk.2, k) = None) → represents c (MkJournal [] ∅).
Proof.
  intros Hempty. split; simpl; try done.
  - apply (Hempty ("journal_meta", META)). by constructor.
  - intros ev w []%elem_of_nil.
  - intros ev []%elem_of_nil.
  - intros nk k Hnk [v Hv]. by rewrite Hempty in Hv.
Qed.

(** ** Facts about writes *)

(** Frames at other keys stay. *)
Definition extends (c c' : content) : Prop :=
  ∀ ks k v, (ks, k) ≠ (META, HEAD_KEY) → c !! (as_str ks, k) = Some v → c' !! (as_str ks, k) = Some v.

Lemma stored_extends c c' w : extends c c' → w.1 ≠ (META, HEAD_KEY) → stored c w → stored c' w.
Proof.
  intros Hext Hne (bs & Hw & Hc). destruct w as [[ks k] r]. exists bs. split; [done|]. by apply Hext.
Qed.

Lemma elem_of_outbox_writes n id outbox w :
  w ∈ outbox_writes n id outbox ↔
  ∃ i item, outbox !! i = Some item ∧
    w = (OUTBOX, outbox_key n (N.of_nat i),
         encode_frame Outbox n (MkOutboxFramePayload id (N.of_nat i) item)).
Proof.
  unfold outbox_writes. rewrite list_elem_of_lookup. setoid_rewrite list_lookup_imap_Some. naive_solver.
Qed.

(** The keyspaces of an event's writes. *)
Lemma event_writes_keyspace ev w :
  w ∈ event_writes ev → w.1.1 ∈ [EVENTS; OUTBOX; MUTATIONS; OBSERVATIONS].
Proof.
  assert (∀ n id o, w ∈ outbox_writes n id o → w.1.1 = OUTBOX) as Ho.
  { intros n id o (i & item & _ & ->)%elem_of_outbox_writes. done. }
  destruct ev; simpl; unfold publication_writes; rewrite !elem_of_cons.
  - intros [->|[->|[]%elem_of_nil]]; set_solver.
  - intros [->|[->|Hw%Ho]]; [set_solver..|]. rewrite Hw. set_solver.
  - intros [->|[->|Hw%Ho]]; [set_solver..|]. rewrite Hw. set_solver.
Qed.

Lemma event_writes_not_head ev w : w ∈ event_writes ev → w.1 ≠ (META, HEAD_KEY).
Proof.
  intros Hw%event_writes_keyspace Heq. rewrite Heq in Hw. simpl in Hw.
  apply (bool_decide_eq_true_2 _) in Hw. by vm_compute in Hw.
Qed.

Lemma event_writes_not_receipt ev w p : w ∈ event_writes ev → w.1 ≠ (receipt_write p).1.
Proof.
  intros Hw%event_writes_keyspace Heq. rewrite Heq in Hw. simpl in Hw.
  apply (bool_decide_eq_true_2 _) in Hw. by vm_compute in Hw.
Qed.

Definition event_outbox (ev : JournalEvent) : list DerivedWorkItem :=
  match ev with
  | ObservationAccepted _ _ _ _ => []
  | SemanticPublished _ _ _ _ _ outbox | MaintenancePublished _ _ _ _ _ outbox => outbox
  end.

Lemma outbox_writes_keys n id outbox ks k :
  (ks, k) ∈ (outbox_writes n id outbox).*1 ↔
  ks = OUTBOX ∧ ∃ i, (i < length outbox)%nat ∧ k = outbox_key n (N.of_nat i).
Proof.
  rewrite list_elem_of_fmap. split.
  - intros (w & Heq & (i & item & Hi & ->)%elem_of_outbox_writes). simplify_eq/=. split; [done|].
    exists i. split; [by eapply lookup_lt_Some|done].
  - intros (-> & i & [item Hi]%lookup_lt_is_Some & ->). eexists. split; [|apply elem_of_outbox_writes; eauto].
    done.
Qed.

(** The keys an event writes, by keyspace. *)
Lemma event_keys_events ev k :
  (EVENTS, k) ∈ (event_writes ev).*1 ↔ k = event_key (event_commit_seq ev).
Proof.
  destruct ev; cbn [event_writes]; unfold publication_writes;
  rewrite ?fmap_cons, !elem_of_cons, ?fmap_nil, ?elem_of_nil,
    ?outbox_writes_keys; simpl; naive_solver.
Qed.

Lemma event_keys_outbox ev k :
  (OUTBOX, k) ∈ (event_writes ev).*1 ↔
  ∃ i, (i < length (event_outbox ev))%nat ∧ k = outbox_key (event_commit_seq ev) (N.of_nat i).
Proof.
  destruct ev; cbn [event_writes]; unfold publication_writes; rewrite ?fmap_cons, !elem_of_cons, ?fmap_nil, ?elem_of_nil,
    ?outbox_writes_keys; simpl; [|naive_solver..].
  split; [naive_solver|]. intros (i & Hi & _). lia.
Qed.

Lemma event_seq_bound c J ev : represents c J → ev ∈ log J → (1 ≤ event_commit_seq ev ≤ head_of J)%N.
Proof.
  intros Hrep [i Hi]%list_elem_of_lookup. rewrite (rep_seq _ _ Hrep i ev Hi).
  apply lookup_lt_Some in Hi. unfold head_of, len. lia.
Qed.

Lemma event_outbox_bound ev : event_valid ev → (len (event_outbox ev) ≤ U32_MAX)%N.
Proof. destruct ev; simpl; [done|naive_solver..]. Qed.

(** An event determines its position. *)
Lemma event_at c J ev n :
  represents c J → ev ∈ log J → event_commit_seq ev = n → log J !! N.to_nat (n - 1) = Some ev.
Proof.
  intros Hrep [i Hi]%list_elem_of_lookup Hn. pose proof (rep_seq _ _ Hrep i ev Hi).
  by replace (N.to_nat (n - 1)) with i by lia.
Qed.

(** Keys that name the next commit are free. *)
Lemma event_key_free c J n :
  represents c J → (head_of J < n)%N → (n ≤ U64_MAX)%N → c !! (as_str EVENTS, event_key n) = None.
Proof.
  intros Hrep Hn Hmax. destruct (c !! _) eqn:Hc; [|done]. exfalso.
  destruct (rep_owned _ _ Hrep ("semantic_journal", EVENTS) (event_key n)) as [?|[(ev & Hev & Hk)|(p & _ & ?)]];
    [apply list_elem_of_In; simpl; tauto|eexists; exact Hc|done| |done].
  apply event_keys_events in Hk. pose proof (event_seq_bound _ _ _ Hrep Hev).
  pose proof (rep_bound _ _ Hrep). apply event_key_inj in Hk; lia.
Qed.

Lemma outbox_key_free c J n i :
  represents c J → (head_of J < n)%N → (n ≤ U64_MAX)%N → (i ≤ U32_MAX)%N →
  c !! (as_str OUTBOX, outbox_key n i) = None.
Proof.
  intros Hrep Hn Hmax Hi. destruct (c !! _) eqn:Hc; [|done]. exfalso.
  destruct (rep_owned _ _ Hrep ("journal_outbox", OUTBOX) (outbox_key n i)) as [?|[(ev & Hev & Hk)|(p & _ & ?)]];
    [apply list_elem_of_In; simpl; tauto|eexists; exact Hc|done| |done].
  apply event_keys_outbox in Hk as (j & Hj & Hk). pose proof (event_seq_bound _ _ _ Hrep Hev).
  pose proof (event_outbox_bound ev (proj1 (rep_valid _ _ Hrep ev Hev))) as Hb.
  pose proof (rep_bound _ _ Hrep). unfold len in Hb. apply outbox_key_inj in Hk; lia.
Qed.

Lemma receipt_key_free c J kd :
  represents c J → receipts J !! kd = None → c !! (as_str IDEMPOTENCY, idempotency_key kd) = None.
Proof.
  intros Hrep Hkd. destruct (c !! _) eqn:Hc; [|done]. exfalso.
  destruct (rep_owned _ _ Hrep ("journal_idempotency", IDEMPOTENCY) (idempotency_key kd))
    as [?|[(ev & Hev & Hk)|(p & Hp & Heq)]];
    [apply list_elem_of_In; simpl; tauto|eexists; exact Hc|done|..].
  - apply list_elem_of_fmap in Hk as (w & Hk & Hw). apply event_writes_keyspace in Hw.
    rewrite <- Hk in Hw. apply (bool_decide_eq_true_2 _) in Hw. by vm_compute in Hw.
  - injection Heq as Heq. by rewrite <- Heq, Hkd in Hp.
Qed.

Lemma NoDup_commit_writes ev p : event_valid ev → NoDup (commit_writes ev p).*1.
Proof.
  intros Hv. assert (∀ n id o, (len o ≤ U32_MAX)%N → NoDup (outbox_writes n id o).*1) as Ho.
  { intros n id o Hlen. apply NoDup_alt. intros i j w. unfold outbox_writes.
    rewrite !list_lookup_fmap, !list_lookup_imap.
    destruct (o !! i) eqn:Hi, (o !! j) eqn:Hj; simpl; try done. intros Hw1 Hw2.
    assert (outbox_key n (N.of_nat i) = outbox_key n (N.of_nat j)) as Hk by congruence.
    unfold outbox_key in Hk. do 2 apply app_inv_head in Hk.
    apply lookup_lt_Some in Hi, Hj. unfold len in Hlen.
    apply to_be_bytes_inj in Hk; unfold U32_MAX in *; simpl; lia. }
  apply event_outbox_bound in Hv. unfold commit_writes. rewrite fmap_app. apply NoDup_app. split_and!.
  - destruct ev; cbn [event_writes]; unfold publication_writes; rewrite ?fmap_cons.
    + apply (bool_decide_eq_true_1 _). vm_compute. done.
    + cbn [fst]. rewrite !NoDup_cons, !elem_of_cons, !outbox_writes_keys. naive_solver.
    + cbn [fst]. rewrite !NoDup_cons, !elem_of_cons, !outbox_writes_keys. naive_solver.
  - intros k (w & -> & Hw)%list_elem_of_fmap [Hk|[Hk|[]%elem_of_nil]%elem_of_cons]%elem_of_cons.
    + by apply (event_writes_not_receipt ev w p).
    + by apply (event_writes_not_head ev w).
  - apply NoDup_cons. split; [|apply NoDup_singleton]. by intros ?%list_elem_of_singleton.
Qed.
End spec.
