(* ===== verification/JournalSample.v ===== *)
(** * Concrete instances for the journal

    A codec with the round trip of serde_json, and requests it decodes, on which
    the theorems about the coordinator are applied.  The codec writes the number
    that [Countable] assigns to a payload, one bit per byte. *)

From S2P Require Import Prelude.
From S2P Require Import Ordering.
From S2P Require Import Bytes.
From S2P Require Import Storage.
From S2P Require Import Engine.
From S2P Require Import MemoryStorage.
From S2P Require Import Format.
From S2P Require Import CoreBase.
From S2P Require Import Provenance.
From S2P Require Import Policy.
From S2P Require Import Identity.
From S2P Require Import Evidence.
From S2P Require Import Semantic.
From S2P Require Import MemoryTypes.
From S2P Require Import Mutation.
From S2P Require Import Maintenance.
From S2P Require Import JournalModel.
From S2P Require Import Journal.
From S2P Require Import JournalSpec.

(** ** A codec *)

#[export] Instance unit_error : SerdeError := unit.

Definition countable_json `{Countable T} : Json T := {|
  to_vec v := Ok (pos_bytes (encode v));
  from_slice bs := ok_or (decode (bytes_pos bs)) tt;
|}.

Lemma countable_json_roundtrip `{Countable T} : @JsonRoundtrip _ T countable_json.
Proof. intros v bs [= <-]. simpl. by rewrite bytes_pos_bytes, decode_encode. Qed.

(** A type whose values the sample never writes and always reads as [v]. *)
Definition constant_json {T} (v : T) : Json T := {| to_vec _ := Err tt; from_slice _ := Ok v |}.

(** ** Payloads as countable types *)

#[export] Instance Durability_countable : Countable Durability.
Proof.
  refine (inj_countable (λ d, bool_decide (d = Sync)) (λ b : bool, Some (if b then Sync else Ephemeral)) _).
  by intros [].
Defined.

#[export] Instance ObservationReceipt_eq_dec : EqDecision ObservationReceipt.
Proof. solve_decision. Defined.
#[export] Instance ObservationReceipt_countable : Countable ObservationReceipt.
Proof.
  refine (inj_countable' (λ r, (or_observation_id r, or_commit_seq r, or_durability r, or_replayed r,
    or_request_digest r)) (λ '(a, b, c, d, e), MkObservationReceipt a b c d e) _). by intros [].
Defined.
#[export] Instance PublicationReceipt_eq_dec : EqDecision PublicationReceipt.
Proof. solve_decision. Defined.
#[export] Instance PublicationReceipt_countable : Countable PublicationReceipt.
Proof.
  refine (inj_countable' (λ r, (pr_mutation_id r, pr_publication_id r, pr_commit_seq r, pr_durability r,
    pr_outbox_count r, pr_replayed r, pr_mutation_digest r))
    (λ '(a, b, c, d, e, f, g), MkPublicationReceipt a b c d e f g) _). by intros [].
Defined.
#[export] Instance StoredReceipt_eq_dec : EqDecision StoredReceipt.
Proof. solve_decision. Defined.
#[export] Instance StoredReceipt_countable : Countable StoredReceipt.
Proof.
  refine (inj_countable' (λ r, match r with
      | StoredObservation r => inl r
      | StoredPublication r => inr (inl r)
      | StoredMaintenance r => inr (inr r)
      end)
    (λ s, match s with
      | inl r => StoredObservation r
      | inr (inl r) => StoredPublication r
      | inr (inr r) => StoredMaintenance r
      end) _). by intros [].
Defined.
#[export] Instance DerivedWorkItem_countable : Countable DerivedWorkItem.
Proof.
  refine (inj_countable (λ w, match w with
      | LexicalIndex a b => (0%N, (a, b), [])
      | Vectorize a => (1%N, (a, []), [])
      | UpdateAliasMap a => (2%N, (a, []), [])
      | UpdateFilterBitmaps a => (3%N, (a, []), [])
      | DirtyHierarchyRegion a => (4%N, (a, []), [])
      | InvalidateSummaries a => (5%N, (a, []), [])
      | Consolidate a => (6%N, (a, []), [])
      | UpdateSessionActiveSet a => (7%N, ([], []), a)
      end)
    (λ '(tag, (a, b), o), Some match tag with
      | 0 => LexicalIndex a b
      | 1 => Vectorize a
      | 2 => UpdateAliasMap a
      | 3 => UpdateFilterBitmaps a
      | 4 => DirtyHierarchyRegion a
      | 5 => InvalidateSummaries a
      | 6 => Consolidate a
      | _ => UpdateSessionActiveSet o
      end%N) _). by intros [].
Defined.

#[export] Instance HeadPayload_eq_dec : EqDecision HeadPayload.
Proof. solve_decision. Defined.
#[export] Instance HeadPayload_countable : Countable HeadPayload.
Proof. refine (inj_countable' head_commit_seq MkHeadPayload _). by intros []. Defined.
#[export] Instance IdentityIndexPayload_eq_dec : EqDecision IdentityIndexPayload.
Proof. solve_decision. Defined.
#[export] Instance IdentityIndexPayload_countable : Countable IdentityIndexPayload.
Proof.
  refine (inj_countable' (λ p, (index_commit_seq p, index_request_digest p))
    (λ '(a, b), MkIdentityIndexPayload a b) _). by intros [].
Defined.
#[export] Instance ObservationFramePayload_eq_dec : EqDecision ObservationFramePayload.
Proof. solve_decision. Defined.
#[export] Instance ObservationFramePayload_countable : Countable ObservationFramePayload.
Proof.
  refine (inj_countable' (λ p, (of_observation_id p, of_request_digest p, of_exact_bytes p))
    (λ '(a, b, c), MkObservationFramePayload a b c) _). by intros [].
Defined.
#[export] Instance SemanticMutationFramePayload_eq_dec : EqDecision SemanticMutationFramePayload.
Proof. solve_decision. Defined.
#[export] Instance SemanticMutationFramePayload_countable : Countable SemanticMutationFramePayload.
Proof.
  refine (inj_countable' (λ p, (mf_mutation_id p, mf_mutation_digest p, mf_exact_bytes p))
    (λ '(a, b, c), MkSemanticMutationFramePayload a b c) _). by intros [].
Defined.
#[export] Instance SemanticPublicationFramePayload_eq_dec : EqDecision SemanticPublicationFramePayload.
Proof. solve_decision. Defined.
#[export] Instance SemanticPublicationFramePayload_countable : Countable SemanticPublicationFramePayload.
Proof.
  refine (inj_countable' (λ p, (pf_mutation_id p, pf_publication_id p, pf_mutation_digest p,
    pf_outbox_count p)) (λ '(a, b, c, d), MkSemanticPublicationFramePayload a b c d) _). by intros [].
Defined.
#[export] Instance OutboxFramePayload_eq_dec : EqDecision OutboxFramePayload.
Proof. solve_decision. Defined.
#[export] Instance OutboxFramePayload_countable : Countable OutboxFramePayload.
Proof.
  refine (inj_countable' (λ p, (xf_mutation_id p, xf_index p, xf_work p))
    (λ '(a, b, c), MkOutboxFramePayload a b c) _). by intros [].
Defined.
#[export] Instance IdempotencyPayload_eq_dec : EqDecision IdempotencyPayload.
Proof. solve_decision. Defined.
#[export] Instance IdempotencyPayload_countable : Countable IdempotencyPayload.
Proof.
  refine (inj_countable' (λ p, (ip_key_digest p, ip_request_digest p, ip_receipt p))
    (λ '(a, b, c), MkIdempotencyPayload a b c) _). by intros [].
Defined.
#[export] Instance BackupEntry_eq_dec : EqDecision BackupEntry.
Proof. solve_decision. Defined.
#[export] Instance BackupEntry_countable : Countable BackupEntry.
Proof. refine (inj_countable' (λ p, (be_key p, be_value p)) (λ '(a, b), MkBackupEntry a b) _). by intros []. Defined.
#[export] Instance BackupSection_eq_dec : EqDecision BackupSection.
Proof. solve_decision. Defined.
#[export] Instance BackupSection_countable : Countable BackupSection.
Proof.
  refine (inj_countable' (λ p, (section_name p, section_entries p)) (λ '(a, b), MkBackupSection a b) _).
  by intros [].
Defined.
#[export] Instance BackupPayload_eq_dec : EqDecision BackupPayload.
Proof. solve_decision. Defined.
#[export] Instance BackupPayload_countable : Countable BackupPayload.
Proof.
  refine (inj_countable' (λ p, (bp_schema_version p, bp_commit_seq p, bp_records p, bp_sections p))
    (λ '(a, b, c, d), MkBackupPayload a b c d) _). by intros [].
Defined.

(** ** Sample requests *)

#[export] Existing Instance unit_json.

Definition sample_digest : ContentDigest := MkContentDigest (replicate 32 x01) eq_refl.

Definition sample_observation : ObservationUnit := {|
  observation_id := sample_id _;
  observation_workspace_id := sample_id _;
  memory_spaces := NonEmptyVec_new (sample_id _);
  observation_source_id := sample_id _;
  stream_position := None;
  participants := NonEmptyVec_new (sample_id _);
  occurred_at := open_ended 0;
  observed_at := 0;
  recorded_at := 0;
  artifact_refs := [sample_id _];
  content_block_refs := [];
  observation_content_hash := sample_digest;
  observation_envelope := sample_envelope;
|}.

(** A goal derived from the observation, to be published on sequence 1. *)
Definition sample_mutation : SemanticMutationSet := {|
  mutation_id := sample_id _; base_snapshot := MkSnapshotRef 1;
  journal_refs := NonEmptyVec_new (sample_id _);
  observation_appends := []; episode_view_writes := []; node_creates := []; node_writes := [];
  claim_creates := []; claim_writes := []; edge_creates := []; edge_writes := [];
  conflict_creates := []; conflict_writes := []; candidate_writes := [];
  typed_memory_writes :=
    [sample_goal (sample_id _) (envelope_with Deny [LineageObservation (sample_id _)])];
  derived_work := [Vectorize [sample_id _]; Consolidate [sample_id _]];
|}.

(** An index switch, to be published on the empty journal. *)
Definition sample_switch : MaintenanceMutationSet := {|
  maintenance_id := sample_id _; maintenance_base := MkSnapshotRef 0;
  operation := IndexGenerationSwitch "lexical" 1 2 sample_digest;
  maintenance_derived_work := [Vectorize []];
|}.

#[export] Instance sample_journal_json : JournalJson := {|
  json_observation := constant_json sample_observation;
  json_mutation := constant_json sample_mutation;
  json_maintenance := constant_json sample_switch;
  json_head := countable_json;
  json_index := countable_json;
  json_observation_frame := countable_json;
  json_mutation_frame := countable_json;
  json_publication_frame := countable_json;
  json_outbox_frame := countable_json;
  json_idempotency := countable_json;
  json_backup := countable_json;
|}.

#[export] Instance sample_journal_laws : JournalJsonLaws.
Proof. split; apply countable_json_roundtrip. Qed.

#[export] Existing Instance sample_blake3.

Definition sample_key (text : string) : IdempotencyKey := MkIdempotencyKey text.

Definition sample_request : ValidatedObservationBytes :=
  MkValidatedObservationBytes [x7b; x7d] sample_observation
    (operation_digest (str_bytes "observation-accepted-v1") [x7b; x7d]).
Definition sample_publish : ValidatedMutationBytes :=
  MkValidatedMutationBytes [x7b; x7d] sample_mutation
    (operation_digest (str_bytes "semantic-publication-v1") [x7b; x7d]).
Definition sample_maintain : ValidatedMaintenanceBytes :=
  MkValidatedMaintenanceBytes [x7b; x7d] sample_switch
    (operation_digest (str_bytes "maintenance-publication-v1") [x7b; x7d]).

Lemma sample_request_valid : Observation_from_json (vo_bytes sample_request) = Ok sample_request.
Proof. vm_compute. reflexivity. Qed.
Lemma sample_publish_valid : Mutation_from_json (vm_bytes sample_publish) = Ok sample_publish.
Proof. vm_compute. reflexivity. Qed.
Lemma sample_maintain_valid : Maintenance_from_json (vx_bytes sample_maintain) = Ok sample_maintain.
Proof. vm_compute. reflexivity. Qed.

(** The fresh in-memory engine. *)
Definition sample_engine : State := MemoryStorage_new.

Lemma sample_engine_ok : engine_ok sample_engine.
Proof. exact state_ok_new. Qed.

Definition empty_journal : Journal := MkJournal [] ∅.

Lemma sample_engine_represents : represents (engine_content sample_engine) empty_journal.
Proof.
  apply represents_empty. intros nk k _.
  assert (engine_content sample_engine = tables_content ∅) as -> by reflexivity.
  by rewrite lookup_tables_content, lookup_empty.
Qed.
