(* ===== verification/JournalRefinement.v ===== *)
(** * The coordinator implements the abstract journal

    Every operation of the coordinator, on any engine that meets
    [StorageEngineSpec], takes a represented journal to itself or to the journal
    with one more event; what an operation answers determines which. *)

From S2P Require Import Prelude.
From S2P Require Import Ordering.
From S2P Require Import Bytes.
From S2P Require Import Storage.
From S2P Require Import Engine.
From S2P Require Import Format.
From S2P Require Import CoreBase.
From S2P Require Import Provenance.
From S2P Require Import Policy.
From S2P Require Import Identity.
From S2P Require Import Evidence.
From S2P Require Import Semantic.
From S2P Require Import MemoryTypes.
From S2P Require Import Mutation.
From S2P Require Import Maintenance.
From S2P Require Import JournalModel.
From S2P Require Import Journal.
From S2P Require Import JournalSpec.
From S2P Require Import MemoryStorage.
From S2P Require Import JournalSample.

(** ** One commit extends the journal by one event *)

Section append.
Context `{Blake3, JournalJson}.

(** [c'] is [c] after the writes. *)
Definition written (c c' : content) (ws : list (Keyspace * bytes * JResult bytes)) : Prop :=
  (∀ w, w ∈ ws → stored c' w) ∧
  (∀ ks k, (ks, k) ∉ ws.*1 → c' !! (as_str ks, k) = c !! (as_str ks, k)).

(** The keys of the event and of its receipt are free in [c]. *)
Definition fresh_event (c : content) (J : Journal) (ev : JournalEvent) (p : IdempotencyPayload) : Prop :=
  receipts J !! ip_key_digest p = None ∧
  ∀ w, w ∈ event_writes ev → c !! (as_str w.1.1, w.1.2) = None.

Lemma elem_of_commit_writes ev p w :
  w ∈ commit_writes ev p ↔
  w ∈ event_writes ev ∨ w = receipt_write p ∨ w = head_write (event_commit_seq ev).
Proof. unfold commit_writes. rewrite elem_of_app, !elem_of_cons, elem_of_nil. tauto. Qed.

Lemma written_extends c c' J ev p :
  represents c J → fresh_event c J ev p → written c c' (commit_writes ev p) → extends c c'.
Proof.
  intros Hrep [Hr Hf] [_ Hsame] ks k v Hne Hv. rewrite Hsame; [done|].
  intros (w & Heq & [Hw|[->| ->]]%elem_of_commit_writes)%list_elem_of_fmap.
  - apply Hf in Hw. rewrite <- Heq in Hw. simpl in Hw. congruence.
  - injection Heq as -> ->. by rewrite (receipt_key_free _ _ _ Hrep Hr) in Hv.
  - by destruct Hne.
Qed.

Lemma lookup_snoc_Some {A} (l : list A) x i y :
  (l ++ [x]) !! i = Some y → l !! i = Some y ∨ i = length l ∧ y = x.
Proof. intros [?|[? (? & ?)%list_lookup_singleton_Some]]%lookup_app_Some; [by left|]. right. split; [lia|done]. Qed.

Lemma refs_accepted_mono l l' ev : l ⊆ l' → refs_accepted l ev → refs_accepted l' ev.
Proof. destruct ev; simpl; [done| |done]. intros Hl Hr v id Hv Hid. destruct (Hr v id Hv Hid) as (?&?&?&?&?). eauto 10. Qed.

Lemma represents_append c c' J ev p :
  represents c J →
  event_commit_seq ev = next_of J → (next_of J ≤ U64_MAX)%N →
  event_valid ev → refs_accepted (log J) ev → receipt_for p ev →
  fresh_event c J ev p → written c c' (commit_writes ev p) →
  represents c' (append J ev p).
Proof.
  intros Hrep Hseq Hmax Hval Hrefs Hfor Hfresh Hwr.
  pose proof (written_extends _ _ _ _ _ Hrep Hfresh Hwr) as Hext.
  destruct Hwr as [Hst Hsame], Hfresh as [Hfr _]. unfold next_of, append in *.
  assert (len (log J ++ [ev]) = len (log J) + 1)%N as Hlen by (rewrite len_app; done).
  split; unfold head_of; simpl.
  - rewrite Hlen. lia.
  - intros i e [Hi|[Hi ?]]%lookup_snoc_Some; subst; [by apply (rep_seq _ _ Hrep)|done].
  - assert (stored c' (head_write (len (log J ++ [ev])))) as Hh.
    { rewrite Hlen, <- Hseq. apply Hst, elem_of_commit_writes. auto. }
    by destruct (log J).
  - intros e w [He|He%list_elem_of_singleton]%elem_of_app Hw; [|subst e].
    + eapply stored_extends; [done|by eapply event_writes_not_head|by eapply rep_events].
    + apply Hst, elem_of_commit_writes. auto.
  - intros e [He|He%list_elem_of_singleton]%elem_of_app; [|subst e].
    + destruct (rep_valid _ _ Hrep e He). split; [done|]. eapply refs_accepted_mono; [|done]. set_solver.
    + split; [done|]. eapply refs_accepted_mono; [|done]. set_solver.
  - intros kd q [[<- <-]|[Hne Hq]]%lookup_insert_Some.
    + split_and!; [done|apply Hst, elem_of_commit_writes; auto|]. exists ev. split; [|done]. set_solver.
    + destruct (rep_receipts _ _ Hrep kd q Hq) as (Hk & Hs & e & He & Hqe). split_and!; [done|..].
      * by eapply stored_extends.
      * exists e. split; [|done]. set_solver.
  - rewrite map_size_insert_None, (rep_size _ _ Hrep), length_app by done. simpl. lia.
  - intros nk k Hnk Hsome.
    destruct (decide ((nk.2, k) ∈ (commit_writes ev p).*1)) as [Hin|Hnin].
    + apply list_elem_of_fmap in Hin as (w & Heq & [Hw|[->| ->]]%elem_of_commit_writes).
      * right; left. exists ev. split; [set_solver|]. rewrite Heq. by apply list_elem_of_fmap_2.
      * right; right. exists p. by rewrite lookup_insert_eq.
      * by left.
    + rewrite Hsame in Hsome by done.
      destruct (rep_owned _ _ Hrep nk k Hnk Hsome) as [?|[(e & He & Hk)|(q & Hq & Hk)]]; [by left|..].
      * right; left. exists e. split; [set_solver|done].
      * right; right. exists q. split; [|done]. rewrite lookup_insert_ne; [done|]. congruence.
Qed.
End append.

(** ** Staging *)

Section staging.
Context `{Blake3, JournalJson} `{StorageEngineSpec E}.

(** Staging a list of writes. *)
Definition stage_writes (t : Txn) (ws : list (Keyspace * bytes * JResult bytes)) : JResult Txn :=
  try_fold (λ t w, let? bs := w.2 in storage (put t w.1.1 w.1.2 bs)) t ws.

Lemma stage_writes_written t ws t' :
  NoDup ws.*1 → stage_writes t ws = Ok t' →
  written (txn_content t) (txn_content t') ws ∧ ∀ e, txn_current e t → txn_current e t'.
Proof.
  revert t. unfold stage_writes. induction ws as [|[[ks k] r] ws IH]; intros t Hnd.
  { intros [= <-]. split; [|done]. split; [by intros w ?%elem_of_nil|done]. }
  rewrite fmap_cons in Hnd. apply NoDup_cons in Hnd as [Hnin Hnd]. cbn [try_fold].
  intros (t1 & (bs & Hr & Hput)%result_bind_Ok & Hrest)%result_bind_Ok. cbn [fst snd] in *.
  destruct (put_staged t ks k bs) as (t1' & Hput' & Hc1 & Hcur).
  rewrite Hput' in Hput. simplify_eq/=. apply IH in Hrest as [[Hst Hsame] Hcur']; [|done].
  split; [|by auto]. split.
  - intros w [->|Hw]%elem_of_cons; [|by apply Hst]. exists bs. split; [done|].
    cbn [fst snd]. rewrite Hsame by done. by rewrite Hc1, lookup_insert_eq.
  - intros ks' k' Hno. rewrite fmap_cons, not_elem_of_cons in Hno. destruct Hno as [Hne Hno].
    rewrite Hsame by done. rewrite Hc1, lookup_insert_ne; [done|]. destruct ks, ks'; simpl in *. congruence.
Qed.

Lemma stage_writes_app t ws1 ws2 :
  stage_writes t (ws1 ++ ws2) = let? t' := stage_writes t ws1 in stage_writes t' ws2.
Proof.
  unfold stage_writes. revert t; induction ws1 as [|w ws1 IH]; intros t; [done|]. cbn [app try_fold].
  destruct (let? bs := w.2 in _) as [t1|]; cbn [result_bind]; [apply IH|done].
Qed.

Lemma stage_observation_writes t n kd o receipt :
  or_commit_seq receipt = n →
  stage_observation t n kd o receipt =
  stage_writes t (commit_writes (ObservationAccepted n (vo_id o) (vo_bytes o) (vo_digest o))
    (MkIdempotencyPayload kd (vo_digest o) (StoredObservation receipt))).
Proof.
  intros <-. unfold stage_observation, stage_head, put_frame, stage_writes, commit_writes, receipt_write, head_write.
  cbn [event_writes app try_fold fst snd ip_receipt ip_key_digest stored_seq event_commit_seq].
  repeat (destruct (let? bs := _ in storage _) as [?t|]; cbn [result_bind]; [|done]). done.
Qed.

Lemma stage_outbox_writes t n id i work :
  (N.of_nat i + len work ≤ U32_MAX + 1)%N →
  stage_outbox t n id (N.of_nat i) work =
  stage_writes t (imap (λ j w, (OUTBOX, outbox_key n (N.of_nat (i + j)),
    encode_frame Outbox n (MkOutboxFramePayload id (N.of_nat (i + j)) w))) work).
Proof.
  revert t i; induction work as [|w work IH]; intros t i Hle; [done|].
  rewrite len_cons in Hle. cbn [stage_outbox]. rewrite imap_cons.
  unfold try_from_max. rewrite (proj2 (N.leb_le _ _)) by lia. cbn [result_bind ok_or].
  unfold stage_writes. cbn [try_fold fst snd]. rewrite Nat.add_0_r. unfold put_frame at 1.
  destruct (let? bs := _ in storage _) as [t1|]; cbn [result_bind]; [|done].
  replace (N.of_nat i + 1)%N with (N.of_nat (S i)) by lia. rewrite IH by lia.
  unfold stage_writes. f_equal. apply imap_ext. intros j x _. simpl. by rewrite Nat.add_succ_r.
Qed.

Lemma stage_publication_writes t n kd mk pk store exact work receipt ev :
  pr_commit_seq receipt = n → pr_outbox_count receipt = len work → (len work ≤ U32_MAX)%N →
  (∀ r, stored_seq (store r) = pr_commit_seq r) → event_commit_seq ev = n →
  event_writes ev = publication_writes mk pk n (pr_mutation_id receipt) (pr_publication_id receipt)
    exact (pr_mutation_digest receipt) work →
  stage_publication t n kd mk pk store exact work receipt =
  stage_writes t (commit_writes ev
    (MkIdempotencyPayload kd (pr_mutation_digest receipt) (store receipt))).
Proof.
  intros Hn Hcount Hlen Hseq Hev Hw. unfold stage_publication, commit_writes. rewrite Hw, Hev, Hcount.
  unfold publication_writes. rewrite <- !app_comm_cons. unfold stage_writes at 1.
  cbn [try_fold fst snd]. unfold put_frame at 1 2.
  repeat (destruct (let? bs := encode_frame _ _ _ in storage _) as [?t|]; cbn [result_bind]; [|done]).
  fold (stage_writes t1). rewrite stage_writes_app.
  pose proof (stage_outbox_writes t1 n (pr_mutation_id receipt) 0 work) as Ho.
  change (N.of_nat 0) with 0%N in Ho. rewrite Ho by lia. cbn [Nat.add]. fold (outbox_writes n (pr_mutation_id receipt) work).
  destruct (stage_writes _ _) as [t2|]; cbn [result_bind]; [|done].
  unfold stage_writes, stage_head, put_frame, receipt_write, head_write.
  cbn [try_fold fst snd ip_receipt ip_key_digest]. rewrite Hseq, Hn.
  repeat (destruct (let? bs := encode_frame _ _ _ in storage _) as [?t|]; cbn [result_bind]; [|done]). done.
Qed.
End staging.

(** ** Reading a represented journal *)

Section reading.
Context `{Blake3, JournalJson, !JournalJsonLaws} `{ReadSnapshot R}.
Context (s : R) (c : content) (J : Journal).
Hypothesis Hget : ∀ ks k, get s ks k = Ok (c !! (as_str ks, k)).
Hypothesis Hrep : represents c J.

Lemma logical_head_represents : logical_head s = Ok (head_of J).
Proof.
  unfold logical_head. rewrite Hget. cbn [storage map_err result_bind].
  pose proof (rep_head _ _ Hrep) as Hh. pose proof (rep_bound _ _ Hrep) as Hb.
  unfold head_of in *. destruct (log J) as [|ev l]; [by rewrite Hh|].
  destruct Hh as (bs & He & Hc). cbn [fst snd head_write] in He, Hc. rewrite Hc.
  rewrite (decode_any_frame _ _ _ _ Hb He). cbn. by rewrite N.eqb_refl.
Qed.

Lemma observation_index_represents n id bs d head :
  ObservationAccepted n id bs d ∈ log J → (n ≤ head)%N →
  observation_index s id head = Ok (MkDecodedPayload n (MkIdentityIndexPayload n d)).
Proof.
  intros Hin Hle. destruct (rep_events _ _ Hrep _ (OBSERVATIONS, observation_key id,
    encode_frame Snapshot n (MkIdentityIndexPayload n d)) Hin) as (v & He & Hc).
  { simpl. set_solver. }
  pose proof (event_seq_bound _ _ _ Hrep Hin) as [_ Hb]. simpl in Hb.
  pose proof (rep_bound _ _ Hrep). cbn [fst snd] in He, Hc.
  unfold observation_index. rewrite Hget, Hc. cbn [storage map_err result_bind].
  rewrite (decode_any_frame Snapshot n _ v) by (done || lia). cbn.
  rewrite N.eqb_refl, (proj2 (N.ltb_ge _ _)) by done. done.
Qed.

(** A stored observation key belongs to an accepted observation. *)
Lemma observation_key_accepted id :
  is_Some (c !! (as_str OBSERVATIONS, observation_key id)) →
  ∃ n bs d, ObservationAccepted n id bs d ∈ log J.
Proof.
  intros Hsome. destruct (rep_owned _ _ Hrep ("journal_observation", OBSERVATIONS) (observation_key id))
    as [?|[(ev & Hev & (w & Heq & Hw)%list_elem_of_fmap)|(p & _ & ?)]];
    [apply list_elem_of_In; simpl; tauto|done|done| |done].
  destruct ev as [n id' bs d|n ? ? ? ? o|n ? ? ? ? o]; simpl in Hw; unfold publication_writes in Hw;
    rewrite !elem_of_cons, ?elem_of_nil, ?elem_of_outbox_writes in Hw.
  - destruct Hw as [->|[->|[]]]; [done|]. apply (f_equal snd), observation_key_inj in Heq.
    rewrite Heq. eauto.
  - by destruct Hw as [->|[->|(i & x & _ & ->)]].
  - by destruct Hw as [->|[->|(i & x & _ & ->)]].
Qed.

Lemma observation_reference_Ok id head :
  validate_observation_reference s id head = Ok tt → ∃ n bs d, ObservationAccepted n id bs d ∈ log J.
Proof.
  unfold validate_observation_reference, observation_index. rewrite Hget. cbn [storage map_err result_bind].
  intros Hv. apply observation_key_accepted. by destruct (c !! _).
Qed.

(** References checked against the head are to observations accepted before. *)
Lemma semantic_refs_accepted m pid d outbox :
  Mutation_from_json (vm_bytes m) = Ok m →
  for_each (λ id, validate_observation_reference s id (head_of J)) (into_vec (journal_refs (vm_mutation m)))
    = Ok tt →
  refs_accepted (log J) (SemanticPublished (next_of J) (vm_id m) pid (vm_bytes m) d outbox).
Proof.
  intros Hjson Hall v id Hv Hid. assert (v = m) as -> by congruence.
  rewrite for_each_Ok, Forall_forall in Hall. apply Hall in Hid.
  apply observation_reference_Ok in Hid as (n & bs & d' & Hin). exists n, bs, d'. split; [done|].
  apply (event_seq_bound _ _ _ Hrep) in Hin as [_ Hb]. simpl in Hb. unfold head_of, next_of in *. lia.
Qed.
End reading.

(** ** Steps of an operation *)

Lemma M_bind_inv `{SerdeError} {E A B} (m : M E A) (k : A → M E B) e e' r :
  (let! x := m in k x) e = (e', r) →
  ∃ e1 r1, m e = (e1, r1) ∧
    match r1 with Ok a => k a e1 = (e', r) | Err err => e' = e1 ∧ r = Err err end.
Proof.
  unfold M_bind. destruct (m e) as [e1 [a|err]]; intros Hk; exists e1; eexists; split; try done.
  by injection Hk as -> ->.
Qed.

(** One step of an operation that does not touch the engine. *)
Ltac pure_step Hk := apply M_bind_inv in Hk as (? & ? & [= <- <-] & Hk).

(** ** Commits *)

Section commits.
Context `{Blake3, JournalJson, !JournalJsonLaws} `{ES : StorageEngineSpec E}.

(** What one commit operation may do to a represented journal [J], when [J'] is
    [J] with the new event, [kd] the digest of the caller's key, [fresh] the new
    receipt, and [replay] the answer a matching stored receipt stands for. *)
Definition commit_outcome {A} (e e' : E) (J J' : Journal) (kd : bytes) (fresh : A)
    (replay : IdempotencyPayload → option A) (r : JResult A) : Prop :=
  engine_ok e' ∧
  match r with
  | Ok a =>
      (receipts J !! kd = None ∧ a = fresh ∧ represents (engine_content e') J') ∨
      (∃ p, receipts J !! kd = Some p ∧ replay p = Some a ∧
            engine_content e' = engine_content e)
  | Err _ =>
      engine_content e' = engine_content e ∨
      (receipts J !! kd = None ∧ represents (engine_content e') J')
  end.

Lemma latest_spec e :
  engine_ok e → ∃ s, latest e = (e, Ok s) ∧ snap_content s = engine_content e.
Proof.
  intros Hok. destruct (begin_read_latest e Hok) as (s & Hs & Hc). exists s.
  unfold latest, reading. by rewrite Hs.
Qed.

Lemma open_transaction_spec e :
  engine_ok e → ∃ t, open_transaction e = (e, Ok t) ∧ txn_content t = engine_content e ∧ txn_current e t.
Proof.
  intros Hok. destruct (begin_write_current e Hok) as (t & Ht & Hc & Hcur). exists t.
  unfold open_transaction, reading. by rewrite Ht.
Qed.

(** A commit either publishes the staged content or reports an error. *)
Lemma commit_transaction_spec e t d e' r :
  engine_ok e → txn_current e t → commit_transaction t d e = (e', r) →
  engine_ok e' ∧
  (engine_content e' = txn_content t ∨ engine_content e' = engine_content e ∧ ∃ err, r = Err err).
Proof.
  intros Hok Hcur. unfold commit_transaction. destruct (commit e t d) as [e1 r1] eqn:Hc.
  intros [= <- <-]. destruct (commit_atomic e t d e1 r1 Hok Hcur Hc) as [Hok1 [?|[? [err ->]]]]; [by auto|].
  split; [done|]. right. split; [done|]. by eexists.
Qed.

Lemma synchronize_spec n d e e' r :
  engine_ok e → synchronize_retry_if_required n d e = (e', r) →
  engine_ok e' ∧ engine_content e' = engine_content e.
Proof.
  intros Hok. unfold synchronize_retry_if_required. case_bool_decide; [|by intros [= <- <-]].
  intros (e1 & r1 & Ht & Hk)%M_bind_inv. destruct (open_transaction_spec e Hok) as (t & Ht' & Hc & Hcur).
  rewrite Ht' in Ht. injection Ht as <- <-.
  apply M_bind_inv in Hk as (e2 & r2 & Hcm & Hk).
  destruct (commit_transaction_spec _ _ _ _ _ Hok Hcur Hcm) as [Hok2 Hcases].
  assert (engine_content e2 = engine_content e) as Hsame by (destruct Hcases as [->|[? _]]; done).
  destruct r2; [by injection Hk as <- _|by destruct Hk as [-> _]].
Qed.

Lemma read_idempotency_spec e J kd :
  engine_ok e → represents (engine_content e) J → read_idempotency kd e = (e, Ok (receipts J !! kd)).
Proof.
  intros Hok Hrep. destruct (latest_spec e Hok) as (s & Hs & Hc).
  unfold read_idempotency, M_bind. rewrite Hs. unfold lift. f_equal.
  rewrite snap_get, Hc. cbn [storage map_err result_bind].
  destruct (receipts J !! kd) as [p|] eqn:Hp; [|by rewrite (receipt_key_free _ _ _ Hrep Hp)].
  destruct (rep_receipts _ _ Hrep kd p Hp) as (<- & (bs & He & Hst) & ev & Hev & Hfor).
  cbn [receipt_write fst snd] in He, Hst. rewrite Hst.
  assert (stored_seq (ip_receipt p) = event_commit_seq ev) as Hseq.
  { unfold receipt_for in Hfor. destruct (ip_receipt p), ev; try done; simpl; tauto. }
  pose proof (event_seq_bound _ _ _ Hrep Hev). pose proof (rep_bound _ _ Hrep).
  assert (stored_seq (ip_receipt p) ≤ U64_MAX)%N as Hb by (rewrite Hseq; lia).
  by rewrite (decode_any_frame _ _ _ _ Hb He).
Qed.

(** The end of a commit whose transaction stages the new journal. *)
Lemma finish_commit_spec {A} t n options (fresh : A) replay e e' r J J' kd :
  engine_ok e → txn_current e t → receipts J !! kd = None → represents (txn_content t) J' →
  finish_commit t n options fresh e = (e', r) → commit_outcome e e' J J' kd fresh replay r.
Proof.
  intros Hok Hcur Hkd Hrep. unfold finish_commit. case_bool_decide.
  { unfold M_bind, lift. rewrite rollback_ok. cbn. intros [= <- <-]. split; [done|]. by left. }
  intros (e1 & r1 & Hc & Hk)%M_bind_inv.
  destruct (commit_transaction_spec _ _ _ _ _ Hok Hcur Hc) as [Hok1 [Heq|[Hsame [err ->]]]].
  - rewrite <- Heq in Hrep. destruct r1 as [phys|err]; [|destruct Hk as [-> ->]; split; [done|right; done]].
    apply M_bind_inv in Hk as (e2 & r2 & [= <- <-] & Hk).
    destruct (ensure_durability _ _ _); [|destruct Hk as [-> ->]; split; [done|right; done]].
    case_bool_decide; injection Hk as <- <-; (split; [done|]); [by right|by left].
  - destruct Hk as [-> ->]. split; [done|]. by left.
Qed.

(** The answer to a retry: the stored receipt of the same request, marked. *)
Definition replay_observation (digest : bytes) (p : IdempotencyPayload) : option ObservationReceipt :=
  match ip_receipt p with
  | StoredObservation r =>
      if bool_decide (ip_request_digest p = digest)
      then Some (MkObservationReceipt (or_observation_id r) (or_commit_seq r) (or_durability r) true
                   (or_request_digest r))
      else None
  | _ => None
  end.

Definition marked (r : PublicationReceipt) : PublicationReceipt :=
  MkPublicationReceipt (pr_mutation_id r) (pr_publication_id r) (pr_commit_seq r)
    (pr_durability r) (pr_outbox_count r) true (pr_mutation_digest r).

Definition replay_semantic (digest : bytes) (p : IdempotencyPayload) : option PublicationReceipt :=
  match ip_receipt p with
  | StoredPublication r => if bool_decide (ip_request_digest p = digest) then Some (marked r) else None
  | _ => None
  end.

Definition replay_maintained (digest : bytes) (p : IdempotencyPayload) : option MaintenanceReceipt :=
  match ip_receipt p with
  | StoredMaintenance r => if bool_decide (ip_request_digest p = digest) then Some (marked r) else None
  | _ => None
  end.

(** What a retry reader may answer. *)
Definition retry_outcome {A} (e e' : E) (J : Journal) (kd : bytes) (replay : IdempotencyPayload → option A)
    (r : JResult (option A)) : Prop :=
  engine_ok e' ∧ engine_content e' = engine_content e ∧
  match r with
  | Ok None => receipts J !! kd = None ∧ e' = e
  | Ok (Some a) => ∃ p, receipts J !! kd = Some p ∧ replay p = Some a
  | Err _ => True
  end.

Lemma retry_matches_true p kd digest :
  retry_matches p kd digest = true ↔ ip_key_digest p = kd ∧ ip_request_digest p = digest.
Proof. unfold retry_matches. by rewrite andb_true_iff, !bool_decide_eq_true. Qed.

Lemma read_observation_retry_spec kd digest d e e' J r :
  engine_ok e → represents (engine_content e) J → read_observation_retry kd digest d e = (e', r) →
  retry_outcome e e' J kd (replay_observation digest) r.
Proof.
  intros Hok Hrep (e1 & r1 & Hi & Hk)%M_bind_inv. rewrite (read_idempotency_spec _ _ _ Hok Hrep) in Hi.
  injection Hi as <- <-. destruct (receipts J !! kd) as [p|] eqn:Hp; [|by injection Hk as <- <-].
  destruct (retry_matches p kd digest) eqn:Hm; cbn [negb] in Hk; [|by injection Hk as <- <-].
  apply retry_matches_true in Hm as [_ Hdig].
  destruct (ip_receipt p) as [q|q|q] eqn:Hq; [|by injection Hk as <- <-..].
  apply M_bind_inv in Hk as (e2 & r2 & [= <- <-] & Hk).
  destruct (ensure_durability _ _ _); [|by destruct Hk as [-> ->]].
  apply M_bind_inv in Hk as (e3 & r3 & Hs & Hk).
  destruct (synchronize_spec _ _ _ _ _ Hok Hs) as [Hok3 Hc3].
  destruct r3; [|by destruct Hk as [-> ->]]. injection Hk as <- <-. split_and!; [done..|].
  exists p. split; [done|]. unfold replay_observation. by rewrite Hq, bool_decide_true.
Qed.

Lemma replay_publication_spec q d e e' r :
  engine_ok e → replay_publication q d e = (e', r) →
  engine_ok e' ∧ engine_content e' = engine_content e ∧
  match r with Ok a => a = Some (marked q) | Err _ => True end.
Proof.
  intros Hok (e2 & r2 & [= <- <-] & Hk)%M_bind_inv.
  destruct (ensure_durability _ _ _); [|by destruct Hk as [-> ->]].
  apply M_bind_inv in Hk as (e3 & r3 & Hs & Hk).
  destruct (synchronize_spec _ _ _ _ _ Hok Hs) as [Hok3 Hc3].
  destruct r3; [|by destruct Hk as [-> ->]]. by injection Hk as <- <-.
Qed.

Lemma read_publication_retry_spec kd digest d e e' J r :
  engine_ok e → represents (engine_content e) J → read_publication_retry kd digest d e = (e', r) →
  retry_outcome e e' J kd (replay_semantic digest) r.
Proof.
  intros Hok Hrep (e1 & r1 & Hi & Hk)%M_bind_inv. rewrite (read_idempotency_spec _ _ _ Hok Hrep) in Hi.
  injection Hi as <- <-. destruct (receipts J !! kd) as [p|] eqn:Hp; [|by injection Hk as <- <-].
  destruct (retry_matches p kd digest) eqn:Hm; cbn [negb] in Hk; [|by injection Hk as <- <-].
  apply retry_matches_true in Hm as [_ Hdig].
  destruct (ip_receipt p) as [q|q|q] eqn:Hq; [by injection Hk as <- <-| |by injection Hk as <- <-].
  destruct (replay_publication_spec _ _ _ _ _ Hok Hk) as (? & ? & Hr). split_and!; [done..|].
  destruct r as [a|]; [|done]. subst a. exists p. split; [done|].
  unfold replay_semantic. by rewrite Hq, bool_decide_true.
Qed.

Lemma read_maintenance_retry_spec kd digest d e e' J r :
  engine_ok e → represents (engine_content e) J → read_maintenance_retry kd digest d e = (e', r) →
  retry_outcome e e' J kd (replay_maintained digest) r.
Proof.
  intros Hok Hrep (e1 & r1 & Hi & Hk)%M_bind_inv. rewrite (read_idempotency_spec _ _ _ Hok Hrep) in Hi.
  injection Hi as <- <-. destruct (receipts J !! kd) as [p|] eqn:Hp; [|by injection Hk as <- <-].
  destruct (retry_matches p kd digest) eqn:Hm; cbn [negb] in Hk; [|by injection Hk as <- <-].
  apply retry_matches_true in Hm as [_ Hdig].
  destruct (ip_receipt p) as [q|q|q] eqn:Hq; [by injection Hk as <- <-..|].
  destruct (replay_publication_spec _ _ _ _ _ Hok Hk) as (? & ? & Hr). split_and!; [done..|].
  destruct r as [a|]; [|done]. subst a. exists p. split; [done|].
  unfold replay_maintained. by rewrite Hq, bool_decide_true.
Qed.

(** A retry that answers settles the operation. *)
Lemma retry_settles {A} e e' J J' kd (fresh : A) replay r :
  retry_outcome e e' J kd replay r → r ≠ Ok None →
  commit_outcome e e' J J' kd fresh replay
    match r with Ok (Some a) => Ok a | Ok None => Err CoordinatorPoisoned | Err err => Err err end.
Proof.
  intros (Hok & Hc & Hr) Hne. split; [done|]. destruct r as [[a|]|]; [|done|by left].
  right. destruct Hr as (p & ? & ?). eauto.
Qed.

(** Reaching the end without a commit. *)
Lemma unchanged_outcome {A} e J J' kd (fresh : A) replay err :
  engine_ok e → commit_outcome e e J J' kd fresh replay (Err err).
Proof. split; [done|]. by left. Qed.

Lemma checked_next_Some n m : checked_next n = Some m ↔ m = (n + 1)%N ∧ (n + 1 ≤ U64_MAX)%N.
Proof. unfold checked_next. rewrite checked_add_Some. naive_solver. Qed.

(** The frames of one event, staged on the current content and committed. *)
Lemma commit_event {A} t t' ev p options (fresh : A) replay e e' r J :
  engine_ok e → txn_content t = engine_content e → txn_current e t →
  represents (engine_content e) J →
  event_commit_seq ev = next_of J → (next_of J ≤ U64_MAX)%N →
  event_valid ev → refs_accepted (log J) ev → receipt_for p ev →
  fresh_event (engine_content e) J ev p →
  stage_writes t (commit_writes ev p) = Ok t' →
  finish_commit t' (event_commit_seq ev) options fresh e = (e', r) →
  commit_outcome e e' J (append J ev p) (ip_key_digest p) fresh replay r.
Proof.
  intros Hok Hct Hcur Hrep Hseq Hmax Hval Hrefs Hfor Hfresh Hst Hfin.
  apply stage_writes_written in Hst as [Hwr Hcur']; [|by apply NoDup_commit_writes].
  rewrite Hct in Hwr. eapply finish_commit_spec; [done|by apply Hcur'|apply Hfresh| |exact Hfin].
  by eapply represents_append.
Qed.

Lemma fresh_publication c J mk pk n id pid exact digest outbox ev p :
  represents c J → event_writes ev = publication_writes mk pk n id pid exact digest outbox →
  (head_of J < n)%N → (n ≤ U64_MAX)%N → (len outbox ≤ U32_MAX)%N →
  receipts J !! ip_key_digest p = None → c !! (as_str MUTATIONS, mutation_key id) = None →
  fresh_event c J ev p.
Proof.
  intros Hrep Hw Hn Hmax Hlen Hr Hm. split; [done|]. rewrite Hw. unfold publication_writes.
  intros w [->|[->|(i & x & Hi & ->)%elem_of_outbox_writes]%elem_of_cons]%elem_of_cons; cbn [fst snd].
  - done.
  - by eapply event_key_free.
  - apply lookup_lt_Some in Hi. unfold len in Hlen. eapply outbox_key_free; [done..|lia].
Qed.

Lemma outbox_count_of_Ok work n : outbox_count_of work = Ok n ↔ n = len work ∧ (len work ≤ U32_MAX)%N.
Proof.
  unfold outbox_count_of, try_from_max. destruct (N.leb_spec (len work) U32_MAX); simpl; [naive_solver|].
  split; [done|]. lia.
Qed.

Lemma accept_observation_outcome e e' J idempotency o options r :
  Observation_from_json (vo_bytes o) = Ok o →
  engine_ok e → represents (engine_content e) J →
  accept_observation idempotency o options e = (e', r) →
  let kd := idempotency_digest idempotency in
  let receipt := MkObservationReceipt (vo_id o) (next_of J) (durability options) false (vo_digest o) in
  commit_outcome e e' J
    (append J (ObservationAccepted (next_of J) (vo_id o) (vo_bytes o) (vo_digest o))
       (MkIdempotencyPayload kd (vo_digest o) (StoredObservation receipt)))
    kd receipt (replay_observation (vo_digest o)) r.
Proof.
  intros Hjson Hok Hrep (e1 & r1 & Hret & Hk)%M_bind_inv kd receipt.
  pose proof (read_observation_retry_spec _ _ _ _ _ _ _ Hok Hrep Hret) as Ho.
  destruct r1 as [[a|]|err];
    [by injection Hk as <- <-; apply (retry_settles _ _ _ _ _ _ _ _ Ho)| |
     by destruct Hk as [-> ->]; apply (retry_settles _ _ _ _ _ _ _ _ Ho)].
  destruct Ho as (_ & _ & Hkd & ->). clear Hret.
  pure_step Hk.
  destruct (fail_if _ _); [|destruct Hk as [-> ->]; by apply unchanged_outcome].
  destruct (open_transaction_spec e Hok) as (t & Ht & Hct & Hcur).
  apply M_bind_inv in Hk as (? & ? & Ht' & Hk). rewrite Ht in Ht'. injection Ht' as <- <-.
  pure_step Hk.
  rewrite (logical_head_represents t (engine_content e) J) in Hk
    by (done || (intros; by rewrite txn_get, Hct)).
  pure_step Hk.
  destruct (checked_next (head_of J)) as [n|] eqn:Hn; cbn [ok_or] in Hk;
    [|destruct Hk as [-> ->]; by apply unchanged_outcome].
  apply checked_next_Some in Hn as [-> Hmax].
  pure_step Hk. rewrite txn_get, Hct in Hk. cbn [storage map_err] in Hk.
  case_bool_decide as Hex; [injection Hk as <- <-; by apply unchanged_outcome|].
  apply eq_None_not_Some in Hex. pure_step Hk.
  rewrite stage_observation_writes in Hk by done.
  destruct (stage_writes _ _) as [t'|] eqn:Hst; [|destruct Hk as [-> ->]; by apply unchanged_outcome].
  apply (commit_event t t' (ObservationAccepted (next_of J) (vo_id o) (vo_bytes o) (vo_digest o))
    (MkIdempotencyPayload kd (vo_digest o) (StoredObservation receipt)) options _ _ e e' r J);
    [done..| |done|done| |exact Hst|exact Hk].
  - simpl. eauto.
  - split; [done|]. simpl. intros w [->|[->|[]%elem_of_nil]%elem_of_cons]%elem_of_cons; cbn [fst snd]; [|done].
    eapply event_key_free; [done|unfold head_of, next_of; lia|done].
Qed.

(** C1: accepting an observation implements appending it to the abstract
    journal, on any engine that meets the storage laws, faulty or not.  A fresh
    answer means the journal now ends with exactly this observation at the next
    sequence; an answer to a key seen before is the stored receipt, marked as
    replayed, with the store unchanged; an error leaves the store as it was or
    holding exactly that one more event. *)
Theorem accept_observation_refines e e' J idempotency o options r :
  Observation_from_json (vo_bytes o) = Ok o →
  engine_ok e → represents (engine_content e) J →
  accept_observation idempotency o options e = (e', r) →
  let kd := idempotency_digest idempotency in
  let receipt := MkObservationReceipt (vo_id o) (next_of J) (durability options) false (vo_digest o) in
  commit_outcome e e' J
    (append J (ObservationAccepted (next_of J) (vo_id o) (vo_bytes o) (vo_digest o))
       (MkIdempotencyPayload kd (vo_digest o) (StoredObservation receipt)))
    kd receipt (replay_observation (vo_digest o)) r.
Proof. apply accept_observation_outcome. Qed.

Lemma publish_semantic_outcome e e' J pid idempotency m options r :
  Mutation_from_json (vm_bytes m) = Ok m →
  engine_ok e → represents (engine_content e) J →
  publish_semantic pid idempotency m options e = (e', r) →
  let kd := idempotency_digest idempotency in
  let work := derived_work (vm_mutation m) in
  let receipt := MkPublicationReceipt (vm_id m) pid (next_of J) (durability options) (len work) false
    (vm_digest m) in
  commit_outcome e e' J
    (append J (SemanticPublished (next_of J) (vm_id m) pid (vm_bytes m) (vm_digest m) work)
       (MkIdempotencyPayload kd (vm_digest m) (StoredPublication receipt)))
    kd receipt (replay_semantic (vm_digest m)) r.
Proof.
  intros Hjson Hok Hrep (e1 & r1 & Hret & Hk)%M_bind_inv kd work receipt.
  pose proof (read_publication_retry_spec _ _ _ _ _ _ _ Hok Hrep Hret) as Ho.
  destruct r1 as [[a|]|err];
    [by injection Hk as <- <-; apply (retry_settles _ _ _ _ _ _ _ _ Ho)| |
     by destruct Hk as [-> ->]; apply (retry_settles _ _ _ _ _ _ _ _ Ho)].
  destruct Ho as (_ & _ & Hkd & ->). clear Hret. pure_step Hk.
  destruct (fail_if _ _); [|destruct Hk as [-> ->]; by apply unchanged_outcome].
  destruct (open_transaction_spec e Hok) as (t & Ht & Hct & Hcur).
  assert (∀ ks k, get t ks k = Ok (engine_content e !! (as_str ks, k))) as Hget
    by (intros; by rewrite txn_get, Hct).
  apply M_bind_inv in Hk as (? & ? & Ht' & Hk). rewrite Ht in Ht'. injection Ht' as <- <-. pure_step Hk.
  rewrite (logical_head_represents t (engine_content e) J Hget Hrep) in Hk.
  destruct (N.eqb_spec (snapshot_commit_seq (base_snapshot (vm_mutation m))) (head_of J)) as [Hbase|];
    cbn [negb] in Hk; [|injection Hk as <- <-; by apply unchanged_outcome].
  remember (for_each _ (into_vec (journal_refs (vm_mutation m)))) as checked eqn:Hrefs in Hk.
  pure_step Hk. destruct checked as [[]|]; [|destruct Hk as [-> ->]; by apply unchanged_outcome].
  pure_step Hk. rewrite Hget in Hk. cbn [storage map_err] in Hk.
  case_bool_decide as Hex; [injection Hk as <- <-; by apply unchanged_outcome|].
  apply eq_None_not_Some in Hex. pure_step Hk.
  destruct (checked_next (head_of J)) as [n|] eqn:Hn; cbn [ok_or] in Hk;
    [|destruct Hk as [-> ->]; by apply unchanged_outcome].
  apply checked_next_Some in Hn as [-> Hmax]. pure_step Hk.
  destruct (outbox_count_of _) as [count|] eqn:Hcount; [|destruct Hk as [-> ->]; by apply unchanged_outcome].
  apply outbox_count_of_Ok in Hcount as [-> Hlen]. pure_step Hk.
  set (ev := SemanticPublished (next_of J) (vm_id m) pid (vm_bytes m) (vm_digest m) work).
  rewrite (stage_publication_writes _ _ _ _ _ _ _ _ _ ev) in Hk by done.
  destruct (stage_writes _ _) as [t'|] eqn:Hst; [|destruct Hk as [-> ->]; by apply unchanged_outcome].
  apply (commit_event t t' ev (MkIdempotencyPayload kd (vm_digest m) (StoredPublication receipt))
    options _ _ e e' r J); [done..| | |done| |exact Hst|exact Hk].
  - simpl. exists m. rewrite Hbase. unfold head_of, next_of. done.
  - by apply (semantic_refs_accepted t (engine_content e) J).
  - eapply fresh_publication; [done|done|unfold head_of, next_of; lia|done..].
Qed.

(** C2: publishing a semantic mutation implements appending it to the abstract
    journal with its outbox, on any engine that meets the storage laws.  The
    event is appended only when the mutation was prepared on the current head and
    every observation it refers to was accepted before; answers and errors are as
    for an observation. *)
Theorem publish_semantic_refines e e' J pid idempotency m options r :
  Mutation_from_json (vm_bytes m) = Ok m →
  engine_ok e → represents (engine_content e) J →
  publish_semantic pid idempotency m options e = (e', r) →
  let kd := idempotency_digest idempotency in
  let work := derived_work (vm_mutation m) in
  let receipt := MkPublicationReceipt (vm_id m) pid (next_of J) (durability options) (len work) false
    (vm_digest m) in
  commit_outcome e e' J
    (append J (SemanticPublished (next_of J) (vm_id m) pid (vm_bytes m) (vm_digest m) work)
       (MkIdempotencyPayload kd (vm_digest m) (StoredPublication receipt)))
    kd receipt (replay_semantic (vm_digest m)) r.
Proof. apply publish_semantic_outcome. Qed.

Lemma publish_maintenance_outcome e e' J pid idempotency m options r :
  Maintenance_from_json (vx_bytes m) = Ok m →
  engine_ok e → represents (engine_content e) J →
  publish_maintenance pid idempotency m options e = (e', r) →
  let kd := idempotency_digest idempotency in
  let work := maintenance_derived_work (vx_mutation m) in
  let receipt := MkPublicationReceipt (vx_id m) pid (next_of J) (durability options) (len work) false
    (vx_digest m) in
  commit_outcome e e' J
    (append J (MaintenancePublished (next_of J) (vx_id m) pid (vx_bytes m) (vx_digest m) work)
       (MkIdempotencyPayload kd (vx_digest m) (StoredMaintenance receipt)))
    kd receipt (replay_maintained (vx_digest m)) r.
Proof.
  intros Hjson Hok Hrep (e1 & r1 & Hret & Hk)%M_bind_inv kd work receipt.
  pose proof (read_maintenance_retry_spec _ _ _ _ _ _ _ Hok Hrep Hret) as Ho.
  destruct r1 as [[a|]|err];
    [by injection Hk as <- <-; apply (retry_settles _ _ _ _ _ _ _ _ Ho)| |
     by destruct Hk as [-> ->]; apply (retry_settles _ _ _ _ _ _ _ _ Ho)].
  destruct Ho as (_ & _ & Hkd & ->). clear Hret. pure_step Hk.
  destruct (fail_if _ _); [|destruct Hk as [-> ->]; by apply unchanged_outcome].
  destruct (open_transaction_spec e Hok) as (t & Ht & Hct & Hcur).
  assert (∀ ks k, get t ks k = Ok (engine_content e !! (as_str ks, k))) as Hget
    by (intros; by rewrite txn_get, Hct).
  apply M_bind_inv in Hk as (? & ? & Ht' & Hk). rewrite Ht in Ht'. injection Ht' as <- <-. pure_step Hk.
  rewrite (logical_head_represents t (engine_content e) J Hget Hrep) in Hk.
  destruct (N.eqb_spec (snapshot_commit_seq (maintenance_base (vx_mutation m))) (head_of J)) as [Hbase|];
    cbn [negb] in Hk; [|injection Hk as <- <-; by apply unchanged_outcome].
  pure_step Hk. rewrite Hget in Hk. cbn [storage map_err] in Hk.
  case_bool_decide as Hex; [injection Hk as <- <-; by apply unchanged_outcome|].
  apply eq_None_not_Some in Hex. pure_step Hk.
  destruct (checked_next (head_of J)) as [n|] eqn:Hn; cbn [ok_or] in Hk;
    [|destruct Hk as [-> ->]; by apply unchanged_outcome].
  apply checked_next_Some in Hn as [-> Hmax]. pure_step Hk.
  destruct (outbox_count_of _) as [count|] eqn:Hcount; [|destruct Hk as [-> ->]; by apply unchanged_outcome].
  apply outbox_count_of_Ok in Hcount as [-> Hlen]. pure_step Hk.
  set (ev := MaintenancePublished (next_of J) (vx_id m) pid (vx_bytes m) (vx_digest m) work).
  rewrite (stage_publication_writes _ _ _ _ _ _ _ _ _ ev) in Hk by done.
  destruct (stage_writes _ _) as [t'|] eqn:Hst; [|destruct Hk as [-> ->]; by apply unchanged_outcome].
  apply (commit_event t t' ev (MkIdempotencyPayload kd (vx_digest m) (StoredMaintenance receipt))
    options _ _ e e' r J); [done..| |done|done| |exact Hst|exact Hk].
  - simpl. exists m. rewrite Hbase. unfold head_of, next_of. done.
  - eapply fresh_publication; [done|done|unfold head_of, next_of; lia|done..].
Qed.

(** C15: publishing a maintenance operation implements appending it to the
    abstract journal with its outbox, on any engine that meets the storage laws;
    answers and errors are as for a semantic publication. *)
Theorem publish_maintenance_refines e e' J pid idempotency m options r :
  Maintenance_from_json (vx_bytes m) = Ok m →
  engine_ok e → represents (engine_content e) J →
  publish_maintenance pid idempotency m options e = (e', r) →
  let kd := idempotency_digest idempotency in
  let work := maintenance_derived_work (vx_mutation m) in
  let receipt := MkPublicationReceipt (vx_id m) pid (next_of J) (durability options) (len work) false
    (vx_digest m) in
  commit_outcome e e' J
    (append J (MaintenancePublished (next_of J) (vx_id m) pid (vx_bytes m) (vx_digest m) work)
       (MkIdempotencyPayload kd (vx_digest m) (StoredMaintenance receipt)))
    kd receipt (replay_maintained (vx_digest m)) r.
Proof. apply publish_maintenance_outcome. Qed.

(** a key that has a receipt never commits again.  A request with another
    digest or of another kind is refused.  The same request gets its stored receipt
    back, marked as replayed; when it asks for ephemeral durability, so that no
    synchronising barrier is due, this cannot fail.  Neither changes the engine. *)
Theorem retry_returns_stored_receipt e J key o options p :
  engine_ok e → represents (engine_content e) J →
  receipts J !! idempotency_digest key = Some p →
  match replay_observation (vo_digest o) p with
  | Some a => durability options = Ephemeral → accept_observation key o options e = (e, Ok a)
  | None => accept_observation key o options e = (e, Err IdempotencyConflict)
  end.
Proof.
  intros Hok Hrep Hp. destruct (rep_receipts _ _ Hrep _ p Hp) as (Hkd & _).
  unfold accept_observation, read_observation_retry, replay_observation, M_bind.
  rewrite (read_idempotency_spec e J _ Hok Hrep), Hp. unfold retry_matches.
  rewrite Hkd, (bool_decide_true (idempotency_digest key = _)) by done.
  destruct (ip_receipt p) as [q|q|q], (bool_decide (ip_request_digest p = vo_digest o));
    cbn [andb negb lift]; try done.
  intros Hd. rewrite Hd. unfold lift, ensure_durability. unfold synchronize_retry_if_required. by rewrite bool_decide_false.
Qed.
End commits.

(** ** The theorems on the in-memory engine *)

Definition accepted : State * JResult ObservationReceipt :=
  accept_observation (sample_key "a") sample_request CommitOptions_default sample_engine.

Definition first_receipt : ObservationReceipt :=
  MkObservationReceipt (vo_id sample_request) 1 Sync false (vo_digest sample_request).

(** The journal with the sample observation. *)
Definition journal_1 : Journal :=
  append empty_journal
    (ObservationAccepted 1 (vo_id sample_request) (vo_bytes sample_request) (vo_digest sample_request))
    (MkIdempotencyPayload (idempotency_digest (sample_key "a")) (vo_digest sample_request)
       (StoredObservation first_receipt)).

Lemma accepted_answer : accepted.2 = Ok first_receipt.
Proof. vm_compute. reflexivity. Qed.

Lemma accepted_represents : engine_ok accepted.1 ∧ represents (engine_content accepted.1) journal_1.
Proof.
  destruct (accept_observation_outcome sample_engine accepted.1 empty_journal (sample_key "a") sample_request
    CommitOptions_default accepted.2 sample_request_valid sample_engine_ok sample_engine_represents
    (surjective_pairing accepted)) as [Hok Hout].
  split; [exact Hok|]. rewrite accepted_answer in Hout.
  destruct Hout as [(_ & _ & Hrep)|(p & Hp & _)]; [exact Hrep|].
  unfold empty_journal in Hp. simpl in Hp. by rewrite lookup_empty in Hp.
Qed.

Lemma accept_observation_refines_witness :
  accepted.2 = Ok first_receipt ∧
  commit_outcome sample_engine accepted.1 empty_journal journal_1 (idempotency_digest (sample_key "a"))
    first_receipt (replay_observation (vo_digest sample_request)) accepted.2.
Proof.
  split; [vm_compute; reflexivity|].
  exact (accept_observation_refines sample_engine accepted.1 empty_journal (sample_key "a") sample_request
    CommitOptions_default accepted.2 sample_request_valid sample_engine_ok sample_engine_represents
    (surjective_pairing accepted)).
Defined.

Definition published : State * JResult PublicationReceipt :=
  publish_semantic (sample_id _) (sample_key "b") sample_publish CommitOptions_default accepted.1.

Lemma publish_semantic_refines_witness :
  (∃ receipt, published.2 = Ok receipt ∧ pr_commit_seq receipt = 2%N ∧ pr_outbox_count receipt = 2%N) ∧
  engine_ok published.1.
Proof.
  split; [eexists; split; [vm_compute; reflexivity|done]|].
  exact (proj1 (publish_semantic_refines accepted.1 published.1 journal_1 (sample_id _) (sample_key "b") sample_publish
    CommitOptions_default published.2 sample_publish_valid (proj1 accepted_represents)
    (proj2 accepted_represents) (surjective_pairing published))).
Defined.

Definition maintained : State * JResult MaintenanceReceipt :=
  publish_maintenance (sample_id _) (sample_key "c") sample_maintain CommitOptions_default sample_engine.

Lemma publish_maintenance_refines_witness :
  (∃ receipt, maintained.2 = Ok receipt ∧ pr_commit_seq receipt = 1%N) ∧ engine_ok maintained.1.
Proof.
  split; [eexists; split; [vm_compute; reflexivity|done]|].
  exact (proj1 (publish_maintenance_refines sample_engine maintained.1 empty_journal (sample_id _) (sample_key "c")
    sample_maintain CommitOptions_default maintained.2 sample_maintain_valid sample_engine_ok
    sample_engine_represents (surjective_pairing maintained))).
Defined.

Definition first_payload : IdempotencyPayload :=
  MkIdempotencyPayload (idempotency_digest (sample_key "a")) (vo_digest sample_request)
    (StoredObservation first_receipt).

Lemma retry_returns_stored_receipt_witness :
  accept_observation (sample_key "a") sample_request (MkCommitOptions Ephemeral None) accepted.1 =
  (accepted.1, Ok (MkObservationReceipt (vo_id sample_request) 1 Sync true (vo_digest sample_request))).
Proof.
  assert (receipts journal_1 !! idempotency_digest (sample_key "a") = Some first_payload) as Hp
    by (vm_compute; reflexivity).
  assert (replay_observation (vo_digest sample_request) first_payload =
    Some (MkObservationReceipt (vo_id sample_request) 1 Sync true (vo_digest sample_request))) as Hr
    by (vm_compute; reflexivity).
  pose proof (retry_returns_stored_receipt accepted.1 journal_1 (sample_key "a") sample_request
    (MkCommitOptions Ephemeral None) first_payload (proj1 accepted_represents)
    (proj2 accepted_represents) Hp) as Hretry.
  rewrite Hr in Hretry. exact (Hretry eq_refl).
Defined.
