(* ===== verification/JournalSnapshot.v ===== *)
(** * Reading the journal back

    A represented journal is read back exactly: the ordered event scan, the frame
    checks and the outbox scans rebuild the abstract log, for the latest snapshot
    and for every earlier one.  The only way a read of a represented journal can
    fail is a storage error, such as the size limit of the vector scan. *)

From S2P Require Import Prelude.
From S2P Require Import Ordering.
From S2P Require Import Bytes.
From S2P Require Import Storage.
From S2P Require Import Engine.
From S2P Require Import Format.
From S2P Require Import CoreBase.
From S2P Require Import Provenance.
From S2P Require Import Policy.
From S2P Require Import Identity.
From S2P Require Import Evidence.
From S2P Require Import Semantic.
From S2P Require Import MemoryTypes.
From S2P Require Import Mutation.
From S2P Require Import Maintenance.
From S2P Require Import JournalModel.
From S2P Require Import Journal.
From S2P Require Import JournalSpec.
From S2P Require Import MemoryStorage.
From S2P Require Import JournalSample.
From S2P Require Import JournalRefinement.

(** What a selector asks of the abstract journal. *)
Definition requested_snapshot `{SerdeError} (J : Journal) (seq : N) (sel : JournalSnapshotSelector)
    : JResult JournalSnapshot :=
  match sel with
  | JournalLatest => Ok (MkJournalSnapshot (head_of J) seq (log J))
  | JournalAt n =>
      if (head_of J <? n)%N then Err (JournalSnapshotUnavailable n (head_of J))
      else Ok (MkJournalSnapshot n seq (take (N.to_nat n) (log J)))
  end.

(** ** Scans of consecutively keyed tables *)

(** The entries of a table at the keys [kf j], ..., [kf (j + m - 1)]. *)
Definition indexed_entries (t : gmap bytes bytes) (kf : nat → bytes) (j m : nat) : list Entry :=
  (λ i, MkEntry (kf i) (default [] (t !! kf i))) <$> seq j m.

Lemma indexed_entries_sorted t kf j m :
  (∀ i i', (i < i' < j + m)%nat → klt (kf i) (kf i')) → StronglySorted key_lt (indexed_entries t kf j m).
Proof.
  unfold indexed_entries. revert j; induction m as [|m IH]; intros j Hlt; [constructor|].
  cbn [seq]. rewrite fmap_cons. constructor.
  - apply IH. intros i i' ?. apply Hlt. lia.
  - rewrite Forall_fmap, Forall_forall. intros i [Hi ?]%elem_of_seq. apply Hlt. simpl. lia.
Qed.

Lemma with_prefix_indexed t pfx kf m :
  (∀ i i', (i < i' < m)%nat → klt (kf i) (kf i')) →
  (∀ k, starts_with pfx k = true ∧ is_Some (t !! k) ↔ ∃ i, (i < m)%nat ∧ k = kf i) →
  with_prefix pfx (table_entries t) = indexed_entries t kf 0 m.
Proof.
  intros Hlt Hk. apply key_lt_sorted_ext.
  - apply StronglySorted_filter, table_entries_sorted.
  - by apply indexed_entries_sorted.
  - intros [k v]. unfold with_prefix, indexed_entries.
    rewrite list_elem_of_filter, table_entries_elem, list_elem_of_fmap. simpl. split.
    + intros [Hp Hv]. destruct (proj1 (Hk k)) as (i & Hi & ->); [by eauto|].
      exists i. rewrite Hv. split; [done|]. apply elem_of_seq. lia.
    + intros (i & [= -> ->] & [_ Hi]%elem_of_seq).
      destruct (proj2 (Hk (kf i))) as [Hp [v Hv]]; [by exists i|]. by rewrite Hv.
Qed.

Section snapshot.
Context `{Blake3, JournalJson, !JournalJsonLaws} `{ReadSnapshot R}.
Context (s : R) (c : content) (J : Journal).
Hypothesis Hget : ∀ ks k, get s ks k = Ok (c !! (as_str ks, k)).
Hypothesis Hscan : ∀ ks pfx, scan_prefix s ks pfx = scan_table (keyspace_table c ks) pfx.
Hypothesis Hrep : represents c J.

Definition outbox_of (n : CommitSeq) : list Entry :=
  with_prefix (outbox_sequence_prefix n) (table_entries (keyspace_table c OUTBOX)).
Definition events_of : list Entry := with_prefix EVENT_PREFIX (table_entries (keyspace_table c EVENTS)).

Lemma stored_lookup ks k r : stored c (ks, k, r) → ∃ bs, r = Ok bs ∧ keyspace_table c ks !! k = Some bs.
Proof. intros (bs & Hr & Hc). exists bs. by rewrite lookup_keyspace_table. Qed.

(** The outbox scan of an event sees exactly the frames of that event. *)
Lemma outbox_of_event ev :
  ev ∈ log J →
  outbox_of (event_commit_seq ev) =
  indexed_entries (keyspace_table c OUTBOX) (λ i, outbox_key (event_commit_seq ev) (N.of_nat i)) 0
    (length (event_outbox ev)).
Proof.
  intros Hev. pose proof (event_seq_bound _ _ _ Hrep Hev) as Hb. pose proof (rep_bound _ _ Hrep) as Hm.
  pose proof (event_outbox_bound ev (proj1 (rep_valid _ _ Hrep ev Hev))) as Hlen. unfold len in Hlen.
  apply with_prefix_indexed; [intros; apply outbox_key_lt; lia|].
  intros k. rewrite lookup_keyspace_table. split.
  - intros [Hp Hsome].
    destruct (rep_owned _ _ Hrep ("journal_outbox", OUTBOX) k) as [?|[(ev' & Hev' & Hk)|(p & _ & ?)]];
      [apply list_elem_of_In; simpl; tauto|done|done| |done].
    apply event_keys_outbox in Hk as (i & Hi & ->). exists i.
    pose proof (event_seq_bound _ _ _ Hrep Hev') as Hb'.
    apply outbox_prefix_key in Hp; [|lia..].
    assert (ev' = ev) as ->; [|done].
    pose proof (event_at _ _ _ _ Hrep Hev' (eq_sym Hp)). pose proof (event_at _ _ _ _ Hrep Hev eq_refl). congruence.
  - intros (i & Hi & ->). split; [apply outbox_prefix_key; lia|].
    assert ((OUTBOX, outbox_key (event_commit_seq ev) (N.of_nat i)) ∈ (event_writes ev).*1) as Hin
      by (apply event_keys_outbox; eauto).
    apply list_elem_of_fmap in Hin as ([[ks k] r] & Heq & Hw). cbn [fst] in Heq. injection Heq as <- <-.
    destruct (rep_events _ _ Hrep ev _ Hev Hw) as (bs & _ & Hc). by eexists.
Qed.

Lemma events_of_journal :
  events_of = indexed_entries (keyspace_table c EVENTS) (λ i, event_key (N.of_nat i + 1)) 0 (length (log J)).
Proof.
  pose proof (rep_bound _ _ Hrep) as Hm. unfold head_of, len in Hm.
  apply with_prefix_indexed; [intros; apply event_key_lt; lia|].
  intros k. rewrite lookup_keyspace_table. split.
  - intros [Hp Hsome].
    destruct (rep_owned _ _ Hrep ("semantic_journal", EVENTS) k) as [?|[(ev & Hev & Hk)|(p & _ & ?)]];
      [apply list_elem_of_In; simpl; tauto|done|done| |done].
    apply event_keys_events in Hk as ->. apply list_elem_of_lookup in Hev as [i Hi]. exists i.
    rewrite (rep_seq _ _ Hrep i ev Hi). split; [by eapply lookup_lt_Some|done].
  - intros (i & [ev Hi]%lookup_lt_is_Some & ->). split; [apply starts_with_app|].
    pose proof (rep_seq _ _ Hrep i ev Hi) as Hn. apply list_elem_of_lookup_2 in Hi.
    assert ((EVENTS, event_key (N.of_nat i + 1)) ∈ (event_writes ev).*1) as Hin
      by (apply event_keys_events; by rewrite Hn).
    apply list_elem_of_fmap in Hin as ([[ks k] r] & Heq & Hw). cbn [fst] in Heq. injection Heq as <- <-.
    destruct (rep_events _ _ Hrep ev _ Hi Hw) as (bs & _ & Hc). by eexists.
Qed.

Lemma read_outbox_entries n id reason work j :
  (n ≤ U64_MAX)%N →
  (∀ i w, work !! i = Some w → stored c (OUTBOX, outbox_key n (N.of_nat (j + i)),
     encode_frame Outbox n (MkOutboxFramePayload id (N.of_nat (j + i)) w))) →
  read_outbox n id reason (N.of_nat j)
    (indexed_entries (keyspace_table c OUTBOX) (λ i, outbox_key n (N.of_nat i)) j (length work)) = Ok work.
Proof.
  intros Hn. unfold indexed_entries. revert j; induction work as [|w work IH]; intros j Hst; [done|].
  cbn [length seq]. rewrite fmap_cons. cbn [read_outbox value key].
  destruct (stored_lookup _ _ _ (Hst 0%nat w eq_refl)) as (bs & He & Hc). rewrite Nat.add_0_r in He, Hc.
  rewrite Hc. change (default [] (Some bs)) with bs. rewrite (decode_frame_encode _ _ _ _ Hn He).
  cbn [result_bind xf_mutation_id xf_index xf_work].
  rewrite bool_decide_true, N.eqb_refl, bool_decide_true by done. cbn [negb orb].
  replace (N.of_nat j + 1)%N with (N.of_nat (S j)) by lia. rewrite IH; [done|].
  intros i x Hi. specialize (Hst (S i) x Hi). by rewrite Nat.add_succ_r in Hst.
Qed.

(** The outbox part of both publication arms, when the scan succeeds. *)
Lemma read_outbox_event ev id reason l :
  ev ∈ log J → scan_prefix s OUTBOX (outbox_sequence_prefix (event_commit_seq ev)) = Ok l →
  (∀ i w, event_outbox ev !! i = Some w →
     (OUTBOX, outbox_key (event_commit_seq ev) (N.of_nat i),
      encode_frame Outbox (event_commit_seq ev) (MkOutboxFramePayload id (N.of_nat i) w))
     ∈ event_writes ev) →
  len l = len (event_outbox ev) ∧
  read_outbox (event_commit_seq ev) id reason 0 l = Ok (event_outbox ev).
Proof.
  intros Hev Hl Hw. rewrite Hscan in Hl. apply scan_table_Ok in Hl as ->.
  change (with_prefix _ _) with (outbox_of (event_commit_seq ev)). rewrite (outbox_of_event ev Hev). split.
  - unfold len, indexed_entries. by rewrite length_fmap, length_seq.
  - pose proof (event_seq_bound _ _ _ Hrep Hev). pose proof (rep_bound _ _ Hrep).
    apply (read_outbox_entries (event_commit_seq ev) id reason (event_outbox ev) 0); [lia|].
    intros i w Hi. by eapply rep_events; [|done|apply Hw].
Qed.

Lemma materialize_frame `{!Json T, !JsonRoundtrip T} kind n (v : T) bs :
  (n ≤ U64_MAX)%N → encode_frame kind n v = Ok bs →
  ∃ record, from_slice (payload record) = Ok v ∧
    materialize_event s n bs =
    match kind with
    | Observation => materialize_observation s n record
    | SemanticPublication => materialize_semantic s n record
    | MaintenancePublication => materialize_maintenance s n record
    | _ => materialize_event s n bs
    end.
Proof.
  intros Hn (p & Hp & Hd)%decode_record_frame; [|done].
  exists (MkDecodedRecord (MkRecordEnvelope (RecordKind_u16 kind) SCHEMA_VERSION 0 n (len p) (checksum p)) p).
  split; [by apply (json_roundtrip v p)|].
  destruct kind; try done; unfold materialize_event; rewrite Hd; cbn [format map_err result_bind envelope
    schema_version flags commit_seq record_kind]; rewrite !N.eqb_refl; cbn [negb orb]; done.
Qed.

(** [r] is the event, unless the outbox scan of its sequence failed. *)
Definition read_back (ev : JournalEvent) (r : JResult JournalEvent) : Prop :=
  match scan_prefix s OUTBOX (outbox_sequence_prefix (event_commit_seq ev)) with
  | Ok _ => r = Ok ev
  | Err err => r = Ok ev ∨ r = Err (JournalStorage err)
  end.

Lemma materialize_observation_represents n id exact digest record :
  let ev := ObservationAccepted n id exact digest in
  ev ∈ log J → from_slice (payload record) = Ok (MkObservationFramePayload id digest exact) →
  materialize_observation s n record = Ok ev.
Proof.
  intros ev Hev Hp. destruct (rep_valid _ _ Hrep ev Hev) as [(v & Hv & Hid & Hdig) _].
  unfold materialize_observation. rewrite Hp. cbn [json map_err result_bind of_exact_bytes]. rewrite Hv.
  cbn [result_bind of_observation_id of_request_digest]. rewrite Hid, Hdig, !bool_decide_true by done.
  cbn [negb orb]. rewrite (observation_index_represents s c J Hget Hrep n id exact digest n) by done.
  cbn [result_bind decoded_sequence decoded_value index_request_digest].
  rewrite N.eqb_refl, bool_decide_true by done. done.
Qed.

Lemma checked_sub_succ n : checked_sub (n + 1) 1 = Some n.
Proof. unfold checked_sub. rewrite (proj2 (N.leb_le _ _)) by lia. f_equal. lia. Qed.

Lemma mutation_frame_stored mk pk n id pid exact digest outbox ev :
  ev ∈ log J → event_writes ev = publication_writes mk pk n id pid exact digest outbox →
  event_commit_seq ev = n →
  ∃ bs, c !! (as_str MUTATIONS, mutation_key id) = Some bs ∧
    decode_frame SemanticMutationFramePayload bs mk n = Ok (MkSemanticMutationFramePayload id digest exact).
Proof.
  intros Hev Hw Hn. destruct (rep_events _ _ Hrep ev (MUTATIONS, mutation_key id,
    encode_frame mk n (MkSemanticMutationFramePayload id digest exact)) Hev) as (bs & He & Hc).
  { rewrite Hw. by left. }
  exists bs. split; [done|]. pose proof (event_seq_bound _ _ _ Hrep Hev). pose proof (rep_bound _ _ Hrep).
  apply decode_frame_encode; [lia|done].
Qed.

Lemma refs_valid n id pid exact digest outbox v :
  SemanticPublished (n + 1) id pid exact digest outbox ∈ log J → Mutation_from_json exact = Ok v →
  for_each (λ id, validate_observation_reference s id n) (into_vec (journal_refs (vm_mutation v))) = Ok tt.
Proof.
  intros Hev Hv. destruct (rep_valid _ _ Hrep _ Hev) as [_ Hrefs].
  apply for_each_Ok, Forall_forall. intros i Hi.
  destruct (Hrefs v i Hv Hi) as (n' & bs & d & Hin & Hlt).
  unfold validate_observation_reference.
  by rewrite (observation_index_represents s c J Hget Hrep n' i bs d n) by (done || lia).
Qed.

Lemma materialize_semantic_represents n id pid exact digest outbox record :
  let ev := SemanticPublished n id pid exact digest outbox in
  ev ∈ log J →
  from_slice (payload record) = Ok (MkSemanticPublicationFramePayload id pid digest (len outbox)) →
  read_back ev (materialize_semantic s n record).
Proof.
  intros ev Hev Hp. destruct (rep_valid _ _ Hrep ev Hev) as [(v & Hv & Hid & Hdig & Hn & Hwork & _) _].
  destruct (mutation_frame_stored _ _ n id pid exact digest outbox ev Hev eq_refl eq_refl) as (mb & Hmb & Hmut).
  unfold materialize_semantic, read_back. rewrite Hp.
  cbn [json map_err result_bind pf_mutation_id]. rewrite Hget, Hmb.
  cbn [storage map_err result_bind ok_or]. rewrite Hmut.
  cbn [result_bind mf_exact_bytes mf_mutation_id mf_mutation_digest pf_mutation_digest]. rewrite Hv. cbn [result_bind].
  rewrite Hid, Hdig, !bool_decide_true by done. cbn [negb orb]. subst n.
  rewrite checked_sub_succ. cbn [ok_or result_bind]. rewrite N.eqb_refl. cbn [negb].
  erewrite refs_valid by done. cbn [result_bind event_commit_seq ev].
  destruct (scan_prefix s OUTBOX _) as [l|err] eqn:Hl; cbn [storage map_err result_bind]; [|by right].
  destruct (read_outbox_event ev id
    ("publication outbox ordering mismatch at sequence " +:+ pretty.pretty (snapshot_commit_seq
       (base_snapshot (vm_mutation v)) + 1)%N) l Hev Hl) as [Hlen Hread].
  { intros i w Hi. cbn [event_writes ev]. right; right. apply elem_of_outbox_writes. eauto. }
  cbn [pf_outbox_count event_outbox event_commit_seq ev] in Hlen, Hread |- *. rewrite Hlen, N.eqb_refl.
  cbn [negb pf_mutation_id]. rewrite Hread. cbn [result_bind]. rewrite Hwork, bool_decide_true by done. done.
Qed.

Lemma materialize_maintenance_represents n id pid exact digest outbox record :
  let ev := MaintenancePublished n id pid exact digest outbox in
  ev ∈ log J →
  from_slice (payload record) = Ok (MkSemanticPublicationFramePayload id pid digest (len outbox)) →
  read_back ev (materialize_maintenance s n record).
Proof.
  intros ev Hev Hp. destruct (rep_valid _ _ Hrep ev Hev) as [(v & Hv & Hid & Hdig & Hn & Hwork & _) _].
  destruct (mutation_frame_stored _ _ n id pid exact digest outbox ev Hev eq_refl eq_refl) as (mb & Hmb & Hmut).
  unfold materialize_maintenance, read_back. rewrite Hp.
  cbn [json map_err result_bind pf_mutation_id]. rewrite Hget, Hmb.
  cbn [storage map_err result_bind ok_or]. rewrite Hmut.
  cbn [result_bind mf_exact_bytes mf_mutation_id mf_mutation_digest pf_mutation_digest]. rewrite Hv. cbn [result_bind].
  rewrite Hid, Hdig, !bool_decide_true by done. cbn [negb orb]. subst n.
  rewrite checked_sub_succ. cbn [ok_or result_bind]. rewrite N.eqb_refl. cbn [negb event_commit_seq ev].
  destruct (scan_prefix s OUTBOX _) as [l|err] eqn:Hl; cbn [storage map_err result_bind]; [|by right].
  destruct (read_outbox_event ev id
    ("maintenance outbox ordering mismatch at sequence " +:+ pretty.pretty (snapshot_commit_seq
       (maintenance_base (vx_mutation v)) + 1)%N) l Hev Hl) as [Hlen Hread].
  { intros i w Hi. cbn [event_writes ev]. right; right. apply elem_of_outbox_writes. eauto. }
  cbn [pf_outbox_count event_outbox event_commit_seq ev] in Hlen, Hread |- *. rewrite Hlen, N.eqb_refl.
  cbn [negb pf_mutation_id]. rewrite Hread. cbn [result_bind]. rewrite Hwork, bool_decide_true by done. done.
Qed.

Lemma materialize_event_represents ev bs :
  ev ∈ log J → keyspace_table c EVENTS !! event_key (event_commit_seq ev) = Some bs →
  read_back ev (materialize_event s (event_commit_seq ev) bs).
Proof.
  intros Hev Hbs. rewrite lookup_keyspace_table in Hbs.
  assert (event_commit_seq ev ≤ U64_MAX)%N as Hn.
  { pose proof (event_seq_bound _ _ _ Hrep Hev). pose proof (rep_bound _ _ Hrep). lia. }
  assert (∀ r, (EVENTS, event_key (event_commit_seq ev), r) ∈ event_writes ev → r = Ok bs) as Hframe.
  { intros r Hr. destruct (rep_events _ _ Hrep ev _ Hev Hr) as (bs' & Hr' & Hc). cbn [fst snd] in *. congruence. }
  destruct ev as [n id exact digest|n id pid exact digest outbox|n id pid exact digest outbox];
    cbn [event_commit_seq event_writes] in *.
  - destruct (materialize_frame Observation n (MkObservationFramePayload id digest exact) bs)
      as (record & Hp & ->); [done|apply Hframe; by left|].
    rewrite (materialize_observation_represents n id exact digest record Hev Hp).
    unfold read_back. destruct (scan_prefix _ _ _); auto.
  - destruct (materialize_frame SemanticPublication n
      (MkSemanticPublicationFramePayload id pid digest (len outbox)) bs) as (record & Hp & ->);
      [done|apply Hframe; right; by left|]. by apply (materialize_semantic_represents n id pid exact digest outbox).
  - destruct (materialize_frame MaintenancePublication n
      (MkSemanticPublicationFramePayload id pid digest (len outbox)) bs) as (record & Hp & ->);
      [done|apply Hframe; right; by left|].
    by apply (materialize_maintenance_represents n id pid exact digest outbox).
Qed.

(** A read of the journal gives [a], unless a scan of the store failed. *)
Definition exact_or_scan_error {A} (a : A) (r : JResult A) : Prop :=
  r = Ok a ∨
  ∃ err, r = Err (JournalStorage err) ∧
    (scan_prefix s EVENTS EVENT_PREFIX = Err err ∨
     ∃ ev, ev ∈ log J ∧ scan_prefix s OUTBOX (outbox_sequence_prefix (event_commit_seq ev)) = Err err).

(** The state of the loop after [j] entries when [req] events are requested. *)
Definition loop_state (req : N) (j : nat) : list JournalEvent * N :=
  (take (min j (N.to_nat req)) (log J), N.min U64_MAX (N.of_nat (min j (N.to_nat req)) + 1)).

Lemma snapshot_entry_step req j ev :
  log J !! j = Some ev →
  exact_or_scan_error (loop_state req (S j))
    (snapshot_entry s req (loop_state req j)
       (MkEntry (event_key (N.of_nat j + 1)) (default [] (keyspace_table c EVENTS !! event_key (N.of_nat j + 1))))).
Proof.
  intros Hj. pose proof (rep_seq _ _ Hrep j ev Hj) as Hseq. pose proof (rep_bound _ _ Hrep) as Hmax.
  pose proof (lookup_lt_Some _ _ _ Hj) as Hlt. unfold head_of, len in Hmax.
  unfold snapshot_entry. cbn [key value]. rewrite sequence_from_event_key by lia. cbn [ok_or result_bind].
  destruct (N.ltb_spec req (N.of_nat j + 1)) as [Hreq|Hreq].
  { left. unfold loop_state. by rewrite !Nat.min_r by lia. }
  assert (loop_state req j = (take j (log J), N.of_nat j + 1)%N) as ->
    by (unfold loop_state; rewrite Nat.min_l, N.min_r by lia; done).
  cbn [fst snd]. rewrite N.eqb_refl. cbn [negb].
  apply list_elem_of_lookup_2 in Hj as Hev. rewrite <- Hseq.
  assert ((EVENTS, event_key (event_commit_seq ev)) ∈ (event_writes ev).*1) as Hin by (by apply event_keys_events).
  apply list_elem_of_fmap in Hin as ([[ks k] r] & Heq & Hw). cbn [fst] in Heq. injection Heq as <- <-.
  destruct (stored_lookup _ _ _ (rep_events _ _ Hrep ev _ Hev Hw)) as (bs & _ & Hbs). rewrite Hbs.
  change (default [] (Some bs)) with bs.
  pose proof (materialize_event_represents ev bs Hev Hbs) as Hback. unfold read_back in Hback.
  assert (exact_or_scan_error ev (materialize_event s (event_commit_seq ev) bs)) as [->|(err & -> & Herr)].
  { destruct (scan_prefix s OUTBOX _) eqn:Hl; [by left|]. destruct Hback as [->| ->]; [by left|].
    right. eexists. split; [done|]. eauto. }
  - left. cbn [result_bind]. unfold loop_state. do 2 f_equal.
    + rewrite Nat.min_l by lia. by rewrite (take_S_r _ _ ev).
    + unfold saturating_add. rewrite Nat.min_l by lia. lia.
  - right. by exists err.
Qed.

Lemma snapshot_fold req j k :
  (j + k = length (log J))%nat →
  exact_or_scan_error (loop_state req (length (log J)))
    (try_fold (snapshot_entry s req) (loop_state req j)
       (indexed_entries (keyspace_table c EVENTS) (λ i, event_key (N.of_nat i + 1)) j k)).
Proof.
  unfold indexed_entries. revert j; induction k as [|k IH]; intros j Hjk.
  { rewrite Nat.add_0_r in Hjk. subst j. by left. }
  cbn [seq]. rewrite fmap_cons. cbn [try_fold].
  destruct (lookup_lt_is_Some_2 (log J) j) as [ev Hj]; [lia|].
  destruct (snapshot_entry_step req j ev Hj) as [->|(err & -> & Herr)]; cbn [result_bind].
  - apply IH. lia.
  - right. eauto.
Qed.

Lemma read_journal_represents sel :
  read_journal s sel = requested_snapshot J (sequence s) sel ∨
  ∃ err, read_journal s sel = Err (JournalStorage err) ∧
    (scan_prefix s EVENTS EVENT_PREFIX = Err err ∨
     ∃ ev, ev ∈ log J ∧ scan_prefix s OUTBOX (outbox_sequence_prefix (event_commit_seq ev)) = Err err).
Proof.
  unfold read_journal. rewrite (logical_head_represents s c J Hget Hrep). cbn [result_bind].
  pose proof (rep_bound _ _ Hrep) as Hmax. set (req := match sel with JournalLatest => head_of J | JournalAt n => n end).
  assert (∀ k, (let? requested := match sel with
      | JournalLatest => Ok (head_of J)
      | JournalAt n => if (head_of J <? n)%N then Err (JournalSnapshotUnavailable n (head_of J)) else Ok n
      end in k requested) =
    if (head_of J <? req)%N then Err (JournalSnapshotUnavailable req (head_of J)) else k req :> JResult JournalSnapshot) as ->.
  { intros k. unfold req. destruct sel; [by rewrite N.ltb_irrefl|]. by destruct (head_of J <? _)%N. }
  destruct (N.ltb_spec (head_of J) req) as [Hlt|Hle].
  { left. unfold requested_snapshot. destruct sel; simpl in req; [unfold req in *; lia|].
    unfold req. by rewrite (proj2 (N.ltb_lt _ _)). }
  destruct (scan_prefix s EVENTS EVENT_PREFIX) as [l|err] eqn:Hl; cbn [storage map_err result_bind];
    [|right; eexists; split; [done|]; by left].
  pose proof Hl as Hl'. rewrite Hscan in Hl. apply scan_table_Ok in Hl as ->. fold events_of. rewrite events_of_journal.
  unfold try_from_max. rewrite (proj2 (N.leb_le req USIZE_MAX)) by (unfold USIZE_MAX; lia). cbn [ok_or result_bind].
  assert (loop_state req 0 = ([], 1%N)) as <- by done.
  destruct (snapshot_fold req 0 (length (log J)) eq_refl) as [->|(err & -> & [?|Herr])]; cbn [result_bind];
    [|congruence|right; eauto].
  left. unfold loop_state. assert (N.to_nat req ≤ length (log J))%nat as Hreq by (unfold head_of, len in Hle; lia).
  rewrite Nat.min_r by done. assert (len (take (N.to_nat req) (log J)) = req) as Htake.
  { unfold len. rewrite length_take, Nat.min_l by done. lia. }
  rewrite Htake, N.eqb_refl. cbn [negb]. unfold requested_snapshot, req in *. destruct sel as [|n].
  - f_equal. f_equal. unfold head_of, len. rewrite Nat2N.id. by rewrite firstn_all.
  - by rewrite (proj2 (N.ltb_ge _ _)).
Qed.
End snapshot.

(** ** Snapshots of the engine *)

(** Every scan the journal makes stays inside the caps of the vector scan. *)
Definition journal_fits (c : content) (J : Journal) : Prop :=
  scan_fits (events_of c) ∧ ∀ ev, ev ∈ log J → scan_fits (outbox_of c (event_commit_seq ev)).

Section engine.
Context `{Blake3, JournalJson, !JournalJsonLaws} `{ES : StorageEngineSpec E}.

Lemma journal_snapshot_represents e J sel :
  engine_ok e → represents (engine_content e) J →
  ∃ seq r, journal_snapshot sel e = (e, r) ∧
    (r = requested_snapshot J seq sel ∨ ∃ err, r = Err (JournalStorage err)) ∧
    (journal_fits (engine_content e) J → r = requested_snapshot J seq sel).
Proof.
  intros Hok Hrep. destruct (latest_spec e Hok) as (s & Hs & Hc).
  exists (sequence s), (read_journal s sel). unfold journal_snapshot, M_bind. rewrite Hs. split; [done|].
  destruct (read_journal_represents s (engine_content e) J) with sel as [Hr|(err & Hr & Hscan)];
    [intros; by rewrite snap_get, Hc|intros; by rewrite snap_scan, Hc|done|by auto|].
  split; [by eauto|]. intros [Hfe Hfo]. exfalso.
  destruct Hscan as [Herr|(ev & Hev & Herr)]; rewrite snap_scan, Hc, scan_table_fits in Herr; try done.
  by apply Hfo.
Qed.

(** C14: a snapshot of a represented journal is exactly the prefix it asks for:
    the latest snapshot is the whole log in commit order, the snapshot at a
    published sequence its first entries, and a sequence beyond the head is
    refused.  Reading changes nothing, and a read can only fail with a storage
    error, which does not happen while the scans stay within their limits. *)
Theorem snapshot_is_exact_prefix e J sel :
  engine_ok e → represents (engine_content e) J →
  ∃ seq r, journal_snapshot sel e = (e, r) ∧
    (r = requested_snapshot J seq sel ∨ ∃ err, r = Err (JournalStorage err)) ∧
    (journal_fits (engine_content e) J → r = requested_snapshot J seq sel).
Proof. apply journal_snapshot_represents. Qed.
End engine.

Lemma snapshot_is_exact_prefix_witness :
  js_events <$> match (journal_snapshot JournalLatest accepted.1).2 with Ok sn => Some sn | Err _ => None end
    = Some (log journal_1) ∧
  ∃ seq r, journal_snapshot (JournalAt 0) accepted.1 = (accepted.1, r) ∧
    (r = requested_snapshot journal_1 seq (JournalAt 0) ∨ ∃ err, r = Err (JournalStorage err)).
Proof.
  split; [vm_compute; reflexivity|].
  destruct (snapshot_is_exact_prefix accepted.1 journal_1 (JournalAt 0) (proj1 accepted_represents)
    (proj2 accepted_represents)) as (seq & r & Hr & Hcases & _).
  exists seq, r. exact (conj Hr Hcases).
Defined.
