(* ===== verification/JournalRecovery.v ===== *)
(** * Recovery and histories

    Recovery deletes exactly the records beyond the logical head and nothing
    else, on any store.  On a represented journal there are none, so reopening
    keeps the journal; together with the refinement of the commits this gives the
    invariant of whole histories of operations, crashes and reopenings. *)

From S2P Require Import Prelude.
From S2P Require Import Ordering.
From S2P Require Import Bytes.
From S2P Require Import Storage.
From S2P Require Import Engine.
From S2P Require Import Format.
From S2P Require Import CoreBase.
From S2P Require Import Provenance.
From S2P Require Import Policy.
From S2P Require Import Identity.
From S2P Require Import Evidence.
From S2P Require Import Semantic.
From S2P Require Import MemoryTypes.
From S2P Require Import Mutation.
From S2P Require Import Maintenance.
From S2P Require Import JournalModel.
From S2P Require Import Journal.
From S2P Require Import JournalSpec.
From S2P Require Import MemoryStorage.
From S2P Require Import JournalSample.
From S2P Require Import JournalRefinement.
From S2P Require Import JournalSnapshot.

(** ** The records recovery is meant to remove *)

(** The sequence a stored record names: by its key in the ordered keyspaces, by
    its frame in the identity keyspaces. *)
Definition record_sequence `{Blake3} (ks : Keyspace) (k v : bytes) : option CommitSeq :=
  let framed pfx :=
    if starts_with pfx k then
      match decode_record v with Ok r => Some (commit_seq (envelope r)) | Err _ => None end
    else None in
  if bool_decide (ks = EVENTS) then sequence_from_key k EVENT_PREFIX 0
  else if bool_decide (ks = OUTBOX) then sequence_from_key k OUTBOX_PREFIX 4
  else if bool_decide (ks = MUTATIONS) then framed MUTATION_PREFIX
  else if bool_decide (ks = OBSERVATIONS) then framed OBSERVATION_PREFIX
  else if bool_decide (ks = IDEMPOTENCY) then framed IDEMPOTENCY_PREFIX
  else None.

Definition beyond_head `{Blake3} (c : content) (head : CommitSeq) (ks : Keyspace) (k : bytes) : bool :=
  match c !! (as_str ks, k) with
  | Some v => match record_sequence ks k v with Some n => (head <? n)%N | None => false end
  | None => false
  end.

Lemma sequence_from_key_prefix k pfx suf n : sequence_from_key k pfx suf = Some n → starts_with pfx k = true.
Proof.
  unfold sequence_from_key. destruct (checked_add _ _ _) as [a|]; cbn; [|done].
  destruct (checked_add _ a _) as [b|]; cbn; [|done].
  destruct (starts_with pfx k); [done|]. by rewrite orb_true_r.
Qed.

Section tail.
Context `{Blake3, JournalJson} `{ReadSnapshot R}.
Context (s : R) (c : content).
Hypothesis Hscan : ∀ ks pfx, scan_prefix s ks pfx = scan_table (keyspace_table c ks) pfx.

Definition past (head : CommitSeq) (ks : Keyspace) (entry : Entry) : bool :=
  match record_sequence ks (key entry) (value entry) with Some n => (head <? n)%N | None => false end.

(** The keys of one keyspace beyond the head, in key order. *)
Definition tail_keys (head : CommitSeq) (ks : Keyspace) (pfx : bytes) : list (Keyspace * bytes) :=
  (λ entry, (ks, key entry)) <$>
    filter (λ entry, past head ks entry = true) (with_prefix pfx (table_entries (keyspace_table c ks))).

Lemma try_fold_select {F} (ks : Keyspace) (f : list (Keyspace * bytes) → Entry → result F (list (Keyspace * bytes)))
    (sel : Entry → bool) es d0 d :
  (∀ d entry d', entry ∈ es → f d entry = Ok d' → d' = if sel entry then d ++ [(ks, key entry)] else d) →
  try_fold f d0 es = Ok d →
  d = d0 ++ ((λ entry, (ks, key entry)) <$> filter (λ entry, sel entry = true) es).
Proof.
  intros Hf. revert d0; induction es as [|x es IH]; intros d0; cbn [try_fold].
  { intros [= <-]. by rewrite app_nil_r. }
  intros (d1 & Hx & Hrest)%result_bind_Ok. apply Hf in Hx; [|by constructor].
  apply IH in Hrest; [|intros ? ? ? ?; apply Hf; by constructor]. subst d.
  rewrite filter_cons. destruct (sel x); subst d1; case_decide; try done. by rewrite fmap_cons, <- app_assoc.
Qed.

Lemma collect_keyed_tail_Ok ks pfx suf head d0 d :
  (∀ k v, record_sequence ks k v = sequence_from_key k pfx suf) →
  collect_keyed_tail s ks pfx suf head d0 = Ok d → d = d0 ++ tail_keys head ks pfx.
Proof.
  intros Hseq (es & Hes & Hfold)%result_bind_Ok. apply map_err_Ok in Hes. rewrite Hscan in Hes.
  apply scan_table_Ok in Hes as ->.
  eapply try_fold_select; [|exact Hfold]. intros d1 entry d' _. cbn beta.
  intros (n & Hn%ok_or_Ok & Hd)%result_bind_Ok. unfold past. rewrite Hseq, Hn.
  by destruct (head <? n)%N; injection Hd as <-.
Qed.

Lemma collect_framed_tail_Ok ks pfx head d0 d :
  (∀ k v, starts_with pfx k = true → record_sequence ks k v =
     match decode_record v with Ok r => Some (commit_seq (envelope r)) | Err _ => None end) →
  collect_framed_tail s ks pfx head d0 = Ok d → d = d0 ++ tail_keys head ks pfx.
Proof.
  intros Hseq (es & Hes & Hfold)%result_bind_Ok. apply map_err_Ok in Hes. rewrite Hscan in Hes.
  apply scan_table_Ok in Hes as ->.
  eapply try_fold_select; [|exact Hfold]. intros d1 entry d' [Hp _]%list_elem_of_filter. cbn beta.
  intros (r & Hr%map_err_Ok & Hd)%result_bind_Ok. unfold past. rewrite Hseq, Hr by done.
  by destruct (head <? _)%N; injection Hd as <-.
Qed.

Definition all_tail_keys (head : CommitSeq) : list (Keyspace * bytes) :=
  tail_keys head EVENTS EVENT_PREFIX ++ tail_keys head OUTBOX OUTBOX_PREFIX ++
  tail_keys head MUTATIONS MUTATION_PREFIX ++ tail_keys head OBSERVATIONS OBSERVATION_PREFIX ++
  tail_keys head IDEMPOTENCY IDEMPOTENCY_PREFIX.

Lemma collect_tail_Ok head d : collect_tail s head = Ok d → d = all_tail_keys head.
Proof.
  unfold collect_tail. intros (d1 & T1 & (d2 & T2 & (d3 & T3 & (d4 & T4 & T5)%result_bind_Ok)
    %result_bind_Ok)%result_bind_Ok)%result_bind_Ok.
  apply collect_keyed_tail_Ok in T1, T2; [|done..].
  apply collect_framed_tail_Ok in T3, T4, T5; [|intros k v Hp; unfold record_sequence;
    repeat (rewrite bool_decide_false by done); rewrite bool_decide_true by done; by rewrite Hp..].
  subst. unfold all_tail_keys. by rewrite <- !app_assoc.
Qed.

Lemma elem_of_tail_keys head ks pfx ks' k :
  (ks', k) ∈ tail_keys head ks pfx ↔
  ks' = ks ∧ starts_with pfx k = true ∧ beyond_head c head ks k = true.
Proof.
  unfold tail_keys, beyond_head. rewrite list_elem_of_fmap, <- lookup_keyspace_table. split.
  - intros ([k' v] & [= -> ->] & [Hpast [Hp Hin]%list_elem_of_filter]%list_elem_of_filter).
    apply table_entries_elem in Hin. cbn [key value] in *. by rewrite Hin.
  - intros (-> & Hp & Hb). destruct (keyspace_table c ks !! k) as [v|] eqn:Hv; [|done].
    exists (MkEntry k v). split; [done|]. apply list_elem_of_filter. split; [done|].
    apply list_elem_of_filter. split; [done|]. by apply table_entries_elem.
Qed.

Lemma record_sequence_prefix ks k v n :
  record_sequence ks k v = Some n →
  ks = EVENTS ∧ starts_with EVENT_PREFIX k = true ∨ ks = OUTBOX ∧ starts_with OUTBOX_PREFIX k = true ∨
  ks = MUTATIONS ∧ starts_with MUTATION_PREFIX k = true ∨
  ks = OBSERVATIONS ∧ starts_with OBSERVATION_PREFIX k = true ∨
  ks = IDEMPOTENCY ∧ starts_with IDEMPOTENCY_PREFIX k = true.
Proof.
  unfold record_sequence. repeat case_bool_decide; subst.
  - intros Hp%sequence_from_key_prefix. auto.
  - intros Hp%sequence_from_key_prefix. auto.
  - destruct (starts_with MUTATION_PREFIX k) eqn:Hp; [auto 10|done].
  - destruct (starts_with OBSERVATION_PREFIX k) eqn:Hp; [auto 10|done].
  - destruct (starts_with IDEMPOTENCY_PREFIX k) eqn:Hp; [auto 10|done].
  - done.
Qed.

Lemma elem_of_all_tail_keys head ks k :
  (ks, k) ∈ all_tail_keys head ↔ beyond_head c head ks k = true.
Proof.
  unfold all_tail_keys. rewrite !elem_of_app, !elem_of_tail_keys. split; [naive_solver|].
  intros Hb. assert (∃ v n, record_sequence ks k v = Some n) as (v & n & Hn).
  { unfold beyond_head in Hb. destruct (c !! _) as [v|]; [|done].
    destruct (record_sequence ks k v) eqn:?; [eauto|done]. }
  apply record_sequence_prefix in Hn as [[-> ?]|[[-> ?]|[[-> ?]|[[-> ?]|[-> ?]]]]]; auto 10.
Qed.

Lemma NoDup_all_tail_keys head : NoDup (all_tail_keys head).
Proof.
  assert (∀ ks pfx, NoDup (tail_keys head ks pfx)) as Hnd.
  { intros ks pfx. unfold tail_keys. assert (StronglySorted key_lt
      (filter (λ entry, past head ks entry = true) (with_prefix pfx (table_entries (keyspace_table c ks)))))
      as Hs by (do 2 apply StronglySorted_filter; apply table_entries_sorted).
    induction Hs as [|x l _ IH Hx]; [constructor|]. rewrite fmap_cons. constructor; [|done].
    intros (y & [= Heq] & Hy)%list_elem_of_fmap. rewrite Forall_forall in Hx. apply Hx in Hy.
    unfold key_lt in Hy. rewrite Heq in Hy. by apply klt_irrefl in Hy. }
  unfold all_tail_keys. rewrite !NoDup_app. split_and!; auto; intros [ks k];
    rewrite ?elem_of_app, !elem_of_tail_keys; naive_solver.
Qed.
End tail.

(** ** Recovery on any store *)

Section recovery.
Context `{Blake3, JournalJson} `{ES : StorageEngineSpec E}.

(** [c'] is [c] without the records beyond [head]. *)
Definition purged (c c' : content) (head : CommitSeq) : Prop :=
  ∀ ks k, c' !! (as_str ks, k) = if beyond_head c head ks k then None else c !! (as_str ks, k).

Lemma delete_all t d t' :
  try_fold (λ t kk, storage (delete_key t kk.1 kk.2)) t d = Ok t' →
  (∀ ks k, txn_content t' !! (as_str ks, k) =
     if decide ((ks, k) ∈ d) then None else txn_content t !! (as_str ks, k)) ∧
  ∀ e, txn_current e t → txn_current e t'.
Proof.
  revert t; induction d as [|[ks0 k0] d IH]; intros t; cbn [try_fold].
  { intros [= <-]. split; [|done]. intros ks k. rewrite decide_False; [done|]. apply not_elem_of_nil. }
  intros (t1 & Hdel & Hrest)%result_bind_Ok. cbn [fst snd] in Hdel.
  destruct (delete_staged t ks0 k0) as (t1' & Hdel' & Hc & Hcur). rewrite Hdel' in Hdel. simplify_eq/=.
  apply IH in Hrest as [Hrest Hcur']. split; [|by auto]. intros ks k. rewrite Hrest, Hc.
  destruct (decide ((ks, k) ∈ d)) as [Hin|Hnin]; [by rewrite decide_True by (by right)|].
  destruct (decide ((ks, k) = (ks0, k0))) as [[= -> ->]|Hne].
  - rewrite decide_True by left. apply lookup_delete_eq.
  - rewrite decide_False by (rewrite elem_of_cons; tauto). apply lookup_delete_ne.
    destruct ks, ks0; simpl in *; congruence.
Qed.

Lemma purged_nothing c head : all_tail_keys c head = [] → purged c c head.
Proof.
  intros Hnil ks k. destruct (beyond_head c head ks k) eqn:Hb; [|done].
  apply elem_of_all_tail_keys in Hb. rewrite Hnil in Hb. by apply elem_of_nil in Hb.
Qed.

(** The cleanup transaction removes exactly the collected keys, or nothing. *)
Lemma remove_tail_spec e e' r head :
  engine_ok e → remove_tail head (all_tail_keys (engine_content e) head) e = (e', r) →
  engine_ok e' ∧
  (purged (engine_content e) (engine_content e') head ∨
   engine_content e' = engine_content e ∧ ∃ err, r = Err err).
Proof.
  intros Hok (e1 & r1 & Ht & Hk)%M_bind_inv.
  destruct (open_transaction_spec e Hok) as (t & Ht' & Hct & Hcur). rewrite Ht' in Ht. injection Ht as <- <-.
  pure_step Hk. destruct (try_fold _ _ _) as [t'|err] eqn:Hdel;
    [|destruct Hk as [-> ->]; split; [done|]; right; by eauto].
  apply delete_all in Hdel as [Hc' Hcur']. apply M_bind_inv in Hk as (e2 & r2 & Hcm & Hk).
  destruct (commit_transaction_spec _ _ _ _ _ Hok (Hcur' _ Hcur) Hcm) as [Hok2 Hcases].
  assert (engine_content e2 = txn_content t' → purged (engine_content e) (engine_content e2) head) as Hp.
  { intros -> ks k. rewrite Hc', Hct. destruct (decide _) as [Hin|Hnin].
    - apply elem_of_all_tail_keys in Hin. by rewrite Hin.
    - rewrite elem_of_all_tail_keys in Hnin. by destruct (beyond_head _ _ _ _). }
  destruct r2 as [rc|err].
  - assert (e' = e2) as -> by (by case_match; injection Hk as <- _). split; [done|]. left. apply Hp.
    by destruct Hcases as [?|[_ [err [=]]]].
  - destruct Hk as [-> ->]. split; [done|]. destruct Hcases as [?|[? _]]; eauto.
Qed.

(** The effect of a recovery on the store. *)
Lemma recover_cases e e' r :
  engine_ok e → recover e = (e', r) →
  engine_ok e' ∧
  (engine_content e' = engine_content e ∧ (∃ err, r = Err err) ∨
   ∃ s head, begin_read e Latest = Ok s ∧ snap_content s = engine_content e ∧ logical_head s = Ok head ∧
     purged (engine_content e) (engine_content e') head ∧
     ∀ report, r = Ok report →
       removed_tail_records report = len (all_tail_keys (engine_content e) head) ∧
       ∃ sn, journal_snapshot JournalLatest e' = (e', Ok sn) ∧ recovery_commit_seq report = js_commit_seq sn).
Proof.
  intros Hok (e1 & r1 & Hl & Hk)%M_bind_inv.
  destruct (begin_read_latest e Hok) as (s & Hs & Hc).
  assert (latest e = (e, Ok s)) as Hl' by (unfold latest, reading; by rewrite Hs).
  rewrite Hl' in Hl. injection Hl as <- <-.
  pure_step Hk. destruct (logical_head s) as [head|err] eqn:Hhead;
    [|destruct Hk as [-> ->]; split; [done|]; left; by eauto].
  pure_step Hk. destruct (collect_tail s head) as [d|err] eqn:Hd;
    [|destruct Hk as [-> ->]; split; [done|]; left; by eauto].
  apply (collect_tail_Ok s (engine_content e)) in Hd; [|intros; by rewrite snap_scan, Hc]. subst d.
  apply M_bind_inv in Hk as (e2 & r2 & Hw & Hk).
  assert (engine_ok e2 ∧ (purged (engine_content e) (engine_content e2) head ∨
    engine_content e2 = engine_content e ∧ ∃ err, r2 = Err err)) as [Hok2 Hp].
  { destruct (all_tail_keys (engine_content e) head) as [|x l] eqn:Hnil; cbn [is_empty] in Hw.
    - injection Hw as <- <-. split; [done|]. left. by apply purged_nothing.
    - apply M_bind_inv in Hw as (e3 & r3 & Hrm & Hw). rewrite <- Hnil in Hrm.
      destruct (remove_tail_spec _ _ _ _ Hok Hrm) as [Hok3 Hp].
      destruct r3; [injection Hw as <- <-|destruct Hw as [-> ->]]; (split; [done|]);
        destruct Hp as [?|[? [? ?]]]; try discriminate; eauto. }
  destruct r2 as [w|err];
    [|destruct Hk as [-> ->]; split; [done|]; destruct Hp as [?|[? _]]; [right|by left; eauto];
      exists s, head; split_and!; try done].
  destruct Hp as [Hp|[_ [err [=]]]].
  apply M_bind_inv in Hk as (e3 & r3 & Hsn & Hk).
  assert (e3 = e2) as ->.
  { apply M_bind_inv in Hsn as (e4 & r4 & Hl & Hsn). destruct (latest_spec e2 Hok2) as (s2 & Hs2 & _).
    rewrite Hs2 in Hl. injection Hl as <- <-. by injection Hsn as <- _. }
  destruct r3 as [sn|err]; [injection Hk as <- <-|destruct Hk as [-> ->]]; (split; [done|]); right;
    exists s, head; split_and!; try done.
  intros report [= <-]. split; [done|]. by exists sn.
Qed.
End recovery.

(** ** A represented journal has no tail *)

Section represented.
Context `{Blake3, JournalJson}.

Lemma event_frame_sequence ev w bs :
  (event_commit_seq ev ≤ U64_MAX)%N → w ∈ event_writes ev → w.2 = Ok bs →
  ∃ rec, decode_record bs = Ok rec ∧ commit_seq (envelope rec) = event_commit_seq ev.
Proof.
  intros Hn Hw. assert (∀ T (HT : Json T) kind (v : T), encode_frame kind (event_commit_seq ev) v = Ok bs →
    ∃ rec, decode_record bs = Ok rec ∧ commit_seq (envelope rec) = event_commit_seq ev) as Hframe.
  { intros T HT kind v (p & _ & Hd)%decode_record_frame; [|done]. by eexists. }
  destruct ev; cbn [event_writes event_commit_seq] in *; unfold publication_writes in *;
    rewrite !elem_of_cons, ?elem_of_nil, ?elem_of_outbox_writes in Hw.
  - destruct Hw as [->|[->|[]]]; cbn [snd]; apply Hframe.
  - destruct Hw as [->|[->|(i & x & _ & ->)]]; cbn [snd]; apply Hframe.
  - destruct Hw as [->|[->|(i & x & _ & ->)]]; cbn [snd]; apply Hframe.
Qed.

Lemma record_sequence_in_range c J nk k v n :
  represents c J → nk ∈ portable_keyspaces → c !! (as_str nk.2, k) = Some v →
  record_sequence nk.2 k v = Some n → (n ≤ head_of J)%N.
Proof.
  intros Hrep Hnk Hv Hn. pose proof (rep_bound _ _ Hrep) as Hmax.
  assert (∀ m, (m ≤ head_of J)%N → (∀ r, decode_record v = Ok r → commit_seq (envelope r) = m) →
    (nk.2 = EVENTS → k = event_key m) → (nk.2 = OUTBOX → ∃ i, k = outbox_key m i) → (n ≤ head_of J)%N) as Hend.
  { intros m Hm Hdec Hev Hout. enough (n = m) by lia. unfold record_sequence in Hn.
    repeat case_bool_decide.
    - rewrite Hev, sequence_from_event_key in Hn by (done || lia). congruence.
    - destruct Hout as [i ->]; [done|]. rewrite sequence_from_outbox_key in Hn by lia. congruence.
    - destruct (starts_with _ _), (decode_record v) eqn:?; try done. injection Hn as <-. auto.
    - destruct (starts_with _ _), (decode_record v) eqn:?; try done. injection Hn as <-. auto.
    - destruct (starts_with _ _), (decode_record v) eqn:?; try done. injection Hn as <-. auto.
    - done. }
  destruct (rep_owned _ _ Hrep nk k Hnk) as [Hk|[(ev & Hev & Hk)|(p & Hp & Hk)]]; [by eexists|..].
  - injection Hk as Hks _. rewrite Hks in Hn. done.
  - pose proof (event_seq_bound _ _ _ Hrep Hev) as Hb. apply (Hend (event_commit_seq ev)); [lia|..].
    + apply list_elem_of_fmap in Hk as ([[ks k'] r] & Heq & Hw). cbn [fst] in Heq. injection Heq as <- <-.
      destruct (rep_events _ _ Hrep ev _ Hev Hw) as (bs & Hr & Hc). cbn [fst snd] in Hr, Hc.
      assert (bs = v) as -> by congruence.
      destruct (event_frame_sequence ev _ v ltac:(lia) Hw Hr) as (rec & Hd & Hs). intros r' Hr'. congruence.
    + intros Hks. rewrite Hks in Hk. by apply event_keys_events in Hk.
    + intros Hks. rewrite Hks in Hk. apply event_keys_outbox in Hk as (i & _ & ->). eauto.
  - destruct (rep_receipts _ _ Hrep _ p Hp) as (_ & (bs & Hr & Hc) & ev & Hev & Hfor).
    assert (stored_seq (ip_receipt p) = event_commit_seq ev) as Hseq.
    { unfold receipt_for in Hfor. destruct (ip_receipt p), ev; try done; simpl; tauto. }
    pose proof (event_seq_bound _ _ _ Hrep Hev) as Hb. apply (Hend (event_commit_seq ev)); [lia|..].
    + cbn [receipt_write fst snd] in Hr, Hc. injection Hk as Hks ->. rewrite Hks in Hv.
      assert (bs = v) as -> by congruence. rewrite Hseq in Hr.
      apply decode_record_frame in Hr as (q & _ & Hd); [|lia]. intros r' Hr'. rewrite Hd in Hr'.
      by injection Hr' as <-.
    + intros Hks. injection Hk as Hks' _. by rewrite Hks in Hks'.
    + intros Hks. injection Hk as Hks' _. by rewrite Hks in Hks'.
Qed.

Lemma represents_no_tail c J ks k : represents c J → beyond_head c (head_of J) ks k = false.
Proof.
  intros Hrep. unfold beyond_head. destruct (c !! _) as [v|] eqn:Hv; [|done].
  destruct (record_sequence ks k v) as [n|] eqn:Hn; [|done]. apply N.ltb_ge.
  apply record_sequence_prefix in Hn as Hks.
  destruct Hks as [[-> _]|[[-> _]|[[-> _]|[[-> _]|[-> _]]]]].
  - apply (record_sequence_in_range c J ("semantic_journal", EVENTS) k v); try done. set_solver.
  - apply (record_sequence_in_range c J ("journal_outbox", OUTBOX) k v); try done. set_solver.
  - apply (record_sequence_in_range c J ("journal_mutation", MUTATIONS) k v); try done. set_solver.
  - apply (record_sequence_in_range c J ("journal_observation", OBSERVATIONS) k v); try done. set_solver.
  - apply (record_sequence_in_range c J ("journal_idempotency", IDEMPOTENCY) k v); try done. set_solver.
Qed.
End represented.

(** ** Histories *)

Section histories.
Context `{Blake3, JournalJson, !JournalJsonLaws} `{ES : StorageEngineSpec E}.

(** C9: on any store, corrupt or not, a recovery that succeeds has removed
    exactly the records that name a sequence beyond the logical head, changed
    nothing else, counted each removed record once, and reports that head after
    validating the retained prefix.  A recovery that fails has removed the tail or
    left the store as it was: a damaged prefix is never repaired. *)
Theorem recover_removes_exactly_the_tail e e' r :
  engine_ok e → recover e = (e', r) →
  engine_ok e' ∧
  (engine_content e' = engine_content e ∧ (∃ err, r = Err err) ∨
   ∃ s head tail, begin_read e Latest = Ok s ∧ logical_head s = Ok head ∧
     purged (engine_content e) (engine_content e') head ∧
     NoDup tail ∧ (∀ ks k, (ks, k) ∈ tail ↔ beyond_head (engine_content e) head ks k = true) ∧
     ∀ report, r = Ok report →
       removed_tail_records report = len tail ∧ recovery_commit_seq report = head).
Proof.
  intros Hok Hr. destruct (recover_cases e e' r Hok Hr) as [Hok' [?|(s & head & Hs & Hc & Hh & Hp & Hrep)]]; [by auto|].
  split; [done|]. right. exists s, head, (all_tail_keys (engine_content e) head). split_and!; try done.
  - apply NoDup_all_tail_keys.
  - apply elem_of_all_tail_keys.
  - intros report Hreport. destruct (Hrep report Hreport) as (Hrem & sn & Hsn & ->). split; [done|].
    apply M_bind_inv in Hsn as (e1 & r1 & Hl & Hsn). destruct (latest_spec e' Hok') as (s' & Hs' & Hc').
    rewrite Hs' in Hl. injection Hl as <- <-. injection Hsn as Hsn. unfold read_journal in Hsn.
    assert (logical_head s' = Ok head) as Hh'.
    { unfold logical_head in Hh |- *. rewrite snap_get, Hc in Hh. rewrite snap_get, Hc', Hp.
      unfold beyond_head. change (record_sequence META HEAD_KEY) with (λ v : bytes, @None CommitSeq).
      by destruct (engine_content e !! _). }
    rewrite Hh' in Hsn. cbn [result_bind] in Hsn.
    apply result_bind_Ok in Hsn as (es & _ & Hsn). apply result_bind_Ok in Hsn as (len & _ & Hsn).
    apply result_bind_Ok in Hsn as ([evs ?] & _ & Hsn). destruct (negb _); [done|]. by injection Hsn as <-.
Qed.

(** Recovery keeps a represented journal. *)
Lemma recover_represents e e' r J :
  engine_ok e → represents (engine_content e) J → recover e = (e', r) →
  engine_ok e' ∧ engine_content e' = engine_content e.
Proof.
  intros Hok Hrep Hr. destruct (recover_cases e e' r Hok Hr) as [Hok' [[? _]|(s & head & Hs & Hc & Hh & Hp & _)]];
    [done|]. split; [done|].
  rewrite (logical_head_represents s (engine_content e) J) in Hh
    by (done || (intros; by rewrite snap_get, Hc)).
  injection Hh as <-. apply map_eq. intros [name k]. specialize (Hp (MkKeyspace name) k).
  by rewrite (represents_no_tail _ _ _ _ Hrep) in Hp.
Qed.

(** The operations a client can call, and reopening after a crash. *)
Inductive JournalOp :=
  | OpAccept (key : IdempotencyKey) (o : ValidatedObservationBytes) (options : CommitOptions)
  | OpPublish (pid : PublicationId) (key : IdempotencyKey) (m : ValidatedMutationBytes)
      (options : CommitOptions)
  | OpMaintain (pid : PublicationId) (key : IdempotencyKey) (m : ValidatedMaintenanceBytes)
      (options : CommitOptions)
  | OpRecover.

(** The engine after an operation, whatever the operation answered. *)
Definition run_op (e : E) (op : JournalOp) : E :=
  match op with
  | OpAccept key o options => (accept_observation key o options e).1
  | OpPublish pid key m options => (publish_semantic pid key m options e).1
  | OpMaintain pid key m options => (publish_maintenance pid key m options e).1
  | OpRecover => (recover e).1
  end.
Definition run_ops (e : E) (ops : list JournalOp) : E := foldl run_op e ops.

(** Requests are built by the validating constructors. *)
Definition op_valid (op : JournalOp) : Prop :=
  match op with
  | OpAccept _ o _ => Observation_from_json (vo_bytes o) = Ok o
  | OpPublish _ _ m _ => Mutation_from_json (vm_bytes m) = Ok m
  | OpMaintain _ _ m _ => Maintenance_from_json (vx_bytes m) = Ok m
  | OpRecover => True
  end.

(** [J'] continues [J] by at most [n] events and keeps every receipt. *)
Definition continues (J J' : Journal) (n : nat) : Prop :=
  log J `prefix_of` log J' ∧ receipts J ⊆ receipts J' ∧ (length (log J') ≤ length (log J) + n)%nat.

Lemma commit_outcome_continues {A} (e e' : E) J J' kd (fresh : A) replay r ev p :
  represents (engine_content e) J → J' = append J ev p → ip_key_digest p = kd →
  commit_outcome e e' J J' kd fresh replay r →
  engine_ok e' ∧ ∃ J2, represents (engine_content e') J2 ∧ continues J J2 1.
Proof.
  intros Hrep -> <- [Hok Hr]. split; [done|].
  assert (represents (engine_content e') J ∨
          receipts J !! ip_key_digest p = None ∧ represents (engine_content e') (append J ev p))
    as [Hsame|[Hnone Hnew]].
  { destruct r as [a|err]; destruct Hr as [Hr|Hr]; try tauto; [|left; by rewrite Hr].
    left. destruct Hr as (_ & _ & _ & ->). done. }
  - exists J. split; [done|]. split_and!; [done|done|lia].
  - exists (append J ev p). split; [done|]. split_and!; simpl.
    + by apply prefix_app_r.
    + by apply insert_subseteq.
    + rewrite length_app. simpl. lia.
Qed.

Lemma run_op_continues e op J :
  engine_ok e → represents (engine_content e) J → op_valid op →
  engine_ok (run_op e op) ∧ ∃ J', represents (engine_content (run_op e op)) J' ∧ continues J J' 1.
Proof.
  intros Hok Hrep Hv. destruct op as [key o options|pid key m options|pid key m options|]; simpl in Hv |- *.
  - destruct (accept_observation key o options e) as [e' r] eqn:Hr.
    apply accept_observation_outcome with (J := J) in Hr; [|done..]. by eapply commit_outcome_continues; [exact Hrep| | |exact Hr].
  - destruct (publish_semantic pid key m options e) as [e' r] eqn:Hr.
    apply publish_semantic_outcome with (J := J) in Hr; [|done..]. by eapply commit_outcome_continues; [exact Hrep| | |exact Hr].
  - destruct (publish_maintenance pid key m options e) as [e' r] eqn:Hr.
    apply publish_maintenance_outcome with (J := J) in Hr; [|done..]. by eapply commit_outcome_continues; [exact Hrep| | |exact Hr].
  - destruct (recover e) as [e' r] eqn:Hr. destruct (recover_represents _ _ _ _ Hok Hrep Hr) as [Hok' Hc].
    split; [done|]. exists J. simpl. rewrite Hc. split; [done|]. split_and!; [done|done|lia].
Qed.

Lemma run_ops_continues e ops J :
  engine_ok e → represents (engine_content e) J → Forall op_valid ops →
  engine_ok (run_ops e ops) ∧
  ∃ J', represents (engine_content (run_ops e ops)) J' ∧ continues J J' (length ops).
Proof.
  revert e J; induction ops as [|op ops IH]; intros e J Hok Hrep Hv.
  { split; [done|]. exists J. split; [done|]. split_and!; [done|done|simpl; lia]. }
  apply Forall_cons in Hv as [Hop Hv]. destruct (run_op_continues e op J Hok Hrep Hop) as (Hok1 & J1 & Hrep1 & Hc1).
  destruct (IH _ _ Hok1 Hrep1 Hv) as (Hok2 & J2 & Hrep2 & Hc2). split; [done|]. exists J2. split; [done|].
  destruct Hc1 as (? & ? & ?), Hc2 as (? & ? & ?). split_and!; [by etrans|by etrans|simpl; lia].
Qed.

(** C8: over any sequence of operations, retries, injected failures, engine
    faults and reopenings, the journal only grows: what was logged stays logged
    in the same order, every receipt stays stored, and each operation adds at most
    one event. *)
Theorem journal_history_only_grows e ops J :
  engine_ok e → represents (engine_content e) J → Forall op_valid ops →
  engine_ok (run_ops e ops) ∧
  ∃ J', represents (engine_content (run_ops e ops)) J' ∧
    log J `prefix_of` log J' ∧ receipts J ⊆ receipts J' ∧
    (length (log J') ≤ length (log J) + length ops)%nat.
Proof. apply run_ops_continues. Qed.

(** C7: an acknowledged observation survives.  Once accepting it has answered
    with a receipt, then after any later sequence of operations, failures and
    reopenings the key still has a receipt that a retry answers with, and the log
    still holds the event the receipt names, with the same identity and digest. *)
Theorem acknowledged_observation_survives e e1 J key o options receipt ops :
  Observation_from_json (vo_bytes o) = Ok o →
  engine_ok e → represents (engine_content e) J →
  accept_observation key o options e = (e1, Ok receipt) → Forall op_valid ops →
  ∃ J' p ev, represents (engine_content (run_ops e1 ops)) J' ∧
    receipts J' !! idempotency_digest key = Some p ∧ ev ∈ log J' ∧ receipt_for p ev ∧
    replay_observation (vo_digest o) p =
      Some (MkObservationReceipt (or_observation_id receipt) (or_commit_seq receipt)
              (or_durability receipt) true (or_request_digest receipt)).
Proof.
  intros Hjson Hok Hrep Hacc Hops.
  apply (accept_observation_outcome _ _ J) in Hacc as [Hok1 Hout]; [|done..].
  assert (∃ J1 p, represents (engine_content e1) J1 ∧ receipts J1 !! idempotency_digest key = Some p ∧
    replay_observation (vo_digest o) p =
      Some (MkObservationReceipt (or_observation_id receipt) (or_commit_seq receipt)
              (or_durability receipt) true (or_request_digest receipt))) as (J1 & p & Hrep1 & Hp & Hreplay).
  { destruct Hout as [(Hnone & -> & Hrep1)|(p & Hp & Hreplay & Hc)].
    - eexists _, _. split_and!; [exact Hrep1|apply lookup_insert_eq|].
      unfold replay_observation. simpl. by rewrite bool_decide_true.
    - exists J, p. rewrite Hc. split_and!; [done..|]. rewrite Hreplay. f_equal. revert Hreplay.
      unfold replay_observation. destruct (ip_receipt p); [|done..]. case_bool_decide; [|done]. by intros [= <-]. }
  destruct (run_ops_continues e1 ops J1 Hok1 Hrep1 Hops) as (_ & J' & Hrep' & _ & Hrec & _).
  assert (receipts J' !! idempotency_digest key = Some p) as Hp' by (by eapply lookup_weaken).
  destruct (rep_receipts _ _ Hrep' _ p Hp') as (_ & _ & ev & Hev & Hfor). by exists J', p, ev.
Qed.
End histories.

(** ** The theorems on the in-memory engine *)

(** The sample journal with one stray event record beyond its head. *)
Definition stray_write : M State CommitReceipt :=
  let! t := open_transaction in
  let! t := lift (storage (put t EVENTS (event_key 9) [x00])) in
  commit_transaction t Sync.
Definition tailed : State := (stray_write accepted.1).1.

Lemma tailed_ok : engine_ok tailed.
Proof.
  unfold tailed, stray_write, M_bind.
  destruct (open_transaction_spec accepted.1 (proj1 accepted_represents)) as (t & -> & _ & Hcur).
  destruct (put_staged t EVENTS (event_key 9) [x00]) as (t' & Hput & _ & Hcur').
  unfold lift. rewrite Hput. cbn [storage map_err].
  destruct (commit_transaction t' Sync accepted.1) as [e' r] eqn:Hc.
  exact (proj1 (commit_transaction_spec _ _ _ _ _ (proj1 accepted_represents) (Hcur' _ Hcur) Hc)).
Qed.

Lemma recover_removes_exactly_the_tail_witness :
  option_map removed_tail_records
    match (recover tailed).2 with Ok report => Some report | Err _ => None end = Some 1%N ∧
  engine_ok (recover tailed).1.
Proof.
  split; [vm_compute; reflexivity|].
  exact (proj1 (recover_removes_exactly_the_tail tailed (recover tailed).1 (recover tailed).2 tailed_ok
    (surjective_pairing _))).
Defined.

(** Accept, publish with the acknowledgement lost, reopen. *)
Definition sample_ops : list JournalOp :=
  [OpAccept (sample_key "a") sample_request CommitOptions_default;
   OpPublish (sample_id _) (sample_key "b") sample_publish (MkCommitOptions Sync (Some AfterCommitBeforeAck));
   OpRecover].

Lemma sample_ops_valid : Forall op_valid sample_ops.
Proof.
  apply Forall_cons. split; [exact sample_request_valid|].
  apply Forall_cons. split; [exact sample_publish_valid|].
  apply Forall_cons. split; [exact I|]. apply Forall_nil. exact I.
Qed.

Lemma journal_history_only_grows_witness :
  engine_ok (run_ops sample_engine sample_ops) ∧
  ∃ J', represents (engine_content (run_ops sample_engine sample_ops)) J' ∧ (length (log J') ≤ 3)%nat.
Proof.
  destruct (journal_history_only_grows sample_engine sample_ops empty_journal sample_engine_ok
    sample_engine_represents sample_ops_valid) as (Hok & J' & Hrep & _ & _ & Hlen).
  split; [exact Hok|]. exists J'. exact (conj Hrep Hlen).
Defined.

Lemma acknowledged_observation_survives_witness :
  ∃ J' p, represents (engine_content (run_ops accepted.1 sample_ops)) J' ∧
    receipts J' !! idempotency_digest (sample_key "a") = Some p.
Proof.
  assert (accept_observation (sample_key "a") sample_request CommitOptions_default sample_engine =
    (accepted.1, Ok first_receipt)) as Hacc
    by (rewrite <- accepted_answer; exact (surjective_pairing accepted)).
  destruct (acknowledged_observation_survives sample_engine accepted.1 empty_journal (sample_key "a")
    sample_request CommitOptions_default first_receipt sample_ops sample_request_valid sample_engine_ok
    sample_engine_represents Hacc sample_ops_valid) as (J' & p & ev & Hrep & Hp & _).
  exists J', p. exact (conj Hrep Hp).
Defined.
