(* ===== verification/Security.v ===== *)
(** * Security primitives (crate contextdb-security: error.rs and the keys of backup.rs)

    The error type, the label and digest checks every component of the crate
    starts with, canonical serialisation, digests, and the signing, verification
    and encryption keys.

    Three libraries the crate calls are parameters: [serde_json] (class [Serialize]
    with the law [SerializeInj]: a serialised value determines the value), BLAKE3
    (class [Blake3] of [Format]) and Ed25519 (class [Ed25519] with its documented
    laws: a signature has 64 bytes and verifies under the public key of its seed). *)

From S2P Require Import Prelude.
From S2P Require Import Ordering.
From S2P Require Import Bytes.
From S2P Require Import Format.
From S2P Require Import Evidence.

Inductive SecurityError :=
  | InvalidInput (what : string)
  | PolicyDenied (what : string)
  | SecretRejected
  | ResourceExhausted (what : string)
  | CryptographicFailure
  | IntegrityFailure (what : string)
  | DeletionIncomplete (what : string)
  | SecuritySerialization.

Abbreviation SecurityResult A := (result SecurityError A).

(** ** Labels and digests *)

(** [value.chars().any(char::is_control)] on valid UTF-8: U+0000..U+001F, U+007F,
    and U+0080..U+009F, which are encoded as [c2 80]..[c2 9f]. *)
Fixpoint any_control (s : bytes) : bool :=
  match s with
  | [] => false
  | a :: rest =>
      let x := Byte.to_N a in
      ((x <? 32) || (x =? 127)
       || (x =? 194) && match rest with
                        | b :: _ => (128 <=? Byte.to_N b) && (Byte.to_N b <=? 159)
                        | [] => false
                        end)%N
      || any_control rest
  end.

Definition require_label (value field : string) : SecurityResult unit :=
  if trim_is_empty value || (512 <? str_len value)%N || any_control (str_bytes value)
  then Err (InvalidInput field) else Ok tt.

Definition is_lower_hex (b : byte) : bool :=
  is_ascii_digit b || ((97 <=? Byte.to_N b) && (Byte.to_N b <=? 102))%N.

(** The same helper in audit.rs, backup.rs, deletion.rs and policy.rs. *)
Definition require_digest (value field : string) : SecurityResult unit :=
  if negb (str_len value =? 64)%N || negb (forallb is_lower_hex (str_bytes value))
  then Err (InvalidInput field) else Ok tt.

(** An optional digest: [if let Some(value) = .. { require_digest(value, ..)?; }]. *)
Definition require_optional_digest (value : option string) (field : string) : SecurityResult unit :=
  match value with
  | Some v => require_digest v field
  | None => Ok tt
  end.

(** ** Serialisation and hashing *)

Definition canonical_json `{Serialize T} (value : T) : SecurityResult bytes :=
  ok_or (to_json value) SecuritySerialization.

Definition digest `{Blake3} (bs : bytes) : string :=
  String.string_of_list_byte (mjoin (hex_byte <$> blake3_hash bs)).

(** ** Keys *)

Class Ed25519 := {
  ed_public : bytes → bytes;
  ed_sign : bytes → bytes → bytes;
  ed_public_ok : bytes → bool;
  ed_verify_strict : bytes → bytes → bytes → bool;
}.

Class Ed25519Laws `{Ed25519} := {
  ed_sign_length seed m : length (ed_sign seed m) = 64%nat;
  ed_public_decodes seed : ed_public_ok (ed_public seed) = true;
  ed_sign_verifies seed m : ed_verify_strict (ed_public seed) m (ed_sign seed m) = true;
}.

Record BackupSigningKey := MkBackupSigningKey {
  sk_key_id : string;
  sk_generation : N;
  sk_bytes : bytes;
}.

Record BackupVerifyingKey := MkBackupVerifyingKey {
  vk_key_id : string;
  vk_generation : N;
  vk_bytes : bytes;
}.

Record BackupEncryptionKey := MkBackupEncryptionKey {
  ek_key_id : string;
  ek_generation : N;
  ek_bytes : bytes;
}.

Definition all_zero (bs : bytes) : bool := forallb (λ b, bool_decide (b = x00)) bs.

(** [BackupSigningKey::new_with_generation]; the seed is a [[u8; 32]]. *)
Definition SigningKey_new (key_id : string) (generation : N) (seed : bytes) : SecurityResult BackupSigningKey :=
  try? require_label key_id "signing_key_id" in
  if (generation =? 0)%N || all_zero seed
  then Err (InvalidInput "signing key generation must be nonzero and key cannot be all zero")
  else Ok (MkBackupSigningKey key_id generation seed).

Definition EncryptionKey_new (key_id : string) (generation : N) (key : bytes)
    : SecurityResult BackupEncryptionKey :=
  try? require_label key_id "encryption_key_id" in
  if (generation =? 0)%N || all_zero key
  then Err (InvalidInput "encryption key generation must be nonzero and key cannot be all zero")
  else Ok (MkBackupEncryptionKey key_id generation key).

Section keys.
Context `{Ed25519}.

Definition verifying_key (k : BackupSigningKey) : BackupVerifyingKey :=
  MkBackupVerifyingKey (sk_key_id k) (sk_generation k) (ed_public (sk_bytes k)).

Definition sign_domain (k : BackupSigningKey) (domain payload : bytes) : bytes :=
  ed_sign (sk_bytes k) (domain ++ payload).

Definition verify_domain (k : BackupVerifyingKey) (domain payload signature : bytes) : SecurityResult unit :=
  if negb (len signature =? 64)%N then Err (IntegrityFailure "invalid signature length")
  else if negb (ed_public_ok (vk_bytes k)) then Err CryptographicFailure
  else if ed_verify_strict (vk_bytes k) (domain ++ payload) signature then Ok tt
  else Err CryptographicFailure.

Lemma sign_domain_verifies `{!Ed25519Laws} k domain payload :
  verify_domain (verifying_key k) domain payload (sign_domain k domain payload) = Ok tt.
Proof.
  unfold verify_domain, sign_domain, verifying_key, len. cbn [vk_bytes].
  by rewrite ed_sign_length, ed_public_decodes, ed_sign_verifies.
Qed.
End keys.

Lemma SigningKey_new_Ok key_id generation seed k :
  SigningKey_new key_id generation seed = Ok k →
  require_label (sk_key_id k) "signing_key_id" = Ok tt ∧ sk_generation k ≠ 0%N.
Proof.
  unfold SigningKey_new. intros Hk. res_inv.
  destruct (N.eqb_spec generation 0); [done|]. destruct (all_zero seed); [done|]. simpl in *. by res_inv.
Qed.

Lemma EncryptionKey_new_Ok key_id generation key k :
  EncryptionKey_new key_id generation key = Ok k →
  require_label (ek_key_id k) "encryption_key_id" = Ok tt ∧ ek_generation k ≠ 0%N.
Proof.
  unfold EncryptionKey_new. intros Hk. res_inv.
  destruct (N.eqb_spec generation 0); [done|]. destruct (all_zero key); [done|]. simpl in *. by res_inv.
Qed.

(** ** Facts about labels and digests *)

(** The field name only matters for the error. *)
Lemma require_label_Ok value f g : require_label value f = Ok tt → require_label value g = Ok tt.
Proof. unfold require_label. by case_match. Qed.

Lemma require_digest_Ok value f g : require_digest value f = Ok tt → require_digest value g = Ok tt.
Proof. unfold require_digest. by case_match. Qed.

Lemma hex_digit_lower n : (n < 16)%N → is_lower_hex (hex_digit n) = true.
Proof.
  intros Hn. assert (n ∈ (N.of_nat <$> seq 0 16)) as Hin.
  { apply list_elem_of_fmap. exists (N.to_nat n). rewrite N2Nat.id. split; [done|].
    apply elem_of_seq. lia. }
  clear Hn. revert n Hin. apply Forall_forall. vm_compute. repeat constructor.
Qed.

Section digests.
Context `{Blake3}.

Lemma str_bytes_digest bs : str_bytes (digest bs) = mjoin (hex_byte <$> blake3_hash bs).
Proof. apply String.list_byte_of_string_of_list_byte. Qed.

Lemma digest_Ok bs field : require_digest (digest bs) field = Ok tt.
Proof.
  unfold require_digest, str_len, len. rewrite str_bytes_digest, length_hex, blake3_length.
  assert (∀ l : bytes, forallb is_lower_hex (mjoin (hex_byte <$> l)) = true) as Hhex; [|by rewrite Hhex].
  intros l. induction l as [|b l IH]; [done|]. rewrite fmap_cons.
  change (mjoin (hex_byte b :: (hex_byte <$> l))) with (hex_byte b ++ mjoin (hex_byte <$> l)).
  rewrite forallb_app, IH. cbn [hex_byte forallb]. pose proof (Byte.to_N_bounded b).
  rewrite !hex_digit_lower; [done|apply N.mod_lt; lia|apply N.Div0.div_lt_upper_bound; lia].
Qed.

(** Equal digests are equal inputs or a collision of the two. *)
Lemma digest_eq a b : digest a = digest b → a = b ∨ hash_collision [a] [b].
Proof.
  intros Heq%(f_equal str_bytes). rewrite !str_bytes_digest in Heq.
  apply (f_equal digest_chunks) in Heq. rewrite !digest_chunks_hex in Heq. injection Heq as Heq.
  destruct (decide (a = b)); [by left|right]. by apply hash_collision_intro.
Qed.

(** The texts of values that are hashed. *)
Definition json_texts `{Serialize T} (values : list T) : list bytes := omap to_json values.

Lemma json_texts_elem `{Serialize T} (values : list T) v x :
  v ∈ values → canonical_json v = Ok x → [x] ⊆ json_texts values.
Proof. intros Hv Hx%ok_or_Ok y ->%list_elem_of_singleton. apply list_elem_of_omap. eauto. Qed.

Lemma canonical_digest_eq `{SerializeInj T} (us vs : list T) u v x y :
  u ∈ us → v ∈ vs → canonical_json u = Ok x → canonical_json v = Ok y → digest x = digest y →
  u = v ∨ hash_collision (json_texts us) (json_texts vs).
Proof.
  intros Hu Hv Hx Hy [Heq|Hc]%digest_eq; [left|right].
  - apply ok_or_Ok in Hx, Hy. subst y. by eapply to_json_inj.
  - eapply hash_collision_mono; [by eapply json_texts_elem|by eapply json_texts_elem|done].
Qed.
End digests.

(** ** Concrete libraries, for the applications of the theorems *)

(** A digest function that tells the sample texts apart. *)
Definition polynomial_hash (bs : bytes) : bytes :=
  to_be_bytes 32 (foldl (λ acc b, N.land (acc * 5 + Byte.to_N b + 1) 65535) 0 bs)%N.
Definition polynomial_blake3 : Blake3 := {|
  blake3_hash := polynomial_hash;
  blake3_length bs := length_to_be_bytes 32 _;
|}.

(** A signature that repeats the seed and the message. *)
Definition echo_signature (seed m : bytes) : bytes := take 64 (seed ++ m ++ replicate 64 x00).

Definition sample_ed25519 : Ed25519 := {|
  ed_public seed := seed;
  ed_sign := echo_signature;
  ed_public_ok _ := true;
  ed_verify_strict public m signature := bool_decide (signature = echo_signature public m);
|}.

Lemma sample_ed25519_laws : @Ed25519Laws sample_ed25519.
Proof.
  split; simpl; [|done|].
  - intros seed m. unfold echo_signature. rewrite length_take, !length_app, length_replicate. lia.
  - intros seed m. by rewrite bool_decide_true.
Qed.

Definition sample_signing_key : BackupSigningKey := MkBackupSigningKey "key" 1 (replicate 32 x01).
Definition sample_digest : string := "00112233445566778899aabbccddeeff00112233445566778899aabbccddeeff".
