(* ===== verification/Admission.v ===== *)
(** * Admission control (crate contextdb-security, admission.rs)

    The workspace-partitioned controller that grants expiring leases: claims,
    limits, the controller with its four operations, the deep validation of
    restored state, and the crash checkpoint.  An operation returns the new
    controller beside its result, because an operation that fails may still have
    advanced the clock and dropped expired leases.

    [serde_json] is the class [AdmissionJson]. *)

From S2P Require Import Prelude.
From S2P Require Import Ordering.
From S2P Require Import Bytes.
From S2P Require Import Security.

Definition MAX_ADMISSION_STATE_BYTES : N := 1024 * 1024.

Record ResourceClaim := MkResourceClaim {
  request_id : string;
  claim_workspace : string;
  input_bytes : N;
  candidates : N;
  frontier : N;
  graph_hops : N;
  model_attempts : N;
  snapshot_ttl_millis : N;
}.
#[export] Instance ResourceClaim_eq_dec : EqDecision ResourceClaim.
Proof. solve_decision. Defined.

Record ResourceLimits := MkResourceLimits {
  max_concurrent_requests : N;
  max_inflight_bytes : N;
  max_request_bytes : N;
  max_candidates : N;
  max_frontier : N;
  max_graph_hops : N;
  max_model_attempts : N;
  max_snapshot_ttl_millis : N;
}.

Definition ResourceLimits_default : ResourceLimits :=
  MkResourceLimits 32 (32 * 1024 * 1024) (16 * 1024 * 1024) 10000 100000 8 3 (5 * 60 * 1000).

Record ActiveLease := MkActiveLease {
  lease_claim : ResourceClaim;
  admitted_at_millis : N;
  expires_at_millis : N;
}.
#[export] Instance ActiveLease_eq_dec : EqDecision ActiveLease.
Proof. solve_decision. Defined.

Abbreviation Leases := (gmap string ActiveLease).

Record AdmissionStateWire := MkAdmissionStateWire {
  wire_active : gmap string Leases;
  wire_last_observed : N;
}.

Record AdmissionController := MkAdmissionController {
  active : gmap string Leases;
  last_observed_millis : N;
}.

Definition AdmissionController_default : AdmissionController := MkAdmissionController ∅ 0.

(** ** Validation *)

Definition validate_limits (limits : ResourceLimits) : SecurityResult unit :=
  if (max_concurrent_requests limits =? 0)%N || (max_inflight_bytes limits =? 0)%N
     || (max_request_bytes limits =? 0)%N
  then Err (InvalidInput "resource limits cannot disable all admission")
  else if (max_inflight_bytes limits <? max_request_bytes limits)%N
  then Err (InvalidInput "per-request byte limit exceeds workspace in-flight limit")
  else Ok tt.

(** The array the loop of [validate_claim] runs over: actual, maximum, name. *)
Definition claim_budgets (claim : ResourceClaim) (limits : ResourceLimits) : list (N * N * string) :=
  [(input_bytes claim, max_request_bytes limits, "request bytes");
   (candidates claim, max_candidates limits, "candidate budget");
   (frontier claim, max_frontier limits, "frontier budget");
   (graph_hops claim, max_graph_hops limits, "graph hop budget");
   (model_attempts claim, max_model_attempts limits, "model attempt budget");
   (snapshot_ttl_millis claim, max_snapshot_ttl_millis limits, "snapshot TTL")].

Definition check_budget (budget : N * N * string) : SecurityResult unit :=
  let '(actual, maximum, name) := budget in
  if (maximum <? actual)%N || bool_decide (name = "snapshot TTL"%string) && (actual =? 0)%N
  then Err (ResourceExhausted name) else Ok tt.

Definition validate_claim (claim : ResourceClaim) (limits : ResourceLimits) : SecurityResult unit :=
  try? require_label (request_id claim) "request_id" in
  try? require_label (claim_workspace claim) "workspace_id" in
  try? validate_limits limits in
  for_each check_budget (claim_budgets claim limits).

Definition lease_timing_invalid (lease : ActiveLease) (now : N) : bool :=
  (expires_at_millis lease <=? admitted_at_millis lease)%N
  || negb (bool_decide (checked_add U64_MAX (admitted_at_millis lease)
                          (snapshot_ttl_millis (lease_claim lease)) = Some (expires_at_millis lease)))
  || (expires_at_millis lease <=? now)%N.

(** One iteration of the loop over a partition; the accumulator is [active_bytes]. *)
Definition validate_lease (workspace_id : string) (limits : ResourceLimits) (now : N)
    (active_bytes : N) (entry : string * ActiveLease) : SecurityResult N :=
  let '(id, lease) := entry in
  try? validate_claim (lease_claim lease) limits in
  if negb (bool_decide (claim_workspace (lease_claim lease) = workspace_id))
     || negb (bool_decide (request_id (lease_claim lease) = id))
  then Err (IntegrityFailure "admission partition identity mismatch")
  else if lease_timing_invalid lease now
  then Err (IntegrityFailure "admission lease timing is invalid or expired")
  else ok_or (checked_add U64_MAX active_bytes (input_bytes (lease_claim lease)))
         (ResourceExhausted "workspace in-flight byte overflow").

Definition validate_workspace (workspace_id : string) (workspace : Leases) (limits : ResourceLimits)
    (now : N) : SecurityResult unit :=
  try? require_label workspace_id "workspace_id" in
  let? active_count := ok_or (try_from_max U64_MAX (N.of_nat (size workspace)))
    (ResourceExhausted "workspace request count overflow") in
  if (max_concurrent_requests limits <? active_count)%N
  then Err (ResourceExhausted "workspace concurrent request quota")
  else
    let? active_bytes := try_fold (validate_lease workspace_id limits now) 0%N (bt_entries workspace) in
    if (max_inflight_bytes limits <? active_bytes)%N
    then Err (ResourceExhausted "workspace in-flight byte quota") else Ok tt.

Definition AdmissionController_validate (c : AdmissionController) (limits : ResourceLimits) (now : N)
    : SecurityResult unit :=
  try? validate_limits limits in
  if (now <? last_observed_millis c)%N
  then Err (IntegrityFailure "admission logical time regressed")
  else for_each (λ '(workspace_id, workspace), validate_workspace workspace_id workspace limits now)
         (bt_entries (active c)).

(** ** Operations *)

(** The [retain] of one partition; an emptied partition is dropped. *)
Definition unexpired (now : N) (workspace : Leases) : Leases :=
  filter (λ entry : string * ActiveLease, (now < expires_at_millis entry.2)%N) workspace.
Definition retain_partition (now : N) (workspace : Leases) : option Leases :=
  let kept := unexpired now workspace in
  if bool_decide (kept = ∅) then None else Some kept.

Definition reap_expired (c : AdmissionController) (now : N) : AdmissionController * SecurityResult unit :=
  if (now <? last_observed_millis c)%N
  then (c, Err (IntegrityFailure "admission logical time regressed"))
  else (MkAdmissionController (omap (retain_partition now) (active c)) now, Ok tt).

(** The checks of [admit_claim] on the partition of the claim: [None] is an exact
    replay, [Some lease] the lease to insert. *)
Definition new_lease (workspace : Leases) (claim : ResourceClaim) (limits : ResourceLimits) (now : N)
    : SecurityResult (option ActiveLease) :=
  try? validate_workspace (claim_workspace claim) workspace limits now in
  match workspace !! request_id claim with
  | Some existing =>
      if bool_decide (lease_claim existing = claim) then Ok None
      else Err (InvalidInput "admission request ID was reused with a different resource claim")
  | None =>
      let active_count := default U64_MAX (try_from_max U64_MAX (N.of_nat (size workspace))) in
      if (max_concurrent_requests limits <=? active_count)%N
      then Err (ResourceExhausted "workspace concurrent request quota")
      else
        let? active_bytes := try_fold (λ total lease,
          ok_or (checked_add U64_MAX total (input_bytes (lease_claim lease)))
            (ResourceExhausted "workspace in-flight byte overflow")) 0%N (bt_values workspace) in
        if match checked_add U64_MAX active_bytes (input_bytes claim) with
           | Some total => (max_inflight_bytes limits <? total)%N
           | None => true
           end
        then Err (ResourceExhausted "workspace in-flight byte quota")
        else
          let? expires := ok_or (checked_add U64_MAX now (snapshot_ttl_millis claim))
            (ResourceExhausted "admission lease overflow") in
          Ok (Some (MkActiveLease claim now expires))
  end.

Definition admit_claim (c : AdmissionController) (claim : ResourceClaim) (limits : ResourceLimits) (now : N)
    : AdmissionController * SecurityResult unit :=
  match reap_expired c now with
  | (c, Err e) => (c, Err e)
  | (c, Ok _) =>
      match validate_claim claim limits with
      | Err e => (c, Err e)
      | Ok _ =>
          (* [entry(..).or_default()] creates the partition before the checks *)
          let workspace := default ∅ (active c !! claim_workspace claim) in
          let entered ws := MkAdmissionController (<[claim_workspace claim := ws]> (active c))
                              (last_observed_millis c) in
          match new_lease workspace claim limits now with
          | Err e => (entered workspace, Err e)
          | Ok None => (entered workspace, Ok tt)
          | Ok (Some lease) => (entered (<[request_id claim := lease]> workspace), Ok tt)
          end
      end
  end.

Definition release (c : AdmissionController) (workspace_id request : string)
    : AdmissionController * SecurityResult unit :=
  match active c !! workspace_id with
  | None => (c, Err (InvalidInput "unknown admission workspace"))
  | Some workspace =>
      match workspace !! request with
      | None => (c, Err (InvalidInput "unknown admitted request"))
      | Some _ =>
          let rest := delete request workspace in
          (MkAdmissionController
             (if bool_decide (rest = ∅) then delete workspace_id (active c)
              else <[workspace_id := rest]> (active c)) (last_observed_millis c), Ok tt)
      end
  end.

Definition active_request_ids (c : AdmissionController) (workspace_id : string) (now : N)
    : AdmissionController * SecurityResult (gset string) :=
  match reap_expired c now with
  | (c, Err e) => (c, Err e)
  | (c, Ok _) => (c, Ok (default ∅ (dom <$> (active c !! workspace_id))))
  end.

(** ** Crash checkpoints *)

Class AdmissionJson := {
  admission_to_vec : AdmissionController → option bytes;
  admission_from_slice : bytes → option AdmissionStateWire;
}.
(** The wire form reads back what was written, and an object is never written as
    the empty text. *)
Class AdmissionJsonLaws `{AdmissionJson} := {
  admission_roundtrip c x : admission_to_vec c = Some x →
    admission_from_slice x = Some (MkAdmissionStateWire (active c) (last_observed_millis c));
  admission_not_empty c x : admission_to_vec c = Some x → x ≠ [];
}.

Definition admission_to_json `{AdmissionJson} (c : AdmissionController) (limits : ResourceLimits) (now : N)
    : SecurityResult bytes :=
  try? AdmissionController_validate c limits now in
  let? bs := ok_or (admission_to_vec c) SecuritySerialization in
  if (MAX_ADMISSION_STATE_BYTES <? len bs)%N
  then Err (ResourceExhausted "serialized admission state exceeds byte budget")
  else Ok bs.

Definition admission_from_json_bounded `{AdmissionJson} (bs : bytes) (limits : ResourceLimits) (now : N)
    : SecurityResult AdmissionController :=
  if is_empty bs || (MAX_ADMISSION_STATE_BYTES <? len bs)%N
  then Err (ResourceExhausted "serialized admission state exceeds byte budget")
  else
    let? wire := ok_or (admission_from_slice bs) SecuritySerialization in
    match reap_expired (MkAdmissionController (wire_active wire) (wire_last_observed wire)) now with
    | (_, Err e) => Err e
    | (c, Ok _) => try? AdmissionController_validate c limits now in Ok c
    end.

(** ** What validation decides *)

Definition sum_N (l : list N) : N := foldr N.add 0%N l.
Definition total_bytes (workspace : Leases) : N :=
  sum_N ((λ entry : string * ActiveLease, input_bytes (lease_claim entry.2)) <$> map_to_list workspace).

Record lease_ok (limits : ResourceLimits) (now : N) (workspace_id id : string) (lease : ActiveLease) : Prop := {
  lok_claim : validate_claim (lease_claim lease) limits = Ok tt;
  lok_workspace : claim_workspace (lease_claim lease) = workspace_id;
  lok_request : request_id (lease_claim lease) = id;
  lok_expiry : expires_at_millis lease = (admitted_at_millis lease + snapshot_ttl_millis (lease_claim lease))%N;
  lok_width : (expires_at_millis lease ≤ U64_MAX)%N;
  lok_live : (now < expires_at_millis lease)%N;
}.

Record workspace_ok (limits : ResourceLimits) (now : N) (workspace_id : string) (workspace : Leases) : Prop := {
  wok_label : require_label workspace_id "workspace_id" = Ok tt;
  wok_count : (N.of_nat (size workspace) ≤ N.min U64_MAX (max_concurrent_requests limits))%N;
  wok_leases : map_Forall (lease_ok limits now workspace_id) workspace;
  wok_bytes : (total_bytes workspace ≤ N.min U64_MAX (max_inflight_bytes limits))%N;
}.

Lemma sum_N_cons x l : sum_N (x :: l) = (x + sum_N l)%N.
Proof. done. Qed.

Lemma sum_N_Permutation l1 l2 : l1 ≡ₚ l2 → sum_N l1 = sum_N l2.
Proof. induction 1; simpl; lia. Qed.

Lemma total_bytes_entries workspace :
  total_bytes workspace =
  sum_N ((λ entry : string * ActiveLease, input_bytes (lease_claim entry.2)) <$> bt_entries workspace).
Proof. apply sum_N_Permutation. by rewrite bt_entries_Permutation. Qed.

Lemma total_bytes_insert workspace id lease :
  workspace !! id = None →
  total_bytes (<[id := lease]> workspace) = (input_bytes (lease_claim lease) + total_bytes workspace)%N.
Proof.
  intros Hid. unfold total_bytes.
  rewrite (sum_N_Permutation _ ((λ entry : string * ActiveLease, input_bytes (lease_claim entry.2)) <$>
    (id, lease) :: map_to_list workspace)); [done|]. by rewrite map_to_list_insert.
Qed.

Lemma total_bytes_empty : total_bytes ∅ = 0%N.
Proof. unfold total_bytes. by rewrite map_to_list_empty. Qed.

(** Keeping fewer leases never raises the accounted bytes or the count. *)
Lemma total_bytes_subseteq w1 w2 : w1 ⊆ w2 → (total_bytes w1 ≤ total_bytes w2)%N.
Proof.
  revert w2. induction w1 as [|id lease w1 Hid IH] using map_ind; intros w2 Hsub.
  - rewrite total_bytes_empty. lia.
  - assert (w2 !! id = Some lease) as Hw2 by (eapply lookup_weaken; [apply lookup_insert_eq|done]).
    rewrite <- (insert_delete_id w2 id lease Hw2), !total_bytes_insert; [|apply lookup_delete_eq|done].
    specialize (IH (delete id w2)). apply N.add_le_mono_l, IH.
    apply map_subseteq_spec. intros k x Hk. destruct (decide (k = id)) as [->|Hne]; [congruence|].
    rewrite lookup_delete_ne by done. eapply lookup_weaken; [|exact Hsub]. by rewrite lookup_insert_ne.
Qed.

Lemma validate_claim_Ok claim limits :
  validate_claim claim limits = Ok tt →
  (0 < snapshot_ttl_millis claim ≤ max_snapshot_ttl_millis limits)%N ∧
  (input_bytes claim ≤ max_request_bytes limits)%N ∧
  require_label (claim_workspace claim) "workspace_id" = Ok tt ∧ validate_limits limits = Ok tt.
Proof.
  unfold validate_claim. rewrite !try_Ok, for_each_Ok. intros (_ & Hw & Hl & Hf).
  unfold claim_budgets in Hf. rewrite !Forall_cons in Hf. destruct Hf as (Hb & _ & _ & _ & _ & Ht & _).
  unfold check_budget in Hb, Ht.
  destruct (N.ltb_spec (max_request_bytes limits) (input_bytes claim)) as [|Hbytes]; [done|].
  destruct (N.ltb_spec (max_snapshot_ttl_millis limits) (snapshot_ttl_millis claim)) as [|Hmax]; [done|].
  destruct (N.eqb_spec (snapshot_ttl_millis claim) 0); [done|]. split_and!; [lia|done..].
Qed.

Lemma validate_limits_Ok limits :
  validate_limits limits = Ok tt →
  (0 < max_concurrent_requests limits)%N ∧ (0 < max_request_bytes limits ≤ max_inflight_bytes limits)%N.
Proof.
  unfold validate_limits. intros Hv.
  destruct (N.eqb_spec (max_concurrent_requests limits) 0); [done|].
  destruct (N.eqb_spec (max_inflight_bytes limits) 0); [done|].
  destruct (N.eqb_spec (max_request_bytes limits) 0); [done|]. simpl in Hv.
  destruct (N.ltb_spec (max_inflight_bytes limits) (max_request_bytes limits)); [done|]. lia.
Qed.

Lemma validate_lease_Ok limits now workspace_id acc id lease r :
  validate_lease workspace_id limits now acc (id, lease) = Ok r ↔
  lease_ok limits now workspace_id id lease ∧
  checked_add U64_MAX acc (input_bytes (lease_claim lease)) = Some r.
Proof.
  unfold validate_lease, lease_timing_invalid. rewrite result_bind_Ok. split.
  - intros ([] & Hc & Hr). pose proof (validate_claim_Ok _ _ Hc) as [Httl _].
    case_bool_decide as Hw; cbn [negb orb] in Hr; [|done].
    case_bool_decide as Hi; cbn [negb orb] in Hr; [|done].
    destruct (N.leb_spec (expires_at_millis lease) (admitted_at_millis lease)); [done|].
    case_bool_decide as Ha; cbn [negb orb] in Hr; [|done]. apply checked_add_Some in Ha as [Ha ?].
    destruct (N.leb_spec (expires_at_millis lease) now); [done|].
    apply ok_or_Ok in Hr. split; [constructor; done || lia|done].
  - intros [[Hc Hw Hi He Hwd Hl] Hr]. exists tt. split; [done|].
    pose proof (validate_claim_Ok _ _ Hc) as [Httl _].
    rewrite !bool_decide_true by (done || (rewrite checked_add_Some; lia)).
    rewrite (proj2 (N.leb_gt _ _)) by lia. rewrite (proj2 (N.leb_gt _ _)) by lia. cbn [negb orb].
    by apply ok_or_Ok.
Qed.

Lemma fold_leases_Ok limits now workspace_id l acc r :
  (acc ≤ U64_MAX)%N →
  try_fold (validate_lease workspace_id limits now) acc l = Ok r ↔
  Forall (λ entry, lease_ok limits now workspace_id entry.1 entry.2) l ∧
  r = (acc + sum_N ((λ entry : string * ActiveLease, input_bytes (lease_claim entry.2)) <$> l))%N ∧
  (r ≤ U64_MAX)%N.
Proof.
  revert acc; induction l as [|[id lease] l IH]; intros acc Hacc.
  - simpl. rewrite Forall_nil. split; [intros [= <-]; split_and!; [done|lia|done]|].
    intros (_ & -> & _). f_equal. lia.
  - cbn [try_fold]. rewrite fmap_cons, sum_N_cons, result_bind_Ok, Forall_cons. cbn [snd]. split.
    + intros (acc' & (Hlok & [-> Hle]%checked_add_Some)%validate_lease_Ok & Hr).
      apply IH in Hr as (Hall & -> & ?); [|done]. split_and!; [done|done|lia|lia].
    + intros ([Hlok Hall] & -> & Hle).
      exists (acc + input_bytes (lease_claim lease))%N. rewrite validate_lease_Ok, checked_add_Some.
      split; [split; [done|lia]|]. apply IH; [lia|]. split_and!; [done|lia|lia].
Qed.

Lemma validate_workspace_Ok limits now workspace_id workspace :
  validate_workspace workspace_id workspace limits now = Ok tt ↔
  workspace_ok limits now workspace_id workspace.
Proof.
  unfold validate_workspace. rewrite try_Ok.
  assert (Forall (λ entry, lease_ok limits now workspace_id entry.1 entry.2) (bt_entries workspace) ↔
    map_Forall (lease_ok limits now workspace_id) workspace) as Hall.
  { rewrite Forall_forall. split.
    - intros Hf id lease Hid. by apply (Hf (id, lease)), bt_entries_elem.
    - intros Hf [id lease] Hin%bt_entries_elem. by apply Hf. }
  rewrite result_bind_Ok. unfold try_from_max. split.
  - intros (Hl & count & Hc & Hr). destruct (N.leb_spec (N.of_nat (size workspace)) U64_MAX); [|done].
    cbn [ok_or] in Hc. injection Hc as <-.
    destruct (N.ltb_spec (max_concurrent_requests limits) (N.of_nat (size workspace))); [done|].
    apply result_bind_Ok in Hr as (b & Hb & Hr). apply fold_leases_Ok in Hb as (Hleases & Hsum & Hle); [|lia].
    destruct (N.ltb_spec (max_inflight_bytes limits) b); [done|].
    constructor; [done|lia|by apply Hall|]. rewrite total_bytes_entries. lia.
  - intros [Hl Hc Hleases Hb]. split; [done|]. exists (N.of_nat (size workspace)).
    rewrite (proj2 (N.leb_le _ _)) by lia. split; [done|].
    rewrite (proj2 (N.ltb_ge _ _)) by lia. rewrite total_bytes_entries in Hb.
    apply result_bind_Ok. eexists. split.
    + apply fold_leases_Ok; [lia|]. split_and!; [by apply Hall|done|lia].
    + by rewrite (proj2 (N.ltb_ge _ _)) by lia.
Qed.

(** ** Invariant and quotas *)

(** Every partition is within its limits at time [now], and every lease was
    admitted before the last observed time. *)
Record controller_ok (limits : ResourceLimits) (c : AdmissionController) : Prop := {
  cok_workspaces : map_Forall (workspace_ok limits (last_observed_millis c)) (active c);
  cok_admitted : ∀ w ws id lease, active c !! w = Some ws → ws !! id = Some lease →
    (admitted_at_millis lease ≤ last_observed_millis c)%N;
}.

Lemma AdmissionController_validate_Ok c limits now :
  AdmissionController_validate c limits now = Ok tt ↔
  validate_limits limits = Ok tt ∧ (last_observed_millis c ≤ now)%N ∧
  map_Forall (workspace_ok limits now) (active c).
Proof.
  unfold AdmissionController_validate. rewrite try_Ok.
  assert (for_each (λ '(workspace_id, workspace), validate_workspace workspace_id workspace limits now)
    (bt_entries (active c)) = Ok tt ↔ map_Forall (workspace_ok limits now) (active c)) as Hall.
  { rewrite for_each_Ok, Forall_forall. split.
    - intros Hf w ws Hw. apply validate_workspace_Ok. by apply (Hf (w, ws)), bt_entries_elem.
    - intros Hf [w ws] Hin%bt_entries_elem. apply validate_workspace_Ok. by apply Hf. }
  destruct (N.ltb_spec now (last_observed_millis c)); [|rewrite Hall; naive_solver].
  split; [by intros [_ ?]|]. intros (_ & ? & _). lia.
Qed.

Lemma unexpired_Some now workspace id lease :
  unexpired now workspace !! id = Some lease ↔
  workspace !! id = Some lease ∧ (now < expires_at_millis lease)%N.
Proof. unfold unexpired. by rewrite map_lookup_filter_Some. Qed.

Lemma unexpired_ok limits now now' w workspace :
  (now ≤ now')%N → workspace_ok limits now w workspace → workspace_ok limits now' w (unexpired now' workspace).
Proof.
  intros Hnow [Hl Hc Hleases Hb].
  assert (unexpired now' workspace ⊆ workspace) as Hsub.
  { apply map_subseteq_spec. intros id lease [? _]%unexpired_Some. done. }
  constructor; [done| | |].
  - apply map_subseteq_size in Hsub. lia.
  - intros id lease [Hid Hlive]%unexpired_Some. destruct (Hleases id lease Hid). by constructor.
  - apply total_bytes_subseteq in Hsub. lia.
Qed.

Lemma reap_expired_lookup c now w ws :
  (last_observed_millis c ≤ now)%N →
  active (reap_expired c now).1 !! w = Some ws ↔
  ∃ old, active c !! w = Some old ∧ ws = unexpired now old ∧ ws ≠ ∅.
Proof.
  intros Hnow. unfold reap_expired. rewrite (proj2 (N.ltb_ge _ _)) by done. cbn [fst active].
  rewrite lookup_omap_Some. unfold retain_partition. split.
  - intros (old & Hr & Hold). case_bool_decide; [done|]. injection Hr as <-. by exists old.
  - intros (old & Hold & -> & Hne). exists old. by rewrite bool_decide_false.
Qed.

Lemma reap_expired_ok limits c now c' r :
  controller_ok limits c → reap_expired c now = (c', r) → controller_ok limits c'.
Proof.
  intros Hok Hr. destruct (N.ltb_spec now (last_observed_millis c)) as [Hlt|Hle].
  { unfold reap_expired in Hr. rewrite (proj2 (N.ltb_lt _ _)) in Hr by done. by injection Hr as <- _. }
  assert (last_observed_millis c' = now) as Hlast.
  { unfold reap_expired in Hr. rewrite (proj2 (N.ltb_ge _ _)) in Hr by done. by injection Hr as <- _. }
  apply (f_equal fst) in Hr. cbn [fst] in Hr. subst c'. constructor.
  - intros w ws (old & Hold & -> & _)%reap_expired_lookup; [|done]. rewrite Hlast.
    eapply unexpired_ok; [exact Hle|]. by apply (cok_workspaces _ _ Hok).
  - intros w ws id lease (old & Hold & -> & _)%reap_expired_lookup [Hid _]%unexpired_Some; [|done].
    rewrite Hlast. pose proof (cok_admitted _ _ Hok _ _ _ _ Hold Hid). lia.
Qed.

Lemma fold_bytes_Ok l acc r :
  (acc ≤ U64_MAX)%N →
  try_fold (λ total lease, ok_or (checked_add U64_MAX total (input_bytes (lease_claim lease)))
    (ResourceExhausted "workspace in-flight byte overflow")) acc l = Ok r ↔
  r = (acc + sum_N ((input_bytes ∘ lease_claim) <$> l))%N ∧ (r ≤ U64_MAX)%N.
Proof.
  revert acc; induction l as [|lease l IH]; intros acc Hacc.
  - simpl. split; [intros [= <-]; lia|]. intros [-> _]. f_equal. lia.
  - cbn [try_fold]. rewrite fmap_cons, sum_N_cons, result_bind_Ok. unfold compose at 1. split.
    + intros (acc' & [-> Hle]%ok_or_Ok%checked_add_Some & [-> ?]%IH); lia.
    + intros [-> Hle]. exists (acc + input_bytes (lease_claim lease))%N.
      rewrite ok_or_Ok, checked_add_Some. split; [lia|]. apply IH; lia.
Qed.

Lemma fold_workspace_bytes workspace :
  (total_bytes workspace ≤ U64_MAX)%N →
  try_fold (λ total lease, ok_or (checked_add U64_MAX total (input_bytes (lease_claim lease)))
    (ResourceExhausted "workspace in-flight byte overflow")) 0%N (bt_values workspace)
  = Ok (total_bytes workspace).
Proof.
  rewrite total_bytes_entries. intros Hle. apply fold_bytes_Ok; [lia|]. unfold bt_values.
  rewrite <- list_fmap_compose. split; [|done]. rewrite N.add_0_l. done.
Qed.

(** The quota of the partition leaves room for the claim. *)
Definition fits (limits : ResourceLimits) (workspace : Leases) (claim : ResourceClaim) (now : N) : Prop :=
  (N.of_nat (size workspace) < max_concurrent_requests limits)%N ∧
  (total_bytes workspace + input_bytes claim ≤ N.min U64_MAX (max_inflight_bytes limits))%N ∧
  (now + snapshot_ttl_millis claim ≤ U64_MAX)%N.

Lemma new_lease_spec limits workspace claim now :
  workspace_ok limits now (claim_workspace claim) workspace →
  match workspace !! request_id claim with
  | Some existing =>
      if decide (lease_claim existing = claim) then new_lease workspace claim limits now = Ok None
      else ∃ e, new_lease workspace claim limits now = Err e
  | None =>
      fits limits workspace claim now ∧
        new_lease workspace claim limits now
        = Ok (Some (MkActiveLease claim now (now + snapshot_ttl_millis claim)%N)) ∨
      ¬ fits limits workspace claim now ∧ ∃ e, new_lease workspace claim limits now = Err e
  end.
Proof.
  intros Hok. pose proof (wok_count _ _ _ _ Hok) as Hcount. pose proof (wok_bytes _ _ _ _ Hok) as Hbytes.
  unfold new_lease, fits. rewrite (proj2 (validate_workspace_Ok _ _ _ _) Hok). cbn [result_bind].
  destruct (workspace !! request_id claim) as [existing|].
  { case_decide; [by rewrite bool_decide_true|rewrite bool_decide_false by done; by eexists]. }
  unfold try_from_max. rewrite (proj2 (N.leb_le (N.of_nat (size workspace)) U64_MAX)) by lia. cbv zeta. cbn [from_option id].
  destruct (N.leb_spec (max_concurrent_requests limits) (N.of_nat (size workspace))).
  { right. split; [lia|by eexists]. }
  rewrite fold_workspace_bytes by lia. cbn [result_bind].
  destruct (checked_add U64_MAX (total_bytes workspace) (input_bytes claim)) as [total|] eqn:Ht.
  - apply checked_add_Some in Ht as [-> Hle].
    destruct (N.ltb_spec (max_inflight_bytes limits) (total_bytes workspace + input_bytes claim)).
    { right. split; [lia|by eexists]. }
    destruct (checked_add U64_MAX now (snapshot_ttl_millis claim)) as [expires|] eqn:He; cbn [ok_or result_bind].
    + apply checked_add_Some in He as [-> ?]. left. split; [lia|done].
    + apply checked_add_None in He. right. split; [lia|by eexists].
  - apply checked_add_None in Ht. right. split; [lia|by eexists].
Qed.

(** The leases of a workspace; a missing partition is an empty one. *)
Definition leases_of (c : AdmissionController) (workspace_id : string) : Leases :=
  default ∅ (active c !! workspace_id).

Lemma leases_of_ok limits c now claim :
  controller_ok limits c → validate_claim claim limits = Ok tt → last_observed_millis c = now →
  workspace_ok limits now (claim_workspace claim) (leases_of c (claim_workspace claim)).
Proof.
  intros Hok Hc <-. unfold leases_of. destruct (active c !! claim_workspace claim) as [ws|] eqn:Hw; cbn [from_option id].
  - by apply (cok_workspaces _ _ Hok).
  - apply validate_claim_Ok in Hc as (_ & _ & Hl & _). constructor; [done| | |].
    + rewrite map_size_empty. lia.
    + apply map_Forall_empty.
    + rewrite total_bytes_empty. lia.
Qed.

Lemma leases_of_reap c now w :
  (last_observed_millis c ≤ now)%N → leases_of (reap_expired c now).1 w = unexpired now (leases_of c w).
Proof.
  intros Hnow. unfold reap_expired. rewrite (proj2 (N.ltb_ge _ _)) by done. unfold leases_of. cbn [fst active].
  rewrite lookup_omap. destruct (active c !! w) as [ws|]; cbn [option_bind mbind from_option id].
  - unfold retain_partition. by case_bool_decide as He; [rewrite He|].
  - unfold unexpired. by rewrite map_filter_empty.
Qed.

Lemma leases_of_insert c w ws w' :
  leases_of (MkAdmissionController (<[w := ws]> (active c)) (last_observed_millis c)) w' =
  if decide (w' = w) then ws else leases_of c w'.
Proof.
  unfold leases_of. cbn [active]. case_decide; [subst; by rewrite lookup_insert_eq|].
  by rewrite lookup_insert_ne.
Qed.

Lemma reap_expired_time c now :
  (last_observed_millis c ≤ now)%N →
  reap_expired c now = ((reap_expired c now).1, Ok tt) ∧ last_observed_millis (reap_expired c now).1 = now.
Proof. intros Hnow. unfold reap_expired. by rewrite (proj2 (N.ltb_ge _ _)) by done. Qed.

(** The outcome of [admit_claim] in terms of the leases that are still live. *)
Definition admitted (limits : ResourceLimits) (c c' : AdmissionController) (claim : ResourceClaim) (now : N) : Prop :=
  let live := λ w, unexpired now (leases_of c w) in
  let own := live (claim_workspace claim) in
  ∃ lease, lease_claim lease = claim ∧
    (own !! request_id claim = Some lease ∨
     own !! request_id claim = None ∧ fits limits own claim now ∧
       lease = MkActiveLease claim now (now + snapshot_ttl_millis claim)%N) ∧
    ∀ w, leases_of c' w = if decide (w = claim_workspace claim)
                          then <[request_id claim := lease]> own else live w.

Definition refused (limits : ResourceLimits) (c c' : AdmissionController) (claim : ResourceClaim) (now : N) : Prop :=
  let own := unexpired now (leases_of c (claim_workspace claim)) in
  (now < last_observed_millis c)%N ∧ c' = c ∨
  (∀ w, leases_of c' w = unexpired now (leases_of c w)) ∧
  (validate_claim claim limits ≠ Ok tt ∨
   match own !! request_id claim with
   | Some existing => lease_claim existing ≠ claim
   | None => ¬ fits limits own claim now
   end).

Lemma admit_cases limits c claim now c' r :
  controller_ok limits c → admit_claim c claim limits now = (c', r) →
  match r with
  | Ok _ => (last_observed_millis c ≤ now)%N ∧ validate_claim claim limits = Ok tt ∧ admitted limits c c' claim now
  | Err _ => refused limits c c' claim now
  end.
Proof.
  intros Hok Hadmit. unfold admit_claim in Hadmit. unfold refused, admitted.
  destruct (N.ltb_spec now (last_observed_millis c)) as [Hlt|Hnow].
  { unfold reap_expired in Hadmit. rewrite (proj2 (N.ltb_lt _ _)) in Hadmit by done. injection Hadmit as Hc' Hr'; subst c' r. by left. }
  destruct (reap_expired_time c now Hnow) as [Hreap Hlast]. rewrite Hreap in Hadmit.
  set (c1 := (reap_expired c now).1) in *.
  assert (∀ w, leases_of c1 w = unexpired now (leases_of c w)) as Hlive by (intros w; by apply leases_of_reap).
  destruct (validate_claim claim limits) as [[]|e] eqn:Hc.
  2: { injection Hadmit as Hc' Hr'; subst c' r. right. split; [done|by left]. }
  pose proof (leases_of_ok limits c1 now claim (reap_expired_ok _ _ _ _ _ Hok Hreap) Hc Hlast) as Hws.
  pose proof (new_lease_spec limits _ claim now Hws) as Hnew.
  change (default ∅ (active c1 !! claim_workspace claim)) with (leases_of c1 (claim_workspace claim)) in Hadmit.
  rewrite Hlive in Hadmit, Hnew. set (own := unexpired now (leases_of c (claim_workspace claim))) in *.
  assert (∀ w, leases_of (MkAdmissionController (<[claim_workspace claim := own]> (active c1))
    (last_observed_millis c1)) w = unexpired now (leases_of c w)) as Hkeep.
  { intros w. rewrite leases_of_insert. case_decide as Hw; [by rewrite Hw|apply Hlive]. }
  destruct (own !! request_id claim) as [existing|] eqn:Hid.
  - case_decide as Hsame.
    + rewrite Hnew in Hadmit. injection Hadmit as Hc' Hr'; subst c' r. split_and!; [done..|]. exists existing.
      split_and!; [done|by left|]. intros w. rewrite Hkeep. case_decide as Hw; [|done]. subst w. fold own.
      by rewrite insert_id.
    + destruct Hnew as [e Hnew]. rewrite Hnew in Hadmit. injection Hadmit as Hc' Hr'; subst c' r. right. split; [done|by right].
  - destruct Hnew as [[Hfits Hnew]|[Hfits [e Hnew]]]; rewrite Hnew in Hadmit; injection Hadmit as Hc' Hr'; subst c' r.
    + split_and!; [done..|]. exists (MkActiveLease claim now (now + snapshot_ttl_millis claim)).
      split_and!; [done|right; by split_and!|].
      intros w. rewrite leases_of_insert. case_decide as Hw; [done|apply Hlive].
    + right. split; [done|by right].
Qed.

Lemma admit_last c claim limits now :
  last_observed_millis (admit_claim c claim limits now).1 =
  if (now <? last_observed_millis c)%N then last_observed_millis c else now.
Proof.
  unfold admit_claim, reap_expired. destruct (now <? last_observed_millis c)%N; [done|].
  destruct (validate_claim claim limits); [|done]. by destruct (new_lease _ _ _ _) as [[|]|].
Qed.

Lemma controller_ok_insert limits c w ws :
  controller_ok limits c → workspace_ok limits (last_observed_millis c) w ws →
  (∀ id lease, ws !! id = Some lease → (admitted_at_millis lease ≤ last_observed_millis c)%N) →
  controller_ok limits (MkAdmissionController (<[w := ws]> (active c)) (last_observed_millis c)).
Proof.
  intros [Hws Hadm] Hok Hle. constructor; cbn [active last_observed_millis].
  - by apply map_Forall_insert_2.
  - intros w' ws' id lease. rewrite lookup_insert_Some. intros [[<- <-]|[_ Hw]]; [apply Hle|by eapply Hadm].
Qed.

Lemma workspace_ok_insert limits now claim own :
  (max_concurrent_requests limits ≤ U64_MAX)%N →
  workspace_ok limits now (claim_workspace claim) own → validate_claim claim limits = Ok tt →
  own !! request_id claim = None → fits limits own claim now →
  workspace_ok limits now (claim_workspace claim)
    (<[request_id claim := MkActiveLease claim now (now + snapshot_ttl_millis claim)]> own).
Proof.
  intros Hmax [Hl Hc Hleases Hb] Hv Hid (Hcount & Hbytes & Hexp).
  pose proof (validate_claim_Ok _ _ Hv) as (Httl & _). constructor; [done| | |].
  - rewrite map_size_insert_None by done. lia.
  - apply map_Forall_insert_2; [|done]. by constructor; cbn; try lia.
  - rewrite total_bytes_insert by done. cbn [lease_claim]. lia.
Qed.

Lemma admit_ok limits c claim now :
  (max_concurrent_requests limits ≤ U64_MAX)%N →
  controller_ok limits c → controller_ok limits (admit_claim c claim limits now).1.
Proof.
  intros Hmax Hok. unfold admit_claim. destruct (reap_expired c now) as [c1 [[]|e]] eqn:Hreap;
    pose proof (reap_expired_ok _ _ _ _ _ Hok Hreap) as Hok1; [|done].
  destruct (validate_claim claim limits) as [[]|e] eqn:Hc; [|done].
  change (default ∅ (active c1 !! claim_workspace claim)) with (leases_of c1 (claim_workspace claim)).
  assert (last_observed_millis c1 = now) as Hlast.
  { unfold reap_expired in Hreap. case_match; by simplify_eq. }
  pose proof (leases_of_ok limits c1 now claim Hok1 Hc Hlast) as Hws.
  pose proof (new_lease_spec limits _ claim now Hws) as Hnew.
  assert (∀ id lease, leases_of c1 (claim_workspace claim) !! id = Some lease →
    (admitted_at_millis lease ≤ last_observed_millis c1)%N) as Hadm.
  { intros k lease. unfold leases_of. destruct (active c1 !! claim_workspace claim) as [ws|] eqn:Hw;
      cbn [from_option id]; [by eapply cok_admitted|by rewrite lookup_empty]. }
  destruct (new_lease _ claim limits now) as [[lease|]|e] eqn:Hn;
    cbn [fst]; rewrite Hlast in Hadm; apply controller_ok_insert; rewrite ?Hlast; try done;
    destruct (_ !! request_id claim) eqn:Hid.
  1, 3: exfalso; by case_decide; naive_solver.
  - destruct Hnew as [[Hf [= ->]]|[_ [? ?]]]; [|done]. by apply workspace_ok_insert.
  - intros id l. rewrite lookup_insert_Some. destruct Hnew as [[Hf [= ->]]|[_ [? ?]]]; [|done].
    intros [[_ <-]|[_ Hl]]; [done|]. by eapply Hadm.
Qed.

Lemma release_ok limits c w id : controller_ok limits c → controller_ok limits (release c w id).1.
Proof.
  intros Hok. unfold release. destruct (active c !! w) as [ws|] eqn:Hw; [|done].
  destruct (ws !! id) as [lease|] eqn:Hid; [|done]. cbn [fst].
  case_bool_decide.
  - destruct Hok as [Hws Hadm]. constructor; cbn [active last_observed_millis].
    + by apply map_Forall_delete.
    + intros w' ws' id' l [_ ?]%lookup_delete_Some. by eapply Hadm.
  - pose proof (cok_workspaces _ _ Hok w ws Hw) as [Hl Hc Hleases Hb].
    pose proof (delete_subseteq ws id) as Hsub. apply controller_ok_insert; [done| |].
    + constructor; [done| | |].
      * apply map_subseteq_size in Hsub. lia.
      * by apply map_Forall_delete.
      * apply total_bytes_subseteq in Hsub. lia.
    + intros id' l [_ ?]%lookup_delete_Some. by eapply (cok_admitted _ _ Hok).
Qed.

(** ** Properties *)

Inductive AdmissionOp :=
  | OpAdmit (claim : ResourceClaim) (now : N)
  | OpRelease (workspace_id request : string)
  | OpListActive (workspace_id : string) (now : N).

Definition run_admission (limits : ResourceLimits) (c : AdmissionController) (op : AdmissionOp) : AdmissionController :=
  match op with
  | OpAdmit claim now => (admit_claim c claim limits now).1
  | OpRelease w id => (release c w id).1
  | OpListActive w now => (active_request_ids c w now).1
  end.

Lemma run_admission_ok limits c op :
  (max_concurrent_requests limits ≤ U64_MAX)%N →
  controller_ok limits c → controller_ok limits (run_admission limits c op).
Proof.
  intros Hmax Hok. destruct op as [claim now|w id|w now]; [by apply admit_ok|by apply release_ok|].
  simpl. unfold active_request_ids. destruct (reap_expired c now) as [c1 [[]|e]] eqn:Hreap;
    by eapply reap_expired_ok.
Qed.

Lemma controller_ok_default limits : controller_ok limits AdmissionController_default.
Proof.
  constructor; cbn [active AdmissionController_default].
  - apply map_Forall_empty.
  - intros w ws id lease Hw. by rewrite lookup_empty in Hw.
Qed.

Lemma run_admissions_ok limits ops c :
  (max_concurrent_requests limits ≤ U64_MAX)%N →
  controller_ok limits c → controller_ok limits (foldl (run_admission limits) c ops).
Proof. intros Hmax. revert c; induction ops as [|op ops IH]; intros c Hok; [done|]. by apply IH, run_admission_ok. Qed.

(** The limits are [u64] values. *)
Definition limits_u64 (limits : ResourceLimits) : Prop :=
  (max_concurrent_requests limits ≤ U64_MAX)%N ∧ (max_inflight_bytes limits ≤ U64_MAX)%N.

(** C33: admission never exceeds its quotas.  After any sequence of admissions,
    releases and listings the controller passes its own deep validation, no
    workspace holds more leases or more bytes in flight than its limits, and every
    lease is filed under its own request and workspace and expires within the
    longest lifetime the limits allow. *)
Theorem admission_within_quota limits ops :
  limits_u64 limits →
  let c := foldl (run_admission limits) AdmissionController_default ops in
  (validate_limits limits = Ok tt → AdmissionController_validate c limits (last_observed_millis c) = Ok tt) ∧
  ∀ w ws, active c !! w = Some ws →
    (N.of_nat (size ws) ≤ max_concurrent_requests limits)%N ∧
    (total_bytes ws ≤ max_inflight_bytes limits)%N ∧
    ∀ id lease, ws !! id = Some lease →
      request_id (lease_claim lease) = id ∧ claim_workspace (lease_claim lease) = w ∧
      (last_observed_millis c < expires_at_millis lease
        ≤ last_observed_millis c + max_snapshot_ttl_millis limits)%N.
Proof.
  intros [Hmax _] c.
  assert (controller_ok limits c) as Hok by (apply run_admissions_ok; [done|apply controller_ok_default]).
  split; [intros Hl; apply AdmissionController_validate_Ok; split_and!; [done|done|apply (cok_workspaces _ _ Hok)]|].
  intros w ws Hw. pose proof (cok_workspaces _ _ Hok w ws Hw) as [Hl Hc Hleases Hb].
  split_and!; [lia|lia|]. intros id lease Hid. pose proof (Hleases id lease Hid) as [Hclaim ? ? ? ? ?].
  pose proof (cok_admitted _ _ Hok w ws id lease Hw Hid). apply validate_claim_Ok in Hclaim as [? _].
  split_and!; [done|done|lia|lia].
Qed.

(** what [admit_claim] (the method [admit]) answers and does, on every branch.  It succeeds exactly for
    a valid claim at a time that does not regress that either repeats a live lease
    with the same claim or is new and fits the live leases of its workspace; the
    live leases then gain exactly that lease.  A refused claim changes no live
    lease, and a regressed clock changes nothing at all. *)
Theorem admit_exact limits c claim now c' r :
  controller_ok limits c → admit_claim c claim limits now = (c', r) →
  match r with
  | Ok _ => (last_observed_millis c ≤ now)%N ∧ validate_claim claim limits = Ok tt ∧ admitted limits c c' claim now
  | Err _ => refused limits c c' claim now
  end.
Proof. apply admit_cases. Qed.

(** no lost lease blocks a workspace for longer than the longest lifetime.
    Whatever was admitted before, and whether or not it was ever released, a valid
    claim is admitted once that long has passed since the last observed time, as
    long as its own expiry fits 64 bits. *)
Theorem expired_leases_free_the_quota limits ops claim now :
  limits_u64 limits → validate_claim claim limits = Ok tt →
  let c := foldl (run_admission limits) AdmissionController_default ops in
  (last_observed_millis c + max_snapshot_ttl_millis limits ≤ now)%N →
  (now + snapshot_ttl_millis claim ≤ U64_MAX)%N →
  (admit_claim c claim limits now).2 = Ok tt.
Proof.
  intros [Hmax Hbytes] Hclaim c Hlate Hexp.
  assert (controller_ok limits c) as Hok by (apply run_admissions_ok; [done|apply controller_ok_default]).
  assert (unexpired now (leases_of c (claim_workspace claim)) = ∅) as Hempty.
  { apply map_empty. intros id. destruct (_ !! id) as [lease|] eqn:Hid; [exfalso|done].
    apply unexpired_Some in Hid as [Hid Hlive]. unfold leases_of in Hid.
    destruct (active c !! claim_workspace claim) as [ws|] eqn:Hw; simpl in Hid; [|by rewrite lookup_empty in Hid].
    pose proof (cok_workspaces _ _ Hok _ ws Hw) as [_ _ Hleases _]. pose proof (Hleases id lease Hid) as [Hv ? ? ? ? ?].
    pose proof (cok_admitted _ _ Hok _ ws id lease Hw Hid). apply validate_claim_Ok in Hv as [? _]. lia. }
  destruct (admit_claim c claim limits now) as [c' r] eqn:Ha.
  pose proof (admit_cases _ _ _ _ _ _ Hok Ha) as Hr. destruct r as [[]|e]; [done|exfalso].
  pose proof (validate_claim_Ok _ _ Hclaim) as (_ & Hin & _ & Hl). apply validate_limits_Ok in Hl as [Hconc Hreq].
  destruct Hr as [[Hlt _]|[_ [Hv|Hfits]]]; [lia|done|]. cbn zeta in Hfits. rewrite Hempty, lookup_empty in Hfits.
  apply Hfits. split_and!; [rewrite map_size_empty; lia|rewrite total_bytes_empty; lia|lia].
Qed.

(** a crash checkpoint restores the live leases.  Reading back the state that
    was written gives the written controller without the leases that expired in
    the meantime, and it is accepted. *)
Theorem admission_checkpoint_roundtrip `{AdmissionJsonLaws} limits c now now' x :
  admission_to_json c limits now = Ok x → (now ≤ now')%N →
  admission_from_json_bounded x limits now' = Ok (reap_expired c now').1.
Proof.
  unfold admission_to_json, admission_from_json_bounded. intros Hx Hnow. res_inv.
  destruct (N.ltb_spec MAX_ADMISSION_STATE_BYTES (len a0)); [done|]. injection Hk0 as <-.
  destruct a0 as [|b bs] eqn:Hb; [by apply admission_not_empty in Hm0|]. cbn [is_empty orb].
  rewrite <- Hb in *. rewrite (proj2 (N.ltb_ge _ _)) by done.
  rewrite (admission_roundtrip _ _ Hm0). cbn [ok_or result_bind wire_active wire_last_observed].
  apply AdmissionController_validate_Ok in Hm as (Hl & Hlast & Hws).
  assert (MkAdmissionController (active c) (last_observed_millis c) = c) as -> by (by destruct c).
  destruct (reap_expired_time c now' ltac:(lia)) as [Hreap Htime]. rewrite Hreap.
  assert (AdmissionController_validate (reap_expired c now').1 limits now' = Ok tt) as ->; [|done].
  apply AdmissionController_validate_Ok. split_and!; [done|lia|].
  intros w ws (old & Hold & -> & _)%reap_expired_lookup; [|lia]. eapply unexpired_ok; [exact Hnow|by apply Hws].
Qed.

(** deep validation does not compare the admission time of a lease with the
    clock: restored state is accepted with a lease admitted in the future, which
    then holds its quota until long after the longest lifetime has passed. *)
Theorem validation_accepts_future_lease limits claim now t :
  limits_u64 limits → validate_claim claim limits = Ok tt →
  (now ≤ t)%N → (t + snapshot_ttl_millis claim ≤ U64_MAX)%N →
  AdmissionController_validate
    (MkAdmissionController {[claim_workspace claim :=
       {[request_id claim := MkActiveLease claim t (t + snapshot_ttl_millis claim)]}]} now) limits now = Ok tt.
Proof.
  intros [Hmax Hbytes] Hclaim Hnow Hexp. pose proof (validate_claim_Ok _ _ Hclaim) as (Httl & Hin & Hlabel & Hl).
  pose proof (validate_limits_Ok _ Hl) as [Hconc Hreq].
  apply AdmissionController_validate_Ok. split_and!; [done|done|]. cbn [active]. apply map_Forall_singleton.
  constructor; [done| | |].
  - rewrite map_size_singleton. lia.
  - apply map_Forall_singleton. constructor; cbn; try done; lia.
  - unfold total_bytes. rewrite map_to_list_singleton. simpl. lia.
Qed.

(** ** The theorems at concrete inputs *)

Definition sample_claim_of (request : string) (ttl : N) : ResourceClaim :=
  MkResourceClaim request "workspace" 4096 100 100 2 1 ttl.
Definition small_limits : ResourceLimits := MkResourceLimits 1 8192 8192 100 100 2 1 1000.
Definition one_lease : AdmissionController :=
  (admit_claim AdmissionController_default (sample_claim_of "first" 1000) small_limits 5).1.

Lemma small_limits_u64 : limits_u64 small_limits.
Proof. by vm_compute. Qed.

Lemma one_lease_ok : controller_ok small_limits one_lease.
Proof. apply admit_ok; [by vm_compute|apply controller_ok_default]. Qed.

#[export] Instance AdmissionController_eq_dec : EqDecision AdmissionController.
Proof. solve_decision. Defined.

(** A codec that knows one value. *)
#[local] Instance one_lease_json : AdmissionJson := {|
  admission_to_vec c := if decide (c = one_lease) then Some [x7b; x7d] else None;
  admission_from_slice x :=
    if decide (x = [x7b; x7d])
    then Some (MkAdmissionStateWire (active one_lease) (last_observed_millis one_lease)) else None;
|}.
#[local] Instance one_lease_json_laws : AdmissionJsonLaws.
Proof. split; intros c x; cbn; case_decide; intros [= <-]; by subst. Qed.

Lemma admission_within_quota_witness :
  (size (leases_of (foldl (run_admission small_limits) AdmissionController_default
     [OpAdmit (sample_claim_of "first" 1000) 5; OpAdmit (sample_claim_of "second" 1000) 6]) "workspace") = 1%nat) ∧
  AdmissionController_validate (foldl (run_admission small_limits) AdmissionController_default
     [OpAdmit (sample_claim_of "first" 1000) 5; OpAdmit (sample_claim_of "second" 1000) 6]) small_limits 6 = Ok tt.
Proof.
  split; [vm_compute; reflexivity|].
  exact (proj1 (admission_within_quota small_limits
    [OpAdmit (sample_claim_of "first" 1000) 5; OpAdmit (sample_claim_of "second" 1000) 6] small_limits_u64) eq_refl).
Defined.

Lemma admit_exact_witness :
  (admit_claim one_lease (sample_claim_of "second" 10) small_limits 7).2
    = Err (ResourceExhausted "workspace concurrent request quota") ∧
  refused small_limits one_lease (admit_claim one_lease (sample_claim_of "second" 10) small_limits 7).1
    (sample_claim_of "second" 10) 7.
Proof.
  assert ((admit_claim one_lease (sample_claim_of "second" 10) small_limits 7).2
    = Err (ResourceExhausted "workspace concurrent request quota")) as Hr by (vm_compute; reflexivity).
  split; [exact Hr|].
  pose proof (admit_exact small_limits one_lease (sample_claim_of "second" 10) 7 _ _ one_lease_ok
    (surjective_pairing _)) as Hexact.
  rewrite Hr in Hexact. exact Hexact.
Defined.

Lemma expired_leases_free_the_quota_witness :
  (admit_claim one_lease (sample_claim_of "second" 10) small_limits 1005).2 = Ok tt.
Proof.
  apply (expired_leases_free_the_quota small_limits [OpAdmit (sample_claim_of "first" 1000) 5]
    (sample_claim_of "second" 10) 1005 small_limits_u64); by vm_compute.
Defined.

Lemma admission_checkpoint_roundtrip_witness :
  admission_from_json_bounded [x7b; x7d] small_limits 900 = Ok (reap_expired one_lease 900).1.
Proof.
  apply (admission_checkpoint_roundtrip small_limits one_lease 5 900 [x7b; x7d]); by vm_compute.
Defined.

Lemma validation_accepts_future_lease_witness :
  AdmissionController_validate
    (MkAdmissionController {["workspace" :=
       {["first" := MkActiveLease (sample_claim_of "first" 1000) 1000000 1001000]}]} 5) small_limits 5 = Ok tt.
Proof.
  apply (validation_accepts_future_lease small_limits (sample_claim_of "first" 1000) 5 1000000 small_limits_u64);
    by vm_compute.
Defined.
