(* ===== verification/LivePolicy.v ===== *)
(** * The live policy overlay (crate contextdb-security, policy.rs)

    The overlay of denied identities that is consulted even for old snapshots: its
    transition history, the validation that reconstructs the deny set from the
    history, denying and releasing, the signed checkpoint of its exact state, and
    its application to a restored database.

    [deny], [release] and [apply_to_restore] change nothing when they fail, so they
    return the new overlay inside the result. *)

From S2P Require Import Prelude.
From S2P Require Import Ordering.
From S2P Require Import Bytes.
From S2P Require Import Format.
From S2P Require Import Security.

Definition LIVE_POLICY_CHECKPOINT_DOMAIN : bytes := str_bytes "contextdb/live-policy-checkpoint/v1" ++ [x00].

Inductive LiveDenyReason := HardDelete | ConsentRevoked | Suppressed | RetentionExpired | SecurityQuarantine.
#[export] Instance LiveDenyReason_eq_dec : EqDecision LiveDenyReason.
Proof. solve_decision. Defined.

Record LivePolicyTransition := MkLivePolicyTransition {
  tr_generation : N;
  tr_identity : string;
  tr_reason : option LiveDenyReason;
  tr_policy_digest : string;
  tr_at_micros : Z;
}.
#[export] Instance LivePolicyTransition_eq_dec : EqDecision LivePolicyTransition.
Proof. solve_decision. Defined.

Record LivePolicyCheckpoint := MkLivePolicyCheckpoint {
  cp_database_id : string;
  cp_workspace_id : string;
  cp_generation : N;
  cp_overlay_digest : string;
  cp_signing_key_id : string;
  cp_signing_key_generation : N;
  cp_signature : bytes;
}.

Record UnsignedPolicyCheckpoint := MkUnsignedPolicyCheckpoint {
  ucp_database_id : string;
  ucp_workspace_id : string;
  ucp_generation : N;
  ucp_overlay_digest : string;
  ucp_signing_key_id : string;
  ucp_signing_key_generation : N;
}.

Record LivePolicyOverlay := MkLivePolicyOverlay {
  lp_database_id : string;
  lp_workspace_id : string;
  lp_generation : N;
  denied : gmap string LiveDenyReason;
  transitions : list LivePolicyTransition;
}.
#[export] Instance LivePolicyOverlay_eq_dec : EqDecision LivePolicyOverlay.
Proof. solve_decision. Defined.

(** ** Validation *)

(** The effect of one transition on the reconstructed deny set. *)
Definition replay_reason (reconstructed : gmap string LiveDenyReason) (t : LivePolicyTransition)
    : SecurityResult (gmap string LiveDenyReason) :=
  let hard_deleted := bool_decide (reconstructed !! tr_identity t = Some HardDelete) in
  match tr_reason t with
  | Some reason =>
      if hard_deleted && negb (bool_decide (reason = HardDelete))
      then Err (IntegrityFailure "live policy history weakens a hard deletion")
      else Ok (<[tr_identity t := reason]> reconstructed)
  | None =>
      if hard_deleted || bool_decide (reconstructed !! tr_identity t = None)
      then Err (IntegrityFailure "live policy contains an invalid release")
      else Ok (delete (tr_identity t) reconstructed)
  end.

Fixpoint replay_history (index : N) (reconstructed : gmap string LiveDenyReason) (previous : option Z)
    (ts : list LivePolicyTransition) : SecurityResult (gmap string LiveDenyReason) :=
  match ts with
  | [] => Ok reconstructed
  | t :: rest =>
      let? expected := ok_or (v ← try_from_max U64_MAX index; checked_add U64_MAX v 1)
        (ResourceExhausted "live policy generation overflow") in
      try? require_label (tr_identity t) "live_policy.identity" in
      try? require_digest (tr_policy_digest t) "live_policy.policy_digest" in
      if negb (tr_generation t =? expected)%N
         || match previous with Some time => (tr_at_micros t <? time)%Z | None => false end
      then Err (IntegrityFailure "live policy transition ordering is invalid")
      else
        let? reconstructed := replay_reason reconstructed t in
        replay_history (index + 1) reconstructed (Some (tr_at_micros t)) rest
  end.

Definition LivePolicyOverlay_validate (o : LivePolicyOverlay) : SecurityResult unit :=
  try? require_label (lp_database_id o) "live_policy.database_id" in
  try? require_label (lp_workspace_id o) "live_policy.workspace_id" in
  let? expected_generation := ok_or (try_from_max U64_MAX (len (transitions o)))
    (ResourceExhausted "live policy generation overflow") in
  if negb (lp_generation o =? expected_generation)%N
  then Err (IntegrityFailure "live policy generation does not match transition history")
  else
    let? reconstructed := replay_history 0 ∅ None (transitions o) in
    if bool_decide (reconstructed = denied o) then Ok tt
    else Err (IntegrityFailure "live policy current state does not match transition history").

(** ** Operations *)

Definition LivePolicyOverlay_new (database_id workspace_id : string) : SecurityResult LivePolicyOverlay :=
  let overlay := MkLivePolicyOverlay database_id workspace_id 0 ∅ [] in
  try? LivePolicyOverlay_validate overlay in Ok overlay.

(** [transitions.iter().rev().find(|entry| entry.identity == identity)]. *)
Definition last_for (identity : string) (ts : list LivePolicyTransition) : option LivePolicyTransition :=
  List.find (λ t, bool_decide (tr_identity t = identity)) (rev ts).

(** The latest transition of the identity is exactly this one. *)
Definition is_replay (o : LivePolicyOverlay) (identity : string) (reason : option LiveDenyReason)
    (policy_digest : string) (at_micros : Z) : bool :=
  match last_for identity (transitions o) with
  | Some t => bool_decide (tr_reason t = reason) && bool_decide (tr_policy_digest t = policy_digest)
              && (tr_at_micros t =? at_micros)%Z
  | None => false
  end.

Definition require_monotonic_time (o : LivePolicyOverlay) (at_micros : Z) : SecurityResult unit :=
  if match last (transitions o) with Some t => (at_micros <? tr_at_micros t)%Z | None => false end
  then Err (IntegrityFailure "live policy transition time regressed") else Ok tt.

(** The common end of [deny] and [release]: the next generation and its transition. *)
Definition advance (o : LivePolicyOverlay) (denied' : gmap string LiveDenyReason) (identity : string)
    (reason : option LiveDenyReason) (policy_digest : string) (at_micros : Z)
    : SecurityResult (LivePolicyOverlay * N) :=
  try? require_monotonic_time o at_micros in
  let? generation := ok_or (checked_add U64_MAX (lp_generation o) 1)
    (ResourceExhausted "live policy generation overflow") in
  Ok (MkLivePolicyOverlay (lp_database_id o) (lp_workspace_id o) generation denied'
        (transitions o ++ [MkLivePolicyTransition generation identity reason policy_digest at_micros]),
      generation).

Definition deny (o : LivePolicyOverlay) (identity : string) (reason : LiveDenyReason) (policy_digest : string)
    (at_micros : Z) : SecurityResult (LivePolicyOverlay * N) :=
  try? LivePolicyOverlay_validate o in
  try? require_label identity "live_policy.identity" in
  try? require_digest policy_digest "live_policy.policy_digest" in
  if bool_decide (denied o !! identity = Some HardDelete) && negb (bool_decide (reason = HardDelete))
  then Err (PolicyDenied "hard-deleted identity cannot be weakened")
  else if bool_decide (denied o !! identity = Some reason)
          && is_replay o identity (Some reason) policy_digest at_micros
  then Ok (o, lp_generation o)
  else advance o (<[identity := reason]> (denied o)) identity (Some reason) policy_digest at_micros.

Definition live_release (o : LivePolicyOverlay) (identity policy_digest : string) (at_micros : Z)
    : SecurityResult (LivePolicyOverlay * N) :=
  try? LivePolicyOverlay_validate o in
  try? require_label identity "live_policy.identity" in
  try? require_digest policy_digest "live_policy.policy_digest" in
  match denied o !! identity with
  | Some HardDelete => Err (PolicyDenied "hard-deleted identity cannot be released")
  | Some _ => advance o (delete identity (denied o)) identity None policy_digest at_micros
  | None =>
      if is_replay o identity None policy_digest at_micros then Ok (o, lp_generation o)
      else Err (InvalidInput "live policy cannot release an identity that is not denied")
  end.

Section checkpoints.
Context `{Blake3, Ed25519} `{Serialize LivePolicyOverlay, Serialize UnsignedPolicyCheckpoint}.

Definition overlay_checkpoint (o : LivePolicyOverlay) (k : BackupSigningKey) : SecurityResult LivePolicyCheckpoint :=
  try? LivePolicyOverlay_validate o in
  let? state := canonical_json o in
  let overlay_digest := digest state in
  let? unsigned := canonical_json (MkUnsignedPolicyCheckpoint (lp_database_id o) (lp_workspace_id o)
    (lp_generation o) overlay_digest (sk_key_id k) (sk_generation k)) in
  Ok (MkLivePolicyCheckpoint (lp_database_id o) (lp_workspace_id o) (lp_generation o) overlay_digest
        (sk_key_id k) (sk_generation k) (sign_domain k LIVE_POLICY_CHECKPOINT_DOMAIN unsigned)).

Definition verify_checkpoint (o : LivePolicyOverlay) (c : LivePolicyCheckpoint) (k : BackupVerifyingKey)
    : SecurityResult unit :=
  try? LivePolicyOverlay_validate o in
  try? require_label (cp_database_id c) "live_policy_checkpoint.database_id" in
  try? require_label (cp_workspace_id c) "live_policy_checkpoint.workspace_id" in
  try? require_digest (cp_overlay_digest c) "live_policy_checkpoint.overlay_digest" in
  let? state := canonical_json o in
  if negb (bool_decide (cp_database_id c = lp_database_id o))
     || negb (bool_decide (cp_workspace_id c = lp_workspace_id o))
     || negb (cp_generation c =? lp_generation o)%N
     || negb (bool_decide (cp_overlay_digest c = digest state))
     || negb (bool_decide (cp_signing_key_id c = vk_key_id k))
     || negb (cp_signing_key_generation c =? vk_generation k)%N
     || (cp_signing_key_generation c =? 0)%N
  then Err (IntegrityFailure "live policy checkpoint does not match exact current state")
  else
    let? unsigned := canonical_json (MkUnsignedPolicyCheckpoint (cp_database_id c) (cp_workspace_id c)
      (cp_generation c) (cp_overlay_digest c) (cp_signing_key_id c) (cp_signing_key_generation c)) in
    verify_domain k LIVE_POLICY_CHECKPOINT_DOMAIN unsigned (cp_signature c).

(** [{reason:?}]. *)
Definition reason_debug (r : LiveDenyReason) : string :=
  match r with
  | HardDelete => "HardDelete"
  | ConsentRevoked => "ConsentRevoked"
  | Suppressed => "Suppressed"
  | RetentionExpired => "RetentionExpired"
  | SecurityQuarantine => "SecurityQuarantine"
  end.

Definition authorize_before_candidate (o : LivePolicyOverlay) (identity : string) (snapshot_generation : N)
    (c : LivePolicyCheckpoint) (k : BackupVerifyingKey) : SecurityResult unit :=
  try? verify_checkpoint o c k in
  try? require_label identity "live_policy.identity" in
  match denied o !! identity with
  | Some reason => Err (PolicyDenied ("live policy denies identity: " +:+ reason_debug reason))
  | None => Ok tt
  end.

(** One transition of the live overlay applied to the candidate. *)
Definition apply_transition (candidate : LivePolicyOverlay) (t : LivePolicyTransition)
    : SecurityResult LivePolicyOverlay :=
  match tr_reason t with
  | Some reason =>
      map_ok fst (deny candidate (tr_identity t) reason (tr_policy_digest t) (tr_at_micros t))
  | None =>
      if bool_decide (denied candidate !! tr_identity t = Some HardDelete) then Ok candidate
      else map_ok fst (live_release candidate (tr_identity t) (tr_policy_digest t) (tr_at_micros t))
  end.

Definition apply_to_restore (o restored : LivePolicyOverlay) (c : LivePolicyCheckpoint) (k : BackupVerifyingKey)
    : SecurityResult LivePolicyOverlay :=
  try? verify_checkpoint o c k in
  try? LivePolicyOverlay_validate restored in
  if negb (bool_decide (lp_database_id o = lp_database_id restored))
     || negb (bool_decide (lp_workspace_id o = lp_workspace_id restored))
  then Err (PolicyDenied "live policy overlay binding does not match restore target")
  else
    let? candidate := try_fold apply_transition restored (transitions o) in
    try? LivePolicyOverlay_validate candidate in
    Ok candidate.
End checkpoints.

(** ** Histories *)

Definition last_time (previous : option Z) (ts : list LivePolicyTransition) : option Z :=
  match last ts with Some t => Some (tr_at_micros t) | None => previous end.

Lemma replay_history_app index r previous ts1 ts2 :
  replay_history index r previous (ts1 ++ ts2) =
  let? r' := replay_history index r previous ts1 in
  replay_history (index + len ts1) r' (last_time previous ts1) ts2.
Proof.
  revert index r previous; induction ts1 as [|t ts1 IH]; intros index r previous.
  - simpl. by rewrite len_nil, N.add_0_r.
  - cbn [app replay_history]. rewrite len_cons, N.add_assoc.
    destruct (ok_or _ _) as [expected|]; [|done]. cbn [result_bind].
    destruct (require_label _ _); [|done]. destruct (require_digest _ _); [|done]. cbn [result_bind].
    destruct (_ || _); [done|]. destruct (replay_reason r t) as [r'|]; [|done]. cbn [result_bind].
    rewrite IH. unfold last_time. rewrite last_cons. by destruct (last ts1).
Qed.

Lemma LivePolicyOverlay_validate_Ok o :
  LivePolicyOverlay_validate o = Ok tt ↔
  require_label (lp_database_id o) "live_policy.database_id" = Ok tt ∧
  require_label (lp_workspace_id o) "live_policy.workspace_id" = Ok tt ∧
  lp_generation o = len (transitions o) ∧ (len (transitions o) ≤ U64_MAX)%N ∧
  replay_history 0 ∅ None (transitions o) = Ok (denied o).
Proof.
  unfold LivePolicyOverlay_validate, try_from_max. rewrite !try_Ok.
  destruct (N.leb_spec (len (transitions o)) U64_MAX); cbn [ok_or result_bind]; [|split; [naive_solver|lia]].
  destruct (N.eqb_spec (lp_generation o) (len (transitions o))); cbn [negb]; [|naive_solver].
  rewrite result_bind_Ok. split.
  - intros (? & ? & d & Hd & Hr). case_bool_decide; [|done]. by subst.
  - intros (? & ? & _ & _ & Hr). split_and!; [done..|]. exists (denied o). by rewrite bool_decide_true.
Qed.

(** ** Appending a transition *)

Lemma advance_Ok o d identity reason pd t o' g :
  advance o d identity reason pd t = Ok (o', g) ↔
  require_monotonic_time o t = Ok tt ∧ g = (lp_generation o + 1)%N ∧ (g ≤ U64_MAX)%N ∧
  o' = MkLivePolicyOverlay (lp_database_id o) (lp_workspace_id o) g d
         (transitions o ++ [MkLivePolicyTransition g identity reason pd t]).
Proof.
  unfold advance. rewrite result_bind_Ok. setoid_rewrite result_bind_Ok.
  setoid_rewrite ok_or_Ok. setoid_rewrite checked_add_Some. split.
  - by intros ([] & Hm & g' & [-> Hle] & [= <- <-]).
  - intros (Hm & -> & Hle & ->). exists tt. split; [done|]. by eexists.
Qed.

Lemma advance_valid o d identity reason pd t o' g :
  LivePolicyOverlay_validate o = Ok tt →
  require_label identity "live_policy.identity" = Ok tt →
  require_digest pd "live_policy.policy_digest" = Ok tt →
  replay_reason (denied o) (MkLivePolicyTransition g identity reason pd t) = Ok d →
  advance o d identity reason pd t = Ok (o', g) → LivePolicyOverlay_validate o' = Ok tt.
Proof.
  rewrite !LivePolicyOverlay_validate_Ok. intros (Hdb & Hws & Hgen & Hlen & Hreplay) Hl Hd Hr.
  intros (Hm & -> & Hle & ->)%advance_Ok. cbn [lp_database_id lp_workspace_id lp_generation transitions denied].
  rewrite len_app, len_cons, len_nil, Hgen. split_and!; [done|done|lia|lia|].
  rewrite replay_history_app, Hreplay. cbn [result_bind replay_history]. rewrite N.add_0_l.
  unfold try_from_max. rewrite (proj2 (N.leb_le _ _)) by done. cbn [option_bind mbind].
  rewrite (proj2 (checked_add_Some _ _ _ (len (transitions o) + 1))) by lia. cbn [ok_or result_bind tr_identity tr_policy_digest].
  rewrite Hl, Hd. cbn [result_bind tr_generation tr_at_micros]. rewrite Hgen in Hr. rewrite N.eqb_refl. cbn [negb orb].
  unfold require_monotonic_time in Hm. unfold last_time.
  destruct (last (transitions o)) as [t'|]; [destruct (t <? tr_at_micros t')%Z; [done|]|]; by rewrite Hr.
Qed.

(** ** Denying and releasing *)

(** [o'] is [o] or one transition further, and is valid. *)
Record successor (o o' : LivePolicyOverlay) : Prop := {
  suc_before : LivePolicyOverlay_validate o = Ok tt;
  suc_after : LivePolicyOverlay_validate o' = Ok tt;
  suc_binding : lp_database_id o' = lp_database_id o ∧ lp_workspace_id o' = lp_workspace_id o;
  suc_history : transitions o' = transitions o ∨ ∃ t, transitions o' = transitions o ++ [t];
}.

Lemma deny_Ok o identity reason pd t o' g :
  deny o identity reason pd t = Ok (o', g) →
  successor o o' ∧ denied o' = <[identity := reason]> (denied o) ∧
  (denied o !! identity = Some HardDelete → reason = HardDelete).
Proof.
  unfold deny. intros ([] & Hv & ([] & Hl & ([] & Hp & Hd)%result_bind_Ok)%result_bind_Ok)%result_bind_Ok.
  destruct (decide (denied o !! identity = Some HardDelete ∧ reason ≠ HardDelete)) as [[Hh Hr]|Hok].
  { by rewrite (bool_decide_true _ Hh), (bool_decide_false _ Hr) in Hd. }
  assert (bool_decide (denied o !! identity = Some HardDelete) && negb (bool_decide (reason = HardDelete)) = false) as Hw.
  { case_bool_decide; [|done]. case_bool_decide; [done|]. naive_solver. }
  rewrite Hw in Hd.
  assert (denied o !! identity = Some HardDelete → reason = HardDelete) as Hhard.
  { intros. destruct (decide (reason = HardDelete)); naive_solver. }
  destruct (bool_decide (denied o !! identity = Some reason) && _) eqn:Hrep.
  - injection Hd as <- <-. apply andb_true_iff in Hrep as [Hsame%bool_decide_eq_true_1 _].
    split_and!; [|by rewrite insert_id|done]. by constructor; [..|left].
  - pose proof Hd as (_ & _ & _ & Ho')%advance_Ok. split_and!; [|by subst o'|done].
    constructor; [done| |by subst o'|right; subst o'; by eexists].
    eapply advance_valid; [done..| |exact Hd]. unfold replay_reason. cbn [tr_identity tr_reason]. by rewrite Hw.
Qed.

Lemma live_release_Ok o identity pd t o' g :
  live_release o identity pd t = Ok (o', g) →
  successor o o' ∧ denied o' = delete identity (denied o) ∧ denied o !! identity ≠ Some HardDelete.
Proof.
  unfold live_release. intros ([] & Hv & ([] & Hl & ([] & Hp & Hd)%result_bind_Ok)%result_bind_Ok)%result_bind_Ok.
  destruct (denied o !! identity) as [reason|] eqn:Hid.
  - destruct (decide (reason = HardDelete)) as [->|Hne]; [done|].
    assert (advance o (delete identity (denied o)) identity None pd t = Ok (o', g)) as Ha by (by destruct reason).
    pose proof Ha as (_ & _ & _ & Ho')%advance_Ok. split_and!; [|by subst o'|congruence].
    constructor; [done| |by subst o'|right; subst o'; by eexists].
    eapply advance_valid; [done..| |exact Ha]. unfold replay_reason. cbn [tr_identity tr_reason].
    rewrite Hid, !bool_decide_false by congruence. done.
  - destruct (is_replay _ _ _ _ _); [|done]. injection Hd as <- <-.
    split_and!; [|by rewrite delete_id|done]. by constructor; [..|left].
Qed.

(** What a transition of the live overlay does to a deny set. *)
Definition overlay_effect (d : gmap string LiveDenyReason) (t : LivePolicyTransition) : gmap string LiveDenyReason :=
  match tr_reason t with
  | Some reason => <[tr_identity t := reason]> d
  | None => if decide (d !! tr_identity t = Some HardDelete) then d else delete (tr_identity t) d
  end.

Lemma apply_transition_Ok c t c' :
  apply_transition c t = Ok c' →
  LivePolicyOverlay_validate c = Ok tt →
  LivePolicyOverlay_validate c' = Ok tt ∧ denied c' = overlay_effect (denied c) t ∧
  (∀ x, denied c !! x = Some HardDelete → denied c' !! x = Some HardDelete).
Proof.
  unfold apply_transition, overlay_effect. intros Happ Hv. destruct (tr_reason t) as [reason|].
  - destruct (deny c _ _ _ _) as [[o g]|e] eqn:Hd; [|done]. simpl in Happ. injection Happ as ->.
    apply deny_Ok in Hd as ([_ Hv' _ _] & -> & Hhard). split_and!; [done..|].
    intros x Hx. destruct (decide (x = tr_identity t)) as [->|Hne].
    + rewrite lookup_insert_eq. f_equal. by apply Hhard.
    + by rewrite lookup_insert_ne.
  - case_bool_decide as Hh.
    + injection Happ as ->. by rewrite decide_True.
    + rewrite decide_False by done. destruct (live_release c _ _ _) as [[o g]|e] eqn:Hd; [|done].
      simpl in Happ. injection Happ as ->. apply live_release_Ok in Hd as ([_ Hv' _ _] & -> & Hhard).
      split_and!; [done..|]. intros x Hx. by rewrite lookup_delete_ne by congruence.
Qed.

Lemma apply_transitions_Ok ts c c' :
  try_fold apply_transition c ts = Ok c' → LivePolicyOverlay_validate c = Ok tt →
  LivePolicyOverlay_validate c' = Ok tt ∧ denied c' = foldl overlay_effect (denied c) ts ∧
  (∀ x, denied c !! x = Some HardDelete → denied c' !! x = Some HardDelete).
Proof.
  revert c; induction ts as [|t ts IH]; intros c.
  - by intros [= <-].
  - cbn [try_fold foldl]. intros (c1 & H1 & Hts)%result_bind_Ok Hv.
    apply apply_transition_Ok in H1 as (Hv1 & Hd1 & Hh1); [|done].
    apply IH in Hts as (? & Hd & Hh); [|done]. rewrite Hd1 in Hd. eauto.
Qed.

(** Steps past a guard that returned an error. *)
Ltac past_guard H :=
  match type of H with (if ?b then Err _ else _) = Ok _ => destruct b; [discriminate H|] end.

(** The live deny set wins over the one it is applied to. *)
Lemma overlay_effect_history ts d0 d i p x :
  replay_history i ∅ p ts = Ok d →
  match d !! x with
  | Some reason => foldl overlay_effect d0 ts !! x = Some reason
  | None =>
      if decide (x ∈ tr_identity <$> ts)
      then foldl overlay_effect d0 ts !! x = None ∨ foldl overlay_effect d0 ts !! x = Some HardDelete
      else foldl overlay_effect d0 ts !! x = d0 !! x
  end.
Proof.
  revert d; induction ts as [|t ts IH] using rev_ind; intros d.
  - simpl. intros [= <-]. rewrite lookup_empty.
    destruct (decide (x ∈ [])) as [Hin|]; [by apply elem_of_nil in Hin|done].
  - rewrite replay_history_app. intros (d1 & H1 & H2)%result_bind_Ok. specialize (IH d1 H1).
    cbn [replay_history] in H2. res_inv. past_guard Hk.
    apply result_bind_Ok in Hk as (d2 & Hr & [= <-]).
    rewrite foldl_app, fmap_app. cbn [foldl fmap list_fmap]. set (f := foldl overlay_effect d0 ts) in *.
    unfold replay_reason in Hr. unfold overlay_effect.
    destruct (decide (x = tr_identity t)) as [->|Hne].
    + destruct (tr_reason t) as [reason|].
      * past_guard Hr. injection Hr as <-. by rewrite !lookup_insert_eq.
      * past_guard Hr. injection Hr as <-. rewrite lookup_delete_eq, decide_True by set_solver.
        destruct (decide (f !! _ = _)); [by right|left]. by rewrite lookup_delete_eq.
    + assert (d2 !! x = d1 !! x) as -> by (destruct (tr_reason t); past_guard Hr; injection Hr as <-;
        by rewrite ?lookup_insert_ne, ?lookup_delete_ne by congruence).
      assert ((match tr_reason t with
               | Some reason => <[tr_identity t := reason]> f
               | None => if decide (f !! tr_identity t = Some HardDelete) then f else delete (tr_identity t) f
               end) !! x = f !! x) as ->.
      { destruct (tr_reason t); [by rewrite lookup_insert_ne by congruence|].
        destruct (decide (f !! _ = _)); [done|]. by rewrite lookup_delete_ne by congruence. }
      destruct (d1 !! x); [done|]. destruct (decide (x ∈ _)); destruct (decide (x ∈ _)); set_solver.
Qed.

(** ** Properties *)

Section properties.
Context `{Blake3, Ed25519} `{Serialize LivePolicyOverlay, Serialize UnsignedPolicyCheckpoint}.

Inductive LiveOp :=
  | OpDeny (identity : string) (reason : LiveDenyReason) (policy_digest : string) (at_micros : Z)
  | OpLiveRelease (identity policy_digest : string) (at_micros : Z)
  | OpMergeLive (live : LivePolicyOverlay) (c : LivePolicyCheckpoint) (k : BackupVerifyingKey).

(** A failed operation leaves the overlay as it was. *)
Definition run_live (o : LivePolicyOverlay) (op : LiveOp) : LivePolicyOverlay :=
  match
    match op with
    | OpDeny identity reason pd t => map_ok fst (deny o identity reason pd t)
    | OpLiveRelease identity pd t => map_ok fst (live_release o identity pd t)
    | OpMergeLive live c k => apply_to_restore live o c k
    end
  with
  | Ok o' => o'
  | Err _ => o
  end.

Lemma run_live_step o op x :
  LivePolicyOverlay_validate o = Ok tt →
  LivePolicyOverlay_validate (run_live o op) = Ok tt ∧
  (denied o !! x = Some HardDelete → denied (run_live o op) !! x = Some HardDelete).
Proof.
  intros Hv. unfold run_live. destruct op as [identity reason pd t|identity pd t|live c k].
  - destruct (deny o identity reason pd t) as [[o' g]|e] eqn:Hd; [|done].
    apply deny_Ok in Hd as ([_ Hv' _ _] & Hden & Hhard). cbn [map_ok fst]. split; [done|].
    rewrite Hden. destruct (decide (x = identity)) as [->|Hne]; [|by rewrite lookup_insert_ne by congruence].
    intros Hx. rewrite lookup_insert_eq. f_equal. by apply Hhard.
  - destruct (live_release o identity pd t) as [[o' g]|e] eqn:Hd; [|done].
    apply live_release_Ok in Hd as ([_ Hv' _ _] & Hden & Hhard). cbn [map_ok fst]. split; [done|].
    rewrite Hden. intros Hx. by rewrite lookup_delete_ne by congruence.
  - destruct (apply_to_restore live o c k) as [o'|e] eqn:Ha; [|done]. unfold apply_to_restore in Ha. res_inv.
    past_guard Hk0. res_inv. match goal with H : try_fold _ _ _ = Ok _ |- _ =>
      apply apply_transitions_Ok in H as (? & _ & Hh); [|done] end. split; [done|apply Hh].
Qed.

(** C32: a hard deletion is permanent.  Starting from any valid overlay, over any
    sequence of denials, releases and merges of live overlays, whether they succeed
    or fail, the overlay stays valid (its deny set is exactly what its history
    says), and an identity that was hard-deleted stays hard-deleted and is never
    authorised again, whatever snapshot, checkpoint or key is presented. *)
Theorem hard_delete_is_permanent o ops x :
  LivePolicyOverlay_validate o = Ok tt → denied o !! x = Some HardDelete →
  let o' := foldl run_live o ops in
  LivePolicyOverlay_validate o' = Ok tt ∧ denied o' !! x = Some HardDelete ∧
  ∀ g c k, authorize_before_candidate o' x g c k ≠ Ok tt.
Proof.
  intros Hv Hx. cbv zeta.
  assert (LivePolicyOverlay_validate (foldl run_live o ops) = Ok tt ∧
    denied (foldl run_live o ops) !! x = Some HardDelete) as [Hv' Hx'].
  { revert o Hv Hx. induction ops as [|op ops IH]; intros o Hv Hx; [done|].
    destruct (run_live_step o op x Hv) as [? Hstep]. apply IH; auto. }
  split_and!; [done..|]. intros g c k. unfold authorize_before_candidate. rewrite Hx'.
  intros (? & _ & (? & _ & ?)%result_bind_Ok)%result_bind_Ok. done.
Qed.

(** applying the live overlay to a restored database lets every live denial
    win.  When it succeeds, each identity the live overlay denies is denied for the
    same reason, an identity it has released is free unless the restored database
    had it hard-deleted, an identity it never mentions is as in the restored
    database, no hard deletion of the restored database is lost, and the result is
    a valid overlay. *)
Theorem restore_live_denials_win o restored c k result :
  apply_to_restore o restored c k = Ok result →
  LivePolicyOverlay_validate result = Ok tt ∧
  ∀ x,
    match denied o !! x with
    | Some reason => denied result !! x = Some reason
    | None =>
        if decide (x ∈ tr_identity <$> transitions o)
        then denied result !! x = None ∨ denied result !! x = Some HardDelete
        else denied result !! x = denied restored !! x
    end ∧
    (denied restored !! x = Some HardDelete → denied result !! x = Some HardDelete).
Proof.
  unfold apply_to_restore. intros Ha. res_inv. past_guard Hk0. res_inv.
  match goal with H : try_fold _ _ _ = Ok _ |- _ => apply apply_transitions_Ok in H as (Hv & Hd & Hh); [|done] end.
  split; [done|]. intros x. split; [|apply Hh]. rewrite Hd. eapply overlay_effect_history.
  assert (LivePolicyOverlay_validate o = Ok tt) as Hvo by (unfold verify_checkpoint in Hm; by res_inv).
  by apply LivePolicyOverlay_validate_Ok in Hvo as (_ & _ & _ & _ & ?).
Qed.

(** an overlay whose history superseded a denial cannot be applied to a
    database that already has that history.  Whenever the first transition denied
    an identity that was released later on, at a later time, applying the overlay
    to an identical copy of itself is refused: the replayed denial is no longer the
    latest transition of its identity, so it is taken for a new one in the past. *)
Theorem restore_rejects_superseded_history o c k t ts reason last_transition :
  verify_checkpoint o c k = Ok tt →
  transitions o = t :: ts → tr_reason t = Some reason → denied o !! tr_identity t = None →
  last (transitions o) = Some last_transition → (tr_at_micros t < tr_at_micros last_transition)%Z →
  apply_to_restore o o c k = Err (IntegrityFailure "live policy transition time regressed").
Proof.
  intros Hc Hts Hreason Hfree Hlast Htime.
  assert (LivePolicyOverlay_validate o = Ok tt) as Hv by (unfold verify_checkpoint in Hc; by res_inv).
  unfold apply_to_restore. rewrite Hc, Hv. cbn [result_bind]. rewrite !bool_decide_true by done. cbn [negb orb].
  rewrite Hts. cbn [try_fold]. unfold apply_transition at 1. rewrite Hreason. unfold deny. rewrite Hv. cbn [result_bind].
  pose proof Hv as (_ & _ & _ & _ & Hr)%LivePolicyOverlay_validate_Ok. rewrite Hts in Hr. cbn [replay_history] in Hr.
  apply result_bind_Ok in Hr as (e & _ & ([] & Hl & ([] & Hp & _)%result_bind_Ok)%result_bind_Ok).
  rewrite Hl, Hp. cbn [result_bind]. rewrite Hfree, !bool_decide_false by done. cbn [andb].
  unfold advance, require_monotonic_time. rewrite Hlast, (proj2 (Z.ltb_lt _ _)) by done. done.
Qed.

(** a checkpoint binds the exact state.  What a valid key signed for an
    overlay verifies for that overlay under its public key, and no other overlay,
    older or newer, verifies against the same checkpoint, unless the texts of the
    two overlays have the same BLAKE3 hash. *)
Theorem checkpoint_binds_exact_state `{!SerializeInj LivePolicyOverlay, !Ed25519Laws} o key_id generation seed k c :
  SigningKey_new key_id generation seed = Ok k → overlay_checkpoint o k = Ok c →
  verify_checkpoint o c (verifying_key k) = Ok tt ∧
  ∀ o' k', verify_checkpoint o' c k' = Ok tt → o' = o ∨ hash_collision (json_texts [o']) (json_texts [o]).
Proof.
  intros [_ Hgen]%SigningKey_new_Ok Hc. unfold overlay_checkpoint in Hc.
  apply result_bind_Ok in Hc as ([] & Hv & (state & Hs & (unsigned & Hu & [= <-])%result_bind_Ok)%result_bind_Ok).
  split.
  - unfold verify_checkpoint. rewrite Hv. cbn [result_bind cp_database_id cp_workspace_id cp_generation
      cp_overlay_digest cp_signing_key_id cp_signing_key_generation cp_signature].
    pose proof Hv as (Hdb & Hws & _)%LivePolicyOverlay_validate_Ok.
    rewrite (require_label_Ok _ _ _ Hdb), (require_label_Ok _ _ _ Hws), digest_Ok, Hs. cbn [result_bind verifying_key vk_key_id vk_generation].
    rewrite !bool_decide_true, !N.eqb_refl by done. cbn [negb orb].
    rewrite (proj2 (N.eqb_neq _ _) Hgen), Hu. cbn [result_bind]. apply sign_domain_verifies.
  - intros o' k' Hver. unfold verify_checkpoint in Hver. cbn [cp_overlay_digest] in Hver.
    apply result_bind_Ok in Hver as (_ & _ & Hver). do 3 apply result_bind_Ok in Hver as (_ & _ & Hver).
    apply result_bind_Ok in Hver as (state' & Hs' & Hver).
    destruct (decide (digest state = digest state')) as [Heq|Hne].
    + by apply (canonical_digest_eq [o'] [o] o' o state' state); [left|left|..].
    + exfalso. by rewrite (bool_decide_false _ Hne), !orb_true_r in Hver.
Qed.
End properties.

(** ** The theorems at concrete inputs *)

#[export] Instance LiveDenyReason_countable : Countable LiveDenyReason.
Proof.
  refine (inj_countable' (λ r, match r with HardDelete => 0 | ConsentRevoked => 1 | Suppressed => 2
      | RetentionExpired => 3 | SecurityQuarantine => 4 end%N)
    (λ n, match n with 0 => HardDelete | 1 => ConsentRevoked | 2 => Suppressed | 3 => RetentionExpired
      | _ => SecurityQuarantine end%N) _). by intros [].
Defined.
#[export] Instance LivePolicyTransition_countable : Countable LivePolicyTransition.
Proof.
  refine (inj_countable' (λ t, (tr_generation t, tr_identity t, tr_reason t, tr_policy_digest t, tr_at_micros t))
    (λ '(a, b, c, d, e), MkLivePolicyTransition a b c d e) _). by intros [].
Defined.
#[export] Instance LivePolicyOverlay_countable : Countable LivePolicyOverlay.
Proof.
  refine (inj_countable' (λ o, (lp_database_id o, lp_workspace_id o, lp_generation o, denied o, transitions o))
    (λ '(a, b, c, d, e), MkLivePolicyOverlay a b c d e) _). by intros [].
Defined.
#[export] Instance UnsignedPolicyCheckpoint_eq_dec : EqDecision UnsignedPolicyCheckpoint.
Proof. solve_decision. Defined.
#[export] Instance UnsignedPolicyCheckpoint_countable : Countable UnsignedPolicyCheckpoint.
Proof.
  refine (inj_countable' (λ u, (ucp_database_id u, ucp_workspace_id u, ucp_generation u, ucp_overlay_digest u,
      ucp_signing_key_id u, ucp_signing_key_generation u))
    (λ '(a, b, c, d, e, f), MkUnsignedPolicyCheckpoint a b c d e f) _). by intros [].
Defined.

#[local] Existing Instance sample_blake3.
#[local] Existing Instance sample_ed25519.
#[local] Existing Instance sample_ed25519_laws.
#[local] Instance overlay_serialize : Serialize LivePolicyOverlay := countable_serialize.
#[local] Instance overlay_serialize_inj : SerializeInj LivePolicyOverlay := countable_serialize_inj.
#[local] Instance unsigned_serialize : Serialize UnsignedPolicyCheckpoint := countable_serialize.

Definition empty_overlay : LivePolicyOverlay := MkLivePolicyOverlay "db" "ws" 0 ∅ [].
(** Suppressed, released, and another identity hard-deleted. *)
Definition busy_overlay : LivePolicyOverlay :=
  foldl run_live empty_overlay
    [OpDeny "note" Suppressed sample_digest 1; OpLiveRelease "note" sample_digest 2;
     OpDeny "secret" HardDelete sample_digest 3].
(** The signed checkpoint of an overlay, or an empty one. *)
Definition signed_checkpoint (o : LivePolicyOverlay) : LivePolicyCheckpoint :=
  match overlay_checkpoint o sample_signing_key with
  | Ok c => c
  | Err _ => MkLivePolicyCheckpoint "" "" 0 "" "" 0 []
  end.

Lemma hard_delete_is_permanent_witness :
  denied busy_overlay !! "secret" = Some HardDelete ∧
  denied (foldl run_live busy_overlay
    [OpLiveRelease "secret" sample_digest 4; OpDeny "secret" Suppressed sample_digest 5]) !! "secret" = Some HardDelete.
Proof.
  assert (denied busy_overlay !! "secret" = Some HardDelete) as Hx by (vm_compute; reflexivity).
  split; [exact Hx|].
  assert (LivePolicyOverlay_validate busy_overlay = Ok tt) as Hv by (vm_compute; reflexivity).
  exact (proj1 (proj2 (hard_delete_is_permanent busy_overlay
    [OpLiveRelease "secret" sample_digest 4; OpDeny "secret" Suppressed sample_digest 5] "secret" Hv Hx))).
Defined.

Definition merged_overlay : LivePolicyOverlay :=
  run_live empty_overlay
    (OpMergeLive busy_overlay (signed_checkpoint busy_overlay) (verifying_key sample_signing_key)).

Lemma restore_live_denials_win_witness :
  apply_to_restore busy_overlay empty_overlay (signed_checkpoint busy_overlay) (verifying_key sample_signing_key)
    = Ok merged_overlay ∧ denied merged_overlay !! "secret" = Some HardDelete.
Proof.
  assert (apply_to_restore busy_overlay empty_overlay (signed_checkpoint busy_overlay)
    (verifying_key sample_signing_key) = Ok merged_overlay) as Ha by (vm_compute; reflexivity).
  split; [exact Ha|].
  exact (proj1 (proj2 (restore_live_denials_win busy_overlay empty_overlay (signed_checkpoint busy_overlay)
    (verifying_key sample_signing_key) merged_overlay Ha) "secret")).
Defined.

Lemma restore_rejects_superseded_history_witness :
  apply_to_restore busy_overlay busy_overlay (signed_checkpoint busy_overlay) (verifying_key sample_signing_key)
    = Err (IntegrityFailure "live policy transition time regressed").
Proof.
  apply (restore_rejects_superseded_history busy_overlay (signed_checkpoint busy_overlay)
    (verifying_key sample_signing_key) (MkLivePolicyTransition 1 "note" (Some Suppressed) sample_digest 1)
    [MkLivePolicyTransition 2 "note" None sample_digest 2;
     MkLivePolicyTransition 3 "secret" (Some HardDelete) sample_digest 3] Suppressed
    (MkLivePolicyTransition 3 "secret" (Some HardDelete) sample_digest 3)); vm_compute; reflexivity.
Defined.

Lemma checkpoint_binds_exact_state_witness :
  verify_checkpoint busy_overlay (signed_checkpoint busy_overlay) (verifying_key sample_signing_key) = Ok tt ∧
  ∀ o' k', verify_checkpoint o' (signed_checkpoint busy_overlay) k' = Ok tt →
    o' = busy_overlay ∨ hash_collision (json_texts [o']) (json_texts [busy_overlay]).
Proof.
  apply (checkpoint_binds_exact_state busy_overlay "key" 1 (replicate 32 x01) sample_signing_key);
    vm_compute; reflexivity.
Defined.
