(* ===== verification/AuditChain.v ===== *)
(** * The signed audit chain (crate contextdb-security, audit.rs)

    Content-free security events in an append-only chain in which every entry
    carries the digest of its predecessor and a signature, the signed checkpoint
    of the chain's head, and the two verifications. *)

From S2P Require Import Prelude.
From S2P Require Import Ordering.
From S2P Require Import Bytes.
From S2P Require Import Format.
From S2P Require Import Security.

Definition AUDIT_SIGNATURE_DOMAIN : bytes := str_bytes "contextdb/security-audit/v1" ++ [x00].
Definition AUDIT_CHECKPOINT_SIGNATURE_DOMAIN : bytes := str_bytes "contextdb/security-audit-checkpoint/v1" ++ [x00].
Definition GENESIS_DIGEST : string := "0000000000000000000000000000000000000000000000000000000000000000".

Inductive AuditAction :=
  | Authorize | ReadEvidence | AuditModelCall | Export | Restore | Delete | Admin | SecretPolicy | AdmissionDecision.
Inductive AuditDecision := Allow | Deny | Degraded.

Record SecurityAuditEvent := MkSecurityAuditEvent {
  timestamp_micros : Z;
  actor_digest : string;
  agent_digest : option string;
  action : AuditAction;
  resource_class : string;
  purpose : string;
  decision : AuditDecision;
  scope_digest : string;
  raw_evidence_access : bool;
  provider_digest : option string;
  export_manifest_digest : option string;
  audit_deletion_id : option string;
  trace_id : string;
}.

Definition SecurityAuditEvent_validate (e : SecurityAuditEvent) : SecurityResult unit :=
  try? require_digest (actor_digest e) "actor_digest" in
  try? require_optional_digest (agent_digest e) "agent_digest" in
  try? require_label (resource_class e) "resource_class" in
  try? require_label (purpose e) "purpose" in
  try? require_digest (scope_digest e) "scope_digest" in
  try? for_each (λ '(value, name), require_optional_digest value name)
    [(provider_digest e, "provider_digest"); (export_manifest_digest e, "export_manifest_digest")] in
  try? match audit_deletion_id e with
       | Some value => require_label value "deletion_id"
       | None => Ok tt
       end in
  require_label (trace_id e) "trace_id".

Record AuditEntry := MkAuditEntry {
  entry_sequence : N;
  entry_chain_id : string;
  previous_digest : string;
  entry_event : SecurityAuditEvent;
  entry_digest : string;
  entry_key_id : string;
  entry_signature : bytes;
}.

Record UnsignedEntry := MkUnsignedEntry {
  ue_sequence : N;
  ue_chain_id : string;
  ue_previous_digest : string;
  ue_event : SecurityAuditEvent;
}.

Record SecurityAuditCheckpoint := MkSecurityAuditCheckpoint {
  ac_chain_id : string;
  ac_sequence : N;
  ac_entry_digest : string;
  ac_key_id : string;
  ac_signature : bytes;
}.

Record UnsignedCheckpoint := MkUnsignedCheckpoint {
  uc_chain_id : string;
  uc_sequence : N;
  uc_entry_digest : string;
}.

Record SecurityAuditChain := MkSecurityAuditChain {
  audit_chain_id : string;
  audit_entries : list AuditEntry;
}.

Definition SecurityAuditChain_new (chain_id : string) : SecurityResult SecurityAuditChain :=
  try? require_label chain_id "chain_id" in Ok (MkSecurityAuditChain chain_id []).

(** The digest of the last entry, or the genesis digest. *)
Definition head_digest (entries : list AuditEntry) : string :=
  match last entries with
  | Some entry => entry_digest entry
  | None => GENESIS_DIGEST
  end.

Definition unsigned_of (e : AuditEntry) : UnsignedEntry :=
  MkUnsignedEntry (entry_sequence e) (entry_chain_id e) (previous_digest e) (entry_event e).

Section chain.
Context `{Blake3, Ed25519} `{Serialize UnsignedEntry, Serialize UnsignedCheckpoint}.

(** [checkpoint]. *)
Definition audit_checkpoint (chain : SecurityAuditChain) (k : BackupSigningKey)
    : SecurityResult SecurityAuditCheckpoint :=
  try? require_label (audit_chain_id chain) "chain_id" in
  let? sequence := ok_or (try_from_max U64_MAX (len (audit_entries chain)))
    (ResourceExhausted "audit sequence overflow") in
  let head := head_digest (audit_entries chain) in
  try? require_digest head "audit_checkpoint.entry_digest" in
  let? bs := canonical_json (MkUnsignedCheckpoint (audit_chain_id chain) sequence head) in
  Ok (MkSecurityAuditCheckpoint (audit_chain_id chain) sequence head (sk_key_id k)
        (sign_domain k AUDIT_CHECKPOINT_SIGNATURE_DOMAIN bs)).

(** [append]; the answer is the chain with the entry, which is its last. *)
Definition audit_append (chain : SecurityAuditChain) (event : SecurityAuditEvent) (k : BackupSigningKey)
    : SecurityResult SecurityAuditChain :=
  try? SecurityAuditEvent_validate event in
  if match last (audit_entries chain) with
     | Some entry => (timestamp_micros event <? timestamp_micros (entry_event entry))%Z
     | None => false
     end
  then Err (IntegrityFailure "security audit time regressed")
  else
    let? length := ok_or (try_from_max U64_MAX (len (audit_entries chain)))
      (ResourceExhausted "audit sequence overflow") in
    let? sequence := ok_or (checked_add U64_MAX length 1) (ResourceExhausted "audit sequence overflow") in
    let previous := head_digest (audit_entries chain) in
    let? bs := canonical_json (MkUnsignedEntry sequence (audit_chain_id chain) previous event) in
    let entry := digest bs in
    Ok (MkSecurityAuditChain (audit_chain_id chain)
          (audit_entries chain ++
           [MkAuditEntry sequence (audit_chain_id chain) previous event entry (sk_key_id k)
              (sign_domain k AUDIT_SIGNATURE_DOMAIN (str_bytes entry))])).

(** One iteration of the loop of [verify]. *)
Definition verify_entry (chain_id : string) (k : BackupVerifyingKey) (index : N) (previous : string)
    (previous_time : option Z) (entry : AuditEntry) : SecurityResult unit :=
  try? SecurityAuditEvent_validate (entry_event entry) in
  let? expected := ok_or (v ← try_from_max U64_MAX index; checked_add U64_MAX v 1)
    (IntegrityFailure "audit sequence overflow") in
  if negb (entry_sequence entry =? expected)%N
     || negb (bool_decide (entry_chain_id entry = chain_id))
     || negb (bool_decide (previous_digest entry = previous))
     || negb (bool_decide (entry_key_id entry = vk_key_id k))
     || match previous_time with
        | Some time => (timestamp_micros (entry_event entry) <? time)%Z
        | None => false
        end
  then Err (IntegrityFailure "audit chain metadata mismatch")
  else
    let? bs := canonical_json (unsigned_of entry) in
    if negb (bool_decide (digest bs = entry_digest entry))
    then Err (IntegrityFailure "audit entry digest mismatch")
    else verify_domain k AUDIT_SIGNATURE_DOMAIN (str_bytes (entry_digest entry)) (entry_signature entry).

Fixpoint verify_entries (chain_id : string) (k : BackupVerifyingKey) (index : N) (previous : string)
    (previous_time : option Z) (entries : list AuditEntry) : SecurityResult unit :=
  match entries with
  | [] => Ok tt
  | entry :: rest =>
      try? verify_entry chain_id k index previous previous_time entry in
      verify_entries chain_id k (index + 1) (entry_digest entry) (Some (timestamp_micros (entry_event entry))) rest
  end.

Definition audit_verify (chain : SecurityAuditChain) (k : BackupVerifyingKey) : SecurityResult unit :=
  try? require_label (audit_chain_id chain) "chain_id" in
  verify_entries (audit_chain_id chain) k 0 GENESIS_DIGEST None (audit_entries chain).

Definition verify_against_checkpoint (chain : SecurityAuditChain) (c : SecurityAuditCheckpoint)
    (k : BackupVerifyingKey) : SecurityResult unit :=
  try? audit_verify chain k in
  try? require_label (ac_chain_id c) "audit_checkpoint.chain_id" in
  try? require_digest (ac_entry_digest c) "audit_checkpoint.entry_digest" in
  if negb (bool_decide (ac_key_id c = vk_key_id k))
  then Err (IntegrityFailure "audit checkpoint signing-key identity mismatch")
  else
    let? expected := ok_or (try_from_max U64_MAX (len (audit_entries chain)))
      (ResourceExhausted "audit sequence overflow") in
    if negb (bool_decide (ac_chain_id c = audit_chain_id chain))
       || negb (ac_sequence c =? expected)%N
       || negb (bool_decide (ac_entry_digest c = head_digest (audit_entries chain)))
    then Err (IntegrityFailure "audit checkpoint does not match the complete chain head")
    else
      let? bs := canonical_json (MkUnsignedCheckpoint (ac_chain_id c) (ac_sequence c) (ac_entry_digest c)) in
      verify_domain k AUDIT_CHECKPOINT_SIGNATURE_DOMAIN bs (ac_signature c).

(** ** Lemmas *)

Definition last_entry_time (entries : list AuditEntry) : option Z := timestamp_micros ∘ entry_event <$> last entries.

Lemma verify_entries_snoc chain_id k entries entry :
  verify_entries chain_id k 0 GENESIS_DIGEST None (entries ++ [entry]) = Ok tt ↔
  verify_entries chain_id k 0 GENESIS_DIGEST None entries = Ok tt ∧
  verify_entry chain_id k (len entries) (head_digest entries) (last_entry_time entries) entry = Ok tt.
Proof.
  assert (∀ index previous time, verify_entries chain_id k index previous time (entries ++ [entry]) = Ok tt ↔
    verify_entries chain_id k index previous time entries = Ok tt ∧
    verify_entry chain_id k (index + len entries)
      match last entries with Some e => entry_digest e | None => previous end
      match last entries with Some e => Some (timestamp_micros (entry_event e)) | None => time end entry = Ok tt) as Hgen.
  { induction entries as [|e entries IH]; intros index previous time.
    - cbn [app verify_entries last]. rewrite len_nil, N.add_0_r, try_Ok. naive_solver.
    - cbn [app verify_entries]. rewrite !try_Ok, IH, len_cons, N.add_assoc, last_cons.
      destruct (last entries); naive_solver. }
  rewrite Hgen. unfold head_digest, last_entry_time. rewrite N.add_0_l. by destruct (last entries).
Qed.

(** What a verified entry is known to be. *)
Lemma verify_entry_Ok chain_id k index previous time entry :
  verify_entry chain_id k index previous time entry = Ok tt →
  entry_sequence entry = (index + 1)%N ∧ entry_chain_id entry = chain_id ∧ previous_digest entry = previous ∧
  entry_key_id entry = vk_key_id k ∧
  ∃ bs, canonical_json (unsigned_of entry) = Ok bs ∧ digest bs = entry_digest entry.
Proof.
  unfold verify_entry. intros ([] & _ & (expected & He & Hv)%result_bind_Ok)%result_bind_Ok.
  apply ok_or_Ok in He. unfold try_from_max in He. destruct (N.leb index U64_MAX); [|done].
  cbn [mbind option_bind] in He. apply checked_add_Some in He as [-> _].
  destruct (N.eqb_spec (entry_sequence entry) (index + 1)); cbn [negb orb] in Hv; [|done].
  case_bool_decide; cbn [negb orb] in Hv; [|done]. case_bool_decide; cbn [negb orb] in Hv; [|done].
  case_bool_decide; cbn [negb orb] in Hv; [|done].
  destruct (match time with Some _ => _ | None => _ end); [done|].
  apply result_bind_Ok in Hv as (bs & Hbs & Hv). case_bool_decide; cbn [negb] in Hv; [|done].
  split_and!; [done..|]. by exists bs.
Qed.

Lemma audit_append_verified `{!Ed25519Laws} chain event k chain' :
  audit_verify chain (verifying_key k) = Ok tt → audit_append chain event k = Ok chain' →
  audit_verify chain' (verifying_key k) = Ok tt.
Proof.
  unfold audit_verify. rewrite !try_Ok. intros [Hl Hv]. unfold audit_append.
  intros ([] & Hev & Happ)%result_bind_Ok.
  destruct (match last (audit_entries chain) with Some _ => _ | None => _ end) eqn:Htime; [done|].
  apply result_bind_Ok in Happ as (n & Hn & (sequence & Hs & (bs & Hbs & [= <-])%result_bind_Ok)%result_bind_Ok).
  apply ok_or_Ok in Hn, Hs. cbn [audit_chain_id audit_entries]. split; [done|].
  apply verify_entries_snoc. split; [done|]. unfold verify_entry, unsigned_of.
  cbn [entry_event entry_sequence entry_chain_id previous_digest entry_key_id entry_digest entry_signature].
  rewrite Hev, Hn. cbn [result_bind mbind option_bind]. rewrite Hs. cbn [ok_or result_bind].
  rewrite N.eqb_refl, !bool_decide_true by done. cbn [negb orb].
  replace (match last_entry_time (audit_entries chain) with
           | Some time => (timestamp_micros event <? time)%Z | None => false end) with false
    by (unfold last_entry_time; by destruct (last (audit_entries chain))).
  rewrite Hbs. cbn [result_bind]. rewrite bool_decide_true by done. apply sign_domain_verifies.
Qed.

Lemma audit_checkpoint_verified `{!Ed25519Laws} chain k c :
  audit_verify chain (verifying_key k) = Ok tt → audit_checkpoint chain k = Ok c →
  verify_against_checkpoint chain c (verifying_key k) = Ok tt.
Proof.
  intros Hv Hc. unfold audit_checkpoint in Hc. unfold verify_against_checkpoint. rewrite Hv. cbn [result_bind].
  apply result_bind_Ok in Hc as ([] & Hl & (n & Hn & ([] & Hd & (bs & Hbs & [= <-])%result_bind_Ok)%result_bind_Ok)%result_bind_Ok).
  cbn [ac_chain_id ac_sequence ac_entry_digest ac_key_id ac_signature].
  rewrite (require_label_Ok _ _ _ Hl), Hd, Hn. cbn [result_bind].
  rewrite N.eqb_refl, !bool_decide_true by done. cbn [negb orb]. rewrite Hbs. apply sign_domain_verifies.
Qed.

(** An entry without its signature: what the digest covers, and the digest. *)
Definition unsigned_part (e : AuditEntry) : UnsignedEntry * string * string :=
  (unsigned_of e, entry_digest e, entry_key_id e).

(** The texts that the digests of the entries cover. *)
Definition audit_texts (entries : list AuditEntry) : list bytes := json_texts (unsigned_of <$> entries).

(** Two verified chains of one length with the same head agree throughout. *)
Lemma verified_chains_agree `{!SerializeInj UnsignedEntry} id1 id2 k entries1 entries2 :
  verify_entries id1 k 0 GENESIS_DIGEST None entries1 = Ok tt →
  verify_entries id2 k 0 GENESIS_DIGEST None entries2 = Ok tt →
  length entries1 = length entries2 → head_digest entries1 = head_digest entries2 →
  unsigned_part <$> entries1 = unsigned_part <$> entries2 ∨ hash_collision (audit_texts entries1) (audit_texts entries2).
Proof.
  revert entries2; induction entries1 as [|e1 entries1 IH] using rev_ind; intros entries2 Hv1 Hv2 Hlen Hhead.
  { destruct entries2; [by left|done]. }
  destruct entries2 as [|e2 entries2 _] using rev_ind; [rewrite length_app in Hlen; simpl in Hlen; lia|].
  rewrite !length_app in Hlen. simpl in Hlen.
  apply verify_entries_snoc in Hv1 as [Hv1 (Hs1 & Hc1 & Hp1 & Hk1 & bs1 & Hb1 & Hd1)%verify_entry_Ok].
  apply verify_entries_snoc in Hv2 as [Hv2 (Hs2 & Hc2 & Hp2 & Hk2 & bs2 & Hb2 & Hd2)%verify_entry_Ok].
  unfold head_digest in Hhead. rewrite !last_snoc in Hhead. cbv beta iota in Hhead.
  assert (digest bs1 = digest bs2) as Hd by congruence.
  destruct (canonical_digest_eq (unsigned_of <$> entries1 ++ [e1]) (unsigned_of <$> entries2 ++ [e2]) (unsigned_of e1) (unsigned_of e2) bs1 bs2) as [Heq|?];
    [apply list_elem_of_fmap_2, elem_of_app; right; by left|apply list_elem_of_fmap_2, elem_of_app; right; by left|done|done|done| |by right].
  destruct (IH entries2 Hv1 Hv2) as [Hall|Hc]; [lia| |left|right].
  - rewrite <- Hp1, <- Hp2. by injection Heq.
  - rewrite !fmap_app, Hall. simpl. unfold unsigned_part at 2 4. by rewrite Heq, Hhead, Hk1, Hk2.
  - unfold audit_texts, json_texts. rewrite !fmap_app, !omap_app.
    eapply hash_collision_mono; [by apply list_subseteq_app_l|by apply list_subseteq_app_l|done].
Qed.

(** What a checkpoint that a chain verifies against says of the chain. *)
Lemma verify_against_checkpoint_Ok chain c k :
  verify_against_checkpoint chain c k = Ok tt →
  verify_entries (audit_chain_id chain) k 0 GENESIS_DIGEST None (audit_entries chain) = Ok tt ∧
  ac_chain_id c = audit_chain_id chain ∧ ac_sequence c = len (audit_entries chain) ∧
  ac_entry_digest c = head_digest (audit_entries chain).
Proof.
  unfold verify_against_checkpoint, audit_verify.
  intros ([] & Hv & ([] & _ & ([] & _ & Hc)%result_bind_Ok)%result_bind_Ok)%result_bind_Ok.
  apply try_Ok in Hv as [_ Hv]. split; [done|]. destruct (negb (bool_decide (ac_key_id c = _))); [done|].
  apply result_bind_Ok in Hc as (n & Hn & Hc). apply ok_or_Ok in Hn. unfold try_from_max in Hn.
  destruct (N.leb _ _); [|done]. injection Hn as <-.
  case_bool_decide; cbn [negb orb] in Hc; [|done]. destruct (N.eqb_spec (ac_sequence c) (len (audit_entries chain)));
    cbn [negb orb] in Hc; [|done]. by case_bool_decide.
Qed.

(** ** Properties *)

(** Appends the events in order, passing over the refused ones. *)
Definition append_all (k : BackupSigningKey) (chain : SecurityAuditChain) (events : list SecurityAuditEvent)
    : SecurityAuditChain :=
  foldl (λ chain event, match audit_append chain event k with Ok chain' => chain' | Err _ => chain end) chain events.

(** a chain that was only ever appended to verifies.  Whatever events are
    appended and whichever of them are refused, the chain verifies under the public
    key of the signing key, and against every checkpoint signed for its head. *)
Theorem appended_chain_verifies `{!Ed25519Laws} chain_id chain k events :
  SecurityAuditChain_new chain_id = Ok chain →
  let chain' := append_all k chain events in
  audit_verify chain' (verifying_key k) = Ok tt ∧
  ∀ c, audit_checkpoint chain' k = Ok c → verify_against_checkpoint chain' c (verifying_key k) = Ok tt.
Proof.
  intros Hnew. cbv zeta. assert (audit_verify (append_all k chain events) (verifying_key k) = Ok tt) as Hv.
  { assert (audit_verify chain (verifying_key k) = Ok tt) as Hv.
    { unfold SecurityAuditChain_new in Hnew. apply result_bind_Ok in Hnew as ([] & Hl & [= <-]).
      unfold audit_verify. by apply try_Ok. }
    clear Hnew. revert chain Hv. induction events as [|event events IH]; intros chain Hv; [done|].
    apply IH. destruct (audit_append chain event k) eqn:Ha; [|done]. by eapply audit_append_verified. }
  split; [done|]. intros c Hc. by apply audit_checkpoint_verified.
Qed.

(** C34: tampering is detected.  Once a chain verifies against a checkpoint, every
    other chain is refused against that checkpoint, even one whose own digests and
    signatures are right: one that differs in its name, its length or in the
    sequence, chain, previous digest, event, digest or key of any entry, as long as
    none of its entries was built to have the BLAKE3 hash of a different genuine
    entry.  So no dropped, truncated, reordered, altered or inserted event passes. *)
Theorem audit_tampering_detected `{!SerializeInj UnsignedEntry} genuine chain c k :
  verify_against_checkpoint genuine c k = Ok tt →
  audit_chain_id chain ≠ audit_chain_id genuine ∨
    unsigned_part <$> audit_entries chain ≠ unsigned_part <$> audit_entries genuine →
  ¬ hash_collision (audit_texts (audit_entries chain)) (audit_texts (audit_entries genuine)) →
  ∃ error, verify_against_checkpoint chain c k = Err error.
Proof.
  intros (Hv1 & Hi1 & Hs1 & Hd1)%verify_against_checkpoint_Ok Hdiff Hno.
  destruct (verify_against_checkpoint chain c k) as [[]|error] eqn:Hv; [exfalso|by exists error].
  apply verify_against_checkpoint_Ok in Hv as (Hv2 & Hi2 & Hs2 & Hd2).
  destruct Hdiff as [Hdiff|Hdiff]; [congruence|].
  destruct (verified_chains_agree _ _ _ _ _ Hv2 Hv1) as [Heq|Hc]; [unfold len in *; lia|congruence|done|done].
Qed.
End chain.

(** ** The theorems at concrete inputs *)

#[export] Instance AuditAction_eq_dec : EqDecision AuditAction.
Proof. solve_decision. Defined.
#[export] Instance AuditAction_countable : Countable AuditAction.
Proof.
  refine (inj_countable' (λ a, match a with Authorize => 0 | ReadEvidence => 1 | AuditModelCall => 2 | Export => 3
      | Restore => 4 | Delete => 5 | Admin => 6 | SecretPolicy => 7 | AdmissionDecision => 8 end%N)
    (λ n, match n with 0 => Authorize | 1 => ReadEvidence | 2 => AuditModelCall | 3 => Export
      | 4 => Restore | 5 => Delete | 6 => Admin | 7 => SecretPolicy | _ => AdmissionDecision end%N) _). by intros [].
Defined.
#[export] Instance AuditDecision_eq_dec : EqDecision AuditDecision.
Proof. solve_decision. Defined.
#[export] Instance AuditDecision_countable : Countable AuditDecision.
Proof.
  refine (inj_countable' (λ a, match a with Allow => 0 | Deny => 1 | Degraded => 2 end%N)
    (λ n, match n with 0 => Allow | 1 => Deny | _ => Degraded end%N) _). by intros [].
Defined.
#[export] Instance SecurityAuditEvent_eq_dec : EqDecision SecurityAuditEvent.
Proof. solve_decision. Defined.
(** Fields side by side, which keeps the texts short. *)
Definition event_fields (e : SecurityAuditEvent) : list positive :=
  [encode (timestamp_micros e); encode (actor_digest e); encode (agent_digest e); encode (action e); encode (resource_class e); encode (purpose e); encode (decision e); encode (scope_digest e); encode (raw_evidence_access e); encode (provider_digest e); encode (export_manifest_digest e); encode (audit_deletion_id e); encode (trace_id e)].
Definition event_of_fields (l : list positive) : option SecurityAuditEvent :=
  match l with
  | [a; b; c; d; e; f; g; h; i; j; k; l; m] =>
      a ← decode a; b ← decode b; c ← decode c; d ← decode d; e ← decode e; f ← decode f; g ← decode g; h ← decode h; i ← decode i; j ← decode j; k ← decode k; l ← decode l; m ← decode m;
      Some (MkSecurityAuditEvent a b c d e f g h i j k l m)
  | _ => None
  end.
Lemma event_of_event_fields e : event_of_fields (event_fields e) = Some e.
Proof. unfold event_fields, event_of_fields. rewrite !decode_encode. by destruct e. Qed.
#[export] Instance SecurityAuditEvent_countable : Countable SecurityAuditEvent :=
  inj_countable event_fields event_of_fields event_of_event_fields.
#[export] Instance UnsignedEntry_eq_dec : EqDecision UnsignedEntry.
Proof. solve_decision. Defined.
Definition entry_fields (u : UnsignedEntry) : list positive :=
  [encode (ue_sequence u); encode (ue_chain_id u); encode (ue_previous_digest u); encode (ue_event u)].
Definition entry_of_fields (l : list positive) : option UnsignedEntry :=
  match l with
  | [a; b; c; d] => a ← decode a; b ← decode b; c ← decode c; d ← decode d; Some (MkUnsignedEntry a b c d)
  | _ => None
  end.
Lemma entry_of_entry_fields u : entry_of_fields (entry_fields u) = Some u.
Proof. unfold entry_fields, entry_of_fields. rewrite !decode_encode. by destruct u. Qed.
#[export] Instance UnsignedEntry_countable : Countable UnsignedEntry :=
  inj_countable entry_fields entry_of_fields entry_of_entry_fields.
#[export] Instance UnsignedCheckpoint_eq_dec : EqDecision UnsignedCheckpoint.
Proof. solve_decision. Defined.
#[export] Instance UnsignedCheckpoint_countable : Countable UnsignedCheckpoint.
Proof.
  refine (inj_countable' (λ u, (uc_chain_id u, uc_sequence u, uc_entry_digest u))
    (λ '(a, b, c), MkUnsignedCheckpoint a b c) _). by intros [].
Defined.

#[local] Existing Instance polynomial_blake3.
#[local] Existing Instance sample_ed25519.
#[local] Existing Instance sample_ed25519_laws.
#[local] Instance entry_serialize : Serialize UnsignedEntry := countable_serialize.
#[local] Instance entry_serialize_inj : SerializeInj UnsignedEntry := countable_serialize_inj.
#[local] Instance checkpoint_serialize : Serialize UnsignedCheckpoint := countable_serialize.

Definition sample_audit_event (t : Z) : SecurityAuditEvent :=
  MkSecurityAuditEvent t sample_digest None ReadEvidence "evidence" "recall" Allow sample_digest true None None None
    "trace".
Definition empty_chain : SecurityAuditChain := MkSecurityAuditChain "chain" [].
(** Two events; one in the past, which is refused, between them. *)
Definition sample_chain_events : list SecurityAuditEvent :=
  [sample_audit_event 5; sample_audit_event 3; sample_audit_event 7].
Definition sample_audit_chain : SecurityAuditChain := append_all sample_signing_key empty_chain sample_chain_events.
Definition sample_chain_checkpoint : SecurityAuditCheckpoint :=
  match audit_checkpoint sample_audit_chain sample_signing_key with
  | Ok c => c
  | Err _ => MkSecurityAuditCheckpoint "" 0 "" "" []
  end.

Lemma appended_chain_verifies_witness :
  length (audit_entries sample_audit_chain) = 2%nat ∧
  audit_verify sample_audit_chain (verifying_key sample_signing_key) = Ok tt.
Proof.
  split; [vm_compute; reflexivity|].
  exact (proj1 (appended_chain_verifies "chain" empty_chain sample_signing_key sample_chain_events
    ltac:(vm_compute; reflexivity))).
Defined.

(** Somebody with the signing key rewrites the second event and signs the chain
    again. *)
Definition rewritten_chain : SecurityAuditChain :=
  append_all sample_signing_key empty_chain [sample_audit_event 5; sample_audit_event 8].

Lemma audit_tampering_detected_witness :
  audit_verify rewritten_chain (verifying_key sample_signing_key) = Ok tt ∧
  ∃ error, verify_against_checkpoint rewritten_chain sample_chain_checkpoint (verifying_key sample_signing_key) = Err error.
Proof.
  split; [vm_compute; reflexivity|].
  apply (audit_tampering_detected sample_audit_chain rewritten_chain sample_chain_checkpoint (verifying_key sample_signing_key)).
  - vm_compute. reflexivity.
  - right. intros Heq%(f_equal (λ l, (λ p, timestamp_micros (ue_event p.1.1)) <$> last l)). vm_compute in Heq. discriminate Heq.
  - apply (bool_decide_eq_false_1 _). vm_compute. reflexivity.
Defined.
