(* ===== verification/Deletion.v ===== *)
(** * Deletion workflows and receipts (crate contextdb-security, deletion.rs)

    The workflow that suppresses an identity at once, collects the disposition of
    every dependent target, and seals a signed receipt when all are resolved and
    independently verified; and the verification of such a receipt.  The evidence
    verifier is a trait of the source: class [DeletionEvidenceVerifier]. *)

From S2P Require Import Prelude.
From S2P Require Import Ordering.
From S2P Require Import Bytes.
From S2P Require Import Format.
From S2P Require Import Security.

Definition DELETION_SIGNATURE_DOMAIN : bytes := str_bytes "contextdb/deletion-receipt/v1" ++ [x00].

Inductive DeletionTargetClass :=
  | PrimaryContent | Episode | ClassEvidence | SemanticMemory | ClassSummary | Embedding | AnnIndex | LexicalIndex
  | Cache | CheckpointOrHandoff | ProviderCopy | ClassExport | Backup.
#[export] Instance DeletionTargetClass_eq_dec : EqDecision DeletionTargetClass.
Proof. solve_decision. Defined.

Inductive DeletionDisposition :=
  | SuppressedPending | Deleted | Rebuilt | CryptographicallyErased | ProvenAbsent | ExternalReceipt.
#[export] Instance DeletionDisposition_eq_dec : EqDecision DeletionDisposition.
Proof. solve_decision. Defined.

Definition is_complete (d : DeletionDisposition) : bool :=
  match d with
  | SuppressedPending => false
  | _ => true
  end.

Record DeletionTarget := MkDeletionTarget {
  target_id : string;
  target_class : DeletionTargetClass;
  disposition : DeletionDisposition;
  verification_digest : option string;
  updated_at_micros : Z;
}.
#[export] Instance DeletionTarget_eq_dec : EqDecision DeletionTarget.
Proof. solve_decision. Defined.

(** The trait [DeletionEvidenceVerifier]. *)
Class DeletionEvidenceVerifier := {
  verify_target : string → string → string → DeletionTarget → SecurityResult unit;
  verify_closure : string → string → string → gset string → list DeletionTarget → SecurityResult unit;
}.

Record DeletionReceipt := MkDeletionReceipt {
  dr_deletion_id : string;
  dr_workspace_id : string;
  dr_root_lineage_digest : string;
  dr_policy_digest : string;
  dr_requested_at : Z;
  dr_completed_at : Z;
  dr_targets : list DeletionTarget;
  dr_receipt_digest : string;
  dr_key_id : string;
  dr_signature : bytes;
}.

Record UnsignedReceipt := MkUnsignedReceipt {
  ur_deletion_id : string;
  ur_workspace_id : string;
  ur_root_lineage_digest : string;
  ur_policy_digest : string;
  ur_requested_at : Z;
  ur_completed_at : Z;
  ur_targets : list DeletionTarget;
}.

Record DeletionWorkflow := MkDeletionWorkflow {
  dw_deletion_id : string;
  dw_workspace_id : string;
  dw_root_lineage_digest : string;
  dw_policy_digest : string;
  dw_requested_at : Z;
  suppressed_ids : gset string;
  targets : gmap string DeletionTarget;
}.

Definition mandatory_target_classes : list DeletionTargetClass :=
  [PrimaryContent; Episode; ClassEvidence; SemanticMemory; ClassSummary; Embedding; AnnIndex; LexicalIndex;
   Cache; CheckpointOrHandoff; ProviderCopy; ClassExport; Backup].

Definition class_debug (c : DeletionTargetClass) : string :=
  match c with
  | PrimaryContent => "PrimaryContent"
  | Episode => "Episode"
  | ClassEvidence => "Evidence"
  | SemanticMemory => "SemanticMemory"
  | ClassSummary => "Summary"
  | Embedding => "Embedding"
  | AnnIndex => "AnnIndex"
  | LexicalIndex => "LexicalIndex"
  | Cache => "Cache"
  | CheckpointOrHandoff => "CheckpointOrHandoff"
  | ProviderCopy => "ProviderCopy"
  | ClassExport => "Export"
  | Backup => "Backup"
  end.

Definition validate_target (t : DeletionTarget) : SecurityResult unit :=
  try? require_label (target_id t) "deletion_target_id" in
  require_optional_digest (verification_digest t) "deletion_verification_digest".

(** ** The workflow *)

Definition DeletionWorkflow_new (deletion_id workspace_id root_lineage_digest policy_digest : string)
    (requested_at : Z) (immediately_suppressed : gset string) : SecurityResult DeletionWorkflow :=
  try? require_label deletion_id "deletion_id" in
  try? require_label workspace_id "workspace_id" in
  try? require_digest root_lineage_digest "root_lineage_digest" in
  try? require_digest policy_digest "policy_digest" in
  if bool_decide (immediately_suppressed = ∅)
  then Err (InvalidInput "deletion must immediately suppress at least one lineage identity")
  else
    try? for_each (λ identity, require_label identity "suppressed_id") (bt_elements immediately_suppressed) in
    Ok (MkDeletionWorkflow deletion_id workspace_id root_lineage_digest policy_digest requested_at
          immediately_suppressed ∅).

Definition is_suppressed (w : DeletionWorkflow) (identity : string) : bool :=
  bool_decide (identity ∈ suppressed_ids w).

Definition with_suppressed (w : DeletionWorkflow) (s : gset string) : DeletionWorkflow :=
  MkDeletionWorkflow (dw_deletion_id w) (dw_workspace_id w) (dw_root_lineage_digest w) (dw_policy_digest w)
    (dw_requested_at w) s (targets w).
Definition with_targets (w : DeletionWorkflow) (ts : gmap string DeletionTarget) : DeletionWorkflow :=
  MkDeletionWorkflow (dw_deletion_id w) (dw_workspace_id w) (dw_root_lineage_digest w) (dw_policy_digest w)
    (dw_requested_at w) (suppressed_ids w) ts.

Definition suppress_dependency (w : DeletionWorkflow) (identity : string)
    : DeletionWorkflow * SecurityResult unit :=
  match require_label identity "suppressed_dependency" with
  | Err e => (w, Err e)
  | Ok _ => (with_suppressed w (suppressed_ids w ∪ {[identity]}), Ok tt)
  end.

(** The identity is suppressed before a conflicting update is refused. *)
Definition record_target (w : DeletionWorkflow) (t : DeletionTarget) : DeletionWorkflow * SecurityResult unit :=
  match validate_target t with
  | Err e => (w, Err e)
  | Ok _ =>
      if (updated_at_micros t <? dw_requested_at w)%Z
      then (w, Err (IntegrityFailure "deletion target update predates the workflow"))
      else
        let w := with_suppressed w (suppressed_ids w ∪ {[target_id t]}) in
        let recorded := with_targets w (<[target_id t := t]> (targets w)) in
        match targets w !! target_id t with
        | Some previous =>
            if bool_decide (previous = t) then (w, Ok tt)
            else if (updated_at_micros t <=? updated_at_micros previous)%Z || is_complete (disposition previous)
            then (w, Err (IntegrityFailure "deletion target regressed or was rewritten"))
            else (recorded, Ok tt)
        | None => (recorded, Ok tt)
        end
  end.

Section receipts.
Context `{Blake3, Ed25519} `{Serialize UnsignedReceipt}.

(** [complete]. *)
Definition complete_deletion `{DeletionEvidenceVerifier} (w : DeletionWorkflow) (completed_at : Z)
    (k : BackupSigningKey) : SecurityResult DeletionReceipt :=
  if (completed_at <? dw_requested_at w)%Z then Err (InvalidInput "deletion completion predates request")
  else
    let values := bt_values (targets w) in
    try? for_each (λ class,
      if existsb (λ t, bool_decide (target_class t = class)) values then Ok tt
      else Err (DeletionIncomplete ("missing disposition for " +:+ class_debug class))) mandatory_target_classes in
    if existsb (λ t, negb (is_complete (disposition t)) || bool_decide (verification_digest t = None)
                     || (completed_at <? updated_at_micros t)%Z) values
    then Err (DeletionIncomplete "one or more targets remain pending or unverified")
    else
      try? for_each (verify_target (dw_deletion_id w) (dw_workspace_id w) (dw_root_lineage_digest w)) values in
      try? verify_closure (dw_deletion_id w) (dw_workspace_id w) (dw_root_lineage_digest w) (suppressed_ids w) values in
      let? bs := canonical_json (MkUnsignedReceipt (dw_deletion_id w) (dw_workspace_id w)
        (dw_root_lineage_digest w) (dw_policy_digest w) (dw_requested_at w) completed_at values) in
      let receipt := digest bs in
      Ok (MkDeletionReceipt (dw_deletion_id w) (dw_workspace_id w) (dw_root_lineage_digest w) (dw_policy_digest w)
            (dw_requested_at w) completed_at values receipt (sk_key_id k)
            (sign_domain k DELETION_SIGNATURE_DOMAIN (str_bytes receipt))).

(** The loop of [DeletionReceipt::verify] over the targets. *)
Fixpoint verify_targets (requested_at completed_at : Z) (seen : gset string) (ts : list DeletionTarget)
    : SecurityResult unit :=
  match ts with
  | [] => Ok tt
  | t :: rest =>
      try? validate_target t in
      if bool_decide (target_id t ∈ seen)
      then Err (IntegrityFailure "deletion receipt contains duplicate target identities")
      else if negb (is_complete (disposition t)) || bool_decide (verification_digest t = None)
      then Err (DeletionIncomplete "receipt contains an incomplete target")
      else if (updated_at_micros t <? requested_at)%Z || (completed_at <? updated_at_micros t)%Z
      then Err (IntegrityFailure "deletion receipt target time is outside the workflow interval")
      else verify_targets requested_at completed_at (seen ∪ {[target_id t]}) rest
  end.

Definition unsigned_receipt (r : DeletionReceipt) : UnsignedReceipt :=
  MkUnsignedReceipt (dr_deletion_id r) (dr_workspace_id r) (dr_root_lineage_digest r) (dr_policy_digest r)
    (dr_requested_at r) (dr_completed_at r) (dr_targets r).

Definition DeletionReceipt_verify (r : DeletionReceipt) (k : BackupVerifyingKey) : SecurityResult unit :=
  if negb (bool_decide (dr_key_id r = vk_key_id k)) then Err (IntegrityFailure "deletion receipt key ID mismatch")
  else
    try? require_label (dr_deletion_id r) "deletion_id" in
    try? require_label (dr_workspace_id r) "workspace_id" in
    try? require_digest (dr_root_lineage_digest r) "root_lineage_digest" in
    try? require_digest (dr_policy_digest r) "policy_digest" in
    try? require_digest (dr_receipt_digest r) "receipt_digest" in
    if (dr_completed_at r <? dr_requested_at r)%Z
    then Err (IntegrityFailure "deletion receipt completion predates request")
    else
      try? verify_targets (dr_requested_at r) (dr_completed_at r) ∅ (dr_targets r) in
      try? for_each (λ class,
        if existsb (λ t, bool_decide (target_class t = class)) (dr_targets r) then Ok tt
        else Err (DeletionIncomplete ("receipt is missing disposition for " +:+ class_debug class)))
        mandatory_target_classes in
      let? bs := canonical_json (unsigned_receipt r) in
      if negb (bool_decide (digest bs = dr_receipt_digest r))
      then Err (IntegrityFailure "deletion receipt digest mismatch")
      else verify_domain k DELETION_SIGNATURE_DOMAIN (str_bytes (dr_receipt_digest r)) (dr_signature r).
End receipts.

(** ** Lemmas *)

Lemma mandatory_target_classes_all class : class ∈ mandatory_target_classes.
Proof. destruct class; unfold mandatory_target_classes; set_solver. Qed.

Lemma classes_covered (ts : list DeletionTarget) (error : DeletionTargetClass → SecurityError) :
  for_each (λ class, if existsb (λ t, bool_decide (target_class t = class)) ts then Ok tt else Err (error class))
    mandatory_target_classes = Ok tt ↔
  ∀ class, ∃ t, t ∈ ts ∧ target_class t = class.
Proof.
  rewrite for_each_Ok, Forall_forall.
  assert (∀ class, (if existsb (λ t, bool_decide (target_class t = class)) ts then Ok tt else Err (error class)) = Ok tt ↔
    ∃ t, t ∈ ts ∧ target_class t = class) as Hone.
  { intros class. destruct (existsb _ ts) eqn:Hex.
    - split; [intros _|done]. apply existsb_exists in Hex as (t & Hin & Ht%bool_decide_eq_true_1).
      exists t. by rewrite list_elem_of_In.
    - split; [done|]. intros (t & Hin & Ht). exfalso. rewrite <- not_true_iff_false in Hex. apply Hex.
      apply existsb_exists. exists t. rewrite <- list_elem_of_In. by rewrite bool_decide_true. }
  split; [intros Hall class; apply Hone, Hall, mandatory_target_classes_all|]. intros Hall class _. by apply Hone.
Qed.

(** Everything the workflow keeps true of its targets. *)
Record workflow_ok (w : DeletionWorkflow) : Prop := {
  wf_deletion : require_label (dw_deletion_id w) "deletion_id" = Ok tt;
  wf_workspace : require_label (dw_workspace_id w) "workspace_id" = Ok tt;
  wf_lineage : require_digest (dw_root_lineage_digest w) "root_lineage_digest" = Ok tt;
  wf_policy : require_digest (dw_policy_digest w) "policy_digest" = Ok tt;
  wf_targets : map_Forall (λ id t, target_id t = id ∧ validate_target t = Ok tt ∧
    (dw_requested_at w ≤ updated_at_micros t)%Z ∧ id ∈ suppressed_ids w) (targets w);
}.

(** What may change from [w] to [w']: identities are only added to the overlay, a
    target only moves forward in time, and a completed one does not change. *)
Record progress (w w' : DeletionWorkflow) : Prop := {
  pg_identity : dw_deletion_id w' = dw_deletion_id w ∧ dw_workspace_id w' = dw_workspace_id w ∧
    dw_requested_at w' = dw_requested_at w;
  pg_suppressed : suppressed_ids w ⊆ suppressed_ids w';
  pg_targets : ∀ id t, targets w !! id = Some t → ∃ t', targets w' !! id = Some t' ∧
    (t' = t ∨ (updated_at_micros t < updated_at_micros t')%Z ∧ is_complete (disposition t) = false);
}.

Lemma progress_refl w : progress w w.
Proof. constructor; [done|done|]. intros id t Ht. exists t. auto. Qed.

Lemma progress_trans w1 w2 w3 : progress w1 w2 → progress w2 w3 → progress w1 w3.
Proof.
  intros [(A1 & A2 & A3) B C] [(A1' & A2' & A3') B' C']. constructor; [split_and!; congruence|set_solver|].
  intros id t (t' & Ht' & Hs)%C. destruct (C' id t' Ht') as (t'' & Ht'' & Hs').
  exists t''. split; [done|]. destruct Hs as [->|[? ?]], Hs' as [->|[? ?]]; auto. right. split; [lia|done].
Qed.

Lemma workflow_ok_new id ws root pd t s w : DeletionWorkflow_new id ws root pd t s = Ok w → workflow_ok w.
Proof.
  unfold DeletionWorkflow_new. intros Hw. res_inv. case_bool_decide; [done|]. res_inv.
  constructor; cbn; [done..|]. apply map_Forall_empty.
Qed.

Lemma workflow_ok_suppressed w s : workflow_ok w → suppressed_ids w ⊆ s → workflow_ok (with_suppressed w s).
Proof.
  intros [] Hs. constructor; cbn; [done..|]. intros id t Ht. destruct (wf_targets0 id t Ht) as (? & ? & ? & ?).
  split_and!; [done..|set_solver].
Qed.

Lemma progress_suppressed w s : suppressed_ids w ⊆ s → progress w (with_suppressed w s).
Proof. intros Hs. constructor; cbn; [done|done|]. intros id t Ht. exists t. auto. Qed.

Lemma suppress_dependency_ok w identity :
  workflow_ok w → workflow_ok (suppress_dependency w identity).1 ∧ progress w (suppress_dependency w identity).1.
Proof.
  intros Hok. unfold suppress_dependency. destruct (require_label _ _); cbn [fst].
  - split; [apply workflow_ok_suppressed; [done|]|apply progress_suppressed]; set_solver.
  - split; [done|apply progress_refl].
Qed.

Lemma record_target_ok w t :
  workflow_ok w → workflow_ok (record_target w t).1 ∧ progress w (record_target w t).1.
Proof.
  intros Hok. unfold record_target. destruct (validate_target t) as [[]|] eqn:Hv; [|split; [done|apply progress_refl]].
  destruct (Z.ltb_spec (updated_at_micros t) (dw_requested_at w)); [split; [done|apply progress_refl]|].
  cbv zeta. set (w1 := with_suppressed w (suppressed_ids w ∪ {[target_id t]})).
  assert (workflow_ok w1) as Hok1 by (apply workflow_ok_suppressed; [done|set_solver]).
  assert (progress w w1) as Hp1 by (apply progress_suppressed; set_solver).
  assert (workflow_ok (with_targets w1 (<[target_id t := t]> (targets w1)))) as Hok2.
  { destruct Hok1. constructor; cbn; [done..|]. apply map_Forall_insert_2; [|done]. split_and!; [done|done|done|set_solver]. }
  assert ((∀ previous, targets w1 !! target_id t = Some previous →
    (updated_at_micros previous < updated_at_micros t)%Z ∧ is_complete (disposition previous) = false) →
    progress w (with_targets w1 (<[target_id t := t]> (targets w1)))) as Hp2.
  { intros Hprev. eapply progress_trans; [exact Hp1|]. constructor; [done|done|]. cbn [targets with_targets].
    intros id t' Ht'. destruct (decide (id = target_id t)) as [->|Hne].
    - exists t. rewrite lookup_insert_eq. auto.
    - exists t'. rewrite lookup_insert_ne by done. auto. }
  change (targets (with_suppressed w (suppressed_ids w ∪ {[target_id t]}))) with (targets w1).
  destruct (targets w1 !! target_id t) as [previous|] eqn:Hid; [|by split; [|apply Hp2]].
  case_bool_decide; [done|].
  destruct (Z.leb_spec (updated_at_micros t) (updated_at_micros previous)); cbn [orb]; [done|].
  destruct (is_complete (disposition previous)) eqn:Hc; [done|]. split; [done|]. apply Hp2. by intros ? [= <-].
Qed.

Inductive DeletionOp := OpSuppress (identity : string) | OpRecordTarget (t : DeletionTarget).

Definition run_deletion (w : DeletionWorkflow) (op : DeletionOp) : DeletionWorkflow :=
  match op with
  | OpSuppress identity => (suppress_dependency w identity).1
  | OpRecordTarget t => (record_target w t).1
  end.

Lemma run_deletions_ok w ops :
  workflow_ok w → workflow_ok (foldl run_deletion w ops) ∧ progress w (foldl run_deletion w ops).
Proof.
  revert w; induction ops as [|op ops IH]; intros w Hok; [split; [done|apply progress_refl]|].
  assert (workflow_ok (run_deletion w op) ∧ progress w (run_deletion w op)) as [Hok1 Hp1]
    by (destruct op; [by apply suppress_dependency_ok|by apply record_target_ok]).
  destruct (IH _ Hok1) as [? ?]. split; [done|]. by eapply progress_trans.
Qed.

Lemma verify_targets_Ok requested completed seen ts :
  verify_targets requested completed seen ts = Ok tt ↔
  Forall (λ t, validate_target t = Ok tt ∧ is_complete (disposition t) = true ∧ verification_digest t ≠ None ∧
    (requested ≤ updated_at_micros t ≤ completed)%Z ∧ target_id t ∉ seen) ts ∧ NoDup (target_id <$> ts).
Proof.
  revert seen; induction ts as [|t ts IH]; intros seen; cbn [verify_targets fmap list_fmap].
  { split; [|done]. intros _. split; [constructor|apply NoDup_nil_2]. }
  rewrite try_Ok, Forall_cons, NoDup_cons. split.
  - intros [Hv Hrest]. case_bool_decide as Hseen; [done|].
    destruct (is_complete (disposition t)); cbn [negb orb] in Hrest; [|done].
    case_bool_decide as Hdig; [done|].
    destruct (Z.ltb_spec (updated_at_micros t) requested); cbn [orb] in Hrest; [done|].
    destruct (Z.ltb_spec completed (updated_at_micros t)); [done|].
    apply IH in Hrest as [Hall Hnd]. rewrite Forall_forall in Hall |- *. split_and!; try done.
    + intros t' Ht'. destruct (Hall t' Ht') as (? & ? & ? & ? & ?). split_and!; try done; lia || set_solver.
    + intros (t' & Heq & Ht')%list_elem_of_fmap. destruct (Hall t' Ht') as (_ & _ & _ & _ & Hn).
      apply Hn. rewrite Heq. set_solver.
  - intros [[(Hv & -> & Hd & Ht & Hs) Hall] [Hnin Hnd]]. split; [done|].
    rewrite !bool_decide_false by done. cbn [negb orb].
    rewrite (proj2 (Z.ltb_ge _ _)) by lia. rewrite (proj2 (Z.ltb_ge _ _)) by lia. cbn [orb].
    apply IH. split; [|done]. rewrite Forall_forall in Hall |- *. intros t' Ht'.
    destruct (Hall t' Ht') as (? & ? & ? & ? & ?). split_and!; try done; [lia..|].
    intros [Hin|Heq%elem_of_singleton]%elem_of_union; [done|]. apply Hnin. rewrite list_elem_of_fmap. eauto.
Qed.

Lemma NoDup_target_ids (m : gmap string DeletionTarget) :
  map_Forall (λ id t, target_id t = id) m → NoDup (target_id <$> bt_values m).
Proof.
  intros Hid. assert (target_id <$> bt_values m = bt_keys m) as ->.
  { unfold bt_values, bt_keys. rewrite <- list_fmap_compose. apply list_fmap_ext. intros i [k t] Hk.
    apply list_elem_of_lookup_2, bt_entries_elem in Hk. by apply Hid in Hk. }
  unfold bt_keys. rewrite bt_entries_Permutation. apply NoDup_fst_map_to_list.
Qed.

(** ** Properties *)

Section properties.
Context `{Blake3, Ed25519} `{Serialize UnsignedReceipt}.

(** deletion only moves forward.  From any point of a workflow on, whatever
    is recorded or suppressed and whether it is accepted or refused, no identity is
    ever released from the deny overlay, every recorded target is in the overlay, a
    target changes only to a later state, and a completed target never changes. *)
Theorem deletion_only_progresses deletion_id workspace root policy requested suppressed w0 ops1 ops2 :
  DeletionWorkflow_new deletion_id workspace root policy requested suppressed = Ok w0 →
  let w := foldl run_deletion w0 ops1 in
  let w' := foldl run_deletion w ops2 in
  progress w w' ∧ suppressed ⊆ suppressed_ids w' ∧
  ∀ id t, targets w' !! id = Some t → is_suppressed w' id = true ∧ (requested ≤ updated_at_micros t)%Z.
Proof.
  intros Hnew. cbv zeta. pose proof (workflow_ok_new _ _ _ _ _ _ _ Hnew) as Hok0.
  assert (dw_requested_at w0 = requested ∧ suppressed_ids w0 = suppressed) as [Hreq Hsup].
  { unfold DeletionWorkflow_new in Hnew. res_inv. case_bool_decide; [done|]. by res_inv. }
  destruct (run_deletions_ok w0 ops1 Hok0) as [Hok1 Hp1]. destruct (run_deletions_ok _ ops2 Hok1) as [Hok2 Hp2].
  pose proof (progress_trans _ _ _ Hp1 Hp2) as [(_ & _ & Hr) Hs _]. split_and!; [done|by rewrite <- Hsup|].
  intros id t Ht. destruct (wf_targets _ Hok2 id t Ht) as (_ & _ & Hle & Hin).
  unfold is_suppressed. rewrite bool_decide_true by done. split; [done|]. congruence.
Qed.

(** a sealed receipt is complete and verifies.  When a workflow seals a
    receipt, the evidence verifier accepted every target and their closure, all
    thirteen target classes are covered, every target is resolved with a
    verification digest and suppressed, and the receipt verifies under the public
    key of the signing key. *)
Theorem sealed_receipt_verifies `{!Ed25519Laws, DeletionEvidenceVerifier} deletion_id workspace root policy
    requested suppressed w0 ops completed k receipt :
  DeletionWorkflow_new deletion_id workspace root policy requested suppressed = Ok w0 →
  let w := foldl run_deletion w0 ops in
  complete_deletion w completed k = Ok receipt →
  DeletionReceipt_verify receipt (verifying_key k) = Ok tt ∧
  (∀ class, ∃ t, t ∈ dr_targets receipt ∧ target_class t = class) ∧
  (∀ t, t ∈ dr_targets receipt →
     is_complete (disposition t) = true ∧ verification_digest t ≠ None ∧ is_suppressed w (target_id t) = true ∧
     verify_target (dw_deletion_id w) (dw_workspace_id w) (dw_root_lineage_digest w) t = Ok tt) ∧
  verify_closure (dw_deletion_id w) (dw_workspace_id w) (dw_root_lineage_digest w) (suppressed_ids w)
    (dr_targets receipt) = Ok tt.
Proof.
  intros Hnew w. assert (workflow_ok w) as Hok by (apply run_deletions_ok; by eapply workflow_ok_new).
  unfold complete_deletion. intros Hc. destruct (Z.ltb_spec completed (dw_requested_at w)); [done|].
  cbv zeta in Hc. apply result_bind_Ok in Hc as ([] & Hcover & Hc).
  destruct (existsb _ (bt_values (targets w))) eqn:Hpend; [done|].
  apply result_bind_Ok in Hc as ([] & Heach & ([] & Hclosure & (bs & Hbs & [= <-])%result_bind_Ok)%result_bind_Ok).
  pose proof (proj1 (classes_covered (bt_values (targets w))
    (λ class, DeletionIncomplete ("missing disposition for " +:+ class_debug class))) Hcover) as Hclasses. clear Hcover.
  rewrite <- not_true_iff_false in Hpend. rewrite for_each_Ok, Forall_forall in Heach.
  assert (∀ t, t ∈ bt_values (targets w) → validate_target t = Ok tt ∧ is_complete (disposition t) = true ∧
    verification_digest t ≠ None ∧ (dw_requested_at w ≤ updated_at_micros t ≤ completed)%Z ∧
    target_id t ∈ suppressed_ids w) as Htargets.
  { intros t Ht. pose proof Ht as (id & Hid)%elem_of_bt_values.
    destruct (wf_targets _ Hok id t Hid) as (<- & ? & ? & ?).
    destruct (negb (is_complete (disposition t)) || bool_decide (verification_digest t = None)
      || (completed <? updated_at_micros t)%Z) eqn:Hbad.
    { exfalso. apply Hpend, existsb_exists. exists t. by rewrite <- list_elem_of_In. }
    apply orb_false_iff in Hbad as [[Hb1 Hb2]%orb_false_iff Hb3%Z.ltb_ge].
    apply negb_false_iff in Hb1. apply bool_decide_eq_false_1 in Hb2. split_and!; done. }
  cbn [dr_targets]. split_and!; [|done| |done].
  - unfold DeletionReceipt_verify, unsigned_receipt. cbn [dr_key_id verifying_key vk_key_id dr_deletion_id dr_workspace_id
      dr_root_lineage_digest dr_policy_digest dr_receipt_digest dr_completed_at dr_requested_at dr_targets dr_signature].
    rewrite bool_decide_true by done. cbn [negb].
    rewrite (wf_deletion _ Hok), (wf_workspace _ Hok), (wf_lineage _ Hok), (wf_policy _ Hok), digest_Ok. cbn [result_bind].
    rewrite (proj2 (Z.ltb_ge _ _)) by done.
    rewrite (proj2 (verify_targets_Ok _ _ _ _)); [cbn [result_bind]|split].
    + rewrite (proj2 (classes_covered (bt_values (targets w)) (λ class,
        DeletionIncomplete ("receipt is missing disposition for " +:+ class_debug class)))) by done. cbn [result_bind].
      rewrite Hbs. cbn [result_bind]. rewrite bool_decide_true by done. apply sign_domain_verifies.
    + apply Forall_forall. intros t Ht. destruct (Htargets t Ht) as (? & ? & ? & ? & ?). split_and!; try done; lia || set_solver.
    + apply NoDup_target_ids. intros id t Ht. by destruct (wf_targets _ Hok id t Ht).
  - intros t Ht. destruct (Htargets t Ht) as (? & ? & ? & ? & ?). unfold is_suppressed.
    rewrite bool_decide_true by done. split_and!; auto.
Qed.
End properties.

(** ** The theorems at concrete inputs *)

#[local] Existing Instance sample_blake3.
#[local] Existing Instance sample_ed25519.
#[local] Existing Instance sample_ed25519_laws.

(** A serialiser that writes the two identities, which is all the sample needs. *)
#[local] Instance receipt_serialize : Serialize UnsignedReceipt :=
  λ u, Some (str_bytes (ur_deletion_id u) ++ str_bytes (ur_workspace_id u)).
#[local] Instance accepting_verifier : DeletionEvidenceVerifier := {|
  verify_target _ _ _ _ := Ok tt;
  verify_closure _ _ _ _ _ := Ok tt;
|}.

Definition sample_target (d : DeletionDisposition) (t : Z) (class : DeletionTargetClass) : DeletionTarget :=
  MkDeletionTarget (class_debug class) class d (Some sample_digest) t.
Definition sample_workflow : DeletionWorkflow :=
  MkDeletionWorkflow "deletion" "workspace" sample_digest sample_digest 10 {["root"]} ∅.
(** Every class is suppressed first and deleted afterwards; one late rewrite is refused. *)
Definition sample_deletion_ops : list DeletionOp :=
  (OpRecordTarget ∘ sample_target SuppressedPending 11 <$> mandatory_target_classes) ++
  (OpRecordTarget ∘ sample_target Deleted 12 <$> mandatory_target_classes) ++
  [OpRecordTarget (sample_target SuppressedPending 13 Cache)].

Lemma sample_workflow_new :
  DeletionWorkflow_new "deletion" "workspace" sample_digest sample_digest 10 {["root"]} = Ok sample_workflow.
Proof. vm_compute. reflexivity. Qed.

Lemma deletion_only_progresses_witness :
  {["root"]} ⊆ suppressed_ids (foldl run_deletion (foldl run_deletion sample_workflow sample_deletion_ops)
    [OpSuppress "summary"]).
Proof.
  exact (proj1 (proj2 (deletion_only_progresses "deletion" "workspace" sample_digest sample_digest 10 {["root"]}
    sample_workflow sample_deletion_ops [OpSuppress "summary"] sample_workflow_new))).
Defined.

Definition sample_receipt : DeletionReceipt :=
  match complete_deletion (foldl run_deletion sample_workflow sample_deletion_ops) 20 sample_signing_key with
  | Ok receipt => receipt
  | Err _ => MkDeletionReceipt "" "" "" "" 0 0 [] "" "" []
  end.

Lemma sealed_receipt_verifies_witness :
  length (dr_targets sample_receipt) = 13%nat ∧
  DeletionReceipt_verify sample_receipt (verifying_key sample_signing_key) = Ok tt.
Proof.
  split; [vm_compute; reflexivity|].
  refine (proj1 (sealed_receipt_verifies "deletion" "workspace" sample_digest sample_digest 10 {["root"]}
    sample_workflow sample_deletion_ops 20 sample_signing_key sample_receipt sample_workflow_new _)).
  vm_compute. reflexivity.
Defined.
