(* ===== verification/SecureBackup.v ===== *)
(** * Encrypted backups (crate contextdb-security, backup.rs)

    The signed and encrypted envelope of an archive, its verification, the
    authorised restore, and the lineage of successive backups.

    XChaCha20-Poly1305 is the class [Aead] with its documented laws: decryption
    inverts encryption, and a ciphertext is its message with a 16-byte tag.  The
    24 random bytes of the nonce are an argument; [None] is a failing generator. *)

From S2P Require Import Prelude.
From S2P Require Import Ordering.
From S2P Require Import Bytes.
From S2P Require Import Format.
From S2P Require Import Security.

Definition BACKUP_SIGNATURE_DOMAIN : bytes := str_bytes "contextdb/backup-manifest/v1" ++ [x00].
Definition MAX_BACKUP_BYTES : N := 512 * 1024 * 1024.
Definition MAX_BACKUP_SCOPES : N := 4096.

Class Aead := {
  aead_encrypt : bytes → bytes → bytes → bytes → option bytes;
  aead_decrypt : bytes → bytes → bytes → bytes → option bytes;
}.
Class AeadLaws `{Aead} := {
  aead_roundtrip key nonce aad msg c : aead_encrypt key nonce aad msg = Some c → aead_decrypt key nonce aad c = Some msg;
  aead_tag key nonce aad msg c : aead_encrypt key nonce aad msg = Some c → len c = (len msg + 16)%N;
}.

Record BackupHeader := MkBackupHeader {
  format_version : N;
  bh_database_id : string;
  bh_workspace_id : string;
  bh_scopes : gset string;
  bh_policy_digest : string;
  bh_created_at : Z;
  bh_expires_at : Z;
  bh_encryption_key_id : string;
  bh_encryption_key_generation : N;
  bh_signing_key_id : string;
  bh_signing_key_generation : N;
  bh_parent_manifest : option string;
}.

Record BackupManifest := MkBackupManifest {
  header_digest : string;
  ciphertext_digest : string;
  manifest_nonce : bytes;
  manifest_signature : bytes;
  manifest_digest : string;
}.

Record EncryptedBackup := MkEncryptedBackup {
  backup_header : BackupHeader;
  backup_manifest : BackupManifest;
  ciphertext : bytes;
}.

Record BackupRequest := MkBackupRequest {
  archive : bytes;
  br_database_id : string;
  br_workspace_id : string;
  br_scopes : gset string;
  br_policy_digest : string;
  br_created_at : Z;
  br_expires_at : Z;
  br_parent_manifest : option string;
}.

Record RestoreAuthorization := MkRestoreAuthorization {
  now_micros : Z;
  expected_database_id : string;
  expected_workspace_id : string;
  expected_policy_digest : string;
  expected_manifest_digest : string;
  minimum_encryption_key_generation : N;
  minimum_signing_key_generation : N;
  allowed_scopes : gset string;
  restore_capability : bool;
}.

Record SignedManifest := MkSignedManifest {
  sm_header_digest : string;
  sm_ciphertext_digest : string;
  sm_nonce : bytes;
}.

(** ** Checks *)

Definition validate_backup_request (r : BackupRequest) : SecurityResult unit :=
  try? require_label (br_database_id r) "database_id" in
  try? require_label (br_workspace_id r) "workspace_id" in
  try? require_digest (br_policy_digest r) "policy_digest" in
  if is_empty (archive r) || (MAX_BACKUP_BYTES <? len (archive r))%N
  then Err (InvalidInput "archive size is outside the supported range")
  else if bool_decide (br_scopes r = ∅)
  then Err (PolicyDenied "an encrypted export requires explicit non-empty scopes")
  else if (MAX_BACKUP_SCOPES <? N.of_nat (size (br_scopes r)))%N
  then Err (ResourceExhausted "encrypted export has too many scopes")
  else
    try? for_each (λ scope, require_label scope "scope") (bt_elements (br_scopes r)) in
    if (br_expires_at r <=? br_created_at r)%Z then Err (InvalidInput "backup expiry must follow creation")
    else require_optional_digest (br_parent_manifest r) "parent_manifest_digest".

Definition validate_backup_header (h : BackupHeader) : SecurityResult unit :=
  if negb (format_version h =? 1)%N then Err (IntegrityFailure "unsupported backup format version")
  else
    try? require_label (bh_database_id h) "database_id" in
    try? require_label (bh_workspace_id h) "workspace_id" in
    try? require_digest (bh_policy_digest h) "policy_digest" in
    try? require_label (bh_encryption_key_id h) "encryption_key_id" in
    try? require_label (bh_signing_key_id h) "signing_key_id" in
    if (bh_encryption_key_generation h =? 0)%N || (bh_signing_key_generation h =? 0)%N
    then Err (InvalidInput "backup key generations must be nonzero")
    else if bool_decide (bh_scopes h = ∅) || (MAX_BACKUP_SCOPES <? N.of_nat (size (bh_scopes h)))%N
    then Err (IntegrityFailure "backup scope set is outside the supported bound")
    else
      try? for_each (λ scope, require_label scope "scope") (bt_elements (bh_scopes h)) in
      if (bh_expires_at h <=? bh_created_at h)%Z then Err (IntegrityFailure "backup expiry is invalid")
      else require_optional_digest (bh_parent_manifest h) "parent_manifest_digest".

Definition ciphertext_too_long (c : bytes) : bool :=
  (saturating_add USIZE_MAX MAX_BACKUP_BYTES 64 <? len c)%N.

Definition binding_mismatch (b : EncryptedBackup) (ek : BackupEncryptionKey) (vk : BackupVerifyingKey)
    (a : RestoreAuthorization) : bool :=
  let h := backup_header b in
  negb (format_version h =? 1)%N
  || negb (bool_decide (bh_database_id h = expected_database_id a))
  || negb (bool_decide (bh_workspace_id h = expected_workspace_id a))
  || negb (bool_decide (bh_policy_digest h = expected_policy_digest a))
  || negb (bool_decide (manifest_digest (backup_manifest b) = expected_manifest_digest a))
  || negb (bool_decide (bh_encryption_key_id h = ek_key_id ek))
  || negb (bh_encryption_key_generation h =? ek_generation ek)%N
  || (bh_encryption_key_generation h <? minimum_encryption_key_generation a)%N
  || negb (bool_decide (bh_signing_key_id h = vk_key_id vk))
  || negb (bh_signing_key_generation h =? vk_generation vk)%N
  || (bh_signing_key_generation h <? minimum_signing_key_generation a)%N.

Definition validate_restore_policy (b : EncryptedBackup) (ek : BackupEncryptionKey) (vk : BackupVerifyingKey)
    (a : RestoreAuthorization) : SecurityResult unit :=
  if negb (restore_capability a) then Err (PolicyDenied "explicit restore capability is required")
  else
    try? require_label (expected_database_id a) "expected_database_id" in
    try? require_label (expected_workspace_id a) "expected_workspace_id" in
    try? require_digest (expected_policy_digest a) "expected_policy_digest" in
    try? require_digest (expected_manifest_digest a) "expected_manifest_digest" in
    if (MAX_BACKUP_SCOPES <? N.of_nat (size (allowed_scopes a)))%N
    then Err (ResourceExhausted "restore authorization has too many scopes")
    else
      try? for_each (λ scope, require_label scope "allowed_scope") (bt_elements (allowed_scopes a)) in
      try? validate_backup_header (backup_header b) in
      if binding_mismatch b ek vk a
      then Err (PolicyDenied "backup identity or key binding does not match restore target")
      else if (now_micros a <? bh_created_at (backup_header b))%Z then Err (PolicyDenied "backup is not valid yet")
      else if (bh_expires_at (backup_header b) <=? now_micros a)%Z then Err (PolicyDenied "backup is expired")
      else if negb (bool_decide (bh_scopes (backup_header b) ⊆ allowed_scopes a))
      then Err (PolicyDenied "restore target does not authorize every exported scope")
      else if ciphertext_too_long (ciphertext b)
      then Err (ResourceExhausted "encrypted backup exceeds the supported bound")
      else Ok tt.

Section envelopes.
Context `{Blake3, Ed25519, Aead} `{Serialize BackupHeader, Serialize SignedManifest}.

Definition encrypt_backup (r : BackupRequest) (ek : BackupEncryptionKey) (sk : BackupSigningKey)
    (entropy : option bytes) : SecurityResult EncryptedBackup :=
  try? validate_backup_request r in
  let header := MkBackupHeader 1 (br_database_id r) (br_workspace_id r) (br_scopes r) (br_policy_digest r)
    (br_created_at r) (br_expires_at r) (ek_key_id ek) (ek_generation ek) (sk_key_id sk) (sk_generation sk)
    (br_parent_manifest r) in
  let? aad := canonical_json header in
  let? nonce := ok_or entropy CryptographicFailure in
  let? c := ok_or (aead_encrypt (ek_bytes ek) nonce aad (archive r)) CryptographicFailure in
  let? signed := canonical_json (MkSignedManifest (digest aad) (digest c) nonce) in
  Ok (MkEncryptedBackup header
        (MkBackupManifest (digest aad) (digest c) nonce (sign_domain sk BACKUP_SIGNATURE_DOMAIN signed) (digest signed))
        c).

Definition verify_backup_envelope (b : EncryptedBackup) (vk : BackupVerifyingKey) : SecurityResult unit :=
  let h := backup_header b in
  let m := backup_manifest b in
  try? validate_backup_header h in
  if negb (bool_decide (bh_signing_key_id h = vk_key_id vk))
  then Err (IntegrityFailure "backup signing-key identity mismatch")
  else if negb (bh_signing_key_generation h =? vk_generation vk)%N
  then Err (IntegrityFailure "backup signing-key generation mismatch")
  else if ciphertext_too_long (ciphertext b)
  then Err (ResourceExhausted "encrypted backup exceeds the supported bound")
  else
    let? aad := canonical_json h in
    if negb (bool_decide (digest aad = header_digest m))
       || negb (bool_decide (digest (ciphertext b) = ciphertext_digest m))
    then Err (IntegrityFailure "backup header or ciphertext digest mismatch")
    else if negb (len (manifest_nonce m) =? 24)%N then Err (IntegrityFailure "invalid nonce length")
    else
      let? signed := canonical_json (MkSignedManifest (header_digest m) (ciphertext_digest m) (manifest_nonce m)) in
      if negb (bool_decide (digest signed = manifest_digest m)) then Err (IntegrityFailure "manifest digest mismatch")
      else verify_domain vk BACKUP_SIGNATURE_DOMAIN signed (manifest_signature m).

(** [restore_backup]. *)
Definition restore_archive (b : EncryptedBackup) (ek : BackupEncryptionKey) (vk : BackupVerifyingKey)
    (a : RestoreAuthorization) : SecurityResult bytes :=
  try? validate_restore_policy b ek vk a in
  try? verify_backup_envelope b vk in
  let? aad := canonical_json (backup_header b) in
  if negb (len (manifest_nonce (backup_manifest b)) =? 24)%N then Err (IntegrityFailure "invalid nonce length")
  else ok_or (aead_decrypt (ek_bytes ek) (manifest_nonce (backup_manifest b)) aad (ciphertext b)) CryptographicFailure.

Definition verify_backup_successor (parent : EncryptedBackup) (parent_key : BackupVerifyingKey)
    (child : EncryptedBackup) (child_key : BackupVerifyingKey) : SecurityResult unit :=
  try? verify_backup_envelope parent parent_key in
  try? verify_backup_envelope child child_key in
  let p := backup_header parent in
  let c := backup_header child in
  if negb (bool_decide (bh_database_id c = bh_database_id p))
     || negb (bool_decide (bh_workspace_id c = bh_workspace_id p))
     || negb (bool_decide (bh_parent_manifest c = Some (manifest_digest (backup_manifest parent))))
     || (bh_created_at c <=? bh_created_at p)%Z
     || (bh_encryption_key_generation c <? bh_encryption_key_generation p)%N
     || (bh_signing_key_generation c <? bh_signing_key_generation p)%N
     || bool_decide (manifest_digest (backup_manifest child) = manifest_digest (backup_manifest parent))
  then Err (IntegrityFailure "backup lineage successor binding is invalid")
  else Ok tt.
End envelopes.

(** ** Lemmas *)

(** The authorisation names this backup, is in time and covers its scopes. *)
Record authorizes (a : RestoreAuthorization) (b : EncryptedBackup) : Prop := {
  au_capability : restore_capability a = true;
  au_database : expected_database_id a = bh_database_id (backup_header b);
  au_workspace : expected_workspace_id a = bh_workspace_id (backup_header b);
  au_policy : expected_policy_digest a = bh_policy_digest (backup_header b);
  au_manifest : expected_manifest_digest a = manifest_digest (backup_manifest b);
  au_encryption : (minimum_encryption_key_generation a ≤ bh_encryption_key_generation (backup_header b))%N;
  au_signing : (minimum_signing_key_generation a ≤ bh_signing_key_generation (backup_header b))%N;
  au_time : (bh_created_at (backup_header b) ≤ now_micros a < bh_expires_at (backup_header b))%Z;
  au_scopes : bh_scopes (backup_header b) ⊆ allowed_scopes a;
}.

(** The scopes it allows are labels, and not too many. *)
Definition scopes_ok (a : RestoreAuthorization) : Prop :=
  (N.of_nat (size (allowed_scopes a)) ≤ MAX_BACKUP_SCOPES)%N ∧
  ∀ scope, scope ∈ allowed_scopes a → require_label scope "allowed_scope" = Ok tt.

Lemma validate_header_of_request r ek_id ek_gen sk_id sk_gen :
  validate_backup_request r = Ok tt →
  require_label ek_id "encryption_key_id" = Ok tt → require_label sk_id "signing_key_id" = Ok tt →
  ek_gen ≠ 0%N → sk_gen ≠ 0%N →
  validate_backup_header (MkBackupHeader 1 (br_database_id r) (br_workspace_id r) (br_scopes r) (br_policy_digest r)
    (br_created_at r) (br_expires_at r) ek_id ek_gen sk_id sk_gen (br_parent_manifest r)) = Ok tt ∧
  (len (archive r) ≤ MAX_BACKUP_BYTES)%N.
Proof.
  intros Hr Hek Hsk Heg Hsg. unfold validate_backup_request in Hr. rewrite !try_Ok in Hr. destruct Hr as (Hdb & Hws & Hpd & Hr).
  destruct (is_empty (archive r)); cbn [orb] in Hr; [done|].
  destruct (N.ltb_spec MAX_BACKUP_BYTES (len (archive r))); [done|]. split; [|done].
  case_bool_decide as Hs; [done|]. destruct (N.ltb_spec MAX_BACKUP_SCOPES (N.of_nat (size (br_scopes r)))); [done|].
  apply try_Ok in Hr as [Hscopes Hr]. destruct (br_expires_at r <=? br_created_at r)%Z eqn:Ht; [done|].
  unfold validate_backup_header. cbn [format_version N.eqb Pos.eqb negb bh_database_id bh_workspace_id bh_policy_digest
    bh_encryption_key_id bh_signing_key_id bh_encryption_key_generation bh_signing_key_generation bh_scopes bh_expires_at
    bh_created_at bh_parent_manifest].
  rewrite Hdb, Hws, Hpd, Hek, Hsk. cbn [result_bind].
  rewrite (proj2 (N.eqb_neq _ _) Heg), (proj2 (N.eqb_neq _ _) Hsg), bool_decide_false by done. cbn [orb].
  rewrite (proj2 (N.ltb_ge _ _)) by done. rewrite Hscopes. cbn [result_bind]. by rewrite Ht.
Qed.

Section properties.
Context `{Blake3, Ed25519, Aead} `{Serialize BackupHeader, Serialize SignedManifest}.

Lemma encrypt_backup_verifies `{!Ed25519Laws, !AeadLaws} r ek sk nonce b :
  require_label (ek_key_id ek) "encryption_key_id" = Ok tt ∧ ek_generation ek ≠ 0%N →
  require_label (sk_key_id sk) "signing_key_id" = Ok tt ∧ sk_generation sk ≠ 0%N →
  length nonce = 24%nat → encrypt_backup r ek sk (Some nonce) = Ok b →
  validate_backup_header (backup_header b) = Ok tt ∧ ciphertext_too_long (ciphertext b) = false ∧
  verify_backup_envelope b (verifying_key sk) = Ok tt.
Proof.
  intros [Hek Heg] [Hsk Hsg] Hnonce Hb. unfold encrypt_backup in Hb.
  apply result_bind_Ok in Hb as ([] & Hr & (aad & Haad & (n & [= <-] & (c & Hc & (signed & Hsigned & [= <-])
    %result_bind_Ok)%result_bind_Ok)%result_bind_Ok)%result_bind_Ok).
  destruct (validate_header_of_request r _ _ _ _ Hr Hek Hsk Heg Hsg) as [Hheader Hlen].
  cbn [backup_header ciphertext]. apply ok_or_Ok in Hc.
  assert (ciphertext_too_long c = false) as Hshort.
  { unfold ciphertext_too_long. apply N.ltb_ge. rewrite (aead_tag _ _ _ _ _ Hc).
    change (saturating_add USIZE_MAX MAX_BACKUP_BYTES 64) with (MAX_BACKUP_BYTES + 64)%N. lia. }
  split_and!; [done..|]. unfold verify_backup_envelope. cbv zeta. cbn [backup_header backup_manifest ciphertext].
  rewrite Hheader. cbn [result_bind bh_signing_key_id bh_signing_key_generation verifying_key vk_key_id vk_generation].
  rewrite bool_decide_true, N.eqb_refl, Hshort, Haad by done. cbn [negb result_bind header_digest ciphertext_digest
    manifest_nonce manifest_digest manifest_signature].
  rewrite !bool_decide_true by done. cbn [negb orb]. unfold len. rewrite Hnonce.
  change (N.of_nat 24 =? 24)%N with true. cbn [negb].
  rewrite Hsigned. cbn [result_bind]. rewrite bool_decide_true by done. apply sign_domain_verifies.
Qed.

Lemma validate_restore_policy_Ok b ek vk a :
  validate_restore_policy b ek vk a = Ok tt →
  authorizes a b ∧ bh_encryption_key_id (backup_header b) = ek_key_id ek ∧
  bh_encryption_key_generation (backup_header b) = ek_generation ek ∧
  bh_signing_key_id (backup_header b) = vk_key_id vk ∧
  bh_signing_key_generation (backup_header b) = vk_generation vk.
Proof.
  unfold validate_restore_policy. intros Hp. destruct (restore_capability a) eqn:Hcap; cbn [negb] in Hp; [|done].
  rewrite !try_Ok in Hp. destruct Hp as (_ & _ & _ & _ & Hp).
  destruct (MAX_BACKUP_SCOPES <? _)%N; [done|]. rewrite !try_Ok in Hp. destruct Hp as (_ & _ & Hp).
  destruct (binding_mismatch b ek vk a) eqn:Hbind; [done|].
  destruct (Z.ltb_spec (now_micros a) (bh_created_at (backup_header b))); [done|].
  destruct (Z.leb_spec (bh_expires_at (backup_header b)) (now_micros a)); [done|].
  case_bool_decide as Hs; cbn [negb] in Hp; [|done].
  unfold binding_mismatch in Hbind. rewrite !orb_false_iff, !negb_false_iff, !bool_decide_eq_true,
    !N.eqb_eq, !N.ltb_ge in Hbind. destruct Hbind as [[[[[[[[[[? ?] ?] ?] ?] ?] ?] ?] ?] ?] ?].
  split_and!; done || lia.
Qed.

(** ** Properties *)

(** C35: backup and restore round trip.  An archive that was encrypted with valid
    keys is returned unchanged by every restore that presents the same encryption
    key, the public key of the signing key, and an authorisation that names this
    backup, is in time, allows its key generations and covers its scopes. *)
Theorem backup_restore_roundtrip `{!Ed25519Laws, !AeadLaws} ek_id ek_gen ek_key ek sk_id sk_gen seed sk r nonce b a :
  EncryptionKey_new ek_id ek_gen ek_key = Ok ek → SigningKey_new sk_id sk_gen seed = Ok sk →
  length nonce = 24%nat → encrypt_backup r ek sk (Some nonce) = Ok b →
  authorizes a b → scopes_ok a →
  restore_archive b ek (verifying_key sk) a = Ok (archive r).
Proof.
  intros Hek%EncryptionKey_new_Ok Hsk%SigningKey_new_Ok Hnonce Hb [Hcap Hdb Hws Hpd Hm Heg Hsg Htime Hscopes] [Hcount Hlabels].
  destruct (encrypt_backup_verifies r ek sk nonce b Hek Hsk Hnonce Hb) as (Hheader & Hshort & Hverify).
  unfold encrypt_backup in Hb. apply result_bind_Ok in Hb as ([] & _ & (aad & Haad & (n & [= <-] & (c & Hc & (signed & Hsigned & Heq)
    %result_bind_Ok)%result_bind_Ok)%result_bind_Ok)%result_bind_Ok). apply ok_or_Ok in Hc.
  injection Heq as Heq. unfold restore_archive, validate_restore_policy.
  pose proof Hheader as Hlabel. unfold validate_backup_header in Hlabel.
  destruct (format_version (backup_header b) =? 1)%N eqn:Hversion; cbn [negb] in Hlabel; [|done].
  rewrite !try_Ok in Hlabel. destruct Hlabel as (Hl1 & Hl2 & Hl3 & _).
  rewrite Hcap, Hdb, Hws, Hpd, Hm, (require_label_Ok _ _ _ Hl1), (require_label_Ok _ _ _ Hl2), (require_digest_Ok _ _ _ Hl3).
  assert (require_digest (manifest_digest (backup_manifest b)) "expected_manifest_digest" = Ok tt) as ->
    by (subst b; apply digest_Ok). cbn [negb result_bind].
  rewrite (proj2 (N.ltb_ge _ _)) by done. rewrite (proj2 (for_each_Ok _ _)).
  2: { apply Forall_forall. intros scope Hin%bt_elements_elem. by apply Hlabels. }
  cbn [result_bind]. rewrite Hheader. cbn [result_bind].
  assert (binding_mismatch b ek (verifying_key sk) a = false) as ->.
  { unfold binding_mismatch. rewrite Hversion, Hdb, Hws, Hpd, Hm, !bool_decide_true by (done || by rewrite <- Heq).
    rewrite <- Heq. cbn. rewrite !N.eqb_refl. rewrite <- Heq in Heg, Hsg. cbn in Heg, Hsg.
    rewrite (proj2 (N.ltb_ge _ _)) by done. by rewrite (proj2 (N.ltb_ge _ _)) by done. }
  rewrite (proj2 (Z.ltb_ge _ _)), (proj2 (Z.leb_gt _ _)) by lia. rewrite bool_decide_true, Hshort by done.
  cbn [negb result_bind]. rewrite Hverify. cbn [result_bind]. rewrite <- Heq. cbn [backup_header backup_manifest manifest_nonce ciphertext].
  rewrite Haad. cbn [result_bind]. unfold len. rewrite Hnonce. change (N.of_nat 24 =? 24)%N with true. cbn [negb].
  by rewrite (aead_roundtrip _ _ _ _ _ Hc).
Qed.

(** nothing is restored without authority.  Whatever envelope is presented,
    genuine or forged, bytes are returned only under an authorisation with the
    restore capability that names exactly this backup, in its validity interval,
    with key generations no older than allowed and every scope covered, under the
    keys the header names, and after the envelope verified. *)
Theorem restore_requires_authority b ek vk a bs :
  restore_archive b ek vk a = Ok bs →
  authorizes a b ∧ bh_encryption_key_id (backup_header b) = ek_key_id ek ∧
  bh_encryption_key_generation (backup_header b) = ek_generation ek ∧
  bh_signing_key_id (backup_header b) = vk_key_id vk ∧
  verify_backup_envelope b vk = Ok tt.
Proof.
  unfold restore_archive. intros ([] & Hp & ([] & Hv & _)%result_bind_Ok)%result_bind_Ok.
  apply validate_restore_policy_Ok in Hp as (? & ? & ? & ? & _). by split_and!.
Qed.

(** The texts that the digests of a backup cover. *)
Definition manifest_of (b : EncryptedBackup) : SignedManifest :=
  MkSignedManifest (header_digest (backup_manifest b)) (ciphertext_digest (backup_manifest b)) (manifest_nonce (backup_manifest b)).
Definition backup_texts (b : EncryptedBackup) : list bytes :=
  ciphertext b :: json_texts [backup_header b] ++ json_texts [manifest_of b].

(** one authorisation restores one archive.  Whatever envelopes are presented
    under the same authorisation and encryption key, all restores that succeed
    return the same bytes, unless two different texts of the two backups have the
    same BLAKE3 hash. *)
Theorem authorization_selects_one_archive `{!SerializeInj BackupHeader, !SerializeInj SignedManifest} b1 b2 ek vk1 vk2 a x y :
  restore_archive b1 ek vk1 a = Ok x → restore_archive b2 ek vk2 a = Ok y →
  x = y ∨ hash_collision (backup_texts b1) (backup_texts b2).
Proof.
  assert (∀ b vk z, restore_archive b ek vk a = Ok z → ∃ aad signed,
    canonical_json (backup_header b) = Ok aad ∧ canonical_json (manifest_of b) = Ok signed ∧
    manifest_of b = MkSignedManifest (digest aad) (digest (ciphertext b)) (manifest_nonce (backup_manifest b)) ∧
    digest signed = expected_manifest_digest a ∧
    aead_decrypt (ek_bytes ek) (manifest_nonce (backup_manifest b)) aad (ciphertext b) = Some z) as Hinv.
  { intros b vk z Hz. unfold restore_archive in Hz.
    apply result_bind_Ok in Hz as ([] & Hp & ([] & Hv & (aad & Haad & Hz)%result_bind_Ok)%result_bind_Ok).
    apply validate_restore_policy_Ok in Hp as ([_ _ _ _ Hm _ _ _ _] & _).
    destruct (negb (len _ =? 24)%N); [done|]. apply ok_or_Ok in Hz.
    unfold verify_backup_envelope in Hv. cbv zeta in Hv. apply try_Ok in Hv as [_ Hv].
    destruct (negb (bool_decide (bh_signing_key_id _ = _))); [done|].
    destruct (negb (bh_signing_key_generation _ =? _)%N); [done|]. destruct (ciphertext_too_long _); [done|].
    rewrite Haad in Hv. cbn [result_bind] in Hv.
    case_bool_decide as Hd1; cbn [negb orb] in Hv; [|done]. case_bool_decide as Hd2; cbn [negb orb] in Hv; [|done].
    destruct (negb (len _ =? 24)%N); [done|]. apply result_bind_Ok in Hv as (signed & Hsigned & Hv).
    case_bool_decide as Hd3; cbn [negb] in Hv; [|done].
    exists aad, signed. unfold manifest_of. rewrite Hd1, Hd2. split_and!; congruence. }
  intros (aad1 & s1 & Ha1 & Hs1 & Hm1 & Hd1 & Hx)%Hinv (aad2 & s2 & Ha2 & Hs2 & Hm2 & Hd2 & Hy)%Hinv.
  assert (digest s1 = digest s2) as Hd by congruence. unfold backup_texts.
  destruct (canonical_digest_eq [manifest_of b1] [manifest_of b2] _ _ _ _ ltac:(by left) ltac:(by left) Hs1 Hs2 Hd) as [Heq|?];
    [|right; eapply hash_collision_mono; [| |done]; set_solver].
  rewrite Hm1, Hm2 in Heq. injection Heq as Hh Hc Hn.
  apply (json_texts_elem [backup_header b1]) in Ha1; [|by left]. apply (json_texts_elem [backup_header b2]) in Ha2; [|by left].
  apply digest_eq in Hh as [->|?]; [|right; eapply hash_collision_mono; [| |done]; set_solver].
  apply digest_eq in Hc as [Hc|?]; [|right; eapply hash_collision_mono; [| |done]; set_solver].
  left. rewrite Hc, Hn in Hx. congruence.
Qed.

(** backup lineages have no cycles: along any chain of verified successor
    steps the creation time strictly increases and key generations never go back,
    so no backup is an ancestor of itself. *)
Theorem backup_lineage_acyclic parent child :
  let successor p c := ∃ pk ck, verify_backup_successor p pk c ck = Ok tt in
  tc successor parent child →
  (bh_created_at (backup_header parent) < bh_created_at (backup_header child))%Z ∧
  (bh_encryption_key_generation (backup_header parent) ≤ bh_encryption_key_generation (backup_header child))%N ∧
  (bh_signing_key_generation (backup_header parent) ≤ bh_signing_key_generation (backup_header child))%N ∧
  bh_database_id (backup_header child) = bh_database_id (backup_header parent) ∧ parent ≠ child.
Proof.
  intros successor.
  assert (∀ p c, successor p c → (bh_created_at (backup_header p) < bh_created_at (backup_header c))%Z ∧
    (bh_encryption_key_generation (backup_header p) ≤ bh_encryption_key_generation (backup_header c))%N ∧
    (bh_signing_key_generation (backup_header p) ≤ bh_signing_key_generation (backup_header c))%N ∧
    bh_database_id (backup_header c) = bh_database_id (backup_header p)) as Hstep.
  { intros p c (pk & ck & Hs). unfold verify_backup_successor in Hs. rewrite !try_Ok in Hs. destruct Hs as (_ & _ & Hs).
    match type of Hs with (if ?g then _ else _) = _ => destruct g eqn:Hg; [done|] end.
    rewrite !orb_false_iff, !negb_false_iff, !bool_decide_eq_true, !N.ltb_ge, Z.leb_gt in Hg. tauto. }
  intros Htc. enough ((bh_created_at (backup_header parent) < bh_created_at (backup_header child))%Z ∧
    (bh_encryption_key_generation (backup_header parent) ≤ bh_encryption_key_generation (backup_header child))%N ∧
    (bh_signing_key_generation (backup_header parent) ≤ bh_signing_key_generation (backup_header child))%N ∧
    bh_database_id (backup_header child) = bh_database_id (backup_header parent)) as (? & ? & ? & ?).
  { split_and!; try done. intros ->. lia. }
  induction Htc as [p c Hs|p m c Hs _ (? & ? & ? & ?)]; [by apply Hstep|].
  apply Hstep in Hs as (? & ? & ? & ?). split_and!; [lia..|congruence].
Qed.
End properties.

(** ** The theorems at concrete inputs *)

#[export] Instance BackupHeader_eq_dec : EqDecision BackupHeader.
Proof. solve_decision. Defined.
#[export] Instance BackupHeader_countable : Countable BackupHeader.
Proof.
  refine (inj_countable
    (λ h, [encode (format_version h); encode (bh_database_id h); encode (bh_workspace_id h); encode (bh_scopes h);
      encode (bh_policy_digest h); encode (bh_created_at h); encode (bh_expires_at h); encode (bh_encryption_key_id h);
      encode (bh_encryption_key_generation h); encode (bh_signing_key_id h); encode (bh_signing_key_generation h);
      encode (bh_parent_manifest h)])
    (λ ps, match ps with
      | [a; b; c; d; e; f; g; h; i; j; k; l] =>
          a ← decode a; b ← decode b; c ← decode c; d ← decode d; e ← decode e; f ← decode f;
          g ← decode g; h ← decode h; i ← decode i; j ← decode j; k ← decode k; l ← decode l;
          Some (MkBackupHeader a b c d e f g h i j k l)
      | _ => None
      end) _).
  intros []. cbn. by rewrite !decode_encode.
Defined.
#[export] Instance SignedManifest_eq_dec : EqDecision SignedManifest.
Proof. solve_decision. Defined.
#[export] Instance SignedManifest_countable : Countable SignedManifest.
Proof.
  refine (inj_countable (λ m, [encode (sm_header_digest m); encode (sm_ciphertext_digest m); encode (sm_nonce m)])
    (λ ps, match ps with
      | [a; b; c] => a ← decode a; b ← decode b; c ← decode c; Some (MkSignedManifest a b c)
      | _ => None
      end) _).
  intros []. cbn. by rewrite !decode_encode.
Defined.

#[local] Existing Instance polynomial_blake3.
#[local] Existing Instance sample_ed25519.
#[local] Existing Instance sample_ed25519_laws.
#[local] Instance header_serialize : Serialize BackupHeader := countable_serialize.
#[local] Instance header_serialize_inj : SerializeInj BackupHeader := countable_serialize_inj.
#[local] Instance manifest_serialize : Serialize SignedManifest := countable_serialize.
#[local] Instance manifest_serialize_inj : SerializeInj SignedManifest := countable_serialize_inj.

(** A cipher that appends an empty tag. *)
Definition empty_tag : bytes := replicate 16 x00.
#[local] Instance tagged_aead : Aead := {|
  aead_encrypt _ _ _ msg := Some (msg ++ empty_tag);
  aead_decrypt _ _ _ c := Some (take (length c - 16) c);
|}.
#[local] Instance tagged_aead_laws : AeadLaws.
Proof.
  split; intros key nonce aad msg c [= <-]; cbn [aead_decrypt tagged_aead].
  - f_equal. rewrite length_app. change (length empty_tag) with 16%nat. by rewrite Nat.add_sub, take_app_length.
  - unfold len. rewrite length_app. change (length empty_tag) with 16%nat. lia.
Qed.

Definition sample_encryption_key : BackupEncryptionKey := MkBackupEncryptionKey "kms" 2 (replicate 32 x02).
Definition sample_backup_request (parent : option string) (created : Z) : BackupRequest :=
  MkBackupRequest [x61; x62; x63] "db" "ws" {["scope"]} sample_digest created 1000 parent.
Definition sample_backup (parent : option string) (created : Z) : EncryptedBackup :=
  match encrypt_backup (sample_backup_request parent created) sample_encryption_key sample_signing_key
          (Some (replicate 24 x07)) with
  | Ok b => b
  | Err _ => MkEncryptedBackup (MkBackupHeader 0 "" "" ∅ "" 0 0 "" 0 "" 0 None) (MkBackupManifest "" "" [] [] "") []
  end.
Definition first_backup : EncryptedBackup := sample_backup None 10.
Definition second_backup : EncryptedBackup := sample_backup (Some (manifest_digest (backup_manifest first_backup))) 20.
Definition sample_authorization : RestoreAuthorization :=
  MkRestoreAuthorization 50 "db" "ws" sample_digest (manifest_digest (backup_manifest first_backup)) 1 1
    {["scope"; "other"]} true.

Lemma sample_authorizes : authorizes sample_authorization first_backup.
Proof.
  constructor; try (vm_compute; reflexivity); try (by vm_compute).
  replace (bh_scopes (backup_header first_backup)) with ({["scope"]} : gset string) by (vm_compute; reflexivity).
  change (allowed_scopes sample_authorization) with ({["scope"; "other"]} : gset string). set_solver.
Qed.

Lemma sample_scopes_ok : scopes_ok sample_authorization.
Proof.
  split; [by vm_compute|]. change (allowed_scopes sample_authorization) with ({["scope"; "other"]} : gset string).
  intros scope Hs. assert (scope = "scope"%string ∨ scope = "other"%string) as [-> | ->] by set_solver; vm_compute; reflexivity.
Qed.

Lemma first_backup_made :
  encrypt_backup (sample_backup_request None 10) sample_encryption_key sample_signing_key (Some (replicate 24 x07))
    = Ok first_backup.
Proof. vm_compute. reflexivity. Qed.

Lemma first_backup_restores :
  restore_archive first_backup sample_encryption_key (verifying_key sample_signing_key) sample_authorization
    = Ok [x61; x62; x63].
Proof. vm_compute. reflexivity. Qed.

Lemma backup_restore_roundtrip_witness :
  restore_archive first_backup sample_encryption_key (verifying_key sample_signing_key) sample_authorization
    = Ok [x61; x62; x63].
Proof.
  apply (backup_restore_roundtrip "kms" 2 (replicate 32 x02) sample_encryption_key "key" 1 (replicate 32 x01)
    sample_signing_key (sample_backup_request None 10) (replicate 24 x07) first_backup sample_authorization).
  - vm_compute. reflexivity.
  - vm_compute. reflexivity.
  - reflexivity.
  - exact first_backup_made.
  - exact sample_authorizes.
  - exact sample_scopes_ok.
Defined.

Lemma restore_requires_authority_witness : authorizes sample_authorization first_backup.
Proof.
  exact (proj1 (restore_requires_authority first_backup sample_encryption_key (verifying_key sample_signing_key)
    sample_authorization [x61; x62; x63] first_backup_restores)).
Defined.

Lemma authorization_selects_one_archive_witness : 
  [x61; x62; x63] = [x61; x62; x63] ∨ hash_collision (backup_texts first_backup) (backup_texts first_backup).
Proof.
  exact (authorization_selects_one_archive first_backup first_backup sample_encryption_key
    (verifying_key sample_signing_key) (verifying_key sample_signing_key) sample_authorization [x61; x62; x63]
    [x61; x62; x63] first_backup_restores first_backup_restores).
Defined.

Lemma backup_lineage_acyclic_witness : first_backup ≠ second_backup.
Proof.
  refine (proj2 (proj2 (proj2 (proj2 (backup_lineage_acyclic first_backup second_backup (tc_once _ _ _ _)))))).
  exists (verifying_key sample_signing_key), (verifying_key sample_signing_key). vm_compute. reflexivity.
Defined.
