(* ===== verification/ModelTypes.v ===== *)
(** * Vocabulary of the model runtime (crate contextdb-model, types.rs and error.rs)

    Errors, bounded identifiers, capabilities, profiles, schema and prompt
    references, sensitivity classes, cost and latency profiles and capability
    routes, each with its validation.  [BLAKE3] and [serde_json] are the
    parameters [Blake3] and [Serialize]. *)

From S2P Require Import Prelude.
From S2P Require Import Ordering.
From S2P Require Import Bytes.
From S2P Require Import Format.
From S2P Require Import CoreBase.
From S2P Require Import Evidence.

Definition MAX_ID_BYTES : N := 256.
Definition MAX_TEXT_BYTES : N := 16 * 1024.

(** ** Identifiers *)

(** The newtypes of the macro [bounded_identifier]. *)
Abbreviation ProviderId := string (only parsing).
Abbreviation ModelRevision := string (only parsing).
Abbreviation SchemaId := string (only parsing).
Abbreviation PromptAssetId := string (only parsing).
Abbreviation RegionId := string (only parsing).
Abbreviation LanguageTag := string (only parsing).
Abbreviation CurrencyCode := string (only parsing).

#[export] Instance ContentDigest_countable : Countable ContentDigest :=
  inj_countable digest_bytes digest_of_bytes digest_of_bytes_Some.
#[export] Instance digest_bytes_inj : Inj (=) (=) digest_bytes := ContentDigest_inj.
#[export] Instance ContentDigest_Ordered : Ordered ContentDigest := Ordered_inj digest_bytes.

Inductive ModelCapability :=
  | ExtractMemoryCandidates
  | SegmentEpisodes
  | ResolvePerspective
  | InterpretRecallIntent
  | ResolveConversationalReferents
  | JudgeMemorySalience
  | DecideMemoryUse
  | GenerateEmbedding
  | RerankCandidates
  | SummarizeRegion
  | JudgeSufficiency
  | AdjudicateConflict
  | ClassifySensitivity
  | DetectProcedure
  | ReflectOnEpisodes
  | CompressContext
  | DescribeArtifact
  | TranscribeArtifact
  | CrossModalRepresent
  | DomainCapability (name : string).
#[export] Instance ModelCapability_eq_dec : EqDecision ModelCapability.
Proof. solve_decision. Defined.

(** The position of the variant and its text: the key of the derived order. *)
Definition capability_key (c : ModelCapability) : N * string :=
  match c with
  | ExtractMemoryCandidates => (0, "")
  | SegmentEpisodes => (1, "")
  | ResolvePerspective => (2, "")
  | InterpretRecallIntent => (3, "")
  | ResolveConversationalReferents => (4, "")
  | JudgeMemorySalience => (5, "")
  | DecideMemoryUse => (6, "")
  | GenerateEmbedding => (7, "")
  | RerankCandidates => (8, "")
  | SummarizeRegion => (9, "")
  | JudgeSufficiency => (10, "")
  | AdjudicateConflict => (11, "")
  | ClassifySensitivity => (12, "")
  | DetectProcedure => (13, "")
  | ReflectOnEpisodes => (14, "")
  | CompressContext => (15, "")
  | DescribeArtifact => (16, "")
  | TranscribeArtifact => (17, "")
  | CrossModalRepresent => (18, "")
  | DomainCapability name => (19, name)
  end%N.
Definition capability_of_key (k : N * string) : option ModelCapability :=
  nth_error [ExtractMemoryCandidates; SegmentEpisodes; ResolvePerspective; InterpretRecallIntent;
    ResolveConversationalReferents; JudgeMemorySalience; DecideMemoryUse; GenerateEmbedding; RerankCandidates;
    SummarizeRegion; JudgeSufficiency; AdjudicateConflict; ClassifySensitivity; DetectProcedure; ReflectOnEpisodes;
    CompressContext; DescribeArtifact; TranscribeArtifact; CrossModalRepresent; DomainCapability k.2] (N.to_nat k.1).

Lemma capability_of_capability_key c : capability_of_key (capability_key c) = Some c.
Proof. by destruct c. Qed.
#[export] Instance capability_key_inj : Inj (=) (=) capability_key.
Proof.
  intros a b Heq%(f_equal capability_of_key). rewrite !capability_of_capability_key in Heq. congruence.
Qed.
#[export] Instance ModelCapability_countable : Countable ModelCapability :=
  inj_countable capability_key capability_of_key capability_of_capability_key.
#[export] Instance ModelCapability_Ordered : Ordered ModelCapability := Ordered_inj capability_key.

(** ** References *)

Record SchemaRef := MkSchemaRef {
  schema_id : SchemaId;
  schema_version : N;
  schema_digest : ContentDigest;
}.
#[export] Instance SchemaRef_eq_dec : EqDecision SchemaRef.
Proof. solve_decision. Defined.
Definition schema_ref_key (r : SchemaRef) : SchemaId * (N * ContentDigest) :=
  (schema_id r, (schema_version r, schema_digest r)).
#[export] Instance schema_ref_key_inj : Inj (=) (=) schema_ref_key.
Proof. by intros [] [] [= -> -> ->]. Qed.
#[export] Instance SchemaRef_countable : Countable SchemaRef.
Proof.
  refine (inj_countable' schema_ref_key (λ '(a, (b, c)), MkSchemaRef a b c) _). by intros [].
Defined.
#[export] Instance SchemaRef_Ordered : Ordered SchemaRef := Ordered_inj schema_ref_key.

Record PromptAssetRef := MkPromptAssetRef {
  prompt_id : PromptAssetId;
  prompt_version : N;
  prompt_digest : ContentDigest;
}.
#[export] Instance PromptAssetRef_eq_dec : EqDecision PromptAssetRef.
Proof. solve_decision. Defined.

(** ** Errors *)

Inductive ModelRuntimeError :=
  | InvalidText (field reason : string)
  | InvalidNumber (field reason : string)
  | RegistryConflict (what : string)
  | ProfileUnavailable
  | SchemaUnavailable (schema : SchemaRef)
  | PromptUnavailable
  | PromptMismatch
  | MalformedJson (message : string)
  | ModelSerialization
  | SchemaViolation (path reason : string)
  | SemanticViolation (message : string)
  | OutputTooLarge (maximum : N)
  | NoCompatibleRouteError (capability : ModelCapability)
  | PrivacyDenied
  | BudgetExhausted
  | CircuitOpen (provider : ProviderId)
  | ProviderRefusal
  | ProviderUnavailableError
  | TimeoutError
  | ProviderInvalidRequest
  | ProviderFailure
  | ModelArithmeticOverflow
  | ModelLockPoisoned
  | AuditError (message : string)
  | UnknownRetry (call : ModelCallId)
  | BatchCapacity
  | DeterministicUnavailableError.
#[export] Instance ModelRuntimeError_eq_dec : EqDecision ModelRuntimeError.
Proof. solve_decision. Defined.

Abbreviation ModelResult := (result ModelRuntimeError).

Definition validate_text (value field : string) (maximum : N) : ModelResult unit :=
  if trim_is_empty value then Err (InvalidText field "must not be blank")
  else if (maximum <? str_len value)%N then Err (InvalidText field "exceeds UTF-8 byte limit")
  else Ok tt.

(** [new] of every bounded identifier. *)
Definition bounded_identifier_new (field value : string) : ModelResult string :=
  try? validate_text value field MAX_ID_BYTES in Ok value.

Definition CurrencyCode_new (value : string) : ModelResult CurrencyCode :=
  if negb (str_len value =? 3)%N || negb (forallb is_ascii_uppercase (str_bytes value))
  then Err (InvalidText "currency_code" "must contain three uppercase ASCII letters")
  else Ok value.

Definition ModelCapability_validate (c : ModelCapability) : ModelResult unit :=
  match c with
  | DomainCapability value => validate_text value "model_capability.domain" MAX_ID_BYTES
  | _ => Ok tt
  end.

(** ** Digests *)

Section digests.
Context `{Blake3}.

(** Each part is preceded by its length as a big-endian [usize]. *)
Definition framed_part (part : bytes) : bytes := to_be_bytes 8 (len part) ++ part.
Definition digest_parts (domain : bytes) (parts : list bytes) : ContentDigest :=
  MkContentDigest (blake3_hash (domain ++ mjoin (framed_part <$> parts))) (blake3_length_eqb _).

Definition canonical_digest `{Serialize T} (domain : bytes) (value : T) : ModelResult ContentDigest :=
  let? encoded := ok_or (to_json value) ModelSerialization in
  Ok (digest_parts domain [encoded]).
End digests.

(** ** Profiles *)

Inductive ModelModality :=
  | ModalityText
  | ModalityImage
  | ModalityAudio
  | ModalityVideo
  | ModalityDocument
  | ModalityCode
  | ModalityToolResult
  | ModalityVector.
#[export] Instance ModelModality_eq_dec : EqDecision ModelModality.
Proof. solve_decision. Defined.
Definition modality_rank (m : ModelModality) : N :=
  match m with
  | ModalityText => 0
  | ModalityImage => 1
  | ModalityAudio => 2
  | ModalityVideo => 3
  | ModalityDocument => 4
  | ModalityCode => 5
  | ModalityToolResult => 6
  | ModalityVector => 7
  end.
#[export] Instance ModelModality_countable : Countable ModelModality.
Proof.
  refine (inj_countable modality_rank
    (λ n, nth_error [ModalityText; ModalityImage; ModalityAudio; ModalityVideo; ModalityDocument; ModalityCode;
      ModalityToolResult; ModalityVector] (N.to_nat n)) _). by intros [].
Defined.

Inductive StructuredFormat :=
  | JsonSchema
  | Protobuf.
#[export] Instance StructuredFormat_eq_dec : EqDecision StructuredFormat.
Proof. solve_decision. Defined.

Record PositionProfile := MkPositionProfile {
  constraints_first : bool;
  evidence_near_claim : bool;
  summary_before_detail : bool;
  unknowns_before_actions : bool;
}.
#[export] Instance PositionProfile_eq_dec : EqDecision PositionProfile.
Proof. solve_decision. Defined.

Record InstructionHierarchy := MkInstructionHierarchy {
  channels : list string;
  isolates_tool_results : bool;
  isolates_user_content : bool;
}.
#[export] Instance InstructionHierarchy_eq_dec : EqDecision InstructionHierarchy.
Proof. solve_decision. Defined.

Fixpoint check_channels (distinct : gset string) (channels : list string) : ModelResult unit :=
  match channels with
  | [] => Ok tt
  | channel :: rest =>
      try? validate_text channel "instruction_hierarchy.channel" MAX_ID_BYTES in
      if bool_decide (channel ∈ distinct) then Err (RegistryConflict "duplicate instruction channel")
      else check_channels (distinct ∪ {[channel]}) rest
  end.
Definition InstructionHierarchy_validate (h : InstructionHierarchy) : ModelResult unit :=
  if is_empty (channels h) then Err (InvalidNumber "instruction_hierarchy.channels" "must not be empty")
  else check_channels ∅ (channels h).

Record ModelProfile := MkModelProfile {
  profile_id : ModelProfileId;
  family : string;
  profile_revision : ModelRevision;
  tokenizer : string;
  max_context_tokens : N;
  reserved_output_tokens : N;
  preferred_structured_format : StructuredFormat;
  supports_tool_results : bool;
  supports_native_citations : bool;
  supports_prompt_caching : bool;
  position_profile : PositionProfile;
  instruction_hierarchy : InstructionHierarchy;
  max_schema_complexity : N;
  profile_languages : gset LanguageTag;
  profile_modalities : gset ModelModality;
}.
#[export] Instance ModelProfile_eq_dec : EqDecision ModelProfile.
Proof. solve_decision. Defined.

Definition ModelProfile_validate (p : ModelProfile) : ModelResult unit :=
  try? validate_text (family p) "model_profile.family" MAX_ID_BYTES in
  try? validate_text (tokenizer p) "model_profile.tokenizer" MAX_ID_BYTES in
  if (max_context_tokens p =? 0)%N || (reserved_output_tokens p =? 0)%N
     || (max_context_tokens p <=? reserved_output_tokens p)%N || (max_schema_complexity p =? 0)%N
     || bool_decide (profile_languages p = ∅) || bool_decide (profile_modalities p = ∅)
  then Err (InvalidNumber "model_profile" "invalid context, output, schema, or modality bounds")
  else InstructionHierarchy_validate (instruction_hierarchy p).

(** ** Routes *)

Inductive Sensitivity :=
  | Public
  | Internal
  | Confidential
  | Restricted
  | Secret.
#[export] Instance Sensitivity_eq_dec : EqDecision Sensitivity.
Proof. solve_decision. Defined.
(** The derived order of the variants. *)
Definition sensitivity_rank (s : Sensitivity) : N :=
  match s with
  | Public => 0
  | Internal => 1
  | Confidential => 2
  | Restricted => 3
  | Secret => 4
  end.
#[export] Instance sensitivity_rank_inj : Inj (=) (=) sensitivity_rank.
Proof. by intros [] []. Qed.
#[export] Instance Sensitivity_Ordered : Ordered Sensitivity := Ordered_inj sensitivity_rank.

Inductive ExecutionLocality :=
  | Local
  | Hosted.
#[export] Instance ExecutionLocality_eq_dec : EqDecision ExecutionLocality.
Proof. solve_decision. Defined.

(** A validated [BasisPoints] is its number. *)
Abbreviation BasisPoints := N (only parsing).
Definition BasisPoints_new (value : N) : ModelResult BasisPoints :=
  if (10000 <? value)%N then Err (InvalidNumber "basis_points" "must be at most 10000") else Ok value.

Record CostProfile := MkCostProfile {
  currency : CurrencyCode;
  request_micros : N;
  input_micros_per_million_tokens : N;
  output_micros_per_million_tokens : N;
}.
#[export] Instance CostProfile_eq_dec : EqDecision CostProfile.
Proof. solve_decision. Defined.

(** The estimate is computed in [u128] with saturating operations. *)
Definition token_cost (rate tokens : N) : N :=
  (saturating_add U128_MAX (saturating_mul U128_MAX rate tokens) 999999 / 1000000)%N.
Definition CostProfile_estimate (c : CostProfile) (input_tokens output_tokens : N) : ModelResult N :=
  let input := token_cost (input_micros_per_million_tokens c) input_tokens in
  let output := token_cost (output_micros_per_million_tokens c) output_tokens in
  let total := saturating_add U128_MAX (saturating_add U128_MAX (request_micros c) input) output in
  ok_or (try_from_max U64_MAX total) ModelArithmeticOverflow.

Record LatencyProfile := MkLatencyProfile { p50_ms : N; p95_ms : N }.
#[export] Instance LatencyProfile_eq_dec : EqDecision LatencyProfile.
Proof. solve_decision. Defined.
Definition LatencyProfile_validate (l : LatencyProfile) : ModelResult unit :=
  if (p95_ms l <? p50_ms l)%N then Err (InvalidNumber "latency_profile" "p50 must not exceed p95") else Ok tt.

Record DataHandlingPolicy := MkDataHandlingPolicy {
  locality : ExecutionLocality;
  region : option RegionId;
  no_training : bool;
  no_retention : bool;
  maximum_sensitivity : Sensitivity;
}.
#[export] Instance DataHandlingPolicy_eq_dec : EqDecision DataHandlingPolicy.
Proof. solve_decision. Defined.

Record CapabilityDescriptor := MkCapabilityDescriptor {
  capability : ModelCapability;
  model_profile : ModelProfileId;
  input_modalities : gset ModelModality;
  output_schema : SchemaRef;
  max_input_tokens : N;
  supports_batching : bool;
  supports_streaming : bool;
  expected_cost : CostProfile;
  latency_profile : LatencyProfile;
  data_policy : DataHandlingPolicy;
  benchmark_score : BasisPoints;
  schema_reliability : BasisPoints;
  descriptor_languages : gset LanguageTag;
}.
#[export] Instance CapabilityDescriptor_eq_dec : EqDecision CapabilityDescriptor.
Proof. solve_decision. Defined.

Definition zero_digest (d : ContentDigest) : bool := forallb (λ b, bool_decide (b = x00)) (digest_bytes d).

Definition CapabilityDescriptor_validate (d : CapabilityDescriptor) : ModelResult unit :=
  try? ModelCapability_validate (capability d) in
  if bool_decide (input_modalities d = ∅) || (max_input_tokens d =? 0)%N
  then Err (InvalidNumber "capability_descriptor" "modalities and input budget must be non-empty")
  else if (schema_version (output_schema d) =? 0)%N || zero_digest (schema_digest (output_schema d))
  then Err (InvalidNumber "capability_descriptor.output_schema" "version and digest must be non-zero")
  else LatencyProfile_validate (latency_profile d).

Record CapabilityRoute := MkCapabilityRoute {
  provider : ProviderId;
  model_revision : ModelRevision;
  descriptor : CapabilityDescriptor;
}.
#[export] Instance CapabilityRoute_eq_dec : EqDecision CapabilityRoute.
Proof. solve_decision. Defined.
Definition CapabilityRoute_validate (r : CapabilityRoute) : ModelResult unit :=
  CapabilityDescriptor_validate (descriptor r).

Record ModelUsage := MkModelUsage {
  usage_input_tokens : option N;
  usage_output_tokens : option N;
  usage_cost_micros : option N;
}.
Definition ModelUsage_default : ModelUsage := MkModelUsage None None None.

Record RouteSummary := MkRouteSummary {
  summary_capability : ModelCapability;
  summary_provider : ProviderId;
  summary_locality : ExecutionLocality;
  summary_estimated_cost_micros : N;
  summary_estimated_cost_currency : CurrencyCode;
  summary_expected_p95_ms : N;
}.

(** ** Cost estimates are exact *)

(** The least number of micro-units that covers [rate * tokens] millionths. *)
Definition ceil_million (x : N) : N := ((x + 999999) / 1000000)%N.

Lemma token_cost_exact rate tokens :
  (rate ≤ U64_MAX)%N → (tokens ≤ U32_MAX)%N → token_cost rate tokens = ceil_million (rate * tokens).
Proof.
  intros Hr Ht. unfold token_cost, ceil_million, saturating_add, saturating_mul.
  assert (rate * tokens ≤ U64_MAX * U32_MAX)%N by (apply N.mul_le_mono; done).
  assert (U64_MAX * U32_MAX + 999999 ≤ U128_MAX)%N by (vm_compute; discriminate).
  rewrite !N.min_r by lia. done.
Qed.

(** No 128-bit step saturates for 64-bit rates and 32-bit token counts, so the
    estimate is the exact sum of the rounded-up costs, and it is refused exactly
    when that sum exceeds 64 bits. *)
Theorem cost_estimate_exact c i o :
  (request_micros c ≤ U64_MAX)%N → (input_micros_per_million_tokens c ≤ U64_MAX)%N →
  (output_micros_per_million_tokens c ≤ U64_MAX)%N → (i ≤ U32_MAX)%N → (o ≤ U32_MAX)%N →
  CostProfile_estimate c i o =
    let total := (request_micros c + ceil_million (input_micros_per_million_tokens c * i)
                  + ceil_million (output_micros_per_million_tokens c * o))%N in
    if (total <=? U64_MAX)%N then Ok total else Err ModelArithmeticOverflow.
Proof.
  intros Hr Hi Ho Hti Hto. unfold CostProfile_estimate. cbn zeta. rewrite !token_cost_exact by done.
  assert (∀ x y, (x ≤ U64_MAX → y ≤ U32_MAX → ceil_million (x * y) ≤ U64_MAX * U32_MAX)%N) as Hc.
  { intros x y Hx Hy. unfold ceil_million. apply N.Div0.div_le_upper_bound.
    assert (x * y ≤ U64_MAX * U32_MAX)%N by (apply N.mul_le_mono; done).
    assert (U64_MAX * U32_MAX + 999999 ≤ 1000000 * (U64_MAX * U32_MAX))%N by (vm_compute; discriminate). lia. }
  pose proof (Hc _ _ Hi Hti). pose proof (Hc _ _ Ho Hto).
  assert (U64_MAX + (U64_MAX * U32_MAX + U64_MAX * U32_MAX) ≤ U128_MAX)%N by (vm_compute; discriminate).
  unfold saturating_add, try_from_max. rewrite !N.min_r by lia. by destruct (_ <=? _)%N.
Qed.
