(* ===== verification/Reliability.v ===== *)
(** * Retries, circuit breakers and availability (crate contextdb-model,
    reliability.rs and the failure classes of provider.rs)

    The retry policy, the circuit registry and the availability registry.  The
    mutexes are modelled by running the operations one at a time; an operation
    returns the new registry beside its result, because [entry().or_default()]
    inserts before an operation may fail. *)

From S2P Require Import Prelude.
From S2P Require Import Ordering.
From S2P Require Import Bytes.
From S2P Require Import CoreBase.
From S2P Require Import Evidence.
From S2P Require Import ModelTypes.

(** ** Failure classes *)

Inductive ProviderErrorKind :=
  | KindTimeout
  | KindUnavailable
  | KindRateLimited
  | KindRefusal
  | KindInvalidRequest
  | KindInternal.
#[export] Instance ProviderErrorKind_eq_dec : EqDecision ProviderErrorKind.
Proof. solve_decision. Defined.

Definition retryable (kind : ProviderErrorKind) : bool :=
  match kind with
  | KindTimeout | KindUnavailable | KindRateLimited | KindInternal => true
  | _ => false
  end.
Definition affects_circuit (kind : ProviderErrorKind) : bool := retryable kind.

Record ProviderError := MkProviderError {
  error_kind : ProviderErrorKind;
  retry_after_ms : option N;
}.

(** ** The fake clock *)

Record ManualTimer := MkManualTimer { timer_now : N }.
Definition ManualTimer_advance (t : ManualTimer) (delta : N) : ManualTimer :=
  MkManualTimer (saturating_add U64_MAX (timer_now t) delta).

(** ** Retry policy *)

Record RetryPolicy := MkRetryPolicy {
  max_attempts : N;
  per_attempt_timeout_ms : N;
  total_timeout_ms : N;
  base_backoff_ms : N;
  max_backoff_ms : N;
  max_schema_repairs : N;
}.
Definition RetryPolicy_default : RetryPolicy := MkRetryPolicy 3 30000 60000 100 2000 1.

Definition RetryPolicy_validate (p : RetryPolicy) : ModelResult unit :=
  if (max_attempts p =? 0)%N || (10 <? max_attempts p)%N || (per_attempt_timeout_ms p =? 0)%N
     || (total_timeout_ms p <? per_attempt_timeout_ms p)%N || (1 <? max_schema_repairs p)%N
     || (max_backoff_ms p <? base_backoff_ms p)%N
  then Err (InvalidNumber "retry_policy" "invalid attempt, timeout, backoff, or repair bound")
  else Ok tt.

(** [1_u64.checked_shl(shift)]. *)
Definition checked_shl_one (shift : N) : option N :=
  if (shift <? 64)%N then Some (N.shiftl 1 shift) else None.

Definition delay_for (p : RetryPolicy) (completed_attempts : N) (retry_after : option N) : N :=
  let shift := N.min (completed_attempts - 1) 31 in
  let exponential :=
    N.min (saturating_mul U64_MAX (base_backoff_ms p) (default U64_MAX (checked_shl_one shift))) (max_backoff_ms p) in
  N.min (default exponential retry_after) (max_backoff_ms p).

(** ** Circuit breaker *)

Record CircuitBreakerConfig := MkCircuitBreakerConfig {
  failure_threshold : N;
  open_duration_ms : N;
}.
Definition CircuitBreakerConfig_default : CircuitBreakerConfig := MkCircuitBreakerConfig 3 30000.
Definition CircuitBreakerConfig_validate (c : CircuitBreakerConfig) : ModelResult unit :=
  if (failure_threshold c =? 0)%N || (open_duration_ms c =? 0)%N
  then Err (InvalidNumber "circuit_breaker" "threshold and open duration must be positive")
  else Ok tt.

Record CircuitKey := MkCircuitKey {
  key_provider : ProviderId;
  key_model_revision : ModelRevision;
  key_capability : ModelCapability;
}.
#[export] Instance CircuitKey_eq_dec : EqDecision CircuitKey.
Proof. solve_decision. Defined.
#[export] Instance CircuitKey_countable : Countable CircuitKey.
Proof.
  refine (inj_countable' (λ k, (key_provider k, key_model_revision k, key_capability k))
    (λ '(a, b, c), MkCircuitKey a b c) _). by intros [].
Defined.

Inductive CircuitState :=
  | Closed (consecutive_failures : N)
  | Open (retry_at_ms : N)
  | HalfOpen (probe_in_flight : bool).
#[export] Instance CircuitState_eq_dec : EqDecision CircuitState.
Proof. solve_decision. Defined.
Definition CircuitState_default : CircuitState := Closed 0.

Inductive CircuitSnapshot :=
  | SnapshotClosed (consecutive_failures : N)
  | SnapshotOpen (retry_at_ms : N)
  | SnapshotHalfOpen (probe_in_flight : bool).

Record CircuitBreaker := MkCircuitBreaker {
  breaker_config : CircuitBreakerConfig;
  breaker_states : gmap CircuitKey CircuitState;
}.

Definition CircuitBreaker_new (config : CircuitBreakerConfig) : ModelResult CircuitBreaker :=
  try? CircuitBreakerConfig_validate config in Ok (MkCircuitBreaker config ∅).

(** The state that [entry(key).or_default()] and [get(key).unwrap_or_default()] see. *)
Definition circuit_state (b : CircuitBreaker) (key : CircuitKey) : CircuitState :=
  default CircuitState_default (breaker_states b !! key).
Definition set_circuit (b : CircuitBreaker) (key : CircuitKey) (s : CircuitState) : CircuitBreaker :=
  MkCircuitBreaker (breaker_config b) (<[key := s]> (breaker_states b)).

Definition allow (b : CircuitBreaker) (key : CircuitKey) (now : N) : CircuitBreaker * ModelResult bool :=
  let state := circuit_state b key in
  match state with
  | Closed _ => (set_circuit b key state, Ok true)
  | Open retry_at =>
      if (now <? retry_at)%N then (set_circuit b key state, Ok false)
      else (set_circuit b key (HalfOpen true), Ok true)
  | HalfOpen false => (set_circuit b key (HalfOpen true), Ok true)
  | HalfOpen true => (set_circuit b key state, Ok false)
  end.

Definition record_success (b : CircuitBreaker) (key : CircuitKey) : CircuitBreaker * ModelResult unit :=
  (set_circuit b key (Closed 0), Ok tt).

Definition failures_after (threshold : N) (state : CircuitState) : N :=
  match state with
  | Closed consecutive => saturating_add U32_MAX consecutive 1
  | Open _ | HalfOpen _ => threshold
  end.

Definition record_failure (b : CircuitBreaker) (key : CircuitKey) (kind : ProviderErrorKind) (now : N)
    : CircuitBreaker * ModelResult unit :=
  let state := circuit_state b key in
  if negb (affects_circuit kind) then (set_circuit b key (Closed 0), Ok tt)
  else
    let threshold := failure_threshold (breaker_config b) in
    let failures := failures_after threshold state in
    if (threshold <=? failures)%N then
      match checked_add U64_MAX now (open_duration_ms (breaker_config b)) with
      | Some retry_at => (set_circuit b key (Open retry_at), Ok tt)
      | None => (set_circuit b key state, Err ModelArithmeticOverflow)
      end
    else (set_circuit b key (Closed failures), Ok tt).

Definition circuit_snapshot (b : CircuitBreaker) (key : CircuitKey) : ModelResult CircuitSnapshot :=
  Ok match circuit_state b key with
     | Closed n => SnapshotClosed n
     | Open t => SnapshotOpen t
     | HalfOpen p => SnapshotHalfOpen p
     end.

(** ** Availability *)

Record AvailabilityRegistry := MkAvailabilityRegistry { unavailable_until : gmap ProviderId N }.
Definition mark_unavailable (r : AvailabilityRegistry) (provider : ProviderId) (until : N) : AvailabilityRegistry :=
  MkAvailabilityRegistry (<[provider := until]> (unavailable_until r)).
Definition available (r : AvailabilityRegistry) (provider : ProviderId) (now : N) : bool :=
  is_none_or (unavailable_until r !! provider) (λ until, (until <=? now)%N).

(** ** Runs of the circuit registry *)

Inductive CircuitEvent :=
  | EventAllow (key : CircuitKey) (now : N)
  | EventSuccess (key : CircuitKey)
  | EventFailure (key : CircuitKey) (kind : ProviderErrorKind) (now : N).

Definition circuit_event_key (e : CircuitEvent) : CircuitKey :=
  match e with EventAllow k _ | EventSuccess k | EventFailure k _ _ => k end.
Definition circuit_step (b : CircuitBreaker) (e : CircuitEvent) : CircuitBreaker :=
  match e with
  | EventAllow k now => (allow b k now).1
  | EventSuccess k => (record_success b k).1
  | EventFailure k kind now => (record_failure b k kind now).1
  end.
Definition run_circuit (b : CircuitBreaker) (es : list CircuitEvent) : CircuitBreaker := foldl circuit_step b es.

Lemma circuit_state_set b k k' s :
  circuit_state (set_circuit b k s) k' = if decide (k = k') then s else circuit_state b k'.
Proof.
  unfold circuit_state. simpl. case_decide as Hk.
  - subst. by rewrite lookup_insert_eq.
  - by rewrite lookup_insert_ne.
Qed.
#[export] Hint Rewrite circuit_state_set : circuit.

Ltac circuit_simpl :=
  repeat first
    [ progress autorewrite with circuit
    | rewrite decide_True by done
    | rewrite decide_False by done
    | progress cbn [fst snd] ].

(** A step on one key leaves the others alone and keeps the configuration. *)
Lemma circuit_step_other b e k : circuit_event_key e ≠ k → circuit_state (circuit_step b e) k = circuit_state b k.
Proof.
  destruct e as [k' now|k'|k' kind now]; simpl; intros Hk; unfold allow, record_failure;
    repeat case_match; by circuit_simpl.
Qed.
Lemma circuit_step_config b e : breaker_config (circuit_step b e) = breaker_config b.
Proof. destruct e; simpl; unfold allow, record_failure; by repeat case_match. Qed.

(** A property of the state of one key that every step on that key keeps holds
    along a run, whatever happens to the other keys. *)
Lemma run_circuit_invariant (P : CircuitState → Prop) (ok : CircuitEvent → Prop) b k es :
  (∀ b e, ok e → circuit_event_key e = k → P (circuit_state b k) → P (circuit_state (circuit_step b e) k)) →
  Forall (λ e, circuit_event_key e = k → ok e) es →
  P (circuit_state b k) → P (circuit_state (run_circuit b es) k).
Proof.
  intros Hstep Hes. revert b. induction Hes as [|e es He _ IH]; intros b HP; [done|]. apply IH.
  destruct (decide (circuit_event_key e = k)) as [Hk|Hk]; [by apply Hstep; [apply He|..]|by rewrite circuit_step_other].
Qed.

Lemma allow_open b k retry_at now :
  circuit_state b k = Open retry_at →
  (allow b k now).2 = Ok (retry_at <=? now)%N ∧
  circuit_state (allow b k now).1 k = if (now <? retry_at)%N then Open retry_at else HalfOpen true.
Proof.
  intros Hs. unfold allow. rewrite Hs. destruct (N.ltb_spec now retry_at), (N.leb_spec retry_at now); try lia;
    split; by circuit_simpl.
Qed.
Lemma allow_probing b k now :
  circuit_state b k = HalfOpen true →
  (allow b k now).2 = Ok false ∧ circuit_state (allow b k now).1 k = HalfOpen true.
Proof. intros Hs. unfold allow. rewrite Hs. split; by circuit_simpl. Qed.

(** ** Properties *)

(** An attempt at permission at any time. *)
Definition asks (e : CircuitEvent) : Prop :=
  match e with EventAllow _ _ => True | _ => False end.

(** The retry time of an open circuit after what happens on its route while it
    waits: requests before the retry time change nothing, and a late infrastructure
    failure starts the cooldown again.  [None] when anything else happens: a request
    from the retry time on, or an outcome that closes the circuit. *)
Definition still_open (duration : N) (k : CircuitKey) (retry_at : N) (e : CircuitEvent) : option N :=
  if decide (circuit_event_key e = k) then
    match e with
    | EventAllow _ now => if (now <? retry_at)%N then Some retry_at else None
    | EventSuccess _ => None
    | EventFailure _ kind now =>
        if affects_circuit kind then Some (default retry_at (checked_add U64_MAX now duration)) else None
    end
  else Some retry_at.
Fixpoint open_until (duration : N) (k : CircuitKey) (retry_at : N) (es : list CircuitEvent) : option N :=
  match es with
  | [] => Some retry_at
  | e :: es => retry_at' ← still_open duration k retry_at e; open_until duration k retry_at' es
  end.

Lemma record_failure_reopens b k kind now :
  affects_circuit kind = true → (∀ n, circuit_state b k ≠ Closed n) →
  circuit_state (record_failure b k kind now).1 k =
  match checked_add U64_MAX now (open_duration_ms (breaker_config b)) with
  | Some retry_at => Open retry_at
  | None => circuit_state b k
  end.
Proof.
  intros Hk Hs. unfold record_failure. rewrite Hk. cbn [negb].
  assert (failures_after (failure_threshold (breaker_config b)) (circuit_state b k) = failure_threshold (breaker_config b)) as ->
    by (by destruct (circuit_state b k); [destruct (Hs consecutive_failures)|..]).
  rewrite N.leb_refl. destruct (checked_add _ _ _); by circuit_simpl.
Qed.

Lemma still_open_step b k retry_at e retry_at' :
  circuit_state b k = Open retry_at → still_open (open_duration_ms (breaker_config b)) k retry_at e = Some retry_at' →
  circuit_state (circuit_step b e) k = Open retry_at'.
Proof.
  intros Hs. unfold still_open. case_decide as Hk; [|intros [= <-]; by rewrite circuit_step_other].
  destruct e as [k' now|k'|k' kind now]; simpl in Hk |- *; subst k'; [|done|].
  - destruct (allow_open b k _ now Hs) as [_ ->]. destruct (now <? retry_at)%N; [|done]. by intros [= <-].
  - destruct (affects_circuit kind) eqn:Hk; [|done]. rewrite (record_failure_reopens b k kind now Hk) by (intros n; congruence).
    destruct (checked_add _ _ _); simpl; [by intros [= <-]|]. rewrite Hs. by intros [= <-].
Qed.

Lemma open_until_run b k retry_at es retry_at' :
  circuit_state b k = Open retry_at → open_until (open_duration_ms (breaker_config b)) k retry_at es = Some retry_at' →
  circuit_state (run_circuit b es) k = Open retry_at' ∧ breaker_config (run_circuit b es) = breaker_config b.
Proof.
  revert b retry_at; induction es as [|e es IH]; intros b retry_at Hs Hu; simpl in *; [by injection Hu as <-|].
  destruct (still_open _ k retry_at e) as [r|] eqn:He; [|done]. simpl in Hu.
  rewrite <- (circuit_step_config b e) in Hu |- *. by apply (IH (circuit_step b e) r); [by eapply still_open_step|].
Qed.

Lemma run_circuit_config b es : breaker_config (run_circuit b es) = breaker_config b.
Proof. revert b; induction es as [|e es IH]; intros b; simpl; [done|]. by rewrite IH, circuit_step_config. Qed.

(** What the outcome of a probe does. *)
Lemma probe_outcome b k :
  circuit_state b k = HalfOpen true →
  (∀ now, (allow (record_success b k).1 k now).2 = Ok true) ∧
  (∀ kind t now, affects_circuit kind = false → (allow (record_failure b k kind t).1 k now).2 = Ok true) ∧
  ∀ kind t now, affects_circuit kind = true → (t + open_duration_ms (breaker_config b) ≤ U64_MAX)%N →
    (allow (record_failure b k kind t).1 k now).2 = Ok (t + open_duration_ms (breaker_config b) <=? now)%N.
Proof.
  intros Hs. split_and!.
  - intros now. unfold record_success, allow. by circuit_simpl.
  - intros kind t now Hk. unfold record_failure. rewrite Hk. cbn [negb fst]. unfold allow. by circuit_simpl.
  - intros kind t now Hk Ht. apply allow_open. rewrite record_failure_reopens by (done || intros n; congruence).
    by rewrite (proj2 (checked_add_Some _ _ _ (t + open_duration_ms (breaker_config b))%N)).
Qed.

(** C31: the life of an open circuit.  As long as nothing but requests before its
    retry time and late infrastructure failures, which start the cooldown again,
    happens on its route, whatever happens on others, it denies every call until the
    retry time; the first request from then on is let through as a probe, and every
    later one is denied until the outcome of the probe is recorded.  Then a success
    or a failure that is not of the infrastructure lets calls through at once, and
    an infrastructure failure denies them for another cooldown. *)
Theorem open_circuit_then_one_probe b k retry_at waiting retry_at' :
  circuit_state b k = Open retry_at →
  open_until (open_duration_ms (breaker_config b)) k retry_at waiting = Some retry_at' →
  let b' := run_circuit b waiting in
  (∀ now, (now < retry_at')%N → (allow b' k now).2 = Ok false) ∧
  ∀ now, (retry_at' ≤ now)%N →
    (allow b' k now).2 = Ok true ∧
    ∀ later, Forall (λ e, circuit_event_key e = k → asks e) later →
      let probing := run_circuit (allow b' k now).1 later in
      (∀ t, (allow probing k t).2 = Ok false) ∧
      (∀ t, (allow (record_success probing k).1 k t).2 = Ok true) ∧
      (∀ kind t t', affects_circuit kind = false → (allow (record_failure probing k kind t).1 k t').2 = Ok true) ∧
      ∀ kind t t', affects_circuit kind = true → (t + open_duration_ms (breaker_config b) ≤ U64_MAX)%N →
        (allow (record_failure probing k kind t).1 k t').2 = Ok (t + open_duration_ms (breaker_config b) <=? t')%N.
Proof.
  intros Hs Hw b'. destruct (open_until_run _ _ _ _ _ Hs Hw) as [Hb' Hc]. fold b' in Hb', Hc. split.
  - intros now Hn. destruct (allow_open b' k _ now Hb') as [-> _]. f_equal. by apply N.leb_gt.
  - intros now Hn. destruct (allow_open b' k _ now Hb') as [-> Hp].
    rewrite (proj2 (N.ltb_ge _ _)) in Hp by done. split; [f_equal; by apply N.leb_le|]. intros later Hl probing.
    assert (circuit_state probing k = HalfOpen true) as Hprobe.
    { apply (run_circuit_invariant (λ s, s = HalfOpen true) asks); [|done..].
      intros c [k' now''| |] He <- Hc'; [|done..]. by apply allow_probing. }
    assert (breaker_config probing = breaker_config b) as <-.
    { unfold probing. rewrite run_circuit_config. by rewrite <- Hc, <- (circuit_step_config b' (EventAllow k now)). }
    split; [intros t; by apply allow_probing|]. by apply probe_outcome.
Qed.

(** The times of the failures that the run records on the route. *)
Definition failure_times (k : CircuitKey) (es : list CircuitEvent) : list N :=
  omap (λ e, match e with EventFailure k' _ now => if decide (k' = k) then Some now else None | _ => None end) es.
(** What a run may record on the route: infrastructure failures whose cooldown
    fits 64 bits. *)
Definition infrastructure_failure (duration : N) (e : CircuitEvent) : Prop :=
  match e with
  | EventFailure _ kind now => affects_circuit kind = true ∧ (now + duration ≤ U64_MAX)%N
  | _ => False
  end.
(** The state that the recorded failures call for. *)
Definition expected_circuit (config : CircuitBreakerConfig) (times : list N) : CircuitState :=
  match last times with
  | Some t => if (len times <? failure_threshold config)%N then Closed (len times) else Open (t + open_duration_ms config)
  | None => Closed 0
  end.

Lemma failure_times_snoc k es e :
  failure_times k (es ++ [e]) = failure_times k es ++ failure_times k [e].
Proof. apply omap_app. Qed.

Lemma record_failure_expected b k kind now times :
  CircuitBreakerConfig_validate (breaker_config b) = Ok tt →
  (failure_threshold (breaker_config b) ≤ U32_MAX)%N →
  affects_circuit kind = true → (now + open_duration_ms (breaker_config b) ≤ U64_MAX)%N →
  circuit_state b k = expected_circuit (breaker_config b) times →
  circuit_state (record_failure b k kind now).1 k = expected_circuit (breaker_config b) (times ++ [now]).
Proof.
  intros Hv Ht Hk Hn Hs. unfold CircuitBreakerConfig_validate in Hv.
  destruct (failure_threshold (breaker_config b) =? 0)%N eqn:H1; [done|]. apply N.eqb_neq in H1.
  unfold record_failure. rewrite Hk, Hs. cbn [negb]. rewrite (proj2 (checked_add_Some _ _ _ _)) by done.
  unfold expected_circuit at 3. rewrite last_snoc. unfold len. rewrite length_app. cbn [length].
  set (threshold := failure_threshold (breaker_config b)) in *.
  assert (failures_after threshold (expected_circuit (breaker_config b) times) =
    if (len times <? threshold)%N then (len times + 1)%N else threshold) as ->.
  { unfold expected_circuit. fold threshold. destruct (last times) eqn:Hl.
    - destruct (N.ltb_spec (len times) threshold); [|done]. cbn. unfold saturating_add. lia.
    - apply last_None in Hl as ->. change (len []) with 0%N. destruct (N.ltb_spec 0 threshold); [|lia].
      cbn. unfold saturating_add. lia. }
  unfold len. rewrite Nat2N.inj_add. change (N.of_nat 1) with 1%N.
  destruct (N.ltb_spec (N.of_nat (length times)) threshold);
    destruct (N.ltb_spec (N.of_nat (length times) + 1) threshold); try lia.
  - destruct (N.leb_spec threshold (N.of_nat (length times) + 1)); [lia|]. by circuit_simpl.
  - destruct (N.leb_spec threshold (N.of_nat (length times) + 1)); [|lia]. by circuit_simpl.
  - destruct (N.leb_spec threshold threshold); [|lia]. by circuit_simpl.
Qed.

(** the circuit of a route counts its consecutive infrastructure failures and
    opens exactly at the threshold.  While a fresh route records such failures only,
    interleaved with anything on other routes, it is closed with their number below
    the threshold, and from the threshold on it is open until the cooldown after
    the latest of them. *)
Theorem circuit_opens_at_threshold config b k es :
  CircuitBreaker_new config = Ok b → (failure_threshold config ≤ U32_MAX)%N →
  Forall (λ e, circuit_event_key e = k → infrastructure_failure (open_duration_ms config) e) es →
  circuit_state (run_circuit b es) k = expected_circuit config (failure_times k es).
Proof.
  intros Hb Ht. unfold CircuitBreaker_new in Hb. apply result_bind_Ok in Hb as ([] & Hv & [= <-]).
  set (b := MkCircuitBreaker config ∅).
  assert (∀ es, breaker_config (run_circuit b es) = config) as Hc.
  { intros es'. unfold run_circuit. induction es' as [|e es' IH] using rev_ind; [done|].
    rewrite foldl_app. cbn [foldl]. by rewrite circuit_step_config. }
  induction es as [|e es IH] using rev_ind; intros Hes; [done|].
  apply Forall_app in Hes as [Hes He]. rewrite Forall_singleton in He. specialize (IH Hes).
  rewrite failure_times_snoc. unfold run_circuit. rewrite foldl_app. cbn [foldl]. fold (run_circuit b es).
  destruct (decide (circuit_event_key e = k)) as [Hk|Hk].
  - destruct e as [| |k' kind now]; [by destruct (He Hk)..|]. simpl in Hk. subst k'.
    destruct (He eq_refl) as [Ha Hn]. cbn [failure_times omap list_omap]. rewrite decide_True by done.
    cbn [circuit_step]. rewrite <- (Hc es) at 1. apply record_failure_expected; rewrite ?Hc; done.
  - rewrite circuit_step_other by done. rewrite IH. f_equal.
    destruct e as [| |k' kind now]; simpl; rewrite ?app_nil_r; [done..|]. simpl in Hk.
    rewrite decide_False by done. by rewrite app_nil_r.
Qed.

(** a refusal closes an open circuit.  One late refusal or invalid-request
    answer of a call that was already in flight makes the route available at once,
    long before the retry time that the snapshot announced. *)
Theorem refusal_closes_open_circuit b k retry_at kind now now' :
  circuit_snapshot b k = Ok (SnapshotOpen retry_at) → affects_circuit kind = false → (now' < retry_at)%N →
  (allow b k now').2 = Ok false ∧ (allow (record_failure b k kind now).1 k now').2 = Ok true.
Proof.
  intros Hs Hk Hn. unfold circuit_snapshot in Hs. destruct (circuit_state b k) as [|t|] eqn:Hb; try done.
  injection Hs as ->. split.
  - destruct (allow_open b k _ now' Hb) as [-> _]. f_equal. by apply N.leb_gt.
  - unfold record_failure. rewrite Hk. cbn [negb fst]. unfold allow. by circuit_simpl.
Qed.

Lemma checked_shl_one_small shift : (shift < 64)%N → checked_shl_one shift = Some (2 ^ shift)%N.
Proof.
  intros Hs. unfold checked_shl_one. rewrite (proj2 (N.ltb_lt _ _)) by done. by rewrite N.shiftl_1_l.
Qed.

(** the retry delay is the bounded exponential backoff.  For 64-bit bounds the
    saturating arithmetic computes exactly the smaller of the base delay doubled
    once per completed attempt (at most 31 times) and the maximum; a delay the
    provider asks for is honoured up to the maximum; delays never shrink. *)
Theorem delay_for_exact p n m retry_after :
  (max_backoff_ms p ≤ U64_MAX)%N → (n ≤ m)%N →
  delay_for p n None = N.min (base_backoff_ms p * 2 ^ N.min (n - 1) 31) (max_backoff_ms p) ∧
  (delay_for p n (Some retry_after) = N.min retry_after (max_backoff_ms p))%N ∧
  (delay_for p n None ≤ delay_for p m None)%N.
Proof.
  intros Hmax Hnm.
  assert (∀ a, delay_for p a None = N.min (base_backoff_ms p * 2 ^ N.min (a - 1) 31) (max_backoff_ms p)) as Hd.
  { intros a. unfold delay_for. rewrite checked_shl_one_small by lia. cbn [default from_option id].
    unfold saturating_mul. lia. }
  rewrite !Hd. split_and!; [done|done|].
  assert (2 ^ N.min (n - 1) 31 ≤ 2 ^ N.min (m - 1) 31)%N by (apply N.pow_le_mono_r; lia). nia.
Qed.

(** ** Applications *)

Definition sample_circuit_key : CircuitKey := MkCircuitKey "local" "r1" SummarizeRegion.
Definition other_circuit_key : CircuitKey := MkCircuitKey "hosted" "r1" SummarizeRegion.
Definition sample_breaker : CircuitBreaker := MkCircuitBreaker CircuitBreakerConfig_default ∅.
Definition sample_failures : list CircuitEvent :=
  [EventFailure sample_circuit_key KindTimeout 5; EventSuccess other_circuit_key;
   EventFailure sample_circuit_key KindInternal 6; EventFailure sample_circuit_key KindUnavailable 7].

(** A request and a late failure on the waiting route. *)
Definition sample_waiting : list CircuitEvent :=
  [EventAllow sample_circuit_key 100; EventFailure sample_circuit_key KindTimeout 150; EventSuccess other_circuit_key].

Lemma open_circuit_then_one_probe_witness :
  let b' := run_circuit (run_circuit sample_breaker sample_failures) sample_waiting in
  let probing := run_circuit (allow b' sample_circuit_key 40000).1 [EventAllow sample_circuit_key 45000] in
  (allow b' sample_circuit_key 30100).2 = Ok false ∧ (allow b' sample_circuit_key 40000).2 = Ok true ∧
  (allow probing sample_circuit_key 50000).2 = Ok false ∧
  (allow (record_success probing sample_circuit_key).1 sample_circuit_key 50001).2 = Ok true.
Proof.
  intros b' probing.
  destruct (open_circuit_then_one_probe (run_circuit sample_breaker sample_failures) sample_circuit_key 30007
    sample_waiting 30150) as [H1 H2]; [by vm_compute|by vm_compute|].
  destruct (H2 40000%N) as [H3 H4]; [lia|]. destruct (H4 [EventAllow sample_circuit_key 45000]) as (H5 & H6 & _); [by repeat constructor|].
  split; [apply H1; lia|]. split; [exact H3|]. split; [exact (H5 50000%N)|exact (H6 50001%N)].
Defined.

Lemma circuit_opens_at_threshold_witness :
  circuit_state (run_circuit sample_breaker sample_failures) sample_circuit_key = Open 30007.
Proof.
  apply (circuit_opens_at_threshold CircuitBreakerConfig_default sample_breaker); [done|by vm_compute|].
  repeat constructor; try done; by vm_compute.
Defined.

Lemma refusal_closes_open_circuit_witness :
  (allow (record_failure (run_circuit sample_breaker sample_failures) sample_circuit_key KindRefusal 8).1
     sample_circuit_key 9).2 = Ok true.
Proof. apply (refusal_closes_open_circuit _ _ 30007); by vm_compute. Defined.

Lemma delay_for_exact_witness : delay_for RetryPolicy_default 3 None = 400%N.
Proof. apply (delay_for_exact RetryPolicy_default 3 3 0); [by vm_compute|lia]. Defined.
