(* ===== verification/ModelSchema.v ===== *)
(** * Structured outputs and prompt assets (crate contextdb-model, schema.rs and
    prompt.rs)

    Schema definitions, the validation of JSON values against them, the registry
    of immutable schemas that turns untrusted provider bytes into validated
    proposals, and the registry of prompt assets.

    The parser of [serde_json] is the class [JsonParser]: it gives the document
    as the sequence of visits that the deserializer makes, object members in the
    order of the text.  Without the feature [preserve_order] a JSON object is an
    ordered map, which is modelled by its entries in key order. *)

From Stdlib Require Import Strings.Ascii.
From stdpp Require Import pretty.
From S2P Require Import Prelude.
From S2P Require Import Ordering.
From S2P Require Import Bytes.
From S2P Require Import Json.
From S2P Require Import Format.
From S2P Require Import CoreBase.
From S2P Require Import Evidence.
From S2P Require Import ModelTypes.

(** ** JSON documents *)

(** What the deserializer shows to a visitor. *)
Inductive JsonDoc :=
  | DocUnit
  | DocBool (b : bool)
  | DocI64 (z : Z)
  | DocU64 (n : N)
  | DocF64 (bits : N)
  | DocStr (s : string)
  | DocSeq (items : list JsonDoc)
  | DocMap (members : list (string * JsonDoc)).
Class JsonParser := {
  json_doc : bytes → option JsonDoc;
  json_error : bytes → string;
}.

(** [visit_map]: the members are inserted one by one, a repeated key is refused. *)
Fixpoint insert_members (values : gmap string JsonValue) (members : list (string * option JsonValue))
    : option (gmap string JsonValue) :=
  match members with
  | [] => Some values
  | (key, value) :: rest =>
      if bool_decide (is_Some (values !! key)) then None
      else value ← value; insert_members (<[key := value]> values) rest
  end.

(** [NoDuplicateVisitor]. *)
Fixpoint no_duplicate_value (d : JsonDoc) : option JsonValue :=
  match d with
  | DocUnit => Some JNull
  | DocBool b => Some (JBool b)
  | DocI64 z => Some (JNumber (number_of_i64 z))
  | DocU64 n => Some (JNumber (PosInt n))
  | DocF64 bits => if is_finite bits then Some (JNumber (Float bits)) else None
  | DocStr s => Some (JString s)
  | DocSeq items => JArray <$> mapM id (List.map no_duplicate_value items)
  | DocMap members =>
      values ← insert_members ∅ (List.map (λ '(key, value), (key, no_duplicate_value value)) members);
      Some (JObject (bt_entries values))
  end.

(** [serde_json::from_slice::<NoDuplicateValue>]. *)
Definition from_slice `{JsonParser} (raw : bytes) : result string JsonValue :=
  ok_or (d ← json_doc raw; no_duplicate_value d) (json_error raw).

(** ** Schema definitions *)

Definition MAX_SCHEMA_DEPTH : N := 64.
Definition MAX_SCHEMA_COMPLEXITY : N := 100000.

(** The properties of an object are the entries of a [BTreeMap], in key order. *)
Inductive SchemaNode :=
  | SNull
  | SBoolean
  | SInteger (minimum maximum : option Z)
  | SNumber
  | SString (max_bytes : N) (allowed : gset string)
  | SArray (items : SchemaNode) (min_items max_items : N)
  | SObject (properties : list (string * SchemaNode)) (required : gset string) (allow_unknown_fields : bool)
  | SOneOf (variants : list SchemaNode).

Definition depth_error : ModelRuntimeError :=
  InvalidNumber "schema.depth" "schema nesting exceeds runtime limit".

(** [total.checked_add(child)?] over the children, each computed when it is reached. *)
Definition add_complexity (total : N) (child : ModelResult N) : ModelResult N :=
  let? c := child in ok_or (checked_add U32_MAX total c) ModelArithmeticOverflow.

(** Recursion is on the definition; [next] is [depth.saturating_add(1)]. *)
Fixpoint validate_definition (node : SchemaNode) (depth : N) : ModelResult N :=
  if (MAX_SCHEMA_DEPTH <? depth)%N then Err depth_error
  else
    let next := saturating_add USIZE_MAX depth 1 in
    let? child_complexity :=
      match node with
      | SNull | SBoolean | SNumber => Ok 0%N
      | SInteger (Some lo) (Some hi) =>
          if (hi <? lo)%Z then Err (InvalidNumber "schema.integer" "minimum exceeds maximum") else Ok 0%N
      | SInteger _ _ => Ok 0%N
      | SString max_bytes allowed =>
          if (max_bytes =? 0)%N || (MAX_TEXT_BYTES <? max_bytes)%N
          then Err (InvalidNumber "schema.string.max_bytes" "must be within runtime text bounds")
          else
            try? for_each (λ value, if (max_bytes <? str_len value)%N
                                    then Err (InvalidText "schema.string.allowed" "enumerated value exceeds string bound")
                                    else Ok tt) (bt_elements allowed) in
            Ok (default U32_MAX (try_from_max U32_MAX (N.of_nat (size allowed))))
      | SArray items min_items max_items =>
          if (max_items <? min_items)%N || (100000 <? max_items)%N
          then Err (InvalidNumber "schema.array" "invalid item bounds")
          else validate_definition items next
      | SObject properties required _ =>
          if (10000 <? len properties)%N || negb (bool_decide (required ⊆ list_to_set properties.*1))
          then Err (InvalidNumber "schema.object" "invalid property or required-field set")
          else try_fold add_complexity 0%N
                 (List.map (λ '(name, schema),
                    try? validate_text name "schema.object.property" 256 in validate_definition schema next) properties)
      | SOneOf variants =>
          if (len variants <? 2)%N || (64 <? len variants)%N
          then Err (InvalidNumber "schema.one_of" "must contain between 2 and 64 variants")
          else try_fold add_complexity 0%N (List.map (λ variant, validate_definition variant next) variants)
      end in
    ok_or (checked_add U32_MAX child_complexity 1) ModelArithmeticOverflow.

(** ** Validation of values *)

Definition schema_violation (path reason : string) : ModelRuntimeError :=
  SchemaViolation (if String.eqb path "" then "/" else path) reason.

Fixpoint escape_pointer (value : string) : string :=
  match value with
  | EmptyString => EmptyString
  | String c rest =>
      (if Ascii.eqb c "~"%char then "~0" else if Ascii.eqb c "/"%char then "~1" else String c EmptyString) +:+ escape_pointer rest
  end.

(** [BTreeMap::get]. *)
Fixpoint assoc_get {A} (key : string) (entries : list (string * A)) : option A :=
  match entries with
  | [] => None
  | (k, v) :: rest => if bool_decide (k = key) then Some v else assoc_get key rest
  end.

Definition pointer (path segment : string) : string := path +:+ "/" +:+ segment.

(** The loop of the array case: [index] counts the items. *)
Fixpoint each_item (check : JsonValue → string → ModelResult unit) (path : string) (index : N)
    (values : list JsonValue) : ModelResult unit :=
  match values with
  | [] => Ok tt
  | item :: rest => try? check item (pointer path (pretty index)) in each_item check path (index + 1) rest
  end.

Fixpoint validate_value (node : SchemaNode) (value : JsonValue) (path : string) (depth : N) : ModelResult unit :=
  if (MAX_SCHEMA_DEPTH <? depth)%N then Err (schema_violation path "value nesting exceeds schema limit")
  else
    let next := saturating_add USIZE_MAX depth 1 in
    let mismatch := Err (schema_violation path "JSON type does not match schema") in
    match node with
    | SNull => match value with JNull => Ok tt | _ => mismatch end
    | SBoolean => match value with JBool _ => Ok tt | _ => mismatch end
    | SNumber => if is_number value then Ok tt else mismatch
    | SInteger minimum maximum =>
        let? integer := ok_or (as_i64 value) (schema_violation path "expected signed integer") in
        if match minimum with Some m => (integer <? m)%Z | None => false end
           || match maximum with Some m => (m <? integer)%Z | None => false end
        then Err (schema_violation path "integer outside allowed range") else Ok tt
    | SString max_bytes allowed =>
        match value with
        | JString text =>
            if (max_bytes <? str_len text)%N then Err (schema_violation path "string exceeds byte limit")
            else if negb (bool_decide (allowed = ∅)) && negb (bool_decide (text ∈ allowed))
            then Err (schema_violation path "string is outside allowed ontology") else Ok tt
        | _ => Err (schema_violation path "expected string")
        end
    | SArray items min_items max_items =>
        match value with
        | JArray values =>
            if (len values <? min_items)%N || (max_items <? len values)%N
            then Err (schema_violation path "array outside item-count bounds")
            else each_item (λ item path, validate_value items item path next) path 0 values
        | _ => Err (schema_violation path "expected array")
        end
    | SObject properties required allow_unknown_fields =>
        let checks := List.map (λ '(name, schema), (name, validate_value schema)) properties in
        match value with
        | JObject members =>
            try? for_each (λ name, if bool_decide (name ∈ members.*1) then Ok tt
                                   else Err (schema_violation (pointer path (escape_pointer name))
                                          "required property is missing")) (bt_elements required) in
            for_each (λ '(name, child),
              match assoc_get name checks with
              | Some check => check child (pointer path (escape_pointer name)) next
              | None => if allow_unknown_fields then Ok tt
                        else Err (schema_violation (pointer path (escape_pointer name)) "unknown property")
              end) members
        | _ => Err (schema_violation path "expected object")
        end
    | SOneOf variants =>
        let matches := List.map (λ variant, is_ok (validate_value variant value path depth)) variants in
        if negb (len (filter (λ b, b = true) matches) =? 1)%N
        then Err (schema_violation path "expected exactly one matching variant") else Ok tt
    end.

(** ** Schemas and their registry *)

Record StructuredSchema := MkStructuredSchema {
  ss_id : SchemaId;
  ss_version : N;
  ss_root : SchemaNode;
  ss_max_output_bytes : N;
  ss_complexity : N;
  ss_reference : SchemaRef;
}.
Record SchemaDigestInput := MkSchemaDigestInput {
  sdi_id : SchemaId;
  sdi_version : N;
  sdi_root : SchemaNode;
  sdi_max_output_bytes : N;
  sdi_complexity : N;
}.

Definition SCHEMA_DOMAIN : bytes := str_bytes "contextdb-model-schema-v1" ++ [x00].
Definition VALIDATED_OUTPUT_DOMAIN : bytes := str_bytes "contextdb-model-validated-output-v1" ++ [x00].

(** A trait object of [SemanticOutputValidator] is its function. *)
Abbreviation SemanticOutputValidator := (JsonValue → result string unit).
Definition NoopSemanticValidator : SemanticOutputValidator := λ _, Ok tt.

Record SchemaContract := MkSchemaContract {
  contract_schema : StructuredSchema;
  contract_semantic : SemanticOutputValidator;
}.
Record SchemaRegistry := MkSchemaRegistry { schema_entries : gmap (SchemaId * N) SchemaContract }.
Definition SchemaRegistry_new : SchemaRegistry := MkSchemaRegistry ∅.

Record ValidatedModelProposal := MkValidatedModelProposal {
  proposal_schema : SchemaRef;
  output_digest : ContentDigest;
  proposal_raw : bytes;
  proposal_value : JsonValue;
}.

Section schemas.
Context `{Blake3, Serialize SchemaDigestInput}.

Definition StructuredSchema_new (id : SchemaId) (version : N) (root : SchemaNode) (max_output_bytes : N)
    : ModelResult StructuredSchema :=
  if (version =? 0)%N || (max_output_bytes =? 0)%N || (64 * 1024 * 1024 <? max_output_bytes)%N
  then Err (InvalidNumber "structured_schema" "version and byte budget must be within runtime limits")
  else
    let? complexity := validate_definition root 0 in
    if (MAX_SCHEMA_COMPLEXITY <? complexity)%N
    then Err (InvalidNumber "structured_schema.complexity" "schema exceeds runtime complexity limit")
    else
      let? digest := canonical_digest SCHEMA_DOMAIN
        (MkSchemaDigestInput id version root max_output_bytes complexity) in
      Ok (MkStructuredSchema id version root max_output_bytes complexity (MkSchemaRef id version digest)).

Definition StructuredSchema_verify (s : StructuredSchema) : ModelResult unit :=
  let? rebuilt := StructuredSchema_new (ss_id s) (ss_version s) (ss_root s) (ss_max_output_bytes s) in
  if negb (bool_decide (ss_reference rebuilt = ss_reference s)) || negb (ss_complexity rebuilt =? ss_complexity s)%N
  then Err (SchemaUnavailable (ss_reference s)) else Ok tt.

Definition register_schema (reg : SchemaRegistry) (s : StructuredSchema) (semantic : SemanticOutputValidator)
    : SchemaRegistry * ModelResult SchemaRef :=
  match StructuredSchema_verify s with
  | Err e => (reg, Err e)
  | Ok _ =>
      let key := (ss_id s, ss_version s) in
      match schema_entries reg !! key with
      | Some existing =>
          if bool_decide (ss_reference (contract_schema existing) = ss_reference s)
          then (reg, Ok (ss_reference (contract_schema existing)))
          else (reg, Err (RegistryConflict ("schema " +:+ ss_id s +:+ " version " +:+ pretty (ss_version s))))
      | None => (MkSchemaRegistry (<[key := MkSchemaContract s semantic]> (schema_entries reg)), Ok (ss_reference s))
      end
  end.
Definition register_structural (reg : SchemaRegistry) (s : StructuredSchema) : SchemaRegistry * ModelResult SchemaRef :=
  register_schema reg s NoopSemanticValidator.

Definition schema_contract (reg : SchemaRegistry) (r : SchemaRef) : ModelResult SchemaContract :=
  ok_or (c ← schema_entries reg !! (schema_id r, schema_version r);
         if bool_decide (ss_reference (contract_schema c) = r) then Some c else None)
    (SchemaUnavailable r).
Definition schema_contains (reg : SchemaRegistry) (r : SchemaRef) : bool := is_ok (schema_contract reg r).
Definition schema_complexity (reg : SchemaRegistry) (r : SchemaRef) : ModelResult N :=
  map_ok (λ c, ss_complexity (contract_schema c)) (schema_contract reg r).

(** An overlong message of a semantic validator is replaced. *)
Definition safe_violation (message : string) : string :=
  if (str_len message <=? 512)%N then message else "semantic validator returned an overlong violation".

Definition validate_raw `{JsonParser} (reg : SchemaRegistry) (r : SchemaRef) (raw : bytes)
    : ModelResult ValidatedModelProposal :=
  let? contract := schema_contract reg r in
  if (ss_max_output_bytes (contract_schema contract) <? len raw)%N
  then Err (OutputTooLarge (ss_max_output_bytes (contract_schema contract)))
  else
    let? value := map_err MalformedJson (from_slice raw) in
    try? validate_value (ss_root (contract_schema contract)) value "" 0 in
    try? map_err (λ message, SemanticViolation (safe_violation message)) (contract_semantic contract value) in
    Ok (MkValidatedModelProposal r (digest_parts VALIDATED_OUTPUT_DOMAIN [digest_bytes (schema_digest r); raw]) raw value).
End schemas.

(** ** Prompt assets *)

Definition MAX_PROMPT_BYTES : N := 1024 * 1024.

Record PromptAssetDefinition := MkPromptAssetDefinition {
  pd_id : PromptAssetId;
  pd_version : N;
  pd_capability : ModelCapability;
  pd_output_schema : SchemaRef;
  pd_system_text : string;
  pd_purpose : string;
  pd_allowed_ontology : gset string;
  pd_token_budget : N;
  pd_privacy_classification : Sensitivity;
  pd_change_notes : string;
  pd_minimum_golden_score : BasisPoints;
  pd_minimum_adversarial_score : BasisPoints;
  pd_evaluated_languages : gset LanguageTag;
  pd_golden_case_digests : gset ContentDigest;
  pd_adversarial_case_digests : gset ContentDigest;
}.

(** A [PromptAsset] has the fields of its definition and the reference; the same
    fields are what [PromptDigestInput] serialises. *)
Record PromptAsset := MkPromptAsset {
  asset_definition : PromptAssetDefinition;
  asset_reference : PromptAssetRef;
}.
Record PromptRegistry := MkPromptRegistry { prompt_assets : gmap (PromptAssetId * N) PromptAsset }.

Definition PROMPT_DOMAIN : bytes := str_bytes "contextdb-model-prompt-asset-v1" ++ [x00].

Definition validate_prompt (d : PromptAssetDefinition) : ModelResult unit :=
  if (pd_version d =? 0)%N || (pd_token_budget d =? 0)%N
  then Err (InvalidNumber "prompt_asset" "version and token budget must be positive")
  else
    try? ModelCapability_validate (pd_capability d) in
    try? validate_text (pd_system_text d) "prompt_asset.system_text" MAX_PROMPT_BYTES in
    try? validate_text (pd_purpose d) "prompt_asset.purpose" MAX_TEXT_BYTES in
    try? validate_text (pd_change_notes d) "prompt_asset.change_notes" MAX_TEXT_BYTES in
    try? for_each (λ value, validate_text value "prompt_asset.allowed_ontology" MAX_ID_BYTES)
           (bt_elements (pd_allowed_ontology d)) in
    if bool_decide (pd_evaluated_languages d = ∅) || bool_decide (pd_golden_case_digests d = ∅)
       || bool_decide (pd_adversarial_case_digests d = ∅)
       || existsb zero_digest (bt_elements (pd_golden_case_digests d) ++ bt_elements (pd_adversarial_case_digests d))
    then Err (InvalidNumber "prompt_asset.evaluation_cases"
                "languages, golden cases, and adversarial cases must be recorded")
    else if (schema_version (pd_output_schema d) =? 0)%N
    then Err (InvalidNumber "prompt_asset.output_schema" "schema version must be positive")
    else Ok tt.

Section prompts.
Context `{Blake3, Serialize PromptAssetDefinition}.

Definition PromptAsset_new (d : PromptAssetDefinition) : ModelResult PromptAsset :=
  try? validate_prompt d in
  let? digest := canonical_digest PROMPT_DOMAIN d in
  Ok (MkPromptAsset d (MkPromptAssetRef (pd_id d) (pd_version d) digest)).

Definition PromptAsset_verify (a : PromptAsset) : ModelResult unit :=
  let? rebuilt := PromptAsset_new (asset_definition a) in
  if negb (bool_decide (asset_reference rebuilt = asset_reference a)) then Err PromptUnavailable else Ok tt.

Definition register_prompt (reg : PromptRegistry) (a : PromptAsset) : PromptRegistry * ModelResult PromptAssetRef :=
  match PromptAsset_verify a with
  | Err e => (reg, Err e)
  | Ok _ =>
      let d := asset_definition a in
      let key := (pd_id d, pd_version d) in
      match prompt_assets reg !! key with
      | Some existing =>
          if bool_decide (asset_reference existing = asset_reference a) then (reg, Ok (asset_reference existing))
          else (reg, Err (RegistryConflict ("prompt " +:+ pd_id d +:+ " version " +:+ pretty (pd_version d))))
      | None => (MkPromptRegistry (<[key := a]> (prompt_assets reg)), Ok (asset_reference a))
      end
  end.

Definition get_prompt (reg : PromptRegistry) (r : PromptAssetRef) : ModelResult PromptAsset :=
  ok_or (a ← prompt_assets reg !! (prompt_id r, prompt_version r);
         if bool_decide (asset_reference a = r) then Some a else None)
    PromptUnavailable.
End prompts.

(** ** What a schema means *)

Fixpoint exactly_one (l : list Prop) : Prop :=
  match l with
  | [] => False
  | P :: rest => P ∧ Forall not rest ∨ ¬ P ∧ exactly_one rest
  end.

Fixpoint conforms (node : SchemaNode) (v : JsonValue) : Prop :=
  match node with
  | SNull => v = JNull
  | SBoolean => ∃ b, v = JBool b
  | SNumber => ∃ n, v = JNumber n
  | SInteger minimum maximum =>
      ∃ z, as_i64 v = Some z ∧ (∀ m, minimum = Some m → (m ≤ z)%Z) ∧ (∀ m, maximum = Some m → (z ≤ m)%Z)
  | SString max_bytes allowed => ∃ s, v = JString s ∧ (str_len s ≤ max_bytes)%N ∧ (allowed = ∅ ∨ s ∈ allowed)
  | SArray items min_items max_items =>
      ∃ vs, v = JArray vs ∧ (min_items ≤ len vs ≤ max_items)%N ∧ Forall (conforms items) vs
  | SObject properties required allow_unknown_fields =>
      ∃ ms, v = JObject ms ∧ (∀ name, name ∈ required → name ∈ ms.*1) ∧
        Forall (λ '(name, child),
          match assoc_get name (List.map (λ '(name, schema), (name, conforms schema)) properties) with
          | Some meets => meets child
          | None => allow_unknown_fields = true
          end) ms
  | SOneOf variants => exactly_one (List.map (λ variant, conforms variant v) variants)
  end.

Lemma SchemaNode_nested_ind (P : SchemaNode → Prop) :
  P SNull → P SBoolean → (∀ lo hi, P (SInteger lo hi)) → P SNumber → (∀ m a, P (SString m a)) →
  (∀ items lo hi, P items → P (SArray items lo hi)) →
  (∀ ps required unknown, Forall (λ p : string * SchemaNode, P p.2) ps → P (SObject ps required unknown)) →
  (∀ vs, Forall P vs → P (SOneOf vs)) → ∀ node, P node.
Proof.
  intros H1 H2 H3 H4 H5 H6 H7 H8. fix IH 1. intros [| |lo hi| |m a|items lo hi|ps required unknown|vs].
  - exact H1.
  - exact H2.
  - apply H3.
  - exact H4.
  - apply H5.
  - apply H6, IH.
  - apply H7. induction ps as [|[k s] ps IHps]; constructor; [apply IH|exact IHps].
  - apply H8. induction vs as [|s vs IHvs]; constructor; [apply IH|exact IHvs].
Qed.

Lemma add_complexity_Ok l acc total : try_fold add_complexity acc l = Ok total → Forall (λ r, ∃ c, r = Ok c) l.
Proof.
  revert acc. induction l as [|r l IH]; intros acc; [by constructor|]. cbn [try_fold].
  intros (c & Hc & Hl)%result_bind_Ok. unfold add_complexity in Hc. apply result_bind_Ok in Hc as (x & -> & _).
  constructor; [by exists x|by eapply IH].
Qed.

Lemma exactly_one_count (bs : list bool) (Ps : list Prop) :
  Forall2 (λ b P, b = true ↔ P) bs Ps →
  (length (filter (λ b, b = true) bs) = 0%nat ↔ Forall not Ps) ∧
  (length (filter (λ b, b = true) bs) = 1%nat ↔ exactly_one Ps).
Proof.
  induction 1 as [|b P bs Ps Hb _ [IH0 IH1]].
  { cbn. rewrite Forall_nil. naive_solver lia. }
  rewrite filter_cons. cbn [exactly_one]. rewrite Forall_cons, <- IH0, <- IH1. destruct b.
  - rewrite decide_True by done. cbn [length]. naive_solver lia.
  - rewrite decide_False by done. naive_solver lia.
Qed.

Lemma each_item_Ok check path index vs :
  each_item check path index vs = Ok tt ↔
  ∀ i v, vs !! i = Some v → check v (pointer path (pretty (index + N.of_nat i)%N)) = Ok tt.
Proof.
  revert index. induction vs as [|v vs IH]; intros index; cbn [each_item].
  { split; [intros _ i v Hi; by rewrite lookup_nil in Hi|done]. }
  rewrite try_Ok, IH. split.
  - intros [Hv Hvs] [|i] w; simpl; [intros [= <-]; by rewrite N.add_0_r|]. intros Hw. specialize (Hvs i w Hw).
    by replace (index + N.of_nat (S i))%N with (index + 1 + N.of_nat i)%N by lia.
  - intros Hall. split; [specialize (Hall 0%nat v eq_refl); by rewrite N.add_0_r in Hall|].
    intros i w Hw. specialize (Hall (S i) w Hw). by replace (index + 1 + N.of_nat i)%N with (index + N.of_nat (S i))%N by lia.
Qed.

(** The definition was accepted at depth [def], the value is looked at no deeper. *)
Definition exact_at (node : SchemaNode) : Prop :=
  ∀ def c path depth v, validate_definition node def = Ok c → (depth ≤ def)%N →
    validate_value node v path depth = Ok tt ↔ conforms node v.

Lemma definition_depth node def c :
  validate_definition node def = Ok c → (def ≤ MAX_SCHEMA_DEPTH)%N.
Proof.
  destruct node; cbn [validate_definition]; destruct (N.ltb_spec MAX_SCHEMA_DEPTH def); by intros.
Qed.

(** Opens the two functions once the depth is known to be in bounds. *)
Ltac open_value :=
  intros def c path depth v Hdef Hdepth; pose proof (definition_depth _ _ _ Hdef) as Hmax;
  cbn [validate_definition] in Hdef; rewrite (proj2 (N.ltb_ge _ _) Hmax) in Hdef; cbn zeta in Hdef;
  apply result_bind_Ok in Hdef as (child & Hdef & _);
  cbn [validate_value conforms]; rewrite (proj2 (N.ltb_ge MAX_SCHEMA_DEPTH depth)) by lia; cbn zeta.

Lemma below_minimum (minimum : option Z) z :
  match minimum with Some m => (z <? m)%Z | None => false end = false ↔ ∀ m, minimum = Some m → (m ≤ z)%Z.
Proof. destruct minimum as [m|]; [rewrite Z.ltb_ge|]; naive_solver. Qed.
Lemma above_maximum (maximum : option Z) z :
  match maximum with Some m => (m <? z)%Z | None => false end = false ↔ ∀ m, maximum = Some m → (z ≤ m)%Z.
Proof. destruct maximum as [m|]; [rewrite Z.ltb_ge|]; naive_solver. Qed.

Lemma integer_exact lo hi : exact_at (SInteger lo hi).
Proof.
  open_value. destruct (as_i64 v) as [z|]; cbn [ok_or result_bind]; [|naive_solver].
  trans ((∀ m, lo = Some m → (m ≤ z)%Z) ∧ (∀ m, hi = Some m → (z ≤ m)%Z)); [|naive_solver].
  rewrite <- below_minimum, <- above_maximum, <- orb_false_iff. by destruct (_ || _).
Qed.

Lemma string_exact m allowed : exact_at (SString m allowed).
Proof.
  open_value. destruct v as [| | |s| |]; try naive_solver.
  destruct (N.ltb_spec m (str_len s)); [split; [done|]; intros (? & [= <-] & ? & _); lia|].
  destruct (bool_decide_reflect (allowed = ∅)), (bool_decide_reflect (s ∈ allowed)); naive_solver.
Qed.

Lemma array_exact items lo hi : exact_at items → exact_at (SArray items lo hi).
Proof.
  intros IH. open_value. destruct ((hi <? lo)%N || (100000 <? hi)%N); [done|].
  destruct v as [| | | |vs|]; try naive_solver.
  destruct (N.ltb_spec (len vs) lo), (N.ltb_spec hi (len vs)); cbn [orb];
    try (split; [done|]; intros (? & [= <-] & [? ?] & _); lia).
  rewrite each_item_Ok. trans (Forall (conforms items) vs).
  - rewrite Forall_lookup. apply forall_proper; intros i. apply forall_proper; intros w.
    apply imp_iff; intros _. apply (IH _ _ _ _ _ Hdef). unfold saturating_add. lia.
  - naive_solver.
Qed.

Lemma assoc_get_map {A B} (f : A → B) name (l : list (string * A)) :
  assoc_get name (List.map (λ '(k, x), (k, f x)) l) = f <$> assoc_get name l.
Proof. induction l as [|[k x] l IH]; cbn; [done|]. by destruct (bool_decide (k = name)). Qed.
Lemma assoc_get_in {A} name (l : list (string * A)) x : assoc_get name l = Some x → (name, x) ∈ l.
Proof.
  induction l as [|[k y] l IH]; cbn; [done|]. destruct (bool_decide_reflect (k = name)) as [->|].
  - intros [= ->]. by left.
  - intros Hx. right. by apply IH.
Qed.

Lemma object_exact ps required unknown :
  Forall (λ p : string * SchemaNode, exact_at p.2) ps → exact_at (SObject ps required unknown).
Proof.
  intros IH. open_value. destruct (_ || _); [done|]. apply add_complexity_Ok in Hdef.
  pose proof (proj1 (Forall_forall _ _) Hdef) as Hdefs. pose proof (proj1 (Forall_forall _ _) IH) as IHs.
  assert (∀ name s child path', assoc_get name ps = Some s →
    validate_value s child path' (saturating_add USIZE_MAX depth 1) = Ok tt ↔ conforms s child) as Hchild.
  { intros name s child' path' Hs%assoc_get_in. pose proof (IHs _ Hs) as Hexact.
    destruct (Hdefs (try? validate_text name "schema.object.property" 256 in
      validate_definition s (saturating_add USIZE_MAX def 1))) as [x Hx].
    { apply list_elem_of_In, in_map_iff. exists (name, s). by rewrite <- list_elem_of_In. }
    apply result_bind_Ok in Hx as ([] & _ & Hx). apply (Hexact _ _ _ _ _ Hx). unfold saturating_add. lia. }
  destruct v as [| | | | |ms]; try naive_solver. rewrite try_Ok, !for_each_Ok, Forall_forall.
  trans ((∀ name, name ∈ required → name ∈ ms.*1) ∧ Forall (λ '(name, child),
    match assoc_get name (List.map (λ '(name, schema), (name, conforms schema)) ps) with
    | Some meets => meets child | None => unknown = true end) ms); [|naive_solver].
  apply Morphisms_Prop.and_iff_morphism.
  - apply forall_proper; intros name. rewrite bt_elements_elem. apply imp_iff; intros _.
    destruct (bool_decide_reflect (name ∈ ms.*1)); naive_solver.
  - rewrite !Forall_forall. apply forall_proper; intros [name child']. apply imp_iff; intros _.
    rewrite !assoc_get_map. destruct (assoc_get name ps) as [s|] eqn:Hs; cbn [fmap option_fmap option_map].
    + by apply (Hchild name).
    + by destruct unknown.
Qed.

Lemma one_of_exact vs : Forall exact_at vs → exact_at (SOneOf vs).
Proof.
  intros IH. open_value. destruct (_ || _); [done|]. apply add_complexity_Ok in Hdef.
  destruct (exactly_one_count (List.map (λ variant, is_ok (validate_value variant v path depth)) vs)
    (List.map (λ variant, conforms variant v) vs)) as [_ <-].
  { induction vs as [|s vs IHvs]; constructor.
    - apply Forall_cons in IH as [IH _]. apply Forall_cons in Hdef as [[x Hx] _].
      rewrite <- (IH _ _ path depth v Hx) by (unfold saturating_add, MAX_SCHEMA_DEPTH, USIZE_MAX, U64_MAX in *; lia).
      destruct (validate_value s v path depth) as [[]|]; naive_solver.
    - apply IHvs; [by inversion IH|by inversion Hdef]. }
  unfold len. destruct (N.eqb_spec (N.of_nat (length (filter (λ b, b = true)
    (List.map (λ variant, is_ok (validate_value variant v path depth)) vs)))) 1); cbn [negb]; split; (try done); lia.
Qed.

Lemma node_exact node : exact_at node.
Proof.
  induction node using SchemaNode_nested_ind.
  - open_value. destruct v; naive_solver.
  - open_value. destruct v; naive_solver.
  - apply integer_exact.
  - open_value. destruct v; naive_solver.
  - apply string_exact.
  - by apply array_exact.
  - by apply object_exact.
  - by apply one_of_exact.
Qed.

(** ** The registry *)

Section registry.
Context `{Blake3, Serialize SchemaDigestInput}.

Definition register_all (reg : SchemaRegistry) (ss : list (StructuredSchema * SemanticOutputValidator)) : SchemaRegistry :=
  foldl (λ reg '(s, semantic), (register_schema reg s semantic).1) reg ss.

Lemma register_schema_entries reg s semantic key c :
  schema_entries (register_schema reg s semantic).1 !! key = Some c ↔
  schema_entries reg !! key = Some c ∨
  schema_entries reg !! key = None ∧ key = (ss_id s, ss_version s) ∧ c = MkSchemaContract s semantic ∧
    StructuredSchema_verify s = Ok tt.
Proof.
  unfold register_schema. destruct (StructuredSchema_verify s) as [[]|]; [|naive_solver].
  destruct (schema_entries reg !! (ss_id s, ss_version s)) as [old|] eqn:Hold.
  - destruct (bool_decide _); naive_solver.
  - cbn. rewrite lookup_insert_Some. naive_solver.
Qed.

(** Registrations only add entries, and every entry has been verified. *)
Lemma register_all_entries ss reg key c :
  schema_entries (register_all reg ss) !! key = Some c →
  schema_entries reg !! key = Some c ∨ StructuredSchema_verify (contract_schema c) = Ok tt.
Proof.
  revert reg. induction ss as [|[s semantic] ss IH]; intros reg; cbn; [by left|]. intros [Hc|]%IH; [|by right].
  apply register_schema_entries in Hc as [?|(_ & _ & -> & ?)]; [by left|by right].
Qed.
Lemma register_all_mono ss reg key c :
  schema_entries reg !! key = Some c → schema_entries (register_all reg ss) !! key = Some c.
Proof.
  revert reg. induction ss as [|[s semantic] ss IH]; intros reg Hc; cbn; [done|].
  apply IH, register_schema_entries. by left.
Qed.

Lemma schema_contract_Ok reg r c :
  schema_contract reg r = Ok c ↔
  schema_entries reg !! (schema_id r, schema_version r) = Some c ∧ ss_reference (contract_schema c) = r.
Proof.
  unfold schema_contract. rewrite ok_or_Ok, bind_Some. split.
  - intros (c' & Hc & Hr). case_bool_decide; naive_solver.
  - intros [Hc Hr]. exists c. by rewrite bool_decide_true.
Qed.

Lemma verified_definition s :
  StructuredSchema_verify s = Ok tt → ∃ c, validate_definition (ss_root s) 0 = Ok c.
Proof.
  intros (s' & Hs & _)%result_bind_Ok. unfold StructuredSchema_new in Hs.
  destruct (_ || _ || _); [done|]. apply result_bind_Ok in Hs as (c & Hc & _). by exists c.
Qed.

Context `{JsonParser}.

(** C29: provider bytes become a proposal exactly when they meet the registered
    contract.  In a registry built by any registrations, the reference must name a
    registered schema, the bytes must be within its limit and parse as JSON without
    repeated keys, the value must conform to the schema, as the schema's meaning
    says, and the semantic validator must accept it; the proposal is then those
    bytes with that value.  Later registrations never change the answer. *)
Theorem validate_raw_exact ss reg r raw p :
  reg = register_all SchemaRegistry_new ss →
  (validate_raw reg r raw = Ok p ↔
   ∃ c v, schema_entries reg !! (schema_id r, schema_version r) = Some c ∧ ss_reference (contract_schema c) = r ∧
     (len raw ≤ ss_max_output_bytes (contract_schema c))%N ∧ from_slice raw = Ok v ∧
     conforms (ss_root (contract_schema c)) v ∧ contract_semantic c v = Ok tt ∧
     p = MkValidatedModelProposal r (digest_parts VALIDATED_OUTPUT_DOMAIN [digest_bytes (schema_digest r); raw]) raw v) ∧
  (validate_raw reg r raw = Ok p → ∀ more, validate_raw (register_all reg more) r raw = Ok p).
Proof.
  intros ->. split.
  - unfold validate_raw. rewrite result_bind_Ok. setoid_rewrite schema_contract_Ok. split.
    + intros (c & [Hc Hr] & Hp). destruct (N.ltb_spec (ss_max_output_bytes (contract_schema c)) (len raw)); [done|].
      apply result_bind_Ok in Hp as (v & Hv%map_err_Ok & ([] & Hval & ([] & Hsem%map_err_Ok & [= <-])%result_bind_Ok)%result_bind_Ok).
      exists c, v. destruct (register_all_entries _ _ _ _ Hc) as [Hno|[x Hx]%verified_definition]; [done|].
      apply (node_exact _ _ _ _ _ _ Hx) in Hval; [|done]. by split_and!.
    + intros (c & v & Hc & Hr & Hlen & Hv & Hval & Hsem & ->). exists c. split; [done|].
      rewrite (proj2 (N.ltb_ge _ _) Hlen), Hv. cbn [map_err result_bind].
      destruct (register_all_entries _ _ _ _ Hc) as [Hno|[x Hx]%verified_definition]; [done|].
      rewrite (proj2 (node_exact _ _ _ "" 0%N v Hx (N.le_refl _)) Hval). cbn [result_bind]. by rewrite Hsem.
  - unfold validate_raw. intros (c & [Hc Hr]%schema_contract_Ok & Hp)%result_bind_Ok more.
    rewrite (proj2 (schema_contract_Ok _ r c)); [done|]. split; [by apply register_all_mono|done].
Qed.
End registry.

(** ** Applications *)

#[local] Existing Instance sample_blake3.
#[local] Instance sample_schema_json : Serialize SchemaDigestInput := λ s, Some (str_bytes (sdi_id s)).
(** Accepts one text: an object with the member [ok]. *)
#[local] Instance sample_parser : JsonParser := {|
  json_doc raw := if bool_decide (raw = [x7b]) then Some (DocMap [("ok"%string, DocBool true)]) else None;
  json_error _ := "syntax"%string;
|}.

Definition sample_schema_root : SchemaNode := SObject [("ok"%string, SBoolean)] {["ok"%string]} false.
Definition sample_schema : StructuredSchema :=
  match StructuredSchema_new "summary" 1 sample_schema_root 100 with
  | Ok s => s
  | Err _ => MkStructuredSchema "" 0 SNull 0 0 (MkSchemaRef "" 0 (digest_parts [] []))
  end.
Definition sample_schemas : SchemaRegistry := register_all SchemaRegistry_new [(sample_schema, NoopSemanticValidator)].

Lemma validate_raw_exact_witness :
  ∃ p, validate_raw sample_schemas (ss_reference sample_schema) [x7b] = Ok p ∧
       proposal_value p = JObject [("ok"%string, JBool true)].
Proof.
  eexists. split.
  - apply (validate_raw_exact [(sample_schema, NoopSemanticValidator)] sample_schemas); [done|].
    exists (MkSchemaContract sample_schema NoopSemanticValidator), (JObject [("ok"%string, JBool true)]).
    split_and!; [by vm_compute..| |done|done]. exists [("ok"%string, JBool true)]. split_and!; [done| |].
    + set_solver.
    + repeat constructor. by exists true.
  - done.
Defined.
