(* ===== verification/Routing.v ===== *)
(** * Routing (crate contextdb-model, policy.rs and registry.rs)

    The registry of model profiles and capability routes, the routing policy with
    its cost budgets, protected inputs and the evaluation that decides which
    routes may see which payload, in which order. *)

From S2P Require Import Prelude.
From S2P Require Import Ordering.
From S2P Require Import Bytes.
From S2P Require Import Format.
From S2P Require Import CoreBase.
From S2P Require Import Provenance.
From S2P Require Import Evidence.
From S2P Require Import ModelTypes.

(** ** Budgets *)

Inductive BudgetScope :=
  | ScopeOperation (id : string)
  | ScopeSession (id : string)
  | ScopeAgent (id : string)
  | ScopeWorkspace (id : WorkspaceId)
  | ScopePeriod (workspace_id : WorkspaceId) (bucket : string)
  | ScopeCapability (capability : ModelCapability)
  | ScopeProvider (provider : ProviderId).
#[export] Instance BudgetScope_eq_dec : EqDecision BudgetScope.
Proof. solve_decision. Defined.

(** The key of the derived order: the variant, then its fields in order. *)
Definition budget_scope_key (s : BudgetScope) : N * (N * (string * (N * string))) :=
  match s with
  | ScopeOperation id => (0, (0, (id, (0, ""))))
  | ScopeSession id => (1, (0, (id, (0, ""))))
  | ScopeAgent id => (2, (0, (id, (0, ""))))
  | ScopeWorkspace id => (3, (id_value id, ("", (0, ""))))
  | ScopePeriod workspace bucket => (4, (id_value workspace, (bucket, (0, ""))))
  | ScopeCapability c => (5, (0, ("", capability_key c)))
  | ScopeProvider p => (6, (0, (p, (0, ""))))
  end%N.
Definition budget_scope_of_key (k : N * (N * (string * (N * string)))) : option BudgetScope :=
  let '(tag, (workspace, (text, cap))) := k in
  match tag with
  | 0 => Some (ScopeOperation text)
  | 1 => Some (ScopeSession text)
  | 2 => Some (ScopeAgent text)
  | 3 => ScopeWorkspace <$> id_of "WorkspaceId" workspace
  | 4 => w ← id_of "WorkspaceId" workspace; Some (ScopePeriod w text)
  | 5 => ScopeCapability <$> capability_of_key cap
  | _ => Some (ScopeProvider text)
  end%N.
Lemma budget_scope_of_budget_scope_key s : budget_scope_of_key (budget_scope_key s) = Some s.
Proof. destruct s; cbn; rewrite ?id_of_value, ?capability_of_capability_key; done. Qed.
#[export] Instance budget_scope_key_inj : Inj (=) (=) budget_scope_key.
Proof.
  intros a b Heq%(f_equal budget_scope_of_key). rewrite !budget_scope_of_budget_scope_key in Heq. congruence.
Qed.
#[export] Instance BudgetScope_countable : Countable BudgetScope :=
  inj_countable budget_scope_key budget_scope_of_key budget_scope_of_budget_scope_key.
#[export] Instance BudgetScope_Ordered : Ordered BudgetScope := Ordered_inj budget_scope_key.

Definition BudgetScope_validate (s : BudgetScope) : ModelResult unit :=
  match s with
  | ScopeOperation id | ScopeSession id | ScopeAgent id => validate_text id "budget_scope.id" 256
  | ScopePeriod _ bucket => validate_text bucket "budget_scope.bucket" 256
  | ScopeCapability c => ModelCapability_validate c
  | ScopeWorkspace _ | ScopeProvider _ => Ok tt
  end.

Record CostBudget := MkCostBudget {
  budget_currency : CurrencyCode;
  remaining_micros : gmap BudgetScope N;
}.
Definition CostBudget_validate (b : CostBudget) : ModelResult unit :=
  for_each BudgetScope_validate (bt_keys (remaining_micros b)).

Definition scope_relevant (s : BudgetScope) (p : ProviderId) (c : ModelCapability) : bool :=
  match s with
  | ScopeProvider constrained => bool_decide (constrained = p)
  | ScopeCapability constrained => bool_decide (constrained = c)
  | _ => true
  end.
Definition budget_allows (b : CostBudget) (estimate : N) (p : ProviderId) (c : ModelCapability) : bool :=
  forallb (λ '(scope, remaining), negb (scope_relevant scope p c) || (estimate <=? remaining)%N)
    (bt_entries (remaining_micros b)).

(** ** Routing policy *)

Record RoutingPolicy := MkRoutingPolicy {
  purpose : string;
  allow_external : bool;
  local_only : bool;
  external_consent : bool;
  provider_allowlist : gset ProviderId;
  allowed_regions : gset RegionId;
  require_no_training : bool;
  require_no_retention : bool;
  redact_before_external : bool;
  max_estimated_cost_micros : N;
  max_expected_p95_ms : N;
  minimum_benchmark_score : BasisPoints;
  minimum_schema_reliability : BasisPoints;
  preferred_providers : list ProviderId;
  cost_budget : CostBudget;
}.

Fixpoint check_preferred (distinct : gset ProviderId) (providers : list ProviderId) : ModelResult unit :=
  match providers with
  | [] => Ok tt
  | p :: rest =>
      if bool_decide (p ∈ distinct) then Err (RegistryConflict "duplicate preferred provider")
      else check_preferred (distinct ∪ {[p]}) rest
  end.
Definition RoutingPolicy_validate (p : RoutingPolicy) : ModelResult unit :=
  try? validate_text (purpose p) "routing_policy.purpose" MAX_TEXT_BYTES in
  if (max_expected_p95_ms p =? 0)%N
  then Err (InvalidNumber "routing_policy.max_expected_p95_ms" "must be positive")
  else
    try? check_preferred ∅ (preferred_providers p) in
    CostBudget_validate (cost_budget p).

(** The tuple that the fingerprint serialises: the policy with the budget as its
    ordered entries. *)
Record RoutingDigestInput := MkRoutingDigestInput {
  rdi_policy : RoutingPolicy;
  rdi_budget_entries : list (BudgetScope * N);
}.
Definition ROUTING_POLICY_DOMAIN : bytes := str_bytes "contextdb-model-routing-policy-v1" ++ [x00].
Definition RoutingPolicy_digest `{Blake3, Serialize RoutingDigestInput} (p : RoutingPolicy) : ModelResult ContentDigest :=
  try? RoutingPolicy_validate p in
  canonical_digest ROUTING_POLICY_DOMAIN
    (MkRoutingDigestInput p (bt_entries (remaining_micros (cost_budget p)))).

(** ** Protected inputs *)

Definition MAX_INPUT_BYTES : N := 64 * 1024 * 1024.
Definition INPUT_DOMAIN : bytes := str_bytes "contextdb-model-input-v1" ++ [x00].
Definition REDACTED_INPUT_DOMAIN : bytes := str_bytes "contextdb-model-redacted-input-v1" ++ [x00].

Record ModelInput := MkModelInput {
  primary : bytes;
  primary_digest : ContentDigest;
  external_redacted : option (bytes * ContentDigest * Sensitivity);
  input_sensitivity : Sensitivity;
  input_modality : ModelModality;
  input_language : option LanguageTag;
  input_tokens : N;
  input_source_refs : list LineageNode;
}.

Definition ModelInput_new `{Blake3} (payload : bytes) (s : Sensitivity) (m : ModelModality) (tokens : N)
    (source_refs : list LineageNode) : ModelResult ModelInput :=
  if (MAX_INPUT_BYTES <? len payload)%N || (tokens =? 0)%N
  then Err (InvalidNumber "model_input" "input byte/token budget is invalid")
  else
    try? for_each (λ r, map_err (λ _, InvalidText "model_input.source_refs" "invalid lineage reference")
                          (LineageNode_validate r)) source_refs in
    Ok (MkModelInput payload (digest_parts INPUT_DOMAIN [payload]) None s m None tokens source_refs).

Definition with_external_redacted `{Blake3} (i : ModelInput) (payload : bytes) (s : Sensitivity) : ModelResult ModelInput :=
  if (MAX_INPUT_BYTES <? len payload)%N || kltb (input_sensitivity i) s
  then Err (InvalidNumber "model_input.external_redacted"
              "redacted input is oversized or more sensitive than primary input")
  else Ok (MkModelInput (primary i) (primary_digest i) (Some (payload, digest_parts REDACTED_INPUT_DOMAIN [payload], s))
             (input_sensitivity i) (input_modality i) (input_language i) (input_tokens i) (input_source_refs i)).
Definition with_language (i : ModelInput) (language : LanguageTag) : ModelInput :=
  MkModelInput (primary i) (primary_digest i) (external_redacted i) (input_sensitivity i) (input_modality i)
    (Some language) (input_tokens i) (input_source_refs i).

Record PreparedModelInput := MkPreparedModelInput {
  prepared_payload : bytes;
  prepared_digest : ContentDigest;
  prepared_sensitivity : Sensitivity;
  redacted : bool;
  prepared_modality : ModelModality;
  prepared_language : option LanguageTag;
  prepared_tokens : N;
  prepared_source_refs : list LineageNode;
}.
Definition prepared_from (i : ModelInput) (selected : bytes * ContentDigest * Sensitivity * bool) : PreparedModelInput :=
  let '(payload, digest, s, red) := selected in
  MkPreparedModelInput payload digest s red (input_modality i) (input_language i) (input_tokens i) (input_source_refs i).

Definition protected_for_fallback (i : ModelInput) : PreparedModelInput :=
  prepared_from i (primary i, primary_digest i, input_sensitivity i, false).

(** The conditions under which a hosted route is refused. *)
Definition hosted_denied (route : CapabilityRoute) (policy : RoutingPolicy) : bool :=
  let data := data_policy (descriptor route) in
  local_only policy || negb (allow_external policy) || negb (external_consent policy)
  || negb (bool_decide (provider route ∈ provider_allowlist policy))
  || require_no_training policy && negb (no_training data)
  || require_no_retention policy && negb (no_retention data)
  || negb (bool_decide (allowed_regions policy = ∅))
     && is_none_or (region data) (λ r, negb (bool_decide (r ∈ allowed_regions policy))).

Definition select_hosted (i : ModelInput) (policy : RoutingPolicy) : ModelResult (bytes * ContentDigest * Sensitivity * bool) :=
  let requires_redaction := redact_before_external policy || kleb Confidential (input_sensitivity i) in
  match external_redacted i with
  | Some (payload, digest, s) => Ok (payload, digest, s, true)
  | None => if requires_redaction then Err PrivacyDenied
            else Ok (primary i, primary_digest i, input_sensitivity i, false)
  end.

Definition prepare (i : ModelInput) (route : CapabilityRoute) (policy : RoutingPolicy) : ModelResult PreparedModelInput :=
  let d := descriptor route in
  if bool_decide (input_sensitivity i = Secret) || negb (bool_decide (input_modality i ∈ input_modalities d))
  then Err PrivacyDenied
  else if (max_input_tokens d <? input_tokens i)%N then Err PrivacyDenied
  else
    let maximum := maximum_sensitivity (data_policy d) in
    let? selected :=
      match locality (data_policy d) with
      | Local =>
          if kltb maximum (input_sensitivity i) then Err PrivacyDenied
          else Ok (primary i, primary_digest i, input_sensitivity i, false)
      | Hosted =>
          if hosted_denied route policy then Err PrivacyDenied
          else
            let? selected := select_hosted i policy in
            let s := selected.1.2 in
            if bool_decide (s = Secret) || kltb maximum s then Err PrivacyDenied else Ok selected
      end in
    Ok (prepared_from i selected).

(** ** Evaluation of routes *)

Record RouteDecision := MkRouteDecision {
  decision_provider : ProviderId;
  decision_locality : ExecutionLocality;
  used_redacted_input : bool;
  estimated_cost_micros : N;
  estimated_cost_currency : CurrencyCode;
  decision_digest : ContentDigest;
}.
Record EvaluatedRoute := MkEvaluatedRoute {
  route : CapabilityRoute;
  route_input : PreparedModelInput;
  decision : RouteDecision;
}.
Record DecisionDigestInput := MkDecisionDigestInput {
  ddi_purpose : string;
  ddi_provider : ProviderId;
  ddi_locality : ExecutionLocality;
  ddi_redacted : bool;
  ddi_sensitivity : Sensitivity;
  ddi_estimate : N;
  ddi_schema_digest : ContentDigest;
  ddi_policy_digest : ContentDigest;
}.
Definition DECISION_DOMAIN : bytes := str_bytes "contextdb-model-policy-decision-v1" ++ [x00].

Fixpoint position_of (providers : list ProviderId) (p : ProviderId) : option N :=
  match providers with
  | [] => None
  | candidate :: rest => if bool_decide (candidate = p) then Some 0%N else N.succ <$> position_of rest p
  end.
Definition preference_rank (policy : RoutingPolicy) (p : ProviderId) : N :=
  default USIZE_MAX (position_of (preferred_providers policy) p).
Definition locality_rank (l : ExecutionLocality) : N :=
  match l with Local => 0 | Hosted => 1 end.

(** The comparison of [evaluated.sort_by]. *)
Definition route_compare (policy : RoutingPolicy) (l r : EvaluatedRoute) : comparison :=
  let dl := descriptor (route l) in
  let dr := descriptor (route r) in
  then_with (cmp (preference_rank policy (provider (route l))) (preference_rank policy (provider (route r))))
  (then_with (cmp (locality_rank (decision_locality (decision l))) (locality_rank (decision_locality (decision r))))
  (then_with (cmp (benchmark_score dr) (benchmark_score dl))
  (then_with (cmp (schema_reliability dr) (schema_reliability dl))
  (then_with (cmp (estimated_cost_micros (decision l)) (estimated_cost_micros (decision r)))
  (then_with (cmp (p95_ms (latency_profile dl)) (p95_ms (latency_profile dr)))
  (then_with (cmp (provider (route l)) (provider (route r)))
             (cmp (model_revision (route l)) (model_revision (route r))))))))).

(** The conditions under which a route is passed over before its cost is known. *)
Definition descriptor_skipped (d : CapabilityDescriptor) (i : ModelInput) (c : ModelCapability) (policy : RoutingPolicy) : bool :=
  negb (bool_decide (capability d = c))
  || (max_expected_p95_ms policy <? p95_ms (latency_profile d))%N
  || (benchmark_score d <? minimum_benchmark_score policy)%N
  || (schema_reliability d <? minimum_schema_reliability policy)%N
  || match input_language i with
     | Some language => negb (bool_decide (descriptor_languages d = ∅)) && negb (bool_decide (language ∈ descriptor_languages d))
     | None => false
     end.

Section evaluation.
Context `{Blake3, Serialize RoutingDigestInput, Serialize DecisionDigestInput}.

(** One iteration of the loop: [None] is [continue]. *)
Definition evaluate_route (i : ModelInput) (c : ModelCapability) (max_output_tokens : N) (policy : RoutingPolicy)
    (policy_digest : ContentDigest) (r : CapabilityRoute) : ModelResult (option EvaluatedRoute) :=
  let d := descriptor r in
  if descriptor_skipped d i c policy then Ok None
  else if negb (bool_decide (currency (expected_cost d) = budget_currency (cost_budget policy))) then Ok None
  else
    let? estimate := CostProfile_estimate (expected_cost d) (input_tokens i) max_output_tokens in
    if (max_estimated_cost_micros policy <? estimate)%N
       || negb (budget_allows (cost_budget policy) estimate (provider r) c)
    then Ok None
    else
      match prepare i r policy with
      | Err _ => Ok None
      | Ok prepared =>
          let? digest := canonical_digest DECISION_DOMAIN
            (MkDecisionDigestInput (purpose policy) (provider r) (locality (data_policy d)) (redacted prepared)
               (prepared_sensitivity prepared) estimate (schema_digest (output_schema d)) policy_digest) in
          Ok (Some (MkEvaluatedRoute r prepared
                (MkRouteDecision (provider r) (locality (data_policy d)) (redacted prepared) estimate
                   (currency (expected_cost d)) digest)))
      end.

Definition evaluate_routes (routes : list CapabilityRoute) (i : ModelInput) (c : ModelCapability)
    (max_output_tokens : N) (policy : RoutingPolicy) : ModelResult (list EvaluatedRoute) :=
  try? RoutingPolicy_validate policy in
  let? policy_digest := RoutingPolicy_digest policy in
  let? evaluated := try_map (evaluate_route i c max_output_tokens policy policy_digest) routes in
  Ok (sort_by (route_compare policy) (omap id evaluated)).
End evaluation.

(** ** The capability registry *)

Record RouteKey := MkRouteKey {
  rk_provider : ProviderId;
  rk_model_profile : ModelProfileId;
  rk_model_revision : ModelRevision;
  rk_capability : ModelCapability;
  rk_schema : SchemaRef;
}.
#[export] Instance RouteKey_eq_dec : EqDecision RouteKey.
Proof. solve_decision. Defined.
Definition route_key_tuple (k : RouteKey) : ProviderId * (ModelProfileId * (ModelRevision * (ModelCapability * SchemaRef))) :=
  (rk_provider k, (rk_model_profile k, (rk_model_revision k, (rk_capability k, rk_schema k)))).
#[export] Instance route_key_tuple_inj : Inj (=) (=) route_key_tuple.
Proof. by intros [] [] [= -> -> -> -> ->]. Qed.
#[export] Instance RouteKey_countable : Countable RouteKey.
Proof.
  refine (inj_countable' route_key_tuple (λ '(a, (b, (c, (d, e)))), MkRouteKey a b c d e) _). by intros [].
Defined.
#[export] Instance RouteKey_Ordered : Ordered RouteKey := Ordered_inj route_key_tuple.

Record CapabilityRegistry := MkCapabilityRegistry {
  profiles : gmap ModelProfileId ModelProfile;
  routes : gmap RouteKey CapabilityRoute;
}.
Definition CapabilityRegistry_new : CapabilityRegistry := MkCapabilityRegistry ∅ ∅.

(** The text of an identifier is written by the uuid crate. *)
Class UuidDisplay := uuid_text : Uuid → string.

Definition register_profile `{UuidDisplay} (reg : CapabilityRegistry) (p : ModelProfile)
    : CapabilityRegistry * ModelResult unit :=
  match ModelProfile_validate p with
  | Err e => (reg, Err e)
  | Ok _ =>
      match profiles reg !! profile_id p with
      | Some existing =>
          if bool_decide (existing = p) then (reg, Ok tt)
          else (reg, Err (RegistryConflict ("model profile " +:+ uuid_text (as_uuid (profile_id p)))))
      | None => (MkCapabilityRegistry (<[profile_id p := p]> (profiles reg)) (routes reg), Ok tt)
      end
  end.

Definition profile (reg : CapabilityRegistry) (id : ModelProfileId) : ModelResult ModelProfile :=
  ok_or (profiles reg !! id) ProfileUnavailable.

Definition route_key_of (r : CapabilityRoute) : RouteKey :=
  MkRouteKey (provider r) (model_profile (descriptor r)) (model_revision r) (capability (descriptor r))
    (output_schema (descriptor r)).
Definition route_fits_profile (r : CapabilityRoute) (p : ModelProfile) : bool :=
  bool_decide (profile_revision p = model_revision r)
  && bool_decide (input_modalities (descriptor r) ⊆ profile_modalities p)
  && bool_decide (descriptor_languages (descriptor r) ⊆ profile_languages p).

Definition register_route (reg : CapabilityRegistry) (r : CapabilityRoute) : CapabilityRegistry * ModelResult unit :=
  match CapabilityRoute_validate r with
  | Err e => (reg, Err e)
  | Ok _ =>
      match profile reg (model_profile (descriptor r)) with
      | Err e => (reg, Err e)
      | Ok p =>
          if negb (route_fits_profile r p)
          then (reg, Err (RegistryConflict "route is incompatible with its model profile"))
          else
            match routes reg !! route_key_of r with
            | Some existing =>
                if bool_decide (existing = r) then (reg, Ok tt)
                else (reg, Err (RegistryConflict ("provider capability route " +:+ provider r)))
            | None => (MkCapabilityRegistry (profiles reg) (<[route_key_of r := r]> (routes reg)), Ok tt)
            end
      end
  end.

Definition routes_for (reg : CapabilityRegistry) (c : ModelCapability) (s : SchemaRef) : ModelResult (list CapabilityRoute) :=
  try? ModelCapability_validate c in
  Ok (filter (λ r, capability (descriptor r) = c ∧ output_schema (descriptor r) = s) (bt_values (routes reg))).

(** ** Facts about budgets and inputs *)

Lemma budget_allows_true b estimate p c :
  budget_allows b estimate p c = true ↔
  ∀ scope remaining, remaining_micros b !! scope = Some remaining → scope_relevant scope p c = true →
    (estimate ≤ remaining)%N.
Proof.
  unfold budget_allows. rewrite forallb_forall. split.
  - intros Hall scope remaining Hs Hr. specialize (Hall (scope, remaining)). cbn in Hall. rewrite Hr in Hall. cbn in Hall.
    apply N.leb_le, Hall. rewrite <- list_elem_of_In. by apply bt_entries_elem.
  - intros Hall [scope remaining] Hin%list_elem_of_In%bt_entries_elem. destruct (scope_relevant scope p c) eqn:Hr; [|done].
    cbn. apply N.leb_le. by eapply Hall.
Qed.

(** What a hosted provider may be given. *)
Record hosted_allowed (i : ModelInput) (r : CapabilityRoute) (policy : RoutingPolicy) (x : PreparedModelInput) : Prop := {
  ha_not_local_only : local_only policy = false;
  ha_external : allow_external policy = true;
  ha_consent : external_consent policy = true;
  ha_allowlist : provider r ∈ provider_allowlist policy;
  ha_no_training : require_no_training policy = true → no_training (data_policy (descriptor r)) = true;
  ha_no_retention : require_no_retention policy = true → no_retention (data_policy (descriptor r)) = true;
  ha_region : allowed_regions policy = ∅ ∨ ∃ g, region (data_policy (descriptor r)) = Some g ∧ g ∈ allowed_regions policy;
  ha_payload :
    redacted x = true ∧ external_redacted i = Some (prepared_payload x, prepared_digest x, prepared_sensitivity x) ∨
    redacted x = false ∧ external_redacted i = None ∧
      (prepared_payload x, prepared_digest x, prepared_sensitivity x) = (primary i, primary_digest i, input_sensitivity i) ∧
      redact_before_external policy = false ∧ klt (input_sensitivity i) Confidential;
}.

(** What a provider may be given, and what it is given. *)
Record input_allowed (i : ModelInput) (r : CapabilityRoute) (policy : RoutingPolicy) (x : PreparedModelInput) : Prop := {
  ia_not_secret : input_sensitivity i ≠ Secret ∧ prepared_sensitivity x ≠ Secret;
  ia_sensitivity : kle (prepared_sensitivity x) (maximum_sensitivity (data_policy (descriptor r)));
  ia_tokens : (input_tokens i ≤ max_input_tokens (descriptor r))%N;
  ia_modality : input_modality i ∈ input_modalities (descriptor r);
  ia_copied : (prepared_modality x, prepared_language x, prepared_tokens x, prepared_source_refs x) =
    (input_modality i, input_language i, input_tokens i, input_source_refs i);
  ia_local : locality (data_policy (descriptor r)) = Local →
    (prepared_payload x, prepared_digest x, prepared_sensitivity x, redacted x) =
    (primary i, primary_digest i, input_sensitivity i, false);
  ia_hosted : locality (data_policy (descriptor r)) = Hosted → hosted_allowed i r policy x;
}.

Lemma hosted_denied_false r policy :
  hosted_denied r policy = false ↔
  local_only policy = false ∧ allow_external policy = true ∧ external_consent policy = true ∧
  provider r ∈ provider_allowlist policy ∧
  (require_no_training policy = true → no_training (data_policy (descriptor r)) = true) ∧
  (require_no_retention policy = true → no_retention (data_policy (descriptor r)) = true) ∧
  (allowed_regions policy = ∅ ∨ ∃ g, region (data_policy (descriptor r)) = Some g ∧ g ∈ allowed_regions policy).
Proof.
  unfold hosted_denied. rewrite !orb_false_iff, !negb_false_iff, !andb_false_iff, !negb_false_iff, !bool_decide_eq_true.
  assert (is_none_or (region (data_policy (descriptor r))) (λ g, negb (bool_decide (g ∈ allowed_regions policy))) = false ↔
    ∃ g, region (data_policy (descriptor r)) = Some g ∧ g ∈ allowed_regions policy) as ->.
  { destruct (region _) as [g|]; cbn; [|naive_solver]. rewrite negb_false_iff, bool_decide_eq_true. naive_solver. }
  destruct (require_no_training policy), (require_no_retention policy); naive_solver.
Qed.

Lemma select_hosted_Ok i policy payload d s red :
  select_hosted i policy = Ok (payload, d, s, red) ↔
  red = true ∧ external_redacted i = Some (payload, d, s) ∨
  red = false ∧ external_redacted i = None ∧ (payload, d, s) = (primary i, primary_digest i, input_sensitivity i) ∧
    redact_before_external policy = false ∧ klt (input_sensitivity i) Confidential.
Proof.
  unfold select_hosted. destruct (external_redacted i) as [[[payload' d'] s']|]; [naive_solver|].
  rewrite <- kleb_false. destruct (redact_before_external policy), (kleb Confidential (input_sensitivity i)); naive_solver.
Qed.

(** [prepare] succeeds exactly as the policy says, with exactly this payload. *)
Lemma prepare_Ok i r policy x : prepare i r policy = Ok x ↔ input_allowed i r policy x.
Proof.
  unfold prepare. destruct (bool_decide_reflect (input_sensitivity i = Secret)) as [|Hsec]; [split; [done|intros []; naive_solver]|].
  cbn [orb]. destruct (bool_decide_reflect (input_modality i ∈ input_modalities (descriptor r))) as [Hm|]; [cbn [negb]|split; [done|by intros []]].
  destruct (N.ltb_spec (max_input_tokens (descriptor r)) (input_tokens i)); [split; [done|intros []; lia]|]. cbn zeta. split.
  - intros ([[[payload d] s] red] & Hsel & [= <-])%result_bind_Ok.
    destruct (locality (data_policy (descriptor r))) eqn:Hl.
    + destruct (kltb _ _) eqn:Hk in Hsel; [done|]. injection Hsel as <- <- <- <-. apply kltb_false in Hk.
      by constructor; rewrite ?Hl.
    + destruct (hosted_denied r policy) eqn:Hd; [done|]. apply hosted_denied_false in Hd as (? & ? & ? & ? & ? & ? & ?).
      apply result_bind_Ok in Hsel as ([[[payload' d'] s'] red'] & Hsel & Hs). cbn [fst snd] in Hs.
      destruct (bool_decide_reflect (s' = Secret)) as [|Hs']; [done|]. cbn [orb] in Hs.
      destruct (kltb _ _) eqn:Hk in Hs; [done|]. injection Hs as -> -> -> ->. apply kltb_false in Hk.
      constructor; rewrite ?Hl; try done. intros _. constructor; try done. cbn. by apply select_hosted_Ok.
  - intros [[_ Hs] Hmax _ _ Hcopied Hlocal Hhosted]. destruct x as [payload d s red modality language tokens refs].
    cbn [prepared_payload prepared_digest prepared_sensitivity redacted prepared_modality prepared_language prepared_tokens
      prepared_source_refs] in *. injection Hcopied as -> -> -> ->.
    destruct (locality (data_policy (descriptor r))).
    + injection (Hlocal eq_refl) as -> -> -> ->. by rewrite (proj2 (kltb_false _ _)).
    + destruct (Hhosted eq_refl) as [H1 H2 H3 H4 H5 H6 H7 Hpay].
      rewrite (proj2 (hosted_denied_false r policy)) by done.
      rewrite (proj2 (select_hosted_Ok i policy payload d s red) Hpay). cbn [result_bind fst snd].
      by rewrite bool_decide_eq_false_2, (proj2 (kltb_false _ _)).
Qed.

(** ** Which routes are admitted, and in which order *)

(** The key by which admitted routes are ordered: preferred providers first, local
    before hosted, then better quality and reliability, then cheaper and faster. *)
Definition route_rank (policy : RoutingPolicy) (e : EvaluatedRoute) : N * (N * (Z * (Z * (N * (N * (string * string)))))) :=
  let d := descriptor (route e) in
  (preference_rank policy (provider (route e)), (locality_rank (decision_locality (decision e)),
   ((- Z.of_N (benchmark_score d))%Z, ((- Z.of_N (schema_reliability d))%Z, (estimated_cost_micros (decision e),
    (p95_ms (latency_profile d), (provider (route e), model_revision (route e)))))))).

Lemma cmp_opposite (a b : N) : cmp b a = cmp (- Z.of_N a)%Z (- Z.of_N b)%Z.
Proof. change (N.compare b a = Z.compare (- Z.of_N a) (- Z.of_N b)). by rewrite Z.compare_opp, N2Z.inj_compare. Qed.

Lemma route_compare_rank policy l r : route_compare policy l r = cmp (route_rank policy l) (route_rank policy r).
Proof.
  unfold route_compare. cbn zeta. rewrite !(cmp_opposite (_ (descriptor (route l)))).
  unfold route_rank. by rewrite !cmp_pair.
Qed.

Section exactness.
Context `{Blake3, Serialize RoutingDigestInput, Serialize DecisionDigestInput}.

(** What the policy admits, condition by condition. *)
Record route_admitted (i : ModelInput) (c : ModelCapability) (out : N) (policy : RoutingPolicy)
    (r : CapabilityRoute) (e : EvaluatedRoute) : Prop := {
  ra_route : route e = r;
  ra_capability : capability (descriptor r) = c;
  ra_latency : (p95_ms (latency_profile (descriptor r)) ≤ max_expected_p95_ms policy)%N;
  ra_benchmark : (minimum_benchmark_score policy ≤ benchmark_score (descriptor r))%N;
  ra_reliability : (minimum_schema_reliability policy ≤ schema_reliability (descriptor r))%N;
  ra_language : ∀ l, input_language i = Some l → descriptor_languages (descriptor r) = ∅ ∨ l ∈ descriptor_languages (descriptor r);
  ra_currency : currency (expected_cost (descriptor r)) = budget_currency (cost_budget policy);
  ra_estimate : CostProfile_estimate (expected_cost (descriptor r)) (input_tokens i) out = Ok (estimated_cost_micros (decision e));
  ra_cost : (estimated_cost_micros (decision e) ≤ max_estimated_cost_micros policy)%N;
  ra_budget : ∀ scope remaining, remaining_micros (cost_budget policy) !! scope = Some remaining →
    scope_relevant scope (provider r) c = true → (estimated_cost_micros (decision e) ≤ remaining)%N;
  ra_input : input_allowed i r policy (route_input e);
  ra_decision : (decision_provider (decision e), decision_locality (decision e), used_redacted_input (decision e),
      estimated_cost_currency (decision e)) =
    (provider r, locality (data_policy (descriptor r)), redacted (route_input e), currency (expected_cost (descriptor r)));
  ra_digest : ∃ pd, RoutingPolicy_digest policy = Ok pd ∧
    canonical_digest DECISION_DOMAIN (MkDecisionDigestInput (purpose policy) (provider r) (locality (data_policy (descriptor r)))
      (redacted (route_input e)) (prepared_sensitivity (route_input e)) (estimated_cost_micros (decision e))
      (schema_digest (output_schema (descriptor r))) pd) = Ok (decision_digest (decision e));
}.

Lemma descriptor_skipped_false d i c policy :
  descriptor_skipped d i c policy = false ↔
  capability d = c ∧ (p95_ms (latency_profile d) ≤ max_expected_p95_ms policy)%N ∧
  (minimum_benchmark_score policy ≤ benchmark_score d)%N ∧ (minimum_schema_reliability policy ≤ schema_reliability d)%N ∧
  ∀ l, input_language i = Some l → descriptor_languages d = ∅ ∨ l ∈ descriptor_languages d.
Proof.
  unfold descriptor_skipped. rewrite !orb_false_iff, negb_false_iff, bool_decide_eq_true, !N.ltb_ge.
  destruct (input_language i) as [l|]; [|naive_solver].
  rewrite andb_false_iff, !negb_false_iff, !bool_decide_eq_true. naive_solver.
Qed.

Lemma evaluate_route_Some i c out policy pd r e :
  RoutingPolicy_digest policy = Ok pd →
  evaluate_route i c out policy pd r = Ok (Some e) ↔ route_admitted i c out policy r e.
Proof.
  intros Hpd. unfold evaluate_route. split.
  - destruct (descriptor_skipped _ _ _ _) eqn:Hd; [done|]. apply descriptor_skipped_false in Hd as (? & ? & ? & ? & ?).
    destruct (bool_decide_reflect (currency (expected_cost (descriptor r)) = budget_currency (cost_budget policy))); [cbn [negb]|done].
    intros (estimate & Hest & He)%result_bind_Ok.
    destruct (N.ltb_spec (max_estimated_cost_micros policy) estimate); [done|]. cbn [orb] in He.
    destruct (budget_allows _ _ _ _) eqn:Hb; [cbn [negb] in He|done].
    destruct (prepare i r policy) as [x|] eqn:Hx; [|done]. apply result_bind_Ok in He as (digest & Hdigest & [= <-]).
    constructor; cbn; try done; [by apply budget_allows_true|by apply prepare_Ok|eauto].
  - intros [<- ? ? ? ? ? ? Hest ? ? Hin%prepare_Ok Hdec (pd' & Hpd' & Hdigest)].
    rewrite (proj2 (descriptor_skipped_false (descriptor (route e)) i c policy)) by done.
    rewrite bool_decide_true by done. cbn [negb]. rewrite Hest. cbn [result_bind].
    rewrite (proj2 (N.ltb_ge _ _)) by done. rewrite (proj2 (budget_allows_true _ _ (provider (route e)) c)) by done. cbn [orb negb].
    rewrite Hin. replace pd with pd' by congruence. rewrite Hdigest. cbn [result_bind].
    destruct e as [r x [? ? ? ? ? ?]]. cbn in *. by injection Hdec as -> -> -> ->.
Qed.

Lemma evaluate_routes_Ok rs i c out policy es :
  evaluate_routes rs i c out policy = Ok es →
  ∃ pd os, RoutingPolicy_digest policy = Ok pd ∧ Forall2 (λ r o, evaluate_route i c out policy pd r = Ok o) rs os ∧
    es = sort_by (route_compare policy) (omap id os).
Proof.
  unfold evaluate_routes. intros ([] & _ & (pd & Hpd & (os & Hos & [= <-])%result_bind_Ok)%result_bind_Ok)%result_bind_Ok.
  exists pd, os. by apply try_map_Ok in Hos.
Qed.

Lemma evaluate_routes_elem rs i c out policy es e :
  evaluate_routes rs i c out policy = Ok es → e ∈ es ↔ ∃ r, r ∈ rs ∧ route_admitted i c out policy r e.
Proof.
  intros (pd & os & Hpd & Hos & ->)%evaluate_routes_Ok. rewrite sort_by_Permutation, list_elem_of_omap.
  setoid_rewrite <- (evaluate_route_Some i c out policy pd _ e Hpd). split.
  - intros (o & Ho & [= ->]). apply list_elem_of_lookup in Ho as [n Hn].
    destruct (Forall2_lookup_r _ _ _ _ _ Hos Hn) as (r & Hr & He). exists r. split; [by eapply list_elem_of_lookup_2|done].
  - intros (r & [n Hn]%list_elem_of_lookup & He). destruct (Forall2_lookup_l _ _ _ _ _ Hos Hn) as (o & Ho & Ho').
    exists o. split; [by eapply list_elem_of_lookup_2|]. rewrite He in Ho'. by injection Ho' as <-.
Qed.

(** C30: routing admits exactly the routes the policy allows, best first.  When it
    succeeds, the results are exactly the evaluations of the registered routes that
    meet every condition: capability, latency, quality, reliability, language,
    currency, cost and budgets, modality, token and sensitivity limits, and for a
    hosted provider external processing allowed and consented to, the allowlist,
    the promises on training and retention, the region and the redaction rule; each
    carries its exact cost estimate, payload and decision.  They are ordered by
    preference, locality, quality, reliability, cost and latency. *)
Theorem evaluate_routes_exact rs i c out policy es :
  evaluate_routes rs i c out policy = Ok es →
  (∀ e, e ∈ es ↔ ∃ r, r ∈ rs ∧ route_admitted i c out policy r e) ∧
  StronglySorted (λ a b, kle (route_rank policy a) (route_rank policy b)) es.
Proof.
  intros Hes. split; [intros e; by apply evaluate_routes_elem|].
  apply evaluate_routes_Ok in Hes as (pd & os & _ & _ & ->). apply sort_by_sorted, route_compare_rank.
Qed.

(** no payload goes where the policy forbids.  Whatever is routed, secret
    inputs go nowhere, no provider gets a payload above the sensitivity it accepts,
    and a hosted provider gets one only with external processing allowed and
    consented to, on the allowlist, with the required promises and region, and
    then the separately redacted payload, unless none was supplied, none is
    required and the input is below confidential. *)
Theorem routed_payload_is_protected rs i c out policy es e :
  evaluate_routes rs i c out policy = Ok es → e ∈ es →
  input_sensitivity i ≠ Secret ∧ prepared_sensitivity (route_input e) ≠ Secret ∧
  kle (prepared_sensitivity (route_input e)) (maximum_sensitivity (data_policy (descriptor (route e)))) ∧
  (decision_locality (decision e) = Hosted → hosted_allowed i (route e) policy (route_input e)).
Proof.
  intros Hes He. apply (evaluate_routes_elem _ _ _ _ _ _ _ Hes) in He as (r & _ & [<- ? ? ? ? ? ? ? ? ? [[? ?] ? _ _ _ _ Hh] Hl _]).
  injection Hl as _ Hl _ _. split_and!; try done. by rewrite Hl.
Qed.
End exactness.

(** ** The registry stays consistent *)

Inductive RegistryOp :=
  | OpProfile (p : ModelProfile)
  | OpRoute (r : CapabilityRoute).
Definition run_registry `{UuidDisplay} (reg : CapabilityRegistry) (ops : list RegistryOp) : CapabilityRegistry :=
  foldl (λ reg op, match op with OpProfile p => (register_profile reg p).1 | OpRoute r => (register_route reg r).1 end) reg ops.

Definition registry_ok (reg : CapabilityRegistry) : Prop :=
  (∀ id p, profiles reg !! id = Some p → profile_id p = id ∧ ModelProfile_validate p = Ok tt) ∧
  ∀ k r, routes reg !! k = Some r → k = route_key_of r ∧ CapabilityRoute_validate r = Ok tt ∧
    ∃ p, profiles reg !! model_profile (descriptor r) = Some p ∧ route_fits_profile r p = true.

(** Nothing registered is replaced or removed. *)
Definition registry_extends (old new : CapabilityRegistry) : Prop := profiles old ⊆ profiles new ∧ routes old ⊆ routes new.

Lemma register_profile_ok `{UuidDisplay} reg p :
  registry_ok reg → registry_ok (register_profile reg p).1 ∧ registry_extends reg (register_profile reg p).1.
Proof.
  intros Hreg. pose proof Hreg as [Hp Hr]. assert (registry_extends reg reg) by by split. unfold register_profile. destruct (ModelProfile_validate p) as [[]|] eqn:Hv; [|done].
  destruct (profiles reg !! profile_id p) as [old|] eqn:Hold; [by destruct (bool_decide _)|]. cbn. split.
  - split; cbn.
    + intros id p' [[<- <-]|[_ ?]]%lookup_insert_Some; [done|by apply Hp].
    + intros k r Hk. destruct (Hr k r Hk) as (? & ? & p' & Hp' & ?). split_and!; [done|done|]. exists p'.
      split; [|done]. rewrite lookup_insert_ne; [done|]. congruence.
  - split; [by apply insert_subseteq|done].
Qed.
Lemma register_route_ok reg r :
  registry_ok reg → registry_ok (register_route reg r).1 ∧ registry_extends reg (register_route reg r).1.
Proof.
  intros Hreg. pose proof Hreg as [Hp Hr]. assert (registry_extends reg reg) by by split. unfold register_route. destruct (CapabilityRoute_validate r) as [[]|] eqn:Hv; [|done].
  unfold profile. destruct (profiles reg !! model_profile (descriptor r)) as [p|] eqn:Hpr; cbn [ok_or]; [|done].
  destruct (route_fits_profile r p) eqn:Hfit; cbn [negb]; [|done].
  destruct (routes reg !! route_key_of r) as [old|] eqn:Hold; [by destruct (bool_decide _)|]. cbn. split.
  - split; [done|]. cbn. intros k r' [[<- <-]|[_ ?]]%lookup_insert_Some; [|by apply Hr]. split_and!; [done|done|by exists p].
  - split; [done|by apply insert_subseteq].
Qed.

(** the capability registry is well formed.  It only grows, and every route it offers is valid, is filed under its
    own key and fits its registered model profile. *)
Theorem registry_consistent `{UuidDisplay} ops1 ops2 c s rs r :
  let reg := run_registry CapabilityRegistry_new ops1 in
  registry_extends reg (run_registry reg ops2) ∧
  (routes_for reg c s = Ok rs → r ∈ rs →
   capability (descriptor r) = c ∧ output_schema (descriptor r) = s ∧ CapabilityRoute_validate r = Ok tt ∧
   ∃ p, profile reg (model_profile (descriptor r)) = Ok p ∧ ModelProfile_validate p = Ok tt ∧ route_fits_profile r p = true).
Proof.
  assert (∀ ops reg, registry_ok reg → registry_ok (run_registry reg ops) ∧ registry_extends reg (run_registry reg ops)) as Hrun.
  { induction ops as [|op ops IH]; intros reg Hreg; cbn; [done|].
    assert (∀ reg', registry_ok reg' ∧ registry_extends reg reg' →
      registry_ok (run_registry reg' ops) ∧ registry_extends reg (run_registry reg' ops)) as Hnext.
    { intros reg' [Hok [Hx1 Hx2]]. destruct (IH reg' Hok) as [? [? ?]]. split; [done|]. split; by etrans. }
    destruct op; apply Hnext; [by apply register_profile_ok|by apply register_route_ok]. }
  intros reg. assert (registry_ok reg) as Hreg by by apply Hrun. split; [by apply Hrun|].
  unfold routes_for. intros ([] & _ & [= <-])%result_bind_Ok [[Hc Hs] [k Hk]%elem_of_bt_values]%list_elem_of_filter.
  destruct Hreg as [Hp Hr]. destruct (Hr k r Hk) as (_ & ? & p & Hpr & ?). split_and!; try done.
  exists p. unfold profile. rewrite Hpr. destruct (Hp _ _ Hpr) as [_ ?]. done.
Qed.

(** ** Applications *)

#[local] Existing Instance sample_blake3.
#[local] Instance sample_policy_json : Serialize RoutingDigestInput := λ _, Some [].
#[local] Instance sample_decision_json : Serialize DecisionDigestInput := λ d, Some (str_bytes (ddi_provider d)).

Definition sample_schema_ref : SchemaRef := MkSchemaRef "summary" 1 (digest_parts [] [[x01]]).
Definition sample_route (name : ProviderId) (l : ExecutionLocality) (m : Sensitivity) : CapabilityRoute :=
  MkCapabilityRoute name "r1" (MkCapabilityDescriptor SummarizeRegion (sample_id "ModelProfileId") {[ModalityText]}
    sample_schema_ref 1000 false false (MkCostProfile "EUR" 10 1000 2000) (MkLatencyProfile 5 20)
    (MkDataHandlingPolicy l (Some "eu"%string) true true m) 9000 9500 ∅).
Definition sample_routes : list CapabilityRoute := [sample_route "cloud" Hosted Internal; sample_route "box" Local Restricted].
Definition sample_routing_policy : RoutingPolicy :=
  MkRoutingPolicy "summaries" true false true {["cloud"%string]} {["eu"%string]} true true false 1000 100 8000 9000 []
    (MkCostBudget "EUR" {[ScopeProvider "cloud" := 500%N]}).
Definition sample_input : ModelInput :=
  MkModelInput [x61; x62] (digest_parts INPUT_DOMAIN [[x61; x62]])
    (Some ([x2a], digest_parts REDACTED_INPUT_DOMAIN [[x2a]], Internal)) Confidential ModalityText None 10 [].
Definition sample_evaluated : list EvaluatedRoute :=
  match evaluate_routes sample_routes sample_input SummarizeRegion 100 sample_routing_policy with Ok es => es | Err _ => [] end.

Lemma sample_evaluation :
  evaluate_routes sample_routes sample_input SummarizeRegion 100 sample_routing_policy = Ok sample_evaluated.
Proof. vm_compute. reflexivity. Qed.

Lemma evaluate_routes_exact_witness :
  ((λ e, provider (route e)) <$> sample_evaluated) = ["box"%string; "cloud"%string] ∧
  (∀ e, e ∈ sample_evaluated ↔
    ∃ r, r ∈ sample_routes ∧ route_admitted sample_input SummarizeRegion 100 sample_routing_policy r e) ∧
  StronglySorted (λ a b, kle (route_rank sample_routing_policy a) (route_rank sample_routing_policy b)) sample_evaluated.
Proof.
  split; [vm_compute; reflexivity|]. exact (evaluate_routes_exact _ _ _ _ _ _ sample_evaluation).
Defined.

Lemma routed_payload_is_protected_witness :
  ∃ e, e ∈ sample_evaluated ∧ provider (route e) = "cloud"%string ∧ prepared_payload (route_input e) = [x2a] ∧
       hosted_allowed sample_input (route e) sample_routing_policy (route_input e).
Proof.
  destruct (sample_evaluated !! 1%nat) as [e|] eqn:He; [|by vm_compute in He].
  exists e. assert (e ∈ sample_evaluated) as Hin by by eapply list_elem_of_lookup_2.
  split; [done|]. pose proof (routed_payload_is_protected _ _ _ _ _ _ _ sample_evaluation Hin) as (_ & _ & _ & Hh).
  vm_compute in He. injection He as <-. split_and!; [done|done|]. by apply Hh.
Defined.

Definition sample_profile : ModelProfile :=
  MkModelProfile (sample_id "ModelProfileId") "family" "r1" "tokenizer" 4000 500 JsonSchema true false false
    (MkPositionProfile true true true true) (MkInstructionHierarchy ["system"%string] true true) 10 {["en"%string]} {[ModalityText]}.
#[local] Instance sample_uuid_text : UuidDisplay := λ _, "id"%string.
Definition sample_registry_ops : list RegistryOp :=
  [OpProfile sample_profile; OpRoute (sample_route "cloud" Hosted Internal); OpRoute (sample_route "cloud" Local Secret)].
Lemma registry_consistent_witness :
  let reg := run_registry CapabilityRegistry_new sample_registry_ops in
  routes_for reg SummarizeRegion sample_schema_ref = Ok [sample_route "cloud" Hosted Internal] ∧
  ∃ p, profile reg (sample_id "ModelProfileId") = Ok p ∧ route_fits_profile (sample_route "cloud" Hosted Internal) p = true.
Proof.
  intros reg. assert (routes_for reg SummarizeRegion sample_schema_ref = Ok [sample_route "cloud" Hosted Internal]) as Hr
    by (vm_compute; reflexivity).
  split; [exact Hr|].
  destruct (registry_consistent sample_registry_ops [] SummarizeRegion sample_schema_ref [sample_route "cloud" Hosted Internal]
    (sample_route "cloud" Hosted Internal)) as [_ Hc].
  destruct (Hc Hr) as (_ & _ & _ & p & Hp & _ & Hf); [by left|]. exact (ex_intro _ p (conj Hp Hf)).
Defined.
