(* ===== verification/Gateway.v ===== *)
(** * The model gateway (crate contextdb-model: gateway.rs, audit.rs, fallback.rs and
    the request types of provider.rs)

    The gateway turns a request into provider calls: it resolves the prompt,
    evaluates the routes, and runs bounded attempts under deadlines, circuit
    breakers, rate limits, the audit sink, the validated cache and the
    deterministic fallback.

    The clock, the identifiers, the audit sink and the provider adapters are
    trait objects or system services: the class [GatewayEnv] and the record
    [ModelProvider] hold their operations over an abstract world, which is
    threaded through a state and error monad.  The history variable [gs_trace]
    lists the accepted audit events and the provider calls in order; no
    operation reads it.  Locks are modelled by running one request at a time. *)

From S2P Require Import Prelude.
From S2P Require Import Ordering.
From S2P Require Import Bytes.
From S2P Require Import Format.
From S2P Require Import CoreBase.
From S2P Require Import Provenance.
From S2P Require Import Evidence.
From S2P Require Import ModelTypes.
From S2P Require Import Reliability.
From S2P Require Import ModelSchema.
From S2P Require Import Routing.

(** ** Requests to providers *)

Inductive RepairViolation :=
  | RepairMalformedJson
  | RepairStructuralSchema
  | RepairSemanticSchema
  | RepairOutputLimit.
Record RepairContext := MkRepairContext {
  rejected_output : ContentDigest;
  violation : RepairViolation;
}.
Inductive AttemptKind :=
  | Production
  | SchemaRepair (context : RepairContext)
  | Shadow.
Record ProviderAttemptContext := MkProviderAttemptContext {
  ctx_call_id : ModelCallId;
  ctx_attempt : N;
  ctx_idempotency_key : ContentDigest;
  ctx_deadline_ms : N;
  ctx_kind : AttemptKind;
}.
Record ProviderRequest := MkProviderRequest {
  pr_capability : ModelCapability;
  pr_model_profile : ModelProfileId;
  pr_model_revision : ModelRevision;
  pr_prompt : PromptAssetRef;
  pr_output_schema : SchemaRef;
  pr_max_output_tokens : N;
  pr_system_prompt : string;
  pr_input : PreparedModelInput;
}.
Record ProviderResponse := MkProviderResponse {
  response_output : bytes;
  response_usage : ModelUsage;
}.

(** ** Audit events *)

Inductive ModelExecutionPath :=
  | PathProvider
  | PathValidatedCache
  | PathDeterministicFallback.
Inductive ModelCallStatus :=
  | StatusSucceeded
  | StatusCacheHit
  | StatusSchemaRejected
  | StatusRefused
  | StatusTimeout
  | StatusProviderUnavailable
  | StatusInvalidRequest
  | StatusFailed
  | StatusDeterministicFallback.
Record ModelCallStarted := MkModelCallStarted {
  started_id : ModelCallId;
  started_capability : ModelCapability;
  started_path : ModelExecutionPath;
  started_provider : option ProviderId;
  started_model_profile : option ModelProfileId;
  started_model_revision : option ModelRevision;
  started_prompt : PromptAssetRef;
  started_schema : SchemaRef;
  started_input_digest : ContentDigest;
  started_source_refs : list LineageNode;
  started_at_ms : N;
  started_attempt : N;
  retry_of : option ModelCallId;
  shadow : bool;
  policy_decision : option RouteDecision;
}.
Record ModelCallFinished := MkModelCallFinished {
  finished_id : ModelCallId;
  finished_status : ModelCallStatus;
  finished_output_digest : option ContentDigest;
  latency_ms : N;
  finished_usage : ModelUsage;
}.
Inductive ModelAuditEvent :=
  | Started (started : ModelCallStarted)
  | Finished (finished : ModelCallFinished).

(** [InMemoryAuditSink], the reference sink with its consistency checks. *)
Record InMemoryAuditSink := MkInMemoryAuditSink {
  sink_events : list ModelAuditEvent;
  sink_started : gset ModelCallId;
  sink_finished : gset ModelCallId;
}.
Definition sink_record (s : InMemoryAuditSink) (event : ModelAuditEvent) : InMemoryAuditSink * result string unit :=
  match event with
  | Started started =>
      if bool_decide (started_id started ∈ sink_started s) then (s, Err "duplicate model-call start"%string)
      else (MkInMemoryAuditSink (sink_events s ++ [event]) (sink_started s ∪ {[started_id started]}) (sink_finished s), Ok tt)
  | Finished finished =>
      if negb (bool_decide (finished_id finished ∈ sink_started s)) then (s, Err "model-call finish has no start"%string)
      else if bool_decide (finished_id finished ∈ sink_finished s) then (s, Err "duplicate model-call finish"%string)
      else (MkInMemoryAuditSink (sink_events s ++ [event]) (sink_started s) (sink_finished s ∪ {[finished_id finished]}), Ok tt)
  end.

(** ** Fallbacks *)

Record DeterministicFallbackRequest := MkDeterministicFallbackRequest {
  fb_capability : ModelCapability;
  fb_output_schema : SchemaRef;
  fb_prompt : PromptAssetRef;
  fb_input : PreparedModelInput;
  fb_max_output_tokens : N;
}.
Record DeterministicFallback := MkDeterministicFallback {
  fallback_capability : ModelCapability;
  fallback_output_schema : SchemaRef;
  fallback_evaluate : DeterministicFallbackRequest → result string (option bytes);
}.
Record FallbackRegistry := MkFallbackRegistry { fallbacks : gmap (ModelCapability * SchemaRef) DeterministicFallback }.
Definition register_fallback (reg : FallbackRegistry) (f : DeterministicFallback) : FallbackRegistry * ModelResult unit :=
  match ModelCapability_validate (fallback_capability f) with
  | Err e => (reg, Err e)
  | Ok _ =>
      let key := (fallback_capability f, fallback_output_schema f) in
      if bool_decide (is_Some (fallbacks reg !! key)) then (reg, Err (RegistryConflict "deterministic fallback"))
      else (MkFallbackRegistry (<[key := f]> (fallbacks reg)), Ok tt)
  end.
Definition get_fallback (reg : FallbackRegistry) (c : ModelCapability) (s : SchemaRef) : option DeterministicFallback :=
  fallbacks reg !! (c, s).

(** ** The gateway *)

Record ModelCallRequest := MkModelCallRequest {
  req_capability : ModelCapability;
  req_prompt : PromptAssetRef;
  req_output_schema : SchemaRef;
  req_input : ModelInput;
  req_routing_policy : RoutingPolicy;
  req_max_output_tokens : N;
  allow_deterministic_fallback : bool;
}.
Record ModelGatewayConfig := MkModelGatewayConfig {
  retry : RetryPolicy;
  circuit_breaker : CircuitBreakerConfig;
  enable_validated_cache : bool;
}.
Definition ModelGatewayConfig_default : ModelGatewayConfig :=
  MkModelGatewayConfig RetryPolicy_default CircuitBreakerConfig_default true.
Definition ModelGatewayConfig_validate (c : ModelGatewayConfig) : ModelResult unit :=
  try? RetryPolicy_validate (retry c) in CircuitBreakerConfig_validate (circuit_breaker c).

Inductive DegradedReason :=
  | ReasonNoCompatibleRoute
  | ReasonProviderUnavailable
  | ReasonDeterministicUnavailable
  | ReasonDeadlineExceeded.
Record DegradedModelOutcome := MkDegradedModelOutcome {
  degraded_capability : ModelCapability;
  degraded_reason : DegradedReason;
  durable_capture_affected : bool;
  semantic_freshness_degraded : bool;
}.
Record ModelExecution := MkModelExecution {
  execution_call_id : ModelCallId;
  execution_path : ModelExecutionPath;
  execution_route : option RouteSummary;
  execution_usage : ModelUsage;
  execution_degraded : bool;
}.
Record ValidatedModelResult := MkValidatedModelResult {
  result_proposal : ValidatedModelProposal;
  result_execution : ModelExecution;
}.
Inductive ModelGatewayOutcome :=
  | Validated (r : ValidatedModelResult)
  | Degraded (outcome : DegradedModelOutcome).
Record ShadowEvaluation := MkShadowEvaluation {
  shadow_call_id : ModelCallId;
  shadow_route : RouteSummary;
  shadow_status : ModelCallStatus;
  shadow_output_digest : option ContentDigest;
  shadow_schema_valid : bool;
  shadow_usage : ModelUsage;
}.
Record CacheKey := MkCacheKey {
  ck_capability : ModelCapability;
  ck_provider : ProviderId;
  ck_model_revision : ModelRevision;
  ck_prompt_digest : ContentDigest;
  ck_schema_digest : ContentDigest;
  ck_input_digest : ContentDigest;
  ck_policy_digest : ContentDigest;
}.
#[export] Instance CacheKey_eq_dec : EqDecision CacheKey.
Proof. solve_decision. Defined.
#[export] Instance CacheKey_countable : Countable CacheKey.
Proof.
  refine (inj_countable' (λ k, (ck_capability k, ck_provider k, ck_model_revision k, ck_prompt_digest k, ck_schema_digest k,
      ck_input_digest k, ck_policy_digest k)) (λ '(a, b, c, d, e, f, g), MkCacheKey a b c d e f g) _). by intros [].
Defined.
Record CachedProposal := MkCachedProposal {
  cached_proposal : ValidatedModelProposal;
  cached_route : RouteSummary;
  cached_usage : ModelUsage;
}.

Definition cache_key (request : ModelCallRequest) (e : EvaluatedRoute) : CacheKey :=
  MkCacheKey (req_capability request) (provider (route e)) (model_revision (route e))
    (prompt_digest (req_prompt request)) (schema_digest (req_output_schema request))
    (prepared_digest (route_input e)) (decision_digest (decision e)).

Definition route_summary (e : EvaluatedRoute) : RouteSummary :=
  let d := descriptor (route e) in
  MkRouteSummary (capability d) (provider (route e)) (locality (data_policy d)) (estimated_cost_micros (decision e))
    (estimated_cost_currency (decision e)) (p95_ms (latency_profile d)).

Definition repair_violation_code (v : RepairViolation) : N :=
  match v with
  | RepairMalformedJson => 0
  | RepairStructuralSchema => 1
  | RepairSemanticSchema => 2
  | RepairOutputLimit => 3
  end.
Definition repair_violation (e : ModelRuntimeError) : RepairViolation :=
  match e with
  | MalformedJson _ => RepairMalformedJson
  | OutputTooLarge _ => RepairOutputLimit
  | SemanticViolation _ => RepairSemanticSchema
  | _ => RepairStructuralSchema
  end.
Definition provider_status (kind : ProviderErrorKind) : ModelCallStatus :=
  match kind with
  | KindTimeout => StatusTimeout
  | KindUnavailable | KindRateLimited => StatusProviderUnavailable
  | KindRefusal => StatusRefused
  | KindInvalidRequest => StatusInvalidRequest
  | KindInternal => StatusFailed
  end.

Definition REJECTED_OUTPUT_DOMAIN : bytes := str_bytes "contextdb-model-rejected-output-v1" ++ [x00].
Definition PROVIDER_OPERATION_DOMAIN : bytes := str_bytes "contextdb-model-provider-operation-v1" ++ [x00].
Definition PROVIDER_REPAIR_DOMAIN : bytes := str_bytes "contextdb-model-provider-repair-v1" ++ [x00].
Definition PROVIDER_PRODUCTION_DOMAIN : bytes := str_bytes "contextdb-model-provider-production-v1" ++ [x00].

Record OperationDigestInput := MkOperationDigestInput {
  odi_capability : ModelCapability;
  odi_provider : ProviderId;
  odi_model_revision : ModelRevision;
  odi_prompt : PromptAssetRef;
  odi_output_schema : SchemaRef;
  odi_input_digest : ContentDigest;
  odi_decision_digest : ContentDigest;
  odi_max_output_tokens : N;
  odi_shadow : bool;
}.

Definition rejected_output_digest `{Blake3} (s : SchemaRef) (output : bytes) : ContentDigest :=
  digest_parts REJECTED_OUTPUT_DOMAIN [digest_bytes (schema_digest s); output].

Definition provider_idempotency_key `{Blake3, Serialize OperationDigestInput} (request : ModelCallRequest)
    (e : EvaluatedRoute) (repair : option RepairContext) (is_shadow : bool) : ModelResult ContentDigest :=
  let? base := canonical_digest PROVIDER_OPERATION_DOMAIN
    (MkOperationDigestInput (req_capability request) (provider (route e)) (model_revision (route e)) (req_prompt request)
       (req_output_schema request) (prepared_digest (route_input e)) (decision_digest (decision e))
       (req_max_output_tokens request) is_shadow) in
  Ok match repair with
     | Some r => digest_parts PROVIDER_REPAIR_DOMAIN
                   [digest_bytes base; digest_bytes (rejected_output r); [byte_of_N (repair_violation_code (violation r))]]
     | None => digest_parts PROVIDER_PRODUCTION_DOMAIN [digest_bytes base]
     end.

(** ** The world and the monad *)

Class GatewayEnv (W : Type) := {
  now_ms : W → N * W;
  delay_ms : N → W → W;
  new_call_id : W → ModelCallId * W;
  record_event : ModelAuditEvent → W → result string unit * W;
}.
Record ModelProvider (W : Type) := MkModelProvider {
  adapter_id : ProviderId;
  adapter_invoke : ProviderRequest → ProviderAttemptContext → W → result ProviderError ProviderResponse * W;
}.
Arguments MkModelProvider {W}.
Arguments adapter_id {W}.
Arguments adapter_invoke {W}.

Inductive GatewayEvent :=
  | EvAudited (event : ModelAuditEvent)
  | EvInvoked (p : ProviderId) (request : ProviderRequest) (context : ProviderAttemptContext).

(** What never changes while requests run, and what they change. *)
Record ModelGateway (W : Type) := MkModelGateway {
  gw_registry : CapabilityRegistry;
  gw_schemas : SchemaRegistry;
  gw_prompts : PromptRegistry;
  gw_fallbacks : FallbackRegistry;
  gw_config : ModelGatewayConfig;
  gw_providers : gmap ProviderId (ModelProvider W);
}.
Arguments MkModelGateway {W}.
Arguments gw_registry {W}.
Arguments gw_schemas {W}.
Arguments gw_prompts {W}.
Arguments gw_fallbacks {W}.
Arguments gw_config {W}.
Arguments gw_providers {W}.
Record GatewayState (W : Type) := MkGatewayState {
  gs_world : W;
  gs_cache : gmap CacheKey CachedProposal;
  gs_circuits : CircuitBreaker;
  gs_availability : AvailabilityRegistry;
  gs_trace : list GatewayEvent;
}.
Arguments MkGatewayState {W}.
Arguments gs_world {W}.
Arguments gs_cache {W}.
Arguments gs_circuits {W}.
Arguments gs_availability {W}.
Arguments gs_trace {W}.

(** [ModelGateway::with_timer]. *)
Definition ModelGateway_with_timer {W} (registry : CapabilityRegistry) (schemas : SchemaRegistry) (prompts : PromptRegistry)
    (fallbacks : FallbackRegistry) (world : W) (config : ModelGatewayConfig) : ModelResult (ModelGateway W * GatewayState W) :=
  try? ModelGatewayConfig_validate config in
  let? circuits := CircuitBreaker_new (circuit_breaker config) in
  Ok (MkModelGateway registry schemas prompts fallbacks config ∅,
      MkGatewayState world ∅ circuits (MkAvailabilityRegistry ∅) []).

Definition register_provider {W} (gw : ModelGateway W) (p : ModelProvider W) : ModelGateway W * ModelResult unit :=
  if bool_decide (is_Some (gw_providers gw !! adapter_id p))
  then (gw, Err (RegistryConflict ("provider adapter " +:+ adapter_id p)))
  else (MkModelGateway (gw_registry gw) (gw_schemas gw) (gw_prompts gw) (gw_fallbacks gw) (gw_config gw)
          (<[adapter_id p := p]> (gw_providers gw)), Ok tt).

(** A computation keeps its effects when it fails. *)
Definition G (W A : Type) : Type := GatewayState W → ModelResult A * GatewayState W.
Definition gret {W A} (a : A) : G W A := λ s, (Ok a, s).
Definition gbind {W A B} (m : G W A) (k : A → G W B) : G W B :=
  λ s, match m s with
       | (Ok a, s') => k a s'
       | (Err e, s') => (Err e, s')
       end.
Definition glift {W A} (r : ModelResult A) : G W A := λ s, (r, s).
Declare Scope gateway_scope.
Notation "'let!' x := m 'in' k" := (gbind m (λ x, k))
  (at level 200, x name, m at level 200, k at level 200, right associativity) : gateway_scope.
Notation "'do!' m 'in' k" := (gbind m (λ _, k))
  (at level 200, m at level 200, k at level 200, right associativity) : gateway_scope.
#[local] Open Scope gateway_scope.

Section operations.
Context {W : Type} `{GatewayEnv W}.
Implicit Types s : GatewayState W.

Definition with_world s (w : W) : GatewayState W :=
  MkGatewayState w (gs_cache s) (gs_circuits s) (gs_availability s) (gs_trace s).
Definition with_circuits s (b : CircuitBreaker) : GatewayState W :=
  MkGatewayState (gs_world s) (gs_cache s) b (gs_availability s) (gs_trace s).
Definition logged s (w : W) (e : GatewayEvent) : GatewayState W :=
  MkGatewayState w (gs_cache s) (gs_circuits s) (gs_availability s) (gs_trace s ++ [e]).

Definition clock : G W N := λ s, let '(t, w) := now_ms (gs_world s) in (Ok t, with_world s w).
Definition wait (d : N) : G W unit := λ s, (Ok tt, with_world s (delay_ms d (gs_world s))).
Definition fresh_call : G W ModelCallId := λ s, let '(i, w) := new_call_id (gs_world s) in (Ok i, with_world s w).

Definition audit_record (e : ModelAuditEvent) : G W unit := λ s,
  match record_event e (gs_world s) with
  | (Ok _, w) => (Ok tt, logged s w (EvAudited e))
  | (Err message, w) => (Err (AuditError message), with_world s w)
  end.
Definition audit_start (started : ModelCallStarted) : G W unit := audit_record (Started started).
Definition audit_finish (finished : ModelCallFinished) : G W unit := audit_record (Finished finished).

Definition invoke (p : ModelProvider W) (pid : ProviderId) (request : ProviderRequest) (context : ProviderAttemptContext)
    : G W (result ProviderError ProviderResponse) := λ s,
  let '(r, w) := adapter_invoke p request context (gs_world s) in (Ok r, logged s w (EvInvoked pid request context)).

(** The circuit operations on the state. *)
Definition on_circuits {A} (f : CircuitBreaker → CircuitBreaker * ModelResult A) : G W A := λ s,
  let '(b, r) := f (gs_circuits s) in (r, with_circuits s b).
Definition circuit_allow (key : CircuitKey) (now : N) : G W bool := on_circuits (λ b, allow b key now).
Definition circuit_success (key : CircuitKey) : G W unit := on_circuits (λ b, record_success b key).
Definition circuit_failure (key : CircuitKey) (kind : ProviderErrorKind) (now : N) : G W unit :=
  on_circuits (λ b, record_failure b key kind now).
Definition provider_available (p : ProviderId) (now : N) : G W bool := λ s, (Ok (available (gs_availability s) p now), s).
Definition provider_unavailable (p : ProviderId) (until : N) : G W unit := λ s,
  (Ok tt, MkGatewayState (gs_world s) (gs_cache s) (gs_circuits s) (mark_unavailable (gs_availability s) p until) (gs_trace s)).
Definition cache_get (key : CacheKey) : G W (option CachedProposal) := λ s, (Ok (gs_cache s !! key), s).
Definition cache_insert (key : CacheKey) (c : CachedProposal) : G W unit := λ s,
  (Ok tt, MkGatewayState (gs_world s) (<[key := c]> (gs_cache s)) (gs_circuits s) (gs_availability s) (gs_trace s)).

(** ** Attempts *)

Context `{Blake3, JsonParser} `{Serialize SchemaDigestInput} `{Serialize PromptAssetDefinition}
  `{Serialize RoutingDigestInput, Serialize DecisionDigestInput, Serialize OperationDigestInput}.
Variable gw : ModelGateway W.

Definition provider_request (request : ModelCallRequest) (system_prompt : string) (e : EvaluatedRoute) : ProviderRequest :=
  MkProviderRequest (req_capability request) (model_profile (descriptor (route e))) (model_revision (route e))
    (req_prompt request) (req_output_schema request) (req_max_output_tokens request) system_prompt (route_input e).

Definition start_event (request : ModelCallRequest) (e : EvaluatedRoute) (path : ModelExecutionPath) (id : ModelCallId)
    (now attempt : N) (previous : option ModelCallId) (is_shadow : bool) : ModelCallStarted :=
  MkModelCallStarted id (req_capability request) path (Some (provider (route e)))
    (Some (model_profile (descriptor (route e)))) (Some (model_revision (route e))) (req_prompt request)
    (req_output_schema request) (prepared_digest (route_input e)) (prepared_source_refs (route_input e)) now attempt
    previous is_shadow (Some (decision e)).

Definition circuit_key (request : ModelCallRequest) (e : EvaluatedRoute) : CircuitKey :=
  MkCircuitKey (provider (route e)) (model_revision (route e)) (req_capability request).

Definition delay_before_retry (attempt : N) (retry_after : option N) (total_deadline : N) : G W bool :=
  let policy := retry (gw_config gw) in
  if (max_attempts policy <=? attempt)%N then gret false
  else
    let delay := delay_for policy attempt retry_after in
    let! now := clock in
    if (total_deadline <=? saturating_add U64_MAX now delay)%N then gret false
    else do! wait delay in gret true.

(** What one attempt leaves for the next: the previous call, the repair context and
    the number of repairs. *)
Record AttemptState := MkAttemptState {
  previous_call : option ModelCallId;
  repair : option RepairContext;
  repairs : N;
}.
(** [inl] returns from the loop, [inr] continues it. *)
Definition Step : Type := (option ValidatedModelResult + AttemptState)%type.

Definition retry_or_stop (attempt : N) (retry_after : option N) (total_deadline : N) (next : AttemptState) : G W Step :=
  let! again := delay_before_retry attempt retry_after total_deadline in
  gret (if (again : bool) then inr next else inl None).

(** The answer arrived in time and carries bytes. *)
Definition accept_response (request : ModelCallRequest) (e : EvaluatedRoute) (total_deadline now finished_at attempt : N)
    (call_id : ModelCallId) (st : AttemptState) (response : ProviderResponse) : G W Step :=
  do! circuit_success (circuit_key request e) in
  match validate_raw (gw_schemas gw) (req_output_schema request) (response_output response) with
  | Ok proposal =>
      do! audit_finish (MkModelCallFinished call_id StatusSucceeded (Some (output_digest proposal))
            (finished_at - now) (response_usage response)) in
      let summary := route_summary e in
      do! (if enable_validated_cache (gw_config gw)
           then cache_insert (cache_key request e) (MkCachedProposal proposal summary (response_usage response))
           else gret tt) in
      gret (inl (Some (MkValidatedModelResult proposal
        (MkModelExecution call_id PathProvider (Some summary) (response_usage response) false))))
  | Err error =>
      let rejected := rejected_output_digest (req_output_schema request) (response_output response) in
      do! audit_finish (MkModelCallFinished call_id StatusSchemaRejected (Some rejected)
            (finished_at - now) (response_usage response)) in
      if (max_schema_repairs (retry (gw_config gw)) <=? repairs st)%N || (attempt =? max_attempts (retry (gw_config gw)))%N
      then gret (inl None)
      else retry_or_stop attempt None total_deadline
             (MkAttemptState (Some call_id) (Some (MkRepairContext rejected (repair_violation error)))
                (saturating_add U8_MAX (repairs st) 1))
  end.

(** The provider reported a failure in time. *)
Definition handle_failure (request : ModelCallRequest) (e : EvaluatedRoute) (total_deadline now finished_at attempt : N)
    (call_id : ModelCallId) (st : AttemptState) (error : ProviderError) : G W Step :=
  do! circuit_failure (circuit_key request e) (error_kind error) finished_at in
  do! match retry_after_ms error with
      | Some delay =>
          if bool_decide (error_kind error = KindRateLimited)
          then provider_unavailable (provider (route e)) (saturating_add U64_MAX finished_at delay) else gret tt
      | None => gret tt
      end in
  do! audit_finish (MkModelCallFinished call_id (provider_status (error_kind error)) None (finished_at - now) ModelUsage_default) in
  if negb (retryable (error_kind error)) then gret (inl None)
  else retry_or_stop attempt (retry_after_ms error) total_deadline (MkAttemptState (Some call_id) (repair st) (repairs st)).

Definition call_provider (request : ModelCallRequest) (system_prompt : string) (e : EvaluatedRoute) (p : ModelProvider W)
    (total_deadline now attempt : N) (st : AttemptState) : G W Step :=
  let! deadline := glift (ok_or (checked_add U64_MAX now (per_attempt_timeout_ms (retry (gw_config gw)))) ModelArithmeticOverflow) in
  let deadline := N.min deadline total_deadline in
  let! call_id := fresh_call in
  do! audit_start (start_event request e PathProvider call_id now attempt (previous_call st) false) in
  let! key := glift (provider_idempotency_key request e (repair st) false) in
  let context := MkProviderAttemptContext call_id attempt key deadline
    (match repair st with Some r => SchemaRepair r | None => Production end) in
  let! response := invoke p (provider (route e)) (provider_request request system_prompt e) context in
  let! finished_at := clock in
  if (deadline <=? finished_at)%N then
    do! circuit_failure (circuit_key request e) KindTimeout finished_at in
    do! audit_finish (MkModelCallFinished call_id StatusTimeout
          (match response with Ok r => Some (rejected_output_digest (req_output_schema request) (response_output r)) | Err _ => None end)
          (finished_at - now) (match response with Ok r => response_usage r | Err _ => ModelUsage_default end)) in
    retry_or_stop attempt None total_deadline (MkAttemptState (Some call_id) (repair st) (repairs st))
  else
    match response with
    | Ok r => accept_response request e total_deadline now finished_at attempt call_id st r
    | Err error => handle_failure request e total_deadline now finished_at attempt call_id st error
    end.

Definition attempt_once (request : ModelCallRequest) (system_prompt : string) (e : EvaluatedRoute) (p : ModelProvider W)
    (total_deadline attempt : N) (st : AttemptState) : G W Step :=
  let! now := clock in
  if (total_deadline <=? now)%N then gret (inl None)
  else
    let! up := provider_available (provider (route e)) now in
    if negb up then gret (inl None)
    else
      let! allowed := circuit_allow (circuit_key request e) now in
      if negb allowed then gret (inl None)
      else call_provider request system_prompt e p total_deadline now attempt st.

(** [for attempt in 1..=max_attempts]. *)
Fixpoint attempt_loop (request : ModelCallRequest) (system_prompt : string) (e : EvaluatedRoute) (p : ModelProvider W)
    (total_deadline : N) (remaining : nat) (attempt : N) (st : AttemptState) : G W (option ValidatedModelResult) :=
  match remaining with
  | O => gret None
  | S remaining =>
      let! step := attempt_once request system_prompt e p total_deadline attempt st in
      match step with
      | inl r => gret r
      | inr next => attempt_loop request system_prompt e p total_deadline remaining (attempt + 1) next
      end
  end.

Definition audit_cache_hit (request : ModelCallRequest) (e : EvaluatedRoute) (cached : CachedProposal) : G W ValidatedModelResult :=
  let! call_id := fresh_call in
  let! now := clock in
  do! audit_start (start_event request e PathValidatedCache call_id now 1 None false) in
  do! audit_finish (MkModelCallFinished call_id StatusCacheHit (Some (output_digest (cached_proposal cached))) 0 (cached_usage cached)) in
  gret (MkValidatedModelResult (cached_proposal cached)
    (MkModelExecution call_id PathValidatedCache (Some (cached_route cached)) (cached_usage cached) false)).

Definition execute_route (request : ModelCallRequest) (system_prompt : string) (e : EvaluatedRoute) (total_deadline : N)
    : G W (option ValidatedModelResult) :=
  match gw_providers gw !! provider (route e) with
  | None => gret None
  | Some p =>
      let! cached := (if enable_validated_cache (gw_config gw) then cache_get (cache_key request e) else gret None) in
      match cached with
      | Some c => let! r := audit_cache_hit request e c in gret (Some r)
      | None => attempt_loop request system_prompt e p total_deadline
                  (N.to_nat (max_attempts (retry (gw_config gw)))) 1 (MkAttemptState None None 0)
      end
  end.
End operations.

(** ** Requests *)

Section requests.
Context {W : Type} `{GatewayEnv W}.
Context `{Blake3, JsonParser} `{Serialize SchemaDigestInput} `{Serialize PromptAssetDefinition}
  `{Serialize RoutingDigestInput, Serialize DecisionDigestInput, Serialize OperationDigestInput}.
Variable gw : ModelGateway W.

(** The filter of [prepare_request] on an evaluated route. *)
Definition route_usable (request : ModelCallRequest) (prompt : PromptAssetDefinition) (complexity : N) (e : EvaluatedRoute) : bool :=
  match profile (gw_registry gw) (model_profile (descriptor (route e))) with
  | Err _ => false
  | Ok pr =>
      let total_tokens := saturating_add U32_MAX (input_tokens (req_input request)) (req_max_output_tokens request) in
      bool_decide (preferred_structured_format pr = JsonSchema)
      && (complexity <=? max_schema_complexity pr)%N
      && (total_tokens <=? max_context_tokens pr)%N
      && (req_max_output_tokens request <=? reserved_output_tokens pr)%N
      && (pd_minimum_golden_score prompt <=? benchmark_score (descriptor (route e)))%N
      && (pd_minimum_adversarial_score prompt <=? benchmark_score (descriptor (route e)))%N
      && kleb (prepared_sensitivity (route_input e)) (pd_privacy_classification prompt)
  end.

Definition prompt_mismatch (request : ModelCallRequest) (prompt : PromptAssetDefinition) (allocated_tokens : N) : bool :=
  negb (bool_decide (pd_capability prompt = req_capability request))
  || negb (bool_decide (pd_output_schema prompt = req_output_schema request))
  || (pd_token_budget prompt <? allocated_tokens)%N
  || match input_language (req_input request) with
     | Some language => negb (bool_decide (language ∈ pd_evaluated_languages prompt))
     | None => false
     end.

Definition prepare_request (request : ModelCallRequest) : ModelResult (PromptAsset * list EvaluatedRoute) :=
  try? ModelCapability_validate (req_capability request) in
  if (req_max_output_tokens request =? 0)%N
  then Err (InvalidNumber "model_call.max_output_tokens" "must be positive")
  else if negb (schema_contains (gw_schemas gw) (req_output_schema request))
  then Err (SchemaUnavailable (req_output_schema request))
  else
    let? prompt := get_prompt (gw_prompts gw) (req_prompt request) in
    let? allocated_tokens := ok_or (checked_add U32_MAX (input_tokens (req_input request)) (req_max_output_tokens request))
      ModelArithmeticOverflow in
    if prompt_mismatch request (asset_definition prompt) allocated_tokens then Err PromptMismatch
    else
      let? complexity := schema_complexity (gw_schemas gw) (req_output_schema request) in
      let? candidates := routes_for (gw_registry gw) (req_capability request) (req_output_schema request) in
      let? evaluated := evaluate_routes candidates (req_input request) (req_capability request)
        (req_max_output_tokens request) (req_routing_policy request) in
      Ok (prompt, filter (λ e, route_usable request (asset_definition prompt) complexity e = true) evaluated).

Definition degraded (request : ModelCallRequest) (reason : DegradedReason) : ModelGatewayOutcome :=
  Degraded (MkDegradedModelOutcome (req_capability request) reason false true).

(** The rule-based path, once a fallback is registered. *)
Definition run_fallback (request : ModelCallRequest) (prompt : PromptAssetRef) (f : DeterministicFallback)
    : G W ModelGatewayOutcome :=
  let input := protected_for_fallback (req_input request) in
  let! call_id := fresh_call in
  let! now := clock in
  do! audit_start (MkModelCallStarted call_id (req_capability request) PathDeterministicFallback None None None prompt
        (req_output_schema request) (prepared_digest input) (prepared_source_refs input) now 1 None false None) in
  let finish status digest := (let! t := clock in audit_finish (MkModelCallFinished call_id status digest (t - now) ModelUsage_default)) in
  match fallback_evaluate f (MkDeterministicFallbackRequest (req_capability request) (req_output_schema request) prompt input
          (req_max_output_tokens request)) with
  | Err _ => do! finish StatusFailed None in gret (degraded request ReasonDeterministicUnavailable)
  | Ok None => do! finish StatusProviderUnavailable None in gret (degraded request ReasonDeterministicUnavailable)
  | Ok (Some output) =>
      match validate_raw (gw_schemas gw) (req_output_schema request) output with
      | Ok proposal =>
          do! finish StatusDeterministicFallback (Some (output_digest proposal)) in
          gret (Validated (MkValidatedModelResult proposal
            (MkModelExecution call_id PathDeterministicFallback None ModelUsage_default true)))
      | Err error =>
          do! finish StatusSchemaRejected (Some (rejected_output_digest (req_output_schema request) output)) in
          glift (Err error)
      end
  end.

Definition degraded_or_fallback (request : ModelCallRequest) (reason : DegradedReason) (prompt : PromptAssetRef)
    : G W ModelGatewayOutcome :=
  if allow_deterministic_fallback request && negb (bool_decide (input_sensitivity (req_input request) = Secret)) then
    match get_fallback (gw_fallbacks gw) (req_capability request) (req_output_schema request) with
    | Some f => run_fallback request prompt f
    | None => gret (degraded request reason)
    end
  else gret (degraded request reason).

Fixpoint route_loop (request : ModelCallRequest) (prompt : PromptAsset) (total_deadline : N) (provider_failed : bool)
    (es : list EvaluatedRoute) : G W ModelGatewayOutcome :=
  match es with
  | [] => degraded_or_fallback request
            (if provider_failed then ReasonProviderUnavailable else ReasonNoCompatibleRoute) (asset_reference prompt)
  | e :: rest =>
      let! now := clock in
      if (total_deadline <=? now)%N then degraded_or_fallback request ReasonDeadlineExceeded (asset_reference prompt)
      else
        let! r := execute_route gw request (pd_system_text (asset_definition prompt)) e total_deadline in
        match r with
        | Some result => gret (Validated result)
        | None => route_loop request prompt total_deadline true rest
        end
  end.

Definition execute (request : ModelCallRequest) : G W ModelGatewayOutcome :=
  let! prepared := glift (prepare_request request) in
  let! started_at := clock in
  let! total_deadline := glift (ok_or (checked_add U64_MAX started_at (total_timeout_ms (retry (gw_config gw)))) ModelArithmeticOverflow) in
  route_loop request prepared.1 total_deadline false prepared.2.

(** ** Shadow evaluation *)

Definition classify_shadow_response (schema : SchemaRef) (response : result ProviderError ProviderResponse) (deadline finished_at : N)
    : ModelCallStatus * option ContentDigest * bool * ModelUsage :=
  if (deadline <=? finished_at)%N then
    match response with
    | Ok r => (StatusTimeout, Some (rejected_output_digest schema (response_output r)), false, response_usage r)
    | Err _ => (StatusTimeout, None, false, ModelUsage_default)
    end
  else
    match response with
    | Ok r =>
        match validate_raw (gw_schemas gw) schema (response_output r) with
        | Ok proposal => (StatusSucceeded, Some (output_digest proposal), true, response_usage r)
        | Err _ => (StatusSchemaRejected, Some (rejected_output_digest schema (response_output r)), false, response_usage r)
        end
    | Err error => (provider_status (error_kind error), None, false, ModelUsage_default)
    end.

Definition shadow_route_once (request : ModelCallRequest) (prompt : PromptAsset) (e : EvaluatedRoute) (p : ModelProvider W)
    : G W ShadowEvaluation :=
  let! started_at := clock in
  let! deadline := glift (ok_or (checked_add U64_MAX started_at (per_attempt_timeout_ms (retry (gw_config gw)))) ModelArithmeticOverflow) in
  let! call_id := fresh_call in
  let preq := MkProviderRequest (req_capability request) (model_profile (descriptor (route e))) (model_revision (route e))
    (asset_reference prompt) (req_output_schema request) (req_max_output_tokens request)
    (pd_system_text (asset_definition prompt)) (route_input e) in
  do! audit_start (MkModelCallStarted call_id (req_capability request) PathProvider (Some (provider (route e)))
        (Some (model_profile (descriptor (route e)))) (Some (model_revision (route e))) (asset_reference prompt)
        (req_output_schema request) (prepared_digest (route_input e)) (prepared_source_refs (route_input e)) started_at 1
        None true (Some (decision e))) in
  let! key := glift (provider_idempotency_key request e None true) in
  let! response := invoke p (provider (route e)) preq (MkProviderAttemptContext call_id 1 key deadline Shadow) in
  let! finished_at := clock in
  let '(status, digest, valid, usage) := classify_shadow_response (req_output_schema request) response deadline finished_at in
  do! audit_finish (MkModelCallFinished call_id status digest (finished_at - started_at) usage) in
  gret (MkShadowEvaluation call_id (route_summary e) status digest valid usage).

Fixpoint shadow_loop (request : ModelCallRequest) (prompt : PromptAsset) (es : list EvaluatedRoute) : G W (list ShadowEvaluation) :=
  match es with
  | [] => gret []
  | e :: rest =>
      match gw_providers gw !! provider (route e) with
      | None => shadow_loop request prompt rest
      | Some p =>
          let! x := shadow_route_once request prompt e p in
          let! xs := shadow_loop request prompt rest in
          gret (x :: xs)
      end
  end.

Definition evaluate_shadow (request : ModelCallRequest) (providers : gset ProviderId) : G W (list ShadowEvaluation) :=
  let! prepared := glift (prepare_request request) in
  shadow_loop request prepared.1 (filter (λ e, providers = ∅ ∨ provider (route e) ∈ providers) prepared.2).
End requests.

(** ** Reasoning about computations *)

Definition is_invoked (e : GatewayEvent) : bool :=
  match e with EvInvoked _ _ _ => true | EvAudited _ => false end.
Definition invocations (x : list GatewayEvent) : nat := length (filter (λ e, is_invoked e = true) x).
Definition quiet (x : list GatewayEvent) : Prop := Forall (λ e, is_invoked e = false) x.

Lemma quiet_nil : quiet [].
Proof. constructor. Qed.
Lemma quiet_audited e : quiet [EvAudited e].
Proof. by repeat constructor. Qed.
Lemma quiet_app x y : quiet x → quiet y → quiet (x ++ y).
Proof. apply Forall_app_2. Qed.
Lemma invocations_app x y : invocations (x ++ y) = (invocations x + invocations y)%nat.
Proof. unfold invocations. by rewrite filter_app, length_app. Qed.
Lemma invocations_quiet x : quiet x → invocations x = 0%nat.
Proof.
  unfold invocations. induction 1 as [|e x He _ IH]; [done|]. rewrite filter_cons, decide_False by congruence. done.
Qed.
Create HintDb gateway.
#[export] Hint Resolve quiet_nil quiet_audited quiet_app : gateway.

Section reasoning.
Context {W : Type} `{GatewayEnv W}.
Context `{Blake3, JsonParser} `{Serialize SchemaDigestInput} `{Serialize PromptAssetDefinition}
  `{Serialize RoutingDigestInput, Serialize DecisionDigestInput, Serialize OperationDigestInput}.
Variable gw : ModelGateway W.

(** An invariant of the state that speaks of the cache only, through a property of
    its entries which validated outputs have. *)
Variables (entry_ok : CacheKey → ValidatedModelProposal → Prop).
Definition cache_inv (s : GatewayState W) : Prop :=
  ∀ k c, gs_cache s !! k = Some c → entry_ok k (cached_proposal c).
Hypothesis entry_validated : ∀ k r raw p,
  validate_raw (gw_schemas gw) r raw = Ok p → ck_schema_digest k = schema_digest r → entry_ok k p.

(** From a state with the invariant the computation restores it, and its answer and
    the events it adds to the trace meet [Φ]. *)
Definition ensures {A} (m : G W A) (Φ : ModelResult A → list GatewayEvent → Prop) : Prop :=
  ∀ s r s', cache_inv s → m s = (r, s') → cache_inv s' ∧ ∃ new, gs_trace s' = gs_trace s ++ new ∧ Φ r new.

Lemma ensures_mono {A} (m : G W A) (Φ Ψ : ModelResult A → list GatewayEvent → Prop) :
  ensures m Φ → (∀ r x, Φ r x → Ψ r x) → ensures m Ψ.
Proof. intros Hm HΦ s r s' Hs Hr. destruct (Hm s r s' Hs Hr) as (? & new & ? & ?). eauto 6. Qed.

Lemma ensures_ret {A} (a : A) (Φ : ModelResult A → list GatewayEvent → Prop) : Φ (Ok a) [] → ensures (gret a) Φ.
Proof. intros HΦ s r s' Hs [= <- <-]. split; [done|]. exists []. by rewrite app_nil_r. Qed.
Lemma ensures_lift {A} (x : ModelResult A) (Φ : ModelResult A → list GatewayEvent → Prop) : Φ x [] → ensures (glift x) Φ.
Proof. intros HΦ s r s' Hs [= <- <-]. split; [done|]. exists []. by rewrite app_nil_r. Qed.

Lemma ensures_bind {A B} (m : G W A) (k : A → G W B) (Φ : ModelResult B → list GatewayEvent → Prop) :
  ensures m (λ r x, match r with
                    | Ok a => ensures (k a) (λ r' y, Φ r' (x ++ y))
                    | Err e => Φ (Err e) x
                    end) →
  ensures (gbind m k) Φ.
Proof.
  intros Hm s r s' Hs Hr. unfold gbind in Hr. destruct (m s) as [[a|e] s1] eqn:Hms.
  - destruct (Hm _ _ _ Hs Hms) as (Hs1 & x & Hx & Hk). destruct (Hk _ _ _ Hs1 Hr) as (Hs' & y & Hy & HΦ).
    split; [done|]. exists (x ++ y). by rewrite Hy, Hx, (assoc_L (++)).
  - injection Hr as <- <-. destruct (Hm _ _ _ Hs Hms) as (? & x & ? & ?). eauto.
Qed.

(** The computation adds no event and answers anything that fits. *)
Lemma ensures_silent {A} (m : G W A) (Φ : ModelResult A → list GatewayEvent → Prop) :
  (∀ s, cache_inv s → cache_inv (m s).2 ∧ gs_trace (m s).2 = gs_trace s ∧ Φ (m s).1 []) → ensures m Φ.
Proof.
  intros Hm s r s' Hs Hr. destruct (Hm s Hs) as (? & Ht & ?). rewrite Hr in *. cbn in *. split; [done|].
  exists []. by rewrite app_nil_r.
Qed.

Lemma ensures_clock Φ : (∀ t, Φ (Ok t) []) → ensures clock Φ.
Proof. intros HΦ. apply ensures_silent. intros s Hs. unfold clock. destruct (now_ms (gs_world s)). split_and!; [exact Hs|done|apply HΦ]. Qed.
Lemma ensures_wait d Φ : Φ (Ok tt) [] → ensures (wait d) Φ.
Proof. intros HΦ. apply ensures_silent. intros s Hs. split_and!; [exact Hs|done|apply HΦ]. Qed.
Lemma ensures_fresh Φ : (∀ i, Φ (Ok i) []) → ensures fresh_call Φ.
Proof. intros HΦ. apply ensures_silent. intros s Hs. unfold fresh_call. destruct (new_call_id (gs_world s)). split_and!; [exact Hs|done|apply HΦ]. Qed.
Lemma ensures_circuits {A} (f : CircuitBreaker → CircuitBreaker * ModelResult A) Φ : (∀ r, Φ r []) → ensures (on_circuits f) Φ.
Proof. intros HΦ. apply ensures_silent. intros s Hs. unfold on_circuits. destruct (f (gs_circuits s)). split_and!; [exact Hs|done|apply HΦ]. Qed.
Lemma ensures_available p now Φ : (∀ b, Φ (Ok b) []) → ensures (provider_available p now) Φ.
Proof. intros HΦ. apply ensures_silent. intros s Hs. split_and!; [exact Hs|done|apply HΦ]. Qed.
Lemma ensures_unavailable p until Φ : Φ (Ok tt) [] → ensures (provider_unavailable p until) Φ.
Proof. intros HΦ. apply ensures_silent. intros s Hs. split_and!; [exact Hs|done|apply HΦ]. Qed.
Lemma ensures_cache_get k Φ :
  (∀ o, (∀ c, o = Some c → entry_ok k (cached_proposal c)) → Φ (Ok o) []) → ensures (cache_get k) Φ.
Proof. intros HΦ. apply ensures_silent. intros s Hs. split_and!; [exact Hs|done|]. apply HΦ. intros c Hc. by apply Hs. Qed.
Lemma ensures_cache_insert k c Φ : entry_ok k (cached_proposal c) → Φ (Ok tt) [] → ensures (cache_insert k c) Φ.
Proof.
  intros Hc HΦ. apply ensures_silent. intros s Hs. split_and!; [|done|done].
  intros k' c' Hk. cbn in Hk. apply lookup_insert_Some in Hk as [[<- <-]|[_ ?]]; [done|by apply Hs].
Qed.
Lemma ensures_audit e Φ : Φ (Ok tt) [EvAudited e] → (∀ m, Φ (Err (AuditError m)) []) → ensures (audit_record e) Φ.
Proof.
  intros Hok Herr s r s' Hs. unfold audit_record. destruct (record_event e (gs_world s)) as [[[]|m] w]; intros [= <- <-].
  - split; [exact Hs|]. by exists [EvAudited e].
  - split; [exact Hs|]. exists []. by rewrite app_nil_r.
Qed.
Lemma ensures_invoke p pid preq ctx Φ : (∀ o, Φ (Ok o) [EvInvoked pid preq ctx]) → ensures (invoke p pid preq ctx) Φ.
Proof.
  intros HΦ s r s' Hs. unfold invoke. destruct (adapter_invoke p preq ctx (gs_world s)) as [o w]. intros [= <- <-].
  split; [exact Hs|]. by exists [EvInvoked pid preq ctx].
Qed.

(** A computation of bookkeeping only: it calls no provider. *)
Definition bookkeeping {A} (m : G W A) (Q : A → Prop) : Prop :=
  ensures m (λ r x, quiet x ∧ match r with Ok a => Q a | Err _ => True end).

Lemma bookkeeping_bind {A B} (m : G W A) (k : A → G W B) Q R :
  bookkeeping m Q → (∀ a, Q a → bookkeeping (k a) R) → bookkeeping (gbind m k) R.
Proof.
  intros Hm Hk. apply ensures_bind. eapply ensures_mono; [exact Hm|]. intros [a|e] x [Hx Ha]; [|done].
  eapply ensures_mono; [exact (Hk a Ha)|]. intros r y [Hy Hr]. split; [by apply quiet_app|done].
Qed.
Lemma bookkeeping_ret {A} (a : A) (Q : A → Prop) : Q a → bookkeeping (gret a) Q.
Proof. intros HQ. apply ensures_ret. split; [apply quiet_nil|done]. Qed.
Lemma bookkeeping_lift {A} (x : ModelResult A) (Q : A → Prop) :
  (∀ a, x = Ok a → Q a) → bookkeeping (glift x) Q.
Proof. intros HQ. apply ensures_lift. split; [apply quiet_nil|]. destruct x; [by apply HQ|done]. Qed.
Lemma bookkeeping_clock : bookkeeping clock (λ _, True).
Proof. apply ensures_clock. split; [apply quiet_nil|done]. Qed.
Lemma bookkeeping_wait d : bookkeeping (wait d) (λ _, True).
Proof. apply ensures_wait. split; [apply quiet_nil|done]. Qed.
Lemma bookkeeping_fresh : bookkeeping fresh_call (λ _, True).
Proof. apply ensures_fresh. split; [apply quiet_nil|done]. Qed.
Lemma bookkeeping_circuits {A} (f : CircuitBreaker → CircuitBreaker * ModelResult A) : bookkeeping (on_circuits f) (λ _, True).
Proof. apply ensures_circuits. intros r. split; [apply quiet_nil|by destruct r]. Qed.
Lemma bookkeeping_available p now : bookkeeping (provider_available p now) (λ _, True).
Proof. apply ensures_available. split; [apply quiet_nil|done]. Qed.
Lemma bookkeeping_unavailable p until : bookkeeping (provider_unavailable p until) (λ _, True).
Proof. apply ensures_unavailable. split; [apply quiet_nil|done]. Qed.
Lemma bookkeeping_audit e : bookkeeping (audit_record e) (λ _, True).
Proof. apply ensures_audit; [split; [apply quiet_audited|done]|]. intros m. split; [apply quiet_nil|done]. Qed.

(** Walks through a sequence of bookkeeping steps whose answers do not matter. *)
Ltac bookkeep :=
  repeat lazymatch goal with
  | |- bookkeeping (gbind ?m _) _ => apply (bookkeeping_bind m _ (λ _, True)); [|intros ? _]
  | |- bookkeeping (gret _) _ => apply bookkeeping_ret
  | |- bookkeeping clock _ => apply bookkeeping_clock
  | |- bookkeeping (wait _) _ => apply bookkeeping_wait
  | |- bookkeeping fresh_call _ => apply bookkeeping_fresh
  | |- bookkeeping (circuit_failure _ _ _) _ => apply bookkeeping_circuits
  | |- bookkeeping (circuit_success _) _ => apply bookkeeping_circuits
  | |- bookkeeping (circuit_allow _ _) _ => apply bookkeeping_circuits
  | |- bookkeeping (provider_available _ _) _ => apply bookkeeping_available
  | |- bookkeeping (provider_unavailable _ _) _ => apply bookkeeping_unavailable
  | |- bookkeeping (audit_finish _) _ => apply bookkeeping_audit
  | |- bookkeeping (audit_start _) _ => apply bookkeeping_audit
  | |- bookkeeping (if ?b then _ else _) _ => destruct b
  end.

(** A proposal that was validated for the schema, now or when it was cached. *)
Definition entry_for (schema : SchemaRef) (p : ValidatedModelProposal) : Prop :=
  ∃ k, ck_schema_digest k = schema_digest schema ∧ entry_ok k p.
Definition step_ok (schema : SchemaRef) (st : Step) : Prop :=
  match st with inl (Some r) => entry_for schema (result_proposal r) | _ => True end.
Definition answer_ok (schema : SchemaRef) (o : option ValidatedModelResult) : Prop :=
  match o with Some r => entry_for schema (result_proposal r) | None => True end.
Definition outcome_ok (schema : SchemaRef) (o : ModelGatewayOutcome) : Prop :=
  match o with Validated r => entry_for schema (result_proposal r) | Degraded _ => True end.

Lemma delay_before_retry_quiet attempt after deadline : bookkeeping (delay_before_retry gw attempt after deadline) (λ _, True).
Proof. unfold delay_before_retry. by bookkeep. Qed.
Lemma retry_or_stop_quiet schema attempt after deadline next :
  bookkeeping (retry_or_stop gw attempt after deadline next) (step_ok schema).
Proof.
  unfold retry_or_stop. eapply bookkeeping_bind; [apply delay_before_retry_quiet|]. intros again _.
  apply bookkeeping_ret. by destruct again.
Qed.

Lemma accept_response_quiet request e deadline now finished attempt call_id st response :
  bookkeeping (accept_response gw request e deadline now finished attempt call_id st response) (step_ok (req_output_schema request)).
Proof.
  unfold accept_response. bookkeep. destruct (validate_raw _ _ _) as [p|error] eqn:Hv.
  - assert (entry_ok (cache_key request e) p) as Hp by by eapply entry_validated.
    bookkeep.
    + apply ensures_cache_insert; [done|]. split; [apply quiet_nil|done].
    + done.
    + by exists (cache_key request e).
  - bookkeep; [done|apply retry_or_stop_quiet].
Qed.
Lemma handle_failure_quiet request e deadline now finished attempt call_id st error :
  bookkeeping (handle_failure gw request e deadline now finished attempt call_id st error) (step_ok (req_output_schema request)).
Proof.
  unfold handle_failure. bookkeep.
  - destruct (retry_after_ms error); by bookkeep.
  - done.
  - apply retry_or_stop_quiet.
Qed.

(** One provider call in the trace: its accepted start record, the call, and
    bookkeeping. *)
Definition call_of (request : ModelCallRequest) (system_prompt : string) (total_deadline : N) (e : EvaluatedRoute)
    (x : list GatewayEvent) : Prop :=
  ∃ id now attempt previous ctx rest,
    x = EvAudited (Started (start_event request e PathProvider id now attempt previous false)) ::
        EvInvoked (provider (route e)) (provider_request request system_prompt e) ctx :: rest ∧
    ctx_call_id ctx = id ∧ ctx_attempt ctx = attempt ∧ (1 ≤ attempt ≤ max_attempts (retry (gw_config gw)))%N ∧
    (now < total_deadline)%N ∧ (ctx_deadline_ms ctx ≤ total_deadline)%N ∧ quiet rest.

Lemma call_provider_events request sp e p td now attempt st :
  (1 ≤ attempt ≤ max_attempts (retry (gw_config gw)))%N → (now < td)%N →
  ensures (call_provider gw request sp e p td now attempt st)
    (λ r x, (quiet x ∨ call_of request sp td e x) ∧ match r with Ok step => step_ok (req_output_schema request) step | Err _ => True end).
Proof.
  intros Hatt Hnow. unfold call_provider.
  apply ensures_bind, ensures_lift. destruct (ok_or _ _) as [d|]; [|split; [by left; apply quiet_nil|done]]. cbn zeta.
  apply ensures_bind, ensures_fresh. intros id. apply ensures_bind, ensures_audit; [|intros m; split; [by left; apply quiet_nil|done]].
  apply ensures_bind, ensures_lift. destruct (provider_idempotency_key _ _ _ _) as [key|]; [|split; [by left; apply quiet_audited|done]].
  apply ensures_bind, ensures_invoke. intros response.
  eapply ensures_mono with (Φ := λ r x, quiet x ∧ match r with Ok step => step_ok (req_output_schema request) step | Err _ => True end).
  - apply (bookkeeping_bind clock _ (λ _, True)); [apply bookkeeping_clock|]. intros finished _.
    destruct (_ <=? _)%N; [bookkeep; apply retry_or_stop_quiet|].
    destruct response; [apply accept_response_quiet|apply handle_failure_quiet].
  - intros r x [Hx Hr]. split; [|done]. right. eexists id, now, attempt, _, _, x. split; [done|].
    cbn. split_and!; try done; lia.
Qed.

Lemma attempt_once_events request sp e p td attempt st :
  (1 ≤ attempt ≤ max_attempts (retry (gw_config gw)))%N →
  ensures (attempt_once gw request sp e p td attempt st)
    (λ r x, (quiet x ∨ call_of request sp td e x) ∧ match r with Ok step => step_ok (req_output_schema request) step | Err _ => True end).
Proof.
  intros Hatt. unfold attempt_once. apply ensures_bind, ensures_clock. intros now.
  destruct (N.leb_spec td now) as [Hnow|Hnow]; [by apply ensures_ret; split; [left; apply quiet_nil|]|].
  apply ensures_bind, ensures_available. intros [|]; cbn [negb]; [|by apply ensures_ret; split; [left; apply quiet_nil|]].
  apply ensures_bind, ensures_circuits. intros [[|]|]; cbn [negb]; [|by apply ensures_ret; split; [left; apply quiet_nil|]|by split; [left; apply quiet_nil|]].
  by apply call_provider_events.
Qed.

(** The events of one request: provider calls on the given routes, at most [n] of
    them, and bookkeeping. *)
Definition calls_on (request : ModelCallRequest) (system_prompt : string) (total_deadline : N) (es : list EvaluatedRoute)
    (n : nat) (x : list GatewayEvent) : Prop :=
  ∃ chunks, x = mjoin chunks ∧
    Forall (λ c, quiet c ∨ ∃ e, e ∈ es ∧ call_of request system_prompt total_deadline e c) chunks ∧
    (invocations x ≤ n)%nat.

Lemma invocations_call request sp td e x : call_of request sp td e x → invocations x = 1%nat.
Proof.
  intros (id & now & attempt & prev & ctx & rest & -> & _ & _ & _ & _ & _ & Hq).
  unfold invocations. rewrite filter_cons, decide_False, filter_cons, decide_True by done. cbn. f_equal.
  by apply invocations_quiet.
Qed.
Lemma calls_on_nil request sp td es n : calls_on request sp td es n [].
Proof. exists []. split_and!; [done|constructor|cbn; lia]. Qed.
Lemma calls_on_quiet request sp td es n x : quiet x → calls_on request sp td es n x.
Proof.
  intros Hx. exists [x]. split_and!; [cbn; by rewrite app_nil_r|by constructor; [left|constructor]|].
  rewrite invocations_quiet by done. lia.
Qed.
Lemma calls_on_call request sp td es e x : e ∈ es → call_of request sp td e x → calls_on request sp td es 1 x.
Proof.
  intros He Hx. exists [x]. split_and!; [cbn; by rewrite app_nil_r|constructor; [right; by exists e|constructor]|].
  by rewrite (invocations_call _ _ _ _ _ Hx).
Qed.
Lemma calls_on_app request sp td es n m x y :
  calls_on request sp td es n x → calls_on request sp td es m y → calls_on request sp td es (n + m) (x ++ y).
Proof.
  intros (cx & -> & Hx & Hnx) (cy & -> & Hy & Hny). exists (cx ++ cy). split_and!.
  - by rewrite join_app.
  - by apply Forall_app_2.
  - rewrite invocations_app. lia.
Qed.
Lemma calls_on_mono request sp td es es' n n' x :
  es ⊆ es' → (n ≤ n')%nat → calls_on request sp td es n x → calls_on request sp td es' n' x.
Proof.
  intros Hes Hn (cs & -> & Hc & Hx). exists cs. split_and!; [done| |lia].
  eapply Forall_impl; [exact Hc|]. intros c [?|(e & He & ?)]; [by left|right; exists e; split; [by apply Hes|done]].
Qed.

Lemma attempt_loop_events request sp e p td remaining attempt st :
  (1 ≤ attempt)%N → (attempt + N.of_nat remaining ≤ max_attempts (retry (gw_config gw)) + 1)%N →
  ensures (attempt_loop gw request sp e p td remaining attempt st)
    (λ r x, calls_on request sp td [e] remaining x ∧ match r with Ok o => answer_ok (req_output_schema request) o | Err _ => True end).
Proof.
  revert attempt st. induction remaining as [|n IH]; intros attempt st Ha Hb; cbn [attempt_loop].
  { apply ensures_ret. split; [apply calls_on_nil|done]. }
  assert (∀ x, quiet x ∨ call_of request sp td e x → calls_on request sp td [e] 1 x) as Hone.
  { intros x [Hx|Hx]; [by apply calls_on_quiet|]. apply (calls_on_call _ _ _ _ e); [by left|done]. }
  apply ensures_bind. eapply ensures_mono; [apply attempt_once_events; lia|].
  intros [[o|next]|err] x [Hx%Hone Hr]; [| |by split; [eapply calls_on_mono; [| |exact Hx]; [done|lia]|]].
  - apply ensures_ret. rewrite app_nil_r. split; [eapply calls_on_mono; [| |exact Hx]; [done|lia]|by destruct o].
  - eapply ensures_mono; [apply IH; lia|]. intros r y [Hy Hr']. split; [|done]. by apply (calls_on_app _ _ _ _ 1 n).
Qed.

Lemma execute_route_events request sp e td :
  ensures (execute_route gw request sp e td)
    (λ r x, calls_on request sp td [e] (N.to_nat (max_attempts (retry (gw_config gw)))) x ∧
       match r with Ok o => answer_ok (req_output_schema request) o | Err _ => True end).
Proof.
  unfold execute_route. destruct (gw_providers gw !! provider (route e)) as [p|];
    [|apply ensures_ret; split; [apply calls_on_nil|done]].
  apply ensures_bind. eapply ensures_mono with (Φ := λ r x, x = [] ∧
    match r with Ok (Some c) => entry_ok (cache_key request e) (cached_proposal c) | _ => True end).
  { destruct (enable_validated_cache (gw_config gw)); [|by apply ensures_ret].
    apply ensures_cache_get. intros [c|] Hc; [|done]. split; [done|by apply Hc]. }
  intros [[c|]|] x [-> Hc]; [| |by split; [apply calls_on_nil|]].
  - eapply ensures_mono with (Φ := λ r x, quiet x ∧ match r with Ok o => answer_ok (req_output_schema request) o | Err _ => True end).
    + apply (bookkeeping_bind _ _ (λ r, entry_for (req_output_schema request) (result_proposal r))).
      * unfold audit_cache_hit. bookkeep. by exists (cache_key request e).
      * intros r Hr. by apply bookkeeping_ret.
    + intros r y [Hy Hr]. split; [by apply calls_on_quiet|done].
  - eapply ensures_mono; [apply attempt_loop_events; lia|]. done.
Qed.

Lemma run_fallback_quiet request prompt f : bookkeeping (run_fallback gw request prompt f) (outcome_ok (req_output_schema request)).
Proof.
  unfold run_fallback. bookkeep. cbn zeta. destruct (fallback_evaluate f _) as [[output|]|]; [|bookkeep; done..].
  destruct (validate_raw _ _ _) as [p|error] eqn:Hv; bookkeep.
  - exists (MkCacheKey (req_capability request) "" "" (prompt_digest prompt) (schema_digest (req_output_schema request))
      (prompt_digest prompt) (prompt_digest prompt)). split; [done|]. by eapply entry_validated.
  - by apply bookkeeping_lift.
Qed.
Lemma degraded_or_fallback_quiet request reason prompt :
  bookkeeping (degraded_or_fallback gw request reason prompt) (outcome_ok (req_output_schema request)).
Proof.
  unfold degraded_or_fallback. destruct (_ && _); [|by apply bookkeeping_ret].
  destruct (get_fallback _ _ _); [apply run_fallback_quiet|by apply bookkeeping_ret].
Qed.

Definition outcome_events (request : ModelCallRequest) (prompt : PromptAsset) (td : N) (es : list EvaluatedRoute) (n : nat)
    (r : ModelResult ModelGatewayOutcome) (x : list GatewayEvent) : Prop :=
  calls_on request (pd_system_text (asset_definition prompt)) td es n x ∧
  match r with Ok o => outcome_ok (req_output_schema request) o | Err _ => True end.

Lemma fallback_events request reason prompt td es n :
  ensures (degraded_or_fallback gw request reason (asset_reference prompt)) (outcome_events request prompt td es n).
Proof.
  eapply ensures_mono; [apply degraded_or_fallback_quiet|]. intros r x [Hx Hr]. split; [by apply calls_on_quiet|done].
Qed.

Lemma route_loop_events request prompt td failed es :
  ensures (route_loop gw request prompt td failed es)
    (outcome_events request prompt td es (N.to_nat (max_attempts (retry (gw_config gw))) * length es)).
Proof.
  revert failed. induction es as [|e es IH]; intros failed; cbn [route_loop]; [apply fallback_events|].
  apply ensures_bind, ensures_clock. intros now. destruct (td <=? now)%N; [apply fallback_events|].
  apply ensures_bind. eapply ensures_mono; [apply execute_route_events|].
  set (n := N.to_nat (max_attempts (retry (gw_config gw)))).
  assert (∀ x, calls_on request (pd_system_text (asset_definition prompt)) td [e] n x →
    calls_on request (pd_system_text (asset_definition prompt)) td (e :: es) n x) as Hup.
  { intros x Hx. eapply calls_on_mono; [| |exact Hx]; [set_solver|lia]. }
  assert (∀ x m, (n ≤ m)%nat → calls_on request (pd_system_text (asset_definition prompt)) td (e :: es) n x →
    calls_on request (pd_system_text (asset_definition prompt)) td (e :: es) m x) as Hlen.
  { intros x m Hm Hx. eapply calls_on_mono; [| |exact Hx]; [set_solver|lia]. }
  intros [[r|]|err] x [Hx%Hup Hr].
  - apply ensures_ret. rewrite app_nil_r. split; [apply Hlen; [cbn; lia|done]|done].
  - eapply ensures_mono; [apply IH|]. intros r y [Hy Hr']. split; [|done].
    replace (n * length (e :: es))%nat with (n + n * length es)%nat by (cbn; lia).
    rewrite app_nil_l. apply (calls_on_app _ _ _ _ n (n * length es)); [exact Hx|].
    eapply calls_on_mono; [| |exact Hy]; [set_solver|done].
  - split; [apply Hlen; [cbn; lia|done]|done].
Qed.

(** The deadline of a request counts from its first look at the clock. *)
Definition request_deadline (s : GatewayState W) : N := ((now_ms (gs_world s)).1 + total_timeout_ms (retry (gw_config gw)))%N.

Lemma execute_events request s r s' :
  cache_inv s → execute gw request s = (r, s') →
  cache_inv s' ∧ match r with Ok o => outcome_ok (req_output_schema request) o | Err _ => True end ∧
  ∃ new, gs_trace s' = gs_trace s ++ new ∧
    (new = [] ∨ ∃ prompt es, prepare_request gw request = Ok (prompt, es) ∧
       calls_on request (pd_system_text (asset_definition prompt)) (request_deadline s) es
         (N.to_nat (max_attempts (retry (gw_config gw))) * length es) new).
Proof.
  intros Hs. unfold execute, request_deadline, gbind, glift, clock.
  destruct (prepare_request gw request) as [[prompt es]|err].
  2: { intros [= <- <-]. split_and!; [done|done|]. exists []. rewrite app_nil_r. by split; [|left]. }
  destruct (now_ms (gs_world s)) as [now w] eqn:Hnow. cbn [fst snd].
  destruct (checked_add _ _ _) as [td|] eqn:Htd; cbn [ok_or].
  2: { intros [= <- <-]. split_and!; [exact Hs|done|]. exists []. rewrite app_nil_r. by split; [|left]. }
  apply checked_add_Some in Htd as [-> _]. intros Hr.
  destruct (route_loop_events _ _ _ _ _ (with_world s w) _ _ Hs Hr) as (? & new & Htr & Hc & Ho).
  split_and!; [done|done|]. exists new. split; [done|]. right. by exists prompt, es.
Qed.

(** ** Shadow evaluation touches the world and the trace only *)

Definition isolated {A} (m : G W A) : Prop :=
  ∀ s, gs_cache (m s).2 = gs_cache s ∧ gs_circuits (m s).2 = gs_circuits s ∧ gs_availability (m s).2 = gs_availability s.

Lemma isolated_bind {A B} (m : G W A) (k : A → G W B) : isolated m → (∀ a, isolated (k a)) → isolated (gbind m k).
Proof.
  intros Hm Hk s. specialize (Hm s). unfold gbind. destruct (m s) as [[a|e] s1]; [|done]. cbn in Hm.
  destruct Hm as (<- & <- & <-). apply Hk.
Qed.
Lemma isolated_audit e : isolated (audit_record e).
Proof. intros s. unfold audit_record. by destruct (record_event e (gs_world s)) as [[[]|] w]. Qed.
Lemma isolated_clock : isolated clock.
Proof. intros s. unfold clock. by destruct (now_ms (gs_world s)). Qed.

Lemma shadow_route_once_isolated request prompt e p : isolated (shadow_route_once gw request prompt e p).
Proof.
  unfold shadow_route_once. apply isolated_bind; [apply isolated_clock|]. intros started.
  apply isolated_bind; [done|]. intros deadline. apply isolated_bind.
  { intros s. unfold fresh_call. by destruct (new_call_id (gs_world s)). }
  intros id. apply isolated_bind; [apply isolated_audit|]. intros _. apply isolated_bind; [done|]. intros key.
  apply isolated_bind.
  { intros s. unfold invoke. by destruct (adapter_invoke _ _ _ _). }
  intros response. apply isolated_bind; [apply isolated_clock|]. intros finished.
  destruct (classify_shadow_response _ _ _ _ _) as [[[status digest] valid] usage].
  apply isolated_bind; [apply isolated_audit|]. done.
Qed.
Lemma evaluate_shadow_isolated request providers : isolated (evaluate_shadow gw request providers).
Proof.
  unfold evaluate_shadow. apply isolated_bind; [done|]. intros [prompt es]. cbn [fst snd].
  induction (filter _ es) as [|e rest IH]; cbn [shadow_loop]; [done|].
  destruct (gw_providers gw !! provider (route e)); [|done].
  apply isolated_bind; [apply shadow_route_once_isolated|]. intros x. by apply isolated_bind.
Qed.
End reasoning.

(** ** Properties *)

Section properties.
Context {W : Type} `{GatewayEnv W}.
Context `{Blake3, JsonParser} `{Serialize SchemaDigestInput} `{Serialize PromptAssetDefinition}
  `{Serialize RoutingDigestInput, Serialize DecisionDigestInput, Serialize OperationDigestInput}.
Variable gw : ModelGateway W.
Implicit Types s : GatewayState W.

(** A call found in the events of a request is preceded by its start record. *)
Lemma calls_on_lookup request sp td es n x i p preq ctx :
  calls_on gw request sp td es n x → x !! i = Some (EvInvoked p preq ctx) →
  ∃ j e id now previous, i = S j ∧ e ∈ es ∧ p = provider (route e) ∧ preq = provider_request request sp e ∧
    x !! j = Some (EvAudited (Started (start_event request e PathProvider id now (ctx_attempt ctx) previous false))) ∧
    ctx_call_id ctx = id ∧ (1 ≤ ctx_attempt ctx ≤ max_attempts (retry (gw_config gw)))%N ∧
    (now < td)%N ∧ (ctx_deadline_ms ctx ≤ td)%N.
Proof.
  assert (∀ c k, quiet c → c !! k ≠ Some (EvInvoked p preq ctx)) as Hquiet.
  { intros c k Hc Hk. pose proof (Forall_lookup_1 _ _ _ _ Hc Hk) as Hf. done. }
  intros (chunks & -> & Hchunks & _). revert i. induction Hchunks as [|c cs Hc _ IH]; intros i; [done|].
  change (mjoin (c :: cs)) with (c ++ mjoin cs). intros [Hi|[Hlen Hi]]%lookup_app_Some.
  - destruct Hc as [Hq|(e & He & id & now & attempt & previous & ctx' & rest & -> & Hid & Hat & Hb & Hn & Hd & Hq)];
      [by destruct (Hquiet c i Hq)|].
    destruct i as [|[|i]]; cbn in Hi; [done| |by destruct (Hquiet rest i Hq)].
    injection Hi as <- <- <-. exists 0%nat, e, id, now, previous. subst attempt. destruct Hb as [? ?]. by split_and!.
  - destruct (IH _ Hi) as (j & e & id & now & previous & Hj & Hrest). exists (length c + j)%nat, e, id, now, previous.
    destruct Hrest as (? & ? & ? & Hx & ? & [? ?] & ? & ?). split_and!; try done; [lia|].
    rewrite lookup_app_r by lia. by replace (length c + j - length c)%nat with j by lia.
Qed.

Lemma prepare_request_elem request prompt es e :
  prepare_request gw request = Ok (prompt, es) → e ∈ es →
  ∃ r k, routes (gw_registry gw) !! k = Some r ∧
    route_admitted (req_input request) (req_capability request) (req_max_output_tokens request) (req_routing_policy request) r e ∧
    kle (prepared_sensitivity (route_input e)) (pd_privacy_classification (asset_definition prompt)).
Proof.
  unfold prepare_request. intros ([] & _ & Hp)%result_bind_Ok.
  destruct (_ =? _)%N; [done|]. destruct (negb (schema_contains _ _)); [done|].
  apply result_bind_Ok in Hp as (asset & _ & (tokens & _ & Hp)%result_bind_Ok).
  destruct (prompt_mismatch _ _ _); [done|].
  apply result_bind_Ok in Hp as (c & _ & (rs & Hrs & (evs & Hev & Hp)%result_bind_Ok)%result_bind_Ok). injection Hp as <- <-.
  intros [Hu He]%list_elem_of_filter. apply (evaluate_routes_elem _ _ _ _ _ _ _ Hev) in He as (r & Hr & Hadm).
  unfold routes_for in Hrs. apply result_bind_Ok in Hrs as ([] & _ & [= <-]).
  apply list_elem_of_filter in Hr as [_ [k Hk]%elem_of_bt_values]. exists r, k. split_and!; [done|done|].
  unfold route_usable in Hu. destruct (profile _ _); [|done]. rewrite !andb_true_iff, kleb_true in Hu. by destruct_and?.
Qed.

(** C27: every provider call is audited and protected.  Whatever happened before,
    each provider call of a request comes right after the accepted audit record of
    that very call, goes to a registered route, is for an input that is not secret,
    carries a payload within what the provider and the prompt accept, and a hosted
    provider is called only as the policy allows: external processing permitted and
    consented to, provider on the allowlist, promises and region as required, with
    the redacted payload unless none is required or supplied. *)
Theorem gateway_calls_audited_and_protected request s r s' :
  execute gw request s = (r, s') →
  ∃ new, gs_trace s' = gs_trace s ++ new ∧
    ∀ i p preq ctx, new !! i = Some (EvInvoked p preq ctx) →
      (∃ j started, i = S j ∧ new !! j = Some (EvAudited (Started started)) ∧ started_id started = ctx_call_id ctx ∧
         started_provider started = Some p ∧ started_input_digest started = prepared_digest (pr_input preq) ∧
         started_attempt started = ctx_attempt ctx ∧ shadow started = false) ∧
      (∃ k rt, routes (gw_registry gw) !! k = Some rt ∧ provider rt = p ∧ input_sensitivity (req_input request) ≠ Secret ∧
         kle (prepared_sensitivity (pr_input preq)) (maximum_sensitivity (data_policy (descriptor rt))) ∧
         (locality (data_policy (descriptor rt)) = Hosted →
          hosted_allowed (req_input request) rt (req_routing_policy request) (pr_input preq))).
Proof.
  intros Hr. destruct (execute_events gw (λ _ _, True) (λ _ _ _ _ _ _, I) request s r s') as (_ & _ & new & Htr & Hnew); [done|done|].
  exists new. split; [done|]. intros i p preq ctx Hi. destruct Hnew as [->|(prompt & es & Hprep & Hc)]; [done|].
  destruct (calls_on_lookup _ _ _ _ _ _ _ _ _ _ Hc Hi) as (j & e & id & now & prev & Hj & He & -> & -> & Hst & Hid & _).
  split; [by exists j, (start_event request e PathProvider id now (ctx_attempt ctx) prev false)|].
  destruct (prepare_request_elem _ _ _ _ Hprep He) as (rt & k & Hk & Hadm & _). exists k, rt.
  destruct (ra_input _ _ _ _ _ _ Hadm) as [[? _] ? _ _ _ _ Hl].
  split_and!; [done|by rewrite <- (ra_route _ _ _ _ _ _ Hadm)|done|done|done].
Qed.

(** the effort spent on a request is bounded.  A request makes at most the
    configured number of attempts per usable route, and none when it cannot be
    prepared; every attempt number is within that bound and every deadline handed
    to a provider is at most the start of the request plus its total timeout. *)
Theorem gateway_effort_bounded request s r s' :
  execute gw request s = (r, s') →
  ∃ new, gs_trace s' = gs_trace s ++ new ∧
    match prepare_request gw request with
    | Ok (_, es) => (invocations new ≤ N.to_nat (max_attempts (retry (gw_config gw))) * length es)%nat
    | Err _ => new = []
    end ∧
    ∀ p preq ctx, EvInvoked p preq ctx ∈ new →
      (1 ≤ ctx_attempt ctx ≤ max_attempts (retry (gw_config gw)))%N ∧
      (ctx_deadline_ms ctx ≤ (now_ms (gs_world s)).1 + total_timeout_ms (retry (gw_config gw)))%N.
Proof.
  intros Hr. destruct (execute_events gw (λ _ _, True) (λ _ _ _ _ _ _, I) request s r s') as (_ & _ & new & Htr & Hnew); [done|done|].
  exists new. split; [done|]. destruct Hnew as [->|(prompt & es & Hprep & Hc)].
  - split; [destruct (prepare_request gw request) as [[]|]; [cbn; lia|done]|set_solver].
  - rewrite Hprep. split; [by destruct Hc as (? & _ & _ & ?)|].
    intros p preq ctx [i Hi]%list_elem_of_lookup.
    by destruct (calls_on_lookup _ _ _ _ _ _ _ _ _ _ Hc Hi) as (j & e & id & now & prev & _ & _ & _ & _ & _ & _ & ? & _ & ?).
Qed.

Inductive GatewayOp :=
  | OpExecute (request : ModelCallRequest)
  | OpShadow (request : ModelCallRequest) (providers : gset ProviderId).
Definition run_gateway s (ops : list GatewayOp) : GatewayState W :=
  foldl (λ s op, match op with
                 | OpExecute request => (execute gw request s).2
                 | OpShadow request providers => (evaluate_shadow gw request providers s).2
                 end) s ops.

(** The proposal was made by the validation of some bytes against a registered
    schema with the digest that the key names. *)
Definition validated_entry (k : CacheKey) (p : ValidatedModelProposal) : Prop :=
  ∃ r raw, validate_raw (gw_schemas gw) r raw = Ok p ∧ schema_digest r = ck_schema_digest k.

Lemma run_gateway_inv ops s : cache_inv validated_entry s → cache_inv validated_entry (run_gateway s ops).
Proof.
  revert s. induction ops as [|op ops IH]; intros s Hs; [done|]. unfold run_gateway. cbn [foldl]. apply IH.
  destruct op as [request|request providers].
  - destruct (execute gw request s) as [r s'] eqn:He.
    eapply (execute_events gw validated_entry); [|exact Hs|exact He]. intros k r0 raw p ? ?. by exists r0, raw.
  - intros k c Hc. destruct (evaluate_shadow_isolated gw request providers s) as (Hcache & _). rewrite Hcache in Hc. by apply Hs.
Qed.

(** C28: the gateway returns only validated proposals.  After any requests and
    shadow evaluations on a gateway that started with an empty cache, a proposal
    that a request returns, from a provider, the cache or the fallback, is the
    result of validating some bytes against a registered schema that has the
    digest of the requested one. *)
Theorem gateway_returns_only_validated s0 ops request res s' :
  gs_cache s0 = ∅ → execute gw request (run_gateway s0 ops) = (Ok (Validated res), s') →
  ∃ r raw, validate_raw (gw_schemas gw) r raw = Ok (result_proposal res) ∧
    schema_digest r = schema_digest (req_output_schema request).
Proof.
  intros Hs0 He. assert (cache_inv validated_entry (run_gateway s0 ops)) as Hs.
  { apply run_gateway_inv. intros k c. by rewrite Hs0, lookup_empty. }
  destruct (execute_events gw validated_entry (λ k r raw p Hv Hk, ex_intro _ r (ex_intro _ raw (conj Hv (eq_sym Hk))))
    request _ _ _ Hs He) as (_ & (k & Hk & r & raw & ? & Hd) & _).
  exists r, raw. split; [done|congruence].
Qed.

(** shadow evaluation is isolated.  Whatever it does and however it ends, the
    validated cache, the circuits and the availability of providers are as before,
    so no later request can see that it took place. *)
Theorem shadow_evaluation_isolated request providers s r s' :
  evaluate_shadow gw request providers s = (r, s') →
  gs_cache s' = gs_cache s ∧ gs_circuits s' = gs_circuits s ∧ gs_availability s' = gs_availability s.
Proof. intros Hr. pose proof (evaluate_shadow_isolated gw request providers s) as Hi. by rewrite Hr in Hi. Qed.

(** ** A probe that is never answered *)

(** The route that a call uses. *)
Definition key_of_call (p : ProviderId) (preq : ProviderRequest) : CircuitKey :=
  MkCircuitKey p (pr_model_revision preq) (pr_capability preq).
Definition avoids (key : CircuitKey) (ev : GatewayEvent) : Prop :=
  match ev with EvInvoked p preq _ => key_of_call p preq ≠ key | EvAudited _ => True end.
Definition stuck (key : CircuitKey) s : Prop := circuit_state (gs_circuits s) key = HalfOpen true.
Definition keeps_stuck (key : CircuitKey) {A} (m : G W A) : Prop :=
  ∀ s, stuck key s → stuck key (m s).2 ∧ ∃ new, gs_trace (m s).2 = gs_trace s ++ new ∧ Forall (avoids key) new.

Lemma keeps_stuck_bind key {A B} (m : G W A) (k : A → G W B) :
  keeps_stuck key m → (∀ a, keeps_stuck key (k a)) → keeps_stuck key (gbind m k).
Proof.
  intros Hm Hk s Hs. destruct (Hm s Hs) as (Hs1 & x & Hx & Hax). unfold gbind.
  destruct (m s) as [[a|e] s1]; cbn [fst snd] in *; [|eauto].
  destruct (Hk a s1 Hs1) as (Hs2 & y & Hy & Hay). split; [done|]. exists (x ++ y).
  split; [by rewrite Hy, Hx, (assoc_L (++))|by apply Forall_app_2].
Qed.
Lemma keeps_stuck_silent key {A} (m : G W A) :
  (∀ s, stuck key s → stuck key (m s).2 ∧ gs_trace (m s).2 = gs_trace s) → keeps_stuck key m.
Proof. intros Hm s Hs. destruct (Hm s Hs) as [? Ht]. split; [done|]. exists []. by rewrite app_nil_r. Qed.
Lemma keeps_stuck_pure key {A} (x : ModelResult A) : keeps_stuck key (λ s, (x, s)).
Proof. by apply keeps_stuck_silent. Qed.
Lemma keeps_stuck_clock key : keeps_stuck key clock.
Proof. apply keeps_stuck_silent. intros s Hs. unfold clock. by destruct (now_ms (gs_world s)). Qed.
Lemma keeps_stuck_fresh key : keeps_stuck key fresh_call.
Proof. apply keeps_stuck_silent. intros s Hs. unfold fresh_call. by destruct (new_call_id (gs_world s)). Qed.
Lemma keeps_stuck_circuits key {A} (f : CircuitBreaker → CircuitBreaker * ModelResult A) :
  (∀ b, circuit_state b key = HalfOpen true → circuit_state (f b).1 key = HalfOpen true) → keeps_stuck key (on_circuits f).
Proof.
  intros Hf. apply keeps_stuck_silent. intros s Hs. specialize (Hf _ Hs). unfold on_circuits. by destruct (f (gs_circuits s)).
Qed.
Lemma keeps_stuck_audit key e : keeps_stuck key (audit_record e).
Proof.
  intros s Hs. unfold audit_record. destruct (record_event e (gs_world s)) as [[[]|m] w]; cbn; (split; [exact Hs|]).
  - exists [EvAudited e]. split; [done|by repeat constructor].
  - exists []. by rewrite app_nil_r.
Qed.
Lemma keeps_stuck_invoke key p pid preq ctx : key_of_call pid preq ≠ key → keeps_stuck key (invoke p pid preq ctx).
Proof.
  intros Hk s Hs. unfold invoke. destruct (adapter_invoke p preq ctx (gs_world s)) as [o w]. split; [exact Hs|].
  exists [EvInvoked pid preq ctx]. split; [done|by repeat constructor].
Qed.
Lemma keeps_stuck_success key k : k ≠ key → keeps_stuck key (circuit_success k).
Proof. intros Hk. apply keeps_stuck_circuits. intros b Hb. etrans; [exact (circuit_step_other b (EventSuccess k) key Hk)|exact Hb]. Qed.
Lemma keeps_stuck_failure key k kind now : k ≠ key → keeps_stuck key (circuit_failure k kind now).
Proof. intros Hk. apply keeps_stuck_circuits. intros b Hb. etrans; [exact (circuit_step_other b (EventFailure k kind now) key Hk)|exact Hb]. Qed.

(** Walks through a computation whose circuit operations are on another key. *)
Ltac keep_stuck :=
  repeat lazymatch goal with
  | |- keeps_stuck _ (gbind _ _) => apply keeps_stuck_bind; [|intros ?]
  | |- keeps_stuck _ clock => apply keeps_stuck_clock
  | |- keeps_stuck _ fresh_call => apply keeps_stuck_fresh
  | |- keeps_stuck _ (audit_start _) => apply keeps_stuck_audit
  | |- keeps_stuck _ (audit_finish _) => apply keeps_stuck_audit
  | |- keeps_stuck _ (circuit_success _) => by apply keeps_stuck_success
  | |- keeps_stuck _ (circuit_failure _ _ _) => by apply keeps_stuck_failure
  | |- keeps_stuck _ (gret _) => apply keeps_stuck_pure
  | |- keeps_stuck _ (glift _) => apply keeps_stuck_pure
  | |- keeps_stuck _ (invoke _ _ _ _) => by apply keeps_stuck_invoke
  | |- keeps_stuck _ (retry_or_stop _ _ _ _ _) => unfold retry_or_stop, delay_before_retry
  | |- keeps_stuck _ (if ?b then _ else _) => destruct b
  | |- keeps_stuck _ (match ?x with _ => _ end) => destruct x
  | |- keeps_stuck _ _ => by apply keeps_stuck_silent
  end.

Lemma call_provider_stuck key request sp e p td now attempt st :
  circuit_key request e ≠ key → keeps_stuck key (call_provider gw request sp e p td now attempt st).
Proof.
  intros Hk. unfold call_provider. keep_stuck; unfold accept_response, handle_failure; keep_stuck.
Qed.

Lemma attempt_once_stuck key request sp e p td attempt st : keeps_stuck key (attempt_once gw request sp e p td attempt st).
Proof.
  unfold attempt_once. apply keeps_stuck_bind; [apply keeps_stuck_clock|]. intros now.
  destruct (td <=? now)%N; [apply keeps_stuck_pure|]. apply keeps_stuck_bind; [by apply keeps_stuck_silent|]. intros [|]; cbn [negb]; [|apply keeps_stuck_pure].
  destruct (decide (circuit_key request e = key)) as [<-|Hk].
  - intros s Hs. unfold gbind, circuit_allow, on_circuits.
    destruct (allow_probing _ _ now Hs) as [Hr Hst]. destruct (allow _ _ _) as [b r]. cbn [fst snd] in *. subst r.
    split; [exact Hst|]. exists []. cbn. by rewrite app_nil_r.
  - apply keeps_stuck_bind.
    + apply keeps_stuck_circuits. intros b Hb. etrans; [exact (circuit_step_other b (EventAllow (circuit_key request e) now) key Hk)|exact Hb].
    + intros [|]; [by apply call_provider_stuck|apply keeps_stuck_pure].
Qed.

Lemma execute_route_stuck key request sp e td : keeps_stuck key (execute_route gw request sp e td).
Proof.
  unfold execute_route. destruct (gw_providers gw !! provider (route e)) as [p|]; [|apply keeps_stuck_pure].
  apply keeps_stuck_bind; [keep_stuck|]. intros [c|].
  - unfold audit_cache_hit. keep_stuck.
  - generalize (MkAttemptState None None 0) as st. generalize 1%N as attempt.
    induction (N.to_nat (max_attempts (retry (gw_config gw)))) as [|n IH]; intros attempt st; cbn [attempt_loop]; [apply keeps_stuck_pure|].
    apply keeps_stuck_bind; [apply attempt_once_stuck|]. intros [o|next]; [apply keeps_stuck_pure|apply IH].
Qed.

Lemma execute_stuck key request : keeps_stuck key (execute gw request).
Proof.
  unfold execute. keep_stuck. generalize false as failed. induction (a.2) as [|e es IH]; intros failed; cbn [route_loop].
  - unfold degraded_or_fallback, run_fallback. cbn zeta. keep_stuck.
  - keep_stuck; [unfold degraded_or_fallback, run_fallback; cbn zeta; keep_stuck| |].
    + apply execute_route_stuck.
    + apply IH.
Qed.

Lemma run_stuck key requests s :
  stuck key s → stuck key (run_gateway s (OpExecute <$> requests)) ∧
  ∃ new, gs_trace (run_gateway s (OpExecute <$> requests)) = gs_trace s ++ new ∧ Forall (avoids key) new.
Proof.
  revert s. induction requests as [|request requests IH]; intros s Hs.
  { split; [done|]. exists []. by rewrite app_nil_r. }
  destruct (execute_stuck key request s Hs) as (Hs1 & x & Hx & Hax). destruct (IH _ Hs1) as (Hs2 & y & Hy & Hay).
  split; [exact Hs2|]. exists (x ++ y). split; [|by apply Forall_app_2].
  unfold run_gateway in *. cbn [fmap list_fmap foldl]. by rewrite Hy, Hx, (assoc_L (++)).
Qed.

(** one refused audit record can disable a route for good.  When the cooldown
    of a route has passed and the audit sink refuses the start record of the probe,
    the request fails, but the probe stays marked as in flight.  From then on,
    however much time passes and however healthy sink and provider are, the circuit
    grants no permission and no request calls that route again. *)
Theorem audit_failure_disables_route request sp e p td s now w1 id w2 message w3 retry_at :
  gw_providers gw !! provider (route e) = Some p →
  (enable_validated_cache (gw_config gw) = true → gs_cache s !! cache_key request e = None) →
  max_attempts (retry (gw_config gw)) ≠ 0%N →
  now_ms (gs_world s) = (now, w1) → new_call_id w1 = (id, w2) →
  (now < td)%N → (now + per_attempt_timeout_ms (retry (gw_config gw)) ≤ U64_MAX)%N →
  available (gs_availability s) (provider (route e)) now = true →
  circuit_state (gs_circuits s) (circuit_key request e) = Open retry_at → (retry_at ≤ now)%N →
  record_event (Started (start_event request e PathProvider id now 1 None false)) w2 = (Err message, w3) →
  let s' := (execute_route gw request sp e td s).2 in
  (execute_route gw request sp e td s).1 = Err (AuditError message) ∧
  ∀ requests, let s'' := run_gateway s' (OpExecute <$> requests) in
    (∀ now', (allow (gs_circuits s'') (circuit_key request e) now').2 = Ok false) ∧
    ∃ new, gs_trace s'' = gs_trace s' ++ new ∧ Forall (avoids (circuit_key request e)) new.
Proof.
  intros Hp Hcache Hmax Hnow Hid Htd Hadd Hav Hopen Hretry Haudit.
  destruct (N.to_nat (max_attempts (retry (gw_config gw)))) as [|n] eqn:Hn; [lia|].
  assert (execute_route gw request sp e td s = (Err (AuditError message),
    with_world (with_circuits s (set_circuit (gs_circuits s) (circuit_key request e) (HalfOpen true))) w3)) as ->.
  { unfold execute_route. rewrite Hp, Hn. unfold gbind at 1.
    assert ((if enable_validated_cache (gw_config gw) then cache_get (cache_key request e) else gret None) s = (Ok None, s)) as ->.
    { destruct (enable_validated_cache (gw_config gw)); [|done]. unfold cache_get. by rewrite Hcache. }
    cbn [attempt_loop]. unfold attempt_once, gbind, clock. rewrite Hnow, (proj2 (N.leb_gt _ _) Htd).
    unfold provider_available. cbn [gs_availability with_world]. rewrite Hav. cbn [negb].
    unfold circuit_allow, on_circuits, allow. cbn [gs_circuits with_world]. rewrite Hopen, (proj2 (N.ltb_ge _ _) Hretry).
    cbn [negb]. unfold call_provider, gbind, glift. rewrite (proj2 (checked_add_Some _ _ _ _) (conj eq_refl Hadd)). cbn [ok_or].
    unfold fresh_call. cbn [gs_world with_circuits with_world]. rewrite Hid. unfold audit_start, audit_record.
    cbn [gs_world with_circuits with_world previous_call]. by rewrite Haudit. }
  cbn [fst snd]. split; [done|]. intros requests.
  set (s1 := with_world _ w3). assert (stuck (circuit_key request e) s1) as Hstuck.
  { unfold stuck, s1. cbn. by circuit_simpl. }
  destruct (run_stuck _ requests _ Hstuck) as (Hs & new & Htr & Hnew). split; [|by exists new].
  intros now'. by apply allow_probing.
Qed.
End properties.

(** ** Applications *)

(** A world with a clock that ticks at every look, fresh identifiers, and the
    in-memory sink behind a failure counter. *)
Record SampleWorld := MkSampleWorld {
  sw_time : N;
  sw_next : N;
  sw_down : nat;
  sw_sink : InMemoryAuditSink;
}.
#[local] Instance sample_env : GatewayEnv SampleWorld := {|
  now_ms w := (sw_time w, MkSampleWorld (sw_time w + 1) (sw_next w) (sw_down w) (sw_sink w));
  delay_ms d w := MkSampleWorld (sw_time w + d) (sw_next w) (sw_down w) (sw_sink w);
  new_call_id w := (default (sample_id "ModelCallId") (id_of "ModelCallId" (sw_next w)),
                    MkSampleWorld (sw_time w) (sw_next w + 1) (sw_down w) (sw_sink w));
  record_event e w :=
    match sw_down w with
    | S n => (Err "sink is down"%string, MkSampleWorld (sw_time w) (sw_next w) n (sw_sink w))
    | O => let '(sink, r) := sink_record (sw_sink w) e in (r, MkSampleWorld (sw_time w) (sw_next w) 0 sink)
    end;
|}.
#[local] Existing Instance sample_blake3.
#[local] Existing Instance sample_schema_json.
#[local] Existing Instance sample_parser.
#[local] Existing Instance sample_policy_json.
#[local] Existing Instance sample_decision_json.
#[local] Instance sample_prompt_json : Serialize PromptAssetDefinition := λ d, Some (str_bytes (pd_id d)).
#[local] Instance sample_operation_json : Serialize OperationDigestInput := λ d, Some (str_bytes (odi_provider d)).
#[local] Instance sample_uuid_display : UuidDisplay := λ _, "id"%string.

Definition gateway_route : CapabilityRoute :=
  let r := sample_route "cloud" Hosted Internal in
  let d := descriptor r in
  MkCapabilityRoute (provider r) (model_revision r)
    (MkCapabilityDescriptor (capability d) (model_profile d) (input_modalities d) (ss_reference sample_schema)
       (max_input_tokens d) false false (expected_cost d) (latency_profile d) (data_policy d) (benchmark_score d)
       (schema_reliability d) ∅).
Definition gateway_prompt_definition : PromptAssetDefinition :=
  MkPromptAssetDefinition "summarise" 1 SummarizeRegion (ss_reference sample_schema) "Summarise." "summaries" ∅ 1000
    Confidential "first" 8000 8000 {["en"%string]} {[digest_parts [] [[x01]]]} {[digest_parts [] [[x02]]]}.
Definition gateway_prompt : PromptAsset :=
  match PromptAsset_new gateway_prompt_definition with
  | Ok a => a
  | Err _ => MkPromptAsset gateway_prompt_definition (MkPromptAssetRef "" 0 (digest_parts [] []))
  end.
Definition gateway_registry : CapabilityRegistry :=
  run_registry CapabilityRegistry_new [OpProfile sample_profile; OpRoute gateway_route].
Definition cloud_provider : ModelProvider SampleWorld :=
  MkModelProvider "cloud" (λ _ _ w, (Ok (MkProviderResponse [x7b] ModelUsage_default), w)).
Definition sample_gateway : ModelGateway SampleWorld :=
  (register_provider (MkModelGateway gateway_registry sample_schemas
     (register_prompt (MkPromptRegistry ∅) gateway_prompt).1 (MkFallbackRegistry ∅) ModelGatewayConfig_default ∅)
     cloud_provider).1.
Definition sample_gateway_request : ModelCallRequest :=
  MkModelCallRequest SummarizeRegion (asset_reference gateway_prompt) (ss_reference sample_schema) sample_input
    sample_routing_policy 100 false.
Definition sample_gateway_state : GatewayState SampleWorld :=
  MkGatewayState (MkSampleWorld 40000 1 0 (MkInMemoryAuditSink [] ∅ ∅)) ∅ sample_breaker (MkAvailabilityRegistry ∅) [].
Definition sample_outcome := execute sample_gateway sample_gateway_request sample_gateway_state.

Lemma gateway_calls_audited_and_protected_witness :
  ∃ new, gs_trace sample_outcome.2 = [] ++ new ∧ invocations new = 1%nat ∧
    ∀ i p preq ctx, new !! i = Some (EvInvoked p preq ctx) → ∃ j started,
      i = S j ∧ new !! j = Some (EvAudited (Started started)) ∧ started_id started = ctx_call_id ctx.
Proof.
  destruct (gateway_calls_audited_and_protected sample_gateway sample_gateway_request sample_gateway_state
    sample_outcome.1 sample_outcome.2 (surjective_pairing _)) as (new & Hnew & Hcalls).
  exists new. split; [exact Hnew|]. split.
  - change (gs_trace sample_outcome.2 = new) in Hnew. rewrite <- Hnew. vm_compute. reflexivity.
  - intros i p preq ctx Hi. destruct (Hcalls i p preq ctx Hi) as [(j & st & Hj & Hst & Hid & _) _].
    exact (ex_intro _ j (ex_intro _ st (conj Hj (conj Hst Hid)))).
Defined.

Lemma gateway_effort_bounded_witness :
  ∃ new, gs_trace sample_outcome.2 = [] ++ new ∧ (invocations new ≤ 3)%nat.
Proof.
  destruct (gateway_effort_bounded sample_gateway sample_gateway_request sample_gateway_state
    sample_outcome.1 sample_outcome.2 (surjective_pairing _)) as (new & Hnew & Hb & _).
  exists new. split; [exact Hnew|].
  assert (∃ x, prepare_request sample_gateway sample_gateway_request = Ok x ∧ length x.2 = 1%nat) as ([prompt es] & Hp & Hlen)
    by (eexists; split; vm_compute; reflexivity).
  rewrite Hp in Hb. cbn [snd] in Hlen. rewrite Hlen in Hb. exact Hb.
Defined.

Definition second_outcome := execute sample_gateway sample_gateway_request
  (run_gateway sample_gateway sample_gateway_state [OpExecute sample_gateway_request]).
Lemma gateway_returns_only_validated_witness :
  ∃ res, second_outcome.1 = Ok (Validated res) ∧ execution_path (result_execution res) = PathValidatedCache ∧
    ∃ r raw, validate_raw sample_schemas r raw = Ok (result_proposal res).
Proof.
  destruct second_outcome.1 as [[res|]|] eqn:Ho; [|by vm_compute in Ho..]. exists res. split; [done|]. split.
  - vm_compute in Ho. injection Ho as <-. done.
  - destruct (gateway_returns_only_validated sample_gateway sample_gateway_state [OpExecute sample_gateway_request]
      sample_gateway_request res second_outcome.2) as (r & raw & Hv & _); [done| |by exists r, raw].
    rewrite <- Ho. apply surjective_pairing.
Defined.

Definition sample_shadow := evaluate_shadow sample_gateway sample_gateway_request ∅ sample_gateway_state.
Lemma shadow_evaluation_isolated_witness :
  length (gs_trace sample_shadow.2) = 3%nat ∧ gs_cache sample_shadow.2 = ∅.
Proof.
  split; [vm_compute; reflexivity|].
  apply (shadow_evaluation_isolated sample_gateway sample_gateway_request ∅ sample_gateway_state sample_shadow.1
    sample_shadow.2 (surjective_pairing _)).
Defined.

(** The circuit of the route opened at time 7 and its cooldown has passed; the sink
    refuses one record. *)
Definition opened_state : GatewayState SampleWorld :=
  MkGatewayState (MkSampleWorld 40000 1 1 (MkInMemoryAuditSink [] ∅ ∅)) ∅
    (run_circuit sample_breaker (EventFailure (MkCircuitKey "cloud" "r1" SummarizeRegion) KindTimeout <$> [5; 6; 7]%N))
    (MkAvailabilityRegistry ∅) [].
Definition probed_route : EvaluatedRoute :=
  match prepare_request sample_gateway sample_gateway_request with
  | Ok (_, e :: _) => e
  | _ => MkEvaluatedRoute gateway_route (protected_for_fallback sample_input)
           (MkRouteDecision "" Hosted false 0 "" (digest_parts [] []))
  end.
Lemma audit_failure_disables_route_witness :
  let s' := (execute_route sample_gateway sample_gateway_request "Summarise." probed_route 90000 opened_state).2 in
  let s'' := run_gateway sample_gateway s' (OpExecute <$> [sample_gateway_request]) in
  (allow (gs_circuits s'') (circuit_key sample_gateway_request probed_route) 9000000).2 = Ok false.
Proof.
  pose proof (audit_failure_disables_route sample_gateway sample_gateway_request "Summarise." probed_route
    cloud_provider 90000 opened_state 40000 (MkSampleWorld 40001 1 1 (MkInMemoryAuditSink [] ∅ ∅)) (sample_id "ModelCallId")
    (MkSampleWorld 40001 2 1 (MkInMemoryAuditSink [] ∅ ∅)) "sink is down"
    (MkSampleWorld 40001 2 0 (MkInMemoryAuditSink [] ∅ ∅)) 30007) as Hroute.
  do 11 (let T := type of Hroute in match T with ?P → _ =>
    let HP := fresh in assert P as HP by first [by vm_compute|intros _; by vm_compute]; specialize (Hroute HP); clear HP end).
  exact (proj1 (proj2 Hroute [sample_gateway_request]) 9000000%N).
Defined.
