(* ===== verification/RefModel.v ===== *)
(** * The reference engine: data (crate contextdb-reference, model.rs, error.rs and
    canonical.rs)

    The records of the in-memory correctness oracle, the authorisation gate, and
    the canonical serialisation.

    [serde_json] is the class [ToValue] for [to_value] at one type, [FromValue] for
    [from_value], and [JsonText] for [to_vec] on a JSON value; an error carries its
    text.  BLAKE3 is the class [Blake3]. *)

From S2P Require Import Prelude.
From S2P Require Import Ordering.
From S2P Require Import Bytes.
From S2P Require Import Ieee.
From S2P Require Import Json.
From S2P Require Import Format.
From S2P Require Import Evidence.

(** ** Errors *)

(** The lock is never poisoned: no operation panics while it holds the lock. *)
Inductive ReferenceError :=
  | SnapshotConflict (expected current : N)
  | IdempotencyConflict (key_digest : string)
  | SnapshotNotFound (requested head : N)
  | NotFound (kind id : string)
  | Unauthorized
  | ResourceExhausted
  | Invariant (text : string)
  | InvalidImport (text : string)
  | Serialization (text : string)
  | InjectedCrash (point : string)
  | CoreValidation (text : string).

Abbreviation Res := (result ReferenceError).

(** ** Canonical serialisation *)

Class ToValue (T : Type) := to_value : T → result string JsonValue.
Class FromValue (T : Type) := from_value : JsonValue → result string T.
Class JsonText := value_to_vec : JsonValue → result string bytes.

(** A JSON value serialises to itself. *)
#[export] Instance JsonValue_ToValue : ToValue JsonValue := Ok.

(** [collect::<BTreeMap<_, _>>]: a later entry replaces an earlier one. *)
Definition collect_map {V} (entries : list (string * V)) : gmap string V :=
  foldl (λ m kv, <[kv.1 := kv.2]> m) ∅ entries.

Fixpoint canonicalize (value : JsonValue) : JsonValue :=
  match value with
  | JArray values => JArray (List.map canonicalize values)
  | JObject values => JObject (bt_entries (collect_map (List.map (λ '(key, value), (key, canonicalize value)) values)))
  | scalar => scalar
  end.

Section canonical.
Context `{Blake3} `{JsonText}.

Definition to_value_or `{ToValue T} (value : T) : Res JsonValue := map_err Serialization (to_value value).

Definition canonical_to_vec `{ToValue T} (value : T) : Res bytes :=
  let? value := to_value_or value in
  map_err Serialization (value_to_vec (canonicalize value)).

(** [Hash::to_hex]. *)
Definition to_hex (hash : bytes) : string := String.string_of_list_byte (mjoin (hex_byte <$> hash)).

Definition digest `{ToValue T} (value : T) : Res string :=
  let? text := canonical_to_vec value in
  Ok (to_hex (blake3_hash text)).
End canonical.

(** ** Domain time *)

Record ValidTime := MkValidTime { vt_from : option Z; vt_to : option Z }.

Definition UNBOUNDED : ValidTime := MkValidTime None None.

Definition ValidTime_contains (t : ValidTime) (instant : Z) : bool :=
  match vt_from t with Some from => (from <=? instant)%Z | None => true end
  && match vt_to t with Some to => (instant <? to)%Z | None => true end.

Definition ValidTime_is_valid (t : ValidTime) : bool :=
  match vt_from t, vt_to t with
  | Some from, Some to => (from <? to)%Z
  | _, _ => true
  end.

(** ** Authorisation *)

Inductive Sensitivity := Public | Internal | Private | Restricted.
Inductive Consent := ConsentGranted | ConsentUnknown | ConsentDenied.

(** The derived order of [Sensitivity]. *)
Definition sensitivity_rank (s : Sensitivity) : N :=
  match s with Public => 0 | Internal => 1 | Private => 2 | Restricted => 3 end.

Record AccessLabel := MkAccessLabel {
  workspace : string;
  scopes : gset string;
  owners : gset string;
  audience : gset string;
  audience_purpose_grants : gmap string (gset string);
  purposes : gset string;
  sensitivity : Sensitivity;
  consent : Consent;
  retrievable : bool;
}.

Record Principal := MkPrincipal {
  p_subject : string;
  p_audiences : gset string;
  p_workspace : string;
  p_scopes : gset string;
  p_purpose : string;
  p_clearance : Sensitivity;
}.

#[export] Instance Sensitivity_eq_dec : EqDecision Sensitivity.
Proof. solve_decision. Defined.
#[export] Instance Consent_eq_dec : EqDecision Consent.
Proof. solve_decision. Defined.
#[export] Instance AccessLabel_eq_dec : EqDecision AccessLabel.
Proof. solve_decision. Defined.
#[export] Instance ValidTime_eq_dec : EqDecision ValidTime.
Proof. solve_decision. Defined.

Definition audience_keys (p : Principal) (is_owner : bool) : list string :=
  [p_subject p; "*"] ++ (if is_owner then ["@owner"] else []) ++ bt_elements (p_audiences p).

Definition Principal_allows (p : Principal) (label : AccessLabel) : bool :=
  if bool_decide (workspace label ≠ p_workspace p)
     || bool_decide (consent label ≠ ConsentGranted)
     || negb (retrievable label)
     || (sensitivity_rank (p_clearance p) <? sensitivity_rank (sensitivity label))%N
  then false
  else
    let is_owner := bool_decide (p_subject p ∈ owners label) in
    let has_scope :=
      bool_decide (scopes label = ∅)
      || existsb (λ scope, bool_decide (scope ∈ p_scopes p)) (bt_elements (scopes label)) in
    let purpose_allowed := bool_decide (purposes label = ∅) || bool_decide (p_purpose p ∈ purposes label) in
    let has_audience_grant :=
      if bool_decide (audience_purpose_grants label = ∅) then
        (bool_decide (p_subject p ∈ audience label) || bool_decide ("*" ∈ audience label)) && purpose_allowed
        || is_owner && purpose_allowed
      else
        existsb (λ audience,
          match audience_purpose_grants label !! audience with
          | Some purposes => bool_decide (p_purpose p ∈ purposes)
          | None => false
          end) (audience_keys p is_owner) in
    has_audience_grant && has_scope.

(** ** Records *)

Inductive RecordKind :=
  | Node | Claim | Edge | Conflict | EvidenceRecord | Candidate | SemanticObject | RuntimeState
  | DomainExtension.
Inductive Lifecycle := Active | Superseded | Retracted | Suppressed.

#[export] Instance RecordKind_eq_dec : EqDecision RecordKind.
Proof. solve_decision. Defined.
#[export] Instance Lifecycle_eq_dec : EqDecision Lifecycle.
Proof. solve_decision. Defined.

(** The name that [{kind:?}] prints. *)
Definition kind_debug (k : RecordKind) : string :=
  match k with
  | Node => "Node" | Claim => "Claim" | Edge => "Edge" | Conflict => "Conflict"
  | EvidenceRecord => "Evidence" | Candidate => "Candidate" | SemanticObject => "SemanticObject"
  | RuntimeState => "RuntimeState" | DomainExtension => "DomainExtension"
  end.

Record SemanticLinks := MkSemanticLinks {
  l_subject : option string;
  l_source : option string;
  l_target : option string;
  l_predicate : option string;
  l_conflict_set : option string;
  l_supersedes : gset string;
  l_evidence : gset string;
  l_conflict_members : gset string;
  l_single_valued : bool;
}.
#[export] Instance SemanticLinks_eq_dec : EqDecision SemanticLinks.
Proof. solve_decision. Defined.
Definition SemanticLinks_default : SemanticLinks := MkSemanticLinks None None None None None ∅ ∅ ∅ false.

Record LogicalRecord := MkLogicalRecord {
  lr_id : string;
  lr_kind : RecordKind;
  lr_access : AccessLabel;
  lr_valid_time : ValidTime;
  lr_lifecycle : Lifecycle;
  lr_links : SemanticLinks;
  lr_value : JsonValue;
  lr_search_text : option string;
  lr_vector : option (list f32);
  lr_attributes : gmap string JsonValue;
}.

Record LogicalRecordMetadata := MkLogicalRecordMetadata {
  m_kind : RecordKind;
  m_access : AccessLabel;
  m_valid_time : ValidTime;
  m_lifecycle : Lifecycle;
  m_links : SemanticLinks;
}.

#[export] Instance LogicalRecordMetadata_eq_dec : EqDecision LogicalRecordMetadata.
Proof. solve_decision. Defined.

Record ContentRef := MkContentRef { content_id : string; content_digest : string }.

Record StoredRevision := MkStoredRevision {
  sr_id : string;
  sr_revision : N;
  transaction_from : N;
  transaction_to : option N;
  sr_record : LogicalRecordMetadata;
  sr_content : ContentRef;
}.

Record RecordContent := MkRecordContent {
  rc_value : JsonValue;
  rc_search_text : option string;
  rc_vector : option (list f32);
  rc_attributes : gmap string JsonValue;
}.

Record MaterializedRecord := MkMaterializedRecord {
  mr_revision : StoredRevision;
  mr_content : RecordContent;
}.

(** ** Writes *)

Inductive Mutation :=
  | Put (record : LogicalRecord) (expected_revision : option N)
  | Correct (target : string) (replacement : LogicalRecord)
  | Retract (target : string)
  | Delete (target requested_by reason : string).

Record SemanticTransaction := MkSemanticTransaction {
  base_seq : N;
  st_idempotency_key : string;
  mutations : list Mutation;
}.

Record ObservationInput := MkObservationInput {
  oi_idempotency_key : string;
  oi_observation_id : string;
  oi_access : AccessLabel;
  oi_metadata : gmap string JsonValue;
  oi_content : JsonValue;
}.

(** ** Receipts and the journal *)

Record Snapshot := MkSnapshot {
  snap_database_id : string;
  snap_commit_seq : N;
  semantic_generation : N;
  storage_generation : N;
}.

Record Watermarks := MkWatermarks {
  wm_journal : N;
  wm_semantic : N;
  wm_lexical : N;
  wm_vector : N;
  wm_graph : N;
}.
Definition Watermarks_default : Watermarks := MkWatermarks 0 0 0 0 0.

Record CommitReceipt := MkCommitReceipt {
  cr_commit_seq : N;
  cr_replayed : bool;
  cr_request_digest : string;
  cr_watermarks : Watermarks;
}.

Record ObservationRecord := MkObservationRecord {
  ob_observation_id : string;
  ob_accepted_seq : N;
  ob_access : AccessLabel;
  ob_content : ContentRef;
  ob_metadata : gmap string JsonValue;
}.

Record MaterializedObservation := MkMaterializedObservation {
  mo_record : ObservationRecord;
  mo_content : JsonValue;
}.

Record DeletionTombstone := MkDeletionTombstone {
  dt_target : string;
  dt_requested_by : string;
  dt_reason : string;
  dt_effective_seq : N;
  dt_erased_content_refs : gset string;
}.

Inductive JournalEvent :=
  | ObservationAccepted (observation_id request_digest : string) (request_content : ContentRef)
  | SemanticPublished (request_digest : string) (request_content : ContentRef) (affected_ids : gset string).

Record JournalRecord := MkJournalRecord {
  jr_commit_seq : N;
  jr_previous_digest : option string;
  jr_record_digest : string;
  jr_event : JournalEvent;
}.

Record IdempotencyRecord := MkIdempotencyRecord {
  ir_request_digest : string;
  ir_receipt : CommitReceipt;
}.

Record LogicalExport := MkLogicalExport {
  ex_format : string;
  ex_database_id : string;
  ex_head : N;
  ex_watermarks : Watermarks;
  ex_histories : gmap string (list StoredRevision);
  ex_observations : gmap string ObservationRecord;
  ex_tombstones : gmap string DeletionTombstone;
  ex_journal : list JournalRecord;
  ex_idempotency : gmap string IdempotencyRecord;
  ex_contents : gmap string JsonValue;
}.

(** ** Events, traces and search *)

Inductive WorkspaceEventCandidateKind :=
  | CandidateObservation (observation_id : string)
  | SemanticRecordChanged (record_id : string)
  | SemanticWatermark.
#[export] Instance WorkspaceEventCandidateKind_eq_dec : EqDecision WorkspaceEventCandidateKind.
Proof. solve_decision. Defined.

Record WorkspaceEventCandidate := MkWorkspaceEventCandidate {
  ec_workspace_seq : N;
  ec_ordinal : N;
  ec_commit_seq : N;
  ec_record_digest : string;
  ec_kind : WorkspaceEventCandidateKind;
}.

Record WorkspaceEventPage := MkWorkspaceEventPage {
  page_candidates : list WorkspaceEventCandidate;
  scanned_through : N * N;
  has_more : bool;
}.

Inductive Direction := Outgoing | Incoming | Both.

Record SearchHit := MkSearchHit { hit_id : string; hit_score : spec_float }.

Record ReadTrace := MkReadTrace {
  tr_snapshot_seq : N;
  tr_operation : string;
  tr_authorized_candidates : N;
  tr_selected_ids : list string;
  tr_watermarks : Watermarks;
}.

Record Traced (T : Type) := MkTraced { traced_value : T; traced_trace : ReadTrace }.
Arguments MkTraced {T} _ _.
Arguments traced_value {T} _.
Arguments traced_trace {T} _.

Inductive Failpoint := NoFailpoint | BeforePublish | AfterPublish.

(** ** Serialisation of the records

    What the engine uses of the hash and of [serde_json]: the digest input of a
    journal record, the requests, the stored contents, and the export. *)
Class RefCodec := {
  codec_hash :: Blake3;
  codec_text :: JsonText;
  codec_journal :: ToValue (N * option string * JournalEvent);
  codec_observation :: ToValue ObservationInput;
  codec_transaction :: ToValue SemanticTransaction;
  codec_content :: ToValue RecordContent;
  codec_read_content :: FromValue RecordContent;
  codec_export :: ToValue LogicalExport;
  export_from_slice : bytes → result string LogicalExport;
}.
