(* ===== verification/RefEngine.v ===== *)
(** * The reference engine: writes, indexes, export and import (crate
    contextdb-reference, db.rs)

    [State] is the content of the engine's lock.  A write runs on a private copy
    that replaces the state when it is published, so an operation returns the new
    state beside its result and a failing one returns the state it was given. *)

From stdpp Require Import pretty.
From S2P Require Import Prelude.
From S2P Require Import Ordering.
From S2P Require Import Bytes.
From S2P Require Import Ieee.
From S2P Require Import Json.
From S2P Require Import Format.
From S2P Require Import RefModel.

Definition EXPORT_FORMAT : string := "contextdb.logical.v1".
Definition MAX_WORKSPACE_CANDIDATES : N := 100000.
Definition MAX_WORKSPACE_JOURNAL_PAGE : N := 4096.

(** ** State *)

Record WorkspaceEventIndexEntry := MkWorkspaceEventIndexEntry {
  ie_workspace_seq : N;
  ie_ordinal : N;
  ie_journal_index : N;
  ie_kind : WorkspaceEventCandidateKind;
}.
#[export] Instance WorkspaceEventIndexEntry_eq_dec : EqDecision WorkspaceEventIndexEntry.
Proof. solve_decision. Defined.

Record SecurityIndexes := MkSecurityIndexes {
  histories_by_workspace : gmap string (gset string);
  observations_by_workspace : gmap string (gset string);
  journal_by_workspace : gmap string (list N);
  events_by_workspace : gmap string (list WorkspaceEventIndexEntry);
}.
#[export] Instance SecurityIndexes_eq_dec : EqDecision SecurityIndexes.
Proof. solve_decision. Defined.
Definition SecurityIndexes_default : SecurityIndexes := MkSecurityIndexes ∅ ∅ ∅ ∅.

Record State := MkState {
  database_id : string;
  head : N;
  watermarks : Watermarks;
  histories : gmap string (list StoredRevision);
  observations : gmap string ObservationRecord;
  tombstones : gmap string DeletionTombstone;
  journal : list JournalRecord;
  idempotency : gmap string IdempotencyRecord;
  contents : gmap string JsonValue;
  security_indexes : SecurityIndexes;
}.

Definition set_histories (s : State) v :=
  MkState (database_id s) (head s) (watermarks s) v (observations s) (tombstones s) (journal s)
    (idempotency s) (contents s) (security_indexes s).
Definition set_observations (s : State) v :=
  MkState (database_id s) (head s) (watermarks s) (histories s) v (tombstones s) (journal s)
    (idempotency s) (contents s) (security_indexes s).
Definition set_tombstones (s : State) v :=
  MkState (database_id s) (head s) (watermarks s) (histories s) (observations s) v (journal s)
    (idempotency s) (contents s) (security_indexes s).
Definition set_journal (s : State) v :=
  MkState (database_id s) (head s) (watermarks s) (histories s) (observations s) (tombstones s) v
    (idempotency s) (contents s) (security_indexes s).
Definition set_idempotency (s : State) v :=
  MkState (database_id s) (head s) (watermarks s) (histories s) (observations s) (tombstones s)
    (journal s) v (contents s) (security_indexes s).
Definition set_contents (s : State) v :=
  MkState (database_id s) (head s) (watermarks s) (histories s) (observations s) (tombstones s)
    (journal s) (idempotency s) v (security_indexes s).
Definition set_indexes (s : State) v :=
  MkState (database_id s) (head s) (watermarks s) (histories s) (observations s) (tombstones s)
    (journal s) (idempotency s) (contents s) v.
Definition set_head (s : State) h w :=
  MkState (database_id s) h w (histories s) (observations s) (tombstones s) (journal s)
    (idempotency s) (contents s) (security_indexes s).

(** [ContextDb::new]. *)
Definition ContextDb_new (id : string) : Res State :=
  if trim_is_empty id then Err (Invariant "database identifier must not be empty")
  else Ok (MkState id 0 Watermarks_default ∅ ∅ ∅ [] ∅ ∅ SecurityIndexes_default).

Definition not_found (kind id : string) : ReferenceError := NotFound kind id.

(** ** Revisions *)

(** The last revision whose transaction interval contains the commit. *)
Definition visible_at (commit_seq : N) (revision : StoredRevision) : bool :=
  (transaction_from revision <=? commit_seq)%N
  && match transaction_to revision with Some finish => (commit_seq <? finish)%N | None => true end.

Definition revision_at (history : list StoredRevision) (commit_seq : N) : option StoredRevision :=
  List.find (visible_at commit_seq) (rev history).

(** [state.histories.get(id).and_then(|history| revision_at(history, seq))]. *)
Definition current (s : State) (id : string) (seq : N) : option StoredRevision :=
  history ← histories s !! id; revision_at history seq.

Definition has_tombstone (s : State) (id : string) : bool := bool_decide (is_Some (tombstones s !! id)).
Definition is_active (lifecycle : Lifecycle) : bool := bool_decide (lifecycle = Active).

Definition next_commit (head : N) : Res N :=
  ok_or (checked_add U64_MAX head 1) (Invariant "commit sequence exhausted").

(** ** Validation of records *)

Definition validate_access (access : AccessLabel) : Res unit :=
  if trim_is_empty (workspace access) || bool_decide (owners access = ∅)
  then Err (Invariant "access label requires a workspace and at least one owner")
  else if existsb trim_is_empty (bt_elements (owners access))
       || existsb trim_is_empty (bt_elements (audience access))
       || existsb trim_is_empty (bt_elements (scopes access))
       || existsb trim_is_empty (bt_elements (purposes access))
  then Err (Invariant "policy identifiers must not be empty")
  else Ok tt.

Definition validate_observation (input : ObservationInput) : Res unit :=
  if trim_is_empty (oi_idempotency_key input) || trim_is_empty (oi_observation_id input)
  then Err (Invariant "observation and idempotency identifiers must not be empty")
  else validate_access (oi_access input).

Definition require_kind (s : State) (id : string) (kind : RecordKind) (at_seq : N) : Res unit :=
  if has_tombstone s id then Err (not_found "record" id)
  else
  let? revision := ok_or (current s id at_seq) (not_found "record" id) in
  if bool_decide (m_kind (sr_record revision) ≠ kind) || negb (is_active (m_lifecycle (sr_record revision)))
  then Err (Invariant ("record " +:+ id +:+ " is not an active " +:+ kind_debug kind))
  else Ok tt.

(** [other] competes with the candidate for one single-valued slot. *)
Definition same_slot (candidate : LogicalRecord) (other : LogicalRecordMetadata) : bool :=
  bool_decide (m_kind other = Claim) && is_active (m_lifecycle other)
  && l_single_valued (m_links other)
  && bool_decide (l_subject (m_links other) = l_subject (lr_links candidate))
  && bool_decide (l_predicate (m_links other) = l_predicate (lr_links candidate))
  && bool_decide (workspace (m_access other) = workspace (lr_access candidate))
  && bool_decide (scopes (m_access other) = scopes (lr_access candidate)).
Definition same_conflict (candidate : LogicalRecord) (other : LogicalRecordMetadata) : bool :=
  bool_decide (is_Some (l_conflict_set (lr_links candidate)))
  && bool_decide (l_conflict_set (lr_links candidate) = l_conflict_set (m_links other)).

Definition check_slot (s : State) (candidate : LogicalRecord) (at_seq : N)
    (entry : string * list StoredRevision) : Res unit :=
  let '(id, history) := entry in
  if bool_decide (id = lr_id candidate) || has_tombstone s id then Ok tt
  else match revision_at history at_seq with
  | None => Ok tt
  | Some other =>
      if same_slot candidate (sr_record other) && negb (same_conflict candidate (sr_record other))
      then Err (Invariant ("single-valued claim " +:+ lr_id candidate +:+ " conflicts with " +:+ id +:+
                           " without a conflict set"))
      else Ok tt
  end.

Definition validate_cardinality (s : State) (candidate : LogicalRecord) (at_seq : N) : Res unit :=
  if negb (l_single_valued (lr_links candidate)) || negb (is_active (lr_lifecycle candidate)) then Ok tt
  else for_each (check_slot s candidate at_seq) (bt_entries (histories s)).

Definition Signature : Type := option string * option string * string * gset string.

Definition conflict_member (s : State) (at_seq : N) (signature : option Signature) (member : string)
    : Res (option Signature) :=
  try? require_kind s member Claim at_seq in
  let? claim := ok_or (current s member at_seq) (not_found "claim" member) in
  let m := sr_record claim in
  let now := (l_subject (m_links m), l_predicate (m_links m), workspace (m_access m), scopes (m_access m)) in
  match signature with
  | Some expected =>
      if bool_decide (expected ≠ now)
      then Err (Invariant "conflict members must share subject, predicate, workspace, and scope")
      else Ok (Some now)
  | None => Ok (Some now)
  end.

Definition validate_conflict (s : State) (record : LogicalRecord) (at_seq : N) : Res unit :=
  if (N.of_nat (size (l_conflict_members (lr_links record))) <? 2)%N
  then Err (Invariant "conflict set requires at least two claim members")
  else
  let? _signature := try_fold (conflict_member s at_seq) None (bt_elements (l_conflict_members (lr_links record))) in
  Ok tt.

(** [predicate.as_deref().is_none_or(str::is_empty)]. *)
Definition no_predicate (record : LogicalRecord) : bool :=
  match l_predicate (lr_links record) with Some p => bool_decide (p = "") | None => true end.

Definition bad_vector (vector : option (list f32)) : bool :=
  match vector with
  | Some v => is_empty v || existsb (λ x, negb (sf_is_finite (f32_val x))) v
  | None => false
  end.

Definition validate_record (s : State) (record : LogicalRecord) (at_seq : N) : Res unit :=
  if trim_is_empty (lr_id record) || negb (ValidTime_is_valid (lr_valid_time record))
  then Err (Invariant "record identifier and valid-time interval must be valid")
  else
  try? validate_access (lr_access record) in
  if bad_vector (lr_vector record) then Err (Invariant "record vector must be non-empty and finite")
  else
  try? for_each (λ evidence, require_kind s evidence EvidenceRecord at_seq)
         (bt_elements (l_evidence (lr_links record))) in
  match lr_kind record with
  | Claim =>
      let? subject := ok_or (l_subject (lr_links record)) (Invariant "claim requires a subject") in
      try? require_kind s subject Node at_seq in
      if no_predicate record then Err (Invariant "claim requires a predicate")
      else validate_cardinality s record at_seq
  | Edge =>
      let? source := ok_or (l_source (lr_links record)) (Invariant "edge requires a source") in
      let? target := ok_or (l_target (lr_links record)) (Invariant "edge requires a target") in
      try? require_kind s source Node at_seq in
      try? require_kind s target Node at_seq in
      if no_predicate record then Err (Invariant "edge requires a predicate") else Ok tt
  | Conflict => validate_conflict s record at_seq
  | _ => Ok tt
  end.

(** One untombstoned entry of [validate_complete_state]. *)
Definition check_entry (s : State) (at_seq : N) (entry : string * list StoredRevision) : Res unit :=
  let '(id, history) := entry in
  if has_tombstone s id then Ok tt
  else match revision_at history at_seq with
  | None => Ok tt
  | Some revision =>
      match m_kind (sr_record revision) with
      | Claim =>
          match l_conflict_set (m_links (sr_record revision)) with
          | None => Ok tt
          | Some conflict_id =>
              let? conflict := ok_or
                (conflict ← current s conflict_id at_seq;
                 if bool_decide (m_kind (sr_record conflict) = Conflict) && is_active (m_lifecycle (sr_record conflict))
                 then Some conflict else None)
                (Invariant ("claim " +:+ id +:+ " refers to missing active conflict set " +:+ conflict_id)) in
              if bool_decide (id ∈ l_conflict_members (m_links (sr_record conflict))) then Ok tt
              else Err (Invariant ("conflict set " +:+ conflict_id +:+ " does not contain referring claim " +:+ id))
          end
      | Conflict =>
          for_each (λ member,
            let? claim := ok_or (current s member at_seq) (not_found "claim" member) in
            if bool_decide (l_conflict_set (m_links (sr_record claim)) ≠ Some id)
            then Err (Invariant ("conflict member " +:+ member +:+ " does not refer back to " +:+ id))
            else Ok tt) (bt_elements (l_conflict_members (m_links (sr_record revision))))
      | _ => Ok tt
      end
  end.

Definition validate_complete_state (s : State) (at_seq : N) : Res unit :=
  for_each (check_entry s at_seq) (bt_entries (histories s)).

(** ** Workspace indexes *)

Definition Candidates : Type := list (N * WorkspaceEventCandidateKind).

(** [entry(key).or_default()] followed by an update. *)
Definition update_default {V} (d : V) (f : V → V) (key : string) (m : gmap string V) : gmap string V :=
  <[key := f (default d (m !! key))]> m.

Definition ordinal_of (candidates : Candidates) : Res N :=
  ok_or (try_from_max U32_MAX (len candidates)) ResourceExhausted.

Definition affected_workspace (s : State) (commit_seq : N) (id : string) : Res string :=
  match current s id commit_seq with
  | Some revision => Ok (workspace (m_access (sr_record revision)))
  | None =>
      match observations s !! id with
      | Some observation => Ok (workspace (ob_access observation))
      | None => Err (Invariant ("journal target " +:+ id +:+ " is missing authorization metadata"))
      end
  end.

Definition add_candidate (s : State) (commit_seq : N) (workspaces : gmap string Candidates) (id : string)
    : Res (gmap string Candidates) :=
  let? workspace := affected_workspace s commit_seq id in
  let candidates := default [] (workspaces !! workspace) in
  if (MAX_WORKSPACE_CANDIDATES <=? len candidates)%N then Err ResourceExhausted
  else
  let? ordinal := ordinal_of candidates in
  Ok (<[workspace := candidates ++ [(ordinal, SemanticRecordChanged id)]]> workspaces).

Definition add_watermark (workspaces : gmap string Candidates) (entry : string * Candidates)
    : Res (gmap string Candidates) :=
  let? ordinal := ordinal_of entry.2 in
  Ok (<[entry.1 := entry.2 ++ [(ordinal, SemanticWatermark)]]> workspaces).

Definition journal_event_workspace_candidates (s : State) (commit_seq : N) (event : JournalEvent)
    : Res (gmap string Candidates) :=
  match event with
  | ObservationAccepted observation_id _ _ =>
      let? observation := ok_or (observations s !! observation_id)
        (Invariant "journal observation is missing authorization metadata") in
      if (commit_seq <? ob_accepted_seq observation)%N
      then Err (Invariant "journal observation predates its authorization metadata")
      else Ok {[workspace (ob_access observation) := [(0%N, CandidateObservation observation_id)]]}
  | SemanticPublished _ _ affected_ids =>
      let? workspaces := try_fold (add_candidate s commit_seq) ∅ (bt_elements affected_ids) in
      try_fold add_watermark workspaces (bt_entries workspaces)
  end.

(** The journal and event indexes after one journal record. *)
Definition index_workspace (journal_index : N) (ix : SecurityIndexes) (entry : string * Candidates)
    : Res SecurityIndexes :=
  let '(workspace, candidates) := entry in
  let positions := default [] (journal_by_workspace ix !! workspace) ++ [journal_index] in
  let? workspace_seq := ok_or (try_from_max U64_MAX (len positions)) ResourceExhausted in
  let events := default [] (events_by_workspace ix !! workspace)
    ++ ((λ oc, MkWorkspaceEventIndexEntry workspace_seq oc.1 journal_index oc.2) <$> candidates) in
  Ok (MkSecurityIndexes (histories_by_workspace ix) (observations_by_workspace ix)
        (<[workspace := positions]> (journal_by_workspace ix))
        (<[workspace := events]> (events_by_workspace ix))).

Definition add_member (workspace id : string) (m : gmap string (gset string)) : gmap string (gset string) :=
  update_default ∅ (λ ids, {[id]} ∪ ids) workspace m.

Definition remove_member (workspace : option string) (id : string) (m : gmap string (gset string))
    : gmap string (gset string) :=
  match workspace with
  | None => m
  | Some workspace =>
      match m !! workspace with
      | None => m
      | Some ids =>
          let ids := ids ∖ {[id]} in
          if bool_decide (ids = ∅) then delete workspace m else <[workspace := ids]> m
      end
  end.

Definition rebuild_histories (s : State) : gmap string (gset string) :=
  foldl (λ m '(id, history),
    if has_tombstone s id then m
    else match revision_at history (head s) with
         | Some revision => add_member (workspace (m_access (sr_record revision))) id m
         | None => m
         end) ∅ (bt_entries (histories s)).

Definition rebuild_observations (s : State) : gmap string (gset string) :=
  foldl (λ m '(id, observation),
    if has_tombstone s id then m else add_member (workspace (ob_access observation)) id m)
    ∅ (bt_entries (observations s)).

(** [state.journal.iter().enumerate()]. *)
Definition enumerate {A} (l : list A) : list (N * A) := imap (λ i x, (N.of_nat i, x)) l.

Definition rebuild_record (s : State) (ix : SecurityIndexes) (entry : N * JournalRecord) : Res SecurityIndexes :=
  let '(journal_index, record) := entry in
  let? candidates := journal_event_workspace_candidates s (jr_commit_seq record) (jr_event record) in
  try_fold (index_workspace journal_index) ix (bt_entries candidates).

Definition rebuild_security_indexes (s : State) : Res SecurityIndexes :=
  try_fold (rebuild_record s) (MkSecurityIndexes (rebuild_histories s) (rebuild_observations s) ∅ ∅)
    (enumerate (journal s)).

Definition verify_security_indexes (s : State) : Res unit :=
  let? expected := rebuild_security_indexes s in
  if bool_decide (security_indexes s ≠ expected)
  then Err (Invariant "workspace authorization index membership diverged from primary metadata")
  else Ok tt.

(** The workspaces are those of the state before the removal. *)
Definition remove_security_candidate (s : State) (id : string) : State :=
  let ix := security_indexes s in
  let history_workspace := (λ r, workspace (m_access (sr_record r))) <$> current s id (head s) in
  let observation_workspace := (λ o, workspace (ob_access o)) <$> (observations s !! id) in
  set_indexes s (MkSecurityIndexes
    (remove_member history_workspace id (histories_by_workspace ix))
    (remove_member observation_workspace id (observations_by_workspace ix))
    (journal_by_workspace ix) (events_by_workspace ix)).

(** ** Idempotency, content and the journal *)

Section engine.
Context `{!RefCodec}.

(** The digest input is the commit, the previous digest and the event. *)
Definition journal_digest (commit_seq : N) (previous : option string) (event : JournalEvent) : Res string :=
  digest (commit_seq, previous, event).

(** [DigestInput { operation, value }]. *)
Definition operation_digest `{ToValue T} (operation : string) (value : T) : Res string :=
  let? value := to_value_or value in
  digest (JObject [("operation", JString operation); ("value", value)]).

Definition key_digest (key : string) : string := to_hex (blake3_hash (str_bytes key)).

Definition replay_or_conflict (s : State) (key_digest request_digest : string) : Res (option CommitReceipt) :=
  match idempotency s !! key_digest with
  | None => Ok None
  | Some existing =>
      if bool_decide (ir_request_digest existing ≠ request_digest) then Err (IdempotencyConflict key_digest)
      else
        let r := ir_receipt existing in
        Ok (Some (MkCommitReceipt (cr_commit_seq r) true (cr_request_digest r) (cr_watermarks r)))
  end.

Definition make_content_ref `{ToValue T} (class owner : string) (commit_seq : N) (content : T)
    : Res (ContentRef * JsonValue) :=
  let? digest := digest content in
  let? value := to_value_or content in
  Ok (MkContentRef (class +:+ ":" +:+ owner +:+ ":" +:+ pretty commit_seq +:+ ":" +:+ digest) digest, value).

Definition insert_content (s : State) (content : ContentRef * JsonValue) : State :=
  set_contents s (<[content_id content.1 := content.2]> (contents s)).

Definition append_journal (s : State) (commit_seq : N) (event : JournalEvent) : Res State :=
  let previous_digest := jr_record_digest <$> last (journal s) in
  let? record_digest := journal_digest commit_seq previous_digest event in
  let? workspace_candidates := journal_event_workspace_candidates s commit_seq event in
  let journal_index := len (journal s) in
  let s := set_journal s (journal s ++ [MkJournalRecord commit_seq previous_digest record_digest event]) in
  let? ix := try_fold (index_workspace journal_index) (security_indexes s) (bt_entries workspace_candidates) in
  Ok (set_indexes s ix).

Definition content_for_revision (s : State) (revision : StoredRevision) : Res RecordContent :=
  let? value := ok_or (contents s !! content_id (sr_content revision))
    (not_found "content" (content_id (sr_content revision))) in
  let? actual := digest value in
  if bool_decide (actual ≠ content_digest (sr_content revision))
  then Err (Invariant ("content digest mismatch for " +:+ sr_id revision))
  else map_err Serialization (from_value value).

(** ** Mutations *)

(** [next] and [affected_ids] of a commit in progress. *)
Definition Draft : Type := State * gset string.

Definition check_precondition (id : string) (expected : option N) (actual : option N) : Res unit :=
  match expected, actual with
  | Some 0%N, None | None, None | None, Some _ => Ok tt
  | Some expected, Some actual =>
      if (expected =? actual)%N then Ok tt
      else Err (Invariant ("revision precondition failed for " +:+ id +:+ ": expected " +:+ pretty expected +:+
                           ", current " +:+ pretty actual))
  | Some expected, None =>
      Err (Invariant ("revision precondition failed for " +:+ id +:+ ": expected " +:+ pretty expected +:+
                      ", record is absent"))
  end.

(** [history.last_mut()] gets its end. *)
Definition close_revision (commit_seq : N) (r : StoredRevision) : StoredRevision :=
  MkStoredRevision (sr_id r) (sr_revision r) (transaction_from r) (Some commit_seq) (sr_record r) (sr_content r).
Fixpoint close_last (commit_seq : N) (history : list StoredRevision) : list StoredRevision :=
  match history with
  | [] => []
  | [r] => [close_revision commit_seq r]
  | r :: rest => r :: close_last commit_seq rest
  end.

Definition record_content (record : LogicalRecord) : RecordContent :=
  MkRecordContent (lr_value record) (lr_search_text record) (lr_vector record) (lr_attributes record).
Definition record_metadata (record : LogicalRecord) : LogicalRecordMetadata :=
  MkLogicalRecordMetadata (lr_kind record) (lr_access record) (lr_valid_time record) (lr_lifecycle record)
    (lr_links record).

(** The writes that end [put_record]: the previous revision gets its end, the new
    one is appended, its content stored and its workspace indexed. *)
Definition store_revision (s : State) (record : LogicalRecord) (revision commit_seq : N)
    (content : ContentRef * JsonValue) : State :=
  let id := lr_id record in
  let stored := MkStoredRevision id revision commit_seq None (record_metadata record) content.1 in
  let history := close_last commit_seq (default [] (histories s !! id)) ++ [stored] in
  let s := insert_content s content in
  let s := set_histories s (<[id := history]> (histories s)) in
  let ix := security_indexes s in
  set_indexes s (MkSecurityIndexes
    (add_member (workspace (lr_access record)) id (histories_by_workspace ix))
    (observations_by_workspace ix) (journal_by_workspace ix) (events_by_workspace ix)).

Definition put_record (d : Draft) (record : LogicalRecord) (expected_revision : option N) (commit_seq : N)
    : Res Draft :=
  let '(s, affected_ids) := d in
  let id := lr_id record in
  try? validate_record s record commit_seq in
  if has_tombstone s id || bool_decide (is_Some (observations s !! id))
  then Err (Invariant ("external identifier " +:+ id +:+ " cannot be reused"))
  else
  let now := current s id (head s) in
  try? check_precondition id expected_revision (sr_revision <$> now) in
  if match now with Some r => bool_decide (m_kind (sr_record r) ≠ lr_kind record) | None => false end
  then Err (Invariant ("record kind cannot change for " +:+ id))
  else if match now with
          | Some r => bool_decide (workspace (m_access (sr_record r)) ≠ workspace (lr_access record))
          | None => false
          end
  then Err (Invariant ("record workspace cannot change for " +:+ id))
  else
  let next_revision := match now with Some r => saturating_add U32_MAX (sr_revision r) 1 | None => 1%N end in
  if (next_revision =? U32_MAX)%N then Err (Invariant ("revision sequence exhausted for " +:+ id))
  else
  let? content := make_content_ref "record" id commit_seq (record_content record) in
  Ok (store_revision s record next_revision commit_seq content, {[id]} ∪ affected_ids).

Definition revise_lifecycle (d : Draft) (target : string) (lifecycle : Lifecycle) (commit_seq : N) : Res Draft :=
  let s := d.1 in
  if has_tombstone s target then Err (not_found "record" target)
  else
  let? now := ok_or (current s target (head s)) (not_found "record" target) in
  let? content := content_for_revision s now in
  let m := sr_record now in
  put_record d (MkLogicalRecord (sr_id now) (m_kind m) (m_access m) (m_valid_time m) lifecycle (m_links m)
                  (rc_value content) (rc_search_text content) (rc_vector content) (rc_attributes content))
    (Some (sr_revision now)) commit_seq.

(** ** Hard deletion *)

Definition any_in (closure : gset string) (ids : list string) : bool :=
  existsb (λ id, bool_decide (id ∈ closure)) ids.

Definition option_ids (o : option string) : list string := match o with Some x => [x] | None => [] end.

(** A record that refers to a member of the closure. *)
Definition depends_on (closure : gset string) (links : SemanticLinks) : bool :=
  any_in closure (option_ids (l_subject links) ++ option_ids (l_source links) ++ option_ids (l_target links))
  || any_in closure (bt_elements (l_evidence links))
  || any_in closure (bt_elements (l_supersedes links))
  || any_in closure (bt_elements (l_conflict_members links)).

Definition discover (s : State) (closure : gset string) : gset string :=
  foldl (λ discovered '(id, history),
    if bool_decide (id ∈ closure) || has_tombstone s id then discovered
    else match revision_at history (head s) with
         | Some now => if depends_on closure (m_links (sr_record now)) then {[id]} ∪ discovered else discovered
         | None => discovered
         end) ∅ (bt_entries (histories s)).

Definition closure_step (s : State) (closure : gset string) : gset string + gset string :=
  let discovered := discover s closure in
  if bool_decide (discovered = ∅) then inr closure else inl (closure ∪ discovered).

(** Every round but the last adds a record, so one round more than there are
    records is enough ([closure_terminates]). *)
Definition deletion_closure (s : State) (target : string) : gset string :=
  match loop_nat (S (size (histories s))) (closure_step s) {[target]} with
  | inl closure | inr closure => closure
  end.

(** The request contents of the journal records that concern [id]. *)
Definition journal_refs_of (id : string) (record : JournalRecord) : list string :=
  match jr_event record with
  | ObservationAccepted observation_id _ request_content =>
      if bool_decide (observation_id = id) then [content_id request_content] else []
  | SemanticPublished _ request_content affected_ids =>
      if bool_decide (id ∈ affected_ids) then [content_id request_content] else []
  end.

Definition erased_refs (s : State) (id : string) : gset string :=
  list_to_set ((content_id ∘ sr_content) <$> default [] (histories s !! id))
  ∪ match observations s !! id with Some o => {[content_id (ob_content o)]} | None => ∅ end
  ∪ list_to_set (mjoin (journal_refs_of id <$> journal s)).

Definition delete_one (target requested_by reason : string) (commit_seq : N) (d : Draft) (id : string) : Draft :=
  let '(s, affected_ids) := d in
  let erased := erased_refs s id in
  let s := set_contents s (filter (λ kv, kv.1 ∉ erased) (contents s)) in
  let tombstone_reason := if bool_decide (id = target) then reason else "dependency_of:" +:+ target in
  let s := remove_security_candidate s id in
  let s := set_tombstones s
    (<[id := MkDeletionTombstone id requested_by tombstone_reason commit_seq erased]> (tombstones s)) in
  (s, {[id]} ∪ affected_ids).

Definition hard_delete (d : Draft) (target requested_by reason : string) (commit_seq : N) : Res Draft :=
  let s := d.1 in
  if trim_is_empty target || trim_is_empty requested_by || trim_is_empty reason
  then Err (Invariant "deletion target, actor, and reason must not be empty")
  else if has_tombstone s target
       || bool_decide (histories s !! target = None) && bool_decide (observations s !! target = None)
  then Err (not_found "deletion target" target)
  else Ok (foldl (delete_one target requested_by reason commit_seq) d (bt_elements (deletion_closure s target))).

Definition apply_mutation (commit_seq : N) (d : Draft) (mutation : Mutation) : Res Draft :=
  match mutation with
  | Put record expected_revision => put_record d record expected_revision commit_seq
  | Correct target replacement =>
      if negb (bool_decide (target ∈ l_supersedes (lr_links replacement)))
      then Err (Invariant "correction replacement must identify its superseded target")
      else
      let? d := revise_lifecycle d target Superseded commit_seq in
      put_record d replacement (Some 0%N) commit_seq
  | Retract target => revise_lifecycle d target Retracted commit_seq
  | Delete target requested_by reason => hard_delete d target requested_by reason commit_seq
  end.

(** ** Publication *)

Definition publish (guard next : State) (failpoint : Failpoint) : State * Res unit :=
  match failpoint with
  | BeforePublish => (guard, Err (InjectedCrash "before_publish"))
  | AfterPublish => (next, Err (InjectedCrash "after_publish"))
  | NoFailpoint => (next, Ok tt)
  end.

(** What a write prepared under the lock: a replayed receipt, or the next state
    with its receipt. *)
Definition Prepared : Type := CommitReceipt + State * CommitReceipt.

Definition publish_prepared (guard : State) (prepared : Res Prepared) (failpoint : Failpoint)
    : State * Res CommitReceipt :=
  match prepared with
  | Err e => (guard, Err e)
  | Ok (inl receipt) => (guard, Ok receipt)
  | Ok (inr (next, receipt)) =>
      let '(s, published) := publish guard next failpoint in
      (s, try? published in Ok receipt)
  end.

(** The receipt and the idempotency record that end every write. *)
Definition record_receipt (next : State) (key request_digest : string) (commit_seq : N) : Res Prepared :=
  let receipt := MkCommitReceipt commit_seq false request_digest (watermarks next) in
  let next := set_idempotency next (<[key := MkIdempotencyRecord request_digest receipt]> (idempotency next)) in
  try? verify_security_indexes next in
  Ok (inr (next, receipt)).

Definition prepare_observation (guard : State) (input : ObservationInput) : Res Prepared :=
  try? validate_observation input in
  let? request_digest := operation_digest "observe" input in
  let key := key_digest (oi_idempotency_key input) in
  let? replay := replay_or_conflict guard key request_digest in
  match replay with
  | Some receipt => Ok (inl receipt)
  | None =>
      let id := oi_observation_id input in
      if bool_decide (is_Some (observations guard !! id)) || bool_decide (is_Some (histories guard !! id))
         || has_tombstone guard id
      then Err (Invariant ("external identifier " +:+ id +:+ " has already been used"))
      else
      let? commit_seq := next_commit (head guard) in
      let? content := make_content_ref "observation" id commit_seq (oi_content input) in
      let next := insert_content guard content in
      let next := set_observations next
        (<[id := MkObservationRecord id commit_seq (oi_access input) content.1 (oi_metadata input)]>
           (observations next)) in
      let ix := security_indexes next in
      let next := set_indexes next (MkSecurityIndexes (histories_by_workspace ix)
        (add_member (workspace (oi_access input)) id (observations_by_workspace ix))
        (journal_by_workspace ix) (events_by_workspace ix)) in
      let? request_value := to_value_or input in
      let? request := make_content_ref "journal-observation" id commit_seq request_value in
      let next := insert_content next request in
      let? next := append_journal next commit_seq (ObservationAccepted id request_digest request.1) in
      let w := watermarks next in
      let next := set_head next commit_seq
        (MkWatermarks commit_seq (wm_semantic w) (wm_lexical w) (wm_vector w) (wm_graph w)) in
      record_receipt next key request_digest commit_seq
  end.

Definition observe_with_failpoint (guard : State) (input : ObservationInput) (failpoint : Failpoint)
    : State * Res CommitReceipt :=
  publish_prepared guard (prepare_observation guard input) failpoint.
Definition observe (guard : State) (input : ObservationInput) : State * Res CommitReceipt :=
  observe_with_failpoint guard input NoFailpoint.

(** The part that the two semantic commits share: the mutations on a copy of the
    state, the journal record with the exact request, and the receipt. *)
Definition prepare_mutations (guard : State) (base : N) (muts : list Mutation) (class key request_digest : string)
    (request_value : Res JsonValue) : Res Prepared :=
  if negb (base =? head guard)%N then Err (SnapshotConflict base (head guard))
  else
  let? commit_seq := next_commit (head guard) in
  let? draft := try_fold (apply_mutation commit_seq) (guard, ∅) muts in
  let '(next, affected_ids) := draft in
  try? validate_complete_state next commit_seq in
  let? request_value := request_value in
  let? request := make_content_ref class request_digest commit_seq request_value in
  let next := insert_content next request in
  let? next := append_journal next commit_seq (SemanticPublished request_digest request.1 affected_ids) in
  let next := set_head next commit_seq
    (MkWatermarks commit_seq commit_seq commit_seq commit_seq commit_seq) in
  record_receipt next key request_digest commit_seq.

Definition prepare_commit (guard : State) (transaction : SemanticTransaction) : Res Prepared :=
  if trim_is_empty (st_idempotency_key transaction) then Err (Invariant "idempotency key must not be empty")
  else if is_empty (mutations transaction)
  then Err (Invariant "semantic transaction must contain at least one mutation")
  else
  let? request_digest := operation_digest "semantic" transaction in
  let key := key_digest (st_idempotency_key transaction) in
  let? replay := replay_or_conflict guard key request_digest in
  match replay with
  | Some receipt => Ok (inl receipt)
  | None =>
      prepare_mutations guard (base_seq transaction) (mutations transaction) "journal-semantic" key request_digest
        (to_value_or transaction)
  end.

Definition commit_with_failpoint (guard : State) (transaction : SemanticTransaction) (failpoint : Failpoint)
    : State * Res CommitReceipt :=
  publish_prepared guard (prepare_commit guard transaction) failpoint.
Definition commit (guard : State) (transaction : SemanticTransaction) : State * Res CommitReceipt :=
  commit_with_failpoint guard transaction NoFailpoint.

(** [commit_with_canonical_request] for a canonical request of type [T]. *)
Definition commit_with_canonical_request `{ToValue T} (guard : State) (transaction : SemanticTransaction)
    (canonical_request : T) : State * Res CommitReceipt :=
  publish_prepared guard
    (if is_empty (mutations transaction)
     then Err (Invariant "canonical mutation has no material primary-state writes")
     else
     let? request_digest := operation_digest "semantic-core" canonical_request in
     let key := key_digest (st_idempotency_key transaction) in
     let? replay := replay_or_conflict guard key request_digest in
     match replay with
     | Some receipt => Ok (inl receipt)
     | None =>
         prepare_mutations guard (base_seq transaction) (mutations transaction) "journal-semantic-core" key
           request_digest (to_value_or canonical_request)
     end) NoFailpoint.

(** ** Export and import *)

Definition logical_export (s : State) : LogicalExport :=
  MkLogicalExport EXPORT_FORMAT (database_id s) (head s) (watermarks s) (histories s) (observations s)
    (tombstones s) (journal s) (idempotency s) (contents s).

Definition check_journal_record (previous_digest : option string) (entry : N * JournalRecord)
    : Res (option string) :=
  let '(index, record) := entry in
  let? expected_seq := ok_or (checked_add U64_MAX index 1) (InvalidImport "journal sequence overflow") in
  if negb (jr_commit_seq record =? expected_seq)%N || bool_decide (jr_previous_digest record ≠ previous_digest)
  then Err (InvalidImport "journal sequence or digest chain is invalid")
  else
  let? actual := journal_digest (jr_commit_seq record) (jr_previous_digest record) (jr_event record) in
  if bool_decide (actual ≠ jr_record_digest record) then Err (InvalidImport "journal record digest mismatch")
  else Ok (Some (jr_record_digest record)).

(** [error] is the text of the failing conversion. *)
Definition check_revision (e : LogicalExport) (id : string) (previous_to : option N)
    (entry : N * StoredRevision) : Res (option N) :=
  let '(index, revision) := entry in
  let? index32 := ok_or (try_from_max U32_MAX index)
    (InvalidImport "out of range integral type conversion attempted") in
  let? expected_revision := ok_or (checked_add U32_MAX index32 1) (InvalidImport "revision overflow") in
  if bool_decide (sr_id revision ≠ id)
     || negb (sr_revision revision =? expected_revision)%N
     || (transaction_from revision =? 0)%N
     || (ex_head e <? transaction_from revision)%N
     || bool_decide (previous_to ≠ Some (transaction_from revision)) && (0 <? index)%N
  then Err (InvalidImport ("invalid revision chain for " +:+ id))
  else if negb (ValidTime_is_valid (m_valid_time (sr_record revision)))
  then Err (InvalidImport ("invalid domain-time interval for " +:+ id))
  else if bool_decide (ex_tombstones e !! id = None)
          && bool_decide (ex_contents e !! content_id (sr_content revision) = None)
  then Err (InvalidImport ("missing content " +:+ content_id (sr_content revision) +:+ " for " +:+ id))
  else Ok (transaction_to revision).

Definition validate_export (e : LogicalExport) : Res unit :=
  if bool_decide (ex_format e ≠ EXPORT_FORMAT)
  then Err (InvalidImport ("unsupported export format " +:+ ex_format e))
  else if trim_is_empty (ex_database_id e) then Err (InvalidImport "database identifier is empty")
  else if negb (ex_head e =? len (ex_journal e))%N
  then Err (InvalidImport "head does not match contiguous journal length")
  else
  let? _last := try_fold check_journal_record None (enumerate (ex_journal e)) in
  for_each (λ '(id, history),
    let? _last := try_fold (check_revision e id) None (enumerate history) in Ok tt) (bt_entries (ex_histories e)).

Definition export (s : State) : Res bytes := canonical_to_vec (logical_export s).

Definition import (text : bytes) : Res State :=
  let? e := map_err InvalidImport (export_from_slice text) in
  try? validate_export e in
  let s := MkState (ex_database_id e) (ex_head e) (ex_watermarks e) (ex_histories e) (ex_observations e)
    (ex_tombstones e) (ex_journal e) (ex_idempotency e) (ex_contents e) SecurityIndexes_default in
  let? ix := rebuild_security_indexes s in
  let s := set_indexes s ix in
  try? verify_security_indexes s in
  Ok s.
End engine.
