(* ===== verification/RefReads.v ===== *)
(** * The reference engine: reads (crate contextdb-reference, db.rs)

    Snapshots, authorised reads of records and observations, scans, exact lexical
    and vector search, bounded traversal, and the tenant-local event pages.  A read
    takes the state under the read lock and returns a result. *)

From S2P Require Import Prelude.
From S2P Require Import Ordering.
From S2P Require Import Bytes.
From S2P Require Import Ieee.
From S2P Require Import Json.
From S2P Require Import Format.
From S2P Require Import RefModel.
From S2P Require Import RefEngine.

(** ** Snapshots and watermarks *)

Definition is_semantic (event : JournalEvent) : bool :=
  match event with SemanticPublished _ _ _ => true | ObservationAccepted _ _ _ => false end.

(** [take_while]. *)
Fixpoint take_while {A} (f : A → bool) (l : list A) : list A :=
  match l with
  | [] => []
  | x :: rest => if f x then x :: take_while f rest else []
  end.

Definition advance_watermarks (w : Watermarks) (record : JournalRecord) : Watermarks :=
  let seq := jr_commit_seq record in
  if is_semantic (jr_event record) then MkWatermarks seq seq seq seq seq
  else MkWatermarks seq (wm_semantic w) (wm_lexical w) (wm_vector w) (wm_graph w).

Definition watermarks_at (s : State) (commit_seq : N) : Watermarks :=
  foldl advance_watermarks Watermarks_default
    (take_while (λ record, jr_commit_seq record <=? commit_seq)%N (journal s)).

Definition workspace_journal_len (s : State) (workspace : string) : N :=
  match journal_by_workspace (security_indexes s) !! workspace with
  | None => 0
  | Some positions => default U64_MAX (try_from_max U64_MAX (len positions))
  end.

Definition advance_workspace (w : Watermarks) (record : JournalRecord) : Watermarks :=
  let journal := saturating_add U64_MAX (wm_journal w) 1 in
  if is_semantic (jr_event record) then
    let semantic := saturating_add U64_MAX (wm_semantic w) 1 in
    MkWatermarks journal semantic semantic semantic semantic
  else MkWatermarks journal (wm_semantic w) (wm_lexical w) (wm_vector w) (wm_graph w).

(** The loop over the positions of a workspace ends at a dangling position or at
    the first later commit. *)
Fixpoint workspace_watermarks_loop (s : State) (commit_seq : N) (positions : list N) (w : Watermarks) : Watermarks :=
  match positions with
  | [] => w
  | i :: rest =>
      match journal s !! N.to_nat i with
      | None => w
      | Some record =>
          if (commit_seq <? jr_commit_seq record)%N then w
          else workspace_watermarks_loop s commit_seq rest (advance_workspace w record)
      end
  end.

Definition workspace_watermarks_at (s : State) (workspace : string) (commit_seq : N) : Watermarks :=
  match journal_by_workspace (security_indexes s) !! workspace with
  | None => Watermarks_default
  | Some positions => workspace_watermarks_loop s commit_seq positions Watermarks_default
  end.

Definition snapshot_for (s : State) (commit_seq : N) : Snapshot :=
  MkSnapshot (database_id s) commit_seq (wm_semantic (watermarks_at s commit_seq)) 0.

Definition validate_snapshot (s : State) (commit_seq : N) : Res unit :=
  if (head s <? commit_seq)%N then Err (SnapshotNotFound commit_seq (head s)) else Ok tt.

Definition validate_snapshot_handle (s : State) (snapshot : Snapshot) : Res unit :=
  if bool_decide (snap_database_id snapshot ≠ database_id s)
  then Err (Invariant "snapshot belongs to a different database")
  else validate_snapshot s (snap_commit_seq snapshot).

Definition snapshot (s : State) : Snapshot := snapshot_for s (head s).
Definition snapshot_at (s : State) (commit_seq : N) : Res Snapshot :=
  try? validate_snapshot s commit_seq in
  Ok (snapshot_for s commit_seq).

Definition watermarks_for (s : State) (snapshot : Snapshot) : Res Watermarks :=
  try? validate_snapshot_handle s snapshot in
  Ok (watermarks_at s (snap_commit_seq snapshot)).
Definition watermarks_for_workspace (s : State) (snapshot : Snapshot) (workspace : string) : Res Watermarks :=
  try? validate_snapshot_handle s snapshot in
  Ok (workspace_watermarks_at s workspace (snap_commit_seq snapshot)).

Definition snapshot_for_workspace (s : State) (workspace : string) (workspace_seq : N) : Res Snapshot :=
  if (workspace_seq =? 0)%N then Ok (snapshot_for s 0)
  else
  let index := N.to_nat (workspace_seq - 1) in
  let? journal_index := ok_or
    (positions ← journal_by_workspace (security_indexes s) !! workspace; positions !! index)
    (SnapshotNotFound workspace_seq (workspace_journal_len s workspace)) in
  let? record := ok_or (journal s !! N.to_nat journal_index)
    (Invariant "workspace journal index refers outside the journal") in
  Ok (snapshot_for s (jr_commit_seq record)).

(** ** Event pages *)

(** [slice::partition_point] on a slice that is partitioned by the predicate. *)
Definition partition_point {A} (f : A → bool) (l : list A) : nat := length (take_while f l).

Definition position_le (a b : N * N) : bool := kleb a b.

Definition event_candidate (s : State) (entry : WorkspaceEventIndexEntry) : Res WorkspaceEventCandidate :=
  let? record := ok_or (journal s !! N.to_nat (ie_journal_index entry))
    (Invariant "workspace event index refers outside the journal") in
  Ok (MkWorkspaceEventCandidate (ie_workspace_seq entry) (ie_ordinal entry) (jr_commit_seq record)
        (jr_record_digest record) (ie_kind entry)).

Definition workspace_event_page (s : State) (workspace : string) (after_workspace_seq after_ordinal limit : N)
    : Res WorkspaceEventPage :=
  if (limit =? 0)%N || (MAX_WORKSPACE_JOURNAL_PAGE <? limit)%N then Err ResourceExhausted
  else if (workspace_journal_len s workspace <? after_workspace_seq)%N
  then Err (SnapshotNotFound after_workspace_seq (workspace_journal_len s workspace))
  else
  let entries := default [] (events_by_workspace (security_indexes s) !! workspace) in
  let start := partition_point
    (λ e, position_le (ie_workspace_seq e, ie_ordinal e) (after_workspace_seq, after_ordinal)) entries in
  let finish := Nat.min (start + N.to_nat limit) (length entries) in
  let? candidates := try_map (event_candidate s) (take (finish - start) (drop start entries)) in
  let through :=
    match last candidates with
    | Some candidate => (ec_workspace_seq candidate, ec_ordinal candidate)
    | None => (after_workspace_seq, after_ordinal)
    end in
  Ok (MkWorkspaceEventPage candidates through (finish <? length entries)%nat).

(** ** Authorised records *)

Definition current_use_policy_allows (s : State) (id : string) (principal : Principal) : bool :=
  if has_tombstone s id then false
  else match current s id (head s) with
       | Some revision =>
           match m_lifecycle (sr_record revision) with
           | Suppressed | Retracted => false
           | _ => Principal_allows principal (m_access (sr_record revision))
           end
       | None => false
       end.

Definition current_authorized_metadata (s : State) (id : string) (commit_seq : N) (principal : Principal)
    : option StoredRevision :=
  if negb (current_use_policy_allows s id principal) then None
  else
    revision ← current s id commit_seq;
    if is_active (m_lifecycle (sr_record revision)) && Principal_allows principal (m_access (sr_record revision))
    then Some revision else None.

Definition private_revision_metadata (s : State) (id : string) (commit_seq : N) (principal : Principal)
    : Res StoredRevision :=
  let revision := current s id commit_seq in
  if has_tombstone s id || bool_decide (revision = None) || negb (current_use_policy_allows s id principal)
  then Err Unauthorized
  else
  let? revision := ok_or revision Unauthorized in
  if negb (Principal_allows principal (m_access (sr_record revision))) then Err Unauthorized
  else Ok revision.

Section reads.
Context `{!RefCodec}.

Definition materialize_revision (s : State) (revision : StoredRevision) : Res MaterializedRecord :=
  let? content := content_for_revision s revision in
  Ok (MkMaterializedRecord revision content).

Definition materialize_at (s : State) (id : string) (commit_seq : N) (principal : Principal) : Res MaterializedRecord :=
  if has_tombstone s id then Err (not_found "record" id)
  else
  let? revision := ok_or (current s id commit_seq) (not_found "record" id) in
  if negb (current_use_policy_allows s id principal) then Err Unauthorized
  else if negb (Principal_allows principal (m_access (sr_record revision))) then Err Unauthorized
  else materialize_revision s revision.

Definition get (s : State) (id : string) (snapshot : Snapshot) (principal : Principal) : Res MaterializedRecord :=
  try? validate_snapshot_handle s snapshot in
  materialize_at s id (snap_commit_seq snapshot) principal.

Definition authorized_record_metadata (s : State) (id : string) (snapshot : Snapshot) (principal : Principal)
    : Res LogicalRecordMetadata :=
  try? validate_snapshot_handle s snapshot in
  let? revision := private_revision_metadata s id (snap_commit_seq snapshot) principal in
  Ok (sr_record revision).

Definition get_typed (s : State) (id : string) (expected_kind : RecordKind) (snapshot : Snapshot)
    (principal : Principal) : Res MaterializedRecord :=
  try? validate_snapshot_handle s snapshot in
  let? revision := private_revision_metadata s id (snap_commit_seq snapshot) principal in
  if bool_decide (m_kind (sr_record revision) ≠ expected_kind) then Err Unauthorized
  else materialize_revision s revision.

(** One visible revision of a history read. *)
Definition push_revision (s : State) (principal : Principal) (acc : list MaterializedRecord)
    (revision : StoredRevision) : Res (list MaterializedRecord) :=
  if Principal_allows principal (m_access (sr_record revision)) then
    let? record := materialize_revision s revision in
    Ok (acc ++ [record])
  else Ok acc.

Definition visible_history (history : list StoredRevision) (commit_seq : N) : list StoredRevision :=
  List.filter (λ r, transaction_from r <=? commit_seq)%N history.

Definition non_empty_history (records : list MaterializedRecord) : Res (list MaterializedRecord) :=
  if is_empty records then Err Unauthorized else Ok records.

Definition history_typed (s : State) (id : string) (expected_kind : RecordKind) (snapshot : Snapshot)
    (principal : Principal) : Res (list MaterializedRecord) :=
  try? validate_snapshot_handle s snapshot in
  let? selected := private_revision_metadata s id (snap_commit_seq snapshot) principal in
  if bool_decide (m_kind (sr_record selected) ≠ expected_kind) then Err Unauthorized
  else
  let? history := ok_or (histories s !! id) Unauthorized in
  let? records := try_fold (λ acc revision,
    if bool_decide (m_kind (sr_record revision) ≠ expected_kind)
    then Err (Invariant ("record kind changed inside history for " +:+ id))
    else push_revision s principal acc revision) [] (visible_history history (snap_commit_seq snapshot)) in
  non_empty_history records.

Definition history (s : State) (id : string) (snapshot : Snapshot) (principal : Principal)
    : Res (list MaterializedRecord) :=
  try? validate_snapshot_handle s snapshot in
  if has_tombstone s id then Err (not_found "record" id)
  else
  let? h := ok_or (histories s !! id) (not_found "record" id) in
  if negb (current_use_policy_allows s id principal) then Err Unauthorized
  else
  let? records := try_fold (push_revision s principal) [] (visible_history h (snap_commit_seq snapshot)) in
  non_empty_history records.

(** ** Observations *)

Definition visible_observation (s : State) (id : string) (snapshot : Snapshot) : option ObservationRecord :=
  record ← observations s !! id;
  if (ob_accepted_seq record <=? snap_commit_seq snapshot)%N then Some record else None.

Definition get_observation (s : State) (id : string) (snapshot : Snapshot) (principal : Principal)
    : Res MaterializedObservation :=
  try? validate_snapshot_handle s snapshot in
  if has_tombstone s id then Err (not_found "observation" id)
  else
  let? record := ok_or (visible_observation s id snapshot) (not_found "observation" id) in
  if negb (Principal_allows principal (ob_access record)) then Err Unauthorized
  else
  let? content := ok_or (contents s !! content_id (ob_content record))
    (not_found "observation content" (content_id (ob_content record))) in
  let? actual := digest content in
  if bool_decide (actual ≠ content_digest (ob_content record))
  then Err (Invariant ("content digest mismatch for observation " +:+ id))
  else Ok (MkMaterializedObservation record content).

Definition authorize_observation (s : State) (id : string) (snapshot : Snapshot) (principal : Principal) : Res unit :=
  try? validate_snapshot_handle s snapshot in
  if has_tombstone s id then Err Unauthorized
  else match visible_observation s id snapshot with
       | Some record => if Principal_allows principal (ob_access record) then Ok tt else Err Unauthorized
       | None => Err Unauthorized
       end.

(** ** Scans *)

Definition trace (s : State) (commit_seq : N) (workspace operation : string) (authorized_candidates : N)
    (selected_ids : list string) : ReadTrace :=
  let w := workspace_watermarks_at s workspace commit_seq in
  MkReadTrace (wm_journal w) operation authorized_candidates selected_ids w.

Definition workspace_candidates (s : State) (principal : Principal) : option (gset string) :=
  histories_by_workspace (security_indexes s) !! p_workspace principal.

Definition ensure_workspace_candidate_budget (candidate_ids : option (gset string)) : Res unit :=
  match candidate_ids with
  | Some ids => if (MAX_WORKSPACE_CANDIDATES <? N.of_nat (size ids))%N then Err ResourceExhausted else Ok tt
  | None => Ok tt
  end.

(** [candidate_ids.into_iter().flatten()]. *)
Definition candidate_list (candidate_ids : option (gset string)) : list string :=
  match candidate_ids with Some ids => bt_elements ids | None => [] end.

(** The revision of a candidate that the loops of the reads go on with. *)
Definition candidate_revision (s : State) (commit_seq : N) (id : string) : Res (option StoredRevision) :=
  let? history := ok_or (histories s !! id) (Invariant "workspace history index refers to a missing record") in
  if has_tombstone s id then Ok None else Ok (revision_at history commit_seq).

(** The common authorisation of a candidate revision. *)
Definition candidate_allowed (s : State) (principal : Principal) (id : string) (revision : StoredRevision) : bool :=
  is_active (m_lifecycle (sr_record revision))
  && Principal_allows principal (m_access (sr_record revision))
  && current_use_policy_allows s id principal.

Definition scan_candidate (s : State) (kind : RecordKind) (commit_seq : N) (principal : Principal)
    (records : list MaterializedRecord) (id : string) : Res (list MaterializedRecord) :=
  let? revision := candidate_revision s commit_seq id in
  match revision with
  | None => Ok records
  | Some revision =>
      if bool_decide (m_kind (sr_record revision) = kind) && candidate_allowed s principal id revision then
        let? record := materialize_revision s revision in
        Ok (records ++ [record])
      else Ok records
  end.

Definition scan_kind (s : State) (kind : RecordKind) (snapshot : Snapshot) (principal : Principal)
    : Res (Traced (list MaterializedRecord)) :=
  try? validate_snapshot_handle s snapshot in
  let candidate_ids := workspace_candidates s principal in
  try? ensure_workspace_candidate_budget candidate_ids in
  let? records := try_fold (scan_candidate s kind (snap_commit_seq snapshot) principal) []
    (candidate_list candidate_ids) in
  Ok (MkTraced records (trace s (snap_commit_seq snapshot) (p_workspace principal) "exact_scan" (len records)
        ((sr_id ∘ mr_revision) <$> records))).

(** ** Exact search *)

(** The Unicode tables of the standard library: [char::is_alphanumeric] on the
    encoding of a character, and [str::to_lowercase]. *)
Class Unicode := {
  char_is_alphanumeric : bytes → bool;
  str_to_lowercase : string → string;
}.

(** [str::chars]: the encodings of the characters of a UTF-8 text. *)
Fixpoint chars (s : bytes) : list bytes :=
  match s with
  | [] => []
  | a :: r1 =>
      if (Byte.to_N a <? 192)%N then [a] :: chars r1
      else match r1 with
      | [] => [[a]]
      | b :: r2 =>
          if (Byte.to_N a <? 224)%N then [a; b] :: chars r2
          else match r2 with
          | [] => [[a; b]]
          | c :: r3 =>
              if (Byte.to_N a <? 240)%N then [a; b; c] :: chars r3
              else match r3 with
              | [] => [[a; b; c]]
              | d :: r4 => [a; b; c; d] :: chars r4
              end
          end
      end
  end.

Section unicode.
Context `{!Unicode} (nan_negative : bool).

(** [str::split] by a character predicate. *)
Fixpoint split_text (word : bytes) (cs : list bytes) : list bytes :=
  match cs with
  | [] => [word]
  | c :: rest => if char_is_alphanumeric c then split_text (word ++ c) rest else word :: split_text [] rest
  end.

Definition tokens (value : string) : gset string :=
  list_to_set ((λ word, str_to_lowercase (String.string_of_list_byte word))
    <$> List.filter (negb ∘ is_empty) (split_text [] (chars (str_bytes value)))).

Definition compare_hits (left right : SearchHit) : comparison :=
  then_with (total_cmp nan_negative (hit_score right) (hit_score left)) (cmp (hit_id left) (hit_id right)).
Definition sort_hits (hits : list SearchHit) : list SearchHit := sort_by compare_hits hits.

(** A search visits the authorised candidates; [score] is the score of a content,
    if the content takes part. *)
Definition search_candidate (s : State) (commit_seq : N) (principal : Principal)
    (score : RecordContent → option spec_float) (acc : N * list SearchHit) (id : string)
    : Res (N * list SearchHit) :=
  let '(authorized_candidates, hits) := acc in
  let? revision := candidate_revision s commit_seq id in
  match revision with
  | None => Ok acc
  | Some revision =>
      if negb (candidate_allowed s principal id revision) then Ok acc
      else
      let authorized_candidates := saturating_add USIZE_MAX authorized_candidates 1 in
      let? content := content_for_revision s revision in
      match score content with
      | None => Ok (authorized_candidates, hits)
      | Some score => Ok (authorized_candidates, hits ++ [MkSearchHit id score])
      end
  end.

Definition search_candidates (s : State) (commit_seq : N) (principal : Principal)
    (score : RecordContent → option spec_float) : Res (N * list SearchHit) :=
  let candidate_ids := workspace_candidates s principal in
  try? ensure_workspace_candidate_budget candidate_ids in
  try_fold (search_candidate s commit_seq principal score) (0%N, []) (candidate_list candidate_ids).

Definition traced_hits (s : State) (commit_seq : N) (principal : Principal) (operation : string) (limit : N)
    (found : N * list SearchHit) : Traced (list SearchHit) :=
  let hits := take (N.to_nat limit) (sort_hits found.2) in
  MkTraced hits (trace s commit_seq (p_workspace principal) operation found.1 (hit_id <$> hits)).

Definition lexical_score (query_tokens : gset string) (content : RecordContent) : option spec_float :=
  search_text ← rc_search_text content;
  let document_tokens := tokens search_text in
  let matched := N.of_nat (size (query_tokens ∩ document_tokens)) in
  if (0 <? matched)%N then Some (f32_div (f32_of_usize matched) (f32_of_usize (N.of_nat (size query_tokens))))
  else None.

Definition lexical_search (s : State) (query : string) (limit : N) (snapshot : Snapshot) (principal : Principal)
    : Res (Traced (list SearchHit)) :=
  try? validate_snapshot_handle s snapshot in
  let query_tokens := tokens query in
  if bool_decide (query_tokens = ∅) || (limit =? 0)%N then
    Ok (MkTraced [] (trace s (snap_commit_seq snapshot) (p_workspace principal) "exact_lexical" 0 []))
  else
  let? found := search_candidates s (snap_commit_seq snapshot) principal (lexical_score query_tokens) in
  Ok (traced_hits s (snap_commit_seq snapshot) principal "exact_lexical" limit found).

Definition vector_score (query : list f32) (content : RecordContent) : option spec_float :=
  vector ← rc_vector content;
  if negb (len vector =? len query)%N then None
  else Some (f32_sum (zip_with (λ left right, f32_mul (f32_val left) (f32_val right)) vector query)).

Definition vector_search (s : State) (query : list f32) (limit : N) (snapshot : Snapshot) (principal : Principal)
    : Res (Traced (list SearchHit)) :=
  if bad_vector (Some query) then Err (Invariant "query vector must be non-empty and finite")
  else
  try? validate_snapshot_handle s snapshot in
  let? found :=
    if (0 <? limit)%N then search_candidates s (snap_commit_seq snapshot) principal (vector_score query)
    else Ok (0%N, []) in
  Ok (traced_hits s (snap_commit_seq snapshot) principal "exact_vector" limit found).
End unicode.

(** ** Traversal *)

Record Walk := MkWalk {
  walk_queue : list (string * N);
  walk_visited : gset string;
  walk_result : list string;
  walk_edges : N;
  walk_scanned : N;
}.

Definition follows_out (direction : Direction) : bool := match direction with Incoming => false | _ => true end.
Definition follows_in (direction : Direction) : bool := match direction with Outgoing => false | _ => true end.

(** The neighbour that an edge offers at [node]. *)
Definition edge_neighbour (direction : Direction) (predicates : gset string) (node : string)
    (links : SemanticLinks) : option string :=
  if negb (bool_decide (predicates = ∅))
     && match l_predicate links with Some p => negb (bool_decide (p ∈ predicates)) | None => true end
  then None
  else if follows_out direction && bool_decide (l_source links = Some node) then l_target links
  else if follows_in direction && bool_decide (l_target links = Some node) then l_source links
  else None.

Section traverse.
Context (s : State) (direction : Direction) (predicates : gset string) (max_hops max_nodes : N)
  (commit_seq : N) (principal : Principal).

Definition is_authorized_node (id : string) : bool :=
  match current_authorized_metadata s id commit_seq principal with
  | Some record => bool_decide (m_kind (sr_record record) = Node)
  | None => false
  end.

(** One edge candidate at [node]: the candidates scanned, the authorised edges and
    the neighbours so far. *)
Definition scan_edge (node : string) (acc : N * N * gset string) (edge_id : string) : Res (N * N * gset string) :=
  let '(scanned, edges, neighbours) := acc in
  let scanned := saturating_add USIZE_MAX scanned 1 in
  if (MAX_WORKSPACE_CANDIDATES <? scanned)%N then Err ResourceExhausted
  else
  let? edge := candidate_revision s commit_seq edge_id in
  match edge with
  | None => Ok (scanned, edges, neighbours)
  | Some edge =>
      if bool_decide (m_kind (sr_record edge) = Edge) && candidate_allowed s principal edge_id edge then
        match edge_neighbour direction predicates node (m_links (sr_record edge)) with
        | Some neighbour =>
            if is_authorized_node neighbour
            then Ok (scanned, saturating_add USIZE_MAX edges 1, {[neighbour]} ∪ neighbours)
            else Ok (scanned, edges, neighbours)
        | None => Ok (scanned, edges, neighbours)
        end
      else Ok (scanned, edges, neighbours)
  end.

(** The loop over the neighbours; it is left when [max_nodes] is reached. *)
Fixpoint visit_neighbours (hops : N) (neighbours : list string) (w : Walk) : Walk :=
  match neighbours with
  | [] => w
  | n :: rest =>
      if bool_decide (n ∈ walk_visited w) then visit_neighbours hops rest w
      else
        let visited := {[n]} ∪ walk_visited w in
        let result := walk_result w ++ [n] in
        if (max_nodes <=? len result)%N
        then MkWalk (walk_queue w) visited result (walk_edges w) (walk_scanned w)
        else visit_neighbours hops rest
               (MkWalk (walk_queue w ++ [(n, saturating_add U8_MAX hops 1)]) visited result
                  (walk_edges w) (walk_scanned w))
  end.

Definition walk_step (candidates : list string) (w : Walk) : Walk + Res Walk :=
  match walk_queue w with
  | [] => inr (Ok w)
  | (node, hops) :: queue =>
      let w := MkWalk queue (walk_visited w) (walk_result w) (walk_edges w) (walk_scanned w) in
      if (max_hops <=? hops)%N then inl w
      else
      match try_fold (scan_edge node) (walk_scanned w, walk_edges w, ∅) candidates with
      | Err e => inr (Err e)
      | Ok (scanned, edges, neighbours) =>
          let w := visit_neighbours hops (bt_elements neighbours)
            (MkWalk queue (walk_visited w) (walk_result w) edges scanned) in
          if (max_nodes <=? len (walk_result w))%N then inr (Ok w) else inl w
      end
  end.

Definition check_start (id : string) : Res unit :=
  let? revision := ok_or (current_authorized_metadata s id commit_seq principal) Unauthorized in
  if bool_decide (m_kind (sr_record revision) ≠ Node)
  then Err (Invariant ("traversal start " +:+ id +:+ " is not a node"))
  else Ok tt.

(** Every start and every record is queued at most once, so the fuel is never used
    up ([walk_terminates]); the last line is not reached. *)
Definition walk (start : list string) (candidates : list string) : Res Walk :=
  match loop_nat (S (length start + size (histories s))) (walk_step candidates)
          (MkWalk ((λ id, (id, 0%N)) <$> start) (list_to_set start) [] 0 0) with
  | inr r => r
  | inl w => Ok w
  end.
End traverse.

Definition traverse (s : State) (start : list string) (direction : Direction) (predicates : gset string)
    (max_hops max_nodes : N) (snapshot : Snapshot) (principal : Principal) : Res (Traced (list string)) :=
  let seq := snap_commit_seq snapshot in
  try? validate_snapshot_handle s snapshot in
  try? for_each (check_start s seq principal) start in
  if (max_hops =? 0)%N || (max_nodes =? 0)%N then
    Ok (MkTraced [] (trace s seq (p_workspace principal) "exact_traverse" 0 []))
  else
  let candidate_ids := workspace_candidates s principal in
  try? ensure_workspace_candidate_budget candidate_ids in
  let? w := walk s direction predicates max_hops max_nodes seq principal start (candidate_list candidate_ids) in
  Ok (MkTraced (walk_result w)
        (trace s seq (p_workspace principal) "exact_traverse" (walk_edges w) (walk_result w))).

(** ** Administrative reads *)

Definition tombstone (s : State) (id : string) : option DeletionTombstone := tombstones s !! id.
End reads.
