(* ===== verification/RefKeys.v ===== *)
(** * The reference engine: keys of erasable content

    A content key names its class, its owner, the commit that stored it and the
    digest of the content, separated by colons.  The four parts can be read back
    from the key, whatever the owner's identifier is. *)

From Stdlib Require Import Strings.Ascii.
From stdpp Require Import pretty.
From S2P Require Import Prelude.
From S2P Require Import Ordering.
From S2P Require Import Bytes.
From S2P Require Import Json.
From S2P Require Import Format.
From S2P Require Import Evidence.
From S2P Require Import RefModel.
From S2P Require Import RefEngine.

Definition text (s : string) : list ascii := String.list_ascii_of_string s.

Lemma text_app a b : text (a +:+ b) = text a ++ text b.
Proof. induction a as [|c a IH]; simpl; [done|]. by rewrite <- IH. Qed.

#[export] Instance text_inj : Inj (=) (=) text.
Proof.
  intros a b Hab. rewrite <- (String.string_of_list_ascii_of_string a), <- (String.string_of_list_ascii_of_string b).
  unfold text in Hab. by rewrite Hab.
Qed.

Definition colon : ascii := ":".
Definition colon_free (s : string) : Prop := colon ∉ text s.

(** ** Splitting at a colon *)

Lemma split_first (a a' r r' : list ascii) :
  colon ∉ a → colon ∉ a' → a ++ colon :: r = a' ++ colon :: r' → a = a' ∧ r = r'.
Proof.
  revert a'; induction a as [|x a IH]; intros [|x' a'] Ha Ha'; simpl.
  - by intros [= <-].
  - intros [= <- _]. destruct Ha'. by left.
  - intros [= -> _]. destruct Ha. by left.
  - intros [= <- Heq]. rewrite not_elem_of_cons in Ha, Ha'. destruct (IH a') as [-> ->]; naive_solver.
Qed.

Lemma split_last (a a' r r' : list ascii) :
  colon ∉ a → colon ∉ a' → r ++ colon :: a = r' ++ colon :: a' → r = r' ∧ a = a'.
Proof.
  intros Ha Ha' Heq%(f_equal reverse). rewrite !reverse_app, !reverse_cons, <- !app_assoc in Heq. simpl in Heq.
  destruct (split_first (reverse a) (reverse a') (reverse r) (reverse r')) as [H1 H2];
    [by rewrite elem_of_reverse..|done|].
  by apply (inj reverse) in H1, H2.
Qed.

(** ** Texts without a colon *)

Lemma pretty_N_char_colon x : pretty_N_char x ≠ colon.
Proof. unfold pretty_N_char. by repeat case_match. Qed.

Lemma pretty_colon_free (n : N) : colon_free (pretty n).
Proof.
  unfold colon_free. unfold pretty, pretty_N. case_decide; [by inversion 1 as [|? ? ? Hin]; inversion Hin|].
  assert (∀ s, colon ∉ text s → colon ∉ text (pretty_N_go n s)) as Hgo; [|apply Hgo, not_elem_of_nil].
  induction (N.lt_wf_0 n) as [x _ IH]; intros s Hs. destruct (decide (x = 0)%N) as [->|Hx].
  - by rewrite pretty_N_go_0.
  - rewrite pretty_N_go_step by lia. destruct (decide (x `div` 10 = 0)%N) as [->|Hd].
    + rewrite pretty_N_go_0. simpl. apply not_elem_of_cons. split; [apply not_eq_sym, pretty_N_char_colon|done].
    + apply IH; [by apply N.div_lt; lia|done|]. simpl. apply not_elem_of_cons.
      split; [apply not_eq_sym, pretty_N_char_colon|done].
Qed.

Lemma hex_digit_colon n : hex_digit n = x3a → (n < 16)%N → False.
Proof.
  unfold hex_digit. intros Heq Hn. apply (f_equal Byte.to_N) in Heq. change (Byte.to_N x3a) with 58%N in Heq.
  destruct (N.ltb_spec n 10); rewrite to_N_byte_of_N in Heq; rewrite N.mod_small in Heq; lia.
Qed.

Lemma to_hex_colon_free hash : colon_free (to_hex hash).
Proof.
  unfold colon_free, to_hex, text. intros Hin.
  unfold String.string_of_list_byte in Hin. rewrite String.list_ascii_of_string_of_list_ascii in Hin.
  apply list_elem_of_In, in_map_iff in Hin as (b & Hb & Hin%list_elem_of_In).
  apply (f_equal byte_of_ascii) in Hb. rewrite byte_of_ascii_of_byte in Hb. change (byte_of_ascii colon) with x3a in Hb.
  subst b. apply list_elem_of_join in Hin as (l & Hin & Hl%list_elem_of_fmap). destruct Hl as (b & -> & _).
  unfold hex_byte in Hin. pose proof (to_N_lt b).
  apply elem_of_cons in Hin as [Heq|[Heq|[]%elem_of_nil]%elem_of_cons]; symmetry in Heq; eapply hex_digit_colon; eauto.
  - apply N.Div0.div_lt_upper_bound. lia.
  - apply N.mod_lt. lia.
Qed.

Lemma digest_colon_free `{!RefCodec} `{ToValue T} (v : T) d : digest v = Ok d → colon_free d.
Proof. unfold digest. intros Hd. res_inv. apply to_hex_colon_free. Qed.

(** ** The parts of a key *)

Definition content_key (class owner : string) (n : N) (d : string) : string :=
  class +:+ ":" +:+ owner +:+ ":" +:+ pretty n +:+ ":" +:+ d.

Lemma content_key_inj class class' owner owner' n n' d d' :
  colon_free class → colon_free class' → colon_free d → colon_free d' →
  content_key class owner n d = content_key class' owner' n' d' → class = class' ∧ owner = owner' ∧ n = n' ∧ d = d'.
Proof.
  intros Hc Hc' Hd Hd' Heq%(f_equal text). unfold content_key in Heq. rewrite !text_app in Heq.
  change (text ":") with [colon] in Heq. simpl in Heq.
  apply split_first in Heq as [Hclass Heq]; [|done..].
  assert (∀ (o p d : list ascii), o ++ colon :: p ++ colon :: d = (o ++ colon :: p) ++ colon :: d) as Hassoc
    by (intros; by rewrite <- app_assoc).
  rewrite !Hassoc in Heq. apply split_last in Heq as [Heq Hdig]; [|done..].
  apply split_last in Heq as [Howner Hn]; [|apply pretty_colon_free..].
  apply (inj text) in Hclass, Howner, Hdig, Hn. apply (inj pretty) in Hn. done.
Qed.

Lemma make_content_ref_inv `{!RefCodec} `{ToValue T} class owner n (x : T) content :
  make_content_ref class owner n x = Ok content →
  to_value x = Ok content.2 ∧ digest content.2 = Ok (content_digest content.1) ∧
  content_id content.1 = content_key class owner n (content_digest content.1) ∧
  colon_free (content_digest content.1).
Proof.
  unfold make_content_ref. intros Hc. res_inv. simpl.
  match goal with Hd : digest x = Ok ?d |- _ => pose proof (digest_colon_free _ _ Hd) as Hfree; unfold digest in Hd |- *;
    apply result_bind_Ok in Hd as (t & Ht & [= <-]); unfold canonical_to_vec in Ht |- * end.
  unfold to_value_or in *. res_inv. split; [done|].
  match goal with H1 : to_value x = Ok ?a, H2 : to_value x = Ok ?b |- _ =>
    assert (a = b) as -> by congruence end.
  split; [|by split]. simpl.
  match goal with H1 : value_to_vec _ = Ok _ |- _ => rewrite H1 end. done.
Qed.
