(* ===== verification/RefInvariant.v ===== *)
(** * The reference engine: histories of writes

    The shape of revision histories, what a commit in progress does to the state as
    a sequence of small steps, and the invariant of every reachable state. *)

From stdpp Require Import pretty.
From S2P Require Import Prelude.
From S2P Require Import Ordering.
From S2P Require Import Bytes.
From S2P Require Import Json.
From S2P Require Import Format.
From S2P Require Import RefModel.
From S2P Require Import RefEngine.
From S2P Require Import RefReads.
From S2P Require Import RefKeys.

(** ** Revision histories *)

(** The revisions of one record up to commit [n]: each one ends where the next
    begins, and the last is open. *)
Inductive history_ok (id : string) (n : N) : list StoredRevision → Prop :=
  | history_first r :
      sr_id r = id → transaction_to r = None → (1 ≤ transaction_from r ≤ n)%N → history_ok id n [r]
  | history_next pre r r' :
      history_ok id n (pre ++ [r]) → sr_id r' = id → transaction_to r' = None →
      (transaction_from r ≤ transaction_from r' ≤ n)%N →
      history_ok id n ((pre ++ [close_revision (transaction_from r') r]) ++ [r']).

(** Everything of a revision but its end. *)
Definition strip (r : StoredRevision) :=
  (sr_id r, sr_revision r, transaction_from r, sr_record r, sr_content r).

Lemma strip_close c r : strip (close_revision c r) = strip r.
Proof. done. Qed.

Lemma close_last_snoc c pre r : close_last c (pre ++ [r]) = pre ++ [close_revision c r].
Proof.
  induction pre as [|x pre IH]; simpl; [done|]. rewrite IH. by destruct pre.
Qed.

Lemma revision_at_snoc h r k :
  revision_at (h ++ [r]) k = if visible_at k r then Some r else revision_at h k.
Proof. unfold revision_at. rewrite rev_unit. done. Qed.

Section history.
Context {id : string}.

Lemma history_ok_snoc_inv n h : history_ok id n h →
  ∃ pre r, h = pre ++ [r] ∧ sr_id r = id ∧ transaction_to r = None ∧ (1 ≤ transaction_from r ≤ n)%N.
Proof.
  induction 1 as [r ? ? ?|pre r r' H IH ? ? ?]; [by exists [], r|].
  exists (pre ++ [close_revision (transaction_from r') r]), r'. do 3 (split; [done|]).
  destruct IH as (pre' & r0 & [_ ->]%app_inj_tail & _ & _ & ?). lia.
Qed.

Lemma history_ok_mono n m h : history_ok id n h → (n ≤ m)%N → history_ok id m h.
Proof.
  induction 1 as [r ? ? ?|pre r r' H IH ? ? ?]; intros Hnm.
  - constructor; [done|done|lia].
  - constructor; [by apply IH|done|done|lia].
Qed.

(** From its last commit on, the last revision of a history is the visible one. *)
Lemma revision_at_last n h k : history_ok id n h → (n ≤ k)%N → revision_at h k = last h.
Proof.
  intros (pre & r & -> & _ & Hto & ?)%history_ok_snoc_inv Hk.
  rewrite revision_at_snoc, last_snoc. unfold visible_at. rewrite Hto.
  destruct (N.leb_spec (transaction_from r) k); [done|lia].
Qed.

(** A write at [c] appends a revision to the history of its record. *)
Definition extend (c : N) (h : list StoredRevision) (r : StoredRevision) : list StoredRevision :=
  close_last c h ++ [r].

Lemma extend_ok n c h r :
  history_ok id n h ∨ h = [] → (n ≤ c)%N → (1 ≤ c)%N → sr_id r = id → transaction_to r = None → transaction_from r = c →
  history_ok id c (extend c h r).
Proof.
  intros [Hh| ->] Hnc Hc Hid Hto Hfrom; unfold extend; [|constructor; [done|done|lia]].
  pose proof (history_ok_snoc_inv _ _ Hh) as (pre & r0 & -> & ? & ? & ?).
  rewrite close_last_snoc, <- Hfrom. constructor; [|done|done|lia].
  apply history_ok_mono with n; [done|lia].
Qed.

Lemma revision_at_extend_new c h r k :
  transaction_from r = c → transaction_to r = None → (c ≤ k)%N → revision_at (extend c h r) k = Some r.
Proof.
  intros <- Hto Hk. unfold extend. rewrite revision_at_snoc. unfold visible_at. rewrite Hto.
  destruct (N.leb_spec (transaction_from r) k); [done|lia].
Qed.

(** Before [c] nothing changes but the end of the revision that was open. *)
Lemma revision_at_extend_old n c h r k :
  history_ok id n h ∨ h = [] → transaction_from r = c → (k < c)%N →
  strip <$> revision_at (extend c h r) k = strip <$> revision_at h k.
Proof.
  intros Hh Hfrom Hk. unfold extend. rewrite revision_at_snoc.
  assert (visible_at k r = false) as ->.
  { unfold visible_at. rewrite Hfrom. destruct (N.leb_spec c k); [lia|done]. }
  destruct Hh as [Hh| ->]; [|done].
  pose proof (history_ok_snoc_inv _ _ Hh) as (pre & r0 & -> & _ & Hto & _).
  rewrite close_last_snoc, !revision_at_snoc.
  assert (visible_at k (close_revision c r0) = visible_at k r0) as ->.
  { unfold visible_at. simpl. rewrite Hto. destruct (N.ltb_spec k c); [done|lia]. }
  by destruct (visible_at k r0).
Qed.

(** Nothing is visible before the first commit. *)
Lemma revision_at_from n h k r : history_ok id n h → revision_at h k = Some r → (transaction_from r ≤ k)%N ∧ r ∈ h.
Proof.
  intros _ Hr. unfold revision_at in Hr. apply find_some in Hr as [Hin Hv]. split.
  - unfold visible_at in Hv. bool_simpl. naive_solver.
  - by apply list_elem_of_In, in_rev.
Qed.

(** Every revision is within the commits and ends where the next one begins. *)
Lemma history_ok_lookup n h i r :
  history_ok id n h → h !! i = Some r →
  sr_id r = id ∧ (1 ≤ transaction_from r ≤ n)%N ∧
  ∀ r', h !! S i = Some r' → transaction_to r = Some (transaction_from r').
Proof.
  intros Hok. revert i r. induction Hok as [r0 Hid Hto Hb|pre r0 r1 Hok IH Hid Hto Hb]; intros i r Hr.
  - apply list_lookup_singleton_Some in Hr as [-> <-]. split; [done|]. split; [lia|]. done.
  - pose proof (history_ok_snoc_inv _ _ Hok) as (pre' & r' & [_ ->]%app_inj_tail & Hid' & _ & Hb').
    apply lookup_snoc_Some in Hr as [[Hlt Hr]|[-> <-]].
    + rewrite length_app in Hlt. simpl in Hlt. apply lookup_snoc_Some in Hr as [[Hlt' Hr]|[-> <-]].
      * destruct (IH i r) as (? & ? & Hnext); [by rewrite lookup_app_l|]. split; [done|]. split; [done|]. intros r2 Hr2.
        rewrite lookup_app_l in Hr2 by (rewrite length_app; simpl; lia).
        apply lookup_snoc_Some in Hr2 as [[Hlt2 Hr2]|[Hi <-]]; [apply Hnext; by rewrite lookup_app_l|].
        simpl. apply Hnext. by rewrite Hi, lookup_app_r, Nat.sub_diag by done.
      * simpl. split; [done|]. split; [done|]. intros r2 Hr2.
        rewrite lookup_app_r in Hr2 by (rewrite length_app; simpl; lia).
        rewrite length_app in Hr2. simpl in Hr2. replace (S (length pre) - (length pre + 1))%nat with 0%nat in Hr2 by lia.
        by injection Hr2 as <-.
    + split; [done|]. split; [lia|]. intros r2 Hr2. rewrite lookup_ge_None_2 in Hr2; [done|].
      rewrite !length_app. simpl. lia.
Qed.
End history.

(** ** The steps of a commit in progress *)

Section steps.
Context `{!RefCodec}.

(** A commit in progress stores a revision or deletes one identity. *)
Inductive draft_step (c : N) : Draft → Draft → Prop :=
  | step_store s affected record revision content :
      validate_record s record c = Ok tt →
      has_tombstone s (lr_id record) = false → observations s !! lr_id record = None →
      (∀ r, current s (lr_id record) (head s) = Some r →
        m_kind (sr_record r) = lr_kind record ∧
        workspace (m_access (sr_record r)) = workspace (lr_access record)) →
      revision = match current s (lr_id record) (head s) with
                 | Some r => saturating_add U32_MAX (sr_revision r) 1
                 | None => 1%N
                 end → (revision < U32_MAX)%N →
      make_content_ref "record" (lr_id record) c (record_content record) = Ok content →
      draft_step c (s, affected) (store_revision s record revision c content, {[lr_id record]} ∪ affected)
  | step_delete s affected target requested_by reason id :
      has_tombstone s id = false → is_Some (histories s !! id) ∨ is_Some (observations s !! id) →
      draft_step c (s, affected) (delete_one target requested_by reason c (s, affected) id).

Lemma saturating_add_le max a b : (saturating_add max a b ≤ max)%N.
Proof. unfold saturating_add. lia. Qed.

Lemma put_record_step c d record expected d' :
  put_record d record expected c = Ok d' → draft_step c d d'.
Proof.
  destruct d as [s affected]. unfold put_record.
  intros ([] & Hvalid & Hput)%result_bind_Ok.
  destruct (has_tombstone s (lr_id record)) eqn:Htomb; [done|]. cbn [orb] in Hput.
  destruct (bool_decide_reflect (is_Some (observations s !! lr_id record))) as [|Hobs%eq_None_not_Some]; [done|].
  apply result_bind_Ok in Hput as ([] & _ & Hput).
  destruct (current s (lr_id record) (head s)) as [r|] eqn:Hnow.
  - destruct (bool_decide (m_kind _ ≠ _)) eqn:Hkind; [done|].
    destruct (bool_decide (workspace _ ≠ _)) eqn:Hws; [done|].
    apply bool_decide_eq_false_1, dec_stable in Hkind, Hws.
    destruct (N.eqb_spec (saturating_add U32_MAX (sr_revision r) 1) U32_MAX) as [|Hne]; [done|].
    res_inv. apply step_store; try done; rewrite ?Hnow; try done.
    + by intros ? [= <-].
    + pose proof (saturating_add_le U32_MAX (sr_revision r) 1). lia.
  - change (1 =? U32_MAX)%N with false in Hput. cbv iota in Hput. res_inv.
    apply step_store; try done; by rewrite Hnow.
Qed.

Lemma delete_one_tombstones target requested_by reason c s affected id id' :
  has_tombstone (delete_one target requested_by reason c (s, affected) id).1 id'
  = bool_decide (id = id') || has_tombstone s id'.
Proof.
  unfold has_tombstone. simpl. destruct (decide (id = id')) as [->|Hne].
  - rewrite lookup_insert_eq, (bool_decide_eq_true_2 (id' = id')) by done. by apply bool_decide_eq_true_2.
  - rewrite lookup_insert_ne by done. by rewrite (bool_decide_eq_false_2 (id = id')).
Qed.

Lemma delete_one_same target requested_by reason c d id :
  let d' := delete_one target requested_by reason c d id in
  histories d'.1 = histories d.1 ∧ observations d'.1 = observations d.1 ∧ head d'.1 = head d.1 ∧
  journal d'.1 = journal d.1 ∧ database_id d'.1 = database_id d.1 ∧ watermarks d'.1 = watermarks d.1 ∧
  idempotency d'.1 = idempotency d.1 ∧
  journal_by_workspace (security_indexes d'.1) = journal_by_workspace (security_indexes d.1) ∧
  events_by_workspace (security_indexes d'.1) = events_by_workspace (security_indexes d.1).
Proof. by destruct d. Qed.

Lemma delete_many_steps target requested_by reason c ids d :
  NoDup ids →
  (∀ id, id ∈ ids → has_tombstone d.1 id = false ∧ (is_Some (histories d.1 !! id) ∨ is_Some (observations d.1 !! id))) →
  rtc (draft_step c) d (foldl (delete_one target requested_by reason c) d ids).
Proof.
  revert d; induction ids as [|id ids IH]; intros [s affected] Hnd Hids; [apply rtc_refl|].
  apply NoDup_cons in Hnd as [Hnin Hnd]. apply rtc_l with (delete_one target requested_by reason c (s, affected) id).
  - apply step_delete; by apply Hids; left.
  - apply IH; [done|]. intros id' Hid'. rewrite delete_one_tombstones.
    destruct (delete_one_same target requested_by reason c (s, affected) id) as (-> & -> & _).
    rewrite bool_decide_eq_false_2 by (intros ->; done). apply Hids. by right.
Qed.

(** ** The closure of a deletion *)

Lemma any_in_true closure ids : any_in closure ids = true ↔ ∃ id, id ∈ ids ∧ id ∈ closure.
Proof.
  unfold any_in. rewrite existsb_exists. apply exist_proper. intros id.
  by rewrite list_elem_of_In, bool_decide_eq_true.
Qed.

(** The identities a record refers to, as the deletion follows them. *)
Definition refers_to (links : SemanticLinks) (id : string) : Prop :=
  l_subject links = Some id ∨ l_source links = Some id ∨ l_target links = Some id ∨
  id ∈ l_evidence links ∨ id ∈ l_supersedes links ∨ id ∈ l_conflict_members links.

Lemma elem_of_option_ids o id : id ∈ option_ids o ↔ o = Some id.
Proof. destruct o; simpl; [rewrite list_elem_of_singleton; naive_solver|]. split; [by intros ?%elem_of_nil|done]. Qed.

Lemma depends_on_true closure links :
  depends_on closure links = true ↔ ∃ id, refers_to links id ∧ id ∈ closure.
Proof.
  unfold depends_on, refers_to. rewrite !orb_true_iff, !any_in_true.
  setoid_rewrite elem_of_app. setoid_rewrite elem_of_app. setoid_rewrite elem_of_option_ids.
  setoid_rewrite bt_elements_elem. naive_solver.
Qed.

(** [id] depends directly on a member of the closure, at the current head. *)
Definition dependent (s : State) (closure : gset string) (id : string) : Prop :=
  ∃ r x, current s id (head s) = Some r ∧ has_tombstone s id = false ∧ refers_to (m_links (sr_record r)) x ∧ x ∈ closure.

Lemma foldl_collect_elem {A} (P : A → Prop) (key : A → string) (f : gset string → A → gset string) (l : list A) acc id :
  (∀ acc x, f acc x = acc ∧ ¬ P x ∨ f acc x = {[key x]} ∪ acc ∧ P x) →
  id ∈ foldl f acc l ↔ id ∈ acc ∨ ∃ x, x ∈ l ∧ P x ∧ key x = id.
Proof.
  intros Hf. revert acc; induction l as [|x l IH]; intros acc; simpl.
  { split; [by left|]. intros [?|(? & []%elem_of_nil & _)]; done. }
  rewrite IH. setoid_rewrite elem_of_cons. destruct (Hf acc x) as [[-> Hx]|[-> Hx]]; set_solver.
Qed.

Lemma discover_elem s closure id :
  id ∈ discover s closure ↔ id ∉ closure ∧ dependent s closure id.
Proof.
  unfold discover. erewrite (foldl_collect_elem (λ e : string * list StoredRevision, e.1 ∉ closure ∧
    has_tombstone s e.1 = false ∧ ∃ r, revision_at e.2 (head s) = Some r ∧
      depends_on closure (m_links (sr_record r)) = true) fst).
  - unfold dependent, current. setoid_rewrite depends_on_true. split.
    + intros [[]%elem_of_empty|([id' h] & Hin%bt_entries_elem & (Hnin & Ht & r & Hr & x & Hx & Hc) & <-)].
      split; [done|]. exists r, x. cbn [fst snd] in *. by rewrite Hin.
    + intros (Hnin & r & x & Hr & Ht & Hx & Hc). right.
      destruct (histories s !! id) as [h|] eqn:Hh; [|done]. exists (id, h). simpl in *.
      split; [by apply bt_entries_elem|]. split; [|done]. naive_solver.
  - intros acc [id' h]. cbn [fst snd]. case_bool_decide; [left; naive_solver|].
    destruct (has_tombstone s id'); simpl; [left; naive_solver|].
    destruct (revision_at h (head s)) as [r|]; [|left; naive_solver].
    destruct (depends_on closure _) eqn:Hd; [right; eauto 6|left].
    split; [done|]. intros (_ & _ & r0 & [= <-] & ?). congruence.
Qed.

(** The target of a deletion and everything that depends on it. *)
Inductive doomed (s : State) (target : string) : string → Prop :=
  | doomed_target : doomed s target target
  | doomed_dependent id x r :
      doomed s target x → current s id (head s) = Some r → has_tombstone s id = false →
      refers_to (m_links (sr_record r)) x → doomed s target id.

Lemma closure_terminates s target :
  ∃ c, loop_nat (S (size (histories s))) (closure_step s) {[target]} = inr c.
Proof.
  apply (loop_nat_terminates _ (λ _, True) (λ c, size (dom (histories s) ∖ c))); [|done|].
  - intros c c' _. unfold closure_step. case_bool_decide as Hd; [done|]. intros [= <-]. split; [done|].
    apply set_choose_L in Hd as [id Hid]. pose proof Hid as (Hnin & r & x & Hr & _)%discover_elem.
    apply subset_size. apply strict_spec_alt. split; [set_solver|]. intros Heq.
    assert (id ∈ dom (histories s) ∖ c) as Hin; [|set_solver].
    apply elem_of_difference. split; [|done]. apply elem_of_dom. unfold current in Hr.
    by destruct (histories s !! id).
  - apply Nat.lt_succ_r. rewrite <- (size_dom (histories s)). apply subseteq_size. set_solver.
Qed.

Lemma deletion_closure_spec s target id : id ∈ deletion_closure s target ↔ doomed s target id.
Proof.
  unfold deletion_closure. destruct (closure_terminates s target) as [c Hc]. rewrite Hc.
  assert ((∀ x, x ∈ c → doomed s target x) ∧ target ∈ c ∧ discover s c = ∅) as (Hsound & Htarget & Hdone).
  { eapply (loop_nat_invariant _ (λ c, (∀ x, x ∈ c → doomed s target x) ∧ target ∈ c)
      (λ c, (∀ x, x ∈ c → doomed s target x) ∧ target ∈ c ∧ discover s c = ∅)); [| |exact Hc].
    - intros c0 [Hs Ht]. unfold closure_step. case_bool_decide as Hd; [by auto|].
      split; [|set_solver]. intros x [Hx|Hx]%elem_of_union; [by apply Hs|].
      apply discover_elem in Hx as (_ & r & y & Hr & Hto & Hy & Hyc). eapply doomed_dependent; eauto.
    - split; [|set_solver]. intros x ->%elem_of_singleton. constructor. }
  split; [apply Hsound|]. induction 1 as [|id x r Hx IH Hr Ht Hrefers]; [done|].
  destruct (decide (id ∈ c)) as [|Hnin]; [done|].
  assert (id ∈ discover s c) as Hin; [|by rewrite Hdone in Hin].
  apply discover_elem. split; [done|]. by exists r, x.
Qed.

Lemma doomed_live s target id :
  has_tombstone s target = false → is_Some (histories s !! target) ∨ is_Some (observations s !! target) →
  doomed s target id → has_tombstone s id = false ∧ (is_Some (histories s !! id) ∨ is_Some (observations s !! id)).
Proof.
  intros Ht Hin. destruct 1 as [|id x r _ Hr Hto _]; [done|]. split; [done|]. left. unfold current in Hr.
  by destruct (histories s !! id).
Qed.

Lemma hard_delete_steps c d target requested_by reason d' :
  hard_delete d target requested_by reason c = Ok d' → rtc (draft_step c) d d'.
Proof.
  unfold hard_delete. destruct (_ || _ || _); [done|].
  destruct (has_tombstone d.1 target) eqn:Ht; [done|]. cbn [orb].
  case_bool_decide as Hh; case_bool_decide as Ho; [done|cbn [andb]; intros [= <-]..];
    (apply delete_many_steps; [apply bt_elements_NoDup|]; intros id Hid;
     apply (doomed_live d.1 target); [done| |by apply deletion_closure_spec, bt_elements_elem];
     rewrite <- !not_eq_None_Some; tauto).
Qed.

Lemma apply_mutation_steps c d mutation d' :
  apply_mutation c d mutation = Ok d' → rtc (draft_step c) d d'.
Proof.
  assert (∀ d target l d', revise_lifecycle d target l c = Ok d' → draft_step c d d') as Hrevise.
  { intros [s affected] target l d0. unfold revise_lifecycle. cbn [fst].
    destruct (has_tombstone s target); [done|]. intros Hd. res_inv. by eapply put_record_step. }
  destruct mutation as [record expected|target replacement|target|target requested_by reason]; simpl; intros Hm.
  - by eapply rtc_once, put_record_step.
  - destruct (negb _); [done|]. res_inv.
    etrans; [eapply rtc_once, Hrevise; done|]. by eapply rtc_once, put_record_step.
  - by eapply rtc_once, Hrevise.
  - by eapply hard_delete_steps.
Qed.

Lemma apply_mutations_steps c d muts d' :
  try_fold (apply_mutation c) d muts = Ok d' → rtc (draft_step c) d d'.
Proof.
  revert d; induction muts as [|m muts IH]; intros d; simpl; [by intros [= <-]|].
  intros Hm. res_inv. etrans; [by eapply apply_mutation_steps|by apply IH].
Qed.
End steps.

(** ** The invariant of the primary state *)

(** [serde_json] reads back the content of a record whose numbers are finite. *)
Class RefCodecLaws `{!RefCodec} := {
  content_roundtrip (c : RecordContent) v :
    bad_vector (rc_vector c) = false → to_value c = Ok v → from_value v = Ok c;
}.

Section invariant.
Context `{!RefCodec} `{!RefCodecLaws}.

(** The content of a reference is stored, and the reference is its digest. *)
Definition stored (s : State) (ref : ContentRef) (v : JsonValue) : Prop :=
  contents s !! content_id ref = Some v ∧ digest v = Ok (content_digest ref).

(** The reference was made for this class, owner and commit. *)
Definition keyed (class owner : string) (n : N) (ref : ContentRef) : Prop :=
  content_id ref = content_key class owner n (content_digest ref) ∧ colon_free (content_digest ref).

Definition journal_classes : list string := ["journal-observation"; "journal-semantic"; "journal-semantic-core"].

Definition event_request (e : JournalEvent) : ContentRef :=
  match e with ObservationAccepted _ _ r | SemanticPublished _ r _ => r end.

Record revision_ok (s : State) (id : string) (r : StoredRevision) : Prop := {
  revision_key : keyed "record" id (transaction_from r) (sr_content r);
  revision_valid_time : ValidTime_is_valid (m_valid_time (sr_record r)) = true;
  revision_stored : has_tombstone s id = false →
    ∃ v c, stored s (sr_content r) v ∧ from_value v = Ok c ∧ bad_vector (rc_vector c) = false;
}.

(** [n] bounds the commits of the revisions: the head, or the commit in progress. *)
Record primary_ok (n : N) (s : State) : Prop := {
  primary_histories id h : histories s !! id = Some h → history_ok id n h;
  primary_revisions id h r : histories s !! id = Some h → r ∈ h → revision_ok s id r;
  primary_observations id o : observations s !! id = Some o →
    ob_observation_id o = id ∧ (1 ≤ ob_accepted_seq o ≤ n)%N ∧ histories s !! id = None ∧
    keyed "observation" id (ob_accepted_seq o) (ob_content o) ∧
    (has_tombstone s id = false → ∃ v, stored s (ob_content o) v);
  primary_tombstones id : has_tombstone s id = true → is_Some (histories s !! id) ∨ is_Some (observations s !! id);
  primary_requests r : r ∈ journal s →
    ∃ class owner, class ∈ journal_classes ∧ keyed class owner (jr_commit_seq r) (event_request (jr_event r)) ∧
      (jr_commit_seq r ≤ n)%N;
}.

Lemma record_colon_free : colon_free "record".
Proof. by apply (bool_decide_unpack (colon ∉ text "record")). Qed.
Lemma observation_colon_free : colon_free "observation".
Proof. by apply (bool_decide_unpack (colon ∉ text "observation")). Qed.
Lemma journal_class_colon_free class : class ∈ journal_classes → colon_free class.
Proof.
  assert (Forall (λ class, colon ∉ text class) journal_classes) as Hall by (by apply (bool_decide_unpack _)).
  rewrite Forall_forall in Hall. apply Hall.
Qed.

Lemma keyed_inj class class' owner owner' n n' ref ref' :
  colon_free class → colon_free class' → keyed class owner n ref → keyed class' owner' n' ref' →
  content_id ref = content_id ref' → class = class' ∧ owner = owner' ∧ n = n' ∧ content_digest ref = content_digest ref'.
Proof.
  intros Hc Hc' [Hk Hd] [Hk' Hd'] Heq. rewrite Hk, Hk' in Heq. by apply content_key_inj in Heq.
Qed.

(** ** A step keeps the invariant *)

(** The journal record names [id]. *)
Definition concerns (id : string) (e : JournalEvent) : Prop :=
  match e with
  | ObservationAccepted observation_id _ _ => observation_id = id
  | SemanticPublished _ _ affected_ids => id ∈ affected_ids
  end.

Lemma journal_refs_of_elem id r ref :
  ref ∈ journal_refs_of id r ↔ concerns id (jr_event r) ∧ ref = content_id (event_request (jr_event r)).
Proof.
  unfold journal_refs_of, concerns, event_request.
  destruct (jr_event r); case_bool_decide; rewrite ?list_elem_of_singleton, ?elem_of_nil; naive_solver.
Qed.

Lemma or_cong (P P' Q Q' : Prop) : (P ↔ P') → (Q ↔ Q') → P ∨ Q ↔ P' ∨ Q'.
Proof. tauto. Qed.

Lemma erased_refs_elem s id ref :
  ref ∈ erased_refs s id ↔
  (∃ h r, histories s !! id = Some h ∧ r ∈ h ∧ ref = content_id (sr_content r)) ∨
  (∃ o, observations s !! id = Some o ∧ ref = content_id (ob_content o)) ∨
  (∃ r, r ∈ journal s ∧ concerns id (jr_event r) ∧ ref = content_id (event_request (jr_event r))).
Proof.
  unfold erased_refs. rewrite !elem_of_union, !elem_of_list_to_set, list_elem_of_fmap, list_elem_of_join.
  setoid_rewrite list_elem_of_fmap. rewrite <- (assoc (∨)). apply or_cong; [|apply or_cong].
  - destruct (histories s !! id) as [h|]; simpl; [|set_solver]. unfold compose. naive_solver.
  - destruct (observations s !! id) as [o|]; set_solver.
  - split.
    + intros (l & Hin & r & -> & Hr). apply journal_refs_of_elem in Hin as [? ->]. eauto.
    + intros (r & Hr & ? & ->). exists (journal_refs_of id r). rewrite journal_refs_of_elem. eauto.
Qed.

(** The classes of the contents of records and observations. *)
Definition primary_classes : list string := ["record"; "observation"].

Lemma primary_class_colon_free class : class ∈ primary_classes → colon_free class.
Proof.
  unfold primary_classes. rewrite elem_of_cons, list_elem_of_singleton.
  intros [-> | ->]; [apply record_colon_free|apply observation_colon_free].
Qed.

Lemma primary_class_not_journal class : class ∈ primary_classes → class ∉ journal_classes.
Proof. unfold primary_classes, journal_classes. set_solver. Qed.

(** Deleting [id] erases nothing of another identity. *)
Lemma erased_other n s id id' class m ref :
  primary_ok n s → class ∈ primary_classes → keyed class id' m ref → id ≠ id' → content_id ref ∉ erased_refs s id.
Proof.
  intros Hok Hclass Hkey Hne. pose proof (primary_class_colon_free _ Hclass) as Hfree.
  rewrite erased_refs_elem. intros [(h & r0 & Hh & Hr0 & Heq)|[(o & Ho & Heq)|(j & Hj & _ & Heq)]].
  - destruct (primary_revisions _ _ Hok _ _ _ Hh Hr0) as [Hkey0 _ _].
    by destruct (keyed_inj _ _ _ _ _ _ _ _ Hfree record_colon_free Hkey Hkey0 Heq) as (_ & <- & _).
  - destruct (primary_observations _ _ Hok _ _ Ho) as (_ & _ & _ & Hkey0 & _).
    by destruct (keyed_inj _ _ _ _ _ _ _ _ Hfree observation_colon_free Hkey Hkey0 Heq) as (_ & <- & _).
  - destruct (primary_requests _ _ Hok _ Hj) as (jclass & owner & Hc & Hkey0 & _).
    destruct (keyed_inj _ _ _ _ _ _ _ _ Hfree (journal_class_colon_free _ Hc) Hkey Hkey0 Heq) as (<- & _).
    by apply primary_class_not_journal in Hclass.
Qed.

Lemma stored_delete target requested_by reason c s affected id ref v :
  stored s ref v → content_id ref ∉ erased_refs s id →
  stored (delete_one target requested_by reason c (s, affected) id).1 ref v.
Proof.
  intros [Hc Hd] Hnin. split; [|done]. simpl. by apply map_lookup_filter_Some.
Qed.

Lemma delete_one_ok target requested_by reason c n s affected id :
  primary_ok n s → is_Some (histories s !! id) ∨ is_Some (observations s !! id) →
  primary_ok n (delete_one target requested_by reason c (s, affected) id).1.
Proof.
  intros Hok Hin. split.
  - intros id' h Hh. by apply (primary_histories _ _ Hok).
  - intros id' h r Hh Hr. destruct (primary_revisions _ _ Hok _ _ _ Hh Hr) as [Hk Hv Hs]. split; [done|done|].
    rewrite delete_one_tombstones. intros [Hne Ht]%orb_false_iff. apply bool_decide_eq_false_1 in Hne.
    destruct (Hs Ht) as (v & ct & Hst & Hrest). exists v, ct. split; [|done].
    apply stored_delete; [done|]. eapply erased_other; [done|by left|done|done].
  - intros id' o Ho. destruct (primary_observations _ _ Hok _ _ Ho) as (? & ? & ? & Hk & Hs).
    do 4 (split; [done|]). rewrite delete_one_tombstones. intros [Hne Ht]%orb_false_iff.
    apply bool_decide_eq_false_1 in Hne. destruct (Hs Ht) as (v & Hst). exists v.
    apply stored_delete; [done|]. eapply erased_other; [done|by right; left|done|done].
  - intros id'. rewrite delete_one_tombstones, orb_true_iff, bool_decide_eq_true.
    intros [<-|Ht]; [done|]. by apply (primary_tombstones _ _ Hok).
  - apply (primary_requests _ _ Hok).
Qed.

Lemma validate_record_inv s record c :
  validate_record s record c = Ok tt →
  trim_is_empty (lr_id record) = false ∧ ValidTime_is_valid (lr_valid_time record) = true ∧
  validate_access (lr_access record) = Ok tt ∧ bad_vector (lr_vector record) = false.
Proof.
  unfold validate_record. destruct (trim_is_empty _); [done|]. destruct (ValidTime_is_valid _); [|done]. simpl.
  intros ([] & Ha & Hv)%result_bind_Ok. by destruct (bad_vector _).
Qed.

Lemma elem_of_close_last c h r :
  r ∈ close_last c h → ∃ r0, r0 ∈ h ∧ strip r0 = strip r.
Proof.
  destruct (decide (h = [])) as [->|Hne]; [by intros ?%elem_of_nil|].
  apply exists_last in Hne as (pre & r0 & ->). rewrite close_last_snoc, elem_of_app, list_elem_of_singleton.
  intros [Hin| ->]; [exists r; set_solver|]. exists r0. split; [set_solver|done].
Qed.

(** What a revision has to satisfy does not depend on its end. *)
Lemma revision_ok_strip s id r r' : strip r = strip r' → revision_ok s id r → revision_ok s id r'.
Proof.
  intros [= _ _ Hfrom Hrec Hcont] [Hk Hv Hs]. split; rewrite <- ?Hfrom, <- ?Hrec, <- ?Hcont; done.
Qed.

(** The content of a reference survives a write under another key, and a write
    under the same key replaces it by content of the same digest. *)
Lemma stored_insert s content class owner m class' owner' m' ref v :
  colon_free class → colon_free class' → keyed class owner m ref → keyed class' owner' m' content.1 →
  digest content.2 = Ok (content_digest content.1) → stored s ref v →
  stored (insert_content s content) ref v ∨
  (class = class' ∧ owner = owner' ∧ stored (insert_content s content) ref content.2).
Proof.
  intros Hf Hf' Hk Hk' Hd [Hc Hdv]. unfold stored. simpl.
  destruct (decide (content_id content.1 = content_id ref)) as [Heq|Hne].
  - right. destruct (keyed_inj _ _ _ _ _ _ _ _ Hf Hf' Hk Hk') as (-> & -> & _ & Hdig); [done|].
    do 2 (split; [done|]). rewrite Heq, lookup_insert_eq. by rewrite Hdig.
  - left. by rewrite lookup_insert_ne.
Qed.

Lemma store_revision_revisions n c s record revision content id h r :
  primary_ok n s → validate_record s record c = Ok tt →
  make_content_ref "record" (lr_id record) c (record_content record) = Ok content →
  histories (store_revision s record revision c content) !! id = Some h → r ∈ h →
  revision_ok (store_revision s record revision c content) id r.
Proof.
  intros Hok (_ & Hvt & _ & Hvec)%validate_record_inv
    (Hval & Hdig & Hkey & Hfree)%make_content_ref_inv Hh Hr.
  assert (keyed "record" (lr_id record) c content.1) as Hkeyed by done.
  assert (∀ id h r, histories s !! id = Some h → r ∈ h → revision_ok (store_revision s record revision c content) id r)
    as Hold.
  { intros id0 h0 r0 Hh0 Hr0. destruct (primary_revisions _ _ Hok _ _ _ Hh0 Hr0) as [Hk Hv Hs].
    split; [done|done|]. intros Ht. destruct (Hs Ht) as (v & ct & Hst & Hfrom & Hbad).
    destruct (stored_insert s content "record" id0 (transaction_from r0) "record" (lr_id record) c (sr_content r0) v)
      as [Hst'|(_ & _ & Hst')]; try apply record_colon_free; try done; [by exists v, ct|].
    exists content.2, (record_content record). split; [done|]. split; [|done]. by apply content_roundtrip. }
  unfold store_revision in Hh. simpl in Hh.
  destruct (decide (lr_id record = id)) as [<-|Hne]; [|rewrite lookup_insert_ne in Hh by done; by eapply Hold].
  rewrite lookup_insert_eq in Hh. injection Hh as <-.
  apply elem_of_app in Hr as [Hr|Hr%list_elem_of_singleton].
  - destruct (histories s !! lr_id record) as [h0|] eqn:Hh0; [|by apply elem_of_nil in Hr].
    apply elem_of_close_last in Hr as (r0 & Hr0 & Hstrip).
    eapply revision_ok_strip; [exact Hstrip|]. by eapply Hold.
  - subst r. split; [done|done|]. intros _. exists content.2, (record_content record).
    split; [split; [|done]; simpl; by rewrite lookup_insert_eq|].
    split; [|done]. by apply content_roundtrip.
Qed.

Lemma store_revision_ok c s record revision content :
  primary_ok c s → (1 ≤ c)%N → validate_record s record c = Ok tt → observations s !! lr_id record = None →
  make_content_ref "record" (lr_id record) c (record_content record) = Ok content →
  primary_ok c (store_revision s record revision c content).
Proof.
  intros Hok Hc Hvalid Hobs Hcontent. split.
  - intros id h. unfold store_revision. simpl.
    destruct (decide (lr_id record = id)) as [<-|Hne]; [rewrite lookup_insert_eq|rewrite lookup_insert_ne by done].
    + intros [= <-]. apply (extend_ok c); try done. destruct (histories s !! lr_id record) as [h|] eqn:Hh; simpl; [|by right].
      left. by apply (primary_histories _ _ Hok).
    + apply (primary_histories _ _ Hok).
  - intros id h r. by eapply store_revision_revisions.
  - intros id o Ho. destruct (primary_observations _ _ Hok _ _ Ho) as (? & ? & Hnone & Hk & Hs).
    do 2 (split; [done|]). split; [|split; [done|]].
    + simpl. rewrite lookup_insert_ne; [done|]. intros <-. simpl in Ho. congruence.
    + intros Ht. destruct (Hs Ht) as (v & Hst). pose proof Hcontent as (_ & Hdig & Hkey & Hfree)%make_content_ref_inv.
      destruct (stored_insert s content "observation" id (ob_accepted_seq o) "record" (lr_id record) c (ob_content o) v)
        as [Hst'|(? & _)]; try done; try apply record_colon_free; try apply observation_colon_free.
      by exists v.
  - intros id Ht. destruct (primary_tombstones _ _ Hok id Ht) as [Hh|Ho]; [left|by right].
    simpl. apply lookup_insert_is_Some'. by right.
  - apply (primary_requests _ _ Hok).
Qed.

Lemma draft_step_ok c d d' : draft_step c d d' → (1 ≤ c)%N → primary_ok c d.1 → primary_ok c d'.1.
Proof.
  destruct 1; intros Hc Hok; [by apply store_revision_ok|by apply delete_one_ok].
Qed.

Lemma draft_steps_ok c d d' : rtc (draft_step c) d d' → (1 ≤ c)%N → primary_ok c d.1 → primary_ok c d'.1.
Proof. induction 1; [done|]. intros. by apply IHrtc; [|eapply draft_step_ok]. Qed.

Lemma primary_ok_mono n m s : primary_ok n s → (n ≤ m)%N → primary_ok m s.
Proof.
  intros Hok Hnm. split.
  - intros id h Hh. eapply history_ok_mono; [by apply (primary_histories _ _ Hok)|done].
  - apply (primary_revisions _ _ Hok).
  - intros id o Ho. destruct (primary_observations _ _ Hok _ _ Ho) as (? & ? & ?). split; [done|]. split; [lia|done].
  - apply (primary_tombstones _ _ Hok).
  - intros r Hr. destruct (primary_requests _ _ Hok r Hr) as (class & owner & ? & ? & ?).
    exists class, owner. do 2 (split; [done|]). lia.
Qed.

(** ** What a commit in progress leaves alone *)

Definition same_frame (s s' : State) : Prop :=
  head s' = head s ∧ database_id s' = database_id s ∧ watermarks s' = watermarks s ∧
  observations s' = observations s ∧ journal s' = journal s ∧ idempotency s' = idempotency s ∧
  journal_by_workspace (security_indexes s') = journal_by_workspace (security_indexes s) ∧
  events_by_workspace (security_indexes s') = events_by_workspace (security_indexes s).

Lemma draft_steps_frame c d d' : rtc (draft_step c) d d' → same_frame d.1 d'.1.
Proof.
  unfold same_frame. induction 1 as [|d d1 d2 Hstep _ IH]; [done|].
  destruct Hstep; naive_solver.
Qed.
End invariant.
