(* ===== verification/RefRuns.v ===== *)
(** * The reference engine: runs

    What an accepted write publishes, the invariant of every reachable state, and
    the runs of writes, crashes and failures that the theorems quantify over. *)

From stdpp Require Import pretty.
From S2P Require Import Prelude.
From S2P Require Import Ordering.
From S2P Require Import Bytes.
From S2P Require Import Json.
From S2P Require Import Format.
From S2P Require Import RefModel.
From S2P Require Import RefEngine.
From S2P Require Import RefReads.
From S2P Require Import RefKeys.
From S2P Require Import RefInvariant.

Section runs.
Context `{!RefCodec}.

(** ** Publications *)

(** The state that a write publishes, from the draft of its primary data. *)
Definition published_state (s draft : State) (key rd : string) (request : ContentRef * JsonValue)
    (event : JournalEvent) (record_digest : string) (ix : SecurityIndexes) : State :=
  let c := (head s + 1)%N in
  let record := MkJournalRecord c (jr_record_digest <$> last (journal s)) record_digest event in
  let wm := advance_watermarks (watermarks s) record in
  MkState (database_id s) c wm (histories draft) (observations draft) (tombstones draft)
    (journal s ++ [record]) (<[key := MkIdempotencyRecord rd (MkCommitReceipt c false rd wm)]> (idempotency s))
    (<[content_id request.1 := request.2]> (contents draft)) ix.

Inductive publication (s draft : State) (key rd : string) (request : ContentRef * JsonValue)
    (event : JournalEvent) : State → CommitReceipt → Prop :=
  | publication_intro record_digest ix candidates :
      (head s + 1 ≤ U64_MAX)%N → event_request event = request.1 →
      journal_digest (head s + 1) (jr_record_digest <$> last (journal s)) event = Ok record_digest →
      journal_event_workspace_candidates draft (head s + 1) event = Ok candidates →
      try_fold (index_workspace (len (journal s))) (security_indexes draft) (bt_entries candidates) = Ok ix →
      let next := published_state s draft key rd request event record_digest ix in
      rebuild_security_indexes next = Ok ix →
      publication s draft key rd request event next
        (MkCommitReceipt (head s + 1) false rd (watermarks next)).

(** The draft of an observation. *)
Definition observed (s : State) (input : ObservationInput) (content : ContentRef * JsonValue) : State :=
  let id := oi_observation_id input in
  let ix := security_indexes s in
  MkState (database_id s) (head s) (watermarks s) (histories s)
    (<[id := MkObservationRecord id (head s + 1) (oi_access input) content.1 (oi_metadata input)]> (observations s))
    (tombstones s) (journal s) (idempotency s) (<[content_id content.1 := content.2]> (contents s))
    (MkSecurityIndexes (histories_by_workspace ix)
       (add_member (workspace (oi_access input)) id (observations_by_workspace ix))
       (journal_by_workspace ix) (events_by_workspace ix)).

Lemma next_commit_Ok h c : next_commit h = Ok c ↔ c = (h + 1)%N ∧ (h + 1 ≤ U64_MAX)%N.
Proof. unfold next_commit. rewrite ok_or_Ok, checked_add_Some. done. Qed.

Lemma verify_security_indexes_Ok s :
  verify_security_indexes s = Ok tt ↔ rebuild_security_indexes s = Ok (security_indexes s).
Proof.
  unfold verify_security_indexes. destruct (rebuild_security_indexes s) as [ix|e]; simpl; [|done].
  case_bool_decide as Hne; naive_solver.
Qed.

(** The ends of both writes: the journal record, the head and the receipt. *)
Lemma finish_publication s draft c key rd request event wm prepared :
  database_id draft = database_id s → watermarks draft = watermarks s → journal draft = journal s →
  idempotency draft = idempotency s → c = (head s + 1)%N → (c ≤ U64_MAX)%N → event_request event = request.1 →
  wm = (λ w : Watermarks, advance_watermarks w (MkJournalRecord c None "" event)) →
  (let? next := append_journal (insert_content draft request) c event in
   record_receipt (set_head next c (wm (watermarks next))) key rd c) = Ok prepared →
  ∃ next receipt, prepared = inr (next, receipt) ∧ publication s draft key rd request event next receipt.
Proof.
  intros Hid Hwm Hj Hidem -> Hc Hev -> (next & Happ & Hrec)%result_bind_Ok.
  unfold append_journal in Happ. simpl in Happ. rewrite Hj in Happ. res_inv.
  unfold record_receipt in Hrec. simpl in Hrec. res_inv. rewrite verify_security_indexes_Ok in *. simpl in *.
  eexists _, _. split; [reflexivity|].
  match goal with Hd : journal_digest _ _ _ = Ok ?d, Hf : try_fold _ _ _ = Ok ?ix |- _ =>
    pose proof (publication_intro s draft key rd request event d ix) as Hpub end.
  unfold published_state in Hpub. simpl in Hpub. unfold set_head, set_idempotency, set_indexes, set_journal in *.
  simpl in *. rewrite Hid, Hwm, Hidem in *. exact (Hpub _ Hc Hev Hm Hm0 Hm1 Hm2).
Qed.

(** ** What the writes accept *)

Definition as_replay (r : CommitReceipt) : CommitReceipt :=
  MkCommitReceipt (cr_commit_seq r) true (cr_request_digest r) (cr_watermarks r).

Lemma replay_or_conflict_Ok s key rd r :
  replay_or_conflict s key rd = Ok r ↔
  match idempotency s !! key with
  | None => r = None
  | Some ir => ir_request_digest ir = rd ∧ r = Some (as_replay (ir_receipt ir))
  end.
Proof.
  unfold replay_or_conflict. destruct (idempotency s !! key) as [ir|]; [|naive_solver].
  case_bool_decide; naive_solver.
Qed.

Lemma replay_None s key rd : replay_or_conflict s key rd = Ok None → idempotency s !! key = None.
Proof. rewrite replay_or_conflict_Ok. destruct (idempotency s !! key); naive_solver. Qed.

Lemma prepare_observation_inv s input next receipt :
  prepare_observation s input = Ok (inr (next, receipt)) →
  let id := oi_observation_id input in
  ∃ rd content request,
    operation_digest "observe" input = Ok rd ∧ idempotency s !! key_digest (oi_idempotency_key input) = None ∧
    validate_access (oi_access input) = Ok tt ∧
    observations s !! id = None ∧ histories s !! id = None ∧ has_tombstone s id = false ∧
    make_content_ref "observation" id (head s + 1) (oi_content input) = Ok content ∧
    (∃ v, make_content_ref "journal-observation" id (head s + 1) (v : JsonValue) = Ok request) ∧
    publication s (observed s input content) (key_digest (oi_idempotency_key input)) rd request
      (ObservationAccepted id rd request.1) next receipt.
Proof.
  unfold prepare_observation. intros Hp. res_inv.
  unfold validate_observation in Hm. destruct (_ || _) in Hm; [done|].
  destruct a1 as [r|]; [done|]. apply replay_None in Hm1. destruct (_ || _ || _) eqn:Hused in Hk; [done|].
  rewrite !orb_false_iff, !bool_decide_eq_false, <- !eq_None_not_Some in Hused. destruct Hused as [[? ?] ?].
  apply result_bind_Ok in Hk as (c & [-> Hc]%next_commit_Ok & Hk).
  apply result_bind_Ok in Hk as (content & Hcontent & Hk).
  apply result_bind_Ok in Hk as (v & _ & Hk). apply result_bind_Ok in Hk as (request & Hreq & Hk).
  destruct (finish_publication s (observed s input content) (head s + 1) (key_digest (oi_idempotency_key input)) a0
    request (ObservationAccepted (oi_observation_id input) a0 request.1)
    (λ w, MkWatermarks (head s + 1) (wm_semantic w) (wm_lexical w) (wm_vector w) (wm_graph w))
    (inr (next, receipt))) as (next' & receipt' & [= <- <-] & Hpub); try done.
  exists a0, content, request. naive_solver.
Qed.

Lemma prepare_mutations_inv s base muts class key rd v prepared :
  prepare_mutations s base muts class key rd v = Ok prepared →
  ∃ draft affected w request next receipt,
    prepared = inr (next, receipt) ∧ base = head s ∧ v = Ok w ∧
    try_fold (apply_mutation (head s + 1)) (s, ∅) muts = Ok (draft, affected) ∧
    validate_complete_state draft (head s + 1) = Ok tt ∧
    make_content_ref class rd (head s + 1) w = Ok request ∧
    publication s draft key rd request (SemanticPublished rd request.1 affected) next receipt.
Proof.
  unfold prepare_mutations. destruct (N.eqb_spec base (head s)) as [->|]; [|done]. simpl.
  intros (c & [-> Hc]%next_commit_Ok & Hk)%result_bind_Ok.
  apply result_bind_Ok in Hk as ([draft affected] & Hdraft & Hk).
  apply result_bind_Ok in Hk as ([] & Hvalid & Hk). apply result_bind_Ok in Hk as (w & -> & Hk).
  apply result_bind_Ok in Hk as (request & Hreq & Hk).
  pose proof (draft_steps_frame _ _ _ (apply_mutations_steps _ _ _ _ Hdraft)) as (_ & ? & ? & _ & ? & ? & _).
  destruct (finish_publication s draft (head s + 1) key rd request (SemanticPublished rd request.1 affected)
    (λ w, MkWatermarks (head s + 1) (head s + 1) (head s + 1) (head s + 1) (head s + 1)) prepared)
    as (next & receipt & -> & Hpub); try done.
  exists draft, affected, w, request, next, receipt. done.
Qed.

(** ** Runs of writes *)

(** A write to the engine.  A canonical core mutation is represented by the
    transaction the adapter made of it and the JSON value of the request. *)
Inductive Write :=
  | WObserve (input : ObservationInput) (failpoint : Failpoint)
  | WCommit (transaction : SemanticTransaction) (failpoint : Failpoint)
  | WCore (transaction : SemanticTransaction) (request : JsonValue).

Definition prepare_core (s : State) (transaction : SemanticTransaction) (request : JsonValue) : Res Prepared :=
  if is_empty (mutations transaction)
  then Err (Invariant "canonical mutation has no material primary-state writes")
  else
  let? request_digest := operation_digest "semantic-core" request in
  let key := key_digest (st_idempotency_key transaction) in
  let? replay := replay_or_conflict s key request_digest in
  match replay with
  | Some receipt => Ok (inl receipt)
  | None =>
      prepare_mutations s (base_seq transaction) (mutations transaction) "journal-semantic-core" key
        request_digest (to_value_or request)
  end.

Definition run_write (s : State) (w : Write) : State * Res CommitReceipt :=
  match w with
  | WObserve input failpoint => observe_with_failpoint s input failpoint
  | WCommit transaction failpoint => commit_with_failpoint s transaction failpoint
  | WCore transaction request => commit_with_canonical_request s transaction request
  end.

Definition run (s : State) (ws : list Write) : State := foldl (λ s w, (run_write s w).1) s ws.

Definition prepare (s : State) (w : Write) : Res Prepared :=
  match w with
  | WObserve input _ => prepare_observation s input
  | WCommit transaction _ => prepare_commit s transaction
  | WCore transaction request => prepare_core s transaction request
  end.
Definition failpoint_of (w : Write) : Failpoint :=
  match w with WObserve _ failpoint | WCommit _ failpoint => failpoint | WCore _ _ => NoFailpoint end.
Definition write_key (w : Write) : string :=
  key_digest match w with
             | WObserve input _ => oi_idempotency_key input
             | WCommit transaction _ | WCore transaction _ => st_idempotency_key transaction
             end.
Definition write_digest (w : Write) : Res string :=
  match w with
  | WObserve input _ => operation_digest "observe" input
  | WCommit transaction _ => operation_digest "semantic" transaction
  | WCore _ request => operation_digest "semantic-core" request
  end.

Lemma run_write_eq s w : run_write s w = publish_prepared s (prepare s w) (failpoint_of w).
Proof. by destruct w. Qed.

(** How the primary data changes, and the event that the journal records. *)
Inductive change (s : State) : State → JournalEvent → Prop :=
  | change_observation input content rd ref :
      let id := oi_observation_id input in
      validate_access (oi_access input) = Ok tt →
      observations s !! id = None → histories s !! id = None → has_tombstone s id = false →
      make_content_ref "observation" id (head s + 1) (oi_content input) = Ok content →
      change s (observed s input content) (ObservationAccepted id rd ref)
  | change_semantic muts draft affected rd ref :
      try_fold (apply_mutation (head s + 1)) (s, ∅) muts = Ok (draft, affected) →
      validate_complete_state draft (head s + 1) = Ok tt →
      change s draft (SemanticPublished rd ref affected).

(** An accepted write changes the primary data and publishes the change. *)
Lemma prepare_inv s w next receipt :
  prepare s w = Ok (inr (next, receipt)) →
  ∃ draft rd request event class owner,
    change s draft event ∧ write_digest w = Ok rd ∧ idempotency s !! write_key w = None ∧
    class ∈ journal_classes ∧ keyed class owner (head s + 1) request.1 ∧
    publication s draft (write_key w) rd request event next receipt.
Proof.
  destruct w as [input f|transaction f|transaction request0]; simpl; intros Hp.
  - apply prepare_observation_inv in Hp as (rd & content & request & ? & ? & ? & ? & ? & ? & ? & (v & Hv) & Hpub).
    apply make_content_ref_inv in Hv as (_ & _ & Hk & Hf).
    eexists _, rd, request, _, "journal-observation", _. split; [by apply change_observation|].
    do 2 (split; [done|]). split; [by left|]. by split; [split|].
  - unfold prepare_commit in Hp. destruct (trim_is_empty _); [done|]. destruct (is_empty _); [done|].
    res_inv. destruct a0; [done|]. apply replay_None in Hm0.
    apply prepare_mutations_inv in Hk0 as (draft & affected & v & request & n & r & [= <- <-] & _ & _ & Hd & Hc & Hv & Hpub).
    apply make_content_ref_inv in Hv as (_ & _ & Hk & Hf).
    eexists draft, a, request, _, "journal-semantic", _. split; [by eapply change_semantic|].
    do 2 (split; [done|]). split; [by right; left|]. by split; [split|].
  - unfold prepare_core in Hp. destruct (is_empty _); [done|].
    res_inv. destruct a0; [done|]. apply replay_None in Hm0.
    apply prepare_mutations_inv in Hk0 as (draft & affected & v & request & n & r & [= <- <-] & _ & _ & Hd & Hc & Hv & Hpub).
    apply make_content_ref_inv in Hv as (_ & _ & Hk & Hf).
    eexists draft, a, request, _, "journal-semantic-core", _. split; [by eapply change_semantic|].
    do 2 (split; [done|]). split; [by right; right; left|]. by split; [split|].
Qed.

(** A write leaves the state as it was, or publishes. *)
Lemma run_write_cases s w :
  (run_write s w).1 = s ∨ ∃ receipt, prepare s w = Ok (inr ((run_write s w).1, receipt)).
Proof.
  rewrite run_write_eq. unfold publish_prepared. destruct (prepare s w) as [[r|[next r]]|e]; [by left| |by left].
  destruct (failpoint_of w); simpl; [right|by left|right]; by exists r.
Qed.
End runs.

(** ** The invariant of reachable states *)

Section wf.
Context `{!RefCodec} `{!RefCodecLaws}.

Definition journal_link (journal : list JournalRecord) (i : nat) (r : JournalRecord) : Prop :=
  jr_commit_seq r = (N.of_nat i + 1)%N ∧
  jr_previous_digest r = (jr_record_digest <$> last (take i journal)) ∧
  journal_digest (jr_commit_seq r) (jr_previous_digest r) (jr_event r) = Ok (jr_record_digest r).

Record wf (s : State) : Prop := {
  wf_primary : primary_ok (head s) s;
  wf_head : head s = len (journal s);
  wf_bound : (head s ≤ U64_MAX)%N;
  wf_id : trim_is_empty (database_id s) = false;
  wf_journal i r : journal s !! i = Some r → journal_link (journal s) i r;
  wf_index : rebuild_security_indexes s = Ok (security_indexes s);
  wf_watermarks : watermarks s = foldl advance_watermarks Watermarks_default (journal s);
}.

Lemma take_while_all {A} (f : A → bool) l : Forall (λ x, f x = true) l → take_while f l = l.
Proof. induction 1 as [|x l Hx _ IH]; simpl; [done|]. by rewrite Hx, IH. Qed.

Lemma watermarks_at_head s : wf s → watermarks_at s (head s) = watermarks s.
Proof.
  intros Hwf. unfold watermarks_at. rewrite take_while_all; [by rewrite (wf_watermarks _ Hwf)|].
  apply Forall_lookup. intros i r Hr. destruct (wf_journal _ Hwf _ _ Hr) as (-> & _).
  rewrite (wf_head _ Hwf). apply lookup_lt_Some in Hr. unfold len. apply N.leb_le. lia.
Qed.

Lemma primary_ok_next s s' n :
  primary_ok n s → histories s' = histories s → observations s' = observations s → tombstones s' = tombstones s →
  (∀ class owner m ref v, class ∈ primary_classes → keyed class owner m ref → stored s ref v → stored s' ref v) →
  (∀ r, r ∈ journal s' → r ∈ journal s ∨ ∃ class owner, class ∈ journal_classes ∧
    keyed class owner (jr_commit_seq r) (event_request (jr_event r)) ∧ (jr_commit_seq r ≤ n)%N) →
  primary_ok n s'.
Proof.
  intros Hok Hh Ho Ht Hst Hj.
  assert (∀ id, has_tombstone s' id = has_tombstone s id) as Htomb by (intros; unfold has_tombstone; by rewrite Ht).
  split; rewrite ?Hh, ?Ho; setoid_rewrite Htomb || idtac.
  - apply (primary_histories _ _ Hok).
  - intros id h r Hhist Hr. destruct (primary_revisions _ _ Hok _ _ _ Hhist Hr) as [Hk Hv Hs].
    split; [done|done|]. rewrite Htomb. intros Hno. destruct (Hs Hno) as (v & c & Hv' & ?). exists v, c.
    split; [|done]. eapply Hst; [by left|done|done].
  - intros id o Hob. destruct (primary_observations _ _ Hok _ _ Hob) as (? & ? & ? & Hk & Hs).
    do 4 (split; [done|]). intros Hno. destruct (Hs Hno) as (v & Hv'). exists v. eapply Hst; [by right; left|done|done].
  - apply (primary_tombstones _ _ Hok).
  - intros r [Hr|Hr]%Hj; [by apply (primary_requests _ _ Hok)|done].
Qed.

Lemma observed_ok s input content :
  wf s → validate_access (oi_access input) = Ok tt →
  observations s !! oi_observation_id input = None → histories s !! oi_observation_id input = None →
  has_tombstone s (oi_observation_id input) = false →
  make_content_ref "observation" (oi_observation_id input) (head s + 1) (oi_content input) = Ok content →
  primary_ok (head s + 1) (observed s input content).
Proof.
  intros Hwf _ Hobs Hhist Htomb (Hval & Hdig & Hkey & Hfree)%make_content_ref_inv.
  assert (primary_ok (head s + 1) s) as Hok by (apply primary_ok_mono with (head s); [apply wf_primary, Hwf|lia]).
  assert (∀ class owner m ref v, class ∈ primary_classes → keyed class owner m ref →
    owner ≠ oi_observation_id input ∨ class = "record" → stored s ref v → stored (observed s input content) ref v) as Hst.
  { intros class owner m ref v Hclass Hk Hother Hs.
    pose proof (primary_class_colon_free _ Hclass) as Hcf.
    destruct (stored_insert s content class owner m "observation" (oi_observation_id input) (head s + 1) ref v)
      as [?|(-> & -> & _)]; try done; [apply observation_colon_free|]. by destruct Hother. }
  split.
  - apply (primary_histories _ _ Hok).
  - intros id h r Hh Hr. destruct (primary_revisions _ _ Hok _ _ _ Hh Hr) as [Hk Hv Hs].
    split; [done|done|]. intros Hno. destruct (Hs Hno) as (v & c & Hv' & ?). exists v, c.
    split; [|done]. eapply Hst; [by left|done|by right|done].
  - intros id o. simpl. destruct (decide (oi_observation_id input = id)) as [<-|Hne].
    + rewrite lookup_insert_eq. intros [= <-]. simpl. split; [done|]. split; [lia|]. do 2 (split; [done|]).
      intros _. exists content.2. split; [|done]. simpl. by rewrite lookup_insert_eq.
    + rewrite lookup_insert_ne by done. intros Ho.
      destruct (primary_observations _ _ Hok _ _ Ho) as (? & ? & ? & Hk & Hs). do 4 (split; [done|]).
      intros Hno. destruct (Hs Hno) as (v & Hv'). exists v.
      eapply Hst; [by right; left|done|left; congruence|done].
  - intros id Ht. destruct (primary_tombstones _ _ Hok id Ht) as [?|?]; [by left|right].
    simpl. apply lookup_insert_is_Some'. by right.
  - apply (primary_requests _ _ Hok).
Qed.

Lemma change_ok s draft event : wf s → change s draft event → primary_ok (head s + 1) draft.
Proof.
  intros Hwf. destruct 1 as [|muts draft affected rd ref Hsteps]; [by apply observed_ok|].
  eapply (draft_steps_ok _ (s, ∅) (draft, affected)); [by eapply apply_mutations_steps|lia|].
  apply primary_ok_mono with (head s); [apply wf_primary, Hwf|lia].
Qed.

Lemma publication_wf s draft key rd request event next receipt class owner :
  wf s → primary_ok (head s + 1) draft → journal draft = journal s →
  class ∈ journal_classes → keyed class owner (head s + 1) request.1 →
  publication s draft key rd request event next receipt → wf next.
Proof.
  intros Hwf Hok Hj Hclass Hkey. destruct 1 as [record_digest ix candidates Hb Hev Hdigest _ _ next Hix].
  assert (journal next = journal s ++ [MkJournalRecord (head s + 1) (jr_record_digest <$> last (journal s)) record_digest event])
    as Hjn by done.
  split.
  - apply (primary_ok_next draft); try done.
    + intros class0 owner0 m ref v Hc0 Hk0 [Hs Hd]. split; [|done]. simpl. rewrite lookup_insert_ne; [done|].
      intros Heq. destruct (keyed_inj _ _ _ _ _ _ _ _ (journal_class_colon_free _ Hclass)
        (primary_class_colon_free _ Hc0) Hkey Hk0 Heq) as (-> & _).
      by apply primary_class_not_journal in Hc0.
    + intros r. rewrite Hjn, elem_of_app, Hj, list_elem_of_singleton. intros [?| ->]; [by left|right].
      exists class, owner. cbn [jr_event jr_commit_seq]. rewrite Hev. split; [done|]. split; [done|apply N.le_refl].
  - simpl. rewrite (wf_head _ Hwf), len_app. done.
  - done.
  - apply (wf_id _ Hwf).
  - rewrite Hjn. intros i r [Hr|[Hi Hr]]%lookup_snoc_Some.
    + destruct Hr as [Hlt Hr]. destruct (wf_journal _ Hwf _ _ Hr) as (? & Hprev & ?). split; [done|]. split; [|done].
      rewrite take_app_le by lia. done.
    + subst. simpl. split; [simpl; rewrite (wf_head _ Hwf); unfold len; lia|]. split; [|done].
      simpl. by rewrite take_app_length.
  - done.
  - rewrite Hjn, foldl_app. simpl. by rewrite (wf_watermarks _ Hwf).
Qed.

Lemma change_journal s draft event : change s draft event → journal draft = journal s.
Proof.
  destruct 1 as [|muts draft affected rd ref Hsteps]; [done|].
  by apply apply_mutations_steps, draft_steps_frame in Hsteps as (_ & _ & _ & _ & ? & _).
Qed.

Lemma ContextDb_new_wf id s : ContextDb_new id = Ok s → wf s.
Proof.
  unfold ContextDb_new. destruct (trim_is_empty id) eqn:Hid; [done|]. intros [= <-].
  split; [|done|vm_compute; done|done|by intros [|i]|done|done].
  split; simpl; intros *; try (by rewrite lookup_empty).
  by intros ?%elem_of_nil.
Qed.

Lemma prepare_wf s w next receipt : wf s → prepare s w = Ok (inr (next, receipt)) → wf next.
Proof.
  intros Hwf (draft & rd & request & event & class & owner & Hch & _ & _ & Hclass & Hkey & Hpub)%prepare_inv.
  eapply publication_wf; eauto using change_ok, change_journal.
Qed.

Lemma run_write_wf s w : wf s → wf (run_write s w).1.
Proof.
  intros Hwf. destruct (run_write_cases s w) as [->|(receipt & Hp)]; [done|]. by eapply prepare_wf.
Qed.

Lemma run_wf s ws : wf s → wf (run s ws).
Proof. revert s; induction ws as [|w ws IH]; intros s Hwf; simpl; [done|]. by apply IH, run_write_wf. Qed.

(** ** What writes keep *)

(** How a state evolves: nothing that a snapshot up to commit [n] sees changes but
    the ends of revisions, deletions are final, and content of commits up to [n]
    disappears only with the deletion of its record and never comes back. *)
Record evolves (n : N) (s s' : State) : Prop := {
  evolves_current id k : (k ≤ n)%N → strip <$> current s' id k = strip <$> current s id k;
  evolves_revisions id h r : histories s !! id = Some h → r ∈ h →
    ∃ h' r', histories s' !! id = Some h' ∧ r' ∈ h' ∧ strip r' = strip r;
  evolves_deleted id : has_tombstone s id = true → has_tombstone s' id = true ∧ histories s' !! id = histories s !! id;
  evolves_kept class owner m ref v : class ∈ primary_classes → (m ≤ n)%N → keyed class owner m ref →
    has_tombstone s' owner = false → contents s !! content_id ref = Some v → contents s' !! content_id ref = Some v;
  evolves_erased class owner m ref v : (colon_free class) → (m ≤ n)%N → keyed class owner m ref →
    contents s' !! content_id ref = Some v → contents s !! content_id ref = Some v;
  evolves_final class owner m ref v : class ∈ primary_classes → keyed class owner m ref →
    has_tombstone s owner = true → contents s' !! content_id ref = Some v → contents s !! content_id ref = Some v;
  evolves_observations id o : observations s !! id = Some o → observations s' !! id = Some o;
  evolves_tombstones id t : tombstones s !! id = Some t → tombstones s' !! id = Some t;
}.

Lemma evolves_refl n s : evolves n s s.
Proof. split; eauto. Qed.

Lemma evolves_tombstone_free n s s' id : evolves n s s' → has_tombstone s' id = false → has_tombstone s id = false.
Proof.
  intros He Ht. destruct (has_tombstone s id) eqn:Hs; [|done]. apply (evolves_deleted _ _ _ He) in Hs as [? _]. congruence.
Qed.

Lemma evolves_trans n m s1 s2 s3 : (n ≤ m)%N → evolves n s1 s2 → evolves m s2 s3 → evolves n s1 s3.
Proof.
  intros Hnm H1 H2. split.
  - intros id k Hk. rewrite (evolves_current _ _ _ H2) by lia. by apply (evolves_current _ _ _ H1).
  - intros id h r Hh Hr. destruct (evolves_revisions _ _ _ H1 _ _ _ Hh Hr) as (h2 & r2 & Hh2 & Hr2 & <-).
    by eapply (evolves_revisions _ _ _ H2).
  - intros id Ht. destruct (evolves_deleted _ _ _ H1 _ Ht) as [Ht2 <-]. by apply (evolves_deleted _ _ _ H2).
  - intros class owner k ref v Hc Hk Hkey Ht Hv. apply (evolves_kept _ _ _ H2 class owner k); [done|lia|done|done|].
    apply (evolves_kept _ _ _ H1 class owner k); try done. by eapply evolves_tombstone_free.
  - intros class owner k ref v Hc Hk Hkey Hv. apply (evolves_erased _ _ _ H1 class owner k); try done.
    apply (evolves_erased _ _ _ H2 class owner k); [done|lia|done|done].
  - intros class owner k ref v Hc Hkey Ht Hv. apply (evolves_final _ _ _ H1 class owner k); try done.
    apply (evolves_final _ _ _ H2 class owner k); try done. by apply (evolves_deleted _ _ _ H1).
  - intros id o Ho. by apply (evolves_observations _ _ _ H2), (evolves_observations _ _ _ H1).
  - intros id t Ht. by apply (evolves_tombstones _ _ _ H2), (evolves_tombstones _ _ _ H1).
Qed.

(** Content of one owner or class is untouched by a write of another. *)
Lemma lookup_insert_other_owner class owner m ref class' owner' m' (content : ContentRef * JsonValue)
    (cs : gmap string JsonValue) :
  colon_free class → colon_free class' → keyed class owner m ref → keyed class' owner' m' content.1 →
  class ≠ class' ∨ owner ≠ owner' →
  <[content_id content.1 := content.2]> cs !! content_id ref = cs !! content_id ref.
Proof.
  intros Hf Hf' Hk Hk' Hne. apply lookup_insert_ne. intros Heq.
  destruct (keyed_inj _ _ _ _ _ _ _ _ Hf' Hf Hk' Hk Heq) as (? & ? & _). naive_solver.
Qed.

(** Content under the key of one commit is untouched by a write at another. *)
Lemma lookup_insert_other_commit class owner m ref class' owner' m' (content : ContentRef * JsonValue)
    (cs : gmap string JsonValue) :
  colon_free class → colon_free class' → keyed class owner m ref → keyed class' owner' m' content.1 → m ≠ m' →
  <[content_id content.1 := content.2]> cs !! content_id ref = cs !! content_id ref.
Proof.
  intros Hf Hf' Hk Hk' Hne. apply lookup_insert_ne. intros Heq.
  by destruct (keyed_inj _ _ _ _ _ _ _ _ Hf' Hf Hk' Hk Heq) as (_ & _ & ? & _).
Qed.

Lemma store_evolves n c s record revision content :
  primary_ok c s → (n < c)%N → has_tombstone s (lr_id record) = false →
  make_content_ref "record" (lr_id record) c (record_content record) = Ok content →
  evolves n s (store_revision s record revision c content).
Proof.
  intros Hok Hn Ht (_ & _ & Hkey & Hfree)%make_content_ref_inv.
  assert (keyed "record" (lr_id record) c content.1) as Hk by done.
  assert (history_ok (lr_id record) c (default [] (histories s !! lr_id record)) ∨ default [] (histories s !! lr_id record) = []) as Hh.
  { destruct (histories s !! lr_id record) as [h|] eqn:Hh; [left|by right]. by apply (primary_histories _ _ Hok). }
  split.
  - intros id k Hkn. unfold current, store_revision. simpl.
    destruct (decide (lr_id record = id)) as [<-|Hne]; [rewrite lookup_insert_eq|by rewrite lookup_insert_ne].
    etrans; [apply (revision_at_extend_old c c _ _ k Hh); [done|lia]|]. by destruct (histories s !! lr_id record).
  - intros id h r Hhist Hr. unfold store_revision. simpl.
    destruct (decide (lr_id record = id)) as [<-|Hne]; [rewrite lookup_insert_eq|rewrite lookup_insert_ne by done; eauto].
    rewrite Hhist in Hh |- *. simpl in *. destruct Hh as [Hh| ->]; [|by apply elem_of_nil in Hr].
    apply history_ok_snoc_inv in Hh as (pre & r0 & -> & _). rewrite close_last_snoc. eexists _.
    apply elem_of_app in Hr as [Hr| ->%list_elem_of_singleton]; [exists r|exists (close_revision c r0)];
      (split; [done|]); (split; [|done]); set_solver.
  - intros id Htomb. split; [done|]. simpl. rewrite lookup_insert_ne; [done|]. intros <-. congruence.
  - intros class owner m ref v Hc Hm Hkr _ Hv. simpl. rewrite (lookup_insert_other_commit class owner m ref "record" (lr_id record) c);
      auto using primary_class_colon_free, record_colon_free; lia.
  - intros class owner m ref v Hc Hm Hkr. simpl. rewrite (lookup_insert_other_commit class owner m ref "record" (lr_id record) c);
      auto using record_colon_free; lia.
  - intros class owner m ref v Hc Hkr Howner. simpl.
    rewrite (lookup_insert_other_owner class owner m ref "record" (lr_id record) c);
      auto using primary_class_colon_free, record_colon_free. right. intros ->. congruence.
  - done.
  - done.
Qed.

Lemma delete_evolves n m target requested_by reason c s affected id :
  primary_ok m s → has_tombstone s id = false →
  evolves n s (delete_one target requested_by reason c (s, affected) id).1.
Proof.
  intros Hok Hlive. split; try done.
  - intros id0 h r Hh Hr. by exists h, r.
  - intros id0 Ht. rewrite delete_one_tombstones, Ht. by destruct (bool_decide _).
  - intros class owner k ref v Hc _ Hk Ht Hv. rewrite delete_one_tombstones, orb_false_iff, bool_decide_eq_false in Ht.
    destruct Ht as [Hne Ht]. simpl. apply map_lookup_filter_Some. split; [done|]. by eapply erased_other.
  - intros class owner k ref v _ _ _. simpl. by intros [? _]%map_lookup_filter_Some.
  - intros class owner k ref v _ _ _. simpl. by intros [? _]%map_lookup_filter_Some.
  - intros id0 t Ht. simpl. rewrite lookup_insert_ne; [done|]. intros <-. unfold has_tombstone in Hlive. by rewrite Ht in Hlive.
Qed.

Lemma draft_steps_evolve n c d d' :
  rtc (draft_step c) d d' → (n < c)%N → primary_ok c d.1 → evolves n d.1 d'.1.
Proof.
  induction 1 as [d|d d1 d2 Hstep Hsteps IH]; intros Hn Hok; [apply evolves_refl|].
  apply evolves_trans with n d1.1; [done| |].
  - destruct Hstep; [by eapply store_evolves|by eapply delete_evolves].
  - apply IH; [done|]. eapply draft_step_ok; [done|lia|done].
Qed.

Lemma change_evolves s draft event : wf s → change s draft event → evolves (head s) s draft.
Proof.
  intros Hwf. destruct 1 as [input content rd ref id Ha Hobs Hh Ht Hcontent|muts draft affected rd ref Hsteps].
  - apply make_content_ref_inv in Hcontent as (_ & _ & Hkey & Hfree).
    assert (keyed "observation" id (head s + 1) content.1) as Hk by done. split; try done.
    + intros id0 h r Hh0 Hr. by exists h, r.
    + intros class owner m ref' v Hc Hm Hkr _ Hv. simpl.
      rewrite (lookup_insert_other_commit class owner m ref' "observation" id (head s + 1));
        auto using primary_class_colon_free, observation_colon_free; lia.
    + intros class owner m ref' v Hc Hm Hkr. simpl.
      rewrite (lookup_insert_other_commit class owner m ref' "observation" id (head s + 1));
        auto using observation_colon_free; lia.
    + intros class owner m ref' v Hc Hkr Howner. simpl.
      rewrite (lookup_insert_other_owner class owner m ref' "observation" id (head s + 1));
        auto using primary_class_colon_free, observation_colon_free. right. intros ->. unfold id in *. congruence.
    + intros id0 o Ho. simpl. rewrite lookup_insert_ne; [done|]. intros Heq. subst id0. unfold id in Hobs. congruence.
  - eapply (draft_steps_evolve _ (head s + 1) (s, ∅) (draft, affected)); [by eapply apply_mutations_steps|lia|].
    apply primary_ok_mono with (head s); [apply wf_primary, Hwf|lia].
Qed.

Lemma publication_evolves s draft key rd request event next receipt class owner :
  class ∈ journal_classes → keyed class owner (head s + 1) request.1 →
  publication s draft key rd request event next receipt → evolves (head s) draft next.
Proof.
  intros Hclass Hkey. destruct 1 as [record_digest ix candidates _ _ _ _ _ next _]. split; try done.
  - intros id h r Hh Hr. by exists h, r.
  - intros class0 owner0 m ref v Hc Hm Hk _ Hv. simpl.
    rewrite (lookup_insert_other_commit class0 owner0 m ref class owner (head s + 1));
      auto using primary_class_colon_free, journal_class_colon_free; lia.
  - intros class0 owner0 m ref v Hc Hm Hk. simpl.
    rewrite (lookup_insert_other_commit class0 owner0 m ref class owner (head s + 1));
      auto using journal_class_colon_free; lia.
  - intros class0 owner0 m ref v Hc Hk _. simpl.
    rewrite (lookup_insert_other_owner class0 owner0 m ref class owner (head s + 1));
      auto using primary_class_colon_free, journal_class_colon_free.
    left. intros ->. by apply primary_class_not_journal in Hc.
Qed.

Lemma run_write_evolves s w : wf s → evolves (head s) s (run_write s w).1 ∧ (head s ≤ head (run_write s w).1)%N.
Proof.
  intros Hwf. destruct (run_write_cases s w) as [->|(receipt & Hp)]; [split; [apply evolves_refl|done]|].
  apply prepare_inv in Hp as (draft & rd & request & event & class & owner & Hch & _ & _ & Hclass & Hkey & Hpub).
  split.
  - apply evolves_trans with (head s) draft; [done|by eapply change_evolves|by eapply publication_evolves].
  - destruct Hpub. simpl. lia.
Qed.

Lemma run_evolves s ws : wf s → evolves (head s) s (run s ws) ∧ (head s ≤ head (run s ws))%N.
Proof.
  revert s; induction ws as [|w ws IH]; intros s Hwf; simpl; [split; [apply evolves_refl|done]|].
  destruct (run_write_evolves s w Hwf) as [He Hh]. destruct (IH (run_write s w).1 (run_write_wf s w Hwf)) as [He' Hh'].
  split; [|lia]. by eapply evolves_trans.
Qed.
End wf.
