(* ===== verification/RefHistory.v ===== *)
(** * The reference engine: reads over time

    Reads of a retained snapshot are stable, a put record is read back, a hard
    deletion is final and erases, retries are answered from the first publication,
    and single-valued claims stay unambiguous, over every run of writes, failures
    and crashes. *)

From S2P Require Import Prelude.
From S2P Require Import Ordering.
From S2P Require Import Bytes.
From S2P Require Import Json.
From S2P Require Import Format.
From S2P Require Import RefModel.
From S2P Require Import RefEngine.
From S2P Require Import RefReads.
From S2P Require Import RefKeys.
From S2P Require Import RefInvariant.
From S2P Require Import RefRuns.

Section history.
Context `{!RefCodec} `{!RefCodecLaws}.

(** The states that a new database can get into. *)
Definition reachable (s : State) : Prop := ∃ id s0 ws, ContextDb_new id = Ok s0 ∧ s = run s0 ws.

Lemma reachable_wf s : reachable s → wf s.
Proof. intros (id & s0 & ws & Hnew & ->). by eapply run_wf, ContextDb_new_wf. Qed.

Lemma reachable_run s ws : reachable s → reachable (run s ws).
Proof.
  intros (id & s0 & ws0 & Hnew & ->). exists id, s0, (ws0 ++ ws). split; [done|]. unfold run. by rewrite foldl_app.
Qed.

(** ** Materialisation *)

(** The content of a live revision can be materialised. *)
Lemma materialize_live s id r k :
  wf s → has_tombstone s id = false → current s id k = Some r →
  ∃ c, materialize_revision s r = Ok (MkMaterializedRecord r c) ∧
    ∃ v, stored s (sr_content r) v ∧ from_value v = Ok c.
Proof.
  intros Hwf Ht Hr. unfold current in Hr. destruct (histories s !! id) as [h|] eqn:Hh; [|done]. simpl in Hr.
  pose proof (primary_histories _ _ (wf_primary _ Hwf) _ _ Hh) as Hok.
  destruct (revision_at_from _ _ _ _ Hok Hr) as [_ Hin].
  destruct (primary_revisions _ _ (wf_primary _ Hwf) _ _ _ Hh Hin) as [_ _ Hs].
  destruct (Hs Ht) as (v & c & [Hv Hd] & Hc & _). exists c. split; [|by exists v].
  unfold materialize_revision, content_for_revision. rewrite Hv. simpl. rewrite Hd. simpl.
  rewrite bool_decide_eq_false_2 by tauto. by rewrite Hc.
Qed.

Lemma materialize_inv s r m :
  materialize_revision s r = Ok m →
  mr_revision m = r ∧ ∃ v, stored s (sr_content r) v ∧ from_value v = Ok (mr_content m).
Proof.
  unfold materialize_revision, content_for_revision. intros (c & Hc & [= <-])%result_bind_Ok. split; [done|].
  apply result_bind_Ok in Hc as (v & Hv%ok_or_Ok & Hc). apply result_bind_Ok in Hc as (d & Hd & Hc).
  case_bool_decide as Hne; [done|]. subst d. apply map_err_Ok in Hc. by exists v.
Qed.

Lemma current_from s id k r : wf s → current s id k = Some r → (transaction_from r ≤ k)%N ∧ revision_ok s id r ∧ sr_id r = id.
Proof.
  intros Hwf Hr. unfold current in Hr. destruct (histories s !! id) as [h|] eqn:Hh; [|done]. simpl in Hr.
  pose proof (primary_histories _ _ (wf_primary _ Hwf) _ _ Hh) as Hok.
  destruct (revision_at_from _ _ _ _ Hok Hr) as [Hk Hin]. split; [done|].
  split; [by eapply (primary_revisions _ _ (wf_primary _ Hwf))|]. clear -Hok Hin.
  induction Hok as [r0 Hid|pre r0 r1 Hok IH Hid _ _]; [by apply list_elem_of_singleton in Hin as ->|].
  apply elem_of_app in Hin as [[Hin| ->%list_elem_of_singleton]%elem_of_app| ->%list_elem_of_singleton]; [| |done].
  - apply IH, elem_of_app. by left.
  - apply history_ok_snoc_inv in Hok as (pre' & r' & [_ ->]%app_inj_tail & ? & _). done.
Qed.

(** A successful read of a record: the checks that passed and the content. *)
Lemma get_Ok s id snap p m :
  get s id snap p = Ok m ↔
  validate_snapshot_handle s snap = Ok tt ∧ has_tombstone s id = false ∧
  current s id (snap_commit_seq snap) = Some (mr_revision m) ∧ current_use_policy_allows s id p = true ∧
  Principal_allows p (m_access (sr_record (mr_revision m))) = true ∧
  materialize_revision s (mr_revision m) = Ok m.
Proof.
  unfold get, materialize_at. rewrite result_bind_Ok. split.
  - intros ([] & Hs & Hm). destruct (has_tombstone s id); [done|]. res_inv.
    destruct (current_use_policy_allows s id p); [|done]. simpl in Hk.
    destruct (Principal_allows p (m_access (sr_record a))) eqn:Ha; [|done]. simpl in Hk.
    pose proof (materialize_inv _ _ _ Hk) as [<- _]. done.
  - intros (Hs & -> & Hr & Hp & Ha & Hm). exists tt. split; [done|]. rewrite Hr. simpl. rewrite Hp, Ha. done.
Qed.

(** ** Stability of snapshots *)

Lemma run_database_id s ws : database_id (run s ws) = database_id s.
Proof.
  revert s; induction ws as [|w ws IH]; intros s; [done|].
  change (run s (w :: ws)) with (run (run_write s w).1 ws). rewrite IH.
  destruct (run_write_cases s w) as [->|(receipt & Hp)]; [done|].
  apply prepare_inv in Hp as (draft & rd & request & event & class & owner & _ & _ & _ & _ & _ & Hpub).
  by inversion Hpub.
Qed.

Lemma validate_snapshot_handle_run s ws snap :
  wf s → validate_snapshot_handle s snap = Ok tt → validate_snapshot_handle (run s ws) snap = Ok tt.
Proof.
  intros Hwf. destruct (run_evolves s ws Hwf) as [_ Hh].
  unfold validate_snapshot_handle, validate_snapshot. rewrite run_database_id. case_bool_decide; [done|].
  destruct (N.ltb_spec (head s) (snap_commit_seq snap)); [done|].
  destruct (N.ltb_spec (head (run s ws)) (snap_commit_seq snap)); [lia|done].
Qed.

Lemma validate_snapshot_handle_le s snap :
  validate_snapshot_handle s snap = Ok tt → (snap_commit_seq snap ≤ head s)%N.
Proof.
  unfold validate_snapshot_handle, validate_snapshot. case_bool_decide; [done|].
  by destruct (N.ltb_spec (head s) (snap_commit_seq snap)).
Qed.

(** C6: A snapshot that could be read stays readable with the same
    result: after any later writes, crashes and failures, a caller whom the
    current policy still allows gets the same revision (up to the end it may have
    got) with the same content, unless the record has been deleted. *)
Theorem snapshot_reads_are_stable s ws id snap p m :
  reachable s → get s id snap p = Ok m →
  has_tombstone (run s ws) id = false → current_use_policy_allows (run s ws) id p = true →
  ∃ m', get (run s ws) id snap p = Ok m' ∧ mr_content m' = mr_content m ∧ strip (mr_revision m') = strip (mr_revision m).
Proof.
  intros Hreach Hget Ht Hp. pose proof (reachable_wf _ Hreach) as Hwf. pose proof (run_wf s ws Hwf) as Hwf'.
  apply get_Ok in Hget as (Hsnap & Ht0 & Hcur & _ & Hallow & Hmat).
  destruct (run_evolves s ws Hwf) as [He _].
  pose proof (evolves_current _ _ _ He id _ (validate_snapshot_handle_le _ _ Hsnap)) as Hstrip.
  rewrite Hcur in Hstrip. simpl in Hstrip.
  destruct (current (run s ws) id (snap_commit_seq snap)) as [r'|] eqn:Hcur'; [|done]. simpl in Hstrip.
  injection Hstrip as Hid Hrev Hfrom Hrec Hcont.
  destruct (materialize_live _ _ _ _ Hwf' Ht Hcur') as (c & Hmat' & v' & [Hv' Hd'] & Hc').
  apply materialize_inv in Hmat as (_ & v & [Hv Hd] & Hc).
  destruct (current_from _ _ _ _ Hwf Hcur) as (Hle & [Hkey _ _] & _).
  assert (contents (run s ws) !! content_id (sr_content (mr_revision m)) = Some v) as Hkept.
  { eapply (evolves_kept _ _ _ He "record" id); [by left| |exact Hkey|done|done].
    pose proof (validate_snapshot_handle_le _ _ Hsnap). lia. }
  rewrite Hcont, Hkept in Hv'. injection Hv' as <-.
  exists (MkMaterializedRecord r' c). split; [|split].
  - apply get_Ok. simpl. rewrite Hrec. split; [by apply validate_snapshot_handle_run|]. done.
  - simpl. congruence.
  - unfold strip. simpl. congruence.
Qed.

(** ** Read your writes *)

Lemma enumerate_snoc {A} (l : list A) x : enumerate (l ++ [x]) = enumerate l ++ [(len l, x)].
Proof. unfold enumerate. rewrite imap_app. simpl. by rewrite Nat.add_0_r. Qed.

(** An acknowledged commit that is not a replay was prepared and published. *)
Lemma commit_published s txn s' receipt :
  commit s txn = (s', Ok receipt) → cr_replayed receipt = false → prepare_commit s txn = Ok (inr (s', receipt)).
Proof.
  unfold commit, commit_with_failpoint, publish_prepared.
  destruct (prepare_commit s txn) as [[r|[next r]]|e] eqn:Hp; simpl; intros [= <- <-] Hrep; [|done].
  exfalso. revert Hp Hrep. unfold prepare_commit. destruct (trim_is_empty _); [done|]. destruct (is_empty _); [done|].
  intros Hp. res_inv. destruct a0 as [r0|].
  - injection Hk0 as <-. apply replay_or_conflict_Ok in Hm0. destruct (idempotency s !! _); [|done].
    by destruct Hm0 as [_ [= ->]].
  - by apply prepare_mutations_inv in Hk0 as (? & ? & ? & ? & ? & ? & ? & _).
Qed.

Lemma prepare_commit_inv s txn next receipt :
  prepare_commit s txn = Ok (inr (next, receipt)) →
  ∃ draft affected rd request,
    operation_digest "semantic" txn = Ok rd ∧
    try_fold (apply_mutation (head s + 1)) (s, ∅) (mutations txn) = Ok (draft, affected) ∧
    validate_complete_state draft (head s + 1) = Ok tt ∧
    (∃ v, to_value txn = Ok v ∧ make_content_ref "journal-semantic" rd (head s + 1) v = Ok request) ∧
    publication s draft (key_digest (st_idempotency_key txn)) rd request
      (SemanticPublished rd request.1 affected) next receipt.
Proof.
  unfold prepare_commit. destruct (trim_is_empty _); [done|]. destruct (is_empty _); [done|].
  intros Hp. res_inv. destruct a0 as [r0|]; [done|].
  apply prepare_mutations_inv in Hk0 as (draft & affected & v & request & n & r & [= <- <-] & _ & Hv & Hd & Hc & Hreq & Hpub).
  unfold to_value_or in Hv. apply map_err_Ok in Hv. exists draft, affected, a, request. eauto 10.
Qed.

Lemma put_record_inv d record expected c d' :
  put_record d record expected c = Ok d' →
  ∃ revision content, d' = (store_revision d.1 record revision c content, {[lr_id record]} ∪ d.2) ∧
    make_content_ref "record" (lr_id record) c (record_content record) = Ok content ∧
    has_tombstone d.1 (lr_id record) = false ∧ validate_record d.1 record c = Ok tt ∧
    revision = match current d.1 (lr_id record) (head d.1) with
               | Some r => saturating_add U32_MAX (sr_revision r) 1
               | None => 1%N
               end ∧ (revision < U32_MAX)%N.
Proof.
  intros Hput. destruct d as [s affected].
  unfold put_record in Hput. apply result_bind_Ok in Hput as ([] & Hv & Hput).
  destruct (has_tombstone s (lr_id record)) eqn:Ht; [done|]. cbn [orb] in Hput. case_bool_decide; [done|].
  apply result_bind_Ok in Hput as ([] & _ & Hput).
  destruct (match current s _ _ with Some r => bool_decide (m_kind _ ≠ _) | None => _ end); [done|].
  destruct (match current s _ _ with Some r => bool_decide (workspace _ ≠ _) | None => _ end); [done|].
  destruct (_ =? U32_MAX)%N eqn:Hmax; [done|]. apply result_bind_Ok in Hput as (content & Hcontent & [= <-]).
  eexists _, content. split; [reflexivity|]. do 4 (split; [done|]). apply N.eqb_neq in Hmax. cbn [fst].
  destruct (current s (lr_id record) (head s)) as [r|]; [|done].
  pose proof (saturating_add_le U32_MAX (sr_revision r) 1). lia.
Qed.

(** A record put last in an acknowledged commit is read back at the
    new snapshot, by every caller its access label allows, with exactly the content
    and metadata that were put, as the revision of that commit. *)
Theorem put_is_read_back s txn pre record expected s' receipt p :
  reachable s → mutations txn = pre ++ [Put record expected] →
  commit s txn = (s', Ok receipt) → cr_replayed receipt = false →
  Principal_allows p (lr_access record) = true → lr_lifecycle record ≠ Suppressed → lr_lifecycle record ≠ Retracted →
  ∃ m, get s' (lr_id record) (snapshot s') p = Ok m ∧ mr_content m = record_content record ∧
    sr_record (mr_revision m) = record_metadata record ∧
    transaction_from (mr_revision m) = cr_commit_seq receipt ∧ cr_commit_seq receipt = head s'.
Proof.
  intros Hreach Hmuts Hcommit Hrep Hallow Hns Hnr. pose proof (reachable_wf _ Hreach) as Hwf.
  pose proof (commit_published _ _ _ _ Hcommit Hrep) as Hprep.
  pose proof (prepare_wf s (WCommit txn NoFailpoint) s' receipt Hwf Hprep) as Hwf'.
  apply prepare_commit_inv in Hprep as (draft & affected & rd & request & _ & Hfold & _ & (w & _ & Hreq) & Hpub).
  rewrite Hmuts, try_fold_app in Hfold. apply result_bind_Ok in Hfold as (d & _ & Hfold). simpl in Hfold.
  apply result_bind_Ok in Hfold as (d' & Hput & [= ->]).
  apply put_record_inv in Hput as (revision & content & [= -> _] & Hcontent & Ht & Hvalid & _ & _).
  pose proof Hcontent as (Hval & _ & Hkey & Hfree)%make_content_ref_inv.
  apply make_content_ref_inv in Hreq as (_ & _ & Hkeyr & Hfreer).
  pose proof Hvalid as (_ & _ & _ & Hvec)%validate_record_inv.
  set (stored_r := MkStoredRevision (lr_id record) revision (head s + 1) None (record_metadata record) content.1).
  assert (current s' (lr_id record) (head s') = Some stored_r ∧ has_tombstone s' (lr_id record) = false ∧
    head s' = (head s + 1)%N ∧ cr_commit_seq receipt = (head s + 1)%N) as (Hcur & Ht' & Hh & Hseq).
  { destruct Hpub. split; [|done]. unfold current. simpl. rewrite lookup_insert_eq. simpl.
    apply (revision_at_extend_new (head s + 1) _ stored_r); [done|done|lia]. }
  destruct (materialize_live _ _ _ _ Hwf' Ht' Hcur) as (c & Hmat & v & [Hv Hd] & Hc).
  exists (MkMaterializedRecord stored_r c). split; [|split; [|by rewrite Hseq]].
  - apply get_Ok. simpl. split; [|split; [done|split; [done|]]].
    + unfold validate_snapshot_handle, validate_snapshot. simpl. rewrite bool_decide_eq_false_2 by tauto.
      by rewrite N.ltb_irrefl.
    + split; [|done]. unfold current_use_policy_allows. rewrite Ht', Hcur. simpl. by destruct (lr_lifecycle record).
  - simpl. assert (contents s' !! content_id content.1 = Some content.2) as Hs.
    { destruct Hpub. simpl.
      rewrite (lookup_insert_other_owner "record" (lr_id record) (head s + 1) content.1 "journal-semantic" rd (head s + 1));
        [by rewrite lookup_insert_eq|apply record_colon_free|apply journal_class_colon_free; by right; left|done|done|by left]. }
    simpl in Hv. rewrite Hs in Hv. injection Hv as <-. rewrite (content_roundtrip (record_content record) _ Hvec Hval) in Hc. by injection Hc.
Qed.
End history.
