(* ===== verification/RefQuery.v ===== *)
(** * The reference engine: what scans and searches return

    The workspace index holds exactly the live records of a workspace, so a scan or
    a search over it returns exactly what the authorised read of single records
    returns, in a fixed order. *)

From S2P Require Import Prelude.
From S2P Require Import Ordering.
From S2P Require Import Bytes.
From S2P Require Import Ieee.
From S2P Require Import Json.
From S2P Require Import Format.
From S2P Require Import RefModel.
From S2P Require Import RefEngine.
From S2P Require Import RefReads.
From S2P Require Import RefKeys.
From S2P Require Import RefInvariant.
From S2P Require Import RefRuns.
From S2P Require Import RefHistory.

(** ** The index of live records *)

Lemma index_workspace_members i ix e ix' :
  index_workspace i ix e = Ok ix' →
  histories_by_workspace ix' = histories_by_workspace ix ∧ observations_by_workspace ix' = observations_by_workspace ix.
Proof. destruct e as [w cs]. unfold index_workspace. intros Hix. by res_inv. Qed.

Lemma index_workspaces_members i ix es ix' :
  try_fold (index_workspace i) ix es = Ok ix' →
  histories_by_workspace ix' = histories_by_workspace ix ∧ observations_by_workspace ix' = observations_by_workspace ix.
Proof.
  revert ix; induction es as [|e es IH]; intros ix; simpl; [by intros [= <-]|].
  intros (ix1 & [<- <-]%index_workspace_members & Hix)%result_bind_Ok. by apply IH.
Qed.

Lemma rebuild_members s ix :
  rebuild_security_indexes s = Ok ix →
  histories_by_workspace ix = rebuild_histories s ∧ observations_by_workspace ix = rebuild_observations s.
Proof.
  unfold rebuild_security_indexes. intros Hix.
  eapply (try_fold_invariant (λ _ ix, histories_by_workspace ix = rebuild_histories s ∧
    observations_by_workspace ix = rebuild_observations s) _ _ []); [| |exact Hix]; [done|].
  intros _ acc [i r] acc' [Hh Ho] Hr. unfold rebuild_record in Hr. res_inv.
  apply index_workspaces_members in Hk as [-> ->]. done.
Qed.

Definition members (m : gmap string (gset string)) (w : string) : gset string := default ∅ (m !! w).

Lemma members_add_member w id m w' :
  members (add_member w id m) w' = if decide (w = w') then {[id]} ∪ members m w else members m w'.
Proof.
  unfold members, add_member, update_default. case_decide as Hw; [subst|].
  - by rewrite lookup_insert_eq.
  - by rewrite lookup_insert_ne.
Qed.

Lemma foldl_members {A} (P : A → string → Prop) (key : A → string) (f : gmap string (gset string) → A → _) l m w id :
  (∀ m x w, (∀ w, P x w → members (f m x) w = {[key x]} ∪ members m w) ∧
            (¬ P x w → members (f m x) w = members m w)) →
  (∀ x w, Decision (P x w)) →
  id ∈ members (foldl f m l) w ↔ id ∈ members m w ∨ ∃ x, x ∈ l ∧ P x w ∧ key x = id.
Proof.
  intros Hf Hdec. revert m; induction l as [|x l IH]; intros m; simpl.
  { split; [by left|]. intros [?|(? & []%elem_of_nil & _)]; done. }
  rewrite IH. setoid_rewrite elem_of_cons. destruct (Hf m x w) as [Hp Hn].
  destruct (decide (P x w)) as [Hx|Hx]; [rewrite (Hp w Hx)|rewrite (Hn Hx)]; set_solver.
Qed.

(** The live records of a workspace at the head. *)
Definition lives_in (s : State) (w id : string) : Prop :=
  has_tombstone s id = false ∧ ∃ r, current s id (head s) = Some r ∧ workspace (m_access (sr_record r)) = w.

Lemma rebuild_histories_spec s w id : id ∈ members (rebuild_histories s) w ↔ lives_in s w id.
Proof.
  unfold rebuild_histories. erewrite (foldl_members (λ (e : string * list StoredRevision) w,
    has_tombstone s e.1 = false ∧ ∃ r, revision_at e.2 (head s) = Some r ∧ workspace (m_access (sr_record r)) = w) fst).
  - unfold lives_in, current, members at 1. rewrite lookup_empty. simpl. split.
    + intros [[]%elem_of_empty|([id' h] & Hin%bt_entries_elem & Hp & <-)]. simpl in *. by rewrite Hin.
    + intros (Ht & r & Hr & Hw). right. destruct (histories s !! id) as [h|] eqn:Hh; [|done].
      exists (id, h). split; [by apply bt_entries_elem|]. simpl in *. eauto.
  - intros m [id' h] w0. cbn [fst snd]. destruct (has_tombstone s id'); [naive_solver|].
    destruct (revision_at h (head s)) as [r|]; [|naive_solver]. split.
    + intros w' (_ & r0 & [= <-] & <-). rewrite members_add_member. by case_decide.
    + intros Hn. rewrite members_add_member. case_decide; [|done]. destruct Hn. eauto.
  - intros [id' h] w0. cbn [fst snd]. destruct (has_tombstone s id'); [right; naive_solver|].
    destruct (revision_at h (head s)) as [r|]; [|right; naive_solver].
    destruct (decide (workspace (m_access (sr_record r)) = w0)); [left|right]; naive_solver.
Qed.

Lemma klt_sorted_NoDup `{Ordered A} (l : list A) : StronglySorted klt l → NoDup l.
Proof.
  induction 1 as [|x l _ IH Hx]; constructor; [|done]. intros Hin. rewrite Forall_forall in Hx.
  by apply (klt_irrefl x), Hx.
Qed.

Section query.
Context `{!RefCodec} `{!RefCodecLaws}.

Lemma candidate_list_spec s p id :
  wf s → id ∈ candidate_list (workspace_candidates s p) ↔ lives_in s (p_workspace p) id.
Proof.
  intros Hwf. rewrite <- rebuild_histories_spec. pose proof (wf_index _ Hwf) as Hix.
  apply rebuild_members in Hix as [<- _]. unfold candidate_list, workspace_candidates, members.
  destruct (_ !! _) as [ids|]; simpl; [by rewrite bt_elements_elem|]. rewrite elem_of_nil. set_solver.
Qed.

Lemma candidate_list_sorted s p : StronglySorted klt (candidate_list (workspace_candidates s p)).
Proof. unfold candidate_list. destruct (workspace_candidates s p); [apply bt_elements_sorted|constructor]. Qed.

(** Whoever may use a record now finds it among the candidates. *)
Lemma allowed_is_candidate s p id :
  wf s → current_use_policy_allows s id p = true → id ∈ candidate_list (workspace_candidates s p).
Proof.
  intros Hwf. rewrite candidate_list_spec by done. unfold current_use_policy_allows, lives_in.
  destruct (has_tombstone s id); [done|]. destruct (current s id (head s)) as [r|]; [|done]. intros Ha. split; [done|].
  exists r. split; [done|].
  assert (Principal_allows p (m_access (sr_record r)) = true) as Hp by (by destruct (m_lifecycle (sr_record r))).
  unfold Principal_allows in Hp. case_bool_decide as Hw; [done|]. by destruct (decide (workspace (m_access (sr_record r)) = p_workspace p)).
Qed.

Lemma budget_ok s p :
  (N.of_nat (length (candidate_list (workspace_candidates s p))) ≤ MAX_WORKSPACE_CANDIDATES)%N →
  ensure_workspace_candidate_budget (workspace_candidates s p) = Ok tt.
Proof.
  unfold ensure_workspace_candidate_budget, candidate_list. destruct (workspace_candidates s p) as [ids|]; [|done].
  rewrite length_bt_elements. intros Hb. by destruct (N.ltb_spec MAX_WORKSPACE_CANDIDATES (N.of_nat (size ids))); [lia|].
Qed.

(** ** Collecting loops *)

(** A loop that appends what each item yields, if anything. *)
Lemma try_fold_collect {E A B} (step : list B → A → result E (list B)) (f : A → result E (option B)) xs acc :
  (∀ acc x, step acc x = let? o := f x in Ok (match o with Some b => acc ++ [b] | None => acc end)) →
  try_fold step acc xs = let? os := try_map f xs in Ok (acc ++ omap id os).
Proof.
  intros Hstep. revert acc; induction xs as [|x xs IH]; intros acc; simpl; [by rewrite app_nil_r|].
  rewrite Hstep. destruct (f x) as [[b|]|e]; simpl; [| |done].
  - rewrite IH. destruct (try_map f xs); simpl; [|done]. by rewrite <- app_assoc.
  - rewrite IH. by destruct (try_map f xs).
Qed.

Lemma try_map_total {E A B} (f : A → result E B) (g : A → B) xs :
  (∀ x, x ∈ xs → f x = Ok (g x)) → try_map f xs = Ok (g <$> xs).
Proof.
  induction xs as [|x xs IH]; intros Hf; simpl; [done|].
  rewrite (Hf x) by by left. simpl. rewrite IH; [done|]. intros y Hy. apply Hf. by right.
Qed.

Lemma omap_fmap_id {A B} (g : A → option B) (xs : list A) : omap id (g <$> xs) = omap g xs.
Proof. induction xs as [|x xs IH]; [done|]. csimpl. destruct (g x) as [b|]; cbn; rewrite <- IH; done. Qed.

Lemma omap_sorted {A B} (g : A → option B) (key : B → A) (R : relation A) xs :
  (∀ x y, g x = Some y → key y = x) → StronglySorted R xs → StronglySorted R (key <$> omap g xs).
Proof.
  intros Hkey. induction 1 as [|x xs Hs IH Hx]; simpl; [constructor|]. destruct (g x) as [y|] eqn:Hg; [|done].
  simpl. constructor; [done|]. rewrite (Hkey _ _ Hg). rewrite Forall_forall in Hx |- *. intros z Hz.
  apply list_elem_of_fmap in Hz as (b & -> & (x' & Hin & Hb)%list_elem_of_omap).
  rewrite (Hkey _ _ Hb). by apply Hx.
Qed.

(** ** Scans *)

(** A candidate of the workspace is in the histories and not deleted. *)
Lemma candidate_revision_live s p k id :
  wf s → id ∈ candidate_list (workspace_candidates s p) →
  candidate_revision s k id = Ok (current s id k) ∧ has_tombstone s id = false.
Proof.
  intros Hwf (Ht & r & Hr & _)%candidate_list_spec; [|done]. unfold candidate_revision, current in *.
  destruct (histories s !! id) as [h|]; [|done]. simpl. by rewrite Ht.
Qed.

(** The authorised, active record that [get] returns at a snapshot. *)
Definition read_active (s : State) (snap : Snapshot) (p : Principal) (id : string) : option MaterializedRecord :=
  match get s id snap p with
  | Ok m => if is_active (m_lifecycle (sr_record (mr_revision m))) then Some m else None
  | Err _ => None
  end.

Lemma read_active_Some s snap p id m :
  read_active s snap p id = Some m ↔
  get s id snap p = Ok m ∧ m_lifecycle (sr_record (mr_revision m)) = Active.
Proof.
  unfold read_active, is_active. destruct (get s id snap p) as [m'|e]; [|naive_solver].
  case_bool_decide; naive_solver.
Qed.

Lemma read_active_id s snap p id m : wf s → read_active s snap p id = Some m → sr_id (mr_revision m) = id.
Proof.
  intros Hwf [(_ & _ & Hr & _)%get_Ok _]%read_active_Some. by destruct (current_from _ _ _ _ Hwf Hr) as (_ & _ & ?).
Qed.

(** What the loops of the reads do with a candidate, against the single read. *)
Lemma candidate_read s snap p id :
  wf s → validate_snapshot_handle s snap = Ok tt → has_tombstone s id = false →
  match current s id (snap_commit_seq snap) with
  | Some r =>
      if candidate_allowed s p id r
      then ∃ m, read_active s snap p id = Some m ∧ mr_revision m = r ∧ materialize_revision s r = Ok m
      else read_active s snap p id = None
  | None => read_active s snap p id = None
  end.
Proof.
  intros Hwf Hs Ht. destruct (current s id (snap_commit_seq snap)) as [r|] eqn:Hr.
  2: { destruct (read_active s snap p id) as [m|] eqn:Hm; [|done].
       apply read_active_Some in Hm as [(_ & _ & ? & _)%get_Ok _]. congruence. }
  unfold candidate_allowed. destruct (_ && _ && _) eqn:Ha.
  - rewrite !andb_true_iff in Ha. destruct Ha as [[Hact Hallow] Hpol]. apply bool_decide_eq_true in Hact.
    destruct (materialize_live _ _ _ _ Hwf Ht Hr) as (c & Hm & _). exists (MkMaterializedRecord r c).
    split; [|done]. apply read_active_Some. split; [|done]. apply get_Ok. done.
  - destruct (read_active s snap p id) as [m|] eqn:Hm; [|done].
    apply read_active_Some in Hm as [(_ & _ & Hr' & Hpol & Hallow & _)%get_Ok Hact].
    assert (r = mr_revision m) as -> by congruence. unfold is_active in Ha.
    rewrite Hallow, Hpol, bool_decide_eq_true_2 in Ha by done. done.
Qed.

Definition of_kind (kind : RecordKind) (m : MaterializedRecord) : option MaterializedRecord :=
  if bool_decide (m_kind (sr_record (mr_revision m)) = kind) then Some m else None.

Lemma scan_candidates_eq s kind snap p :
  wf s → validate_snapshot_handle s snap = Ok tt →
  try_fold (scan_candidate s kind (snap_commit_seq snap) p) [] (candidate_list (workspace_candidates s p)) =
  Ok (omap (λ id, read_active s snap p id ≫= of_kind kind) (candidate_list (workspace_candidates s p))).
Proof.
  intros Hwf Hs.
  rewrite (try_fold_collect _ (λ id,
    let? revision := candidate_revision s (snap_commit_seq snap) id in
    match revision with
    | None => Ok None
    | Some revision =>
        if bool_decide (m_kind (sr_record revision) = kind) && candidate_allowed s p id revision
        then let? m := materialize_revision s revision in Ok (Some m) else Ok None
    end)).
  - rewrite (try_map_total _ (λ id, read_active s snap p id ≫= of_kind kind)).
    + simpl. by rewrite omap_fmap_id.
    + intros id Hid. destruct (candidate_revision_live s p (snap_commit_seq snap) id Hwf Hid) as [-> Ht]. simpl.
      pose proof (candidate_read s snap p id Hwf Hs Ht) as Hread.
      destruct (current s id (snap_commit_seq snap)) as [r|]; [|by rewrite Hread].
      destruct (candidate_allowed s p id r).
      * destruct Hread as (m & -> & <- & Hm). simpl. unfold of_kind. case_bool_decide; simpl; [|done]. by rewrite Hm.
      * rewrite Hread, andb_false_r. done.
  - intros acc id. unfold scan_candidate. destruct (candidate_revision _ _ _) as [[r|]|e]; simpl; [|done|done].
    destruct (_ && _); [|done]. by destruct (materialize_revision s r).
Qed.

(** A scan of one family returns, in ascending order of identifiers,
    exactly the active records of that family that the authorised read of single
    records returns at the snapshot; it fails only for an invalid snapshot or when
    the workspace has more live records than the budget. *)
Theorem scan_kind_exact s kind snap p :
  reachable s → validate_snapshot_handle s snap = Ok tt →
  (N.of_nat (length (candidate_list (workspace_candidates s p))) ≤ MAX_WORKSPACE_CANDIDATES)%N →
  ∃ t, scan_kind s kind snap p = Ok t ∧
    StronglySorted klt ((sr_id ∘ mr_revision) <$> traced_value t) ∧
    ∀ m, m ∈ traced_value t ↔
      get s (sr_id (mr_revision m)) snap p = Ok m ∧ m_lifecycle (sr_record (mr_revision m)) = Active ∧
      m_kind (sr_record (mr_revision m)) = kind.
Proof.
  intros Hreach Hs Hb. pose proof (reachable_wf _ Hreach) as Hwf. unfold scan_kind.
  rewrite Hs. simpl. rewrite (budget_ok s p Hb). simpl. rewrite scan_candidates_eq by done. simpl.
  eexists. split; [reflexivity|]. simpl. split.
  - apply omap_sorted; [|apply candidate_list_sorted]. intros id m. simpl.
    destruct (read_active s snap p id) as [m'|] eqn:Hm; simpl; [|done]. unfold of_kind.
    case_bool_decide; [|done]. intros [= <-]. by eapply read_active_id.
  - intros m. rewrite list_elem_of_omap. split.
    + intros (id & _ & Hm). destruct (read_active s snap p id) as [m'|] eqn:Hread; simpl in Hm; [|done].
      unfold of_kind in Hm. case_bool_decide; [|done]. injection Hm as <-.
      rewrite (read_active_id _ _ _ _ _ Hwf Hread). by apply read_active_Some in Hread as [? ?].
    + intros (Hget & Hact & Hkind). exists (sr_id (mr_revision m)). split.
      * apply get_Ok in Hget as (_ & _ & _ & Hpol & _). by apply allowed_is_candidate.
      * assert (read_active s snap p (sr_id (mr_revision m)) = Some m) as -> by (by apply read_active_Some).
        simpl. unfold of_kind. by rewrite bool_decide_eq_true_2.
Qed.

(** ** Searches *)

(** The hit of a record, if its content takes part. *)
Definition hit_of (s : State) (snap : Snapshot) (p : Principal) (score : RecordContent → option spec_float)
    (id : string) : option SearchHit :=
  m ← read_active s snap p id; MkSearchHit id <$> score (mr_content m).

Lemma search_fold_eq s snap p score ids n hits :
  wf s → validate_snapshot_handle s snap = Ok tt → (∀ id, id ∈ ids → id ∈ candidate_list (workspace_candidates s p)) →
  (n + N.of_nat (length ids) ≤ USIZE_MAX)%N →
  try_fold (search_candidate s (snap_commit_seq snap) p score) (n, hits) ids =
  Ok ((n + len (omap (read_active s snap p) ids))%N, hits ++ omap (hit_of s snap p score) ids).
Proof.
  intros Hwf Hs. revert n hits; induction ids as [|id ids IH]; intros n hits Hids Hn.
  { simpl. by rewrite app_nil_r, N.add_0_r. }
  cbn [try_fold length] in *. unfold search_candidate at 1.
  destruct (candidate_revision_live s p (snap_commit_seq snap) id Hwf) as [-> Ht]; [by apply Hids; left|]. simpl.
  pose proof (candidate_read s snap p id Hwf Hs Ht) as Hread. csimpl.
  assert (∀ hits', try_fold (search_candidate s (snap_commit_seq snap) p score)
      (saturating_add USIZE_MAX n 1, hits') ids =
    Ok ((n + 1 + len (omap (read_active s snap p) ids))%N, hits' ++ omap (hit_of s snap p score) ids)) as IH1.
  { intros hits'. unfold saturating_add. rewrite N.min_r by lia. apply IH; [|lia]. intros x Hx. apply Hids. by right. }
  assert (read_active s snap p id = None → try_fold (search_candidate s (snap_commit_seq snap) p score) (n, hits) ids =
    Ok ((n + len (omap (read_active s snap p) (id :: ids)))%N, hits ++ omap (hit_of s snap p score) (id :: ids))) as IH0.
  { intros Hnone. csimpl. assert (hit_of s snap p score id = None) as -> by (unfold hit_of; by rewrite Hnone).
    rewrite Hnone. apply IH; [|lia]. intros x Hx. apply Hids. by right. }
  csimpl in IH0. destruct (current s id (snap_commit_seq snap)) as [r|]; [|by apply IH0].
  destruct (candidate_allowed s p id r); [|by apply IH0]. cbn [negb].
  destruct Hread as (m & Hm & <- & Hmat). unfold materialize_revision in Hmat.
  apply result_bind_Ok in Hmat as (c & Hc & Heq). rewrite Hc. simpl.
  injection Heq as Heq. assert (hit_of s snap p score id = MkSearchHit id <$> score c) as ->
    by (unfold hit_of; rewrite Hm, <- Heq; done).
  rewrite Hm, len_cons, N.add_assoc. destruct (score c) as [x|]; simpl; rewrite IH1; [|done].
  by rewrite <- app_assoc.
Qed.

Section order.
Context (nan_negative : bool).

(** Hits in order: higher scores first, then ascending identifiers. *)
Definition hit_key (h : SearchHit) : (Z * (Z * Z)) * string :=
  let '(a, (b, c)) := total_key nan_negative (hit_score h) in ((- a, (- b, - c))%Z, hit_id h).
Definition hit_before (a b : SearchHit) : Prop := kle (hit_key a) (hit_key b).

Lemma cmp_Z_opp (a b : Z) : cmp (- a)%Z (- b)%Z = cmp b a.
Proof. change (Z.compare (- a) (- b) = Z.compare b a). apply Z.compare_opp. Qed.

Lemma compare_hits_key a b : compare_hits nan_negative a b = cmp (hit_key a) (hit_key b).
Proof.
  unfold compare_hits, hit_key, total_cmp.
  destruct (total_key nan_negative (hit_score a)) as [a1 [a2 a3]], (total_key nan_negative (hit_score b)) as [b1 [b2 b3]].
  by rewrite !cmp_pair, !cmp_Z_opp.
Qed.

Lemma sort_hits_sorted hits : StronglySorted hit_before (sort_hits nan_negative hits).
Proof. apply (sort_by_sorted _ hit_key), compare_hits_key. Qed.
End order.

(** What a search found, ranked and cut to the limit. *)
Definition ranked (nan_negative : bool) (s : State) (snap : Snapshot) (p : Principal)
    (score : RecordContent → option spec_float) (limit : N) (hits : list SearchHit) : Prop :=
  ∃ all, hits = take (N.to_nat limit) all ∧ StronglySorted (hit_before nan_negative) all ∧ NoDup (hit_id <$> all) ∧
    ∀ h, h ∈ all ↔ ∃ m, get s (hit_id h) snap p = Ok m ∧ m_lifecycle (sr_record (mr_revision m)) = Active ∧
      score (mr_content m) = Some (hit_score h).

Lemma search_ranked nan_negative s snap p score limit operation :
  wf s → validate_snapshot_handle s snap = Ok tt →
  (N.of_nat (length (candidate_list (workspace_candidates s p))) ≤ MAX_WORKSPACE_CANDIDATES)%N →
  ∃ found, search_candidates s (snap_commit_seq snap) p score = Ok found ∧
    ranked nan_negative s snap p score limit (traced_value (traced_hits nan_negative s (snap_commit_seq snap) p operation limit found)).
Proof.
  intros Hwf Hs Hb. unfold search_candidates. rewrite (budget_ok s p Hb). simpl.
  rewrite search_fold_eq; [|done|done|done|etrans; [exact Hb|by vm_compute]].
  eexists. split; [reflexivity|]. set (hits := [] ++ omap _ _). exists (sort_hits nan_negative hits). split; [done|].
  split; [apply sort_hits_sorted|]. split.
  - unfold sort_hits. rewrite sort_by_Permutation. apply klt_sorted_NoDup, (omap_sorted (hit_of s snap p score)).
    + intros id h. unfold hit_of. destruct (read_active s snap p id); simpl; [|done].
      destruct (score _); simpl; [|done]. by intros [= <-].
    + apply candidate_list_sorted.
  - intros h. unfold sort_hits. rewrite sort_by_Permutation. unfold hits. simpl. rewrite list_elem_of_omap. unfold hit_of. split.
    + intros (id & _ & Hh). destruct (read_active s snap p id) as [m|] eqn:Hm; simpl in Hh; [|done].
      destruct (score (mr_content m)) as [x|] eqn:Hx; simpl in Hh; [|done]. injection Hh as <-. simpl.
      apply read_active_Some in Hm as [? ?]. by exists m.
    + intros (m & Hget & Hact & Hx). exists (hit_id h). split.
      * apply get_Ok in Hget as (_ & _ & _ & Hpol & _). by apply allowed_is_candidate.
      * assert (read_active s snap p (hit_id h) = Some m) as -> by (by apply read_active_Some).
        simpl. rewrite Hx. by destruct h.
Qed.

(** The lexical search returns the highest-ranked hits, where the hits
    are exactly the active records that the caller may read at the snapshot and
    that contain a word of the query, scored by the share of the words they
    contain. *)
Theorem lexical_search_exact `{!Unicode} nan_negative s query limit snap p :
  reachable s → validate_snapshot_handle s snap = Ok tt → tokens query ≠ ∅ → limit ≠ 0%N →
  (N.of_nat (length (candidate_list (workspace_candidates s p))) ≤ MAX_WORKSPACE_CANDIDATES)%N →
  ∃ t, lexical_search nan_negative s query limit snap p = Ok t ∧
    ranked nan_negative s snap p (lexical_score (tokens query)) limit (traced_value t).
Proof.
  intros Hreach Hs Hq Hl Hb. pose proof (reachable_wf _ Hreach) as Hwf. unfold lexical_search. rewrite Hs. simpl.
  rewrite bool_decide_eq_false_2 by done. destruct (N.eqb_spec limit 0); [done|]. simpl.
  destruct (search_ranked nan_negative s snap p (lexical_score (tokens query)) limit "exact_lexical" Hwf Hs Hb)
    as (found & -> & Hr). by eexists.
Qed.

(** The vector search returns the highest-ranked hits, where the hits
    are exactly the active records that the caller may read at the snapshot with a
    vector of the query's dimension, scored by the dot product. *)
Theorem vector_search_exact nan_negative s query limit snap p :
  reachable s → validate_snapshot_handle s snap = Ok tt → bad_vector (Some query) = false → limit ≠ 0%N →
  (N.of_nat (length (candidate_list (workspace_candidates s p))) ≤ MAX_WORKSPACE_CANDIDATES)%N →
  ∃ t, vector_search nan_negative s query limit snap p = Ok t ∧
    ranked nan_negative s snap p (vector_score query) limit (traced_value t).
Proof.
  intros Hreach Hs Hq Hl Hb. pose proof (reachable_wf _ Hreach) as Hwf. unfold vector_search. rewrite Hq, Hs. simpl.
  destruct (N.ltb_spec 0 limit); [|lia].
  destruct (search_ranked nan_negative s snap p (vector_score query) limit "exact_vector" Hwf Hs Hb)
    as (found & -> & Hr). by eexists.
Qed.
End query.
