(* ===== verification/RefTraverse.v ===== *)
(** * The reference engine: bounded traversal

    The breadth-first walk over authorised edges ends, respects its limits, and,
    unless it was cut at the node limit, returns exactly the nodes that a path of
    authorised edges of at most the given length leads to. *)

From S2P Require Import Prelude.
From S2P Require Import Ordering.
From S2P Require Import Bytes.
From S2P Require Import Json.
From S2P Require Import Format.
From S2P Require Import RefModel.
From S2P Require Import RefEngine.
From S2P Require Import RefReads.
From S2P Require Import RefKeys.
From S2P Require Import RefInvariant.
From S2P Require Import RefRuns.
From S2P Require Import RefHistory.
From S2P Require Import RefQuery.

Lemma filter_ext_elem {A} (P Q : A → Prop) `{∀ x, Decision (P x), ∀ x, Decision (Q x)} (l : list A) :
  (∀ x, x ∈ l → P x ↔ Q x) → filter P l = filter Q l.
Proof.
  induction l as [|x l IH]; intros Hl; [done|]. rewrite !filter_cons, IH by (intros y Hy; apply Hl; by right).
  assert (P x ↔ Q x) as Hx by (apply Hl; by left). do 2 case_decide; naive_solver.
Qed.

Section traverse.
Context `{!RefCodec} `{!RefCodecLaws}.
Context (s : State) (direction : Direction) (predicates : gset string) (max_hops max_nodes seq : N) (p : Principal).
Context (Hwf : wf s) (Hhops : (max_hops ≤ U8_MAX)%N).

Abbreviation candidates := (candidate_list (workspace_candidates s p)).
Abbreviation node_ok := (is_authorized_node s seq p).

(** ** Paths *)

(** An edge record that the caller may use leads from [a] to [b]. *)
Definition edge_between (edge_id a b : string) : Prop :=
  has_tombstone s edge_id = false ∧
  ∃ e, current s edge_id seq = Some e ∧ m_kind (sr_record e) = Edge ∧ candidate_allowed s p edge_id e = true ∧
    edge_neighbour direction predicates a (m_links (sr_record e)) = Some b.

Definition adjacent (a b : string) : Prop := node_ok b = true ∧ ∃ edge_id, edge_between edge_id a b.

(** A path of at most [k] edges leads from a start to the node. *)
Inductive within (start : list string) : N → string → Prop :=
  | within_start k x : x ∈ start → within start k x
  | within_step k x y : within start k x → adjacent x y → within start (k + 1) y.

Lemma within_mono start k k' x : within start k x → (k ≤ k')%N → within start k' x.
Proof.
  intros Hx. revert k'; induction Hx as [k x Hx|k x y Hx IH Hxy]; intros k' Hk; [by constructor|].
  replace k' with (k' - 1 + 1)%N by lia. eapply within_step; [apply IH; lia|done].
Qed.

Lemma within_succ start k y : within start (k + 1) y → y ∈ start ∨ ∃ x, within start k x ∧ adjacent x y.
Proof.
  intros Hy. remember (k + 1)%N as k' eqn:Hk. destruct Hy as [k' y Hy|k' x y Hx Hxy]; [by left|right].
  exists x. split; [|done]. by replace k with k' by lia.
Qed.

Lemma node_ok_in_histories x : node_ok x = true → x ∈ dom (histories s).
Proof.
  unfold is_authorized_node, current_authorized_metadata, current. rewrite elem_of_dom.
  destruct (negb _); [done|]. by destruct (histories s !! x).
Qed.

(** ** One node *)

Lemma edge_candidate edge_id a b : edge_between edge_id a b → edge_id ∈ candidates.
Proof.
  intros (_ & e & _ & _ & Ha & _). apply allowed_is_candidate; [done|].
  unfold candidate_allowed in Ha. by rewrite !andb_true_iff in Ha; destruct Ha as [_ ?].
Qed.

Lemma scan_edges node scanned edges nb ids :
  (∀ id, id ∈ ids → id ∈ candidates) → (scanned ≤ MAX_WORKSPACE_CANDIDATES)%N →
  match try_fold (scan_edge s direction predicates seq p node) (scanned, edges, nb) ids with
  | Ok (scanned', _, nb') =>
      scanned' = (scanned + len ids)%N ∧ (scanned' ≤ MAX_WORKSPACE_CANDIDATES)%N ∧
      ∀ y, y ∈ nb' ↔ y ∈ nb ∨ node_ok y = true ∧ ∃ id, id ∈ ids ∧ edge_between id node y
  | Err e => e = ResourceExhausted ∧ (MAX_WORKSPACE_CANDIDATES < scanned + len ids)%N
  end.
Proof.
  revert scanned edges nb; induction ids as [|id ids IH]; intros scanned edges nb Hids Hsc.
  { simpl. rewrite len_nil. split; [lia|]. split; [done|]. set_solver. }
  cbn [try_fold]. unfold scan_edge at 1.
  assert (saturating_add USIZE_MAX scanned 1 = (scanned + 1)%N) as ->.
  { apply N.min_r. etrans; [apply N.add_le_mono_r, Hsc|by vm_compute]. }
  destruct (N.ltb_spec MAX_WORKSPACE_CANDIDATES (scanned + 1)) as [Hlt|Hle]; [rewrite len_cons; split; [done|lia]|].
  destruct (candidate_revision_live s p seq id Hwf) as [-> Ht]; [by apply Hids; left|]. simpl.
  assert (∀ edges' nb', (∀ y, y ∈ nb' ↔ y ∈ nb ∨ node_ok y = true ∧ edge_between id node y) →
    match try_fold (scan_edge s direction predicates seq p node) ((scanned + 1)%N, edges', nb') ids with
    | Ok (scanned', _, nb'') =>
        scanned' = (scanned + len (id :: ids))%N ∧ (scanned' ≤ MAX_WORKSPACE_CANDIDATES)%N ∧
        ∀ y, y ∈ nb'' ↔ y ∈ nb ∨ node_ok y = true ∧ ∃ i, i ∈ id :: ids ∧ edge_between i node y
    | Err e => e = ResourceExhausted ∧ (MAX_WORKSPACE_CANDIDATES < scanned + len (id :: ids))%N
    end) as Hgo.
  { intros edges' nb' Hnb'. specialize (IH (scanned + 1)%N edges' nb'). rewrite len_cons.
    destruct (try_fold _ _ ids) as [[[sc' ed'] nb'']|e].
    - destruct IH as (-> & ? & Hnb''); [by intros ? ?; apply Hids; right|lia|]. split; [lia|]. split; [lia|].
      intros y. rewrite Hnb'', Hnb'. setoid_rewrite elem_of_cons. naive_solver.
    - destruct IH as (-> & ?); [by intros ? ?; apply Hids; right|lia|]. split; [done|lia]. }
  unfold edge_between at 1 in Hgo. destruct (current s id seq) as [e|] eqn:He; [|apply Hgo; naive_solver].
  destruct (_ && _) eqn:Hok.
  2: { apply Hgo. intros y. split; [by left|]. intros [?|(_ & _ & e' & [= <-] & Hk & Ha & _)]; [done|].
       by rewrite Hk, Ha, bool_decide_eq_true_2 in Hok. }
  rewrite andb_true_iff, bool_decide_eq_true in Hok. destruct Hok as [Hk Ha].
  destruct (edge_neighbour direction predicates node (m_links (sr_record e))) as [n|] eqn:Hn.
  2: { apply Hgo. naive_solver. }
  destruct (node_ok n) eqn:Hnode; apply Hgo; [set_solver by naive_solver|].
  intros y. split; [by left|]. intros [?|(Hy & _ & e' & [= <-] & _ & _ & Hn')]; [done|]. congruence.
Qed.

(** The neighbours that the walk has not visited. *)
Definition fresh (w : Walk) (nbs : list string) : list string := filter (λ n, n ∉ walk_visited w) nbs.

Lemma visit_neighbours_spec hops nbs w :
  NoDup nbs → (hops < max_hops)%N → (len (walk_result w) < max_nodes)%N →
  let w' := visit_neighbours max_nodes hops nbs w in
  walk_edges w' = walk_edges w ∧ walk_scanned w' = walk_scanned w ∧
  ((len (walk_result w ++ fresh w nbs) < max_nodes)%N ∧
     walk_queue w' = walk_queue w ++ ((λ n, (n, hops + 1)%N) <$> fresh w nbs) ∧
     walk_visited w' = list_to_set (fresh w nbs) ∪ walk_visited w ∧
     walk_result w' = walk_result w ++ fresh w nbs ∨
   (max_nodes ≤ len (walk_result w ++ fresh w nbs))%N ∧
     walk_result w' = take (N.to_nat max_nodes) (walk_result w ++ fresh w nbs)).
Proof.
  intros Hnd Hh. revert w; induction nbs as [|n nbs IH]; intros w Hlen.
  { simpl. unfold fresh. simpl. rewrite !app_nil_r. do 2 (split; [done|]). left. split; [done|].
    split; [done|]. split; [set_solver|done]. }
  apply NoDup_cons in Hnd as [Hnin Hnd]. specialize (IH Hnd). cbn [visit_neighbours].
  unfold fresh. rewrite filter_cons. case_bool_decide as Hv.
  { rewrite decide_False by tauto. by apply IH. }
  rewrite decide_True by done. destruct (N.leb_spec max_nodes (len (walk_result w ++ [n]))) as [Hmax|Hmax].
  { simpl. do 2 (split; [done|]). right. rewrite len_app, len_cons, len_nil in Hmax. rewrite len_app, len_cons.
    split; [lia|]. replace (N.to_nat max_nodes) with (length (walk_result w ++ [n]))
      by (rewrite length_app; simpl; unfold len in *; lia).
    match goal with |- _ = take _ (?a ++ n :: ?l) => change (a ++ n :: l) with (a ++ [n] ++ l) end.
    by rewrite app_assoc, take_app_length. }
  assert (saturating_add U8_MAX hops 1 = (hops + 1)%N) as -> by (apply N.min_r; lia).
  set (w1 := MkWalk _ _ _ _ _).
  assert (fresh w1 nbs = filter (λ n, n ∉ walk_visited w) nbs) as Hfresh.
  { unfold fresh. simpl. apply filter_ext_elem. intros x Hx. assert (x ≠ n); [|set_solver]. by intros ->. }
  destruct (IH w1 Hmax) as (? & ? & Hcases). do 2 (split; [done|]). rewrite Hfresh in Hcases. simpl in Hcases.
  rewrite <- !app_assoc in Hcases. simpl in Hcases.
  destruct Hcases as [(? & -> & -> & ->)|(? & ->)]; [left|by right]. split; [done|].
  split; [done|]. split; [|done]. set_solver.
Qed.

(** ** The walk *)

(** The queue holds nodes at distance [h] and then nodes first found at distance
    [h + 1]; all nodes up to distance [h] are visited, and those that are no longer
    queued have been expanded. *)
Record walk_ok (start : list string) (h : N) (q1 q2 : list string) (w : Walk) : Prop := {
  walk_queued : walk_queue w = ((λ n, (n, h)) <$> q1) ++ ((λ n, (n, (h + 1)%N)) <$> q2);
  walk_front x : x ∈ q1 → within start h x;
  walk_seen x : x ∈ walk_visited w ↔ within start h x ∨ x ∈ q2;
  walk_back x : x ∈ q2 → within start (h + 1) x;
  walk_expanded x y : (h < max_hops)%N → within start h x → x ∉ q1 → adjacent x y → y ∈ walk_visited w;
  walk_levels : (h ≤ max_hops)%N ∧ (q2 ≠ [] → (h < max_hops)%N);
  walk_found : walk_visited w = list_to_set start ∪ list_to_set (walk_result w);
  walk_nodup : NoDup (walk_result w);
  walk_new x : x ∈ walk_result w → x ∉ start ∧ node_ok x = true;
  walk_room : (len (walk_result w) < max_nodes)%N;
  walk_count : (walk_scanned w ≤ MAX_WORKSPACE_CANDIDATES)%N ∧
    (walk_scanned w + len candidates * len (walk_queue w) ≤ len candidates * (len start + len (walk_result w)))%N;
}.

(** The next level begins when the front is used up. *)
Lemma walk_next_level start h q2 w :
  walk_ok start h [] q2 w → q2 ≠ [] → walk_ok start (h + 1) q2 [] w.
Proof.
  intros Hw Hne. destruct (walk_levels _ _ _ _ _ Hw) as [_ Hlt]. specialize (Hlt Hne).
  assert (∀ x, within start (h + 1) x → x ∈ walk_visited w) as Hall.
  { intros x [Hx|(y & Hy & Hyx)]%within_succ.
    - rewrite (walk_found _ _ _ _ _ Hw). set_solver.
    - eapply (walk_expanded _ _ _ _ _ Hw y x); [done|done|apply not_elem_of_nil|done]. }
  split; try apply Hw.
  - rewrite (walk_queued _ _ _ _ _ Hw). simpl. by rewrite app_nil_r.
  - intros x. rewrite elem_of_nil. split; [|intros [?|[]]; by apply Hall].
    rewrite (walk_seen _ _ _ _ _ Hw). intros [?|?]; left; [eapply within_mono; [done|lia]|by apply (walk_back _ _ _ _ _ Hw)].
  - by intros x ?%elem_of_nil.
  - intros x y Hh Hx Hnin Hxy. apply Hall in Hx. apply (walk_seen _ _ _ _ _ Hw) in Hx as [Hx|?]; [|done].
    eapply (walk_expanded _ _ _ _ _ Hw x y); [done|done|apply not_elem_of_nil|done].
  - split; [lia|done].
Qed.

Lemma found_bound (l : list string) :
  NoDup l → (∀ x, x ∈ l → node_ok x = true) → (length l ≤ size (histories s))%nat.
Proof.
  intros Hnd Hl. rewrite <- (size_dom (histories s)). rewrite <- (size_list_to_set (C:=gset string) l) by done.
  apply subseteq_size. intros x Hx%elem_of_list_to_set. by apply node_ok_in_histories, Hl.
Qed.

(** What the walk returns: nodes that paths lead to, and all of them when there is
    room left. *)
Record walk_done (start : list string) (result : list string) : Prop := {
  done_nodup : NoDup result;
  done_limit : (len result ≤ max_nodes)%N;
  done_sound x : x ∈ result → x ∉ start ∧ node_ok x = true ∧ within start max_hops x;
  done_complete x : (len result < max_nodes)%N → within start max_hops x → x ∈ start ∨ x ∈ result;
}.

Definition walk_result_ok (start : list string) (r : Res Walk) : Prop :=
  match r with
  | Ok w => walk_done start (walk_result w)
  | Err e => e = ResourceExhausted ∧
      (MAX_WORKSPACE_CANDIDATES < len candidates * (len start + N.of_nat (size (histories s))))%N
  end.

Lemma fresh_neighbours start h n q1 q2 w nbs :
  walk_ok start h (n :: q1) q2 w → (h < max_hops)%N → NoDup nbs → (∀ y, y ∈ nbs ↔ adjacent n y) →
  NoDup (walk_result w ++ fresh w nbs) ∧
  ∀ x, x ∈ walk_result w ++ fresh w nbs → x ∉ start ∧ node_ok x = true ∧ within start (h + 1) x.
Proof.
  intros Hw Hh Hnd Hnbs. assert (∀ x, x ∈ fresh w nbs ↔ x ∉ walk_visited w ∧ adjacent n x) as Hf.
  { intros x. unfold fresh. by rewrite list_elem_of_filter, Hnbs. }
  assert (∀ x, x ∈ walk_result w → within start (h + 1) x) as Hres.
  { intros x Hx. assert (x ∈ walk_visited w) as [?|?]%(walk_seen _ _ _ _ _ Hw)
      by (rewrite (walk_found _ _ _ _ _ Hw); set_solver).
    - eapply within_mono; [done|lia].
    - by apply (walk_back _ _ _ _ _ Hw). }
  split.
  - apply NoDup_app. split; [apply Hw|]. split; [|by apply NoDup_filter].
    intros x Hx [Hv _]%Hf. apply Hv. rewrite (walk_found _ _ _ _ _ Hw). set_solver.
  - intros x [Hx|[Hv [Hok Hadj]]%Hf]%elem_of_app.
    + destruct (walk_new _ _ _ _ _ Hw x Hx). eauto.
    + split; [|split; [done|]].
      * intros Hs. apply Hv. rewrite (walk_found _ _ _ _ _ Hw). set_solver.
      * apply within_step with n; [apply (walk_front _ _ _ _ _ Hw); by left|by split].
Qed.

(** Expanding the first node of the front. *)
Lemma walk_expand start h n q1 q2 w w' f :
  walk_ok start h (n :: q1) q2 w → (h < max_hops)%N →
  (∀ x, x ∈ f ↔ x ∉ walk_visited w ∧ adjacent n x) →
  NoDup (walk_result w ++ f) →
  (∀ x, x ∈ walk_result w ++ f → x ∉ start ∧ node_ok x = true ∧ within start (h + 1) x) →
  (len (walk_result w ++ f) < max_nodes)%N →
  walk_queue w' = (((λ n, (n, h)) <$> q1) ++ ((λ n, (n, (h + 1)%N)) <$> q2)) ++ ((λ n, (n, (h + 1)%N)) <$> f) →
  walk_visited w' = list_to_set f ∪ walk_visited w → walk_result w' = walk_result w ++ f →
  walk_scanned w' = (walk_scanned w + len candidates)%N → (walk_scanned w' ≤ MAX_WORKSPACE_CANDIDATES)%N →
  walk_ok start h q1 (q2 ++ f) w'.
Proof.
  intros Hw Hlt Hf Hnd Hall Hroom Hq Hv Hr Hsc Hmax. split.
  - by rewrite Hq, fmap_app, app_assoc.
  - intros x Hx. apply (walk_front _ _ _ _ _ Hw). by right.
  - intros x. rewrite Hv, elem_of_union, elem_of_list_to_set, (walk_seen _ _ _ _ _ Hw), elem_of_app. tauto.
  - intros x [Hx|Hx]%elem_of_app; [by apply (walk_back _ _ _ _ _ Hw)|].
    apply Hall, elem_of_app. by right.
  - intros x y _ Hx Hnin Hxy. rewrite Hv. destruct (decide (x = n)) as [->|Hne].
    + destruct (decide (y ∈ walk_visited w)); [set_solver|]. apply elem_of_union_l, elem_of_list_to_set, Hf. done.
    + apply elem_of_union_r. apply (walk_expanded _ _ _ _ _ Hw x y); try done. by rewrite not_elem_of_cons.
  - split; [lia|done].
  - rewrite Hv, Hr, (walk_found _ _ _ _ _ Hw), list_to_set_app_L. set_solver.
  - by rewrite Hr.
  - intros x. rewrite Hr. intros Hx. destruct (Hall x Hx) as (? & ? & _). done.
  - by rewrite Hr.
  - split; [done|]. destruct (walk_count _ _ _ _ _ Hw) as [_ Hcount]. rewrite (walk_queued _ _ _ _ _ Hw) in Hcount.
    rewrite Hq, Hr, Hsc. unfold len in *. rewrite !length_app, !length_fmap in *. simpl in Hcount. nia.
Qed.

Lemma walk_step_ok start h n q1 q2 w :
  walk_ok start h (n :: q1) q2 w →
  match walk_step s direction predicates max_hops max_nodes seq p candidates w with
  | inl w' => (∃ q2', walk_ok start h q1 q2' w') ∧
      (S (length (walk_queue w')) + length (walk_result w) = length (walk_queue w) + length (walk_result w'))%nat
  | inr r => walk_result_ok start r
  end.
Proof.
  intros Hw. unfold walk_step. rewrite (walk_queued _ _ _ _ _ Hw). cbn [fmap list_fmap app].
  set (rest := ((λ n, (n, h)) <$> q1) ++ ((λ n, (n, (h + 1)%N)) <$> q2)).
  destruct (walk_count _ _ _ _ _ Hw) as [Hsc Hcount]. rewrite (walk_queued _ _ _ _ _ Hw) in Hcount.
  cbn [fmap list_fmap app] in Hcount. fold rest in Hcount. rewrite len_cons in Hcount.
  destruct (N.leb_spec max_hops h) as [Hmax|Hlt].
  { split; [|simpl; lia]. exists q2. split; simpl; try apply Hw; try done.
    - intros x Hx. apply (walk_front _ _ _ _ _ Hw). by right.
    - intros x y Hh. lia.
    - split; [done|]. lia. }
  simpl. pose proof (scan_edges n (walk_scanned w) (walk_edges w) ∅ candidates (λ _ H, H) Hsc) as Hscan.
  assert (len (walk_result w) ≤ N.of_nat (size (histories s)))%N as Hbound.
  { unfold len. pose proof (found_bound (walk_result w) (walk_nodup _ _ _ _ _ Hw)
      (λ x Hx, proj2 (walk_new _ _ _ _ _ Hw x Hx))). lia. }
  destruct (try_fold _ _ candidates) as [[[scanned edges] nb]|e].
  2: { simpl. destruct Hscan as [-> Hlim]. split; [done|].
       assert (len candidates * (len start + len (walk_result w)) ≤
         len candidates * (len start + N.of_nat (size (histories s))))%N by (apply N.mul_le_mono_l; lia).
       assert (len candidates * 1 ≤ len candidates * (1 + len rest))%N by (apply N.mul_le_mono_l; lia). lia. }
  destruct Hscan as (-> & Hsc' & Hnb).
  assert (∀ y, y ∈ bt_elements nb ↔ adjacent n y) as Hadj.
  { intros y. rewrite bt_elements_elem, Hnb. unfold adjacent. split; [set_solver|].
    intros [? (i & Hi)]. right. split; [done|]. exists i. split; [by eapply edge_candidate|done]. }
  destruct (fresh_neighbours _ _ _ _ _ _ _ Hw Hlt (bt_elements_NoDup nb) Hadj) as [Hnd Hall].
  set (w0 := MkWalk rest (walk_visited w) (walk_result w) edges (walk_scanned w + len candidates)).
  destruct (visit_neighbours_spec h (bt_elements nb) w0 (bt_elements_NoDup nb) Hlt (walk_room _ _ _ _ _ Hw))
    as (_ & Hscw & Hcases). fold w0. set (w' := visit_neighbours max_nodes h (bt_elements nb) w0) in *.
  change (fresh w0 (bt_elements nb)) with (fresh w (bt_elements nb)) in Hcases.
  change (walk_result w0) with (walk_result w) in Hcases.
  destruct Hcases as [(Hroom & Hq & Hv & Hr)|(Hfull & Hr)]; rewrite Hr.
  - destruct (N.leb_spec max_nodes (len (walk_result w ++ fresh w (bt_elements nb)))); [lia|]. split.
    + exists (q2 ++ fresh w (bt_elements nb)). eapply walk_expand; try done; [|by rewrite Hscw].
      intros x. unfold fresh. by rewrite list_elem_of_filter, Hadj.
    + rewrite Hq, Hr. change (walk_queue w0) with rest. rewrite !length_app, !length_fmap. simpl. lia.
  - assert (len (take (N.to_nat max_nodes) (walk_result w ++ fresh w (bt_elements nb))) = max_nodes) as Hlen.
    { unfold len in *. rewrite length_take. lia. }
    rewrite Hlen. rewrite N.leb_refl. simpl. rewrite Hr. split; [|lia| |lia].
    + eapply sublist_NoDup; [exact Hnd|apply sublist_take].
    + intros x Hx. destruct (Hall x) as (? & ? & ?); [eapply elem_of_sublist; [exact Hx|apply sublist_take]|].
      do 2 (split; [done|]). eapply within_mono; [done|lia].
Qed.

(** An empty queue means that everything was found. *)
Lemma walk_complete start h w : walk_ok start h [] [] w → walk_done start (walk_result w).
Proof.
  intros Hw. destruct (walk_levels _ _ _ _ _ Hw) as [Hle _].
  assert (∀ k x, within start k x → (k ≤ max_hops)%N → within start h x) as Hclosed.
  { induction 1 as [k x Hx|k x y Hx IH Hxy]; intros Hk; [by constructor|].
    destruct (N.eq_dec h max_hops) as [->|Hne]; [eapply within_mono; [by eapply within_step|done]|].
    assert (y ∈ walk_visited w) as [?|[]%elem_of_nil]%(walk_seen _ _ _ _ _ Hw); [|done].
    apply (walk_expanded _ _ _ _ _ Hw x y); [lia|apply IH; lia|apply not_elem_of_nil|done]. }
  split.
  - apply Hw.
  - pose proof (walk_room _ _ _ _ _ Hw). lia.
  - intros x Hx. destruct (walk_new _ _ _ _ _ Hw x Hx) as [? ?]. do 2 (split; [done|]).
    assert (x ∈ walk_visited w) as [?|[]%elem_of_nil]%(walk_seen _ _ _ _ _ Hw)
      by (rewrite (walk_found _ _ _ _ _ Hw); set_solver). by eapply within_mono.
  - intros x _ Hx. assert (x ∈ walk_visited w) as Hv.
    { apply (walk_seen _ _ _ _ _ Hw). left. by eapply Hclosed. }
    rewrite (walk_found _ _ _ _ _ Hw) in Hv. set_solver.
Qed.

Definition walk_inv (start : list string) (w : Walk) : Prop := ∃ h q1 q2, walk_ok start h q1 q2 w.

Lemma walk_step_cases start w :
  walk_inv start w →
  match walk_step s direction predicates max_hops max_nodes seq p candidates w with
  | inl w' => walk_inv start w' ∧
      (S (length (walk_queue w')) + length (walk_result w) = length (walk_queue w) + length (walk_result w'))%nat
  | inr r => walk_result_ok start r
  end.
Proof.
  assert (∀ h n q1 q2, walk_ok start h (n :: q1) q2 w →
    match walk_step s direction predicates max_hops max_nodes seq p candidates w with
    | inl w' => walk_inv start w' ∧
        (S (length (walk_queue w')) + length (walk_result w) = length (walk_queue w) + length (walk_result w'))%nat
    | inr r => walk_result_ok start r
    end) as Hstep.
  { intros h n q1 q2 Hw. pose proof (walk_step_ok _ _ _ _ _ _ Hw) as Hs.
    destruct (walk_step _ _ _ _ _ _ _ _ w) as [w'|r]; [|done]. destruct Hs as [(q2' & Hw') ?].
    split; [by exists h, q1, q2'|done]. }
  intros (h & [|n q1] & q2 & Hw); [|by eapply Hstep].
  destruct q2 as [|n q2]; [|eapply Hstep, walk_next_level; [exact Hw|done]].
  unfold walk_step. rewrite (walk_queued _ _ _ _ _ Hw). simpl. by eapply walk_complete.
Qed.

Lemma walk_inv_start start :
  (0 < max_nodes)%N →
  walk_inv start (MkWalk ((λ id, (id, 0%N)) <$> start) (list_to_set start) [] 0 0).
Proof.
  intros Hn. exists 0%N, start, []. split; simpl; try done.
  - by rewrite app_nil_r.
  - intros x Hx. by constructor.
  - intros x. rewrite elem_of_list_to_set, elem_of_nil. split; [intros; left; by constructor|].
    intros [Hx|[]]. inversion Hx; [done|lia].
  - by intros x ?%elem_of_nil.
  - intros x y _ Hx Hnin. inversion Hx; [done|lia].
  - split; [lia|done].
  - set_solver.
  - constructor.
  - by intros x ?%elem_of_nil.
  - split; [lia|]. unfold len. rewrite length_fmap. simpl. lia.
Qed.

Lemma walk_halts start :
  (0 < max_nodes)%N → ∃ r, loop_nat (S (length start + size (histories s)))
    (walk_step s direction predicates max_hops max_nodes seq p candidates)
    (MkWalk ((λ id, (id, 0%N)) <$> start) (list_to_set start) [] 0 0) = inr r.
Proof.
  intros Hn. apply (loop_nat_terminates _ (walk_inv start)
    (λ w, length (walk_queue w) + (size (histories s) - length (walk_result w)))%nat); [|by apply walk_inv_start|].
  - intros w w' Hw Hstep. pose proof (walk_step_cases start w Hw) as Hc. rewrite Hstep in Hc.
    destruct Hc as [Hw' Hc]. split; [done|].
    assert (∀ w, walk_inv start w → (length (walk_result w) ≤ size (histories s))%nat) as Hb.
    { intros w1 (h & q1 & q2 & H1). apply found_bound; [apply H1|]. intros x Hx. by apply (walk_new _ _ _ _ _ H1). }
    pose proof (Hb _ Hw). pose proof (Hb _ Hw'). lia.
  - simpl. rewrite length_fmap. lia.
Qed.

Lemma walk_terminates start :
  (0 < max_nodes)%N → walk_result_ok start (walk s direction predicates max_hops max_nodes seq p start candidates).
Proof.
  intros Hn. unfold walk. pose proof (walk_inv_start start Hn) as Hinv. destruct (walk_halts start Hn) as [r Hr].
  rewrite Hr. eapply (loop_nat_invariant _ (walk_inv start) (walk_result_ok start)); [|exact Hinv|exact Hr].
  intros w Hw. pose proof (walk_step_cases start w Hw) as Hc.
  destruct (walk_step _ _ _ _ _ _ _ _ w); [by destruct Hc|done].
Qed.
End traverse.

(** The traversal always answers.  It returns distinct authorised
    nodes outside the start, at most the node limit, each reached by a path of
    authorised edges within the hop limit; when the node limit was not reached it
    returns all of them.  The only failure is the scan budget, and only when the
    candidates of the workspace times the nodes exceed it. *)
Theorem traverse_exact `{!RefCodec} `{!RefCodecLaws} s start direction predicates max_hops max_nodes snap p :
  let seq := snap_commit_seq snap in
  reachable s → validate_snapshot_handle s snap = Ok tt →
  (∀ id, id ∈ start → is_authorized_node s seq p id = true) →
  (0 < max_hops ≤ U8_MAX)%N → (0 < max_nodes)%N →
  match traverse s start direction predicates max_hops max_nodes snap p with
  | Ok t => walk_done s direction predicates max_hops max_nodes seq p start (traced_value t)
  | Err e => e = ResourceExhausted ∧
      (MAX_WORKSPACE_CANDIDATES <
       len (candidate_list (workspace_candidates s p)) * (len start + N.of_nat (size (histories s))))%N
  end.
Proof.
  intros seq Hreach Hs Hstart [Hh0 Hh] Hn. pose proof (reachable_wf _ Hreach) as Hwf. unfold traverse. fold seq. rewrite Hs.
  cbn [result_bind].
  assert (for_each (check_start s seq p) start = Ok tt) as ->.
  { apply for_each_Ok, Forall_forall. intros id Hid. specialize (Hstart id Hid). unfold is_authorized_node in Hstart.
    unfold check_start. destruct (current_authorized_metadata s id seq p); [|done]. simpl.
    apply bool_decide_eq_true in Hstart. by rewrite bool_decide_eq_false_2 by tauto. }
  cbn [result_bind]. destruct (N.eqb_spec max_hops 0); [lia|]. destruct (N.eqb_spec max_nodes 0); [lia|]. cbn [orb].
  destruct (N.leb_spec (N.of_nat (length (candidate_list (workspace_candidates s p)))) MAX_WORKSPACE_CANDIDATES) as [Hb|Hb].
  - rewrite (budget_ok s p Hb). cbn [result_bind].
    pose proof (walk_terminates s direction predicates max_hops max_nodes seq p Hwf Hh start Hn) as Hw.
    destruct (walk _ _ _ _ _ _ _ _ _); exact Hw.
  - assert (ensure_workspace_candidate_budget (workspace_candidates s p) = Err ResourceExhausted) as ->.
    { unfold ensure_workspace_candidate_budget, candidate_list in *. destruct (workspace_candidates s p) as [ids|]; [|by simpl in Hb; lia].
      rewrite length_bt_elements in Hb. by destruct (N.ltb_spec MAX_WORKSPACE_CANDIDATES (N.of_nat (size ids))); [|lia]. }
    cbn [result_bind]. split; [done|].
    assert (0 < size (histories s))%nat as Hpos.
    { destruct (candidate_list (workspace_candidates s p)) as [|id l] eqn:Hc; [by simpl in Hb; lia|].
      assert (id ∈ candidate_list (workspace_candidates s p)) as (_ & r & Hr & _)%(candidate_list_spec s p id Hwf)
        by (rewrite Hc; by left).
      unfold current in Hr. destruct (histories s !! id) as [h|] eqn:Hid; [|done].
      rewrite <- (size_dom (histories s)). apply Nat.neq_0_lt_0. intros Hz%size_empty_inv.
      apply elem_of_dom_2 in Hid. set_solver. }
    unfold len in *. nia.
Qed.
