(* ===== verification/RefDelete.v ===== *)
(** * The reference engine: hard deletion

    A hard deletion erases its target and everything that depended on it before the
    transaction, for every reader and for good; the request of the transaction that
    deletes, and what that transaction created itself, are not reached. *)

From S2P Require Import Prelude.
From S2P Require Import Ordering.
From S2P Require Import Bytes.
From S2P Require Import Ieee.
From S2P Require Import Json.
From S2P Require Import Format.
From S2P Require Import RefModel.
From S2P Require Import RefEngine.
From S2P Require Import RefReads.
From S2P Require Import RefKeys.
From S2P Require Import RefInvariant.
From S2P Require Import RefRuns.
From S2P Require Import RefHistory.
From S2P Require Import RefQuery.
From S2P Require Import RefTraverse.

Section delete.
Context `{!RefCodec}.

(** The tombstone that the deletion of [target] leaves for [id]. *)
Definition left_tombstone (s : State) (target requested_by reason : string) (c : N) (id : string) : DeletionTombstone :=
  MkDeletionTombstone id requested_by (if bool_decide (id = target) then reason else "dependency_of:" +:+ target) c
    (erased_refs s id).

Lemma erased_refs_delete target requested_by reason c d id id' :
  erased_refs (delete_one target requested_by reason c d id).1 id' = erased_refs d.1 id'.
Proof. by destruct d. Qed.

Lemma left_tombstone_delete target requested_by reason c d id id' :
  left_tombstone (delete_one target requested_by reason c d id).1 target requested_by reason c id'
  = left_tombstone d.1 target requested_by reason c id'.
Proof. by destruct d. Qed.

Lemma delete_many_keeps_erased target requested_by reason c ids d ref :
  contents d.1 !! ref = None → contents (foldl (delete_one target requested_by reason c) d ids).1 !! ref = None.
Proof.
  revert d; induction ids as [|id ids IH]; intros d Hd; simpl; [done|]. apply IH. destruct d as [s affected]. simpl in *.
  apply map_lookup_filter_None. by left.
Qed.

Lemma delete_many_keeps_tombstone target requested_by reason c ids d id :
  id ∉ ids → tombstones (foldl (delete_one target requested_by reason c) d ids).1 !! id = tombstones d.1 !! id.
Proof.
  revert d; induction ids as [|id' ids IH]; intros d Hid; simpl; [done|].
  apply not_elem_of_cons in Hid as [Hne Hnin]. rewrite IH by done. destruct d. simpl. by rewrite lookup_insert_ne.
Qed.

(** Every deleted identity gets its tombstone and loses its contents. *)
Lemma delete_many_erases target requested_by reason c ids d id :
  NoDup ids → id ∈ ids →
  let d' := foldl (delete_one target requested_by reason c) d ids in
  tombstones d'.1 !! id = Some (left_tombstone d.1 target requested_by reason c id) ∧
  ∀ ref, ref ∈ erased_refs d.1 id → contents d'.1 !! ref = None.
Proof.
  revert d; induction ids as [|id' ids IH]; intros d Hnd Hin; [by apply elem_of_nil in Hin|].
  apply NoDup_cons in Hnd as [Hnin Hnd]. cbn [foldl]. apply elem_of_cons in Hin as [->|Hin].
  - split.
    + rewrite delete_many_keeps_tombstone by done. destruct d. simpl. by rewrite lookup_insert_eq.
    + intros ref Href. apply delete_many_keeps_erased. destruct d as [s affected]. simpl in *.
      apply map_lookup_filter_None. right. intros v _ Hn. by apply Hn.
  - destruct (IH (delete_one target requested_by reason c d id') Hnd Hin) as [Ht He].
    rewrite left_tombstone_delete in Ht. setoid_rewrite erased_refs_delete in He. done.
Qed.

Lemma hard_delete_inv d target requested_by reason c d' :
  hard_delete d target requested_by reason c = Ok d' →
  d' = foldl (delete_one target requested_by reason c) d (bt_elements (deletion_closure d.1 target)).
Proof. unfold hard_delete. destruct (_ || _ || _); [done|]. destruct (_ || _); [done|]. by intros [= <-]. Qed.

Lemma hard_delete_erases d target requested_by reason c d' id :
  hard_delete d target requested_by reason c = Ok d' → doomed d.1 target id →
  tombstones d'.1 !! id = Some (left_tombstone d.1 target requested_by reason c id) ∧
  ∀ ref, ref ∈ erased_refs d.1 id → contents d'.1 !! ref = None.
Proof.
  intros ->%hard_delete_inv Hd. apply delete_many_erases; [apply bt_elements_NoDup|].
  by apply bt_elements_elem, deletion_closure_spec.
Qed.
End delete.

Section final.
Context `{!RefCodec} `{!RefCodecLaws}.

(** Content that a deletion erased does not come back while the state evolves. *)
Lemma erased_stays n s0 s s' id ref :
  primary_ok (n + 1) s0 → (∀ r, r ∈ journal s0 → (jr_commit_seq r ≤ n)%N) →
  evolves n s s' → has_tombstone s id = true → ref ∈ erased_refs s0 id →
  contents s !! ref = None → contents s' !! ref = None.
Proof.
  intros Hok Hj He Ht Href Hnone. destruct (contents s' !! ref) as [v|] eqn:Hv; [|done]. exfalso.
  apply erased_refs_elem in Href as [(h & r & Hh & Hr & ->)|[(o & Ho & ->)|(r & Hr & _ & ->)]].
  - destruct (primary_revisions _ _ Hok _ _ _ Hh Hr) as [Hk _ _].
    rewrite (evolves_final _ _ _ He "record" id _ _ _ ltac:(by left) Hk Ht Hv) in Hnone. done.
  - destruct (primary_observations _ _ Hok _ _ Ho) as (_ & _ & _ & Hk & _).
    rewrite (evolves_final _ _ _ He "observation" id _ _ _ ltac:(by right; left) Hk Ht Hv) in Hnone. done.
  - destruct (primary_requests _ _ Hok _ Hr) as (class & owner & Hc & Hk & _).
    rewrite (evolves_erased _ _ _ He class owner _ _ _ (journal_class_colon_free _ Hc) (Hj _ Hr) Hk Hv) in Hnone. done.
Qed.

(** ** What no read returns *)

Definition refused {A} (r : Res A) : Prop := ∃ e, r = Err e.

(** No read of records or observations returns anything of [id]: the reads of one
    record refuse it; scans and searches do not list it, in the answer or the trace;
    a traversal does not start at it, return it, go through it or along it. *)
Record unreadable `{!Unicode} (s : State) (id : string) : Prop := {
  un_get snap p : refused (get s id snap p);
  un_get_typed kind snap p : refused (get_typed s id kind snap p);
  un_history snap p : refused (history s id snap p);
  un_history_typed kind snap p : refused (history_typed s id kind snap p);
  un_metadata snap p : refused (authorized_record_metadata s id snap p);
  un_observation snap p : refused (get_observation s id snap p);
  un_authorize snap p : refused (authorize_observation s id snap p);
  un_scan kind snap p t : scan_kind s kind snap p = Ok t →
    id ∉ (sr_id ∘ mr_revision) <$> traced_value t ∧ id ∉ tr_selected_ids (traced_trace t);
  un_lexical nan_negative query limit snap p t : lexical_search nan_negative s query limit snap p = Ok t →
    id ∉ hit_id <$> traced_value t ∧ id ∉ tr_selected_ids (traced_trace t);
  un_vector nan_negative query limit snap p t : vector_search nan_negative s query limit snap p = Ok t →
    id ∉ hit_id <$> traced_value t ∧ id ∉ tr_selected_ids (traced_trace t);
  un_traverse start direction predicates max_hops max_nodes snap p t : (max_hops ≤ U8_MAX)%N →
    traverse s start direction predicates max_hops max_nodes snap p = Ok t →
    id ∉ start ∧ id ∉ traced_value t ∧ id ∉ tr_selected_ids (traced_trace t) ∧
    ∀ x, x ∈ traced_value t → within s direction predicates (snap_commit_seq snap) p start max_hops x;
  un_path direction predicates seq p a b :
    ¬ adjacent s direction predicates seq p a id ∧ ¬ edge_between s direction predicates seq p id a b;
}.

Section deleted.
Context (s : State) (id : string).
Hypothesis Hwf : wf s.
Hypothesis Ht : has_tombstone s id = true.

Lemma deleted_unusable p : current_use_policy_allows s id p = false.
Proof. unfold current_use_policy_allows. by rewrite Ht. Qed.

Lemma deleted_no_node seq p : is_authorized_node s seq p id = false.
Proof. unfold is_authorized_node, current_authorized_metadata. by rewrite deleted_unusable. Qed.

Lemma deleted_not_candidate p : id ∉ candidate_list (workspace_candidates s p).
Proof. rewrite candidate_list_spec by done. unfold lives_in. rewrite Ht. by intros [? _]. Qed.

Lemma deleted_not_scanned kind snap p t :
  scan_kind s kind snap p = Ok t → id ∉ (sr_id ∘ mr_revision) <$> traced_value t ∧ id ∉ tr_selected_ids (traced_trace t).
Proof.
  unfold scan_kind. intros ([] & Hs & ([] & _ & Hscan)%result_bind_Ok)%result_bind_Ok.
  rewrite scan_candidates_eq in Hscan by done. injection Hscan as <-. cbn [traced_value traced_trace tr_selected_ids trace].
  refine ((λ Hno, conj Hno Hno) _). intros (m & Heq & (id' & Hin & Hm)%list_elem_of_omap)%list_elem_of_fmap. unfold compose in Heq.
  destruct (read_active s snap p id') as [m'|] eqn:Hr; [|done]. apply read_active_id in Hr as <-; [|done].
  simpl in Hm. unfold of_kind in Hm. case_bool_decide; [|done]. injection Hm as ->. apply (deleted_not_candidate p). by rewrite Heq.
Qed.

Lemma search_hits_candidates k p score found :
  search_candidates s k p score = Ok found → ∀ h, h ∈ found.2 → hit_id h ∈ candidate_list (workspace_candidates s p).
Proof.
  unfold search_candidates. intros ([] & _ & Hfold)%result_bind_Ok.
  refine (try_fold_invariant (λ done (found : N * list SearchHit), ∀ h, h ∈ found.2 → hit_id h ∈ done) _ _ [] _ _ _ _ Hfold).
  - intros h Hh. by apply elem_of_nil in Hh.
  - intros pre [n hits] x acc' Hpre Hx h Hh. simpl in Hpre. apply elem_of_app. unfold search_candidate in Hx.
    apply result_bind_Ok in Hx as ([r|] & _ & Hx); [|injection Hx as <-; left; by apply Hpre].
    destruct (negb _); [injection Hx as <-; left; by apply Hpre|]. apply result_bind_Ok in Hx as (c & _ & Hx).
    destruct (score c); injection Hx as <-; simpl in Hh; [|left; by apply Hpre].
    apply elem_of_app in Hh as [Hh|Hh]; [left; by apply Hpre|right]. apply list_elem_of_singleton in Hh as ->. by left.
Qed.

Lemma deleted_not_hit nan_negative k p operation limit score found :
  search_candidates s k p score = Ok found →
  let t := traced_hits nan_negative s k p operation limit found in
  id ∉ hit_id <$> traced_value t ∧ id ∉ tr_selected_ids (traced_trace t).
Proof.
  intros Hf. cbn [traced_hits traced_value traced_trace tr_selected_ids trace]. refine ((λ Hno, conj Hno Hno) _).
  intros (h & Heq & (i & Hh%list_elem_of_lookup_2 & _)%elem_of_take)%list_elem_of_fmap. unfold sort_hits in Hh. rewrite sort_by_Permutation in Hh.
  apply (deleted_not_candidate p). rewrite Heq. by eapply search_hits_candidates.
Qed.

Lemma deleted_not_lexical `{!Unicode} nan_negative query limit snap p t :
  lexical_search nan_negative s query limit snap p = Ok t →
  id ∉ hit_id <$> traced_value t ∧ id ∉ tr_selected_ids (traced_trace t).
Proof.
  unfold lexical_search. intros ([] & _ & Hl)%result_bind_Ok. destruct (_ || _).
  - injection Hl as <-. split; apply not_elem_of_nil.
  - apply result_bind_Ok in Hl as (found & Hf & [= <-]). by eapply deleted_not_hit.
Qed.

Lemma deleted_not_vector nan_negative query limit snap p t :
  vector_search nan_negative s query limit snap p = Ok t →
  id ∉ hit_id <$> traced_value t ∧ id ∉ tr_selected_ids (traced_trace t).
Proof.
  unfold vector_search. destruct (bad_vector _); [done|]. intros ([] & _ & (found & Hf & [= <-])%result_bind_Ok)%result_bind_Ok.
  destruct (0 <? limit)%N; [by eapply deleted_not_hit|]. injection Hf as <-.
  cbn [traced_hits traced_value traced_trace tr_selected_ids trace snd sort_hits sort_by foldr]. rewrite take_nil. split; apply not_elem_of_nil.
Qed.

Lemma deleted_not_traversed start direction predicates max_hops max_nodes snap p t :
  (max_hops ≤ U8_MAX)%N → traverse s start direction predicates max_hops max_nodes snap p = Ok t →
  id ∉ start ∧ id ∉ traced_value t ∧ id ∉ tr_selected_ids (traced_trace t) ∧
  ∀ x, x ∈ traced_value t → within s direction predicates (snap_commit_seq snap) p start max_hops x.
Proof.
  intros Hh. unfold traverse. intros ([] & _ & ([] & Hstart%for_each_Ok & Htr)%result_bind_Ok)%result_bind_Ok. split.
  { intros Hin. rewrite Forall_forall in Hstart. specialize (Hstart id Hin). unfold check_start, current_authorized_metadata in Hstart.
    by rewrite deleted_unusable in Hstart. }
  destruct ((max_hops =? 0) || (max_nodes =? 0))%N eqn:Hzero.
  { injection Htr as <-. split_and!; [apply not_elem_of_nil..|]. by intros x ?%elem_of_nil. }
  apply orb_false_iff in Hzero as [_ Hn%N.eqb_neq]. apply result_bind_Ok in Htr as ([] & _ & (w & Hw & [= <-])%result_bind_Ok).
  pose proof (walk_terminates s direction predicates max_hops max_nodes (snap_commit_seq snap) p Hwf Hh start ltac:(lia)) as Hdone.
  rewrite Hw in Hdone. cbn [traced_value traced_trace tr_selected_ids trace].
  pose proof (λ x, done_sound _ _ _ _ _ _ _ _ _ Hdone x) as Hsound.
  assert (id ∉ walk_result w) as Hno by (intros (_ & Hok & _)%Hsound; by rewrite deleted_no_node in Hok).
  split_and!; [done|done|]. by intros x (_ & _ & ?)%Hsound.
Qed.

Lemma tombstone_unreadable `{!Unicode} : unreadable s id.
Proof.
  assert (∀ k p, private_revision_metadata s id k p = Err Unauthorized) as Hprivate
    by (intros k p; unfold private_revision_metadata; by rewrite Ht).
  split.
  1-7: intros; unfold get, materialize_at, get_typed, history, history_typed, authorized_record_metadata, get_observation,
    authorize_observation, refused; rewrite ?Hprivate, ?Ht; destruct (validate_snapshot_handle s snap); simpl; by eexists.
  - intros kind snap p t. apply deleted_not_scanned.
  - intros nan_negative query limit snap p t. apply deleted_not_lexical.
  - intros nan_negative query limit snap p t. apply deleted_not_vector.
  - intros start direction predicates max_hops max_nodes snap p t. apply deleted_not_traversed.
  - intros direction predicates seq p a b. split.
    + intros [Hok _]. by rewrite deleted_no_node in Hok.
    + intros [Hno _]. by rewrite Ht in Hno.
Qed.
End deleted.

Lemma tombstones_has s id t : tombstones s !! id = Some t → has_tombstone s id = true.
Proof. intros Ht. unfold has_tombstone. rewrite Ht. by apply bool_decide_eq_true. Qed.

(** C4: A hard deletion, wherever it stands in an acknowledged transaction, reaches
    its target and every record that depended on it, directly or through others, in
    the revisions of the state before the transaction.  Each of them keeps a
    tombstone that names the actor and the erased contents, and in every later state,
    whatever is written, no read of records or observations returns, lists, traces or
    traverses it, and every content that its revisions and its observation had when
    it was deleted, and every request of an earlier journal record that concerned
    it, is gone. *)
Theorem hard_deletion_is_final `{!Unicode} s txn pre target requested_by reason post s' receipt d ws id :
  reachable s → mutations txn = pre ++ Delete target requested_by reason :: post →
  commit s txn = (s', Ok receipt) → cr_replayed receipt = false →
  try_fold (apply_mutation (head s + 1)) (s, ∅) pre = Ok d → doomed d.1 target id →
  let later := run s' ws in
  tombstone later id = Some (left_tombstone d.1 target requested_by reason (cr_commit_seq receipt) id) ∧
  unreadable later id ∧ ∀ ref, ref ∈ erased_refs d.1 id → contents later !! ref = None.
Proof.
  intros Hreach Hmuts Hcommit Hrep Hpre Hdoom later. pose proof (reachable_wf _ Hreach) as Hwf.
  pose proof (commit_published _ _ _ _ Hcommit Hrep) as Hprep.
  pose proof (prepare_wf s (WCommit txn NoFailpoint) s' receipt Hwf Hprep) as Hwf'.
  apply prepare_commit_inv in Hprep as (draft & affected & rd & request & _ & Hfold & _ & (w & _ & Hreq) & Hpub).
  rewrite Hmuts, try_fold_app, Hpre in Hfold. simpl in Hfold. apply result_bind_Ok in Hfold as (d1 & Hdel & Hpost).
  destruct (hard_delete_erases _ _ _ _ _ _ id Hdel Hdoom) as [Ht He].
  assert (primary_ok (head s + 1) s) as Hok by (apply primary_ok_mono with (head s); [apply wf_primary, Hwf|lia]).
  pose proof (apply_mutations_steps _ _ _ _ Hpre) as Hsteps.
  assert (primary_ok (head s + 1) d.1) as Hokd by (eapply draft_steps_ok; [exact Hsteps|lia|done]).
  assert (primary_ok (head s + 1) d1.1) as Hokd1 by (eapply draft_steps_ok; [by eapply hard_delete_steps|lia|done]).
  apply make_content_ref_inv in Hreq as (_ & _ & Hkeyr & Hfreer).
  assert (evolves (head s) d1.1 later) as Hev.
  { apply evolves_trans with (head s) draft; [done| |apply evolves_trans with (head s) s'; [done| |]].
    - eapply (draft_steps_evolve _ (head s + 1) _ (draft, affected)); [by eapply apply_mutations_steps|lia|done].
    - eapply publication_evolves; [right; left|split; [exact Hkeyr|exact Hfreer]|exact Hpub].
    - destruct (run_evolves s' ws Hwf') as [Hrun _].
      apply evolves_trans with (head s') s'; [destruct Hpub; simpl; lia|apply evolves_refl|done]. }
  assert (tombstones later !! id = Some (left_tombstone d.1 target requested_by reason (head s + 1) id)) as Hlater
    by (by apply (evolves_tombstones _ _ _ Hev)).
  split; [destruct Hpub; exact Hlater|]. split.
  - apply tombstone_unreadable; [by apply run_wf|by eapply tombstones_has].
  - intros ref Href. eapply (erased_stays (head s) d.1 d1.1); [done| |done|by eapply tombstones_has|done|by apply He].
    apply draft_steps_frame in Hsteps as (_ & _ & _ & _ & -> & _). intros r Hr.
    by destruct (primary_requests _ _ (wf_primary _ Hwf) _ Hr) as (_ & _ & _ & _ & ?).
Qed.

(** When an acknowledged transaction writes a record and then
    deletes it, the record is deleted, but the request, which holds the content that
    was written, stays in the contents of the database. *)
Theorem deleted_write_stays_in_request s txn pre record expected requested_by reason s' receipt :
  reachable s → mutations txn = pre ++ [Put record expected; Delete (lr_id record) requested_by reason] →
  commit s txn = (s', Ok receipt) → cr_replayed receipt = false →
  has_tombstone s' (lr_id record) = true ∧
  ∃ r v, last (journal s') = Some r ∧ jr_commit_seq r = cr_commit_seq receipt ∧ to_value txn = Ok v ∧
    contents s' !! content_id (event_request (jr_event r)) = Some v.
Proof.
  intros Hreach Hmuts Hcommit Hrep. pose proof (commit_published _ _ _ _ Hcommit Hrep) as Hprep.
  apply prepare_commit_inv in Hprep as (draft & affected & rd & request & _ & Hfold & _ & (w & Hw & Hreq) & Hpub).
  rewrite Hmuts, try_fold_app in Hfold. apply result_bind_Ok in Hfold as (d & _ & Hfold). simpl in Hfold.
  apply result_bind_Ok in Hfold as (d1 & _ & Hfold). apply result_bind_Ok in Hfold as (d2 & Hdel & [= ->]).
  destruct (hard_delete_erases _ _ _ _ _ _ (lr_id record) Hdel (doomed_target _ _)) as [Ht _].
  apply make_content_ref_inv in Hreq as (Hval & _). split; [destruct Hpub; by eapply tombstones_has|].
  destruct Hpub as [record_digest ix candidates _ Hev _ _ _ next _].
  eexists _, w. split; [apply last_snoc|]. split; [done|]. split; [done|].
  cbn [jr_event event_request]. simpl. rewrite lookup_insert_eq. unfold to_value, JsonValue_ToValue in Hval. congruence.
Qed.

(** The deletion follows the references of the state before the
    transaction: a new record that the same transaction wrote before the deletion
    survives although it refers to the deleted target. *)
Theorem same_transaction_dependent_survives s txn record expected target requested_by reason s' receipt :
  reachable s → mutations txn = [Put record expected; Delete target requested_by reason] →
  histories s !! lr_id record = None → lr_id record ≠ target → refers_to (lr_links record) target →
  commit s txn = (s', Ok receipt) → cr_replayed receipt = false →
  has_tombstone s' target = true ∧ has_tombstone s' (lr_id record) = false ∧
  ∃ r, current s' (lr_id record) (head s') = Some r ∧ refers_to (m_links (sr_record r)) target.
Proof.
  intros Hreach Hmuts Hnone Hne Href Hcommit Hrep. pose proof (commit_published _ _ _ _ Hcommit Hrep) as Hprep.
  apply prepare_commit_inv in Hprep as (draft & affected & rd & request & _ & Hfold & _ & _ & Hpub).
  rewrite Hmuts in Hfold. cbn [try_fold apply_mutation] in Hfold.
  apply result_bind_Ok in Hfold as (d1 & Hput & Hfold). apply result_bind_Ok in Hfold as (d2 & Hdel & [= ->]).
  destruct (hard_delete_erases _ _ _ _ _ _ target Hdel (doomed_target _ _)) as [Ht _].
  apply put_record_inv in Hput as (revision & content & -> & _ & Hlive & _). apply hard_delete_inv in Hdel.
  cbn [fst snd] in *. set (s1 := store_revision s record revision (head s + 1) content) in *.
  set (stored_r := MkStoredRevision (lr_id record) revision (head s + 1) None (record_metadata record) content.1).
  assert (histories s1 !! lr_id record = Some [stored_r]) as Hh1.
  { unfold s1. simpl. rewrite lookup_insert_eq, Hnone. done. }
  assert (lr_id record ∉ bt_elements (deletion_closure s1 target)) as Hnin.
  { rewrite bt_elements_elem, deletion_closure_spec. inversion 1 as [Heq|id x r _ Hr _ _ Heq]; [done|].
    unfold current in Hr. rewrite Hh1 in Hr. unfold revision_at, visible_at in Hr. simpl in Hr.
    by destruct (N.leb_spec (head s + 1) (head s)); [lia|]. }
  assert (has_tombstone draft (lr_id record) = false) as Hlive'.
  { apply (f_equal fst) in Hdel. cbn [fst] in Hdel. unfold has_tombstone. rewrite Hdel, delete_many_keeps_tombstone by done. exact Hlive. }
  assert (histories draft = histories s1) as Hhist.
  { apply (f_equal fst) in Hdel. cbn [fst] in Hdel. rewrite Hdel. generalize (bt_elements (deletion_closure s1 target)) as ids. intros ids.
    clear. generalize ({[lr_id record]} ∪ (∅ : gset string)) as a. clearbody s1. revert s1.
    induction ids as [|id ids IH]; intros s1 a; [done|]. simpl. by rewrite IH. }
  destruct Hpub. split; [by eapply tombstones_has|]. split; [exact Hlive'|].
  exists stored_r. split; [|exact Href]. unfold current. simpl. rewrite Hhist, Hh1. unfold revision_at, visible_at. simpl.
  by rewrite N.leb_refl.
Qed.
End final.
