(* ===== verification/RefClaims.v ===== *)
(** * The reference engine: single-valued claims

    Two live claims compete when both are active, single-valued and speak of the
    same subject and predicate in the same workspace and scopes.  In every reachable
    state competing claims share a conflict set that lists both. *)

From S2P Require Import Prelude.
From S2P Require Import Ordering.
From S2P Require Import Bytes.
From S2P Require Import Json.
From S2P Require Import Format.
From S2P Require Import RefModel.
From S2P Require Import RefEngine.
From S2P Require Import RefReads.
From S2P Require Import RefKeys.
From S2P Require Import RefInvariant.
From S2P Require Import RefRuns.
From S2P Require Import RefHistory.
From S2P Require Import RefQuery.
From S2P Require Import RefDelete.

Definition competing (a b : LogicalRecordMetadata) : Prop :=
  (m_kind a = Claim ∧ m_lifecycle a = Active ∧ l_single_valued (m_links a) = true) ∧
  (m_kind b = Claim ∧ m_lifecycle b = Active ∧ l_single_valued (m_links b) = true) ∧
  l_subject (m_links a) = l_subject (m_links b) ∧ l_predicate (m_links a) = l_predicate (m_links b) ∧
  workspace (m_access a) = workspace (m_access b) ∧ scopes (m_access a) = scopes (m_access b).

Definition same_set (a b : LogicalRecordMetadata) : Prop :=
  ∃ k, l_conflict_set (m_links a) = Some k ∧ l_conflict_set (m_links b) = Some k.

Lemma competing_sym a b : competing a b → competing b a.
Proof. unfold competing. naive_solver. Qed.
Lemma same_set_sym a b : same_set a b → same_set b a.
Proof. unfold same_set. naive_solver. Qed.

(** No two live claims compete without a common conflict set. *)
Definition unambiguous (n : N) (s : State) : Prop :=
  ∀ id id' r r', id ≠ id' → has_tombstone s id = false → has_tombstone s id' = false →
    current s id n = Some r → current s id' n = Some r' → competing (sr_record r) (sr_record r') →
    same_set (sr_record r) (sr_record r').

Lemma for_each_elem {E A} (f : A → result E unit) l x : for_each f l = Ok tt → x ∈ l → f x = Ok tt.
Proof. intros Hf Hx. apply for_each_Ok in Hf. rewrite Forall_forall in Hf. by apply Hf. Qed.

Section claims.
Context `{!RefCodec}.

(** The check of a claim against every other live record. *)
Lemma validate_record_unambiguous s record c id r :
  validate_record s record c = Ok tt → id ≠ lr_id record → has_tombstone s id = false → current s id c = Some r →
  competing (record_metadata record) (sr_record r) → same_set (record_metadata record) (sr_record r).
Proof.
  intros Hv Hne Ht Hr ((Hkind & Hact & Hsv) & (Hk & Ha & Hs) & Hsub & Hpred & Hws & Hsc). simpl in *.
  unfold validate_record in Hv. destruct (_ || _) in Hv; [done|]. res_inv. destruct (bad_vector _); [done|]. res_inv.
  rewrite Hkind in *. res_inv. destruct (no_predicate record); [done|].
  assert (validate_cardinality s record c = Ok tt) as Hcard by done. unfold validate_cardinality in Hcard.
  rewrite Hsv in Hcard. unfold is_active in Hcard. rewrite bool_decide_eq_true_2 in Hcard by done. simpl in Hcard.
  unfold current in Hr. destruct (histories s !! id) as [h|] eqn:Hh; [|done]. simpl in Hr.
  apply for_each_elem with (x := (id, h)) in Hcard; [|by apply bt_entries_elem].
  unfold check_slot in Hcard. rewrite bool_decide_eq_false_2, Ht, Hr in Hcard by done. simpl in Hcard.
  assert (same_slot record (sr_record r) = true) as Hslot.
  { unfold same_slot, is_active. rewrite !andb_true_iff, !bool_decide_eq_true. done. }
  rewrite Hslot in Hcard. unfold same_conflict in Hcard. simpl in Hcard.
  case_bool_decide as Hsome; simpl in Hcard; [|done]. case_bool_decide as Heq; [|done].
  destruct Hsome as [k Hk']. exists k. simpl. split; congruence.
Qed.

Lemma current_store s record revision c content id :
  current (store_revision s record revision c content) id c =
  if decide (lr_id record = id) then Some (MkStoredRevision (lr_id record) revision c None (record_metadata record) content.1)
  else current s id c.
Proof.
  unfold current, store_revision. simpl.
  destruct (decide (lr_id record = id)) as [<-|Hne]; [rewrite lookup_insert_eq|by rewrite lookup_insert_ne].
  simpl. by apply (revision_at_extend_new c).
Qed.

Lemma draft_step_unambiguous c d d' : draft_step c d d' → unambiguous c d.1 → unambiguous c d'.1.
Proof.
  destruct 1 as [s affected record revision content Hv Ht _ _ _ _ _|s affected target requested_by reason id Ht _]; intros Hok.
  - simpl in *. intros id id' r r' Hne Hid Hid' Hr Hr' Hcomp.
    change (has_tombstone s id = false) in Hid. change (has_tombstone s id' = false) in Hid'.
    rewrite current_store in Hr, Hr'. 
    destruct (decide (lr_id record = id)) as [<-|Hd], (decide (lr_id record = id')) as [<-|Hd'].
    + done.
    + injection Hr as <-. simpl in *. by eapply validate_record_unambiguous.
    + injection Hr' as <-. apply same_set_sym. apply competing_sym in Hcomp. simpl in *.
      by eapply validate_record_unambiguous.
    + by apply (Hok id id' r r').
  - intros id1 id2 r1 r2 Hne. rewrite !delete_one_tombstones, !orb_false_iff. intros [_ H1] [_ H2]. by apply Hok.
Qed.

Lemma draft_steps_unambiguous c d d' : rtc (draft_step c) d d' → unambiguous c d.1 → unambiguous c d'.1.
Proof. induction 1; eauto using draft_step_unambiguous. Qed.

Lemma current_head_next s id : primary_ok (head s) s → current s id (head s + 1) = current s id (head s).
Proof.
  intros Hok. unfold current. destruct (histories s !! id) as [h|] eqn:Hh; [|done]. simpl.
  pose proof (primary_histories _ _ Hok _ _ Hh) as Hhist.
  rewrite !(revision_at_last _ _ _ Hhist) by lia. done.
Qed.
End claims.

Section reached.
Context `{!RefCodec} `{!RefCodecLaws}.

(** What every published state satisfies. *)
Definition claims_ok (s : State) : Prop := unambiguous (head s) s ∧ validate_complete_state s (head s) = Ok tt.

Lemma validate_complete_state_ext s s' n n' :
  histories s' = histories s → tombstones s' = tombstones s → (∀ id, current s id n' = current s id n) →
  validate_complete_state s' n' = validate_complete_state s n.
Proof.
  intros Hh Ht Hc. unfold validate_complete_state. rewrite Hh.
  assert (∀ id, has_tombstone s' id = has_tombstone s id) as Htomb by (intros; unfold has_tombstone; by rewrite Ht).
  assert (∀ id, current s' id n' = current s id n) as Hcur by (intros; rewrite <- Hc; unfold current; by rewrite Hh).
  assert (∀ e, e ∈ bt_entries (histories s) → check_entry s' n' e = check_entry s n e) as Hentry.
  { intros [id h] Hin%bt_entries_elem. unfold check_entry. rewrite Htomb. destruct (has_tombstone s id); [done|].
    specialize (Hc id). unfold current in Hc. rewrite Hin in Hc. simpl in Hc. rewrite Hc.
    destruct (revision_at h n) as [r|]; [|done]. destruct (m_kind (sr_record r)); try done.
    - destruct (l_conflict_set _); [|done]. by rewrite Hcur.
    - induction (bt_elements (l_conflict_members (m_links (sr_record r)))) as [|x xs IH]; [done|]. simpl. by rewrite Hcur, IH. }
  induction (bt_entries (histories s)) as [|e es IH]; [done|]. simpl. rewrite Hentry by by left.
  rewrite IH; [done|]. intros e' He'. apply Hentry. by right.
Qed.

Lemma unambiguous_ext s s' n n' :
  tombstones s' = tombstones s → (∀ id, current s' id n' = current s id n) → unambiguous n s → unambiguous n' s'.
Proof.
  intros Ht Hc Hok id id' r r'. unfold has_tombstone. rewrite Ht, !Hc. apply Hok.
Qed.

Lemma prepare_claims_ok s w next receipt :
  wf s → claims_ok s → prepare s w = Ok (inr (next, receipt)) → claims_ok next.
Proof.
  intros Hwf [Hu Hc] Hp. pose proof (prepare_wf _ _ _ _ Hwf Hp) as Hwf'.
  apply prepare_inv in Hp as (draft & rd & request & event & class & owner & Hch & _ & _ & _ & _ & Hpub).
  pose proof (current_head_next s) as Hnext.
  destruct Hch as [input content rd' ref id|muts draft affected rd' ref Hsteps Hvalid].
  - destruct Hpub. split.
    + apply (unambiguous_ext s _ (head s)); [done| |done]. intros i. by apply Hnext, wf_primary.
    + etrans; [|exact Hc]. apply validate_complete_state_ext; [done|done|]. intros i. by apply Hnext, wf_primary.
  - assert (unambiguous (head s + 1) draft) as Hu'.
    { eapply (draft_steps_unambiguous _ (s, ∅) (draft, affected)); [by eapply apply_mutations_steps|].
      apply (unambiguous_ext s _ (head s)); [done| |done]. intros i. by apply Hnext, wf_primary. }
    destruct Hpub. split.
    + by apply (unambiguous_ext draft _ (head s + 1)).
    + etrans; [|exact Hvalid]. by apply validate_complete_state_ext.
Qed.

Lemma reachable_claims_ok s : reachable s → claims_ok s.
Proof.
  intros (id & s0 & ws & Hnew & ->). pose proof (ContextDb_new_wf _ _ Hnew) as Hwf.
  assert (claims_ok s0) as Hok.
  { unfold ContextDb_new in Hnew. destruct (trim_is_empty id); [done|]. injection Hnew as <-. by split. }
  clear Hnew. revert s0 Hwf Hok. induction ws as [|w ws IH]; intros s0 Hwf Hok; simpl; [done|].
  apply IH; [by apply run_write_wf|]. destruct (run_write_cases s0 w) as [->|(receipt & Hp)]; [done|].
  by eapply prepare_claims_ok.
Qed.

(** A live claim that names a conflict set is a member of the active conflict
    record of that name. *)
Lemma conflict_set_lists s n id r k :
  validate_complete_state s n = Ok tt → has_tombstone s id = false → current s id n = Some r →
  m_kind (sr_record r) = Claim → l_conflict_set (m_links (sr_record r)) = Some k →
  ∃ c, current s k n = Some c ∧ m_kind (sr_record c) = Conflict ∧ m_lifecycle (sr_record c) = Active ∧
    id ∈ l_conflict_members (m_links (sr_record c)).
Proof.
  intros Hv Ht Hr Hkind Hk. pose proof Hr as Hr'. unfold current in Hr'.
  destruct (histories s !! id) as [h|] eqn:Hh; [|done]. simpl in Hr'.
  apply for_each_elem with (x := (id, h)) in Hv; [|by apply bt_entries_elem].
  unfold check_entry in Hv. rewrite Ht, Hr', Hkind, Hk in Hv. apply result_bind_Ok in Hv as (c & Hc%ok_or_Ok & Hv).
  destruct (current s k n) as [c'|]; [|done]. simpl in Hc. unfold is_active in Hc.
  destruct (_ && _) eqn:Hand in Hc; [|done]. injection Hc as <-.
  apply andb_true_iff in Hand as [?%bool_decide_eq_true ?%bool_decide_eq_true]. case_bool_decide; [|done]. eauto.
Qed.

(** In every state of the database two different live claims that
    compete for one single-valued slot name the same conflict set, an active conflict
    record that lists both. *)
Theorem competing_claims_share_conflict s id id' r r' :
  reachable s → id ≠ id' → has_tombstone s id = false → has_tombstone s id' = false →
  current s id (head s) = Some r → current s id' (head s) = Some r' → competing (sr_record r) (sr_record r') →
  ∃ k c, l_conflict_set (m_links (sr_record r)) = Some k ∧ l_conflict_set (m_links (sr_record r')) = Some k ∧
    current s k (head s) = Some c ∧ m_kind (sr_record c) = Conflict ∧ m_lifecycle (sr_record c) = Active ∧
    id ∈ l_conflict_members (m_links (sr_record c)) ∧ id' ∈ l_conflict_members (m_links (sr_record c)).
Proof.
  intros Hreach Hne Ht Ht' Hr Hr' Hcomp. destruct (reachable_claims_ok s Hreach) as [Hu Hv].
  destruct (Hu id id' r r') as (k & Hk & Hk'); try done. destruct Hcomp as ((Hc1 & _) & (Hc2 & _) & _).
  destruct (conflict_set_lists s _ id r k Hv Ht Hr Hc1 Hk) as (c & Hc & ? & ? & ?).
  destruct (conflict_set_lists s _ id' r' k Hv Ht' Hr' Hc2 Hk') as (c' & Hc' & _ & _ & ?).
  assert (c' = c) as -> by congruence. exists k, c. done.
Qed.
End reached.
