(* ===== verification/RefRetry.v ===== *)
(** * The reference engine: retries and crashes

    A write takes effect once: a crash before publication leaves the state as it
    was, and after publication every retry gets the first receipt and changes
    nothing, whatever was written in between. *)

From S2P Require Import Prelude.
From S2P Require Import Ordering.
From S2P Require Import Bytes.
From S2P Require Import Json.
From S2P Require Import Format.
From S2P Require Import RefModel.
From S2P Require Import RefEngine.
From S2P Require Import RefReads.
From S2P Require Import RefInvariant.
From S2P Require Import RefRuns.
From S2P Require Import RefHistory.

Section retry.
Context `{!RefCodec} `{!RefCodecLaws}.

(** The same write, sent again with another crash point. *)
Definition with_failpoint (f : Failpoint) (w : Write) : Write :=
  match w with
  | WObserve input _ => WObserve input f
  | WCommit transaction _ => WCommit transaction f
  | WCore transaction request => WCore transaction request
  end.

Lemma prepare_with_failpoint s w f : prepare s (with_failpoint f w) = prepare s w.
Proof. by destruct w. Qed.

(** What a prepared write left in the idempotency table. *)
Lemma prepare_receipt s w next receipt :
  prepare s w = Ok (inr (next, receipt)) →
  ∃ rd, write_digest w = Ok rd ∧ idempotency s !! write_key w = None ∧
    idempotency next = <[write_key w := MkIdempotencyRecord rd receipt]> (idempotency s) ∧
    cr_commit_seq receipt = head next ∧ head next = (head s + 1)%N ∧ cr_replayed receipt = false.
Proof.
  intros (draft & rd & request & event & class & owner & _ & Hd & Hnone & _ & _ & Hpub)%prepare_inv.
  exists rd. destruct Hpub. done.
Qed.

Lemma run_keeps_receipt s ws key ir : idempotency s !! key = Some ir → idempotency (run s ws) !! key = Some ir.
Proof.
  revert s; induction ws as [|w ws IH]; intros s Hk; [done|].
  change (run s (w :: ws)) with (run (run_write s w).1 ws). apply IH.
  destruct (run_write_cases s w) as [->|(receipt & Hp)]; [done|].
  apply prepare_receipt in Hp as (rd & _ & Hnone & -> & _). rewrite lookup_insert_ne; [done|]. intros <-. congruence.
Qed.

Lemma replay_found s key rd receipt :
  idempotency s !! key = Some (MkIdempotencyRecord rd receipt) →
  replay_or_conflict s key rd = Ok (Some (as_replay receipt)).
Proof. intros Hk. apply replay_or_conflict_Ok. by rewrite Hk. Qed.

(** The checks before the lookup do not depend on the state. *)
Lemma prepare_replay s s' w next receipt rd receipt' :
  prepare s w = Ok (inr (next, receipt)) → write_digest w = Ok rd →
  idempotency s' !! write_key w = Some (MkIdempotencyRecord rd receipt') →
  prepare s' w = Ok (inl (as_replay receipt')).
Proof.
  destruct w as [input f|txn f|txn request]; simpl; intros Hp Hd Hk; apply (replay_found _ _ rd) in Hk; unfold write_key in Hk.
  - unfold prepare_observation in *. res_inv. rewrite Hm. simpl. rewrite Hd. simpl. by rewrite Hk.
  - unfold prepare_commit in *. destruct (trim_is_empty _); [done|]. destruct (is_empty _); [done|].
    rewrite Hd. simpl. by rewrite Hk.
  - unfold prepare_core in *. destruct (is_empty _); [done|]. rewrite Hd. simpl. by rewrite Hk.
Qed.

(** Another request under a key that is taken is refused. *)
Lemma prepare_conflict s w ir :
  idempotency s !! write_key w = Some ir → write_digest w ≠ Ok (ir_request_digest ir) → ∃ e, prepare s w = Err e.
Proof.
  intros Hk Hd. assert (∀ rd, write_digest w = Ok rd → ∃ e, replay_or_conflict s (write_key w) rd = Err e) as Hc.
  { intros rd Hrd. unfold replay_or_conflict. rewrite Hk. rewrite bool_decide_eq_true_2 by congruence. eauto. }
  unfold write_key in Hc.
  destruct w as [input f|txn f|txn request]; simpl in *.
  - unfold prepare_observation. destruct (validate_observation input); simpl; [|eauto].
    destruct (operation_digest _ _) as [rd|]; simpl; [|eauto]. destruct (Hc rd) as [e ->]; eauto.
  - unfold prepare_commit. destruct (trim_is_empty _); [eauto|]. destruct (is_empty _); [eauto|].
    destruct (operation_digest _ _) as [rd|]; simpl; [|eauto]. destruct (Hc rd) as [e ->]; eauto.
  - unfold prepare_core. destruct (is_empty _); [eauto|].
    destruct (operation_digest _ _) as [rd|]; simpl; [|eauto]. destruct (Hc rd) as [e ->]; eauto.
Qed.

Lemma run_write_refused s w e : prepare s w = Err e → run_write s w = (s, Err e).
Proof. intros Hp. by rewrite run_write_eq, Hp. Qed.

Lemma prepare_replayed s w receipt : prepare s w = Ok (inl receipt) → cr_replayed receipt = true.
Proof.
  assert (∀ key rd r, replay_or_conflict s key rd = Ok (Some r) → cr_replayed r = true) as Hr.
  { intros key rd r. rewrite replay_or_conflict_Ok. destruct (idempotency s !! key); [|done]. by intros [_ [= ->]]. }
  assert (∀ base muts class key rd v, prepare_mutations s base muts class key rd v ≠ Ok (inl receipt)) as Hm.
  { intros * (? & ? & ? & ? & ? & ? & ? & _)%prepare_mutations_inv. done. }
  destruct w as [input f|txn f|txn request]; simpl; intros Hp.
  - unfold prepare_observation in Hp. apply result_bind_Ok in Hp as (_ & _ & Hp). apply result_bind_Ok in Hp as (rd & _ & Hp).
    apply result_bind_Ok in Hp as ([r|] & Hrep & Hp); [injection Hp as <-; by eapply Hr|].
    destruct (_ || _ || _); [done|]. unfold record_receipt in Hp. by res_inv.
  - unfold prepare_commit in Hp. destruct (trim_is_empty _); [done|]. destruct (is_empty _); [done|].
    apply result_bind_Ok in Hp as (rd & _ & Hp).
    apply result_bind_Ok in Hp as ([r|] & Hrep & Hp); [injection Hp as <-; by eapply Hr|by apply Hm in Hp].
  - unfold prepare_core in Hp. destruct (is_empty _); [done|]. apply result_bind_Ok in Hp as (rd & _ & Hp).
    apply result_bind_Ok in Hp as ([r|] & Hrep & Hp); [injection Hp as <-; by eapply Hr|by apply Hm in Hp].
Qed.

(** C5: A write either leaves the state exactly as it was and
    acknowledges nothing new, or it is published as the next commit, and then in
    every later state a retry, with whatever crash point, returns the first receipt
    and changes nothing, and a different request under its key is refused and
    changes nothing.  A write that crashes before publication is of the first kind. *)
Theorem writes_happen_once s w s' r :
  run_write s w = (s', r) →
  (s' = s ∧ ∀ receipt, r = Ok receipt → cr_replayed receipt = true) ∨
  ∃ receipt, failpoint_of w ≠ BeforePublish ∧ head s' = (head s + 1)%N ∧ cr_commit_seq receipt = head s' ∧
    (r = Ok receipt ∨ r = Err (InjectedCrash "after_publish")) ∧
    ∀ ws, let later := run s' ws in
      (∀ f, run_write later (with_failpoint f w) = (later, Ok (as_replay receipt))) ∧
      ∀ w', write_key w' = write_key w → write_digest w' ≠ write_digest w → ∃ e, run_write later w' = (later, Err e).
Proof.
  intros Hw. rewrite run_write_eq in Hw. unfold publish_prepared in Hw.
  destruct (prepare s w) as [[r0|[next receipt]]|e] eqn:Hp.
  - injection Hw as <- <-. left. split; [done|]. intros receipt [= <-]. by eapply prepare_replayed.
  - pose proof (prepare_receipt _ _ _ _ Hp) as (rd & Hd & _ & Hidem & Hseq & Hhead & Hrep).
    assert (next = s' → ∀ ws, let later := run s' ws in
      (∀ f, run_write later (with_failpoint f w) = (later, Ok (as_replay receipt))) ∧
      ∀ w', write_key w' = write_key w → write_digest w' ≠ write_digest w → ∃ e, run_write later w' = (later, Err e)) as Hlater.
    { intros <- ws later.
      assert (idempotency later !! write_key w = Some (MkIdempotencyRecord rd receipt)) as Hk.
      { apply run_keeps_receipt. rewrite Hidem. by rewrite lookup_insert_eq. }
      split.
      - intros f. rewrite run_write_eq, prepare_with_failpoint. by rewrite (prepare_replay _ _ _ _ _ _ _ Hp Hd Hk).
      - intros w' Hkey Hdig. rewrite <- Hkey in Hk. destruct (prepare_conflict _ _ _ Hk) as [e He]; [simpl; congruence|].
        exists e. by apply run_write_refused. }
    destruct (failpoint_of w); simpl in Hw; injection Hw as <- <-.
    + right. exists receipt. do 3 (split; [done|]). split; [by left|by apply Hlater].
    + by left.
    + right. exists receipt. do 3 (split; [done|]). split; [by right|by apply Hlater].
  - injection Hw as <- <-. by left.
Qed.
End retry.
