(* ===== verification/RefImport.v ===== *)
(** * The reference engine: export and import

    The export of a database whose transactions write each record at most once, and
    whose values [serde_json] reads back, is accepted by the import and restores the
    state, indexes included.  A transaction
    that puts one record twice leaves a database whose export is refused. *)

From S2P Require Import Prelude.
From S2P Require Import Ordering.
From S2P Require Import Bytes.
From S2P Require Import Json.
From S2P Require Import Format.
From S2P Require Import RefModel.
From S2P Require Import RefEngine.
From S2P Require Import RefReads.
From S2P Require Import RefInvariant.
From S2P Require Import RefRuns.
From S2P Require Import RefHistory.

(** ** Numbered histories *)

(** The revisions of a history count from one. *)
Definition numbered (h : list StoredRevision) : Prop :=
  ∀ i r, h !! i = Some r → sr_revision r = (N.of_nat i + 1)%N ∧ (sr_revision r < U32_MAX)%N.

Definition all_numbered (s : State) : Prop := ∀ id h, histories s !! id = Some h → numbered h.

Lemma close_last_revisions c h : sr_revision <$> close_last c h = sr_revision <$> h.
Proof.
  destruct (decide (h = [])) as [->|Hne]; [done|]. apply exists_last in Hne as (pre & r & ->).
  by rewrite close_last_snoc, !fmap_app.
Qed.

Lemma numbered_revisions h h' : sr_revision <$> h' = sr_revision <$> h → numbered h → numbered h'.
Proof.
  intros Heq Hn i r Hr. assert ((sr_revision <$> h') !! i = Some (sr_revision r)) as Hi by (by rewrite list_lookup_fmap, Hr).
  rewrite Heq, list_lookup_fmap in Hi. destruct (h !! i) as [r0|] eqn:Hr0; [|done]. injection Hi as <-. by apply Hn.
Qed.

Lemma numbered_snoc h r :
  numbered h → sr_revision r = (len h + 1)%N → (sr_revision r < U32_MAX)%N → numbered (h ++ [r]).
Proof.
  intros Hn Hr Hb i r0. rewrite lookup_snoc_Some. intros [[_ Hi]|[-> <-]]; [by apply Hn|]. unfold len in Hr. done.
Qed.

(** The number that the next revision of a record gets. *)
Lemma numbered_last h : numbered h → sr_revision <$> last h = (if decide (h = []) then None else Some (len h)).
Proof.
  intros Hn. case_decide as Hd; [by subst|]. apply exists_last in Hd as (pre & r & ->).
  destruct (Hn (length pre) r) as [Hr _]; [by rewrite lookup_app_r, Nat.sub_diag|].
  rewrite last_snoc. simpl. rewrite Hr. unfold len. rewrite length_app. simpl. f_equal. lia.
Qed.

Section numbering.
Context `{!RefCodec}.

(** The record has no revision of the commit in progress. *)
Definition untouched (d : Draft) (id : string) : Prop :=
  ∀ h, histories d.1 !! id = Some h → history_ok id (head d.1) h.

Lemma put_record_numbered d record expected c d' :
  put_record d record expected c = Ok d' → untouched d (lr_id record) → all_numbered d.1 → all_numbered d'.1.
Proof.
  intros (revision & content & -> & _ & _ & _ & Hrev & Hbound)%put_record_inv Hun Hn.
  intros id h. simpl. destruct (decide (lr_id record = id)) as [<-|Hne]; [rewrite lookup_insert_eq|rewrite lookup_insert_ne by done; apply Hn].
  intros [= <-]. set (h0 := default [] (histories d.1 !! lr_id record)).
  assert (numbered h0) as Hn0 by (unfold h0; destruct (histories d.1 !! lr_id record) eqn:Hh; [by eapply Hn|by intros ??]).
  apply numbered_snoc; [eapply numbered_revisions; [apply close_last_revisions|exact Hn0]| |done]. simpl.
  assert (len (close_last c h0) = len h0) as ->.
  { unfold len. by rewrite <- (length_fmap sr_revision), close_last_revisions, length_fmap. }
  assert (current d.1 (lr_id record) (head d.1) = last h0) as Hcur.
  { unfold current, h0. destruct (histories d.1 !! lr_id record) as [h|] eqn:Hh; [|done]. simpl.
    eapply revision_at_last; [by apply Hun|done]. }
  rewrite Hcur in Hrev. pose proof (numbered_last h0 Hn0) as Hl. destruct (last h0) as [r|]; simpl in Hl.
  - case_decide; [done|]. injection Hl as Hl. rewrite Hl in Hrev. unfold saturating_add in Hrev. lia.
  - case_decide as Hd; [|done]. rewrite Hd. done.
Qed.

Lemma put_record_other d record expected c d' id :
  put_record d record expected c = Ok d' → id ≠ lr_id record →
  histories d'.1 !! id = histories d.1 !! id ∧ head d'.1 = head d.1.
Proof. intros (revision & content & -> & _)%put_record_inv Hne. split; [|done]. simpl. by rewrite lookup_insert_ne. Qed.

Lemma revise_lifecycle_inv d target l c d' :
  revise_lifecycle d target l c = Ok d' → untouched d target →
  ∃ record expected, lr_id record = target ∧ put_record d record expected c = Ok d'.
Proof.
  unfold revise_lifecycle. destruct (has_tombstone d.1 target); [done|]. intros Hr Hun. res_inv.
  eexists _, _. split; [|exact Hk0]. simpl. unfold current in Hm. destruct (histories d.1 !! target) as [h|] eqn:Hh; [|done].
  simpl in Hm. rewrite (revision_at_last _ _ _ (Hun _ Hh)) in Hm by done.
  destruct (history_ok_snoc_inv _ _ (Hun _ Hh)) as (pre & r & -> & <- & _). rewrite last_snoc in Hm. by injection Hm as <-.
Qed.

(** The records that a mutation writes. *)
Definition written (m : Mutation) : list string :=
  match m with
  | Put record _ => [lr_id record]
  | Correct target replacement => [target; lr_id replacement]
  | Retract target => [target]
  | Delete _ _ _ => []
  end.

Definition single_writes (w : Write) : Prop :=
  match w with
  | WObserve _ _ => True
  | WCommit transaction _ | WCore transaction _ => NoDup (mjoin (written <$> mutations transaction))
  end.

Lemma untouched_ext d d' id :
  histories d'.1 !! id = histories d.1 !! id ∧ head d'.1 = head d.1 → untouched d id → untouched d' id.
Proof. unfold untouched. intros [-> ->]. done. Qed.

Lemma apply_mutation_numbered c d m d' :
  apply_mutation c d m = Ok d' → (∀ id, id ∈ written m → untouched d id) → NoDup (written m) → all_numbered d.1 →
  all_numbered d'.1 ∧ ∀ id, id ∉ written m → untouched d id → untouched d' id.
Proof.
  destruct m as [record expected|target replacement|target|target requested_by reason]; simpl; intros Hm Hun Hnd Hn.
  - split; [eapply put_record_numbered; [exact Hm|apply Hun; by left|done]|].
    intros id Hid. eapply untouched_ext, put_record_other; [exact Hm|set_solver].
  - destruct (negb _); [done|]. apply result_bind_Ok in Hm as (d1 & Hr & Hp).
    apply revise_lifecycle_inv in Hr as (record & expected & <- & Hr); [|apply Hun; by left].
    assert (∀ id, id ≠ lr_id record → untouched d id → untouched d1 id) as H1
      by (intros id Hid; eapply untouched_ext, put_record_other; done).
    apply NoDup_cons in Hnd as [Hne _]. split.
    + eapply put_record_numbered; [exact Hp| |eapply put_record_numbered; [exact Hr|apply Hun; by left|done]].
      apply H1; [set_solver|apply Hun; by right; left].
    + intros id Hid Hu. eapply untouched_ext; [eapply put_record_other; [exact Hp|set_solver]|]. apply H1; [set_solver|done].
  - apply revise_lifecycle_inv in Hm as (record & expected & <- & Hr); [|apply Hun; by left]. split.
    + eapply put_record_numbered; [exact Hr|apply Hun; by left|done].
    + intros id Hid. eapply untouched_ext, put_record_other; [exact Hr|set_solver].
  - assert (histories d'.1 = histories d.1 ∧ head d'.1 = head d.1) as [Hh Hhead].
    { unfold hard_delete in Hm. destruct (_ || _ || _); [done|]. destruct (_ || _); [done|]. injection Hm as <-.
      generalize (bt_elements (deletion_closure d.1 target)) as ids. intros ids. revert d Hun Hn.
      induction ids as [|id ids IH]; intros d Hun Hn; [done|]. simpl.
      destruct (IH (delete_one target requested_by reason c d id)) as [-> ->]; by destruct d. }
    split; [unfold all_numbered; by rewrite Hh|]. intros id _. by apply untouched_ext; rewrite Hh.
Qed.

Lemma apply_mutations_numbered c muts d d' :
  try_fold (apply_mutation c) d muts = Ok d' → (∀ id, id ∈ mjoin (written <$> muts) → untouched d id) →
  NoDup (mjoin (written <$> muts)) → all_numbered d.1 → all_numbered d'.1.
Proof.
  revert d; induction muts as [|m muts IH]; intros d; simpl; [by intros [= <-]|].
  intros (d1 & Hm & Hrest)%result_bind_Ok Hun (Hnd & Hdisj & Hnd')%NoDup_app Hn.
  destruct (apply_mutation_numbered _ _ _ _ Hm) as [Hn1 Hun1]; [|done|done|].
  - intros id Hid. apply Hun, elem_of_app. by left.
  - eapply IH; [exact Hrest| |done|done]. intros id Hid. apply Hun1; [|apply Hun, elem_of_app; by right].
    intros Hin. by apply (Hdisj id Hin).
Qed.
End numbering.

(** ** Chains *)

(** A loop over an indexed list in which every item is checked against what the
    item before it hands on. *)
Definition handed {A B} (out : A → B) (init : B) (l : list A) (i : nat) : B :=
  match last (take i l) with Some y => out y | None => init end.

Lemma try_fold_chain {E A B} (f : B → N * A → result E B) (out : A → B) init l :
  (∀ i x, l !! i = Some x → f (handed out init l i) (N.of_nat i, x) = Ok (out x)) →
  try_fold f init (enumerate l) = Ok (handed out init l (length l)).
Proof.
  induction l as [|x l IH] using rev_ind; intros Hf; [done|].
  rewrite enumerate_snoc, try_fold_app. rewrite IH.
  - simpl. unfold len. specialize (Hf (length l) x). rewrite lookup_app_r, Nat.sub_diag in Hf by done.
    unfold handed in *. rewrite take_app_length in Hf. rewrite firstn_all, Hf by done. simpl.
    by rewrite firstn_all, last_snoc.
  - intros i y Hy. specialize (Hf i y). pose proof (lookup_lt_Some _ _ _ Hy) as Hlt.
    rewrite lookup_app_l in Hf by done. unfold handed in *. rewrite take_app_le in Hf by lia. by apply Hf.
Qed.

Lemma try_fold_each {E A B} (f : B → A → result E B) acc l r x :
  try_fold f acc l = Ok r → x ∈ l → ∃ a b, f a x = Ok b.
Proof.
  revert acc; induction l as [|y l IH]; intros acc; simpl; [by intros _ ?%elem_of_nil|].
  intros (b & Hb & Hrest)%result_bind_Ok [->|Hin]%elem_of_cons; [eauto|by eapply IH].
Qed.

(** ** What [serde_json] reads back

    Values nested less than [depth] deep, with integers of 64 bits and no floating
    point number: [serde_json] parses floating point numbers to a best effort only
    unless its feature [float_roundtrip] is on, which the workspace does not enable,
    and refuses text nested more than 128 deep. *)
Fixpoint within (depth : nat) (v : JsonValue) : bool :=
  match depth with
  | O => false
  | S depth =>
      match v with
      | JNull | JBool _ | JString _ => true
      | JNumber (PosInt n) => (n <=? U64_MAX)%N
      | JNumber (NegInt z) => (- 2 ^ 63 <=? z)%Z && (z <? 0)%Z
      | JNumber (Float _) => false
      | JArray values => forallb (within depth) values
      | JObject members => forallb (λ member, within depth member.2) members
      end
  end.

(** The members of an object are in the order of a [BTreeMap]. *)
Definition readable_value (v : JsonValue) : Prop := canonicalize v = v ∧ within 100 v = true.

Definition readable (e : LogicalExport) : Prop :=
  map_Forall (λ _, readable_value) (ex_contents e) ∧
  map_Forall (λ _ o, map_Forall (λ _, readable_value) (ob_metadata o)) (ex_observations e).

(** Text that [serde_json] writes for such an export is read back as it was. *)
Class ExportLaws `{!RefCodec} := {
  export_roundtrip (e : LogicalExport) text :
    readable e → canonical_to_vec e = Ok text → export_from_slice text = Ok e;
}.

Section import.
Context `{!RefCodec} `{!RefCodecLaws} `{!ExportLaws}.

Lemma logical_export_valid s : wf s → all_numbered s → validate_export (logical_export s) = Ok tt.
Proof.
  intros Hwf Hn. unfold validate_export. simpl.
  rewrite (wf_id _ Hwf), (wf_head _ Hwf), N.eqb_refl. simpl.
  rewrite (try_fold_chain _ (λ r, Some (jr_record_digest r))).
  - simpl. apply for_each_Ok, Forall_forall. intros [id h] Hin%bt_entries_elem.
    pose proof (primary_histories _ _ (wf_primary _ Hwf) _ _ Hin) as Hok.
    rewrite (try_fold_chain _ transaction_to); [done|]. intros i r Hr.
    destruct (Hn _ _ Hin i r Hr) as [Hrev Hbound].
    destruct (history_ok_lookup _ _ _ _ Hok Hr) as (Hid & Hfrom & _).
    destruct (primary_revisions _ _ (wf_primary _ Hwf) _ _ r Hin) as [_ Hvt Hst]; [by eapply list_elem_of_lookup_2|].
    unfold check_revision.
    assert (try_from_max U32_MAX (N.of_nat i) = Some (N.of_nat i)) as ->.
    { unfold try_from_max. destruct (N.leb_spec (N.of_nat i) U32_MAX); [done|lia]. }
    simpl. assert (checked_add U32_MAX (N.of_nat i) 1 = Some (N.of_nat i + 1)%N) as ->.
    { apply checked_add_Some. split; [done|lia]. }
    simpl. rewrite (bool_decide_eq_false_2 (sr_id r ≠ id)) by tauto. rewrite Hrev, N.eqb_refl.
    destruct (N.eqb_spec (transaction_from r) 0); [lia|].
    destruct (N.ltb_spec (head s) (transaction_from r)); [lia|]. simpl.
    assert (bool_decide (handed transaction_to None h i ≠ Some (transaction_from r)) && (0 <? N.of_nat i)%N = false) as ->.
    { destruct i as [|i]; [apply andb_false_r|]. apply andb_false_iff. left. apply bool_decide_eq_false_2. intros Hne.
      apply Hne. unfold handed. destruct (h !! i) as [r0|] eqn:Hr0.
      - rewrite (take_S_r _ _ _ Hr0), last_snoc. destruct (history_ok_lookup _ _ _ _ Hok Hr0) as (_ & _ & Hnext). by apply Hnext.
      - apply lookup_ge_None in Hr0. apply lookup_lt_Some in Hr. lia. }
    rewrite Hvt. simpl. destruct (has_tombstone s id) eqn:Ht.
    + assert (tombstones s !! id ≠ None) as Hsome.
      { unfold has_tombstone in Ht. apply bool_decide_eq_true in Ht. by apply not_eq_None_Some. }
      by rewrite (bool_decide_eq_false_2 (tombstones s !! id = None)).
    + destruct (Hst eq_refl) as (v & c & [Hv _] & _). rewrite Hv.
      by rewrite (bool_decide_eq_false_2 (Some v = None)), andb_false_r.
  - intros i r Hr. destruct (wf_journal _ Hwf _ _ Hr) as (Hseq & Hprev & Hdig). unfold check_journal_record.
    pose proof (lookup_lt_Some _ _ _ Hr) as Hlt. pose proof (wf_bound _ Hwf) as Hb. rewrite (wf_head _ Hwf) in Hb. unfold len in Hb.
    assert (checked_add U64_MAX (N.of_nat i) 1 = Some (N.of_nat i + 1)%N) as ->.
    { apply checked_add_Some. split; [done|lia]. }
    simpl. rewrite Hseq, N.eqb_refl. simpl. unfold handed.
    rewrite (bool_decide_eq_false_2 (jr_previous_digest r ≠ _)).
    + rewrite <- Hseq, Hdig. simpl. by rewrite bool_decide_eq_false_2 by tauto.
    + rewrite Hprev. by destruct (last (take i (journal s))); simpl; tauto.
Qed.

(** The databases whose transactions wrote each record at most once. *)
Definition reachable_singly (s : State) : Prop :=
  ∃ id s0 ws, ContextDb_new id = Ok s0 ∧ Forall single_writes ws ∧ s = run s0 ws.

Lemma prepare_numbered s w next receipt :
  wf s → all_numbered s → single_writes w → prepare s w = Ok (inr (next, receipt)) → all_numbered next.
Proof.
  intros Hwf Hn Hw Hp. assert (∀ muts draft affected,
    try_fold (apply_mutation (head s + 1)) (s, ∅) muts = Ok (draft, affected) → NoDup (mjoin (written <$> muts)) →
    all_numbered draft) as Hmuts.
  { intros muts draft affected Hfold Hnd. eapply (apply_mutations_numbered _ muts (s, ∅) (draft, affected)); [done| |done|done].
    intros id _ h Hh. by apply (primary_histories _ _ (wf_primary _ Hwf)). }
  destruct w as [input f|txn f|txn request]; simpl in Hp, Hw.
  - apply prepare_observation_inv in Hp as (rd & content & request & _ & _ & _ & _ & _ & _ & _ & _ & Hpub). by destruct Hpub.
  - apply prepare_commit_inv in Hp as (draft & affected & rd & request & _ & Hfold & _ & _ & Hpub).
    specialize (Hmuts _ _ _ Hfold Hw). by destruct Hpub.
  - unfold prepare_core in Hp. destruct (is_empty _); [done|]. res_inv. destruct a0; [done|].
    apply prepare_mutations_inv in Hk0 as (draft & affected & v & req & n & r & [= <- <-] & _ & _ & Hfold & _ & _ & Hpub).
    specialize (Hmuts _ _ _ Hfold Hw). by destruct Hpub.
Qed.

Lemma reachable_singly_inv s : reachable_singly s → wf s ∧ all_numbered s.
Proof.
  intros (id & s0 & ws & Hnew & Hws & ->). pose proof (ContextDb_new_wf _ _ Hnew) as Hwf.
  assert (all_numbered s0) as Hn.
  { unfold ContextDb_new in Hnew. destruct (trim_is_empty id); [done|]. injection Hnew as <-. intros i h. simpl. by rewrite lookup_empty. }
  clear Hnew. revert s0 Hwf Hn. induction Hws as [|w ws Hw _ IH]; intros s0 Hwf Hn; simpl; [done|].
  apply IH; [by apply run_write_wf|]. destruct (run_write_cases s0 w) as [->|(receipt & Hp)]; [done|].
  by eapply prepare_numbered.
Qed.

(** C26: a database each of whose transactions wrote a record at most once, and whose
    contents and observation metadata hold no floating point number and are nested
    less than 100 deep, is restored exactly, indexes included, by importing its
    export. *)
Theorem import_restores_export s text :
  reachable_singly s → readable (logical_export s) → export s = Ok text → import text = Ok s.
Proof.
  intros [Hwf Hn]%reachable_singly_inv Hr Ht. pose proof (export_roundtrip _ _ Hr Ht) as Hread. unfold import. rewrite Hread. simpl.
  rewrite logical_export_valid by done. simpl. pose proof (wf_index _ Hwf) as Hix.
  assert (∀ ix, rebuild_security_indexes (set_indexes s ix) = Ok (security_indexes s)) as Hre by (intros ix; by destruct s).
  change (rebuild_security_indexes _) with (rebuild_security_indexes (set_indexes s SecurityIndexes_default)).
  rewrite Hre. simpl.
  assert (verify_security_indexes s = Ok tt) as Hv by (by apply verify_security_indexes_Ok).
  clear -Hv. destruct s. match type of Hv with verify_security_indexes ?s = _ =>
    change ((try? verify_security_indexes s in Ok s) = Ok s) end. by rewrite Hv.
Qed.

Lemma validate_export_numbered e id h i r :
  validate_export e = Ok tt → ex_histories e !! id = Some h → h !! i = Some r → sr_revision r = (N.of_nat i + 1)%N.
Proof.
  unfold validate_export. case_bool_decide; [done|]. destruct (trim_is_empty _); [done|]. destruct (negb _); [done|].
  intros (a & _ & Hv)%result_bind_Ok Hh Hr. apply for_each_Ok in Hv. rewrite Forall_forall in Hv.
  specialize (Hv (id, h)). rewrite bt_entries_elem in Hv. specialize (Hv Hh). simpl in Hv.
  apply result_bind_Ok in Hv as (b & Hfold & _).
  destruct (try_fold_each _ _ _ _ (N.of_nat i, r) Hfold) as (x & y & Hc).
  { unfold enumerate. apply list_elem_of_lookup. exists i. by rewrite list_lookup_imap, Hr. }
  unfold check_revision in Hc. res_inv. unfold try_from_max in Hm.
  destruct (_ <=? _)%N; [|done]. injection Hm as <-. apply checked_add_Some in Hm0 as [-> _].
  destruct (_ || _ || _ || _ || _) eqn:Hor in Hk0; [done|]. rewrite !orb_false_iff, negb_false_iff in Hor.
  destruct Hor as [[[[_ Heq%N.eqb_eq] _] _] _]. done.
Qed.

(** A transaction that puts one record twice is acknowledged, but
    both revisions get the same number, so the export of the database cannot be
    imported. *)
Theorem double_put_breaks_import s txn a ea b eb s' receipt text :
  reachable s → mutations txn = [Put a ea; Put b eb] → lr_id a = lr_id b →
  commit s txn = (s', Ok receipt) → cr_replayed receipt = false →
  export s' = Ok text → readable (logical_export s') → ∃ e, import text = Err e.
Proof.
  intros Hreach Hmuts Hid Hcommit Hrep Hread Hr. apply (export_roundtrip _ _ Hr) in Hread.
  pose proof (reachable_wf _ Hreach) as Hwf. pose proof (commit_published _ _ _ _ Hcommit Hrep) as Hprep.
  apply prepare_commit_inv in Hprep as (draft & affected & rd & request & _ & Hfold & _ & _ & Hpub).
  rewrite Hmuts in Hfold. cbn [try_fold apply_mutation] in Hfold. apply result_bind_Ok in Hfold as (d1 & Ha & Hfold).
  apply result_bind_Ok in Hfold as (d2 & Hb & [= ->]).
  apply put_record_inv in Ha as (reva & ca & -> & Hca & Ht & _ & Hreva & _).
  apply put_record_inv in Hb as (revb & cb & [= -> ->] & _ & _ & _ & Hrevb & _).
  cbn [fst] in *. assert (revb = reva) as ->.
  { assert (evolves (head s) s (store_revision s a reva (head s + 1) ca)) as He.
    { apply store_evolves; [|lia|done|done]. apply primary_ok_mono with (head s); [apply wf_primary, Hwf|lia]. }
    pose proof (evolves_current _ _ _ He (lr_id b) (head s) (N.le_refl _)) as Hc. rewrite <- Hid in Hrevb, Hc.
    change (head (store_revision s a reva (head s + 1) ca)) with (head s) in Hrevb.
    subst revb reva. unfold strip in Hc.
    destruct (current (store_revision _ _ _ _ _) _ _), (current s (lr_id a) (head s)); simpl in Hc; simplify_eq; congruence. }
  unfold import. rewrite Hread. simpl.
  destruct (validate_export (logical_export s')) as [[]|e] eqn:Hv; simpl; [|by exists e]. exfalso.
  set (h := close_last (head s + 1) (default [] (histories s !! lr_id a))).
  set (ra := MkStoredRevision (lr_id a) reva (head s + 1) None (record_metadata a) ca.1).
  set (rb := MkStoredRevision (lr_id a) reva (head s + 1) None (record_metadata b) cb.1).
  assert (ex_histories (logical_export s') !! lr_id b = Some ((h ++ [close_revision (head s + 1) ra]) ++ [rb])) as Hh.
  { destruct Hpub. simpl. rewrite lookup_insert_eq, <- Hid, lookup_insert_eq. simpl. by rewrite close_last_snoc. }
  assert (reva = N.of_nat (length h) + 1)%N as Hfirst.
  { apply (validate_export_numbered _ _ _ (length h) (close_revision (head s + 1) ra) Hv Hh).
    rewrite lookup_app_l by (rewrite length_app; simpl; lia). by rewrite lookup_app_r, Nat.sub_diag. }
  assert (reva = N.of_nat (S (length h)) + 1)%N as Hsecond; [|lia].
  apply (validate_export_numbered _ _ _ (S (length h)) rb Hv Hh).
  rewrite lookup_app_r, length_app by (rewrite length_app; simpl; lia). simpl.
  by replace (S (length h) - (length h + 1))%nat with 0%nat by lia.
Qed.
End import.
