(* ===== verification/RefEvents.v ===== *)
(** * The reference engine: tenant-local events

    What the workspace indexes hold of the journal, and that the pages of a
    workspace's events give, once and in order, exactly the events of its records
    and observations. *)

From S2P Require Import Prelude.
From S2P Require Import Ordering.
From S2P Require Import Bytes.
From S2P Require Import Json.
From S2P Require Import Format.
From S2P Require Import RefModel.
From S2P Require Import RefEngine.
From S2P Require Import RefReads.
From S2P Require Import RefInvariant.
From S2P Require Import RefRuns.
From S2P Require Import RefHistory.

(** ** The events of one journal record *)

(** The affected records of a workspace. *)
Definition is_in (s : State) (c : N) (w id : string) : bool :=
  match affected_workspace s c id with Ok w' => bool_decide (w' = w) | Err _ => false end.
Definition ids_in (s : State) (c : N) (w : string) (ids : list string) : list string :=
  List.filter (is_in s c w) ids.

Definition with_watermark (ids : list string) : list WorkspaceEventCandidateKind :=
  match ids with [] => [] | _ => (SemanticRecordChanged <$> ids) ++ [SemanticWatermark] end.

(** What a journal record means to a workspace. *)
Definition record_events (s : State) (c : N) (event : JournalEvent) (w : string) : list WorkspaceEventCandidateKind :=
  match event with
  | ObservationAccepted observation_id _ _ =>
      match observations s !! observation_id with
      | Some o => if bool_decide (workspace (ob_access o) = w) then [CandidateObservation observation_id] else []
      | None => []
      end
  | SemanticPublished _ _ affected_ids => with_watermark (ids_in s c w (bt_elements affected_ids))
  end.

(** Nothing, or the events with their ordinals. *)
Definition listed (ks : list WorkspaceEventCandidateKind) : option Candidates :=
  match ks with [] => None | _ => Some (enumerate ks) end.

Lemma default_listed ks : default [] (listed ks) = enumerate ks.
Proof. by destruct ks. Qed.

Lemma listed_snoc ks k : listed (ks ++ [k]) = Some (enumerate ks ++ [(len ks, k)]).
Proof. rewrite <- enumerate_snoc. unfold listed. by destruct ks. Qed.

Lemma len_enumerate {A} (l : list A) : len (enumerate l) = len l.
Proof. unfold len, enumerate. by rewrite length_imap. Qed.

Lemma ordinal_of_Ok cs o : ordinal_of cs = Ok o → o = len cs.
Proof. unfold ordinal_of, try_from_max. destruct (_ <=? _)%N; simpl; [by intros [= <-]|done]. Qed.

Lemma add_candidates_spec s c ids ws :
  try_fold (add_candidate s c) ∅ ids = Ok ws → ∀ w, ws !! w = listed (SemanticRecordChanged <$> ids_in s c w ids).
Proof.
  apply (try_fold_invariant (λ ids (ws : gmap string Candidates), ∀ w, ws !! w = listed (SemanticRecordChanged <$> ids_in s c w ids)) _ ids []).
  - intros w. by rewrite lookup_empty.
  - clear. intros ids ws id ws' Hws Hadd w. unfold add_candidate in Hadd.
    apply result_bind_Ok in Hadd as (w0 & Hw0 & Hadd). destruct (_ <=? _)%N; [done|].
    apply result_bind_Ok in Hadd as (o & ->%ordinal_of_Ok & [= <-]).
    unfold ids_in. rewrite List.filter_app, fmap_app. simpl. unfold is_in at 2. rewrite Hw0, Hws, default_listed.
    destruct (decide (w0 = w)) as [->|Hne].
    + rewrite lookup_insert_eq, bool_decide_eq_true_2 by done. simpl. by rewrite listed_snoc, len_enumerate.
    + rewrite lookup_insert_ne, bool_decide_eq_false_2 by done. simpl. rewrite app_nil_r. apply Hws.
Qed.

Lemma add_watermarks_spec es m m' :
  StronglySorted fst_lt es → try_fold add_watermark m es = Ok m' →
  (∀ w cs, (w, cs) ∈ es → m' !! w = Some (cs ++ [(len cs, SemanticWatermark)])) ∧
  (∀ w, w ∉ es.*1 → m' !! w = m !! w).
Proof.
  intros Hs. revert m. induction Hs as [|[w cs] es Hs IH Hw]; intros m; simpl.
  { intros [= <-]. split; [by intros ? ? ?%elem_of_nil|done]. }
  intros (m1 & Hadd & Hrest)%result_bind_Ok. unfold add_watermark in Hadd.
  apply result_bind_Ok in Hadd as (o & ->%ordinal_of_Ok & [= <-]). simpl in *.
  destruct (IH _ Hrest) as [Hin Hout]. split.
  - intros w0 cs0 [[= -> ->]|Hin0]%elem_of_cons; [|by apply Hin]. rewrite Hout; [by rewrite lookup_insert_eq|].
    intros ([w1 cs1] & -> & Hin1)%list_elem_of_fmap. rewrite Forall_forall in Hw. by destruct (klt_irrefl w1 (Hw _ Hin1)).
  - intros w0 [Hne Hnin]%not_elem_of_cons. rewrite Hout by done. by rewrite lookup_insert_ne.
Qed.

Lemma candidates_spec s c event m :
  journal_event_workspace_candidates s c event = Ok m → ∀ w, m !! w = listed (record_events s c event w).
Proof.
  destruct event as [oid rd ref|rd ref ids]; simpl; intros Hm w.
  - apply result_bind_Ok in Hm as (o & Ho%ok_or_Ok & Hm). rewrite Ho. destruct (_ <? _)%N; [done|]. injection Hm as <-.
    case_bool_decide as Hw; [subst w; by rewrite lookup_singleton_eq|by rewrite lookup_singleton_ne].
  - apply result_bind_Ok in Hm as (ws & Hws & Hm). pose proof (add_candidates_spec _ _ _ _ Hws w) as Hl.
    destruct (add_watermarks_spec _ _ _ (bt_entries_sorted ws) Hm) as [Hin Hout].
    destruct (ids_in s c w (bt_elements ids)) as [|x xs] eqn:Hids; simpl.
    + rewrite Hout; [done|]. intros ([w0 cs] & -> & He%bt_entries_elem)%list_elem_of_fmap. simpl in Hl. congruence.
    + etrans; [apply (Hin w (enumerate (SemanticRecordChanged <$> x :: xs))); apply bt_entries_elem; exact Hl|].
      rewrite len_enumerate. by rewrite <- (enumerate_snoc (SemanticRecordChanged <$> x :: xs) SemanticWatermark).
Qed.

(** ** The indexes *)

Definition positions_of (ix : SecurityIndexes) (w : string) : list N := default [] (journal_by_workspace ix !! w).
Definition entries_of (ix : SecurityIndexes) (w : string) : list WorkspaceEventIndexEntry :=
  default [] (events_by_workspace ix !! w).

(** What one journal record adds to the positions and entries of a workspace. *)
Definition add_record (s : State) (w : string) (acc : list N * list WorkspaceEventIndexEntry) (entry : N * JournalRecord)
    : list N * list WorkspaceEventIndexEntry :=
  let ks := record_events s (jr_commit_seq entry.2) (jr_event entry.2) w in
  match ks with
  | [] => acc
  | _ => (acc.1 ++ [entry.1],
          acc.2 ++ ((λ ok, MkWorkspaceEventIndexEntry (len acc.1 + 1) ok.1 entry.1 ok.2) <$> enumerate ks))
  end.

Lemma index_workspaces_spec i es ix ix' w :
  StronglySorted fst_lt es → try_fold (index_workspace i) ix es = Ok ix' →
  (∀ cs, (w, cs) ∈ es →
    positions_of ix' w = positions_of ix w ++ [i] ∧ (len (positions_of ix' w) ≤ U64_MAX)%N ∧
    entries_of ix' w = entries_of ix w ++
      ((λ oc, MkWorkspaceEventIndexEntry (len (positions_of ix w) + 1) oc.1 i oc.2) <$> cs)) ∧
  (w ∉ es.*1 → journal_by_workspace ix' !! w = journal_by_workspace ix !! w ∧
    events_by_workspace ix' !! w = events_by_workspace ix !! w).
Proof.
  intros Hs. revert ix. induction Hs as [|[w0 cs0] es Hs IH Hw]; intros ix; simpl.
  { intros [= <-]. split; [by intros ? ?%elem_of_nil|done]. }
  intros (ix1 & Hix & Hrest)%result_bind_Ok. destruct (IH _ Hrest) as [Hin Hout]. clear IH.
  apply result_bind_Ok in Hix as (n & Hn%ok_or_Ok & [= <-]). unfold try_from_max in Hn.
  destruct (N.leb_spec (len (default [] (journal_by_workspace ix !! w0) ++ [i])) U64_MAX) as [Hb|]; [|done]. injection Hn as <-.
  unfold positions_of, entries_of in *. simpl in *. split.
  - intros cs [[= -> ->]|Hin0]%elem_of_cons.
    + destruct Hout as [-> ->].
      { intros ([w1 cs1] & -> & Hin1)%list_elem_of_fmap. rewrite Forall_forall in Hw. by destruct (klt_irrefl w1 (Hw _ Hin1)). }
      rewrite !lookup_insert_eq. simpl. rewrite len_app in *. done.
    + assert (w0 ≠ w) as Hne.
      { intros ->. rewrite Forall_forall in Hw. by destruct (klt_irrefl w (Hw _ Hin0)). }
      specialize (Hin _ Hin0). by rewrite !lookup_insert_ne in Hin by done.
  - intros [Hne Hnin]%not_elem_of_cons. destruct (Hout Hnin) as [-> ->]. by rewrite !lookup_insert_ne.
Qed.

(** One journal record in the indexes of a workspace. *)
Lemma index_record s i r ix ix' m w :
  journal_event_workspace_candidates s (jr_commit_seq r) (jr_event r) = Ok m →
  try_fold (index_workspace i) ix (bt_entries m) = Ok ix' →
  (positions_of ix' w, entries_of ix' w) = add_record s w (positions_of ix w, entries_of ix w) (i, r) ∧
  ((len (positions_of ix w) ≤ U64_MAX)%N → (len (positions_of ix' w) ≤ U64_MAX)%N) ∧
  (record_events s (jr_commit_seq r) (jr_event r) w = [] →
   journal_by_workspace ix' !! w = journal_by_workspace ix !! w ∧
   events_by_workspace ix' !! w = events_by_workspace ix !! w).
Proof.
  intros Hm Hix. pose proof (candidates_spec _ _ _ _ Hm w) as Hw.
  destruct (index_workspaces_spec _ _ _ _ w (bt_entries_sorted m) Hix) as [Hin Hout].
  unfold add_record. simpl. destruct (record_events s (jr_commit_seq r) (jr_event r) w) as [|k ks]; simpl in Hw.
  - destruct Hout as [H1 H2].
    { intros ([w0 cs] & -> & He%bt_entries_elem)%list_elem_of_fmap. simpl in Hw. congruence. }
    unfold positions_of, entries_of. rewrite H1, H2. done.
  - destruct (Hin (enumerate (k :: ks))) as (-> & Hb & ->); [by apply bt_entries_elem|]. done.
Qed.

Lemma rebuild_spec s ix w :
  rebuild_security_indexes s = Ok ix →
  (positions_of ix w, entries_of ix w) = foldl (add_record s w) ([], []) (enumerate (journal s)) ∧
  (len (positions_of ix w) ≤ U64_MAX)%N.
Proof.
  unfold rebuild_security_indexes.
  apply (try_fold_invariant (λ rs ix, (positions_of ix w, entries_of ix w) = foldl (add_record s w) ([], []) rs ∧
    (len (positions_of ix w) ≤ U64_MAX)%N) _ (enumerate (journal s)) []).
  - unfold positions_of, entries_of. simpl. by rewrite !lookup_empty.
  - intros rs acc [i r] acc' [Hacc Hb] (m & Hm & Hix)%result_bind_Ok.
    destruct (index_record s i r acc acc' m w Hm Hix) as (-> & Hb' & _). rewrite foldl_app, <- Hacc. simpl. auto.
Qed.

Lemma workspace_journal_len_positions s w :
  (len (positions_of (security_indexes s) w) ≤ U64_MAX)%N →
  workspace_journal_len s w = len (positions_of (security_indexes s) w).
Proof.
  unfold workspace_journal_len, positions_of. destruct (_ !! w) as [ps|]; [|done]. simpl. intros Hlen.
  unfold try_from_max. by destruct (N.leb_spec (len ps) U64_MAX); [|lia].
Qed.

(** ** Pages *)

Definition entry_position (e : WorkspaceEventIndexEntry) : N * N := (ie_workspace_seq e, ie_ordinal e).
Definition candidate_position (c : WorkspaceEventCandidate) : N * N := (ec_workspace_seq c, ec_ordinal c).

(** The events that the first journal records mean to a workspace, with their
    commits. *)
Definition events_of (s : State) (w : string) (l : list JournalRecord) : list (N * WorkspaceEventCandidateKind) :=
  mjoin ((λ r, (λ k, (jr_commit_seq r, k)) <$> record_events s (jr_commit_seq r) (jr_event r) w) <$> l).

Lemma StronglySorted_app_2 {A} (R : relation A) l1 l2 :
  StronglySorted R l1 → StronglySorted R l2 → (∀ x y, x ∈ l1 → y ∈ l2 → R x y) → StronglySorted R (l1 ++ l2).
Proof.
  induction 1 as [|x l1 _ IH Hx]; intros H2 H12; simpl; [done|]. constructor.
  - apply IH; [done|]. intros y z Hy Hz. apply H12; [by right|done].
  - apply Forall_app. split; [done|]. apply Forall_forall. intros z Hz. apply H12; [by left|done].
Qed.

Lemma enumerate_sorted {A} (n : N) (l : list A) :
  StronglySorted klt ((λ ix : N * A, (n, ix.1)) <$> enumerate l).
Proof.
  induction l as [|x l IH] using rev_ind; [constructor|]. rewrite enumerate_snoc, fmap_app.
  apply StronglySorted_app_2; [done|repeat constructor|].
  intros a b ([i y] & -> & Hin)%list_elem_of_fmap ->%list_elem_of_singleton. simpl.
  unfold enumerate in Hin. apply list_elem_of_lookup in Hin as [j Hj]. rewrite list_lookup_imap in Hj.
  destruct (l !! j) as [y'|] eqn:Hy; [|done]. injection Hj as <- <-. apply lookup_lt_Some in Hy.
  unfold klt. rewrite cmp_pair, cmp_refl. simpl. apply N.compare_lt_iff. unfold len. lia.
Qed.

Lemma enumerate_snd {A B} (f : A → B) (l : list A) : (λ ix : N * A, f ix.2) <$> enumerate l = f <$> l.
Proof.
  induction l as [|x l IH] using rev_ind; [done|]. by rewrite enumerate_snoc, !fmap_app, IH.
Qed.

Section fold.
Context (s : State) (w : string).

Record events_ok (l : list JournalRecord) (ps : list N) (es : list WorkspaceEventIndexEntry) : Prop := {
  events_sorted : StronglySorted klt (entry_position <$> es);
  events_bound e : e ∈ es → (1 ≤ ie_workspace_seq e ≤ len ps)%N;
  events_read : ∃ all, try_map (event_candidate s) es = Ok all ∧ candidate_position <$> all = entry_position <$> es ∧
    (λ c, (ec_commit_seq c, ec_kind c)) <$> all = events_of s w l;
}.

Lemma add_record_ok l r ps es :
  journal s !! length l = Some r → events_ok l ps es →
  let acc := add_record s w (ps, es) (len l, r) in events_ok (l ++ [r]) acc.1 acc.2.
Proof.
  intros Hr [Hs Hb (all & Hall & Hpos & Hev)]. unfold add_record. cbn [fst snd].
  assert (events_of s w (l ++ [r]) = events_of s w l ++
    ((λ k, (jr_commit_seq r, k)) <$> record_events s (jr_commit_seq r) (jr_event r) w)) as Hsnoc.
  { unfold events_of. rewrite fmap_app, join_app. simpl. by rewrite app_nil_r. }
  destruct (record_events s (jr_commit_seq r) (jr_event r) w) as [|k0 ks0].
  { split; cbn [fst snd]; [done|done|]. exists all. rewrite Hsnoc, app_nil_r. done. }
  set (ks := k0 :: ks0) in *. cbn [fst snd].
  set (mk := λ ok : N * WorkspaceEventCandidateKind, MkWorkspaceEventIndexEntry (len ps + 1) ok.1 (len l) ok.2).
  assert (entry_position <$> (mk <$> enumerate ks) = (λ ix, ((len ps + 1)%N, ix.1)) <$> enumerate ks) as Hmk
    by (by rewrite <- list_fmap_compose).
  split.
  - rewrite fmap_app. apply StronglySorted_app_2; [done|rewrite Hmk; apply enumerate_sorted|].
    intros a b (e & -> & He)%list_elem_of_fmap Hbin. rewrite Hmk in Hbin.
    apply list_elem_of_fmap in Hbin as (ok & -> & _). specialize (Hb e He).
    unfold klt, entry_position. rewrite cmp_pair. assert (cmp (ie_workspace_seq e) (len ps + 1)%N = Lt) as ->; [|done].
    apply N.compare_lt_iff. lia.
  - intros e [He|(ok & -> & _)%list_elem_of_fmap]%elem_of_app; rewrite len_app; [specialize (Hb e He)|]; unfold len in *; simpl; lia.
  - set (mc := λ ok : N * WorkspaceEventCandidateKind,
      MkWorkspaceEventCandidate (len ps + 1) ok.1 (jr_commit_seq r) (jr_record_digest r) ok.2).
    exists (all ++ (mc <$> enumerate ks)). split; [|split].
    + apply try_map_app; [done|]. apply try_map_Ok, Forall2_fmap, Forall2_same_length_lookup. split; [done|].
      intros i a b Ha Hb'. assert (a = b) as -> by congruence. unfold event_candidate. simpl.
      unfold len. rewrite Nat2N.id, Hr. done.
    + rewrite !fmap_app, Hpos. f_equal. by rewrite <- !list_fmap_compose.
    + rewrite fmap_app, Hev, Hsnoc. f_equal. rewrite <- list_fmap_compose.
      apply (enumerate_snd (λ k, (jr_commit_seq r, k))).
Qed.

Lemma folded_ok l :
  l `prefix_of` journal s →
  let acc := foldl (add_record s w) ([], []) (enumerate l) in events_ok l acc.1 acc.2.
Proof.
  induction l as [|r l IH] using rev_ind; intros Hpre.
  - split; simpl; [constructor|by intros e ?%elem_of_nil|]. by exists [].
  - rewrite enumerate_snoc, foldl_app. cbn [foldl].
    destruct (foldl (add_record s w) ([], []) (enumerate l)) as [ps es] eqn:Hf.
    apply add_record_ok.
    + destruct Hpre as [k Hk]. rewrite Hk, <- app_assoc, lookup_app_r, Nat.sub_diag by done. done.
    + apply IH. etrans; [|exact Hpre]. by apply prefix_app_r.
Qed.
End fold.

Lemma take_while_split {A} (f : A → bool) l1 l2 :
  Forall (λ x, f x = true) l1 → (∀ x, l2 !! 0%nat = Some x → f x = false) → take_while f (l1 ++ l2) = l1.
Proof.
  induction 1 as [|x l1 Hx _ IH]; intros H2; simpl.
  - destruct l2 as [|y l2]; [done|]. simpl. by rewrite (H2 y).
  - rewrite Hx. f_equal. by apply IH.
Qed.

Section pages.
Context (s : State) (w : string) (es : list WorkspaceEventIndexEntry) (all : list WorkspaceEventCandidate).

(** A client position: everything before entry [n] has been read. *)
Definition read_through (n : nat) : N * N :=
  match last (take n es) with Some e => entry_position e | None => (0, 0)%N end.

Lemma partition_point_at n :
  StronglySorted klt (entry_position <$> es) → (∀ e, e ∈ es → (1 ≤ ie_workspace_seq e)%N) → (n ≤ length es)%nat →
  partition_point (λ e, position_le (ie_workspace_seq e, ie_ordinal e) (read_through n)) es = n.
Proof.
  intros Hs Hb Hn. unfold partition_point. rewrite <- (take_drop n es) at 1.
  rewrite <- (take_drop n es), fmap_app in Hs. apply StronglySorted_app in Hs as (H12 & H1 & _).
  rewrite take_while_split; [rewrite length_take; lia| |]; unfold read_through, position_le.
  - apply Forall_forall. intros e He. apply kleb_true, kle_klt_eq.
    destruct (decide (take n es = [])) as [Hnil|Hne]; [rewrite Hnil in He; by apply elem_of_nil in He|].
    apply exists_last in Hne as (pre & e0 & Heq). rewrite Heq in H1, He |- *. rewrite last_snoc.
    apply elem_of_app in He as [He| ->%list_elem_of_singleton]; [left|by right].
    rewrite fmap_app in H1. apply StronglySorted_app in H1 as (H1 & _ & _).
    apply H1; [by apply (list_elem_of_fmap_2 entry_position)|by apply list_elem_of_singleton].
  - intros x Hx. apply kleb_false. assert (x ∈ drop n es) as Hin.
    { destruct (drop n es); [done|]. injection Hx as <-. by left. }
    destruct (last (take n es)) as [e0|] eqn:Hl.
    + apply H12; [|by apply (list_elem_of_fmap_2 entry_position)]. apply list_elem_of_fmap_2.
      apply last_Some in Hl as [l' ->]. apply elem_of_app. right. by left.
    + unfold klt. rewrite cmp_pair. assert (1 ≤ ie_workspace_seq x)%N as Hx1.
      { apply Hb. eapply elem_of_sublist; [exact Hin|apply sublist_drop]. }
      assert (cmp 0%N (ie_workspace_seq x) = Lt) as ->; [|done]. apply N.compare_lt_iff. lia.
Qed.

Lemma try_map_take_drop {E A B} (f : A → result E B) n m xs ys :
  try_map f xs = Ok ys → try_map f (take m (drop n xs)) = Ok (take m (drop n ys)).
Proof. rewrite !try_map_Ok. intros H2. by apply Forall2_take, Forall2_drop. Qed.

(** The page at a client position. *)
Lemma page_at n limit :
  entries_of (security_indexes s) w = es → events_ok s w (journal s) (positions_of (security_indexes s) w) es →
  (len (positions_of (security_indexes s) w) ≤ U64_MAX)%N →
  try_map (event_candidate s) es = Ok all → candidate_position <$> all = entry_position <$> es →
  (n ≤ length es)%nat → (0 < limit ≤ MAX_WORKSPACE_JOURNAL_PAGE)%N →
  let next := Nat.min (n + N.to_nat limit) (length es) in
  workspace_event_page s w (read_through n).1 (read_through n).2 limit =
  Ok (MkWorkspaceEventPage (take (N.to_nat limit) (drop n all)) (read_through next) (next <? length es)%nat).
Proof.
  intros He [Hs Hb _] Hlen Hall Hpos Hn [Hl0 Hl] next. unfold workspace_event_page.
  destruct (N.eqb_spec limit 0); [lia|]. destruct (N.ltb_spec MAX_WORKSPACE_JOURNAL_PAGE limit); [lia|]. cbn [orb].
  rewrite (workspace_journal_len_positions s w Hlen).
  assert ((read_through n).1 ≤ len (positions_of (security_indexes s) w))%N as Hthrough.
  { unfold read_through. destruct (last (take n es)) as [e|] eqn:Hlast; [|simpl; lia]. simpl.
    apply last_Some in Hlast as [l' Hl']. apply Hb. eapply elem_of_sublist; [|apply (sublist_take es n)].
    rewrite Hl'. apply elem_of_app. right. by left. }
  destruct (N.ltb_spec (len (positions_of (security_indexes s) w)) (read_through n).1); [lia|].
  unfold entries_of in He. rewrite He. rewrite <- surjective_pairing, partition_point_at; [|done|intros e Hin; by apply Hb|done].
  fold next. assert (take (next - n) (drop n es) = take (N.to_nat limit) (drop n es)) as ->.
  { unfold next. destruct (Nat.le_gt_cases (n + N.to_nat limit) (length es)).
    - rewrite Nat.min_l by done. f_equal. lia.
    - rewrite Nat.min_r by lia. rewrite !take_ge; [done|rewrite length_drop; lia|rewrite length_drop; lia]. }
  rewrite (try_map_take_drop _ n (N.to_nat limit) es all Hall). cbn [result_bind].
  assert (candidate_position <$> last (take (N.to_nat limit) (drop n all)) = entry_position <$> last (take (N.to_nat limit) (drop n es))) as Hlast.
  { rewrite <- !fmap_last, !fmap_take, !fmap_drop, Hpos. done. }
  assert (take next es = take n es ++ take (N.to_nat limit) (drop n es)) as Hnext.
  { unfold next. rewrite take_take_drop. destruct (Nat.le_gt_cases (n + N.to_nat limit) (length es)).
    - by rewrite Nat.min_l.
    - rewrite Nat.min_r, !take_ge by lia. done. }
  do 2 f_equal. unfold read_through at 2. rewrite Hnext.
  destruct (last (take (N.to_nat limit) (drop n all))) as [c|] eqn:Hc; simpl in Hlast.
  - destruct (last (take (N.to_nat limit) (drop n es))) as [e|] eqn:Hlast'; [|done]. injection Hlast as H1 H2.
    apply last_Some in Hlast' as [l' ->]. rewrite app_assoc, last_snoc. unfold entry_position. congruence.
  - destruct (last (take (N.to_nat limit) (drop n es))) eqn:Hlast'; [done|]. apply last_None in Hlast' as ->.
    by rewrite app_nil_r.
Qed.
End pages.

(** Everything that is indexed is in the journal. *)
Lemma folded_indexes s w l :
  let acc := foldl (add_record s w) ([], []) (enumerate l) in
  (∀ i, i ∈ acc.1 → (i < len l)%N) ∧ (∀ e, e ∈ acc.2 → (ie_journal_index e < len l)%N).
Proof.
  induction l as [|r l IH] using rev_ind; [split; [by intros ? ?%elem_of_nil..]|].
  rewrite enumerate_snoc, foldl_app. cbn [foldl].
  destruct (foldl (add_record s w) ([], []) (enumerate l)) as [ps es]. destruct IH as [Hp He]. simpl in Hp, He.
  assert (len (l ++ [r]) = len l + 1)%N as -> by (rewrite len_app; done).
  unfold add_record. cbn [fst snd]. destruct (record_events _ _ _ _); cbn [fst snd].
  - split; intros x Hx; [specialize (Hp x Hx)|specialize (He x Hx)]; lia.
  - split.
    + intros i [Hi| ->%list_elem_of_singleton]%elem_of_app; [specialize (Hp i Hi)|]; lia.
    + intros e [Hi|(ok & -> & _)%list_elem_of_fmap]%elem_of_app; [specialize (He e Hi)|simpl]; lia.
Qed.

Lemma rebuilt_indexes s ix w :
  rebuild_security_indexes s = Ok ix →
  (∀ i, i ∈ positions_of ix w → (i < len (journal s))%N) ∧
  (∀ e, e ∈ entries_of ix w → (ie_journal_index e < len (journal s))%N).
Proof.
  intros Hix. destruct (rebuild_spec s ix w Hix) as [Hf _]. pose proof (folded_indexes s w (journal s)) as Hb.
  by rewrite <- Hf in Hb.
Qed.

(** A client that reads one page after the other. *)
Fixpoint read_pages (fuel : nat) (s : State) (w : string) (position : N * N) (limit : N)
    : Res (list WorkspaceEventCandidate) :=
  match fuel with
  | O => Err ResourceExhausted
  | S fuel =>
      let? page := workspace_event_page s w position.1 position.2 limit in
      if has_more page then
        let? rest := read_pages fuel s w (scanned_through page) limit in
        Ok (page_candidates page ++ rest)
      else Ok (page_candidates page)
  end.

Section read.
Context `{!RefCodec} `{!RefCodecLaws}.

(** A client that reads the events of a workspace page by page, with
    any page size the engine allows, gets exactly the events that the journal means
    to that workspace, once and in journal order: its observations, and of every
    semantic commit its affected records with a closing watermark.  Nothing of
    another workspace appears. *)
Theorem event_pages_exact s w limit :
  reachable s → (0 < limit ≤ MAX_WORKSPACE_JOURNAL_PAGE)%N →
  ∃ all, read_pages (S (length all)) s w (0, 0)%N limit = Ok all ∧
    (λ c, (ec_commit_seq c, ec_kind c)) <$> all = events_of s w (journal s) ∧
    StronglySorted klt (candidate_position <$> all).
Proof.
  intros Hreach Hl. pose proof (reachable_wf _ Hreach) as Hwf.
  destruct (rebuild_spec s _ w (wf_index _ Hwf)) as [Hf Hlen].
  pose proof (folded_ok s w (journal s) ltac:(done)) as Hok. rewrite <- Hf in Hok. simpl in Hok.
  pose proof Hok as [Hs _ (all & Hall & Hpos & Hev)]. exists all. rewrite Hpos. split; [|done].
  set (es := entries_of (security_indexes s) w) in *.
  assert (length all = length es) as Hlength by (rewrite <- (length_fmap candidate_position), Hpos; apply length_fmap).
  assert (∀ fuel n, (n ≤ length es)%nat → (length es - n < fuel)%nat →
    read_pages fuel s w (read_through es n) limit = Ok (drop n all)) as Hread.
  { induction fuel as [|fuel IH]; intros n Hn Hfuel; [lia|]. cbn [read_pages].
    rewrite (page_at s w es all n limit) by done. cbn [result_bind has_more scanned_through page_candidates].
    destruct (Nat.ltb_spec (Nat.min (n + N.to_nat limit) (length es)) (length es)) as [Hmore|Hmore].
    - rewrite Nat.min_l in * by lia. rewrite IH by lia. cbn [result_bind]. f_equal.
      rewrite <- drop_drop. apply take_drop.
    - f_equal. apply take_ge. rewrite length_drop. lia. }
  specialize (Hread (S (length all)) 0%nat). rewrite drop_0 in Hread. apply Hread; lia.
Qed.
End read.
