(* ===== verification/RefIsolation.v ===== *)
(** * The reference engine: isolation of workspaces

    A write that does not advance the journal of a workspace changes no read of a
    caller in that workspace, up to the reason for which a record is refused: writes of
    other tenants are invisible, and whatever a tenant can see change advances its own
    journal. *)

From S2P Require Import Prelude.
From S2P Require Import Ordering.
From S2P Require Import Bytes.
From S2P Require Import Ieee.
From S2P Require Import Json.
From S2P Require Import Format.
From S2P Require Import RefModel.
From S2P Require Import RefEngine.
From S2P Require Import RefReads.
From S2P Require Import RefKeys.
From S2P Require Import RefInvariant.
From S2P Require Import RefRuns.
From S2P Require Import RefHistory.
From S2P Require Import RefQuery.
From S2P Require Import RefTraverse.
From S2P Require Import RefClaims.
From S2P Require Import RefEvents.

(** ** Loops and sorted lists *)

Lemma try_fold_ext {E A B} (f g : B → A → result E B) acc xs :
  (∀ acc x, x ∈ xs → f acc x = g acc x) → try_fold f acc xs = try_fold g acc xs.
Proof.
  revert acc; induction xs as [|x xs IH]; intros acc Hfg; simpl; [done|]. rewrite Hfg by by left.
  destruct (g acc x); simpl; [|done]. apply IH. intros a' y Hy. apply Hfg. by right.
Qed.

Lemma loop_nat_ext {St R} (f g : St → St + R) n x : (∀ y, f y = g y) → loop_nat n f x = loop_nat n g x.
Proof. intros Hfg. revert x; induction n as [|n IH]; intros x; simpl; [done|]. rewrite Hfg. by destruct (g x). Qed.

(** Whenever two bounded loops of one step end, they end alike. *)
Lemma loop_nat_det {St R} (f : St → St + R) n m x r r' : loop_nat n f x = inr r → loop_nat m f x = inr r' → r = r'.
Proof.
  intros H1 H2. pose proof (loop_nat_add f n m x) as Ha. pose proof (loop_nat_add f m n x) as Hb.
  rewrite H1 in Ha. rewrite H2, Nat.add_comm in Hb. congruence.
Qed.

Lemma sorted_ext (l1 l2 : list string) :
  StronglySorted klt l1 → StronglySorted klt l2 → (∀ x, x ∈ l1 ↔ x ∈ l2) → l1 = l2.
Proof.
  intros H1 H2 Hext. eapply StronglySorted_unique_strong; [|exact H1|exact H2|].
  - intros x y _ _ Hxy Hyx. destruct (klt_irrefl x). by eapply klt_trans.
  - apply NoDup_Permutation; [by apply klt_sorted_NoDup..|done].
Qed.

(** ** What a commit in progress changes *)

Section touched.
Context `{!RefCodec} `{!RefCodecLaws}.

Definition workspace_of (r : StoredRevision) : string := workspace (m_access (sr_record r)).

(** A commit in progress changes only the records it affects, and keeps their
    workspaces. *)
Record touched (s : State) (d : Draft) : Prop := {
  touched_same id : id ∉ d.2 → histories d.1 !! id = histories s !! id ∧ has_tombstone d.1 id = has_tombstone s id;
  touched_workspace id r0 : id ∈ d.2 → current s id (head s) = Some r0 →
    ∃ r, current d.1 id (head s + 1) = Some r ∧ workspace_of r = workspace_of r0;
}.

Lemma strip_workspace (r0 : StoredRevision) o :
  strip <$> o = strip <$> Some r0 → ∃ r, o = Some r ∧ workspace_of r = workspace_of r0.
Proof.
  destruct o as [r|]; [|done]. intros [= _ _ _ Hrec _]. exists r. split; [done|]. unfold workspace_of. by rewrite Hrec.
Qed.

Lemma draft_step_touched s d d' :
  wf s → head d.1 = head s → evolves (head s) s d.1 → draft_step (head s + 1) d d' → touched s d → touched s d'.
Proof.
  intros Hwf Hhead Hev Hstep [Hsame Hws].
  destruct Hstep as [s1 affected record revision content _ _ _ Hkeep _ _ _|s1 affected target requested_by reason id _ _];
    simpl in Hhead, Hev, Hsame, Hws.
  - split; cbn [fst snd].
    + intros id [Hne Hnin]%not_elem_of_union. destruct (Hsame id Hnin) as [Hh Ht].
      split; [|exact Ht]. simpl. rewrite lookup_insert_ne by set_solver. exact Hh.
    + intros id r0 Hin Hr0. rewrite current_store. destruct (decide (lr_id record = id)) as [<-|Hne].
      * eexists. split; [reflexivity|]. unfold workspace_of. simpl.
        pose proof (evolves_current _ _ _ Hev (lr_id record) (head s) (N.le_refl _)) as Hc. rewrite Hr0 in Hc.
        apply strip_workspace in Hc as (r1 & Hr1 & Hw). rewrite <- Hhead in Hr1. destruct (Hkeep r1 Hr1) as [_ <-]. exact Hw.
      * apply Hws; [set_solver|done].
  - split.
    + intros id' Hid'. change (id' ∉ {[id]} ∪ affected) in Hid'. apply not_elem_of_union in Hid' as [Hne Hnin].
      destruct (Hsame id' Hnin) as [Hh Ht]. split; [exact Hh|].
      rewrite delete_one_tombstones, bool_decide_eq_false_2 by set_solver. exact Ht.
    + intros id' r0 Hin Hr0. change (current (delete_one target requested_by reason (head s + 1) (s1, affected) id).1 id' (head s + 1))
        with (current s1 id' (head s + 1)).
      destruct (decide (id' ∈ affected)) as [Hin'|Hnin]; [by apply Hws|]. exists r0. split; [|done].
      destruct (Hsame id' Hnin) as [Hh _]. unfold current. rewrite Hh.
      change (current s id' (head s + 1) = Some r0). rewrite current_head_next; [done|apply wf_primary, Hwf].
Qed.

Lemma draft_steps_touched s d d' :
  wf s → rtc (draft_step (head s + 1)) (s, ∅) d → rtc (draft_step (head s + 1)) d d' → touched s d → touched s d'.
Proof.
  intros Hwf Hfirst. induction 1 as [d|d d1 d2 Hstep _ IH]; intros Ht; [done|].
  apply IH; [etrans; [exact Hfirst|by apply rtc_once]|].
  assert (primary_ok (head s + 1) s) as Hok by (apply primary_ok_mono with (head s); [apply wf_primary, Hwf|lia]).
  eapply draft_step_touched; [done| | |exact Hstep|done].
  - by apply draft_steps_frame in Hfirst as (? & _).
  - eapply (draft_steps_evolve _ (head s + 1) (s, ∅)); [done|lia|done].
Qed.
End touched.

(** ** Answers *)

(** The refusal of a read of one record. *)
Definition refusal {A} (r : Res A) : Prop :=
  match r with Err (NotFound _ _) | Err Unauthorized => True | _ => False end.
(** The same answer, or a refusal both times. *)
Definition same_answer {A} (before after : Res A) : Prop := after = before ∨ refusal before ∧ refusal after.

Lemma same_answer_trans {A} (r1 r2 r3 : Res A) : same_answer r1 r2 → same_answer r2 r3 → same_answer r1 r3.
Proof. unfold same_answer. intros [->|[? ?]] [->|[? ?]]; auto. Qed.

Lemma take_while_app_none {A} (f : A → bool) l tail :
  Forall (λ x, f x = false) tail → take_while f (l ++ tail) = take_while f l.
Proof.
  intros Ht. induction l as [|x l IH]; simpl; [destruct Ht as [|x t Hx _]; simpl; [done|by rewrite Hx]|]. by rewrite IH.
Qed.

(** ** What a workspace sees of two states *)

Section view.
Context `{!RefCodec} `{!RefCodecLaws} (W : string).

(** The record is not in the workspace. *)
Definition foreign (s : State) (id : string) : Prop :=
  ∀ r, current s id (head s) = Some r → has_tombstone s id = false → workspace_of r ≠ W.

Record same_view (s s' : State) : Prop := {
  view_id : database_id s' = database_id s;
  view_head : (head s ≤ head s')%N;
  view_records id :
    (histories s' !! id = histories s !! id ∧ has_tombstone s' id = has_tombstone s id) ∨ (foreign s id ∧ foreign s' id);
  view_contents id h r : histories s !! id = Some h → r ∈ h → has_tombstone s id = false → has_tombstone s' id = false →
    contents s' !! content_id (sr_content r) = contents s !! content_id (sr_content r);
  view_observations id o : observations s !! id = Some o →
    observations s' !! id = Some o ∧ (has_tombstone s' id = has_tombstone s id ∨ workspace (ob_access o) ≠ W);
  view_observed id o : observations s !! id = Some o → has_tombstone s id = false → has_tombstone s' id = false →
    contents s' !! content_id (ob_content o) = contents s !! content_id (ob_content o);
  view_new_observations id o : observations s !! id = None → observations s' !! id = Some o → (head s < ob_accepted_seq o)%N;
  view_positions : journal_by_workspace (security_indexes s') !! W = journal_by_workspace (security_indexes s) !! W;
  view_entries : events_by_workspace (security_indexes s') !! W = events_by_workspace (security_indexes s) !! W;
  view_journal : ∃ tail, journal s' = journal s ++ tail ∧ Forall (λ r, head s < jr_commit_seq r)%N tail;
}.

Lemma same_view_refl s : same_view s s.
Proof. split; eauto; try done. - congruence. - exists []. by rewrite app_nil_r. Qed.

Lemma draft_indexes s draft event :
  change s draft event →
  journal_by_workspace (security_indexes draft) = journal_by_workspace (security_indexes s) ∧
  events_by_workspace (security_indexes draft) = events_by_workspace (security_indexes s).
Proof.
  destruct 1 as [|muts draft affected rd' ref Hsteps]; [done|].
  by apply apply_mutations_steps, draft_steps_frame in Hsteps as (_ & _ & _ & _ & _ & _ & ? & ?).
Qed.

(** No event of the record means that the indexes of the workspace stay. *)
Lemma publication_silent s draft key rd request event next receipt :
  wf s → wf next → change s draft event → publication s draft key rd request event next receipt →
  workspace_journal_len next W = workspace_journal_len s W →
  record_events draft (head s + 1) event W = [] ∧
  journal_by_workspace (security_indexes next) !! W = journal_by_workspace (security_indexes s) !! W ∧
  events_by_workspace (security_indexes next) !! W = events_by_workspace (security_indexes s) !! W.
Proof.
  intros Hwf Hwf' Hch Hpub Hlen.
  destruct (rebuild_spec s _ W (wf_index _ Hwf)) as [_ Hb]. destruct (rebuild_spec next _ W (wf_index _ Hwf')) as [_ Hb'].
  rewrite !workspace_journal_len_positions in Hlen by done.
  destruct (draft_indexes _ _ _ Hch) as [Hj He].
  destruct Hpub as [record_digest ix candidates _ _ _ Hcand Hix next _].
  set (r := MkJournalRecord (head s + 1) (jr_record_digest <$> last (journal s)) record_digest event).
  destruct (index_record draft (len (journal s)) r (security_indexes draft) ix candidates W Hcand Hix) as (Hadd & _ & Hnone).
  cbn [jr_commit_seq jr_event r] in *. change (security_indexes next) with ix in *. rewrite Hj, He in Hnone.
  unfold add_record in Hadd. cbn [jr_commit_seq jr_event fst snd r] in Hadd.
  destruct (record_events draft (head s + 1) event W) as [|k ks]; [by destruct (Hnone eq_refl)|]. exfalso.
  injection Hadd as Hp _. unfold positions_of in Hp, Hlen. rewrite Hj in Hp. rewrite Hp, len_app in Hlen. unfold len in Hlen. simpl in Hlen. lia.
Qed.

Lemma is_in_false s c id w : is_in s c W id = false → affected_workspace s c id = Ok w → w ≠ W.
Proof. unfold is_in. intros Hin Hw. rewrite Hw in Hin. by apply bool_decide_eq_false in Hin. Qed.

Lemma with_watermark_nil ids : with_watermark ids = [] → ids = [].
Proof. by destruct ids. Qed.

Lemma ids_in_nil s c ids : ids_in s c W ids = [] → ∀ id, id ∈ ids → is_in s c W id = false.
Proof.
  unfold ids_in. intros Hnil id Hid. destruct (is_in s c W id) eqn:Hin; [|done].
  assert (id ∈ List.filter (is_in s c W) ids) as Hf by (by apply list_elem_of_In, filter_In; split; [apply list_elem_of_In|]).
  rewrite Hnil in Hf. by apply elem_of_nil in Hf.
Qed.

(** What a change that is silent in the workspace does to its records. *)
Lemma change_records s draft event :
  wf s → change s draft event → record_events draft (head s + 1) event W = [] →
  ∀ id, (histories draft !! id = histories s !! id ∧ has_tombstone draft id = has_tombstone s id) ∨
    (foreign s id ∧ ∀ r, current draft id (head s + 1) = Some r → workspace_of r ≠ W).
Proof.
  intros Hwf Hch Hsilent id. destruct Hch as [|muts draft affected rd ref Hfold]; [by left|].
  pose proof (apply_mutations_steps _ _ _ _ Hfold) as Hsteps.
  destruct (draft_steps_touched s (s, ∅) (draft, affected) Hwf (rtc_refl _ _) Hsteps) as [Hsame Hws].
  { split; [done|]. simpl. set_solver. }
  simpl in Hsame, Hws, Hsilent. destruct (decide (id ∈ affected)) as [Hin|Hnin]; [right|by left; apply Hsame].
  apply with_watermark_nil in Hsilent. pose proof (ids_in_nil _ _ _ Hsilent id) as Hno. rewrite bt_elements_elem in Hno.
  assert (∀ r, current draft id (head s + 1) = Some r → workspace_of r ≠ W) as Hdraft.
  { intros r Hr. eapply is_in_false; [by apply Hno|]. unfold affected_workspace. by rewrite Hr. }
  split; [|done]. intros r0 Hr0 _. destruct (Hws id r0 Hin Hr0) as (r & Hr & <-). by apply Hdraft.
Qed.

Lemma change_observations s draft event :
  wf s → change s draft event → record_events draft (head s + 1) event W = [] →
  (∀ id o, observations s !! id = Some o →
    observations draft !! id = Some o ∧ (has_tombstone draft id = has_tombstone s id ∨ workspace (ob_access o) ≠ W)) ∧
  (∀ id o, observations s !! id = None → observations draft !! id = Some o → (head s < ob_accepted_seq o)%N).
Proof.
  intros Hwf Hch Hsilent. destruct Hch as [input content rd ref id0 Ha Hobs Hh Ht Hc|muts draft affected rd ref Hfold].
  - split.
    + intros id o Ho. simpl. split; [|by left]. rewrite lookup_insert_ne; [done|]. intros Heq. unfold id0 in *. congruence.
    + intros id o Hnone. simpl. destruct (decide (oi_observation_id input = id)) as [<-|Hne].
      * rewrite lookup_insert_eq. intros [= <-]. simpl. lia.
      * rewrite lookup_insert_ne by done. congruence.
  - pose proof (apply_mutations_steps _ _ _ _ Hfold) as Hsteps.
    destruct (draft_steps_touched s (s, ∅) (draft, affected) Hwf (rtc_refl _ _) Hsteps) as [Hsame _].
    { split; [done|]. simpl. set_solver. }
    pose proof (draft_steps_frame _ _ _ Hsteps) as (_ & _ & _ & Hobs & _). simpl in *. split; [|rewrite Hobs; congruence].
    intros id o Ho. rewrite Hobs. split; [done|].
    destruct (decide (id ∈ affected)) as [Hin|Hnin]; [right|left; by apply Hsame].
    apply with_watermark_nil in Hsilent. pose proof (ids_in_nil _ _ _ Hsilent id) as Hno. rewrite bt_elements_elem in Hno.
    eapply is_in_false; [by apply Hno|]. unfold affected_workspace.
    assert (current draft id (head s + 1) = None) as ->; [|by rewrite Hobs, Ho].
    assert (primary_ok (head s + 1) draft) as Hok'.
    { eapply (draft_steps_ok _ (s, ∅) (draft, affected)); [done|lia|].
      apply primary_ok_mono with (head s); [apply wf_primary, Hwf|lia]. }
    rewrite <- Hobs in Ho. destruct (primary_observations _ _ Hok' _ _ Ho) as (_ & _ & Hnone & _).
    unfold current. by rewrite Hnone.
Qed.

Lemma prepare_view s w next receipt :
  wf s → prepare s w = Ok (inr (next, receipt)) →
  workspace_journal_len next W = workspace_journal_len s W → same_view s next.
Proof.
  intros Hwf Hp Hlen. pose proof (prepare_wf _ _ _ _ Hwf Hp) as Hwf'.
  apply prepare_inv in Hp as (draft & rd & request & event & class & owner & Hch & _ & _ & Hclass & Hkey & Hpub).
  destruct (publication_silent _ _ _ _ _ _ _ _ Hwf Hwf' Hch Hpub Hlen) as (Hsilent & Hj & He).
  pose proof (change_records _ _ _ Hwf Hch Hsilent) as Hrecords.
  destruct (change_observations _ _ _ Hwf Hch Hsilent) as [Hobs Hnew].
  assert (evolves (head s) s next) as Hev.
  { apply evolves_trans with (head s) draft; [done|by eapply change_evolves|by eapply publication_evolves]. }
  destruct Hpub as [record_digest ix candidates _ _ _ _ _ next _]. split; try done.
  - simpl. lia.
  - intros id. destruct (Hrecords id) as [?|[? Hf]]; [by left|right]. split; [done|]. intros r Hr _. by apply Hf.
  - intros id h r Hh Hr Ht Ht'. destruct (primary_revisions _ _ (wf_primary _ Hwf) _ _ _ Hh Hr) as [Hk _ Hs].
    destruct (Hs Ht) as (v & c & [Hv _] & _). rewrite Hv. eapply (evolves_kept _ _ _ Hev "record" id); [by left| |exact Hk|done|done].
    apply list_elem_of_lookup in Hr as [i Hi].
    destruct (history_ok_lookup _ _ _ _ (primary_histories _ _ (wf_primary _ Hwf) _ _ Hh) Hi) as (_ & ? & _). lia.
  - intros id o Ho Ht Ht'. destruct (primary_observations _ _ (wf_primary _ Hwf) _ _ Ho) as (_ & ? & _ & Hk & Hs).
    destruct (Hs Ht) as (v & Hv & _). rewrite Hv. eapply (evolves_kept _ _ _ Hev "observation" id); [by right; left| |exact Hk|done|done]. lia.
  - eexists. split; [reflexivity|]. apply Forall_singleton. simpl. lia.
Qed.

(** ** Reads *)

Section reads.
Context (s s' : State) (p : Principal).
Hypothesis Hwf : wf s.
Hypothesis Hwf' : wf s'.
Hypothesis Hp : p_workspace p = W.
Hypothesis Hview : same_view s s'.

Lemma allows_workspace label : Principal_allows p label = true → workspace label = W.
Proof.
  unfold Principal_allows. case_bool_decide as Hw; [done|]. intros _. destruct (decide (workspace label = p_workspace p)); congruence.
Qed.

Lemma foreign_refused st id : foreign st id → current_use_policy_allows st id p = false.
Proof.
  intros Hf. unfold current_use_policy_allows. destruct (has_tombstone st id) eqn:Ht; [done|].
  destruct (current st id (head st)) as [r|] eqn:Hr; [|done]. specialize (Hf r Hr Ht).
  destruct (Principal_allows p (m_access (sr_record r))) eqn:Ha; [|by destruct (m_lifecycle _)].
  by apply allows_workspace in Ha.
Qed.

Lemma same_current id k : histories s' !! id = histories s !! id → current s' id k = current s id k.
Proof. unfold current. by intros ->. Qed.

Lemma same_current_head id : histories s' !! id = histories s !! id → current s' id (head s') = current s id (head s).
Proof.
  intros Hh. rewrite same_current by done. unfold current. destruct (histories s !! id) as [h|] eqn:Hid; [|done]. simpl.
  pose proof (primary_histories _ _ (wf_primary _ Hwf) _ _ Hid) as Hok. pose proof (view_head _ _ Hview).
  by rewrite !(revision_at_last _ _ _ Hok) by lia.
Qed.

Lemma same_policy id : current_use_policy_allows s' id p = current_use_policy_allows s id p.
Proof.
  destruct (view_records _ _ Hview id) as [[Hh Ht]|[Hf Hf']]; [|by rewrite !foreign_refused].
  unfold current_use_policy_allows. by rewrite Ht, same_current_head.
Qed.

(** A record that the caller may use is the same in both states. *)
Lemma usable_same id :
  current_use_policy_allows s id p = true → histories s' !! id = histories s !! id ∧ has_tombstone s' id = false ∧ has_tombstone s id = false.
Proof.
  intros Hu. destruct (view_records _ _ Hview id) as [[Hh Ht]|[Hf _]]; [|by rewrite foreign_refused in Hu].
  rewrite Ht. unfold current_use_policy_allows in Hu. by destruct (has_tombstone s id).
Qed.

Lemma same_content id k r :
  histories s' !! id = histories s !! id → has_tombstone s id = false → has_tombstone s' id = false →
  current s id k = Some r → content_for_revision s' r = content_for_revision s r.
Proof.
  intros Hh Ht Ht' Hr. unfold content_for_revision. unfold current in Hr.
  destruct (histories s !! id) as [h|] eqn:Hid; [|done]. simpl in Hr.
  destruct (revision_at_from _ _ _ _ (primary_histories _ _ (wf_primary _ Hwf) _ _ Hid) Hr) as [_ Hin].
  by rewrite (view_contents _ _ Hview id h r).
Qed.

Lemma same_metadata id k : current_authorized_metadata s' id k p = current_authorized_metadata s id k p.
Proof.
  unfold current_authorized_metadata. rewrite same_policy. destruct (current_use_policy_allows s id p) eqn:Hu; [|done].
  destruct (usable_same id Hu) as (Hh & _). simpl. by rewrite same_current.
Qed.

Lemma lives_in_same id : lives_in s' W id ↔ lives_in s W id.
Proof.
  unfold lives_in. destruct (view_records _ _ Hview id) as [[Hh Ht]|[Hf Hf']].
  - by rewrite Ht, same_current_head.
  - split; intros (Ht & r & Hr & Hw); exfalso; [by apply (Hf' r)|by apply (Hf r)].
Qed.

Lemma same_candidates : candidate_list (workspace_candidates s' p) = candidate_list (workspace_candidates s p).
Proof.
  apply sorted_ext; [apply candidate_list_sorted..|]. intros id.
  rewrite !candidate_list_spec by done. rewrite Hp. apply lives_in_same.
Qed.

Lemma budget_length st :
  ensure_workspace_candidate_budget (workspace_candidates st p) =
  if (MAX_WORKSPACE_CANDIDATES <? N.of_nat (length (candidate_list (workspace_candidates st p))))%N
  then Err ResourceExhausted else Ok tt.
Proof.
  unfold ensure_workspace_candidate_budget, candidate_list. destruct (workspace_candidates st p); [|done].
  by rewrite length_bt_elements.
Qed.

Lemma same_budget :
  ensure_workspace_candidate_budget (workspace_candidates s' p) = ensure_workspace_candidate_budget (workspace_candidates s p).
Proof. by rewrite !budget_length, same_candidates. Qed.

(** A candidate is the same in both states. *)
Lemma candidate_same id :
  id ∈ candidate_list (workspace_candidates s p) →
  histories s' !! id = histories s !! id ∧ has_tombstone s' id = false ∧ has_tombstone s id = false.
Proof.
  rewrite candidate_list_spec, Hp by done. intros (Ht & r & Hr & Hw).
  destruct (view_records _ _ Hview id) as [[Hh Ht']|[Hf _]]; [by rewrite Ht', Ht|]. by destruct (Hf r).
Qed.

Lemma same_candidate_revision id k :
  id ∈ candidate_list (workspace_candidates s p) → candidate_revision s' k id = candidate_revision s k id.
Proof. intros (Hh & Ht & Ht')%candidate_same. unfold candidate_revision. by rewrite Hh, Ht, Ht'. Qed.

Lemma same_candidate_allowed id r : candidate_allowed s' p id r = candidate_allowed s p id r.
Proof. unfold candidate_allowed. by rewrite same_policy. Qed.

Lemma same_journal_lookup i : (N.to_nat i < length (journal s))%nat → journal s' !! N.to_nat i = journal s !! N.to_nat i.
Proof. intros Hi. destruct (view_journal _ _ Hview) as (tail & -> & _). by rewrite lookup_app_l. Qed.

Lemma candidate_revision_current id k r :
  candidate_revision s k id = Ok (Some r) → current s id k = Some r.
Proof.
  unfold candidate_revision, current. destruct (histories s !! id); [|done]. simpl. destruct (has_tombstone s id); [done|]. by intros [= ->].
Qed.

Lemma same_watermarks_loop k positions w :
  (∀ i, i ∈ positions → (i < len (journal s))%N) →
  workspace_watermarks_loop s' k positions w = workspace_watermarks_loop s k positions w.
Proof.
  revert w; induction positions as [|i positions IH]; intros w Hpos; simpl; [done|].
  rewrite same_journal_lookup by (specialize (Hpos i ltac:(by left)); unfold len in Hpos; lia).
  destruct (journal s !! N.to_nat i) as [r|]; [|done]. destruct (_ <? _)%N; [done|]. apply IH. intros j Hj. apply Hpos. by right.
Qed.

Lemma same_watermarks k : workspace_watermarks_at s' W k = workspace_watermarks_at s W k.
Proof.
  unfold workspace_watermarks_at. rewrite (view_positions _ _ Hview).
  destruct (rebuilt_indexes s _ W (wf_index _ Hwf)) as [Hb _]. unfold positions_of in Hb.
  destruct (_ !! W) as [ps|]; [|done]. by apply same_watermarks_loop.
Qed.

Lemma same_trace k operation n ids : trace s' k (p_workspace p) operation n ids = trace s k (p_workspace p) operation n ids.
Proof. unfold trace. by rewrite Hp, same_watermarks. Qed.

Lemma same_snapshot snap : validate_snapshot_handle s snap = Ok tt → validate_snapshot_handle s' snap = Ok tt.
Proof.
  unfold validate_snapshot_handle, validate_snapshot. rewrite (view_id _ _ Hview). case_bool_decide; [done|].
  pose proof (view_head _ _ Hview). destruct (N.ltb_spec (head s) (snap_commit_seq snap)); [done|].
  destruct (N.ltb_spec (head s') (snap_commit_seq snap)); [lia|done].
Qed.

(** The content of a candidate's revision. *)
Lemma same_candidate_content id k r :
  id ∈ candidate_list (workspace_candidates s p) → candidate_revision s k id = Ok (Some r) →
  content_for_revision s' r = content_for_revision s r.
Proof.
  intros Hid Hr%candidate_revision_current. destruct (candidate_same id Hid) as (Hh & Ht' & Ht). by eapply same_content.
Qed.

Lemma same_scan kind snap : validate_snapshot_handle s snap = Ok tt → scan_kind s' kind snap p = scan_kind s kind snap p.
Proof.
  intros Hs. unfold scan_kind. rewrite Hs, same_snapshot, same_budget, same_candidates by done. simpl.
  destruct (ensure_workspace_candidate_budget _); simpl; [|done].
  rewrite (try_fold_ext _ (scan_candidate s kind (snap_commit_seq snap) p)); [|intros acc id Hid].
  - destruct (try_fold (scan_candidate s _ _ _) _ _); simpl; [|done]. by rewrite same_trace.
  - unfold scan_candidate. rewrite same_candidate_revision by done.
    destruct (candidate_revision s (snap_commit_seq snap) id) as [[r|]|] eqn:Hr; simpl; [|done|done].
    rewrite same_candidate_allowed. unfold materialize_revision. by erewrite same_candidate_content.
Qed.

Lemma same_search k score : search_candidates s' k p score = search_candidates s k p score.
Proof.
  unfold search_candidates. rewrite same_budget, same_candidates.
  destruct (ensure_workspace_candidate_budget _); simpl; [|done]. apply try_fold_ext. intros [n hits] id Hid.
  unfold search_candidate. rewrite same_candidate_revision by done.
  destruct (candidate_revision s k id) as [[r|]|] eqn:Hr; simpl; [|done|done].
  rewrite same_candidate_allowed. by erewrite same_candidate_content.
Qed.

Lemma same_hits nan_negative k operation limit found :
  traced_hits nan_negative s' k p operation limit found = traced_hits nan_negative s k p operation limit found.
Proof. unfold traced_hits. by rewrite same_trace. Qed.

Lemma same_lexical `{!Unicode} nan_negative query limit snap :
  validate_snapshot_handle s snap = Ok tt →
  lexical_search nan_negative s' query limit snap p = lexical_search nan_negative s query limit snap p.
Proof.
  intros Hs. unfold lexical_search. rewrite Hs, same_snapshot by done. simpl. rewrite same_trace, same_search.
  destruct (_ || _); [done|]. destruct (search_candidates _ _ _ _); simpl; [|done]. by rewrite same_hits.
Qed.

Lemma same_vector nan_negative query limit snap :
  validate_snapshot_handle s snap = Ok tt →
  vector_search nan_negative s' query limit snap p = vector_search nan_negative s query limit snap p.
Proof.
  intros Hs. unfold vector_search. destruct (bad_vector _); [done|]. rewrite Hs, same_snapshot by done. simpl. rewrite same_search.
  destruct (if (0 <? limit)%N then _ else _); simpl; [|done]. by rewrite same_hits.
Qed.

Lemma same_node k id : is_authorized_node s' k p id = is_authorized_node s k p id.
Proof. unfold is_authorized_node. by rewrite same_metadata. Qed.

Lemma same_walk_step direction predicates max_hops max_nodes k w :
  walk_step s' direction predicates max_hops max_nodes k p (candidate_list (workspace_candidates s p)) w =
  walk_step s direction predicates max_hops max_nodes k p (candidate_list (workspace_candidates s p)) w.
Proof.
  unfold walk_step. destruct (walk_queue w) as [|[node hops] queue]; [done|]. destruct (_ <=? _)%N; [done|].
  rewrite (try_fold_ext _ (scan_edge s direction predicates k p node)); [done|]. intros [[scanned edges] nb] id Hid. unfold scan_edge. destruct (_ <? _)%N; [done|].
  rewrite same_candidate_revision by done. destruct (candidate_revision s k id) as [[r|]|]; simpl; [|done|done].
  rewrite same_candidate_allowed. destruct (_ && _); [|done]. destruct (edge_neighbour _ _ _ _); [|done]. by rewrite same_node.
Qed.

Lemma same_traverse start direction predicates max_hops max_nodes snap :
  validate_snapshot_handle s snap = Ok tt → (max_hops ≤ U8_MAX)%N →
  traverse s' start direction predicates max_hops max_nodes snap p = traverse s start direction predicates max_hops max_nodes snap p.
Proof.
  intros Hs Hh. unfold traverse. rewrite Hs, same_snapshot by done. simpl.
  assert (for_each (check_start s' (snap_commit_seq snap) p) start = for_each (check_start s (snap_commit_seq snap) p) start) as ->.
  { induction start as [|id start IH]; simpl; [done|]. unfold check_start at 1 3. by rewrite same_metadata, IH. }
  destruct (for_each _ _); simpl; [|done]. rewrite same_trace, same_budget, same_candidates.
  destruct (_ || _) eqn:Hzero; [done|]. apply orb_false_iff in Hzero as [_ Hn%N.eqb_neq].
  destruct (ensure_workspace_candidate_budget _); simpl; [|done].
  assert (walk s' direction predicates max_hops max_nodes (snap_commit_seq snap) p start (candidate_list (workspace_candidates s p)) =
    walk s direction predicates max_hops max_nodes (snap_commit_seq snap) p start (candidate_list (workspace_candidates s p))) as ->.
  { unfold walk. pose proof (walk_halts s' direction predicates max_hops max_nodes (snap_commit_seq snap) p Hwf' Hh start ltac:(lia)) as [r' Hr'].
    pose proof (walk_halts s direction predicates max_hops max_nodes (snap_commit_seq snap) p Hwf Hh start ltac:(lia)) as [r Hr].
    rewrite same_candidates in Hr'. rewrite Hr', Hr.
    rewrite (loop_nat_ext _ (walk_step s direction predicates max_hops max_nodes (snap_commit_seq snap) p
      (candidate_list (workspace_candidates s p)))) in Hr' by (intros y; apply same_walk_step).
    by rewrite (loop_nat_det _ _ _ _ _ _ Hr Hr'). }
  destruct (walk _ _ _ _ _ _ _ _ _); simpl; [|done]. by rewrite same_trace.
Qed.

Lemma same_private id k : private_revision_metadata s' id k p = private_revision_metadata s id k p.
Proof.
  unfold private_revision_metadata. rewrite same_policy. destruct (current_use_policy_allows s id p) eqn:Hu.
  - destruct (usable_same id Hu) as (Hh & -> & ->). by rewrite same_current.
  - by rewrite !orb_true_r.
Qed.

(** A revision that a private read selects has the same content. *)
Lemma private_usable id k r :
  private_revision_metadata s id k p = Ok r → current_use_policy_allows s id p = true ∧ current s id k = Some r.
Proof.
  unfold private_revision_metadata. destruct (current_use_policy_allows s id p); [|by rewrite orb_true_r].
  destruct (_ || _); [done|]. intros Hr. apply result_bind_Ok in Hr as (r0 & ->%ok_or_Ok & Hr).
  destruct (negb _); [done|]. by injection Hr as <-.
Qed.

Lemma same_get_typed id kind snap :
  validate_snapshot_handle s snap = Ok tt → get_typed s' id kind snap p = get_typed s id kind snap p.
Proof.
  intros Hs. unfold get_typed. rewrite Hs, same_snapshot, same_private by done. simpl.
  destruct (private_revision_metadata s id (snap_commit_seq snap) p) as [r|] eqn:Hr; simpl; [|done].
  case_bool_decide; [done|]. apply private_usable in Hr as [Hu Hr]. destruct (usable_same id Hu) as (Hh & Ht' & Ht).
  unfold materialize_revision. by erewrite same_content.
Qed.

Lemma same_push acc id h r :
  current_use_policy_allows s id p = true → histories s !! id = Some h → r ∈ h →
  push_revision s' p acc r = push_revision s p acc r.
Proof.
  intros Hu Hh Hr. destruct (usable_same id Hu) as (_ & Ht' & Ht).
  unfold push_revision, materialize_revision, content_for_revision. by rewrite (view_contents _ _ Hview id h r).
Qed.

Lemma same_history_typed id kind snap :
  validate_snapshot_handle s snap = Ok tt → history_typed s' id kind snap p = history_typed s id kind snap p.
Proof.
  intros Hs. unfold history_typed. rewrite Hs, same_snapshot, same_private by done. simpl.
  destruct (private_revision_metadata s id (snap_commit_seq snap) p) as [r|] eqn:Hr; simpl; [|done].
  case_bool_decide; [done|]. apply private_usable in Hr as [Hu _]. destruct (usable_same id Hu) as (-> & _).
  destruct (histories s !! id) as [h|] eqn:Hh; simpl; [|done].
  rewrite (try_fold_ext _ (λ acc revision, if bool_decide (m_kind (sr_record revision) ≠ kind)
    then Err (Invariant ("record kind changed inside history for " +:+ id)) else push_revision s p acc revision)); [done|].
  intros acc r0 [Hin _]%list_elem_of_In%filter_In. rewrite (same_push acc id h r0); [done|done|done|]. by apply list_elem_of_In.
Qed.

Lemma same_authorize_observation id snap :
  validate_snapshot_handle s snap = Ok tt → authorize_observation s' id snap p = authorize_observation s id snap p.
Proof.
  intros Hs. unfold authorize_observation, visible_observation. rewrite Hs, same_snapshot by done. simpl.
  pose proof (validate_snapshot_handle_le _ _ Hs) as Hle. destruct (observations s !! id) as [o|] eqn:Ho; simpl.
  - destruct (view_observations _ _ Hview id o Ho) as [-> [->|Hw]]; [done|]. simpl.
    assert (Principal_allows p (ob_access o) = false) as Hno.
    { destruct (Principal_allows p (ob_access o)) eqn:Ha; [|done]. by apply allows_workspace in Ha. }
    destruct (_ <=? _)%N; rewrite ?Hno; by destruct (has_tombstone s' id), (has_tombstone s id).
  - destruct (observations s' !! id) as [o|] eqn:Ho'; simpl.
    + pose proof (view_new_observations _ _ Hview id o Ho Ho'). destruct (N.leb_spec (ob_accepted_seq o) (snap_commit_seq snap)); [lia|].
      by destruct (has_tombstone s' id), (has_tombstone s id).
    + by destruct (has_tombstone s' id), (has_tombstone s id).
Qed.

Lemma same_authorized_metadata id snap :
  validate_snapshot_handle s snap = Ok tt → authorized_record_metadata s' id snap p = authorized_record_metadata s id snap p.
Proof. intros Hs. unfold authorized_record_metadata. by rewrite Hs, same_snapshot, same_private. Qed.

(** The reads that tell a missing record from a denied one. *)

Lemma same_get id snap :
  validate_snapshot_handle s snap = Ok tt → same_answer (get s id snap p) (get s' id snap p).
Proof.
  intros Hs. unfold get, materialize_at. rewrite Hs, same_snapshot by done. simpl.
  destruct (view_records _ _ Hview id) as [[Hh Ht]|[Hf Hf']].
  - rewrite Ht, same_policy, same_current by done. destruct (has_tombstone s id) eqn:Ht0; [by left|].
    destruct (current s id (snap_commit_seq snap)) as [r|] eqn:Hr; simpl; [|by left].
    destruct (negb _); [by left|]. destruct (negb _); [by left|]. left. unfold materialize_revision.
    by rewrite (same_content id (snap_commit_seq snap) r).
  - rewrite !foreign_refused by done. right.
    split; [destruct (has_tombstone s id)|destruct (has_tombstone s' id)]; try done; by destruct (current _ id _).
Qed.

Lemma same_history id snap :
  validate_snapshot_handle s snap = Ok tt → same_answer (history s id snap p) (history s' id snap p).
Proof.
  intros Hs. unfold history. rewrite Hs, same_snapshot by done. simpl.
  destruct (view_records _ _ Hview id) as [[Hh Ht]|[Hf Hf']].
  - rewrite Ht, Hh, same_policy. destruct (has_tombstone s id); [by left|].
    destruct (histories s !! id) as [h|] eqn:Hid; simpl; [|by left].
    destruct (current_use_policy_allows s id p) eqn:Hu; simpl; [|by left]. left.
    rewrite (try_fold_ext _ (push_revision s p)); [done|]. intros acc r [Hin _]%list_elem_of_In%filter_In.
    apply (same_push acc id h); [done|done|]. by apply list_elem_of_In.
  - rewrite !foreign_refused by done. right.
    split; [destruct (has_tombstone s id)|destruct (has_tombstone s' id)]; try done; by destruct (histories _ !! id).
Qed.

Lemma same_get_observation id snap :
  validate_snapshot_handle s snap = Ok tt → same_answer (get_observation s id snap p) (get_observation s' id snap p).
Proof.
  intros Hs. unfold get_observation, visible_observation. rewrite Hs, same_snapshot by done. simpl.
  pose proof (validate_snapshot_handle_le _ _ Hs) as Hle. destruct (observations s !! id) as [o|] eqn:Ho; simpl.
  - destruct (view_observations _ _ Hview id o Ho) as [-> [Ht|Hw]]; simpl.
    + rewrite Ht. destruct (has_tombstone s id) eqn:Ht0; [by left|]. destruct (_ <=? _)%N; simpl; [|by left].
      destruct (negb _); [by left|]. left. by rewrite (view_observed _ _ Hview id o).
    + assert (Principal_allows p (ob_access o) = false) as Hno.
      { destruct (Principal_allows p (ob_access o)) eqn:Ha; [|done]. by apply allows_workspace in Ha. }
      right. destruct (_ <=? _)%N; simpl; rewrite ?Hno; by destruct (has_tombstone s id), (has_tombstone s' id).
  - destruct (observations s' !! id) as [o|] eqn:Ho'; simpl.
    + pose proof (view_new_observations _ _ Hview id o Ho Ho'). destruct (N.leb_spec (ob_accepted_seq o) (snap_commit_seq snap)); [lia|].
      left. by destruct (has_tombstone s' id), (has_tombstone s id).
    + left. by destruct (has_tombstone s' id), (has_tombstone s id).
Qed.

(** Snapshots that the caller may ask for. *)

Lemma same_snapshot_for k : (k ≤ head s)%N → snapshot_for s' k = snapshot_for s k.
Proof.
  intros Hk. unfold snapshot_for, watermarks_at. rewrite (view_id _ _ Hview).
  destruct (view_journal _ _ Hview) as (tail & -> & Htail). rewrite take_while_app_none; [done|].
  eapply Forall_impl; [exact Htail|]. intros r Hr. apply N.leb_gt. cbn beta in Hr. lia.
Qed.

Lemma same_workspace_snapshot n : snapshot_for_workspace s' W n = snapshot_for_workspace s W n.
Proof.
  unfold snapshot_for_workspace. rewrite (same_snapshot_for 0) by lia.
  destruct (n =? 0)%N; [done|]. unfold workspace_journal_len. rewrite (view_positions _ _ Hview).
  destruct (rebuilt_indexes s _ W (wf_index _ Hwf)) as [Hb _]. unfold positions_of in Hb.
  destruct (_ !! W) as [ps|]; simpl; [|done]. destruct (ps !! N.to_nat (n - 1)) as [i|] eqn:Hi; simpl; [|done].
  apply list_elem_of_lookup_2, Hb in Hi. rewrite same_journal_lookup by (unfold len in Hi; lia).
  destruct (journal s !! N.to_nat i) as [r|] eqn:Hr; simpl; [|done]. rewrite same_snapshot_for; [done|].
  apply list_elem_of_lookup_2 in Hr. by destruct (primary_requests _ _ (wf_primary _ Hwf) _ Hr) as (_ & _ & _ & _ & ?).
Qed.
End reads.

Lemma same_event_page s s' after_seq after_ordinal limit :
  wf s → same_view s s' →
  workspace_event_page s' W after_seq after_ordinal limit = workspace_event_page s W after_seq after_ordinal limit.
Proof.
  intros Hwf Hview. unfold workspace_event_page, workspace_journal_len.
  rewrite (view_positions _ _ Hview), (view_entries _ _ Hview).
  destruct (_ || _); [done|]. destruct (_ <? _)%N; [done|].
  destruct (rebuilt_indexes s _ W (wf_index _ Hwf)) as [_ Hb]. unfold entries_of in Hb.
  set (es := default [] (events_by_workspace (security_indexes s) !! W)) in *. set (start := partition_point _ es).
  assert (∀ l, (∀ e, e ∈ l → e ∈ es) → try_map (event_candidate s') l = try_map (event_candidate s) l) as ->; [|done|].
  - induction l as [|e l IH]; intros Hl; simpl; [done|].
    assert (event_candidate s' e = event_candidate s e) as ->.
    { unfold event_candidate. rewrite (same_journal_lookup s s' Hview); [done|].
      specialize (Hb e (Hl e ltac:(by left))). unfold len in Hb. lia. }
    rewrite IH; [done|]. intros x Hx. apply Hl. by right.
  - intros e He. eapply elem_of_sublist; [exact He|]. etrans; [apply sublist_take|apply sublist_drop].
Qed.
End view.

(** ** Isolation *)

Section isolation.
Context `{!RefCodec} `{!RefCodecLaws}.

(** Everything that a caller of the workspace reads.  [get], [history] and
    [get_observation] tell a record that does not exist from one that is denied, so
    their refusals may change; everything else is the same. *)
Record reads_agree `{!Unicode} (p : Principal) (snap : Snapshot) (s s' : State) : Prop := {
  agree_get id : same_answer (get s id snap p) (get s' id snap p);
  agree_history id : same_answer (history s id snap p) (history s' id snap p);
  agree_observation id : same_answer (get_observation s id snap p) (get_observation s' id snap p);
  agree_get_typed id kind : get_typed s' id kind snap p = get_typed s id kind snap p;
  agree_history_typed id kind : history_typed s' id kind snap p = history_typed s id kind snap p;
  agree_metadata id : authorized_record_metadata s' id snap p = authorized_record_metadata s id snap p;
  agree_authorization id : authorize_observation s' id snap p = authorize_observation s id snap p;
  agree_scan kind : scan_kind s' kind snap p = scan_kind s kind snap p;
  agree_lexical nan_negative query limit :
    lexical_search nan_negative s' query limit snap p = lexical_search nan_negative s query limit snap p;
  agree_vector nan_negative query limit :
    vector_search nan_negative s' query limit snap p = vector_search nan_negative s query limit snap p;
  agree_traverse start direction predicates max_hops max_nodes : (max_hops ≤ U8_MAX)%N →
    traverse s' start direction predicates max_hops max_nodes snap p =
    traverse s start direction predicates max_hops max_nodes snap p;
  agree_watermarks : watermarks_for_workspace s' snap (p_workspace p) = watermarks_for_workspace s snap (p_workspace p);
  agree_snapshot workspace_seq :
    snapshot_for_workspace s' (p_workspace p) workspace_seq = snapshot_for_workspace s (p_workspace p) workspace_seq;
  agree_events after_seq after_ordinal limit :
    workspace_event_page s' (p_workspace p) after_seq after_ordinal limit =
    workspace_event_page s (p_workspace p) after_seq after_ordinal limit;
}.

Lemma same_view_agrees `{!Unicode} p snap s s' :
  wf s → wf s' → same_view (p_workspace p) s s' → validate_snapshot_handle s snap = Ok tt → reads_agree p snap s s'.
Proof.
  intros Hwf Hwf' Hview Hs. split; intros.
  - by eapply same_get.
  - by eapply same_history.
  - by eapply same_get_observation.
  - by eapply same_get_typed.
  - by eapply same_history_typed.
  - by eapply same_authorized_metadata.
  - by eapply same_authorize_observation.
  - by eapply same_scan.
  - by eapply same_lexical.
  - by eapply same_vector.
  - by eapply same_traverse.
  - unfold watermarks_for_workspace. rewrite Hs, (same_snapshot _ s s' Hview _ Hs). simpl.
    by rewrite (same_watermarks _ s s' Hwf Hview).
  - by eapply same_workspace_snapshot.
  - by apply same_event_page.
Qed.

Lemma reads_agree_trans `{!Unicode} p snap s1 s2 s3 : reads_agree p snap s1 s2 → reads_agree p snap s2 s3 → reads_agree p snap s1 s3.
Proof.
  intros H12 H23. split; intros.
  - eapply same_answer_trans; [apply (agree_get _ _ _ _ H12)|apply (agree_get _ _ _ _ H23)].
  - eapply same_answer_trans; [apply (agree_history _ _ _ _ H12)|apply (agree_history _ _ _ _ H23)].
  - eapply same_answer_trans; [apply (agree_observation _ _ _ _ H12)|apply (agree_observation _ _ _ _ H23)].
  - by rewrite (agree_get_typed _ _ _ _ H23), (agree_get_typed _ _ _ _ H12).
  - by rewrite (agree_history_typed _ _ _ _ H23), (agree_history_typed _ _ _ _ H12).
  - by rewrite (agree_metadata _ _ _ _ H23), (agree_metadata _ _ _ _ H12).
  - by rewrite (agree_authorization _ _ _ _ H23), (agree_authorization _ _ _ _ H12).
  - by rewrite (agree_scan _ _ _ _ H23), (agree_scan _ _ _ _ H12).
  - by rewrite (agree_lexical _ _ _ _ H23), (agree_lexical _ _ _ _ H12).
  - by rewrite (agree_vector _ _ _ _ H23), (agree_vector _ _ _ _ H12).
  - by rewrite (agree_traverse _ _ _ _ H23), (agree_traverse _ _ _ _ H12).
  - by rewrite (agree_watermarks _ _ _ _ H23), (agree_watermarks _ _ _ _ H12).
  - by rewrite (agree_snapshot _ _ _ _ H23), (agree_snapshot _ _ _ _ H12).
  - by rewrite (agree_events _ _ _ _ H23), (agree_events _ _ _ _ H12).
Qed.

Lemma run_write_journal_len s w W : wf s → (workspace_journal_len s W ≤ workspace_journal_len (run_write s w).1 W)%N.
Proof.
  intros Hwf. destruct (run_write_cases s w) as [->|(receipt & Hp)]; [done|].
  pose proof (prepare_wf _ _ _ _ Hwf Hp) as Hwf'. set (next := (run_write s w).1) in *.
  destruct (rebuild_spec s _ W (wf_index _ Hwf)) as [_ Hb]. destruct (rebuild_spec next _ W (wf_index _ Hwf')) as [_ Hb'].
  rewrite !workspace_journal_len_positions by done.
  apply prepare_inv in Hp as (draft & rd & request & event & class & owner & Hch & _ & _ & _ & _ & Hpub).
  destruct (draft_indexes _ _ _ Hch) as [Hj _].
  destruct Hpub as [record_digest ix candidates _ _ _ Hcand Hix nx _].
  set (r := MkJournalRecord (head s + 1) (jr_record_digest <$> last (journal s)) record_digest event).
  destruct (index_record draft (len (journal s)) r (security_indexes draft) ix candidates W Hcand Hix) as (Hadd & _ & _).
  change (security_indexes nx) with ix. unfold add_record in Hadd.
  assert (positions_of (security_indexes draft) W = positions_of (security_indexes s) W) as Hpos by (unfold positions_of; by rewrite Hj).
  destruct (record_events _ _ _ _); injection Hadd as -> _; rewrite ?len_app, Hpos; [done|]. unfold len. lia.
Qed.

Lemma run_journal_len s ws W : wf s → (workspace_journal_len s W ≤ workspace_journal_len (run s ws) W)%N.
Proof.
  revert s; induction ws as [|w ws IH]; intros s Hwf; [done|]. simpl. etrans; [by apply (run_write_journal_len s w)|].
  by apply IH, run_write_wf.
Qed.

(** C3: Writes of other tenants are invisible.  After any writes, crashes and
    failures that do not advance the journal of the caller's workspace, every scan,
    search, traversal, typed read, metadata or observation check, watermark, snapshot
    and event page of the caller at a snapshot it held is exactly what it was before;
    [get], [history] and [get_observation] return what they returned before, and a
    record that they refused is still refused, although the reason may change from
    denied to missing or back. *)
Theorem foreign_writes_are_invisible `{!Unicode} s ws p snap :
  reachable s → validate_snapshot_handle s snap = Ok tt →
  workspace_journal_len (run s ws) (p_workspace p) = workspace_journal_len s (p_workspace p) →
  reads_agree p snap s (run s ws).
Proof.
  intros Hreach Hs. pose proof (reachable_wf _ Hreach) as Hwf. clear Hreach. revert s Hs Hwf.
  induction ws as [|w ws IH]; intros s Hs Hwf Hlen.
  { simpl. apply same_view_agrees; [done|done|apply same_view_refl|done]. }
  change (run s (w :: ws)) with (run (run_write s w).1 ws) in *. set (s1 := (run_write s w).1) in *.
  pose proof (run_write_wf s w Hwf) as Hwf1. fold s1 in Hwf1.
  pose proof (run_write_journal_len s w (p_workspace p) Hwf) as Hle. fold s1 in Hle.
  pose proof (run_journal_len s1 ws (p_workspace p) Hwf1) as Hle1.
  assert (workspace_journal_len s1 (p_workspace p) = workspace_journal_len s (p_workspace p)) as Heq by lia.
  assert (same_view (p_workspace p) s s1) as Hview.
  { unfold s1 in *. destruct (run_write_cases s w) as [Hsame|(receipt & Hp)]; [rewrite Hsame; apply same_view_refl|].
    by eapply prepare_view. }
  apply reads_agree_trans with s1; [by apply same_view_agrees|].
  apply IH; [by eapply same_snapshot|done|lia].
Qed.
End isolation.
