(* ===== verification/RefAdapter.v ===== *)
(** * The reference engine: the adapter of core values (crate contextdb-reference,
    core_adapter.rs, and the core entry points of db.rs)

    How a validated value of contextdb-core becomes a record, an observation or a
    transaction of the engine.

    Parameters: the text of a UUID and of a float, and [serde_json] on the core
    types.  A type that the macro [json!] serialises, which panics where
    serialisation fails, is in the class [ToJson]: the derived implementations of
    those types do not fail. *)

From stdpp Require Import pretty.
From S2P Require Import Prelude.
From S2P Require Import Ordering.
From S2P Require Import Bytes.
From S2P Require Import Ieee.
From S2P Require Import Json.
From S2P Require Import CoreBase.
From S2P Require Import Provenance.
From S2P Require Import Policy.
From S2P Require Import Identity.
From S2P Require Import Evidence.
From S2P Require Import Semantic.
From S2P Require Import MemoryTypes.
From S2P Require Import Mutation.
From S2P Require Import RefModel.
From S2P Require Import RefEngine.
From S2P Require Import RefReads.

(** ** JSON values of the core model *)

(** [PartialEq] of a JSON number: floats compare as numbers, so the two zeros are
    equal; a JSON number is never NaN. *)
Definition json_number_eqb (a b : JsonNumber) : bool :=
  match a, b with
  | PosInt m, PosInt n => (m =? n)%N
  | NegInt x, NegInt y => (x =? y)%Z
  | Float x, Float y =>
      (x =? y)%N || (N.land x (2 ^ 63 - 1) =? 0)%N && (N.land y (2 ^ 63 - 1) =? 0)%N
  | _, _ => false
  end.

Fixpoint json_eqb (a b : Json.JsonValue) : bool :=
  match a, b with
  | JNull, JNull => true
  | JBool x, JBool y => Bool.eqb x y
  | JNumber m, JNumber n => json_number_eqb m n
  | JString s, JString t => bool_decide (s = t)
  | JArray xs, JArray ys =>
      (fix go xs ys := match xs, ys with
        | [], [] => true
        | x :: xs, y :: ys => json_eqb x y && go xs ys
        | _, _ => false
        end) xs ys
  | JObject xs, JObject ys =>
      (fix go xs ys := match xs, ys with
        | [], [] => true
        | (k, x) :: xs, (l, y) :: ys => bool_decide (k = l) && json_eqb x y && go xs ys
        | _, _ => false
        end) xs ys
  | _, _ => false
  end.

#[export] Instance core_json : Semantic.JsonValue := {|
  Value := Json.JsonValue;
  value_eqb := json_eqb;
  is_object := λ v, match v with JObject _ => true | _ => false end;
|}.

(** [Value::get] with a string index. *)
Definition value_get (field : string) (v : Json.JsonValue) : option Json.JsonValue :=
  match v with
  | JObject members => snd <$> List.find (λ kv, bool_decide (kv.1 = field)) members
  | _ => None
  end.

(** ** Errors *)

(** [?] on a validation result, through [From<ValidationError>]. *)
Definition core_checked (v : ValidationResult) : Res unit :=
  map_err (λ e, CoreValidation (ValidationError_to_string e)) v.

#[export] Instance ConsentStatus_eq_dec : EqDecision ConsentStatus.
Proof. solve_decision. Defined.
#[export] Instance PolicyDecision_eq_dec : EqDecision PolicyDecision.
Proof. solve_decision. Defined.

(** ** Parameters *)

Class ToJson (T : Type) := to_json : T → Json.JsonValue.

Class AdapterCodec := {
  uuid_to_string : Uuid → string;
  f64_to_string : f64 → string;
  adapter_node :: ToJson Semantic.Node;
  adapter_node_revision :: ToJson NodeRevision;
  adapter_claim :: ToJson Semantic.Claim;
  adapter_claim_revision :: ToJson ClaimRevision;
  adapter_edge :: ToJson Semantic.Edge;
  adapter_edge_revision :: ToJson EdgeRevision;
  adapter_conflict :: ToJson ConflictSet;
  adapter_conflict_revision :: ToJson ConflictSetRevision;
  adapter_source :: ToJson SourceId;
  adapter_spaces :: ToJson (NonEmptyVec MemorySpaceId);
  adapter_participants :: ToJson (NonEmptyVec ActorId);
  adapter_range :: ToJson TimeRange;
  adapter_timestamp :: ToJson TimestampMicros;
  adapter_node_record :: ToValue NodeRecord;
  adapter_claim_record :: ToValue ClaimRecord;
  adapter_edge_record :: ToValue EdgeRecord;
  adapter_conflict_record :: ToValue ConflictSetRecord;
  adapter_observation :: ToValue ObservationUnit;
  adapter_candidate :: ToValue MemoryCandidate;
  adapter_episode :: ToValue EpisodeView;
  adapter_typed :: ToValue TypedMemoryMutation;
  adapter_mutation :: ToValue SemanticMutationSet;
  adapter_read_node :: FromValue Semantic.Node;
  adapter_read_claim :: FromValue Semantic.Claim;
  adapter_read_edge :: FromValue Semantic.Edge;
  adapter_read_conflict :: FromValue ConflictSet;
}.

(** What the documentation of the crates [uuid] and [serde_json] says: the text of
    a UUID is its hyphenated form, which determines it, and a node is read back
    from its JSON value. *)
Class AdapterLaws `{!AdapterCodec} : Prop := {
  uuid_text_inj (u v : Uuid) : uuid_to_string u = uuid_to_string v → u = v;
  uuid_text_length (u : Uuid) : String.length (uuid_to_string u) = 36%nat;
  node_round_trip (n : Semantic.Node) : from_value (to_json n) = Ok n;
}.

(** The map of [core_transaction]: the kind and the value of every live record. *)
Abbreviation Existing := (gmap string (RecordKind * Json.JsonValue)).

Section adapter.
Context `{!AdapterCodec}.

Definition id_to_string {kind} (id : StableId kind) : string := uuid_to_string (as_uuid id).

(** ** Parts of a record *)

(** [strings] at a list of identifiers. *)
Definition strings {kind} (ids : list (StableId kind)) : gset string := list_to_set (id_to_string <$> ids).

Definition purpose (p : Purpose) : string :=
  match p with
  | Conversation => "conversation"
  | Personalisation => "personalisation"
  | TaskExecution => "task_execution"
  | KnowledgeRecall => "knowledge_recall"
  | Safety => "safety"
  | PurposeAudit => "audit"
  | PurposeExport => "export"
  | PurposeMigration => "migration"
  | UserSpecified label => "user:" +:+ label
  end.

Definition audience_key (a : Audience) : string :=
  match a with
  | AudiencePublic => "*"
  | AudienceOwner => "@owner"
  | AudienceSubject id => id_to_string id
  | AudienceGroup id => "group:" +:+ id_to_string id
  | AudienceMemorySpace id => "space:" +:+ id_to_string id
  end.

Definition valid_time (t : TimeRange) : ValidTime := MkValidTime (Some (time_start t)) (time_end t).

Definition lifecycle (l : LifecycleState) : Lifecycle :=
  match l with
  | LifecycleActive => Active
  | Historical | Semantic.Superseded => Superseded
  | Semantic.Retracted => Retracted
  | Semantic.Suppressed | LifecycleDeleted => Suppressed
  end.

Definition consent_of (e : SemanticEnvelope) : Consent :=
  let c := Policy.consent e in
  if negb (required c) then ConsentGranted
  else if existsb (λ d, bool_decide (status d = Denied)) (decisions c) then ConsentDenied
  else if negb (is_empty (decisions c)) && forallb (λ d, bool_decide (status d = Granted)) (decisions c)
  then ConsentGranted
  else ConsentUnknown.

Definition purpose_strings (ps : gset Purpose) : gset string := list_to_set (purpose <$> elements ps).

(** One grant of the loop in [access_label]. *)
Definition add_grant (acc : gset string * gmap string (gset string)) (grant : AudienceGrant)
    : gset string * gmap string (gset string) :=
  if negb (bool_decide (Retrieve ∈ capabilities grant)) then acc
  else
  let key := audience_key (Policy.audience grant) in
  ({[key]} ∪ acc.1, update_default ∅ (λ ps, ps ∪ purpose_strings (Policy.purposes grant)) key acc.2).

Definition sensitivity_of (c : SecurityClassification) : Sensitivity :=
  match c with
  | Policy.Public => Public
  | Policy.Internal => Internal
  | Confidential => Private
  | Policy.Restricted => Restricted
  end.

Definition scope_strings (e : SemanticEnvelope) : gset string :=
  list_to_set ((λ scope, id_to_string (scope_id scope)) <$> into_vec (Policy.scopes e)).

Definition access_label (workspace : string) (e : SemanticEnvelope) : AccessLabel :=
  let o := ownership e in
  let '(audience, grants) := foldl add_grant (∅, ∅) (audience_grants o) in
  MkAccessLabel workspace (scope_strings e)
    (strings (into_vec (Policy.owners o)))
    audience grants
    (purpose_strings (allowed_purposes o))
    (sensitivity_of (classification (security e)))
    (consent_of e)
    (bool_decide (use_retrieve (use_policy e) = Allow)).

Definition workspace_scope (e : SemanticEnvelope) : string :=
  match List.find (λ scope, bool_decide (scope_kind scope = ScopeWorkspace)) (into_vec (Policy.scopes e)) with
  | Some scope => id_to_string (scope_id scope)
  | None => "core-unspecified-workspace"
  end.

Definition lexical_projection (o : ClaimObject) : option string :=
  match o with
  | ObjectString value | ObjectUri value => Some value
  | ObjectQuantity value unit_ => Some (f64_to_string value +:+ " " +:+ unit_)
  | ObjectInteger value => Some (pretty value)
  | ObjectFloat value => Some (f64_to_string value)
  | ObjectBoolean value => Some (if value then "true" else "false")
  | ObjectNode value => Some (id_to_string value)
  | ObjectTimestamp value => Some (pretty value)
  | ObjectTimeRange _ | ObjectCodeLocation _ _ | ObjectStructured _ => None
  end.

Definition missing_revision (kind : string) (index : N) : ReferenceError :=
  Invariant (kind +:+ " revision index " +:+ pretty index +:+ " is out of range").

(** ** Records of the four revisioned objects *)

Definition evidence_links (evidence : list EvidenceId) : SemanticLinks :=
  MkSemanticLinks None None None None None ∅ (strings evidence) ∅ false.
Definition claim_links (c : Semantic.Claim) (r : ClaimRevision) (single_valued : bool) : SemanticLinks :=
  MkSemanticLinks (Some (id_to_string (claim_subject c))) None None (Some (id_to_string (claim_predicate c)))
    (id_to_string <$> conflict_set_id (conflict (cr_epistemic r)))
    (strings (Semantic.supersedes r)) (strings (cr_evidence r)) ∅ single_valued.
Definition edge_links (e : Semantic.Edge) (r : EdgeRevision) : SemanticLinks :=
  MkSemanticLinks None (Some (id_to_string (edge_source e))) (Some (id_to_string (edge_target e)))
    (Some (id_to_string (edge_type e))) None ∅ (strings (er_evidence r)) ∅ false.
Definition conflict_links (c : ConflictSet) (r : ConflictSetRevision) : SemanticLinks :=
  MkSemanticLinks (Some (id_to_string (cs_subject c))) None None (Some (id_to_string (cs_predicate c)))
    None ∅ (strings (csr_evidence r)) (strings (into_vec (members r))) false.

(** The records of [node_revision] and of the node loop differ in their value;
    likewise for the other three. *)
Definition node_record (n : Semantic.Node) (r : NodeRevision) (value : Json.JsonValue) : LogicalRecord :=
  MkLogicalRecord (id_to_string (node_id n)) Node
    (access_label (id_to_string (node_workspace_id n)) (nr_envelope r))
    (valid_time (CoreBase.valid_time (nr_temporal r))) (lifecycle (Semantic.lifecycle (nr_epistemic r)))
    (evidence_links (nr_evidence r)) value (Some (canonical_name r)) None (nr_attributes r).
Definition claim_record (c : Semantic.Claim) (r : ClaimRevision) (single_valued : bool) (value : Json.JsonValue)
    : LogicalRecord :=
  MkLogicalRecord (id_to_string (claim_id c)) Claim
    (access_label (id_to_string (claim_workspace_id c)) (cr_envelope r))
    (valid_time (CoreBase.valid_time (cr_temporal r))) (lifecycle (Semantic.lifecycle (cr_epistemic r)))
    (claim_links c r single_valued) value (lexical_projection (object r)) None ∅.
Definition edge_record (e : Semantic.Edge) (r : EdgeRevision) (value : Json.JsonValue) : LogicalRecord :=
  MkLogicalRecord (id_to_string (edge_id e)) Edge
    (access_label (id_to_string (edge_workspace_id e)) (er_envelope r))
    (valid_time (CoreBase.valid_time (er_temporal r))) (lifecycle (Semantic.lifecycle (er_epistemic r)))
    (edge_links e r) value None None (er_attributes r).
Definition conflict_record (c : ConflictSet) (r : ConflictSetRevision) (value : Json.JsonValue) : LogicalRecord :=
  MkLogicalRecord (id_to_string (cs_id c)) Conflict
    (access_label (id_to_string (cs_workspace_id c)) (csr_envelope r))
    UNBOUNDED Active (conflict_links c r) value None None ∅.

Definition node_revision (record : NodeRecord) (revision_index : N) : Res LogicalRecord :=
  try? core_checked (NodeRecord_validate record) in
  let? revision := ok_or (into_vec (Semantic.node_revisions record) !! N.to_nat revision_index)
    (missing_revision "node" revision_index) in
  let? value := to_value_or record in
  Ok (node_record (Semantic.node record) revision value).

Definition claim_revision (record : ClaimRecord) (revision_index : N) (single_valued : bool) : Res LogicalRecord :=
  try? core_checked (ClaimRecord_validate record) in
  let? revision := ok_or (into_vec (Semantic.claim_revisions record) !! N.to_nat revision_index)
    (missing_revision "claim" revision_index) in
  let? value := to_value_or record in
  Ok (claim_record (Semantic.claim record) revision single_valued value).

Definition edge_revision (record : EdgeRecord) (revision_index : N) : Res LogicalRecord :=
  try? core_checked (EdgeRecord_validate record) in
  let? revision := ok_or (into_vec (Semantic.edge_revisions record) !! N.to_nat revision_index)
    (missing_revision "edge" revision_index) in
  let? value := to_value_or record in
  Ok (edge_record (Semantic.edge record) revision value).

Definition conflict_revision (record : ConflictSetRecord) (revision_index : N) : Res LogicalRecord :=
  try? core_checked (ConflictSetRecord_validate record) in
  let? revision := ok_or (into_vec (Semantic.conflict_revisions record) !! N.to_nat revision_index)
    (missing_revision "conflict set" revision_index) in
  let? value := to_value_or record in
  Ok (conflict_record (conflict_set record) revision value).

(** ** Observations *)

Definition observation (o : ObservationUnit) (idempotency_key : string) : Res ObservationInput :=
  try? core_checked (ObservationUnit_validate o) in
  let? content := to_value_or o in
  Ok (MkObservationInput idempotency_key (id_to_string (Evidence.observation_id o))
    (access_label (id_to_string (observation_workspace_id o)) (observation_envelope o))
    (list_to_map [("source_id", to_json (observation_source_id o));
                  ("memory_spaces", to_json (memory_spaces o));
                  ("participants", to_json (participants o));
                  ("occurred_at", to_json (occurred_at o));
                  ("observed_at", to_json (observed_at o));
                  ("recorded_at", to_json (recorded_at o))])
    content).

(** ** Mutation sets *)

Definition existing_identity `{FromValue T} {kind} (existing : Existing) (id : StableId kind)
    (expected_kind : RecordKind) (field : string) : Res T :=
  let id := id_to_string id in
  let? entry := ok_or (existing !! id) (Invariant ("missing stable identity " +:+ id)) in
  if bool_decide (entry.1 ≠ expected_kind)
  then Err (Invariant ("stable identity " +:+ id +:+ " has the wrong record kind"))
  else
  let? value := ok_or (value_get field entry.2) (Invariant ("record " +:+ id +:+ " lacks " +:+ field)) in
  map_err Serialization (from_value value).

(** The identity of a revision: the created one, or the stored one. *)
Definition identity_of `{FromValue T} {kind} (creates : list T) (key : T → StableId kind) (existing : Existing)
    (id : StableId kind) (expected_kind : RecordKind) : Res T :=
  match List.find (λ t, bool_decide (key t = id)) creates with
  | Some created => Ok created
  | None => existing_identity existing id expected_kind "identity"
  end.

(** [json!({"identity": ..., "revision": ...})]. *)
Definition pair_value `{ToJson A} `{ToJson B} (identity : A) (revision : B) : Json.JsonValue :=
  JObject [("identity", to_json identity); ("revision", to_json revision)].

Definition header_record (h : MemoryRevisionHeader) (value : Json.JsonValue) : LogicalRecord :=
  MkLogicalRecord (id_to_string (mh_node_id h)) SemanticObject
    (access_label (workspace_scope (mh_envelope h)) (mh_envelope h))
    (valid_time (CoreBase.valid_time (mh_temporal h))) (lifecycle (Semantic.lifecycle (mh_epistemic h)))
    (evidence_links (mh_evidence h)) value None None ∅.

Definition typed_memory (m : TypedMemoryMutation) : Res LogicalRecord :=
  let? value := to_value_or m in
  Ok match m with
  | WritePreference item => header_record (preference_header item) value
  | WriteBoundary item => header_record (boundary_header item) value
  | WriteGoal item => header_record (goal_header item) value
  | WriteCommitment item => header_record (commitment_header item) value
  | WriteProcedure item => header_record (procedure_header item) value
  | WriteRelationship item => header_record (relationship_header item) value
  | WriteSharedReference item => header_record (reference_header item) value
  | WriteSelfModel item => header_record (self_model_header item) value
  | WriteInteractionSignal item => header_record (signal_header item) value
  | WriteContinuityProfile item =>
      MkLogicalRecord (id_to_string (profile_id item)) SemanticObject
        (access_label (id_to_string (profile_workspace_id item)) (profile_envelope item))
        UNBOUNDED Active SemanticLinks_default value None None ∅
  end.

Definition candidate_record (c : MemoryCandidate) : Res LogicalRecord :=
  let? value := to_value_or c in
  Ok (MkLogicalRecord (id_to_string (candidate_id c)) Candidate
    (access_label (workspace_scope (candidate_envelope c)) (candidate_envelope c))
    UNBOUNDED Active (evidence_links (into_vec (evidence_spans c))) value None None ∅).

Definition episode_record (e : EpisodeView) : Res LogicalRecord :=
  let? value := to_value_or e in
  Ok (MkLogicalRecord (id_to_string (episode_id e)) SemanticObject
    (access_label (id_to_string (episode_workspace_id e)) (episode_envelope e))
    (valid_time (episode_occurred_at e)) Active SemanticLinks_default value None None ∅).

(** The bodies of the four revision loops. *)
Definition node_write (m : SemanticMutationSet) (existing : Existing) (r : NodeRevision) : Res LogicalRecord :=
  let? node := identity_of (node_creates m) node_id existing (nr_node_id r) Node in
  Ok (node_record node r (pair_value node r)).
Definition claim_write (m : SemanticMutationSet) (existing : Existing) (r : ClaimRevision) : Res LogicalRecord :=
  let? claim := identity_of (claim_creates m) claim_id existing (cr_claim_id r) Claim in
  Ok (claim_record claim r false (pair_value claim r)).
Definition edge_write (m : SemanticMutationSet) (existing : Existing) (r : EdgeRevision) : Res LogicalRecord :=
  let? edge := identity_of (edge_creates m) edge_id existing (er_edge_id r) Edge in
  Ok (edge_record edge r (pair_value edge r)).
Definition conflict_write (m : SemanticMutationSet) (existing : Existing) (r : ConflictSetRevision)
    : Res LogicalRecord :=
  let? conflict := identity_of (conflict_creates m) cs_id existing (csr_conflict_set_id r) Conflict in
  Ok (conflict_record conflict r (pair_value conflict r)).

Definition mutation_records (m : SemanticMutationSet) (existing : Existing) : Res (list LogicalRecord) :=
  try? core_checked (SemanticMutationSet_validate m) in
  let? nodes := try_map (node_write m existing) (node_writes m) in
  let? claims := try_map (claim_write m existing) (claim_writes m) in
  let? edges := try_map (edge_write m existing) (edge_writes m) in
  let? conflicts := try_map (conflict_write m existing) (conflict_writes m) in
  let? typed := try_map typed_memory (typed_memory_writes m) in
  let? candidates := try_map candidate_record (candidate_writes m) in
  let? episodes := try_map episode_record (episode_view_writes m) in
  Ok (nodes ++ claims ++ edges ++ conflicts ++ typed ++ candidates ++ episodes).

(** ** The entry points of the engine *)

Context `{!RefCodec}.

Definition observe_core (guard : State) (o : ObservationUnit) (idempotency_key : string)
    : State * Res CommitReceipt :=
  match observation o idempotency_key with
  | Ok input => observe guard input
  | Err e => (guard, Err e)
  end.

(** One record of the loop in [core_transaction]. *)
Definition add_existing (s : State) (existing : Existing) (entry : string * list StoredRevision) : Res Existing :=
  let '(id, history) := entry in
  if has_tombstone s id then Ok existing
  else match revision_at history (head s) with
  | None => Ok existing
  | Some revision =>
      let? content := content_for_revision s revision in
      Ok (<[id := (m_kind (sr_record revision), rc_value content)]> existing)
  end.
Definition existing_records (s : State) : Res Existing := try_fold (add_existing s) ∅ (bt_entries (histories s)).

(** [core_transaction] takes the lock twice: [at_snapshot] is the state when it
    reads the head, [at_read] the state when it reads the records. *)
Definition core_transaction (at_snapshot at_read : State) (m : SemanticMutationSet) (idempotency_key : string)
    : Res SemanticTransaction :=
  let head := snap_commit_seq (snapshot at_snapshot) in
  if negb (snapshot_commit_seq (Mutation.base_snapshot m) =? head)%N
  then Err (SnapshotConflict (snapshot_commit_seq (Mutation.base_snapshot m)) head)
  else if negb (is_empty (observation_appends m))
  then Err (Invariant "core mutation observation_appends must enter through observe_core before semantic publication")
  else
  let? existing := existing_records at_read in
  let? records := mutation_records m existing in
  Ok (MkSemanticTransaction head idempotency_key ((λ record, Put record None) <$> records)).

(** [commit_core] takes the lock four times: for the replay check, twice in
    [core_transaction], and for the write.  Other writers may run in between. *)
Definition commit_core_at (at_replay at_snapshot at_read guard : State) (m : SemanticMutationSet)
    (idempotency_key : string) : State * Res CommitReceipt :=
  let checked :=
    try? core_checked (SemanticMutationSet_validate m) in
    if trim_is_empty idempotency_key then Err (Invariant "idempotency key must not be empty")
    else
    let? request_digest := operation_digest "semantic-core" m in
    replay_or_conflict at_replay (key_digest idempotency_key) request_digest in
  match checked with
  | Err e => (guard, Err e)
  | Ok (Some receipt) => (guard, Ok receipt)
  | Ok None =>
      match core_transaction at_snapshot at_read m idempotency_key with
      | Err e => (guard, Err e)
      | Ok transaction => commit_with_canonical_request guard transaction m
      end
  end.

(** [commit_core] with no other writer. *)
Definition commit_core (s : State) (m : SemanticMutationSet) (idempotency_key : string)
    : State * Res CommitReceipt :=
  commit_core_at s s s s m idempotency_key.
End adapter.
