(* ===== verification/RefAccess.v ===== *)
(** * The reference engine: access to core values

    What the adapter's access label lets a principal read, against the grants of
    the core envelope. *)

From S2P Require Import Prelude.
From S2P Require Import Ordering.
From S2P Require Import Bytes.
From S2P Require Import Json.
From S2P Require Import CoreBase.
From S2P Require Import Provenance.
From S2P Require Import Policy.
From S2P Require Import RefModel.
From S2P Require Import RefEngine.
From S2P Require Import RefAdapter.

Section access.
Context `{!AdapterCodec} `{!AdapterLaws}.

(** ** The grants of a label *)

Lemma elem_of_purpose_strings x ps : x ∈ purpose_strings ps ↔ ∃ q, q ∈ ps ∧ purpose q = x.
Proof. unfold purpose_strings. rewrite elem_of_list_to_set, list_elem_of_fmap. set_solver. Qed.

Lemma elem_of_strings {kind} x (ids : list (StableId kind)) : x ∈ strings ids ↔ ∃ i, i ∈ ids ∧ id_to_string i = x.
Proof. unfold strings. rewrite elem_of_list_to_set, list_elem_of_fmap. naive_solver. Qed.

(** A grant that the label takes over. *)
Definition retrieval (e : SemanticEnvelope) (g : AudienceGrant) : Prop :=
  g ∈ audience_grants (ownership e) ∧ Retrieve ∈ capabilities g.

Definition label_grants (gs : list AudienceGrant) := foldl add_grant (∅, ∅) gs.

Lemma label_grants_snoc gs g : label_grants (gs ++ [g]) = add_grant (label_grants gs) g.
Proof. unfold label_grants. by rewrite foldl_app. Qed.

Lemma label_audience gs k :
  k ∈ (label_grants gs).1 ↔ ∃ g, g ∈ gs ∧ Retrieve ∈ capabilities g ∧ audience_key (Policy.audience g) = k.
Proof.
  induction gs as [|g gs IH] using rev_ind; [simpl; set_solver|].
  rewrite label_grants_snoc. unfold add_grant. case_bool_decide as Hc; simpl; set_solver.
Qed.

Lemma label_purposes gs k x :
  (∃ ps, (label_grants gs).2 !! k = Some ps ∧ x ∈ ps) ↔
  ∃ g q, g ∈ gs ∧ Retrieve ∈ capabilities g ∧ audience_key (Policy.audience g) = k ∧
         q ∈ Policy.purposes g ∧ purpose q = x.
Proof.
  induction gs as [|g gs IH] using rev_ind.
  { split; [intros (ps & Hps & _); cbn in Hps; by rewrite lookup_empty in Hps|].
    intros (g & q & Hin & _). by apply elem_of_nil in Hin. }
  rewrite label_grants_snoc. unfold add_grant. setoid_rewrite elem_of_app. setoid_rewrite list_elem_of_singleton.
  case_bool_decide as Hc; simpl.
  2:{ rewrite IH. split; intros (g' & q & Hin & Hr & Hrest); exists g', q; [tauto|].
      destruct Hin as [Hin| ->]; tauto. }
  unfold update_default. destruct (decide (audience_key (Policy.audience g) = k)) as [<-|Hne].
  - rewrite lookup_insert_eq. split.
    + intros (ps & [= <-] & [Hx|Hx]%elem_of_union).
      * destruct (proj1 IH) as (g' & q & ? & ?); [|exists g', q; tauto].
        destruct ((label_grants gs).2 !! _) as [ps|]; [by exists ps|set_solver].
      * apply elem_of_purpose_strings in Hx as (q & ? & ?). exists g, q. tauto.
    + intros (g' & q & [Hin| ->] & Hr & Hk & Hq & Hx); eexists; (split; [reflexivity|]); apply elem_of_union.
      * left. destruct (proj2 IH) as (ps & -> & ?); [by exists g', q|done].
      * right. apply elem_of_purpose_strings. by exists q.
  - rewrite lookup_insert_ne by done. rewrite IH. split; intros (g' & q & Hin & Hr & Hk & ?); exists g', q; [tauto|].
    destruct Hin as [Hin| ->]; tauto.
Qed.

Lemma label_grants_empty gs :
  (label_grants gs).2 = ∅ ↔ ∀ g, g ∈ gs → Retrieve ∉ capabilities g.
Proof.
  induction gs as [|g gs IH] using rev_ind; [split; [intros _ g Hg; by apply elem_of_nil in Hg|done]|].
  rewrite label_grants_snoc. unfold add_grant. setoid_rewrite elem_of_app. setoid_rewrite list_elem_of_singleton.
  case_bool_decide as Hc; simpl.
  - split; [intros Hempty; exfalso; by apply (insert_non_empty _ _ _ Hempty)|].
    intros Hall. exfalso. apply (Hall g); [by right|done].
  - rewrite IH. split; intros Hall g' Hg; [destruct Hg as [Hg| ->]; [by apply Hall|done]|apply Hall; by left].
Qed.

Lemma access_label_eq w e :
  access_label w e =
  MkAccessLabel w (scope_strings e)
    (strings (into_vec (Policy.owners (ownership e))))
    (label_grants (audience_grants (ownership e))).1 (label_grants (audience_grants (ownership e))).2
    (purpose_strings (allowed_purposes (ownership e)))
    (sensitivity_of (classification (security e))) (consent_of e)
    (bool_decide (use_retrieve (use_policy e) = Allow)).
Proof. unfold access_label, label_grants. by destruct (foldl _ _ _). Qed.

(** ** What the label lets a principal read *)

(** The consent of the envelope: not needed, or given by every decision. *)
Definition consented (e : SemanticEnvelope) : Prop :=
  required (Policy.consent e) = false ∨
  decisions (Policy.consent e) ≠ [] ∧ ∀ d, d ∈ decisions (Policy.consent e) → status d = Granted.

Lemma consent_of_granted e : consent_of e = ConsentGranted ↔ consented e.
Proof.
  unfold consent_of, consented. destruct (required _); simpl; [|naive_solver].
  destruct (existsb _ _) eqn:Hd.
  - apply existsb_exists in Hd as (d & Hin%list_elem_of_In & Hs%bool_decide_eq_true).
    split; [done|]. intros [?|[_ Hall]]; [done|]. rewrite (Hall _ Hin) in Hs. done.
  - destruct (decisions _) as [|d ds]; simpl; [naive_solver|].
    destruct (_ && _) eqn:Hall.
    + split; [|done]. intros _. right. split; [done|]. change (forallb (λ d, bool_decide (status d = Granted)) (d :: ds) = true) in Hall.
      rewrite forallb_forall in Hall. intros d' Hin%list_elem_of_In. by apply Hall, bool_decide_eq_true in Hin.
    + split; [done|]. intros [?|[_ Hok]]; [done|]. exfalso.
      change (forallb (λ d, bool_decide (status d = Granted)) (d :: ds) = false) in Hall.
      apply not_true_iff_false in Hall. apply Hall, forallb_forall. intros d' Hin%list_elem_of_In.
      by apply bool_decide_eq_true, Hok.
Qed.

Definition owned_by (e : SemanticEnvelope) (p : Principal) : Prop :=
  ∃ owner, owner ∈ into_vec (Policy.owners (ownership e)) ∧ id_to_string owner = p_subject p.

Definition is_owner_of (e : SemanticEnvelope) (p : Principal) : bool :=
  bool_decide (p_subject p ∈ strings (into_vec (Policy.owners (ownership e)))).

Lemma is_owner_of_spec e p : is_owner_of e p = true ↔ owned_by e p.
Proof. unfold is_owner_of. by rewrite bool_decide_eq_true, elem_of_strings. Qed.

(** The principal is in the audience: everybody is in the public one, the owners
    are in theirs, and the host says which subject and audiences it resolved. *)
Definition in_audience (e : SemanticEnvelope) (p : Principal) (a : Audience) : Prop :=
  a = AudiencePublic ∨ a = AudienceOwner ∧ owned_by e p ∨
  audience_key a = p_subject p ∨ audience_key a ∈ p_audiences p.

Lemma audience_key_star a : audience_key a = "*" ↔ a = AudiencePublic.
Proof.
  split; [|by intros ->]. destruct a as [| |id|id|id]; simpl; [done|done| |done|done].
  intros Heq%(f_equal String.length). unfold id_to_string in Heq. by rewrite uuid_text_length in Heq.
Qed.

Lemma audience_key_owner a : audience_key a = "@owner" ↔ a = AudienceOwner.
Proof.
  split; [|by intros ->]. destruct a as [| |id|id|id]; simpl; [done|done| |done|done].
  intros Heq%(f_equal String.length). unfold id_to_string in Heq. by rewrite uuid_text_length in Heq.
Qed.

Lemma in_audience_keys e p a : audience_key a ∈ audience_keys p (is_owner_of e p) ↔ in_audience e p a.
Proof.
  unfold audience_keys, in_audience. rewrite !elem_of_app, !elem_of_cons, elem_of_nil, bt_elements_elem.
  rewrite <- is_owner_of_spec, audience_key_star.
  destruct (is_owner_of e p); rewrite ?elem_of_cons, ?elem_of_nil, ?audience_key_owner; naive_solver.
Qed.

Lemma some_scope_allowed e p :
  bool_decide (scope_strings e = ∅) || existsb (λ scope, bool_decide (scope ∈ p_scopes p)) (bt_elements (scope_strings e)) = true ↔
  ∃ scope, scope ∈ into_vec (Policy.scopes e) ∧ id_to_string (scope_id scope) ∈ p_scopes p.
Proof.
  unfold scope_strings. rewrite orb_true_iff, bool_decide_eq_true, existsb_exists. split.
  - intros [Hempty|(x & Hin%list_elem_of_In & Hx%bool_decide_eq_true)].
    + exfalso. destruct (Policy.scopes e) as [s ss]. simpl in Hempty. set_solver.
    + rewrite bt_elements_elem, elem_of_list_to_set, list_elem_of_fmap in Hin. destruct Hin as (scope & -> & ?). eauto.
  - intros (scope & Hin & Hs). right. exists (id_to_string (scope_id scope)).
    split; [|by apply bool_decide_eq_true]. apply list_elem_of_In.
    rewrite bt_elements_elem, elem_of_list_to_set. apply list_elem_of_fmap. by exists scope.
Qed.

(** Some retrieval grant is for an audience of the principal and its purpose. *)
Definition granted (e : SemanticEnvelope) (p : Principal) : Prop :=
  ∃ g q, retrieval e g ∧ in_audience e p (Policy.audience g) ∧ q ∈ Policy.purposes g ∧ purpose q = p_purpose p.

(** The audience test of [Principal_allows] on a label of the adapter. *)
Definition audience_allowed (e : SemanticEnvelope) (p : Principal) : Prop :=
  granted e p ∨
  (∀ g, ¬ retrieval e g) ∧ owned_by e p ∧
    (allowed_purposes (ownership e) = ∅ ∨ ∃ q, q ∈ allowed_purposes (ownership e) ∧ purpose q = p_purpose p).

Lemma granted_by_label e p :
  existsb (λ audience, match (label_grants (audience_grants (ownership e))).2 !! audience with
                       | Some purposes => bool_decide (p_purpose p ∈ purposes)
                       | None => false
                       end) (audience_keys p (is_owner_of e p)) = true ↔
  ∃ g q, retrieval e g ∧ in_audience e p (Policy.audience g) ∧ q ∈ Policy.purposes g ∧ purpose q = p_purpose p.
Proof.
  rewrite existsb_exists. split.
  - intros (k & Hk%list_elem_of_In & Hp). destruct (_ !! k) as [ps|] eqn:Hps; [|done].
    apply bool_decide_eq_true in Hp.
    destruct (proj1 (label_purposes (audience_grants (ownership e)) k (p_purpose p))) as (g & q & ? & ? & <- & ? & ?); [by exists ps|].
    exists g, q. rewrite <- in_audience_keys. done.
  - intros (g & q & [Hg Hr] & Ha & Hq & Hp). exists (audience_key (Policy.audience g)).
    split; [by apply list_elem_of_In, in_audience_keys|].
    destruct (proj2 (label_purposes (audience_grants (ownership e)) (audience_key (Policy.audience g)) (p_purpose p)))
      as (ps & -> & ?); [by exists g, q|]. by apply bool_decide_eq_true.
Qed.

Lemma purpose_strings_empty ps : purpose_strings ps = ∅ ↔ ps = ∅.
Proof.
  split; [|by intros ->]. intros Hs. apply set_eq. intros q. split; [|set_solver]. intros Hq.
  assert (purpose q ∈ purpose_strings ps) as Hin by (apply elem_of_purpose_strings; eauto).
  rewrite Hs in Hin. set_solver.
Qed.

Lemma audience_test e p :
  let grants := label_grants (audience_grants (ownership e)) in
  let purposes := purpose_strings (allowed_purposes (ownership e)) in
  let purpose_allowed := bool_decide (purposes = ∅) || bool_decide (p_purpose p ∈ purposes) in
  (if bool_decide (grants.2 = ∅) then
     (bool_decide (p_subject p ∈ grants.1) || bool_decide ("*" ∈ grants.1)) && purpose_allowed
     || is_owner_of e p && purpose_allowed
   else
     existsb (λ audience,
       match grants.2 !! audience with Some purposes => bool_decide (p_purpose p ∈ purposes) | None => false end)
       (audience_keys p (is_owner_of e p))) = true ↔ audience_allowed e p.
Proof.
  cbn zeta. unfold audience_allowed. case_bool_decide as Hempty.
  - rewrite label_grants_empty in Hempty.
    assert (∀ k, k ∉ (label_grants (audience_grants (ownership e))).1) as Hno.
    { intros k. rewrite label_audience. intros (g & ? & ? & _). by apply (Hempty g). }
    rewrite (bool_decide_eq_false_2 (p_subject p ∈ _)), (bool_decide_eq_false_2 ("*" ∈ _)) by apply Hno.
    cbn [orb andb]. rewrite andb_true_iff, is_owner_of_spec, orb_true_iff, !bool_decide_eq_true,
      elem_of_purpose_strings, purpose_strings_empty. split.
    + intros [? ?]. right. split; [|done]. intros g [? ?]. by apply (Hempty g).
    + intros [(g & q & [? ?] & _)|(_ & ?)]; [|done]. exfalso. by apply (Hempty g).
  - rewrite granted_by_label. rewrite label_grants_empty in Hempty. split; [by left|].
    intros [?|(Hnone & _)]; [done|]. exfalso. apply Hempty. intros g Hg Hr. by apply (Hnone g).
Qed.

(** What a label of the adapter lets a principal read. *)
Lemma access_label_allows w e p :
  Principal_allows p (access_label w e) = true ↔
  w = p_workspace p ∧ consented e ∧ use_retrieve (use_policy e) = Allow ∧
  (classification_level (classification (security e)) ≤ sensitivity_rank (p_clearance p))%N ∧
  (∃ scope, scope ∈ into_vec (Policy.scopes e) ∧ id_to_string (scope_id scope) ∈ p_scopes p) ∧
  audience_allowed e p.
Proof.
  rewrite access_label_eq. unfold Principal_allows.
  cbn [workspace consent retrievable sensitivity owners scopes purposes audience_purpose_grants audience].
  assert (sensitivity_rank (sensitivity_of (classification (security e))) = classification_level (classification (security e)))
    as -> by (by destruct (classification _)).
  case_bool_decide as Hw; [split; [done|by intros (-> & _)]|]. subst w. cbn [orb].
  case_bool_decide as Hcon; cbn [orb]; rewrite consent_of_granted in Hcon; [split; [done|tauto]|].
  case_bool_decide as Hret; cbn [negb orb]; [|split; [done|tauto]].
  destruct (N.ltb_spec (sensitivity_rank (p_clearance p)) (classification_level (classification (security e)))) as [Hlt|Hle].
  { split; [done|]. intros (_ & _ & _ & ? & _). lia. }
  rewrite andb_true_iff, some_scope_allowed. pose proof (audience_test e p). unfold is_owner_of in *. tauto.
Qed.

(** C25: a principal may read a core value that has a retrieval grant exactly when
    it is in the principal's workspace and one of its scopes, the consent and use
    policy of the value and the clearance of the principal permit, and one retrieval
    grant is at once for an audience the principal is in and for its purpose; the
    owners are in the owner's audience only. *)
Theorem core_access_exact w e p :
  (∃ g, retrieval e g) →
  Principal_allows p (access_label w e) = true ↔
  w = p_workspace p ∧ consented e ∧ use_retrieve (use_policy e) = Allow ∧
  (classification_level (classification (security e)) ≤ sensitivity_rank (p_clearance p))%N ∧
  (∃ scope, scope ∈ into_vec (Policy.scopes e) ∧ id_to_string (scope_id scope) ∈ p_scopes p) ∧
  granted e p.
Proof.
  intros [g Hg]. rewrite access_label_allows. unfold audience_allowed.
  split; intros (? & ? & ? & ? & ? & Ha); split_and!; try done; [|by left].
  destruct Ha as [?|(Hno & _)]; [done|]. by destruct (Hno g).
Qed.

(** A value without any retrieval grant can be read by its owners: the empty map of
    grants is taken for a label of the older form. *)
Theorem ungranted_value_readable_by_owner w e p :
  (∀ g, ¬ retrieval e g) → owned_by e p → allowed_purposes (ownership e) = ∅ → w = p_workspace p → consented e →
  use_retrieve (use_policy e) = Allow →
  (classification_level (classification (security e)) ≤ sensitivity_rank (p_clearance p))%N →
  (∃ scope, scope ∈ into_vec (Policy.scopes e) ∧ id_to_string (scope_id scope) ∈ p_scopes p) →
  Principal_allows p (access_label w e) = true.
Proof. intros. apply access_label_allows. unfold audience_allowed. by split_and!; auto. Qed.
End access.
