(* ===== verification/RefCore.v ===== *)
(** * The reference engine: core commits

    [commit_core] takes the lock four times.  An acknowledged commit is nevertheless
    one atomic step of the state it publishes on, and it updates the map from
    record identifiers to kinds and values that the next core commit reads. *)

From S2P Require Import Prelude.
From S2P Require Import Ordering.
From S2P Require Import Bytes.
From S2P Require Import Json.
From S2P Require Import CoreBase.
From S2P Require Import Semantic.
From S2P Require Import MemoryTypes.
From S2P Require Import Mutation.
From S2P Require Import RefModel.
From S2P Require Import RefEngine.
From S2P Require Import RefReads.
From S2P Require Import RefKeys.
From S2P Require Import RefInvariant.
From S2P Require Import RefRuns.
From S2P Require Import RefHistory.
From S2P Require Import RefRetry.
From S2P Require Import RefAdapter.

Section core.
Context `{!RefCodec} `{!RefCodecLaws} `{!AdapterCodec}.

(** ** One commit *)

Lemma run_app s ws ws' : run s (ws ++ ws') = run (run s ws) ws'.
Proof. unfold run. by rewrite foldl_app. Qed.

Lemma publication_head s draft key rd request event next receipt :
  publication s draft key rd request event next receipt → head next = (head s + 1)%N.
Proof. by destruct 1. Qed.

(** Writes that leave the head where it was change nothing. *)
Lemma run_same_head s ws : wf s → head (run s ws) = head s → run s ws = s.
Proof.
  revert s; induction ws as [|w ws IH]; intros s Hwf Hh; [done|].
  change (run s (w :: ws)) with (run (run_write s w).1 ws) in *.
  destruct (run_write_cases s w) as [Heq|(receipt & Hp)]; [rewrite Heq in *; by apply IH|]. exfalso.
  pose proof (run_evolves _ ws (run_write_wf s w Hwf)) as [_ Hle].
  apply prepare_inv in Hp as (? & ? & ? & ? & ? & ? & _ & _ & _ & _ & _ & Hpub%publication_head).
  lia.
Qed.

Lemma operation_digest_value m rd :
  operation_digest "semantic-core" (m : SemanticMutationSet) = Ok rd →
  ∃ v, to_value m = Ok v ∧ operation_digest "semantic-core" v = Ok rd.
Proof.
  unfold operation_digest. intros (v & Hv & Hd)%result_bind_Ok. apply map_err_Ok in Hv. by exists v.
Qed.

(** A canonical commit is the write [WCore] of the request's JSON value. *)
Lemma canonical_commit_run s t (m : SemanticMutationSet) v :
  to_value m = Ok v → commit_with_canonical_request s t m = run_write s (WCore t v).
Proof.
  intros Hv. simpl. unfold commit_with_canonical_request, operation_digest, to_value_or. rewrite Hv. done.
Qed.

Lemma write_refused s w next e : run_write s w = (next, Err e) → failpoint_of w = NoFailpoint → next = s.
Proof.
  rewrite run_write_eq. unfold publish_prepared. intros Hr Hf. rewrite Hf in Hr.
  destruct (prepare s w) as [[r|[n r]]|e']; by inversion Hr.
Qed.

Lemma core_transaction_Ok s1 s2 m key t :
  core_transaction s1 s2 m key = Ok t →
  base_seq t = head s1 ∧ st_idempotency_key t = key ∧
  ∃ existing records, existing_records s2 = Ok existing ∧ mutation_records m existing = Ok records ∧
    mutations t = (λ record, Put record None) <$> records.
Proof.
  unfold core_transaction. destruct (_ =? _)%N; [|done]. destruct (is_empty _); [|done]. cbn [negb].
  intros Ht. res_inv. split; [done|]. split; [done|]. eauto.
Qed.

(** An acknowledged canonical write replays a receipt, or publishes on the base
    of its transaction. *)
Lemma core_write_acknowledged s t v rd next receipt :
  run_write s (WCore t v) = (next, Ok receipt) → operation_digest "semantic-core" v = Ok rd →
  (replay_or_conflict s (key_digest (st_idempotency_key t)) rd = Ok (Some receipt) ∧ next = s) ∨
  (replay_or_conflict s (key_digest (st_idempotency_key t)) rd = Ok None ∧ base_seq t = head s ∧
   ∃ draft affected request,
     try_fold (apply_mutation (head s + 1)) (s, ∅) (mutations t) = Ok (draft, affected) ∧
     (∃ w : Json.JsonValue, make_content_ref "journal-semantic-core" rd (head s + 1) w = Ok request) ∧
     publication s draft (key_digest (st_idempotency_key t)) rd request
       (SemanticPublished rd request.1 affected) next receipt).
Proof.
  intros Hrun Hrd. rewrite run_write_eq in Hrun. unfold publish_prepared in Hrun. cbn [prepare failpoint_of] in Hrun.
  unfold prepare_core in Hrun. destruct (is_empty _); [done|]. rewrite Hrd in Hrun. cbn [result_bind] in Hrun.
  destruct (replay_or_conflict _ _ rd) as [[r|]|e] eqn:Hreplay; cbn [result_bind] in Hrun;
    [left; by injection Hrun as <- <-| |done].
  right. split; [done|].
  destruct (prepare_mutations _ _ _ _ _ _ _) as [prepared|e] eqn:Hp; [|done].
  apply prepare_mutations_inv in Hp as (draft & affected & w & request & n & r & -> & Hbase & _ & Hd & _ & Hreq & Hpub).
  injection Hrun as <- <-. eauto 10.
Qed.

(** ** Atomicity *)

(** C24: With other writers between the four critical sections, a
    commit of a core mutation set leads to a state that writes lead to; a failed one
    changes nothing; and an acknowledged one has the effect and the receipt of a
    commit that holds the lock throughout, on the state it publishes on. *)
Theorem core_commits_are_atomic s ws1 ws2 ws3 m key :
  reachable s →
  let s1 := run s ws1 in let s2 := run s1 ws2 in let guard := run s2 ws3 in
  let '(next, outcome) := commit_core_at s s1 s2 guard m key in
  (∃ ws, next = run guard ws) ∧
  match outcome with
  | Err _ => next = guard
  | Ok _ => commit_core guard m key = (next, outcome)
  end.
Proof.
  intros Hreach. cbn zeta. pose proof (reachable_wf _ Hreach) as Hwf.
  set (s1 := run s ws1). set (s2 := run s1 ws2). set (guard := run s2 ws3).
  assert (wf s1) as Hwf1 by (by apply run_wf). assert (wf s2) as Hwf2 by (by apply run_wf).
  assert (guard = run s (ws1 ++ ws2 ++ ws3)) as Hguard by (unfold guard, s2, s1; by rewrite !run_app).
  unfold commit_core, commit_core_at.
  destruct (core_checked _) as [[]|e]; cbn [result_bind]; [|split; [by exists []|done]].
  destruct (trim_is_empty key) eqn:Hkey; [split; [by exists []|done]|].
  destruct (operation_digest "semantic-core" m) as [rd|e] eqn:Hrd; cbn [result_bind]; [|split; [by exists []|done]].
  destruct (replay_or_conflict s (key_digest key) rd) as [[receipt|]|e] eqn:Hreplay; [| |split; [by exists []|done]].
  { split; [by exists []|]. rewrite Hguard. apply replay_or_conflict_Ok in Hreplay.
    destruct (idempotency s !! key_digest key) as [ir|] eqn:Hir; [|done]. destruct Hreplay as [Hdig [= ->]].
    erewrite (proj2 (replay_or_conflict_Ok _ _ _ (Some (as_replay (ir_receipt ir))))); [done|].
    rewrite (run_keeps_receipt _ _ _ _ Hir). done. }
  destruct (core_transaction s1 s2 m key) as [t|e] eqn:Ht; [|split; [by exists []|done]].
  apply operation_digest_value in Hrd as Hv. destruct Hv as (v & Hv & Hrdv).
  rewrite (canonical_commit_run _ _ _ _ Hv). destruct (run_write guard (WCore t v)) as [next outcome] eqn:Hrun.
  split; [exists [WCore t v]; unfold run; cbn [foldl]; by rewrite Hrun|].
  destruct outcome as [receipt|e]; [|by eapply write_refused].
  destruct (core_transaction_Ok _ _ _ _ _ Ht) as (Hbase & Hk & _).
  destruct (core_write_acknowledged _ _ _ _ _ _ Hrun Hrdv) as [[Hr ->]|(Hr & Hhead & _)]; rewrite Hk in Hr; rewrite Hr; [done|].
  assert (guard = s1) as Hsame.
  { unfold guard, s2 in *. rewrite <- run_app in *. apply run_same_head; [done|congruence]. }
  assert (s2 = s1) as Hsame2.
  { apply run_same_head; [done|]. pose proof (run_evolves s1 ws2 Hwf1) as [_ Hle1].
    pose proof (run_evolves s2 ws3 Hwf2) as [_ Hle2]. fold s2 in Hle1. fold guard in Hle2. rewrite Hsame in Hle2.
    fold s2. lia. }
  rewrite Hsame2 in Ht. rewrite Hsame, Ht. rewrite (canonical_commit_run _ _ _ _ Hv), <- Hsame. done.
Qed.

(** ** What the next commit reads *)

(** The kind and the value of the revision of a record at a commit. *)
Definition live_at (s : State) (k : N) (id : string) : option (RecordKind * Json.JsonValue) :=
  if has_tombstone s id then None
  else
  r ← current s id k;
  match content_for_revision s r with
  | Ok c => Some (m_kind (sr_record r), rc_value c)
  | Err _ => None
  end.

Lemma content_live s id r k :
  wf s → has_tombstone s id = false → current s id k = Some r → ∃ c, content_for_revision s r = Ok c.
Proof.
  intros Hwf Ht Hr. destruct (materialize_live _ _ _ _ Hwf Ht Hr) as (c & Hm & _).
  unfold materialize_revision in Hm. apply result_bind_Ok in Hm as (c' & ? & _). by exists c'.
Qed.

Lemma add_existing_fold s entries ex :
  wf s → (∀ id h, (id, h) ∈ entries → histories s !! id = Some h) →
  ∃ ex', try_fold (add_existing s) ex entries = Ok ex' ∧
    ∀ id, ex' !! id = if bool_decide (id ∈ entries.*1)
                      then match live_at s (head s) id with Some x => Some x | None => ex !! id end
                      else ex !! id.
Proof.
  intros Hwf. revert ex; induction entries as [|[id h] entries IH]; intros ex Hin; [by exists ex|].
  assert (current s id (head s) = revision_at h (head s)) as Hcur.
  { unfold current. rewrite (Hin id h) by (by left). done. }
  assert (∃ ex1, add_existing s ex (id, h) = Ok ex1 ∧
    ex1 = match live_at s (head s) id with Some x => <[id := x]> ex | None => ex end) as (ex1 & Hex1 & Heq).
  { unfold add_existing, live_at. destruct (has_tombstone s id) eqn:Ht; [by eexists|]. rewrite Hcur.
    destruct (revision_at h (head s)) as [r|] eqn:Hr; cbn [mbind option_bind]; [|by eexists].
    destruct (content_live s id r (head s)) as (c & ->); [done|done|by rewrite Hcur|]. by eexists. }
  destruct (IH ex1) as (ex' & Hfold & Hlook); [intros; apply Hin; by right|].
  exists ex'. cbn [try_fold]. rewrite Hex1. split; [done|]. intros id'. rewrite Hlook. subst ex1. cbn [fmap list_fmap fst].
  destruct (decide (id' = id)) as [->|Hne].
  - rewrite (bool_decide_eq_true_2 (id ∈ id :: _)) by (by left).
    destruct (live_at s (head s) id) as [x|], (bool_decide _); try done. apply lookup_insert_eq.
  - assert (bool_decide (id' ∈ id :: entries.*1) = bool_decide (id' ∈ entries.*1)) as -> by (apply bool_decide_ext; set_solver).
    destruct (live_at s (head s) id) as [x|]; [|done].
    by rewrite lookup_insert_ne.
Qed.

Lemma existing_records_live s :
  wf s → ∃ ex, existing_records s = Ok ex ∧ ∀ id, ex !! id = live_at s (head s) id.
Proof.
  intros Hwf. destruct (add_existing_fold s (bt_entries (histories s)) ∅ Hwf) as (ex & Hex & Hlook).
  { intros id h. by rewrite bt_entries_elem. }
  exists ex. split; [done|]. intros id. rewrite Hlook, lookup_empty. case_bool_decide as Hin; [by destruct (live_at _ _ _)|].
  unfold live_at, current. destruct (has_tombstone s id); [done|].
  destruct (histories s !! id) as [h|] eqn:Hh; [|done]. exfalso. apply Hin.
  apply list_elem_of_fmap. exists (id, h). by rewrite bt_entries_elem.
Qed.

Lemma content_for_revision_stored s r v c :
  stored s (sr_content r) v → from_value v = Ok c → content_for_revision s r = Ok c.
Proof.
  intros [Hv Hd] Hc. unfold content_for_revision. rewrite Hv. cbn [ok_or result_bind]. rewrite Hd. cbn [result_bind].
  rewrite bool_decide_eq_false_2 by tauto. by rewrite Hc.
Qed.

(** The content of a revision does not depend on what else is stored. *)
Lemma content_for_revision_ext s s' r :
  contents s' !! content_id (sr_content r) = contents s !! content_id (sr_content r) →
  content_for_revision s' r = content_for_revision s r.
Proof. unfold content_for_revision. by intros ->. Qed.

Lemma live_store c s record revision content id :
  primary_ok c s → has_tombstone s (lr_id record) = false → validate_record s record c = Ok tt →
  make_content_ref "record" (lr_id record) c (record_content record) = Ok content →
  live_at (store_revision s record revision c content) c id =
  if bool_decide (lr_id record = id) then Some (lr_kind record, lr_value record) else live_at s c id.
Proof.
  intros Hok Ht (_ & _ & _ & Hvec)%validate_record_inv (Hval & Hdig & Hkey & Hfree)%make_content_ref_inv.
  unfold live_at. change (has_tombstone (store_revision s record revision c content) id) with (has_tombstone s id).
  unfold current. cbn [histories store_revision set_histories set_indexes insert_content set_contents].
  case_bool_decide as Heq.
  - subst id. rewrite Ht, lookup_insert_eq. cbn [mbind option_bind].
    pose proof (revision_at_extend_new c (default [] (histories s !! lr_id record))
      (MkStoredRevision (lr_id record) revision c None (record_metadata record) content.1) c eq_refl eq_refl (N.le_refl c)) as Hnew.
    unfold extend in Hnew. rewrite Hnew. cbn [mbind option_bind].
    rewrite (content_for_revision_stored _ _ content.2 (record_content record)); [done| |by apply content_roundtrip].
    split; [|done]. cbn. by rewrite lookup_insert_eq.
  - rewrite lookup_insert_ne by done. destruct (has_tombstone s id); [done|].
    destruct (histories s !! id) as [h|] eqn:Hh; [|done]. cbn [mbind option_bind].
    destruct (revision_at h c) as [r|] eqn:Hr; [|done]. cbn [mbind option_bind].
    rewrite (content_for_revision_ext s); [done|].
    destruct (revision_at_from _ _ _ _ (primary_histories _ _ Hok _ _ Hh) Hr) as [_ Hin].
    destruct (primary_revisions _ _ Hok _ _ _ Hh Hin) as [Hk _ _].
    apply (lookup_insert_other_owner "record" id (transaction_from r) (sr_content r) "record" (lr_id record) c content);
      [apply record_colon_free|apply record_colon_free|done|done|right; congruence].
Qed.

(** ** Refinement *)

(** The abstract commit: every record replaces what its identifier maps to. *)
Definition write_all (ex : Existing) (records : list LogicalRecord) : Existing :=
  foldl (λ ex record, <[lr_id record := (lr_kind record, lr_value record)]> ex) ex records.

Lemma live_at_mono n k s id : primary_ok n s → (n ≤ k)%N → live_at s k id = live_at s n id.
Proof.
  intros Hok Hk. unfold live_at, current. destruct (has_tombstone s id); [done|].
  destruct (histories s !! id) as [h|] eqn:Hh; [|done]. cbn [mbind option_bind].
  pose proof (primary_histories _ _ Hok _ _ Hh) as Hhist.
  by rewrite (revision_at_last _ _ _ Hhist Hk), (revision_at_last _ _ _ Hhist (N.le_refl n)).
Qed.

Lemma puts_live c d records d' ex :
  (1 ≤ c)%N → primary_ok c d.1 → (∀ id, ex !! id = live_at d.1 c id) →
  try_fold (apply_mutation c) d ((λ record, Put record None) <$> records) = Ok d' →
  primary_ok c d'.1 ∧ ∀ id, write_all ex records !! id = live_at d'.1 c id.
Proof.
  intros Hc. revert d ex; induction records as [|record records IH]; intros d ex Hok Hex.
  { cbn. by intros [= <-]. }
  cbn [fmap list_fmap try_fold apply_mutation]. intros (d1 & Hput & Hfold)%result_bind_Ok.
  pose proof (draft_step_ok _ _ _ (put_record_step _ _ _ _ _ Hput) Hc Hok) as Hok1.
  apply put_record_inv in Hput as (revision & content & -> & Hcontent & Ht & Hvalid & _ & _).
  apply (IH _ (<[lr_id record := (lr_kind record, lr_value record)]> ex) Hok1); [|done].
  intros id. cbn [fst]. rewrite live_store by done. case_bool_decide as Heq.
  - subst id. apply lookup_insert_eq.
  - rewrite lookup_insert_ne by done. apply Hex.
Qed.

Lemma put_record_kind d record expected c d' r :
  put_record d record expected c = Ok d' → current d.1 (lr_id record) (head d.1) = Some r →
  lr_kind record = m_kind (sr_record r).
Proof.
  destruct d as [s affected]. unfold put_record. cbn [fst]. intros Hput Hr. rewrite Hr in Hput.
  apply result_bind_Ok in Hput as ([] & _ & Hput). destruct (_ || _); [done|].
  apply result_bind_Ok in Hput as ([] & _ & Hput). case_bool_decide; [done|congruence].
Qed.

(** A record keeps the kind it had before the commit. *)
Lemma puts_kind n c d records d' record r :
  (n < c)%N → primary_ok c d.1 → head d.1 = n →
  try_fold (apply_mutation c) d ((λ record, Put record None) <$> records) = Ok d' →
  record ∈ records → current d.1 (lr_id record) n = Some r → lr_kind record = m_kind (sr_record r).
Proof.
  intros Hn. revert d r; induction records as [|record0 records IH]; intros d r Hok Hhead; [by intros _ ?%elem_of_nil|].
  cbn [fmap list_fmap try_fold apply_mutation]. intros (d1 & Hput & Hfold)%result_bind_Ok Hin Hr.
  apply elem_of_cons in Hin as [->|Hin]; [eapply put_record_kind; [done|by rewrite Hhead]|].
  apply put_record_step in Hput. pose proof (rtc_once _ _ Hput) as Hsteps.
  pose proof (draft_steps_evolve n c _ _ Hsteps Hn Hok) as He.
  pose proof (evolves_current _ _ _ He (lr_id record) n (N.le_refl n)) as Hstrip. rewrite Hr in Hstrip.
  destruct (current d1.1 (lr_id record) n) as [r1|] eqn:Hr1; [|done]. injection Hstrip as _ _ _ Hrec _. rewrite <- Hrec.
  apply (IH d1 r1); [eapply draft_step_ok; [done|lia|done]| |done|done|done].
  by apply draft_steps_frame in Hsteps as [-> _].
Qed.

(** Publication keeps what the draft holds. *)
Lemma publication_live s draft key rd request event next receipt id class owner :
  primary_ok (head s + 1) draft → class ∈ journal_classes → keyed class owner (head s + 1) request.1 →
  publication s draft key rd request event next receipt →
  live_at next (head s + 1) id = live_at draft (head s + 1) id.
Proof.
  intros Hok Hclass Hkey. destruct 1 as [record_digest ix candidates].
  unfold live_at. change (has_tombstone next id) with (has_tombstone draft id). unfold current.
  change (histories next) with (histories draft). destruct (has_tombstone draft id); [done|].
  destruct (histories draft !! id) as [h|] eqn:Hh; [|done]. cbn [mbind option_bind].
  destruct (revision_at h (head s + 1)) as [r|] eqn:Hr; [|done]. cbn [mbind option_bind].
  rewrite (content_for_revision_ext draft); [done|].
  destruct (revision_at_from _ _ _ _ (primary_histories _ _ Hok _ _ Hh) Hr) as [_ Hin].
  destruct (primary_revisions _ _ Hok _ _ _ Hh Hin) as [Hk _ _].
  apply (lookup_insert_other_owner "record" id (transaction_from r) (sr_content r) class owner (head s + 1) request);
    [apply record_colon_free|by apply journal_class_colon_free|done|done|].
  left. intros <-. apply (primary_class_not_journal "record"); [by left|done].
Qed.

(** A published core commit: what it read, the records it made, and the map that
    the next commit reads. *)
Lemma core_commit_refines s m key s' receipt :
  reachable s → commit_core s m key = (s', Ok receipt) → cr_replayed receipt = false →
  ∃ ex records, existing_records s = Ok ex ∧ mutation_records m ex = Ok records ∧
    existing_records s' = Ok (write_all ex records) ∧ head s' = (head s + 1)%N ∧
    ∀ record kind value, record ∈ records → ex !! lr_id record = Some (kind, value) → lr_kind record = kind.
Proof.
  intros Hreach Hcommit Hfresh. pose proof (reachable_wf _ Hreach) as Hwf.
  unfold commit_core, commit_core_at in Hcommit.
  destruct (core_checked _) as [[]|e]; cbn [result_bind] in Hcommit; [|done].
  destruct (trim_is_empty key); [done|].
  destruct (operation_digest "semantic-core" m) as [rd|e] eqn:Hrd; cbn [result_bind] in Hcommit; [|done].
  assert (∀ r, replay_or_conflict s (key_digest key) rd = Ok (Some r) → cr_replayed r = true) as Hrep.
  { intros r. rewrite replay_or_conflict_Ok. destruct (idempotency s !! key_digest key); [|done]. by intros [_ [= ->]]. }
  destruct (replay_or_conflict s (key_digest key) rd) as [[r|]|e] eqn:Hreplay; [| |done].
  { injection Hcommit as _ ->. by rewrite (Hrep _ eq_refl) in Hfresh. }
  destruct (core_transaction s s m key) as [t|e] eqn:Ht; [|done].
  apply operation_digest_value in Hrd as Hv. destruct Hv as (v & Hv & Hrdv).
  rewrite (canonical_commit_run _ _ _ _ Hv) in Hcommit.
  assert (reachable s') as Hreach'.
  { pose proof (reachable_run s [WCore t v] Hreach) as Hr. unfold run in Hr. cbn [foldl] in Hr. by rewrite Hcommit in Hr. }
  destruct (core_transaction_Ok _ _ _ _ _ Ht) as (Hbase & Hk & ex & records & Hex & Hrec & Hmuts).
  destruct (core_write_acknowledged _ _ _ _ _ _ Hcommit Hrdv) as [[Hr _]|(_ & _ & draft & affected & request & Hfold & Hreq & Hpub)].
  { rewrite Hk, Hreplay in Hr. done. }
  exists ex, records. split; [done|]. split; [done|].
  destruct (existing_records_live _ Hwf) as (ex0 & Hex0 & Hlive). rewrite Hex0 in Hex. injection Hex as ->.
  assert (primary_ok (head s + 1) s) as Hok1 by (apply primary_ok_mono with (head s); [apply wf_primary, Hwf|lia]).
  rewrite Hmuts in Hfold. destruct (puts_live (head s + 1) (s, ∅) records (draft, affected) ex) as [Hokd Hlived]; [lia|done| |done|].
  { intros id. rewrite Hlive. cbn [fst]. symmetry. apply live_at_mono; [apply wf_primary, Hwf|lia]. }
  pose proof (publication_head _ _ _ _ _ _ _ _ Hpub) as Hhead.
  destruct (existing_records_live s' (reachable_wf _ Hreach')) as (ex' & Hex' & Hlive').
  split; [|split; [done|]].
  - rewrite Hex'. f_equal. apply map_eq. intros id. rewrite Hlive', Hhead, Hlived.
    destruct Hreq as (w & (_ & _ & Hkey & Hfree)%make_content_ref_inv).
    eapply (publication_live _ _ _ _ _ _ _ _ id "journal-semantic-core" rd); [done|by right; right; left|done|done].
  - intros record kind value Hin. rewrite Hlive. unfold live_at. destruct (has_tombstone s _); [done|].
    destruct (current s (lr_id record) (head s)) as [r|] eqn:Hr; [|done]. cbn [mbind option_bind].
    destruct (content_for_revision s r); [|done]. intros [= <- _].
    by apply (puts_kind (head s) (head s + 1) (s, ∅) records (draft, affected) record r); [lia|..].
Qed.
End core.
