(* ===== verification/RefCoreIdentity.v ===== *)
(** * The reference engine: stable identities

    In a database written through the core entry points, a commit gives a live node
    the identity that its mutation set creates for it, and otherwise the identity it
    had. *)

From S2P Require Import Prelude.
From S2P Require Import Ordering.
From S2P Require Import Bytes.
From S2P Require Import Json.
From S2P Require Import CoreBase.
From S2P Require Import Provenance.
From S2P Require Import Evidence.
From S2P Require Import Semantic.
From S2P Require Import MemoryTypes.
From S2P Require Import Mutation.
From S2P Require Import RefModel.
From S2P Require Import RefEngine.
From S2P Require Import RefReads.
From S2P Require Import RefKeys.
From S2P Require Import RefInvariant.
From S2P Require Import RefRuns.
From S2P Require Import RefHistory.
From S2P Require Import RefAdapter.
From S2P Require Import RefCore.

Section identity.
Context `{!RefCodec} `{!RefCodecLaws} `{!AdapterCodec}.

(** ** Databases written through the core entry points *)

Inductive core_reachable : State → Prop :=
  | core_new id s : ContextDb_new id = Ok s → core_reachable s
  | core_committed s m key : core_reachable s → core_reachable (commit_core s m key).1
  | core_observed s o key : core_reachable s → core_reachable (observe_core s o key).1.

(** A core commit changes nothing, or it is an acknowledged write. *)
Lemma commit_core_cases s m key s' outcome :
  commit_core s m key = (s', outcome) →
  s' = s ∨ ∃ w receipt, run_write s w = (s', Ok receipt) ∧ outcome = Ok receipt ∧ cr_replayed receipt = false.
Proof.
  unfold commit_core, commit_core_at. intros Hcommit.
  destruct (core_checked _) as [[]|e]; cbn [result_bind] in Hcommit; [|left; by injection Hcommit].
  destruct (trim_is_empty key); [left; by injection Hcommit|].
  destruct (operation_digest "semantic-core" m) as [rd|e] eqn:Hrd; cbn [result_bind] in Hcommit; [|left; by injection Hcommit].
  destruct (replay_or_conflict s (key_digest key) rd) as [[r|]|e]; [left; by injection Hcommit| |left; by injection Hcommit].
  destruct (core_transaction s s m key) as [t|e]; [|left; by injection Hcommit].
  apply operation_digest_value in Hrd as (v & Hv & Hrdv). rewrite (canonical_commit_run _ _ _ _ Hv) in Hcommit.
  destruct outcome as [receipt|e]; [|left; by eapply write_refused].
  destruct (core_write_acknowledged _ _ _ _ _ _ Hcommit Hrdv) as [[_ ->]|(_ & _ & ? & ? & ? & _ & _ & Hpub)]; [by left|].
  right. exists (WCore t v), receipt. split; [done|]. split; [done|]. by inversion Hpub.
Qed.

Lemma run_one s w : (run_write s w).1 = run s [w].
Proof. done. Qed.

Lemma core_reachable_reachable s : core_reachable s → reachable s.
Proof.
  induction 1 as [id s Hnew|s m key _ IH|s o key _ IH].
  - by exists id, s, [].
  - destruct (commit_core s m key) as [s' outcome] eqn:Hc. cbn [fst].
    destruct (commit_core_cases _ _ _ _ _ Hc) as [->|(w & r & Hrun & _)]; [done|].
    pose proof (reachable_run s [w] IH) as Hr. rewrite <- run_one, Hrun in Hr. done.
  - unfold observe_core. destruct (observation o key) as [input|e]; [|done].
    exact (reachable_run s [WObserve input NoFailpoint] IH).
Qed.

(** ** The values of nodes *)

(** Every node carries its identity, under its own identifier. *)
Definition identities_ok (ex : Existing) : Prop :=
  ∀ id value, ex !! id = Some (Node, value) →
    ∃ n r, value = pair_value n (r : NodeRevision) ∧ id_to_string (node_id n) = id.

Lemma write_all_lookup ex records id :
  (∃ record, record ∈ records ∧ lr_id record = id ∧
     write_all ex records !! id = Some (lr_kind record, lr_value record)) ∨
  (∀ record, record ∈ records → lr_id record ≠ id) ∧ write_all ex records !! id = ex !! id.
Proof.
  unfold write_all. induction records as [|record records IH] using rev_ind.
  { right. split; [by intros ? ?%elem_of_nil|done]. }
  rewrite foldl_app. cbn [foldl]. destruct (decide (lr_id record = id)) as [<-|Hne].
  - left. exists record. split; [apply elem_of_app; right; by left|]. split; [done|apply lookup_insert_eq].
  - rewrite lookup_insert_ne by done. destruct IH as [(r & Hin & ? & ?)|[Hno ->]].
    + left. exists r. split; [|done]. apply elem_of_app. by left.
    + right. split; [|done]. intros r [Hin|Hin%list_elem_of_singleton]%elem_of_app; [by apply Hno|by subst].
Qed.

(** An element of a mapped list comes from an element of the list, and back. *)
Lemma try_map_from {E A B} (f : A → result E B) xs ys y :
  try_map f xs = Ok ys → y ∈ ys → ∃ x, x ∈ xs ∧ f x = Ok y.
Proof.
  rewrite try_map_Ok. intros Hf [i Hi]%list_elem_of_lookup.
  destruct (Forall2_lookup_r _ _ _ _ _ Hf Hi) as (x & Hx & ?). exists x. split; [by eapply list_elem_of_lookup_2|done].
Qed.
Lemma try_map_to {E A B} (f : A → result E B) xs ys x :
  try_map f xs = Ok ys → x ∈ xs → ∃ y, y ∈ ys ∧ f x = Ok y.
Proof.
  rewrite try_map_Ok. intros Hf [i Hi]%list_elem_of_lookup.
  destruct (Forall2_lookup_l _ _ _ _ _ Hf Hi) as (y & Hy & ?). exists y. split; [by eapply list_elem_of_lookup_2|done].
Qed.

(** What each loop of [mutation_records] writes. *)
Lemma node_write_Ok m ex r record :
  node_write m ex r = Ok record ↔
  ∃ n, identity_of (node_creates m) node_id ex (nr_node_id r) Node = Ok n ∧ record = node_record n r (pair_value n r).
Proof. unfold node_write. rewrite result_bind_Ok. split; intros (n & ? & ?); exists n; naive_solver. Qed.

Lemma other_write_kinds m ex :
  (∀ r record, claim_write m ex r = Ok record → lr_kind record = Claim) ∧
  (∀ r record, edge_write m ex r = Ok record → lr_kind record = Edge) ∧
  (∀ r record, conflict_write m ex r = Ok record → lr_kind record = Conflict) ∧
  (∀ t record, typed_memory t = Ok record → lr_kind record = SemanticObject) ∧
  (∀ c record, candidate_record c = Ok record → lr_kind record = Candidate) ∧
  (∀ e record, episode_record e = Ok record → lr_kind record = SemanticObject).
Proof.
  split_and!; intros x record (y & _ & Hx)%result_bind_Ok; try (injection Hx as <-; done).
  destruct x; injection Hx as <-; done.
Qed.

(** The parts of [mutation_records]. *)
Lemma mutation_records_parts m ex records :
  mutation_records m ex = Ok records →
  SemanticMutationSet_validate m = Ok tt ∧
  ∃ nodes claims edges conflicts typed candidates episodes,
    try_map (node_write m ex) (node_writes m) = Ok nodes ∧ try_map (claim_write m ex) (claim_writes m) = Ok claims ∧
    try_map (edge_write m ex) (edge_writes m) = Ok edges ∧
    try_map (conflict_write m ex) (conflict_writes m) = Ok conflicts ∧
    try_map typed_memory (typed_memory_writes m) = Ok typed ∧
    try_map candidate_record (candidate_writes m) = Ok candidates ∧
    try_map episode_record (episode_view_writes m) = Ok episodes ∧
    records = nodes ++ claims ++ edges ++ conflicts ++ typed ++ candidates ++ episodes.
Proof.
  unfold mutation_records. intros ([] & Hvalid%map_err_Ok & Hm)%result_bind_Ok. split; [done|]. res_inv. eauto 20.
Qed.

(** The records of a mutation set that are nodes. *)
Lemma mutation_records_nodes m ex records :
  mutation_records m ex = Ok records →
  (∀ record, record ∈ records → lr_kind record = Node →
    ∃ r n, r ∈ node_writes m ∧ identity_of (node_creates m) node_id ex (nr_node_id r) Node = Ok n ∧
           record = node_record n r (pair_value n r)) ∧
  (∀ r, r ∈ node_writes m →
    ∃ n, identity_of (node_creates m) node_id ex (nr_node_id r) Node = Ok n ∧
         node_record n r (pair_value n r) ∈ records).
Proof.
  intros (_ & nodes & claims & edges & conflicts & typed & candidates & episodes &
    Hn & Hc & He & Hcf & Ht & Hcd & Hep & ->)%mutation_records_parts.
  destruct (other_write_kinds m ex) as (Kc & Ke & Kcf & Kt & Kcd & Kep). split.
  - intros record Hin Hkind. rewrite !elem_of_app in Hin.
    destruct Hin as [Hin|Hin].
    { destruct (try_map_from _ _ _ _ Hn Hin) as (r & Hr & (n & ? & ?)%node_write_Ok). by exists r, n. }
    exfalso. destruct Hin as [Hin|[Hin|[Hin|[Hin|[Hin|Hin]]]]];
      (eapply try_map_from in Hin as (x & _ & Hx); [|eassumption]);
      first [apply Kc in Hx | apply Ke in Hx | apply Kcf in Hx | apply Kt in Hx | apply Kcd in Hx | apply Kep in Hx];
      congruence.
  - intros r Hr. destruct (try_map_to _ _ _ _ Hn Hr) as (record & Hin & (n & Hid & ->)%node_write_Ok).
    exists n. split; [done|]. apply elem_of_app. by left.
Qed.

(** ** The invariant *)

Lemma write_all_identities m ex records :
  mutation_records m ex = Ok records → identities_ok ex → identities_ok (write_all ex records).
Proof.
  intros [Hnodes _]%mutation_records_nodes Hok id value. destruct (write_all_lookup ex records id) as [(record & Hin & Hid & ->)|[_ ->]];
    [|apply Hok]. intros [= Hkind <-]. destruct (Hnodes _ Hin Hkind) as (r & n & _ & _ & ->). by exists n, r.
Qed.

(** An observation leaves the records as they were. *)
Lemma observe_core_live s o key id :
  reachable s → live_at (observe_core s o key).1 (head (observe_core s o key).1) id = live_at s (head s) id.
Proof.
  intros Hwf%reachable_wf. unfold observe_core. destruct (observation o key) as [input|e]; [|done].
  change (observe s input) with (run_write s (WObserve input NoFailpoint)).
  destruct (run_write_cases s (WObserve input NoFailpoint)) as [->|(receipt & Hp)]; [done|].
  apply prepare_observation_inv in Hp as (rd & content & request & _ & _ & Ha & Hobs & Hh & Ht & Hcontent & (v & Hreq) & Hpub).
  pose proof (observed_ok s input content Hwf Ha Hobs Hh Ht Hcontent) as Hok.
  apply make_content_ref_inv in Hreq as (_ & _ & Hkey & Hfree). rewrite (publication_head _ _ _ _ _ _ _ _ Hpub).
  rewrite (publication_live _ _ _ _ _ _ _ _ id "journal-observation" (oi_observation_id input) Hok) by (done || by left).
  transitivity (live_at s (head s + 1) id); [|apply live_at_mono; [apply wf_primary, Hwf|lia]].
  apply make_content_ref_inv in Hcontent as (_ & _ & Hkey' & Hfree').
  unfold live_at. change (has_tombstone (observed s input content) id) with (has_tombstone s id). unfold current.
  change (histories (observed s input content)) with (histories s).
  destruct (has_tombstone s id); [done|]. destruct (histories s !! id) as [h|] eqn:Hh0; [|done]. cbn [mbind option_bind].
  destruct (revision_at h (head s + 1)) as [r|] eqn:Hr; [|done]. cbn [mbind option_bind].
  rewrite (content_for_revision_ext s); [done|].
  destruct (revision_at_from _ _ _ _ (primary_histories _ _ (wf_primary _ Hwf) _ _ Hh0) Hr) as [_ Hin].
  destruct (primary_revisions _ _ (wf_primary _ Hwf) _ _ _ Hh0 Hin) as [Hk _ _].
  apply (lookup_insert_other_owner "record" id (transaction_from r) (sr_content r) "observation" (oi_observation_id input) (head s + 1) content);
    [apply record_colon_free|apply observation_colon_free|done|done|by left].
Qed.

Lemma core_identities s : core_reachable s → ∃ ex, existing_records s = Ok ex ∧ identities_ok ex.
Proof.
  induction 1 as [id s Hnew|s m key Hr IH|s o key Hr IH].
  - exists ∅. split; [|by intros id' v; rewrite lookup_empty].
    unfold ContextDb_new in Hnew. destruct (trim_is_empty id); [done|]. by injection Hnew as <-.
  - destruct (commit_core s m key) as [s' outcome] eqn:Hc. cbn [fst].
    destruct (commit_core_cases _ _ _ _ _ Hc) as [->|(w & receipt & _ & -> & Hfresh)]; [done|].
    destruct (core_commit_refines _ _ _ _ _ (core_reachable_reachable _ Hr) Hc Hfresh) as (ex & records & Hex & Hrec & Hex' & _).
    destruct IH as (ex0 & Hex0 & Hok). rewrite Hex0 in Hex. injection Hex as ->.
    eexists. split; [exact Hex'|]. by eapply write_all_identities.
  - destruct IH as (ex & Hex & Hok). exists ex. split; [|done].
    pose proof (core_reachable_reachable _ Hr) as Hreach.
    destruct (existing_records_live s (reachable_wf _ Hreach)) as (ex0 & Hex0 & Hlive).
    rewrite Hex0 in Hex. injection Hex as ->.
    pose proof (core_reachable_reachable _ (core_observed s o key Hr)) as Hreach'.
    destruct (existing_records_live _ (reachable_wf _ Hreach')) as (ex' & -> & Hlive').
    f_equal. apply map_eq. intros id. rewrite Hlive', Hlive. by apply observe_core_live.
Qed.

(** ** Identities after a commit *)

Lemma existing_identity_Node ex (id : NodeId) (n : Semantic.Node) :
  existing_identity ex id Node "identity" = Ok n →
  ∃ value v, ex !! id_to_string id = Some (Node, value) ∧ value_get "identity" value = Some v ∧ from_value v = Ok n.
Proof.
  unfold existing_identity. intros ([kind value] & Hl%ok_or_Ok & Hk)%result_bind_Ok. cbn [fst snd] in Hk.
  case_bool_decide; [done|]. subst kind. apply result_bind_Ok in Hk as (v & Hv%ok_or_Ok & Hn%map_err_Ok). eauto.
Qed.

(** A mutation set revises the nodes that it creates. *)
Lemma created_node_revised m created :
  SemanticMutationSet_validate m = Ok tt → created ∈ node_creates m →
  ∃ r, r ∈ node_writes m ∧ nr_node_id r = node_id created.
Proof.
  unfold SemanticMutationSet_validate. rewrite !try_Ok. intros Hv Hin. destruct_and! Hv.
  match goal with Hf : require_first_revision_for_creates nr_node_id _ _ _ = Ok tt |- _ => rename Hf into Hfirst end.
  unfold require_first_revision_for_creates in Hfirst. rewrite for_each_Ok, Forall_forall in Hfirst.
  specialize (Hfirst (node_id created) (list_elem_of_fmap_2 _ _ _ Hin)).
  destruct (filter _ _) as [|r rs] eqn:Hf; [done|]. exists r.
  assert (r ∈ r :: rs) as Hr by (by left). rewrite <- Hf, list_elem_of_filter in Hr. tauto.
Qed.

Context `{!AdapterLaws}.

Lemma id_to_string_inj {kind} (i j : StableId kind) : id_to_string i = id_to_string j → i = j.
Proof. intros Heq%uuid_text_inj. apply (inj id_value). unfold id_value. by rewrite Heq. Qed.

(** The identity of a revision is that of the revised node. *)
Lemma identity_of_id m ex id n :
  identities_ok ex → identity_of (node_creates m) node_id ex id Node = Ok n → node_id n = id.
Proof.
  intros Hok. unfold identity_of. destruct (List.find _ _) as [created|] eqn:Hf.
  - intros [= <-]. apply find_some in Hf as [_ Hf]. by apply bool_decide_eq_true in Hf.
  - intros (value & v & Hl & Hv & Hn)%existing_identity_Node.
    destruct (Hok _ _ Hl) as (n0 & r0 & -> & Hid). cbn in Hv. injection Hv as <-.
    rewrite node_round_trip in Hn. injection Hn as ->. by apply id_to_string_inj.
Qed.

(** The identity that a published commit leaves to a live node is
    the one its mutation set creates for that node, and otherwise the one it had. *)
Theorem core_node_identity s m key s' receipt :
  core_reachable s → commit_core s m key = (s', Ok receipt) → cr_replayed receipt = false →
  ∃ ex ex', existing_records s = Ok ex ∧ existing_records s' = Ok ex' ∧
    ∀ (id : NodeId) (n : Semantic.Node), existing_identity ex id Node "identity" = Ok n →
      existing_identity ex' id Node "identity" = identity_of (node_creates m) node_id ex id Node.
Proof.
  intros Hcore Hc Hfresh.
  destruct (core_commit_refines _ _ _ _ _ (core_reachable_reachable _ Hcore) Hc Hfresh)
    as (ex & records & Hex & Hrec & Hex' & _ & Hkind).
  destruct (core_identities s Hcore) as (ex0 & Hex0 & Hok). rewrite Hex0 in Hex. injection Hex as ->.
  exists ex, (write_all ex records). do 2 (split; [done|]). intros id n Hn.
  pose proof (existing_identity_Node _ _ _ Hn) as (value & v & Hl & _ & _).
  pose proof (mutation_records_parts _ _ _ Hrec) as [Hvalid _].
  pose proof (mutation_records_nodes _ _ _ Hrec) as [Hfrom Hto].
  destruct (write_all_lookup ex records (id_to_string id)) as [(record & Hin & Hid & Hw)|[Hno Hw]].
  - assert (lr_kind record = Node) as Hk by (eapply Hkind; [done|by rewrite Hid]).
    destruct (Hfrom _ Hin Hk) as (r & n' & _ & Hn' & ->). pose proof (identity_of_id _ _ _ _ Hok Hn') as Hrid.
    simpl in Hid. apply id_to_string_inj in Hid. rewrite <- Hid, Hrid, Hn'.
    unfold existing_identity. rewrite <- Hrid, Hid, Hw. cbn [ok_or result_bind fst snd lr_kind lr_value node_record].
    rewrite bool_decide_eq_false_2 by tauto. cbn [value_get pair_value List.find fst]. rewrite bool_decide_eq_true_2 by done.
    cbn [fmap option_fmap option_map snd ok_or result_bind]. by rewrite node_round_trip.
  - unfold identity_of. destruct (List.find _ _) as [created|] eqn:Hf.
    + exfalso. apply find_some in Hf as [Hin%list_elem_of_In Hid]. apply bool_decide_eq_true in Hid.
      destruct (created_node_revised _ _ Hvalid Hin) as (r & Hr & Hrid).
      destruct (Hto _ Hr) as (n' & Hn' & Hin'). apply (Hno _ Hin'). simpl.
      by rewrite (identity_of_id _ _ _ _ Hok Hn'), Hrid, Hid.
    + unfold existing_identity. by rewrite Hw.
Qed.

(** A node that a commit writes as a typed memory is not a node for
    the commits that follow: its identity cannot be found, and a further revision of
    it is refused. *)
Theorem typed_memory_hides_node s m key s' receipt t (id : NodeId) revision :
  reachable s → commit_core s m key = (s', Ok receipt) → cr_replayed receipt = false →
  t ∈ typed_memory_writes m → lineage_target t = LineageNodeRevision id revision →
  ∃ ex', existing_records s' = Ok ex' ∧
    (existing_identity ex' id Node "identity" : Res Semantic.Node) =
    Err (Invariant ("stable identity " +:+ id_to_string id +:+ " has the wrong record kind")).
Proof.
  intros Hreach Hc Hfresh Ht Htarget.
  destruct (core_commit_refines _ _ _ _ _ Hreach Hc Hfresh) as (ex & records & _ & Hrec & Hex' & _).
  eexists. split; [exact Hex'|].
  apply mutation_records_parts in Hrec as (_ & nodes & claims & edges & conflicts & typed & candidates & episodes &
    _ & _ & _ & _ & Htyped & Hcd & Hep & ->).
  destruct (other_write_kinds m ex) as (_ & _ & _ & Kt & Kcd & Kep).
  destruct (try_map_to _ _ _ _ Htyped Ht) as (record & Hin & Hrecord).
  assert (lr_id record = id_to_string id) as Hid.
  { apply result_bind_Ok in Hrecord as (v & _ & Hr). destruct t; injection Hr as <-; unfold lineage_target, header_target in Htarget; by simplify_eq. }
  set (before := nodes ++ claims ++ edges ++ conflicts).
  assert (nodes ++ claims ++ edges ++ conflicts ++ typed ++ candidates ++ episodes = before ++ typed ++ candidates ++ episodes)
    as -> by (unfold before; by rewrite <- !app_assoc).
  assert (∀ rest, write_all ex (before ++ rest) = write_all (write_all ex before) rest) as ->
    by (intros; apply foldl_app).
  unfold existing_identity.
  destruct (write_all_lookup (write_all ex before) (typed ++ candidates ++ episodes) (id_to_string id)) as [(last & Hlast & _ & ->)|[Hno _]].
  2:{ exfalso. apply (Hno record); [|done]. apply elem_of_app. by left. }
  cbn [ok_or result_bind fst]. rewrite bool_decide_eq_true_2; [done|]. intros Hk.
  rewrite !elem_of_app in Hlast. destruct Hlast as [Hl|[Hl|Hl]];
    (eapply try_map_from in Hl as (x & _ & Hx); [|eassumption]);
    first [apply Kt in Hx | apply Kcd in Hx | apply Kep in Hx]; congruence.
Qed.
End identity.
