(* ===== verification/RefSample.v ===== *)
(** * The reference engine: a sample database

    A codec with a proved round trip, requests, and the states they lead to, on
    which the theorems about the engine are applied. *)

From stdpp Require Import pretty.
From S2P Require Import Prelude.
From S2P Require Import Ordering.
From S2P Require Import Bytes.
From S2P Require Import Ieee.
From S2P Require Import Json.
From S2P Require Import Format.
From S2P Require Import RefModel.
From S2P Require Import RefEngine.
From S2P Require Import RefReads.
From S2P Require Import RefInvariant.
From S2P Require Import RefRuns.
From S2P Require Import RefHistory.

(** ** The codec *)

Definition number_text (n : JsonNumber) : string :=
  match n with PosInt n => pretty n | NegInt z => pretty z | Float bits => "f" +:+ pretty bits end.

Fixpoint text_of (v : JsonValue) : string :=
  match v with
  | JNull => "null"
  | JBool b => if b then "true" else "false"
  | JNumber n => number_text n
  | JString s => "'" +:+ s +:+ "'"
  | JArray l => "[" +:+ String.concat "," (List.map text_of l) +:+ "]"
  | JObject l => "{" +:+ String.concat "," (List.map (λ '(k, v), k +:+ ":" +:+ text_of v) l) +:+ "}"
  end.

Definition float_value (x : spec_float) : JsonValue :=
  match x with
  | S754_zero s => JArray [JBool s]
  | S754_finite s m e => JArray [JBool s; JNumber (PosInt (Npos m)); JNumber (NegInt e)]
  | S754_infinity s => JString (if s then "-inf" else "inf")
  | S754_nan => JNull
  end.
Definition value_float (v : JsonValue) : option spec_float :=
  match v with
  | JArray [JBool s] => Some (S754_zero s)
  | JArray [JBool s; JNumber (PosInt (Npos m)); JNumber (NegInt e)] => Some (S754_finite s m e)
  | _ => None
  end.
Definition mk_f32 (x : spec_float) : option f32 :=
  match decide (valid_binary 24 128 x = true) with
  | left H => Some (MkF32 x H)
  | right _ => None
  end.

Lemma mk_f32_val x : mk_f32 (f32_val x) = Some x.
Proof.
  unfold mk_f32. destruct (decide _) as [Hv|Hn]; [|by destruct Hn; apply f32_valid].
  destruct x as [x Hx]. simpl in *. do 2 f_equal. apply proof_irrel.
Qed.

Definition option_value {A} (f : A → JsonValue) (o : option A) : JsonValue :=
  match o with Some x => JArray [f x] | None => JNull end.
Definition value_option {A} (f : JsonValue → option A) (v : JsonValue) : option (option A) :=
  match v with
  | JNull => Some None
  | JArray [v] => Some <$> f v
  | _ => None
  end.

Lemma value_option_value {A} (f : A → JsonValue) g (o : option A) :
  (∀ x, o = Some x → g (f x) = Some x) → value_option g (option_value f o) = Some o.
Proof. intros Hg. destruct o as [x|]; simpl; [|done]. by rewrite Hg. Qed.

Definition content_value (c : RecordContent) : result string JsonValue :=
  Ok (JArray [rc_value c; option_value JString (rc_search_text c);
              option_value (λ v, JArray ((float_value ∘ f32_val) <$> v)) (rc_vector c);
              JObject (bt_entries (rc_attributes c))]).
Definition value_content (v : JsonValue) : result string RecordContent :=
  ok_or match v with
        | JArray [value; search_text; vector; JObject attributes] =>
            search_text ← value_option (λ v, match v with JString s => Some s | _ => None end) search_text;
            vector ← value_option (λ v, match v with
                                        | JArray l => mapM (λ v, value_float v ≫= mk_f32) l
                                        | _ => None
                                        end) vector;
            Some (MkRecordContent value search_text vector (collect_map attributes))
        | _ => None
        end "invalid record content".

Lemma collect_map_entries {V} (m : gmap string V) : collect_map (bt_entries m) = m.
Proof.
  unfold collect_map. apply map_eq. intros k.
  assert (∀ (l : list (string * V)) (acc : gmap string V), NoDup l.*1 → (∀ k v, (k, v) ∈ l → acc !! k = None) →
    foldl (λ m kv, <[kv.1 := kv.2]> m) acc l !! k =
    match list_to_map (M := gmap string V) l !! k with Some v => Some v | None => acc !! k end) as Hfold.
  { clear m. induction l as [|[k' v] l IH]; intros acc Hnd Hacc; simpl; [by rewrite lookup_empty|].
    apply NoDup_cons in Hnd as [Hnin Hnd]. rewrite IH; [|done|].
    - destruct (decide (k' = k)) as [->|Hne]; [|by rewrite !lookup_insert_ne].
      rewrite !lookup_insert_eq, not_elem_of_list_to_map_1; done.
    - intros k0 v0 Hin. rewrite lookup_insert_ne; [by apply (Hacc k0 v0); right|].
      intros <-. apply Hnin, list_elem_of_fmap. by exists (k', v0). }
  assert (NoDup (bt_entries m).*1) as Hnd by (rewrite bt_entries_Permutation; apply NoDup_fst_map_to_list).
  rewrite Hfold; [|done|by intros; rewrite lookup_empty].
  rewrite lookup_empty, (list_to_map_proper _ (map_to_list m)) by (auto using bt_entries_Permutation).
  rewrite list_to_map_to_list. by destruct (m !! k).
Qed.

Lemma content_value_roundtrip c v :
  bad_vector (rc_vector c) = false → content_value c = Ok v → value_content v = Ok c.
Proof.
  intros Hbad [= <-]. unfold value_content. rewrite !value_option_value.
  - simpl. rewrite collect_map_entries. by destruct c.
  - by intros x _.
  - intros xs Hxs. rewrite Hxs in Hbad. simpl in Hbad. apply orb_false_iff in Hbad as [_ Hfin].
    apply mapM_Some_2, Forall2_fmap_l, Forall_Forall2_diag, Forall_forall. intros x Hx. unfold compose.
    assert (value_float (float_value (f32_val x)) = Some (f32_val x)) as ->; [|simpl; apply mk_f32_val].
    assert (sf_is_finite (f32_val x) = true) as Hf; [|by destruct (f32_val x)].
    destruct (sf_is_finite (f32_val x)) eqn:Hf; [done|]. apply not_true_iff_false in Hfin as []. apply existsb_exists.
    exists x. split; [by apply list_elem_of_In|by rewrite Hf].
Qed.

(** ** The instance *)

Definition label_value (a : AccessLabel) : JsonValue := JArray [JString (workspace a); JArray (JString <$> bt_elements (owners a))].
Definition record_value (r : LogicalRecord) : JsonValue :=
  JArray [JString (lr_id r); JString (kind_debug (lr_kind r)); label_value (lr_access r); lr_value r].
Definition mutation_value (m : RefModel.Mutation) : JsonValue :=
  match m with
  | Put r _ => JArray [JString "put"; record_value r]
  | Correct t r => JArray [JString "correct"; JString t; record_value r]
  | Retract t => JArray [JString "retract"; JString t]
  | Delete t b r => JArray [JString "delete"; JString t; JString b; JString r]
  end.
Definition event_value (e : JournalEvent) : JsonValue :=
  match e with
  | ObservationAccepted id rd _ => JArray [JString id; JString rd]
  | SemanticPublished rd _ ids => JArray (JString rd :: (JString <$> bt_elements ids))
  end.

(** Exports are turned into values by [write] and read by [read]. *)
Definition sample_codec (write : ToValue LogicalExport) (read : bytes → result string LogicalExport) : RefCodec := {|
  codec_hash := sample_blake3;
  codec_text := λ v, Ok (str_bytes (text_of v));
  codec_journal := λ '(n, previous, e), Ok (JArray [JNumber (PosInt n); option_value JString previous; event_value e]);
  codec_observation := λ o, Ok (JArray [JString (oi_observation_id o); label_value (oi_access o); oi_content o]);
  codec_transaction := λ t, Ok (JArray [JNumber (PosInt (base_seq t)); JArray (mutation_value <$> mutations t)]);
  codec_content := content_value;
  codec_read_content := value_content;
  codec_export := write;
  export_from_slice := read;
|}.

(** The identity and the size of an export. *)
Definition export_summary : ToValue LogicalExport := λ e,
  Ok (JArray [JString (ex_database_id e); JNumber (PosInt (ex_head e)); JNumber (PosInt (N.of_nat (size (ex_contents e))))]).
Definition no_export (text : bytes) : result string LogicalExport := Err "unknown export".
#[export] Instance plain_codec : RefCodec := sample_codec export_summary no_export.
#[export] Instance plain_codec_laws : RefCodecLaws.
Proof. constructor. exact content_value_roundtrip. Defined.

(** ** The database *)

Definition label (w : string) : AccessLabel :=
  MkAccessLabel w ∅ {["ann"]} ∅ ∅ ∅ Internal ConsentGranted true.
Definition caller (w : string) : Principal := MkPrincipal "ann" ∅ w ∅ "recall" Private.
Definition record_of (w id : string) (kind : RecordKind) (links : SemanticLinks) (value : string) : LogicalRecord :=
  MkLogicalRecord id kind (label w) UNBOUNDED Active links (JString value) (Some value) (Some [f32_one]) ∅.
Definition node (w id : string) : LogicalRecord := record_of w id Node SemanticLinks_default id.
Definition edge (w id source target : string) : LogicalRecord :=
  record_of w id Edge (MkSemanticLinks None (Some source) (Some target) (Some "knows") None ∅ ∅ ∅ false) id.
Definition claim (w id subject : string) (conflict : option string) : LogicalRecord :=
  record_of w id Claim (MkSemanticLinks (Some subject) None None (Some "likes") conflict ∅ ∅ ∅ true) id.
Definition conflict_record (w id a b : string) : LogicalRecord :=
  record_of w id Conflict (MkSemanticLinks None None None None None ∅ ∅ {[a; b]} false) id.

Definition txn (base : N) (key : string) (muts : list RefModel.Mutation) : SemanticTransaction :=
  MkSemanticTransaction base key muts.
Definition puts (rs : list LogicalRecord) : list RefModel.Mutation := (λ r, Put r None) <$> rs.
Definition observation (w key id : string) : ObservationInput := MkObservationInput key id (label w) ∅ (JString id).

Definition empty_db : State := MkState "db" 0 Watermarks_default ∅ ∅ ∅ [] ∅ ∅ SecurityIndexes_default.

Definition graph_txn : SemanticTransaction := txn 0 "k1" (puts [node "w" "a"; node "w" "b"; edge "w" "e" "a" "b"]).
Definition graph_writes : list Write := [WCommit graph_txn NoFailpoint; WObserve (observation "w" "k2" "o") NoFailpoint].
Definition graph_db : State := run empty_db graph_writes.

Lemma run_reachable ws : reachable (run empty_db ws).
Proof. exists "db", empty_db, ws. split; [reflexivity|reflexivity]. Qed.

(** Two claims in conflict, in the same workspace. *)
Definition claims_txn : SemanticTransaction :=
  txn 2 "k3" (puts [claim "w" "c" "a" None]).
Definition conflict_txn : SemanticTransaction :=
  txn 3 "k4" (puts [claim "w" "c" "a" (Some "x"); claim "w" "d" "a" (Some "x"); conflict_record "w" "x" "c" "d"]).
Definition conflict_writes : list Write :=
  graph_writes ++ [WCommit claims_txn NoFailpoint; WCommit conflict_txn NoFailpoint].
Definition conflict_db : State := run empty_db conflict_writes.

#[export] Instance ascii_unicode : Unicode := {|
  char_is_alphanumeric c :=
    match c with [b] => (48 <=? Byte.to_N b)%N && negb (Byte.to_N b =? 95)%N | _ => true end;
  str_to_lowercase s := s;
|}.

(** The value of an operation that succeeds, for concrete states. *)
Definition value_of {A} (d : A) (r : Res A) : A := match r with Ok x => x | Err _ => d end.
Definition no_receipt : CommitReceipt := MkCommitReceipt 0 false "" Watermarks_default.
Definition after (s : State) (t : SemanticTransaction) : State := (commit s t).1.
Definition receipt_of (s : State) (t : SemanticTransaction) : CommitReceipt := value_of no_receipt (commit s t).2.

Lemma value_of_ok {A} (d : A) (r : Res A) : is_ok r = true → r = Ok (value_of d r).
Proof. by destruct r. Qed.
Lemma acknowledged s t : is_ok (commit s t).2 = true → commit s t = (after s t, Ok (receipt_of s t)).
Proof. unfold after, receipt_of. by destruct (commit s t) as [s' [r|e]]. Qed.

(** Writes do not depend on how exports are written and read. *)
Lemma run_write_codec write read s w : @run_write (sample_codec write read) s w = run_write s w.
Proof. destruct w; reflexivity. Qed.
Lemma run_codec write read s ws : @run (sample_codec write read) s ws = run s ws.
Proof. revert s; induction ws as [|w ws IH]; intros s; [done|]. simpl. rewrite IH. by rewrite run_write_codec. Qed.

Lemma run_reachable_codec write read ws : @reachable (sample_codec write read) (run empty_db ws).
Proof. exists "db", empty_db, ws. split; [reflexivity|]. by rewrite run_codec. Qed.
Lemma acknowledged_codec write read s t :
  is_ok (commit s t).2 = true → @commit (sample_codec write read) s t = (after s t, Ok (receipt_of s t)).
Proof. intros Hok. rewrite <- (acknowledged s t Hok). reflexivity. Qed.
Definition sample_codec_laws write read : @RefCodecLaws (sample_codec write read).
Proof. constructor. exact content_value_roundtrip. Defined.
