(* ===== verification/RefWitness.v ===== *)
(** * The reference engine: the theorems on the sample database *)

From S2P Require Import Prelude.
From S2P Require Import Ordering.
From S2P Require Import Bytes.
From S2P Require Import Ieee.
From S2P Require Import Json.
From S2P Require Import Format.
From S2P Require Import RefModel.
From S2P Require Import RefEngine.
From S2P Require Import RefReads.
From S2P Require Import RefInvariant.
From S2P Require Import RefRuns.
From S2P Require Import RefHistory.
From S2P Require Import RefQuery.
From S2P Require Import RefTraverse.
From S2P Require Import RefDelete.
From S2P Require Import RefClaims.
From S2P Require Import RefRetry.
From S2P Require Import RefImport.
From S2P Require Import RefEvents.
From S2P Require Import RefIsolation.
From S2P Require Import RefSample.

Definition here : Snapshot := snapshot graph_db.
Definition ann : Principal := caller "w".

(** A later version of a node. *)
Definition newer : LogicalRecord := record_of "w" "a" Node SemanticLinks_default "newer".
Definition newer_txn : SemanticTransaction := txn 2 "k3" [Put newer (Some 1%N)].

Definition later_writes : list Write := [WCommit newer_txn NoFailpoint].

Definition no_record : MaterializedRecord :=
  MkMaterializedRecord (MkStoredRevision "" 0 0 None (record_metadata newer) (MkContentRef "" "")) (record_content newer).
Definition first_read : MaterializedRecord := value_of no_record (get graph_db "a" here ann).

Lemma snapshot_reads_are_stable_witness :
  ∃ m', get (run graph_db later_writes) "a" here ann = Ok m' ∧ mr_content m' = mr_content first_read.
Proof.
  destruct (snapshot_reads_are_stable graph_db later_writes "a" here ann first_read) as (m' & Hm' & Hc & _).
  - exact (run_reachable graph_writes).
  - apply value_of_ok. vm_compute. reflexivity.
  - vm_compute. reflexivity.
  - vm_compute. reflexivity.
  - exists m'. split; [exact Hm'|exact Hc].
Defined.

Lemma put_is_read_back_witness :
  ∃ m, get (after graph_db newer_txn) "a" (snapshot (after graph_db newer_txn)) ann = Ok m ∧
    mr_content m = record_content newer.
Proof.
  destruct (put_is_read_back graph_db newer_txn [] newer (Some 1%N) (after graph_db newer_txn)
    (receipt_of graph_db newer_txn) ann) as (m & Hm & Hc & _).
  - exact (run_reachable graph_writes).
  - reflexivity.
  - apply acknowledged. vm_compute. reflexivity.
  - vm_compute. reflexivity.
  - vm_compute. reflexivity.
  - discriminate.
  - discriminate.
  - exists m. split; [exact Hm|exact Hc].
Defined.

Lemma scan_kind_exact_witness :
  ∃ t, scan_kind graph_db Node here ann = Ok t ∧ StronglySorted klt ((sr_id ∘ mr_revision) <$> traced_value t).
Proof.
  destruct (scan_kind_exact graph_db Node here ann) as (t & Ht & Hs & _).
  - exact (run_reachable graph_writes).
  - reflexivity.
  - vm_compute. discriminate.
  - exists t. split; [exact Ht|exact Hs].
Defined.

Lemma lexical_search_exact_witness :
  ∃ t, lexical_search false graph_db "a" 10 here ann = Ok t ∧
    ranked false graph_db here ann (lexical_score (tokens "a")) 10 (traced_value t).
Proof.
  apply lexical_search_exact.
  - exact (run_reachable graph_writes).
  - reflexivity.
  - intros Heq%(f_equal size). vm_compute in Heq. discriminate Heq.
  - discriminate.
  - vm_compute. discriminate.
Defined.

Lemma vector_search_exact_witness :
  ∃ t, vector_search false graph_db [f32_one] 10 here ann = Ok t ∧
    ranked false graph_db here ann (vector_score [f32_one]) 10 (traced_value t).
Proof.
  apply vector_search_exact.
  - exact (run_reachable graph_writes).
  - reflexivity.
  - reflexivity.
  - discriminate.
  - vm_compute. discriminate.
Defined.

Definition no_trace : Traced (list string) := MkTraced [] (MkReadTrace 0 "" 0 [] Watermarks_default).

Lemma traverse_exact_witness :
  traverse graph_db ["a"] Outgoing ∅ 2 10 here ann = Ok (value_of no_trace (traverse graph_db ["a"] Outgoing ∅ 2 10 here ann)) ∧
  match traverse graph_db ["a"] Outgoing ∅ 2 10 here ann with
  | Ok t => walk_done graph_db Outgoing ∅ 2 10 (snap_commit_seq here) ann ["a"] (traced_value t)
  | Err _ => False
  end.
Proof.
  pose proof (traverse_exact graph_db ["a"] Outgoing ∅ 2 10 here ann (run_reachable graph_writes) eq_refl) as Ht.
  assert (traverse graph_db ["a"] Outgoing ∅ 2 10 here ann = Ok (value_of no_trace (traverse graph_db ["a"] Outgoing ∅ 2 10 here ann))) as Heq
    by (apply value_of_ok; vm_compute; reflexivity).
  split; [exact Heq|]. rewrite Heq in Ht |- *. apply Ht.
  - intros id ->%list_elem_of_singleton. vm_compute. reflexivity.
  - split; vm_compute; [reflexivity|discriminate].
  - vm_compute. reflexivity.
Defined.

(** ** Deletion *)

Definition delete_txn : SemanticTransaction := txn 2 "k3" [Delete "a" "ann" "request"].

(** The edge depends on the deleted node. *)
Lemma edge_doomed : doomed graph_db "a" "e".
Proof. apply deletion_closure_spec. apply (bool_decide_unpack _). vm_compute. exact I. Qed.

Lemma hard_deletion_is_final_witness :
  unreadable (run (after graph_db delete_txn) [WObserve (observation "w" "k4" "p") NoFailpoint]) "e".
Proof.
  destruct (hard_deletion_is_final graph_db delete_txn [] "a" "ann" "request" [] (after graph_db delete_txn)
    (receipt_of graph_db delete_txn) (graph_db, ∅) [WObserve (observation "w" "k4" "p") NoFailpoint] "e") as (_ & Hu & _).
  - exact (run_reachable graph_writes).
  - reflexivity.
  - apply acknowledged. vm_compute. reflexivity.
  - vm_compute. reflexivity.
  - reflexivity.
  - exact edge_doomed.
  - exact Hu.
Defined.

Definition write_delete_txn : SemanticTransaction := txn 2 "k3" [Put newer None; Delete "a" "ann" "request"].

Lemma deleted_write_stays_in_request_witness :
  has_tombstone (after graph_db write_delete_txn) "a" = true ∧
  ∃ ref v, to_value write_delete_txn = Ok v ∧ contents (after graph_db write_delete_txn) !! ref = Some v.
Proof.
  destruct (deleted_write_stays_in_request graph_db write_delete_txn [] newer None "ann" "request"
    (after graph_db write_delete_txn) (receipt_of graph_db write_delete_txn)) as (Ht & r & v & _ & _ & Hv & Hc).
  - exact (run_reachable graph_writes).
  - reflexivity.
  - apply acknowledged. vm_compute. reflexivity.
  - vm_compute. reflexivity.
  - split; [exact Ht|]. exists (content_id (event_request (jr_event r))), v. split; [exact Hv|exact Hc].
Defined.

Definition dangling_txn : SemanticTransaction := txn 2 "k3" [Put (edge "w" "f" "b" "a") None; Delete "a" "ann" "request"].

Lemma same_transaction_dependent_survives_witness :
  has_tombstone (after graph_db dangling_txn) "a" = true ∧ has_tombstone (after graph_db dangling_txn) "f" = false.
Proof.
  destruct (same_transaction_dependent_survives graph_db dangling_txn (edge "w" "f" "b" "a") None "a" "ann" "request"
    (after graph_db dangling_txn) (receipt_of graph_db dangling_txn)) as (Ha & Hf & _).
  - exact (run_reachable graph_writes).
  - reflexivity.
  - vm_compute. reflexivity.
  - discriminate.
  - right; right; left. reflexivity.
  - apply acknowledged. vm_compute. reflexivity.
  - vm_compute. reflexivity.
  - split; [exact Ha|exact Hf].
Defined.

(** ** Claims *)

Definition no_revision : StoredRevision := mr_revision no_record.
Definition now (s : State) (id : string) : StoredRevision := default no_revision (current s id (head s)).

Lemma now_current s id : bool_decide (is_Some (current s id (head s))) = true → current s id (head s) = Some (now s id).
Proof. unfold now. intros Hs%bool_decide_eq_true. by destruct (current s id (head s)); [|destruct Hs]. Qed.

Lemma claims_compete s : bool_decide (sr_record (now s "c") = record_metadata (claim "w" "c" "a" (Some "x"))) = true →
  bool_decide (sr_record (now s "d") = record_metadata (claim "w" "d" "a" (Some "x"))) = true →
  competing (sr_record (now s "c")) (sr_record (now s "d")).
Proof. intros ->%bool_decide_eq_true ->%bool_decide_eq_true. by split; [|split]. Qed.

Lemma competing_claims_share_conflict_witness :
  ∃ k c, current conflict_db k (head conflict_db) = Some c ∧ m_kind (sr_record c) = Conflict ∧
    "c" ∈ l_conflict_members (m_links (sr_record c)) ∧ "d" ∈ l_conflict_members (m_links (sr_record c)).
Proof.
  destruct (competing_claims_share_conflict conflict_db "c" "d" (now conflict_db "c") (now conflict_db "d"))
    as (k & c & _ & _ & Hc & Hk & _ & Hm & Hm').
  - exact (run_reachable conflict_writes).
  - discriminate.
  - vm_compute. reflexivity.
  - vm_compute. reflexivity.
  - apply now_current. vm_compute. reflexivity.
  - apply now_current. vm_compute. reflexivity.
  - apply claims_compete; vm_compute; reflexivity.
  - exists k, c. split; [exact Hc|]. split; [exact Hk|]. split; [exact Hm|exact Hm'].
Defined.

Definition drop_conflict_txn : SemanticTransaction := txn 4 "k5" [Delete "x" "ann" "request"].
Definition dropped_db : State := run empty_db (conflict_writes ++ [WCommit drop_conflict_txn NoFailpoint]).

(** Deleting a conflict record is accepted although claims refer to
    it: two live claims compete for one single-valued slot and their conflict set is
    deleted. *)
Theorem conflict_set_can_be_deleted :
  reachable dropped_db ∧ competing (sr_record (now dropped_db "c")) (sr_record (now dropped_db "d")) ∧
  current dropped_db "c" (head dropped_db) = Some (now dropped_db "c") ∧
  current dropped_db "d" (head dropped_db) = Some (now dropped_db "d") ∧
  has_tombstone dropped_db "c" = false ∧ has_tombstone dropped_db "d" = false ∧
  l_conflict_set (m_links (sr_record (now dropped_db "c"))) = Some "x" ∧ has_tombstone dropped_db "x" = true.
Proof.
  split; [apply run_reachable|]. split; [apply claims_compete; vm_compute; reflexivity|].
  split; [apply now_current; vm_compute; reflexivity|]. split; [apply now_current; vm_compute; reflexivity|].
  repeat split; vm_compute; reflexivity.
Qed.

(** ** Retries *)

Lemma writes_happen_once_witness :
  ∃ receipt, ∀ f, let later := (run_write graph_db (WCommit newer_txn AfterPublish)).1 in
    run_write later (WCommit newer_txn f) = (later, Ok (as_replay receipt)).
Proof.
  destruct (writes_happen_once graph_db (WCommit newer_txn AfterPublish)
    (run_write graph_db (WCommit newer_txn AfterPublish)).1 (run_write graph_db (WCommit newer_txn AfterPublish)).2)
    as [[Hs _]|(receipt & _ & _ & _ & _ & Hlater)].
  - apply surjective_pairing.
  - exfalso. apply (f_equal head) in Hs. vm_compute in Hs. discriminate Hs.
  - exists receipt. intros f. destruct (Hlater []) as [Hretry _]. exact (Hretry f).
Defined.

(** ** Export and import *)

#[export] Instance JsonNumber_eq_dec : EqDecision JsonNumber.
Proof. solve_decision. Defined.
#[export] Instance JsonValue_eq_dec : EqDecision JsonValue.
Proof.
  refine (fix go v w := let _ : EqDecision JsonValue := @go in
    match v, w with
    | JNull, JNull => left _
    | JBool b, JBool c => cast_if (decide (b = c))
    | JNumber m, JNumber n => cast_if (decide (m = n))
    | JString s, JString t => cast_if (decide (s = t))
    | JArray l, JArray k => cast_if (decide (l = k))
    | JObject l, JObject k => cast_if (decide (l = k))
    | _, _ => right _
    end); abstract congruence.
Defined.
#[export] Instance ContentRef_eq_dec : EqDecision ContentRef.
Proof. solve_decision. Defined.
#[export] Instance StoredRevision_eq_dec : EqDecision StoredRevision.
Proof. solve_decision. Defined.
#[export] Instance Watermarks_eq_dec : EqDecision Watermarks.
Proof. solve_decision. Defined.
#[export] Instance ObservationRecord_eq_dec : EqDecision ObservationRecord.
Proof. solve_decision. Defined.
#[export] Instance DeletionTombstone_eq_dec : EqDecision DeletionTombstone.
Proof. solve_decision. Defined.
#[export] Instance JournalEvent_eq_dec : EqDecision JournalEvent.
Proof. solve_decision. Defined.
#[export] Instance JournalRecord_eq_dec : EqDecision JournalRecord.
Proof. solve_decision. Defined.
#[export] Instance CommitReceipt_eq_dec : EqDecision CommitReceipt.
Proof. solve_decision. Defined.
#[export] Instance IdempotencyRecord_eq_dec : EqDecision IdempotencyRecord.
Proof. solve_decision. Defined.
#[export] Instance LogicalExport_eq_dec : EqDecision LogicalExport.
Proof. solve_decision. Defined.

(** A codec that writes and reads one export. *)
Definition export_text : JsonValue := JString "export".
Definition one_write (e : LogicalExport) : ToValue LogicalExport := λ e',
  if decide (e' = e) then Ok export_text else Err "unknown export".
Definition one_read (e : LogicalExport) (text : bytes) : result string LogicalExport :=
  if bool_decide (text = str_bytes (text_of export_text)) then Ok e else Err "unknown export".
Definition one_codec (s : State) : RefCodec := sample_codec (one_write (logical_export s)) (one_read (logical_export s)).
Definition one_codec_laws s : @RefCodecLaws (one_codec s) := sample_codec_laws _ _.

Definition one_export_laws s : @ExportLaws (one_codec s).
Proof.
  constructor. intros e text _. unfold canonical_to_vec, to_value_or, to_value. simpl. unfold one_write, one_read.
  destruct (decide _) as [->|]; [|done]. simpl. intros [= <-]. by rewrite bool_decide_eq_true_2.
Qed.
Lemma one_export s : @export (one_codec s) s = Ok (str_bytes (text_of export_text)).
Proof.
  unfold export, canonical_to_vec, to_value_or, to_value. simpl. unfold one_write.
  by destruct (decide _) as [_|[]].
Qed.

(** Records without a vector. *)
Definition bare (id : string) : LogicalRecord :=
  MkLogicalRecord id Node (label "w") UNBOUNDED Active SemanticLinks_default (JString id) (Some id) None ∅.
Definition bare_writes : list Write :=
  [WCommit (txn 0 "k1" (puts [bare "a"; bare "b"])) NoFailpoint; WObserve (observation "w" "k2" "o") NoFailpoint;
   WCommit (txn 2 "k3" [Put (bare "a") (Some 1%N); Retract "b"]) NoFailpoint].
Definition bare_db : State := run empty_db bare_writes.

Lemma bare_singly : @reachable_singly (one_codec bare_db) bare_db.
Proof.
  exists "db", empty_db, bare_writes. split; [reflexivity|]. split; [|symmetry; apply run_codec].
  repeat (constructor; [first [exact I|apply (bool_decide_unpack _); vm_compute; exact I]|]). constructor.
Qed.

Lemma import_restores_export_witness :
  head bare_db = 3%N ∧ @import (one_codec bare_db) (str_bytes (text_of export_text)) = Ok bare_db.
Proof.
  split; [vm_compute; reflexivity|].
  apply (@import_restores_export (one_codec bare_db) (one_codec_laws bare_db) (one_export_laws bare_db)).
  - exact bare_singly.
  - apply (bool_decide_unpack _). vm_compute. exact I.
  - exact (one_export bare_db).
Defined.

Definition twice_txn : SemanticTransaction := txn 3 "k4" [Put (bare "c") None; Put (bare "c") None].
Definition twice_db : State := after bare_db twice_txn.

Lemma double_put_breaks_import_witness :
  ∃ e, @import (one_codec twice_db) (str_bytes (text_of export_text)) = Err e.
Proof.
  apply (@double_put_breaks_import (one_codec twice_db) (one_codec_laws twice_db) (one_export_laws twice_db)
    bare_db twice_txn (bare "c") None (bare "c") None twice_db (receipt_of bare_db twice_txn)).
  - apply run_reachable_codec.
  - reflexivity.
  - reflexivity.
  - apply acknowledged_codec. vm_compute. reflexivity.
  - vm_compute. reflexivity.
  - exact (one_export twice_db).
  - apply (bool_decide_unpack _). vm_compute. exact I.
Defined.

(** ** Workspaces *)

Lemma event_pages_exact_witness :
  ∃ all, read_pages (S (length all)) graph_db "w" (0, 0)%N 2 = Ok all ∧
    (λ c, (ec_commit_seq c, ec_kind c)) <$> all = events_of graph_db "w" (journal graph_db).
Proof.
  destruct (event_pages_exact graph_db "w" 2) as (all & Hread & Hev & _).
  - exact (run_reachable graph_writes).
  - split; vm_compute; [reflexivity|discriminate].
  - exists all. split; [exact Hread|exact Hev].
Defined.

Definition foreign_writes : list Write :=
  [WCommit (txn 2 "k3" (puts [node "v" "n"])) NoFailpoint; WObserve (observation "v" "k4" "q") NoFailpoint].

Lemma foreign_writes_are_invisible_witness :
  head (run graph_db foreign_writes) = 4%N ∧ reads_agree ann here graph_db (run graph_db foreign_writes).
Proof.
  split; [vm_compute; reflexivity|]. apply foreign_writes_are_invisible.
  - exact (run_reachable graph_writes).
  - reflexivity.
  - vm_compute. reflexivity.
Defined.
