(* ===== verification/RefCoreWitness.v ===== *)
(** * The reference engine: core values on the sample database

    An adapter codec that satisfies the laws, mutation sets, and the theorems about
    core commits applied to them. *)

From stdpp Require Import pretty.
From S2P Require Import Prelude.
From S2P Require Import Ordering.
From S2P Require Import Bytes.
From S2P Require Import Ieee.
From S2P Require Import Json.
From S2P Require Import CoreBase.
From S2P Require Import Provenance.
From S2P Require Import Policy.
From S2P Require Import Identity.
From S2P Require Import Evidence.
From S2P Require Import RefSample.
From S2P Require Import Semantic.
From S2P Require Import MemoryTypes.
From S2P Require Import Mutation.
From S2P Require Import RefModel.
From S2P Require Import RefEngine.
From S2P Require Import RefReads.
From S2P Require Import RefInvariant.
From S2P Require Import RefRuns.
From S2P Require Import RefHistory.
From S2P Require Import RefAdapter.
From S2P Require Import RefAccess.
From S2P Require Import RefCore.
From S2P Require Import RefCoreIdentity.

(** ** The text of a UUID *)

(** Eight, four, four, four and twelve digits with hyphens between them. *)
Definition hyphenate (h : bytes) : bytes :=
  take 8 h ++ [x2d] ++ take 4 (drop 8 h) ++ [x2d] ++ take 4 (drop 12 h) ++ [x2d] ++ take 4 (drop 16 h) ++ [x2d] ++ drop 20 h.
Definition hyphenated (u : Uuid) : string :=
  String.string_of_list_byte (hyphenate (mjoin (hex_byte <$> as_bytes u))).

Lemma hyphenate_inj h h' : length h = 32%nat → length h' = 32%nat → hyphenate h = hyphenate h' → h = h'.
Proof.
  intros Hl Hl'. unfold hyphenate. intros Heq.
  apply app_inj_1 in Heq as [H1 Heq]; [|rewrite !length_take; lia].
  injection Heq as Heq. apply app_inj_1 in Heq as [H2 Heq]; [|rewrite !length_take, !length_drop; lia].
  injection Heq as Heq. apply app_inj_1 in Heq as [H3 Heq]; [|rewrite !length_take, !length_drop; lia].
  injection Heq as Heq. apply app_inj_1 in Heq as [H4 Heq]; [|rewrite !length_take, !length_drop; lia].
  injection Heq as H5.
  assert (∀ l : bytes, l = take 8 l ++ take 4 (drop 8 l) ++ take 4 (drop 12 l) ++ take 4 (drop 16 l) ++ drop 20 l) as Hsplit.
  { intros l. pose proof (take_drop 4 (drop 8 l)) as E2. pose proof (take_drop 4 (drop 12 l)) as E3.
    pose proof (take_drop 4 (drop 16 l)) as E4. rewrite drop_drop in E2, E3, E4. cbn [Nat.add] in E2, E3, E4.
    by rewrite E4, E3, E2, take_drop. }
  rewrite (Hsplit h), (Hsplit h'). by rewrite H1, H2, H3, H4, H5.
Qed.

Lemma length_uuid_hex u : length (mjoin (hex_byte <$> as_bytes u)) = 32%nat.
Proof. rewrite length_hex. unfold as_bytes. by rewrite length_to_be_bytes. Qed.

Lemma hyphenated_inj u v : hyphenated u = hyphenated v → u = v.
Proof.
  intros Heq%(f_equal String.list_byte_of_string). unfold hyphenated in Heq.
  rewrite !String.list_byte_of_string_of_list_byte in Heq.
  apply hyphenate_inj in Heq; [|apply length_uuid_hex..].
  apply (f_equal digest_chunks) in Heq. rewrite !digest_chunks_hex in Heq.
  assert (as_bytes u = as_bytes v) as Hb by congruence. clear Heq. rename Hb into Heq.
  apply Uuid_inj. unfold as_bytes in Heq.
  assert (∀ w, uuid_value w < 256 ^ N.of_nat 16)%N as Hlt.
  { intros w. pose proof (uuid_width w) as Hw. apply N.ltb_lt in Hw. exact Hw. }
  apply (f_equal from_be_bytes) in Heq. by rewrite !from_to_be_bytes_small in Heq by apply Hlt.
Qed.

Lemma length_hyphenated u : String.length (hyphenated u) = 36%nat.
Proof.
  unfold hyphenated. assert (∀ bs, String.length (String.string_of_list_byte bs) = length bs) as ->.
  { induction bs as [|b bs IH]; [done|]. simpl. by rewrite <- IH. }
  unfold hyphenate. pose proof (length_uuid_hex u). rewrite !length_app, !length_take, !length_drop. simpl. lia.
Qed.

(** ** The value of a node *)

Definition node_type_code (t : NodeType) : N * (string * string) :=
  match t with
  | NodeActor => (0, ("", "")) | NodeEntity => (1, ("", "")) | NodeConcept => (2, ("", ""))
  | NodeEvent => (3, ("", "")) | NodeClaim => (4, ("", "")) | NodeRelationship => (5, ("", ""))
  | NodePreference => (6, ("", "")) | NodeBoundary => (7, ("", "")) | NodeGoal => (8, ("", ""))
  | NodeCommitment => (9, ("", "")) | NodeDecision => (10, ("", "")) | NodeProcedure => (11, ("", ""))
  | NodeEpisode => (12, ("", "")) | NodeArtifact => (13, ("", "")) | NodeCorrection => (14, ("", ""))
  | NodeConflict => (15, ("", "")) | NodeReflection => (16, ("", "")) | NodeSharedReference => (17, ("", ""))
  | NodeSelfModel => (18, ("", "")) | NodeOpenLoop => (19, ("", "")) | NodeUnknown => (20, ("", ""))
  | NodeDomain pack name => (21, (pack, name))
  end%N.
Definition node_type_of (c : N * (string * string)) : NodeType :=
  if (c.1 =? 21)%N then NodeDomain c.2.1 c.2.2
  else default NodeUnknown
    ([NodeActor; NodeEntity; NodeConcept; NodeEvent; NodeClaim; NodeRelationship; NodePreference; NodeBoundary; NodeGoal;
      NodeCommitment; NodeDecision; NodeProcedure; NodeEpisode; NodeArtifact; NodeCorrection; NodeConflict; NodeReflection;
      NodeSharedReference; NodeSelfModel; NodeOpenLoop] !! N.to_nat c.1).
#[local] Instance NodeType_countable : Countable NodeType.
Proof. apply (inj_countable' node_type_code node_type_of). by intros []. Defined.

Definition scope_kind_code (k : ScopeKind) : N * string :=
  match k with
  | ScopeWorkspace => (0, "") | ScopeMemorySpace => (1, "") | ScopeSubject => (2, "") | ScopeRelationship => (3, "")
  | ScopeProject => (4, "") | ScopeRepository => (5, "") | ScopeOrganisation => (6, "") | ScopeTeam => (7, "")
  | ScopeSession => (8, "") | ScopeTask => (9, "") | ScopePlace => (10, "") | ScopeTimeRegion => (11, "")
  | ScopeSecurityCompartment => (12, "") | ScopeDomain => (13, "") | ScopeOther label => (14, label)
  end%N.
Definition scope_kind_of (c : N * string) : ScopeKind :=
  if (c.1 =? 14)%N then ScopeOther c.2
  else default ScopeDomain
    ([ScopeWorkspace; ScopeMemorySpace; ScopeSubject; ScopeRelationship; ScopeProject; ScopeRepository; ScopeOrganisation;
      ScopeTeam; ScopeSession; ScopeTask; ScopePlace; ScopeTimeRegion; ScopeSecurityCompartment] !! N.to_nat c.1).
#[local] Instance ScopeKind_countable : Countable ScopeKind.
Proof. apply (inj_countable' scope_kind_code scope_kind_of). by intros []. Defined.

#[local] Instance ScopeRef_countable : Countable ScopeRef.
Proof.
  apply (inj_countable' (λ s, (scope_kind s, scope_id s, match inheritance s with Exact => true | Descendants => false end))
    (λ '(k, i, b), MkScopeRef k i (if b : bool then Exact else Descendants))). by intros [? ? []].
Defined.

#[local] Instance IdentityState_eq_dec : EqDecision IdentityState.
Proof. solve_decision. Defined.
#[local] Instance IdentityState_countable : Countable IdentityState.
Proof.
  apply (inj_countable'
    (λ s, match s with Canonical => 0 | Ambiguous => 1 | Redirected => 2 | IdentitySplit => 3 | Retired => 4 end%N)
    (λ n, default Retired ([Canonical; Ambiguous; Redirected; IdentitySplit] !! N.to_nat n))). by intros [].
Defined.

#[local] Instance Node_eq_dec : EqDecision Semantic.Node.
Proof. solve_decision. Defined.
#[local] Instance Node_countable : Countable Semantic.Node.
Proof.
  apply (inj_countable'
    (λ n, (node_id n, node_workspace_id n, node_type n, node_created_seq n, retired_seq n, identity_state n, primary_scope n))
    (λ '(i, w, t, c, r, s, p), MkNode i w t c r s p)). by intros [].
Defined.

Definition node_value (n : Semantic.Node) : Json.JsonValue := JNumber (PosInt (Npos (encode n))).
Definition value_node (v : Json.JsonValue) : result string Semantic.Node :=
  match v with
  | JNumber (PosInt (Npos p)) => ok_or (decode p) "invalid node"
  | _ => Err "invalid node"
  end.

Lemma value_node_value n : value_node (node_value n) = Ok n.
Proof. unfold value_node, node_value. by rewrite decode_encode. Qed.

(** ** The codec *)

#[export] Instance sample_adapter : AdapterCodec := {|
  uuid_to_string := hyphenated;
  f64_to_string := λ _, "0";
  adapter_node := node_value;
  adapter_node_revision := λ r, JArray [JString (hyphenated (as_uuid (nr_node_id r))); JNumber (PosInt (nr_revision r))];
  adapter_claim := λ c, JString (hyphenated (as_uuid (claim_id c)));
  adapter_claim_revision := λ r, JString (hyphenated (as_uuid (cr_claim_id r)));
  adapter_edge := λ e, JString (hyphenated (as_uuid (edge_id e)));
  adapter_edge_revision := λ r, JString (hyphenated (as_uuid (er_edge_id r)));
  adapter_conflict := λ c, JString (hyphenated (as_uuid (cs_id c)));
  adapter_conflict_revision := λ r, JString (hyphenated (as_uuid (csr_conflict_set_id r)));
  adapter_source := λ i, JString (hyphenated (as_uuid i));
  adapter_spaces := λ v, JArray ((λ i, JString (hyphenated (as_uuid i))) <$> into_vec v);
  adapter_participants := λ v, JArray ((λ i, JString (hyphenated (as_uuid i))) <$> into_vec v);
  adapter_range := λ r, JArray [JNumber (number_of_i64 (time_start r)); option_value (λ z, JNumber (number_of_i64 z)) (time_end r)];
  adapter_timestamp := λ z, JNumber (number_of_i64 z);
  adapter_node_record := λ r, Ok (node_value (Semantic.node r));
  adapter_claim_record := λ r, Ok (JString (hyphenated (as_uuid (claim_id (Semantic.claim r)))));
  adapter_edge_record := λ r, Ok (JString (hyphenated (as_uuid (edge_id (Semantic.edge r)))));
  adapter_conflict_record := λ r, Ok (JString (hyphenated (as_uuid (cs_id (conflict_set r)))));
  adapter_observation := λ o, Ok (JString (hyphenated (as_uuid (Evidence.observation_id o))));
  adapter_candidate := λ c, Ok (JString (hyphenated (as_uuid (candidate_id c))));
  adapter_episode := λ e, Ok (JString (hyphenated (as_uuid (episode_id e))));
  adapter_typed := λ _, Ok JNull;
  adapter_mutation := λ m, Ok (JString (hyphenated (as_uuid (mutation_id m))));
  adapter_read_node := value_node;
  adapter_read_claim := λ _, Err "not a claim";
  adapter_read_edge := λ _, Err "not an edge";
  adapter_read_conflict := λ _, Err "not a conflict set";
|}.

#[export] Instance sample_adapter_laws : AdapterLaws.
Proof. split; [exact hyphenated_inj|exact length_hyphenated|exact value_node_value]. Defined.

(** ** Mutation sets *)

Definition core_scope : ScopeRef := MkScopeRef ScopeWorkspace (sample_id _) Exact.
Definition core_envelope (grants : list AudienceGrant) : SemanticEnvelope :=
  let e := sample_envelope in {|
  Policy.scopes := NonEmptyVec_new core_scope; perspective := perspective e;
  ownership := MkOwnershipPolicy (Policy.owners (ownership e)) grants {[Conversation]} (modification (ownership e));
  Policy.consent := Policy.consent e; use_policy := use_policy e; security := security e; derivation := derivation e;
|}.
Definition owner_grant (c : AccessCapability) : AudienceGrant := MkAudienceGrant AudienceOwner {[Conversation]} {[c]}.
Definition envelope : SemanticEnvelope := core_envelope [owner_grant Retrieve].

Definition first_node (t : NodeType) : Semantic.Node := MkNode (sample_id _) (sample_id _) t 1 None Canonical core_scope.
Definition first_node_revision (n : N) (name : string) : NodeRevision := {|
  nr_node_id := sample_id _; nr_revision := n;
  nr_temporal := MkBitemporalRange (open_ended 0) (CommitRange_current n);
  canonical_name := name; nr_attributes := ∅;
  nr_epistemic := MkEpistemicState BasisHypothesis Accepted ConflictNone LifecycleActive;
  nr_confidence := sample_confidence; nr_evidence := []; nr_envelope := envelope;
|}.
Definition goal_of_node : TypedMemoryMutation :=
  WriteGoal {|
    goal_header := {|
      mh_node_id := sample_id _; mh_revision := 1;
      mh_temporal := MkBitemporalRange (open_ended 0) (CommitRange_current 1);
      mh_epistemic := MkEpistemicState BasisHypothesis Proposed ConflictNone LifecycleActive;
      mh_confidence := sample_confidence; mh_evidence := []; mh_envelope := envelope |};
    goal_owner := sample_id _; goal_statement := "ship"; goal_status := GoalActive;
    horizon := Unspecified; related_nodes := [];
  |}.
Definition node_set (base : N) (creates : list Semantic.Node) (revisions : list NodeRevision)
    (typed : list TypedMemoryMutation) : SemanticMutationSet := {|
  mutation_id := sample_id _; Mutation.base_snapshot := MkSnapshotRef base; journal_refs := NonEmptyVec_new (sample_id _);
  observation_appends := []; episode_view_writes := []; node_creates := creates; node_writes := revisions;
  claim_creates := []; claim_writes := []; edge_creates := []; edge_writes := [];
  conflict_creates := []; conflict_writes := []; candidate_writes := [];
  typed_memory_writes := typed; derived_work := [];
|}.

Definition create_set : SemanticMutationSet := node_set 0 [first_node NodeEntity] [first_node_revision 1 "Riga"] [].
Definition revise_set : SemanticMutationSet := node_set 1 [] [first_node_revision 2 "Riga, Latvia"] [].
Definition recreate_set : SemanticMutationSet := node_set 1 [first_node NodeConcept] [first_node_revision 1 "Riga"] [].
Definition goal_set : SemanticMutationSet := node_set 0 [first_node NodeGoal] [first_node_revision 1 "ship"] [goal_of_node].

Definition core_after (s : State) (m : SemanticMutationSet) (key : string) : State := (commit_core s m key).1.
Definition core_receipt (s : State) (m : SemanticMutationSet) (key : string) : CommitReceipt :=
  value_of no_receipt (commit_core s m key).2.

Lemma core_acknowledged s m key :
  is_ok (commit_core s m key).2 = true → commit_core s m key = (core_after s m key, Ok (core_receipt s m key)).
Proof. unfold core_after, core_receipt. by destruct (commit_core s m key) as [s' [r|e]]. Qed.

Lemma empty_db_core : core_reachable empty_db.
Proof. by apply (core_new "db"). Qed.

Definition core_db : State := core_after empty_db create_set "k1".
Lemma core_db_reachable : core_reachable core_db.
Proof. apply core_committed, empty_db_core. Qed.

(** ** The theorems applied *)

Definition owner_text : string := hyphenated (MkUuid 1 eq_refl).
Definition core_owner (purpose_text : string) : Principal :=
  MkPrincipal owner_text ∅ owner_text {[owner_text]} purpose_text Private.

(** The owner reads a value whose envelope lets owners retrieve it. *)
Lemma envelope_grants_retrieval : ∃ g, retrieval envelope g.
Proof. exists (owner_grant Retrieve). repeat split; try by left. Qed.

Lemma core_access_exact_witness : granted envelope (core_owner "conversation").
Proof.
  apply (core_access_exact owner_text envelope (core_owner "conversation")); [exact envelope_grants_retrieval|].
  vm_compute. reflexivity.
Defined.

(** Another writer publishes between the reads and the write: the commit is refused
    and changes nothing.  Without it the commit is acknowledged. *)
Definition other_writes : list Write := [WObserve (RefSample.observation "w" "k9" "o") NoFailpoint].

Lemma refused_leaves_guard {A} (Q : State → Prop) (p c : State * Res A) (guard : State) :
  (let '(next, outcome) := p in Q next ∧ match outcome with Err _ => next = guard | Ok _ => c = (next, outcome) end) →
  is_ok p.2 = false → p.1 = guard.
Proof. destruct p as [next [r|e]]; [discriminate|]. by intros [_ Hp] _. Qed.

Lemma acknowledged_at_guard {A} (Q : State → Prop) (p c : State * Res A) (guard : State) :
  (let '(next, outcome) := p in Q next ∧ match outcome with Err _ => next = guard | Ok _ => c = (next, outcome) end) →
  is_ok p.2 = true → c = p.
Proof. destruct p as [next [r|e]]; [|discriminate]. by intros [_ Hp] _. Qed.

Lemma core_commits_are_atomic_witness :
  (commit_core_at core_db (run core_db []) (run (run core_db []) []) (run (run (run core_db []) []) other_writes) revise_set "k2").1 =
    run (run (run core_db []) []) other_writes ∧
  commit_core (run (run (run core_db []) []) []) revise_set "k2" =
    commit_core_at core_db (run core_db []) (run (run core_db []) []) (run (run (run core_db []) []) []) revise_set "k2".
Proof.
  split.
  - refine (refused_leaves_guard _ _ _ _
      (core_commits_are_atomic core_db [] [] other_writes revise_set "k2" (core_reachable_reachable _ core_db_reachable)) _).
    vm_compute. reflexivity.
  - refine (acknowledged_at_guard _ _ _ _
      (core_commits_are_atomic core_db [] [] [] revise_set "k2" (core_reachable_reachable _ core_db_reachable)) _).
    vm_compute. reflexivity.
Defined.

Lemma core_node_identity_witness :
  ∃ ex', existing_records (core_after core_db revise_set "k2") = Ok ex' ∧
    existing_identity ex' (sample_id "NodeId") Node "identity" = Ok (first_node NodeEntity).
Proof.
  destruct (core_node_identity core_db revise_set "k2" (core_after core_db revise_set "k2") (core_receipt core_db revise_set "k2"))
    as (ex & ex' & Hex & Hex' & Hid).
  - exact core_db_reachable.
  - apply core_acknowledged. vm_compute. reflexivity.
  - vm_compute. reflexivity.
  - exists ex'. split; [exact Hex'|].
    assert (existing_identity (value_of ∅ (existing_records core_db)) (sample_id "NodeId") Node "identity" = Ok (first_node NodeEntity)) as Hn
      by (vm_compute; reflexivity).
    rewrite Hex in Hn. cbn [value_of] in Hn. rewrite (Hid _ _ Hn). exact Hn.
Defined.

Lemma typed_memory_hides_node_witness :
  ∃ ex', existing_records (core_after empty_db goal_set "k1") = Ok ex' ∧
    is_ok (existing_identity ex' (sample_id "NodeId") Node "identity" : Res Semantic.Node) = false.
Proof.
  destruct (typed_memory_hides_node empty_db goal_set "k1" (core_after empty_db goal_set "k1") (core_receipt empty_db goal_set "k1")
    goal_of_node (sample_id _) 1) as (ex' & Hex' & Hid).
  - exact (core_reachable_reachable _ empty_db_core).
  - apply core_acknowledged. vm_compute. reflexivity.
  - vm_compute. reflexivity.
  - apply list_elem_of_lookup. by exists 0%nat.
  - reflexivity.
  - exists ex'. split; [exact Hex'|]. by rewrite Hid.
Defined.
