(* ===== verification/Hierarchy.v ===== *)
(** * Hierarchy views: the contracts (crate contextdb-hierarchy: types.rs, query.rs, error.rs)

    Confidences, generations and epochs, policy partitions, navigation items,
    memberships, proposals and generations, and the requests and answers of the
    query surface.  An array of 32 bytes is its list of bytes.  The digest of a
    partition uses BLAKE3 and the JSON text of its sets, which are parameters. *)

From S2P Require Import Prelude.
From S2P Require Import Ordering.
From S2P Require Import Bytes.
From S2P Require Import Format.
From S2P Require Import CoreBase.
From S2P Require Import Provenance.
From S2P Require Import Policy.
From S2P Require Import Identity.
From S2P Require Import Evidence.

(** ** The order of scopes *)

(** The derived order of a scope: the variant, its label, the identifier and the
    inheritance. *)
Definition scope_kind_rank (k : ScopeKind) : N * string :=
  match k with
  | ScopeWorkspace => (0, "") | ScopeMemorySpace => (1, "") | ScopeSubject => (2, "") | ScopeRelationship => (3, "")
  | ScopeProject => (4, "") | ScopeRepository => (5, "") | ScopeOrganisation => (6, "") | ScopeTeam => (7, "")
  | ScopeSession => (8, "") | ScopeTask => (9, "") | ScopePlace => (10, "") | ScopeTimeRegion => (11, "")
  | ScopeSecurityCompartment => (12, "") | ScopeDomain => (13, "") | ScopeOther label => (14, label)
  end%N.

Definition scope_kind_of (r : N * string) : ScopeKind :=
  match r.1 with
  | 0 => ScopeWorkspace | 1 => ScopeMemorySpace | 2 => ScopeSubject | 3 => ScopeRelationship
  | 4 => ScopeProject | 5 => ScopeRepository | 6 => ScopeOrganisation | 7 => ScopeTeam
  | 8 => ScopeSession | 9 => ScopeTask | 10 => ScopePlace | 11 => ScopeTimeRegion
  | 12 => ScopeSecurityCompartment | 13 => ScopeDomain | _ => ScopeOther r.2
  end%N.

Definition inheritance_rank (i : ScopeInheritance) : N := match i with Exact => 0 | Descendants => 1 end%N.
Definition inheritance_of (n : N) : ScopeInheritance := match n with 0%N => Exact | _ => Descendants end.

Abbreviation ScopeKey := ((N * string) * (ScopeId * N))%type.
Definition scope_key (s : ScopeRef) : ScopeKey :=
  (scope_kind_rank (scope_kind s), (scope_id s, inheritance_rank (inheritance s))).
Definition scope_of_key (k : ScopeKey) : ScopeRef :=
  MkScopeRef (scope_kind_of k.1) k.2.1 (inheritance_of k.2.2).

Lemma scope_of_key_key s : scope_of_key (scope_key s) = s.
Proof. destruct s as [[] i []]; reflexivity. Qed.
#[export] Instance scope_key_inj : Inj (=) (=) scope_key.
Proof. intros a b Hab. rewrite <- (scope_of_key_key a), <- (scope_of_key_key b). by rewrite Hab. Qed.
#[export] Instance ScopeRef_Countable : Countable ScopeRef.
Proof. apply (inj_countable' scope_key scope_of_key), scope_of_key_key. Defined.
#[export] Instance ScopeRef_Ordered : Ordered ScopeRef := Ordered_inj scope_key.

(** ** Confidence *)

Record Confidence := MkConfidence {
  basis_points : N;
  confidence_bound : (basis_points <=? 10000)%N = true;
}.

Lemma Confidence_inj a b : basis_points a = basis_points b → a = b.
Proof. destruct a as [x Hx], b as [y Hy]; simpl. intros ->. f_equal. apply (proof_irrel Hx Hy). Qed.
#[export] Instance basis_points_inj : Inj (=) (=) basis_points := Confidence_inj.
#[export] Instance Confidence_eq_dec : EqDecision Confidence.
Proof.
  refine (λ a b, cast_if (decide (basis_points a = basis_points b))).
  - by apply Confidence_inj.
  - by intros ->.
Defined.
#[export] Instance Confidence_Ordered : Ordered Confidence := Ordered_inj basis_points.

Lemma basis_points_le (c : Confidence) : (basis_points c ≤ 10000)%N.
Proof. apply N.leb_le, confidence_bound. Qed.

(** ** Generations *)

(** A [u64] that is not zero. *)
Record GenerationNumber := MkGenerationNumber {
  generation_value : N;
  generation_nonzero : (generation_value =? 0)%N = false;
}.

Lemma GenerationNumber_inj a b : generation_value a = generation_value b → a = b.
Proof. destruct a as [x Hx], b as [y Hy]; simpl. intros ->. f_equal. apply (proof_irrel Hx Hy). Qed.
#[export] Instance generation_value_inj : Inj (=) (=) generation_value := GenerationNumber_inj.
#[export] Instance GenerationNumber_eq_dec : EqDecision GenerationNumber.
Proof.
  refine (λ a b, cast_if (decide (generation_value a = generation_value b))).
  - by apply GenerationNumber_inj.
  - by intros ->.
Defined.

Abbreviation HierarchyEpoch := N.
Definition EPOCH_GENESIS : HierarchyEpoch := 0.

Abbreviation PolicyPartitionId := bytes.
Abbreviation HierarchyBranchId := bytes.

(** ** Navigation items *)

Inductive HierarchyItemId :=
  | ItemSemantic (id : NodeId)
  | ItemBranch (id : HierarchyBranchId).

(** The derived order: semantic items first, then by their content. *)
Definition item_key (i : HierarchyItemId) : N * (N * bytes) :=
  match i with
  | ItemSemantic id => (0, (id_value id, []))
  | ItemBranch id => (1, (0, id))
  end%N.
Definition item_of_key (k : N * (N * bytes)) : option HierarchyItemId :=
  match k with
  | (0%N, (n, _)) => id ← id_of _ n; Some (ItemSemantic id)
  | (_, (_, id)) => Some (ItemBranch id)
  end.

#[export] Instance item_key_inj : Inj (=) (=) item_key.
Proof. intros [i|b] [j|c]; simpl; intros [=]; f_equal; [by apply (inj id_value)|done]. Qed.
#[export] Instance HierarchyItemId_eq_dec : EqDecision HierarchyItemId.
Proof. solve_decision. Defined.
#[export] Instance HierarchyItemId_countable : Countable HierarchyItemId.
Proof. apply (inj_countable item_key item_of_key). intros [i|b]; simpl; [by rewrite id_of_value|done]. Defined.
#[export] Instance HierarchyItemId_Ordered : Ordered HierarchyItemId := Ordered_inj item_key.

(** ** Errors *)

Inductive HierarchyError :=
  | InvalidText (field reason : string)
  | InvalidConfidence (value : N)
  | InvalidGeneration
  | EmptyPolicyPartitions
  | InvalidPolicyPartition
  | UnknownPolicyPartition (item : HierarchyItemId) (partition : PolicyPartitionId)
  | DuplicateItem (item : HierarchyItemId)
  | ItemKeyMismatch
  | DuplicateMembership (parent child : HierarchyItemId)
  | UnknownItem (item : HierarchyItemId)
  | SelfMembership (item : HierarchyItemId)
  | CrossPartitionMembership
  | Cycle
  | RootMismatch
  | MissingRoot
  | MultiplePrimaryParents (item : HierarchyItemId)
  | ParentLimitExceeded (item : HierarchyItemId) (actual maximum : N)
  | MembershipBelowMinimum (item : HierarchyItemId) (actual minimum : N)
  | PrimarySelectionMismatch (item : HierarchyItemId)
  | InvalidValidity (commit : CommitSeq)
  | InvalidProvenance (reason : string)
  | Serialization
  | InvalidManifestDigest
  | ManifestMismatch
  | ViewUnavailable
  | GenerationUnavailable (commit : CommitSeq)
  | ActiveGenerationConflict
  | GenerationConflict (expected proposed : GenerationNumber)
  | ProfileRevisionRegression (active proposed : N)
  | ProfileRevisionReuse (revision : N)
  | StaleProposal (built_from required : CommitSeq)
  | DeletedDependency (id : NodeId)
  | DeletedLineageDependency (dependency : LineageNode)
  | SnapshotUnavailable (requested head : HierarchyEpoch)
  | StaleGeneration (covered requested : CommitSeq)
  | InvalidBudget (budget : string)
  | RouteUnavailable
  | StaleRoute
  | WorkspaceMismatch (view_id : HierarchyViewId) (workspace_id : WorkspaceId)
  | SequenceExhausted.

Abbreviation Result := (result HierarchyError).

Definition from_basis_points (value : N) : Result Confidence :=
  match (value <=? 10000)%N as b return (value <=? 10000)%N = b → Result Confidence with
  | false => λ _, Err (InvalidConfidence value)
  | true => λ H, Ok (MkConfidence value H)
  end eq_refl.

Definition Confidence_ZERO : Confidence := MkConfidence 0 eq_refl.
Definition Confidence_ONE : Confidence := MkConfidence 10000 eq_refl.

(** A number of basis points that is already at most 10000. *)
Definition confidence_of (value : N) : Confidence :=
  match from_basis_points value with Ok c => c | Err _ => Confidence_ONE end.

Definition combine (self other : Confidence) : Confidence :=
  let product := saturating_mul U32_MAX (basis_points self) (basis_points other) in
  let rounded := (saturating_add U32_MAX product 5000 / 10000)%N in
  confidence_of (N.min (default 10000%N (try_from_max U16_MAX rounded)) 10000).

Definition GenerationNumber_new (value : N) : Result GenerationNumber :=
  match (value =? 0)%N as b return (value =? 0)%N = b → Result GenerationNumber with
  | true => λ _, Err InvalidGeneration
  | false => λ H, Ok (MkGenerationNumber value H)
  end eq_refl.

(** The successor of a generation is not zero, so the constructor accepts it. *)
Definition GenerationNumber_checked_next (g : GenerationNumber) : Result GenerationNumber :=
  let? next := ok_or (checked_add U64_MAX (generation_value g) 1) SequenceExhausted in
  GenerationNumber_new next.

Definition HierarchyEpoch_checked_next (e : HierarchyEpoch) : Result HierarchyEpoch :=
  ok_or (checked_add U64_MAX e 1) SequenceExhausted.

Definition MAX_TEXT_BYTES : N := 1024.
Definition validate_text (value field : string) : Result unit :=
  if trim_is_empty value then Err (InvalidText field "must not be blank")
  else if (MAX_TEXT_BYTES <? str_len value)%N then Err (InvalidText field "exceeds 1024 UTF-8 bytes")
  else Ok tt.

Lemma GenerationNumber_new_Ok v g : GenerationNumber_new v = Ok g ↔ generation_value g = v.
Proof.
  unfold GenerationNumber_new. generalize (eq_refl (v =? 0)%N). generalize (v =? 0)%N at 2 3.
  intros [] Hv; split.
  - done.
  - intros <-. by rewrite generation_nonzero in Hv.
  - by intros [= <-].
  - intros Hg. f_equal. apply GenerationNumber_inj. by rewrite Hg.
Qed.

#[export] Instance GenerationNumber_countable : Countable GenerationNumber.
Proof.
  apply (inj_countable generation_value (λ v, match GenerationNumber_new v with Ok g => Some g | Err _ => None end)).
  intros g. by rewrite (proj2 (GenerationNumber_new_Ok _ g) eq_refl).
Defined.
#[export] Instance GenerationNumber_Ordered : Ordered GenerationNumber := Ordered_inj generation_value.

(** ** Policy partitions *)

Record PolicyPartition := MkPolicyPartition {
  pp_id : PolicyPartitionId;
  pp_workspace_id : WorkspaceId;
  pp_memory_spaces : gset MemorySpaceId;
  pp_scopes : gset ScopeRef;
  pp_policy_revision : CommitSeq;
}.
#[export] Instance PolicyPartition_eq_dec : EqDecision PolicyPartition.
Proof. solve_decision. Defined.

(** The JSON texts that the digest of a partition covers. *)
Class PartitionJson := {
  #[global] memory_spaces_json :: Serialize (gset MemorySpaceId);
  #[global] scopes_json :: Serialize (gset ScopeRef);
}.

(** [serde_json::to_vec] with its error converted. *)
Definition to_vec `{Serialize T} (v : T) : Result bytes := ok_or (to_json v) Serialization.

Section partitions.
Context `{Blake3} `{!PartitionJson}.

Definition partition_digest (workspace_id : WorkspaceId) (memory_spaces : gset MemorySpaceId)
    (scopes : gset ScopeRef) (policy_revision : CommitSeq) : Result PolicyPartitionId :=
  let? spaces := to_vec memory_spaces in
  let? scopes := to_vec scopes in
  Ok (blake3_hash (str_bytes "contextdb-hierarchy-policy-partition-v1" ++ [x00]
    ++ as_bytes (as_uuid workspace_id) ++ to_be_bytes 8 policy_revision
    ++ spaces ++ [x00] ++ scopes)).

Definition PolicyPartition_new (workspace_id : WorkspaceId) (memory_spaces : gset MemorySpaceId)
    (scopes : gset ScopeRef) (policy_revision : CommitSeq) : Result PolicyPartition :=
  let? id := partition_digest workspace_id memory_spaces scopes policy_revision in
  Ok (MkPolicyPartition id workspace_id memory_spaces scopes policy_revision).

Definition validate_digest (p : PolicyPartition) : Result unit :=
  let? expected := partition_digest (pp_workspace_id p) (pp_memory_spaces p) (pp_scopes p) (pp_policy_revision p) in
  if bool_decide (expected ≠ pp_id p) then Err InvalidPolicyPartition else Ok tt.

Definition HierarchyBranchId_derive (view_id : HierarchyViewId) (partition : PolicyPartitionId) (stable_key : string)
    : Result HierarchyBranchId :=
  try? validate_text stable_key "hierarchy_branch.stable_key" in
  Ok (blake3_hash (str_bytes "contextdb-hierarchy-branch-v1" ++ [x00]
    ++ as_bytes (as_uuid view_id) ++ partition ++ str_bytes stable_key)).
End partitions.

(** The policy evaluation that a caller presents. *)
Record AuthorizationSnapshot := MkAuthorizationSnapshot {
  auth_workspace_id : WorkspaceId;
  auth_partitions : gset PolicyPartitionId;
  auth_evaluated_at : CommitSeq;
}.
Definition allows (a : AuthorizationSnapshot) (partition : PolicyPartitionId) : bool :=
  bool_decide (partition ∈ auth_partitions a).

(** ** Views, nodes and memberships *)

Inductive HierarchyKind :=
  | Autobiographical
  | PeopleRelationships
  | TopicsKnowledge
  | KindTime
  | GoalsOpenLoops
  | Places
  | Procedures
  | Projects
  | KnowledgeSources
  | KindDomain (label : string).
#[export] Instance HierarchyKind_eq_dec : EqDecision HierarchyKind.
Proof. solve_decision. Defined.

Inductive AssignmentSource :=
  | ModelProposal
  | DeterministicCommunity
  | ScopeRelation
  | TypedRelation
  | AdapterStructure
  | SourceManualOverride.
#[export] Instance AssignmentSource_eq_dec : EqDecision AssignmentSource.
Proof. solve_decision. Defined.

Definition precedence (s : AssignmentSource) : N :=
  match s with
  | ModelProposal => 0
  | DeterministicCommunity => 1
  | ScopeRelation => 2
  | TypedRelation => 3
  | AdapterStructure => 4
  | SourceManualOverride => 5
  end.

Record AssignmentPolicy := MkAssignmentPolicy {
  minimum_confidence : Confidence;
  max_parents : option N;
  select_primary : bool;
}.
#[export] Instance AssignmentPolicy_eq_dec : EqDecision AssignmentPolicy.
Proof. solve_decision. Defined.
Definition AssignmentPolicy_default : AssignmentPolicy := MkAssignmentPolicy Confidence_ZERO None true.

Record HierarchyValidity := MkHierarchyValidity {
  hv_valid_time : option TimeRange;
  hv_transaction_time : CommitRange;
}.
#[export] Instance HierarchyValidity_eq_dec : EqDecision HierarchyValidity.
Proof. solve_decision. Defined.

Definition current_from (commit_seq : CommitSeq) : HierarchyValidity :=
  MkHierarchyValidity None (CommitRange_current commit_seq).

Definition visible_at (v : HierarchyValidity) (semantic_snapshot : SnapshotRef) (domain_time : option TimestampMicros)
    : bool :=
  CommitRange_contains (hv_transaction_time v) (snapshot_commit_seq semantic_snapshot)
  && is_none_or domain_time (λ instant, is_none_or (hv_valid_time v) (λ valid_time, TimeRange_contains valid_time instant)).

Record HierarchyProvenance := MkHierarchyProvenance {
  hp_source : AssignmentSource;
  hp_derivation : DerivationRef;
  hp_rationale : string;
}.
#[export] Instance HierarchyProvenance_eq_dec : EqDecision HierarchyProvenance.
Proof. solve_decision. Defined.

Record HierarchyNode := MkHierarchyNode {
  hn_id : HierarchyItemId;
  hn_label : string;
  hn_partition : PolicyPartitionId;
  hn_confidence : Confidence;
  hn_validity : HierarchyValidity;
  hn_provenance : HierarchyProvenance;
}.
#[export] Instance HierarchyNode_eq_dec : EqDecision HierarchyNode.
Proof. solve_decision. Defined.

Inductive MembershipRole :=
  | RolePrimary
  | RoleAlternative.
#[export] Instance MembershipRole_eq_dec : EqDecision MembershipRole.
Proof. solve_decision. Defined.

Definition role_rank (r : MembershipRole) : N := match r with RolePrimary => 0 | RoleAlternative => 1 end.

Record HierarchyMembership := MkHierarchyMembership {
  hm_parent : HierarchyItemId;
  hm_child : HierarchyItemId;
  hm_role : MembershipRole;
  hm_order_key : N;
  hm_confidence : Confidence;
  hm_validity : HierarchyValidity;
  hm_provenance : HierarchyProvenance;
}.
#[export] Instance HierarchyMembership_eq_dec : EqDecision HierarchyMembership.
Proof. solve_decision. Defined.

Record HierarchyProfile := MkHierarchyProfile {
  pr_id : HierarchyViewId;
  pr_workspace_id : WorkspaceId;
  pr_kind : HierarchyKind;
  pr_name : string;
  pr_profile_revision : N;
  pr_partitions : gmap PolicyPartitionId PolicyPartition;
  pr_assignment : AssignmentPolicy;
}.
#[export] Instance HierarchyProfile_eq_dec : EqDecision HierarchyProfile.
Proof. solve_decision. Defined.

(** ** Proposals and generations *)

Record HierarchyProposal := MkHierarchyProposal {
  hp_profile : HierarchyProfile;
  hp_generation : GenerationNumber;
  hp_expected_active : option GenerationNumber;
  hp_built_from : SnapshotRef;
  hp_roots : gset HierarchyItemId;
  hp_nodes : gmap HierarchyItemId HierarchyNode;
  hp_memberships : list HierarchyMembership;
  hp_build_provenance : HierarchyProvenance;
}.

Record BranchStatistics := MkBranchStatistics {
  direct_children : N;
  unique_descendants : N;
  leaf_descendants : N;
  max_depth : N;
  routes_from_roots : N;
}.
#[export] Instance BranchStatistics_eq_dec : EqDecision BranchStatistics.
Proof. solve_decision. Defined.

Record ValidatedHierarchyProposal := MkValidated {
  v_proposal : HierarchyProposal;
  v_digest : ContentDigest;
  v_statistics : gmap HierarchyItemId BranchStatistics;
}.

Record HierarchyGeneration := MkHierarchyGeneration {
  g_profile : HierarchyProfile;
  g_generation : GenerationNumber;
  g_built_from : SnapshotRef;
  g_published_epoch : HierarchyEpoch;
  g_roots : gset HierarchyItemId;
  g_nodes : gmap HierarchyItemId HierarchyNode;
  g_memberships : list HierarchyMembership;
  g_statistics : gmap HierarchyItemId BranchStatistics;
  g_manifest_digest : ContentDigest;
  g_build_provenance : HierarchyProvenance;
}.

Record HierarchyGenerationRef := MkGenerationRef {
  gr_view_id : HierarchyViewId;
  gr_generation : GenerationNumber;
  gr_published_epoch : HierarchyEpoch;
  gr_built_from : SnapshotRef;
  gr_manifest_digest : ContentDigest;
}.
#[export] Instance HierarchyGenerationRef_eq_dec : EqDecision HierarchyGenerationRef.
Proof. solve_decision. Defined.

Definition generation_reference (g : HierarchyGeneration) : HierarchyGenerationRef :=
  MkGenerationRef (pr_id (g_profile g)) (g_generation g) (g_published_epoch g) (g_built_from g) (g_manifest_digest g).

(** ** Maintenance events *)

Inductive InvalidationReason :=
  | SemanticRevision
  | AdapterStructureChanged
  | PolicyChanged
  | ReasonDeletion
  | SummaryStale
  | ReasonManualOverride
  | ReasonDomain (label : string).

Record HierarchyInvalidation := MkInvalidation {
  iv_view_id : HierarchyViewId;
  iv_workspace_id : WorkspaceId;
  iv_dirty_through : CommitSeq;
  iv_reason : InvalidationReason;
  iv_affected_items : gset HierarchyItemId;
}.

Record DeletionRecord := MkDeletionRecord {
  dr_workspace_id : WorkspaceId;
  dr_node_ids : gset NodeId;
  dr_lineage_dependencies : gset LineageNode;
  dr_effective_at : CommitSeq;
}.

Inductive HierarchySnapshotSelector :=
  | Latest
  | At (epoch : HierarchyEpoch).

(** ** Queries *)

Inductive FreshnessRequirement :=
  | RequireCurrent
  | AllowStale.
#[export] Instance FreshnessRequirement_eq_dec : EqDecision FreshnessRequirement.
Proof. solve_decision. Defined.

Record GenerationFreshness := MkFreshness {
  covered_through : CommitSeq;
  requested : CommitSeq;
  dirty_through : option CommitSeq;
  is_current : bool;
}.
#[export] Instance GenerationFreshness_eq_dec : EqDecision GenerationFreshness.
Proof. solve_decision. Defined.

Record RouteRequest := MkRouteRequest {
  rr_view_id : HierarchyViewId;
  rr_target : HierarchyItemId;
  rr_semantic_snapshot : SnapshotRef;
  rr_domain_time : option TimestampMicros;
  rr_max_routes : N;
  rr_max_depth : N;
  rr_freshness : FreshnessRequirement;
}.

Record HierarchyRoute := MkHierarchyRoute {
  rt_generation : HierarchyGenerationRef;
  rt_hierarchy_epoch : HierarchyEpoch;
  rt_deletion_epoch : HierarchyEpoch;
  rt_semantic_snapshot : SnapshotRef;
  rt_domain_time : option TimestampMicros;
  rt_items : list HierarchyItemId;
  rt_nodes : list HierarchyNode;
  rt_memberships : list HierarchyMembership;
  rt_confidence : Confidence;
  rt_freshness : GenerationFreshness;
  rt_integrity_digest : bytes;
}.

Record RouteMaterialization := MkRouteMaterialization {
  rm_routes : list HierarchyRoute;
  rm_truncated : bool;
  rm_freshness : GenerationFreshness;
}.

Record BeamTraversalRequest := MkBeamRequest {
  br_view_id : HierarchyViewId;
  br_semantic_snapshot : SnapshotRef;
  br_domain_time : option TimestampMicros;
  br_roots : gset HierarchyItemId;
  br_beam_width : N;
  br_max_depth : N;
  br_max_expansions : N;
  br_freshness : FreshnessRequirement;
}.

Record TraversalHit := MkTraversalHit {
  th_item : HierarchyItemId;
  th_path : list HierarchyItemId;
  th_confidence : Confidence;
  th_depth : N;
}.

Record BeamTraversalResult := MkBeamResult {
  bm_hits : list TraversalHit;
  bm_expansions : N;
  bm_truncated : bool;
  bm_freshness : GenerationFreshness;
  bm_generation : HierarchyGenerationRef;
}.

(** ** Confidence arithmetic *)

Lemma from_basis_points_Ok v c : from_basis_points v = Ok c ↔ basis_points c = v.
Proof.
  unfold from_basis_points. generalize (eq_refl (v <=? 10000)%N). generalize (v <=? 10000)%N at 2 3.
  intros [] Hv; split.
  - by intros [= <-].
  - intros Hc. f_equal. apply Confidence_inj. by rewrite Hc.
  - done.
  - intros <-. by rewrite confidence_bound in Hv.
Qed.

Lemma basis_points_confidence_of v : (v ≤ 10000)%N → basis_points (confidence_of v) = v.
Proof.
  intros Hv. unfold confidence_of. apply N.leb_le in Hv as Hb.
  by rewrite (proj2 (from_basis_points_Ok v (MkConfidence v Hb)) eq_refl).
Qed.

(** The product of two confidences, rounded to the nearest basis point. *)
Lemma basis_points_combine a b :
  basis_points (combine a b) = ((basis_points a * basis_points b + 5000) / 10000)%N.
Proof.
  pose proof (basis_points_le a). pose proof (basis_points_le b).
  assert (basis_points a * basis_points b ≤ 10000 * 10000)%N by (apply N.mul_le_mono; lia).
  unfold combine, saturating_mul, saturating_add, try_from_max.
  change U32_MAX with 4294967295%N. change U16_MAX with 65535%N.
  rewrite (N.min_r _ (basis_points a * basis_points b)), (N.min_r _ (_ + 5000)) by lia.
  assert ((basis_points a * basis_points b + 5000) / 10000 ≤ 10000)%N.
  { apply N.lt_succ_r, N.Div0.div_lt_upper_bound. lia. }
  rewrite (proj2 (N.leb_le _ _)) by lia. cbn [default from_option id]. rewrite basis_points_confidence_of; lia.
Qed.

Lemma combine_le a b : (basis_points (combine a b) ≤ basis_points a)%N ∧ (basis_points (combine a b) ≤ basis_points b)%N.
Proof.
  rewrite basis_points_combine. pose proof (basis_points_le a) as Ha. pose proof (basis_points_le b) as Hb.
  split; apply N.lt_succ_r, N.Div0.div_lt_upper_bound; nia.
Qed.

(** C38: confidences never leave the unit interval: their product is commutative, is
    monotone, has full confidence as its unit and none as its zero, never exceeds an
    operand, and is the exact product of the two fractions up to half a basis point. *)
Theorem combine_is_rounded_product a b c :
  (basis_points (combine a b) ≤ 10000)%N ∧
  combine a b = combine b a ∧ combine Confidence_ONE a = a ∧ combine Confidence_ZERO a = Confidence_ZERO ∧
  kle (combine a b) a ∧ (kle a c → kle (combine a b) (combine c b)) ∧
  (10000 * basis_points (combine a b) ≤ basis_points a * basis_points b + 5000)%N ∧
  (basis_points a * basis_points b < 10000 * basis_points (combine a b) + 5000)%N.
Proof.
  pose proof (basis_points_le a) as Ha. pose proof (basis_points_le b) as Hb.
  assert (∀ x y : Confidence, kle x y ↔ (basis_points x ≤ basis_points y)%N) as Hkle.
  { intros x y. unfold kle. cbn. apply N.compare_le_iff. }
  pose proof (N.div_mod' (basis_points a * basis_points b + 5000) 10000) as Hdiv.
  pose proof (N.mod_lt (basis_points a * basis_points b + 5000) 10000 ltac:(done)) as Hmod.
  split_and!.
  - apply basis_points_le.
  - apply Confidence_inj. by rewrite !basis_points_combine, N.mul_comm.
  - apply Confidence_inj. rewrite basis_points_combine. cbn [basis_points Confidence_ONE].
    symmetry. apply (N.div_unique _ _ _ 5000); lia.
  - apply Confidence_inj. rewrite basis_points_combine. cbn [basis_points Confidence_ZERO]. by rewrite N.mul_0_l.
  - apply Hkle, combine_le.
  - intros Hac%Hkle. apply Hkle. rewrite !basis_points_combine. by apply N.Div0.div_le_mono, N.add_le_mono_r, N.mul_le_mono_r.
  - rewrite basis_points_combine. apply N.Div0.mul_div_le.
  - rewrite basis_points_combine. set (q := (_ / _)%N) in *. set (r := (_ mod _)%N) in *. lia.
Qed.
