(* ===== verification/HierValidate.v ===== *)
(** * Hierarchy views: validation (crate contextdb-hierarchy: validation.rs, and
      [verify_manifest] of types.rs)

    The checks of a build proposal, the topological order by Kahn's algorithm and
    the statistics of the branches.  [validate_proposal] keeps the order of the
    source's checks.  The canonical JSON text of a proposal is a parameter. *)

From S2P Require Import Prelude.
From S2P Require Import Ordering.
From S2P Require Import Bytes.
From S2P Require Import Format.
From S2P Require Import CoreBase.
From S2P Require Import Provenance.
From S2P Require Import Policy.
From S2P Require Import Identity.
From S2P Require Import Evidence.
From S2P Require Import Hierarchy.

Abbreviation Adjacency := (gmap HierarchyItemId (list HierarchyItemId)).
Abbreviation Counts := (gmap HierarchyItemId N).

(** ** Topological order *)

Abbreviation OrderState := (Counts * gset HierarchyItemId * list HierarchyItemId)%type.

(** [BTreeSet::pop_first]. *)
Definition pop_first (ready : gset HierarchyItemId) : option (HierarchyItemId * gset HierarchyItemId) :=
  match bt_elements ready with
  | [] => None
  | item :: _ => Some (item, ready ∖ {[item]})
  end.

(** One child of the item that was taken: its count goes down, and at zero it is
    ready. *)
Definition release_child (st : Counts * gset HierarchyItemId) (child : HierarchyItemId)
    : Result (Counts * gset HierarchyItemId) :=
  let '(remaining, ready) := st in
  let? count := ok_or (remaining !! child) (UnknownItem child) in
  let count := (count - 1)%N in
  Ok (<[child := count]> remaining, if (count =? 0)%N then {[child]} ∪ ready else ready).

Definition order_step (adjacency : Adjacency) (st : OrderState) : OrderState + Result (list HierarchyItemId) :=
  let '(remaining, ready, ordered) := st in
  match pop_first ready with
  | None => inr (Ok ordered)
  | Some (item, ready) =>
      match adjacency !! item with
      | None => inl (remaining, ready, ordered ++ [item])
      | Some children =>
          match try_fold release_child (remaining, ready) children with
          | Ok (remaining, ready) => inl (remaining, ready, ordered ++ [item])
          | Err e => inr (Err e)
          end
      end
  end.

Definition initial_counts (adjacency : Adjacency) (incoming : Counts) : Counts :=
  map_imap (λ item _, Some (default 0%N (incoming !! item))) adjacency.
Definition initial_ready (remaining : Counts) : gset HierarchyItemId :=
  list_to_set (omap (λ e : HierarchyItemId * N, if (e.2 =? 0)%N then Some e.1 else None) (bt_entries remaining)).

(** Each item is taken at most once when the counts are those of the edges, so
    one step more than there are items suffices. *)
Definition topological_order (adjacency : Adjacency) (incoming : Counts) : Result (list HierarchyItemId) :=
  let remaining := initial_counts adjacency incoming in
  match loop_nat (S (size adjacency)) (order_step adjacency) (remaining, initial_ready remaining, []) with
  | inl _ => Err Cycle
  | inr (Err e) => Err e
  | inr (Ok ordered) => if negb (length ordered =? size adjacency)%nat then Err Cycle else Ok ordered
  end.

(** ** Branch statistics *)

Definition add_route (route_count : N) (routes : Counts) (child : HierarchyItemId) : Counts :=
  <[child := saturating_add U64_MAX (default 0%N (routes !! child)) route_count]> routes.
Definition spread_routes (adjacency : Adjacency) (routes : Counts) (item : HierarchyItemId) : Counts :=
  let route_count := default 0%N (routes !! item) in
  foldl (add_route route_count) routes (default [] (adjacency !! item)).
Definition route_counts (adjacency : Adjacency) (roots : gset HierarchyItemId) (topological : list HierarchyItemId)
    : Counts :=
  let routes : Counts := (λ _, 0%N) <$> adjacency in
  let routes := foldl (λ (m : Counts) root, <[root := 1%N]> m) routes (bt_elements roots) in
  foldl (spread_routes adjacency) routes topological.

(** [Iterator::max] with [unwrap_or(0)]. *)
Definition max_or_zero (l : list N) : N := foldl N.max 0%N l.
Definition add_depth (adjacency : Adjacency) (longest : Counts) (item : HierarchyItemId) : Counts :=
  let depth :=
    max_or_zero ((λ child, saturating_add U32_MAX (default 0%N (longest !! child)) 1)
      <$> default [] (adjacency !! item)) in
  <[item := depth]> longest.
Definition longest_downward_path (adjacency : Adjacency) (topological : list HierarchyItemId) : Counts :=
  foldl (add_depth adjacency) ∅ (rev topological).

(** The stack is a list with its top at the head. *)
Abbreviation ClosureState := (gset HierarchyItemId * gset HierarchyItemId * list HierarchyItemId)%type.

Definition closure_step (adjacency : Adjacency) (st : ClosureState)
    : ClosureState + (gset HierarchyItemId * gset HierarchyItemId) :=
  let '(descendants, leaves, stack) := st in
  match stack with
  | [] => inr (descendants, leaves)
  | current :: stack =>
      if bool_decide (current ∈ descendants) then inl (descendants, leaves, stack)
      else
      let descendants := {[current]} ∪ descendants in
      match adjacency !! current with
      | Some (child :: children) => inl (descendants, leaves, rev (child :: children) ++ stack)
      | _ => inl (descendants, {[current]} ∪ leaves, stack)
      end
  end.

(** Every edge is pushed at most once, and those of the start once more. *)
Definition edge_total (adjacency : Adjacency) : nat := sum_list (length <$> bt_values adjacency).
Definition closure_fuel (adjacency : Adjacency) : nat := S (edge_total adjacency + edge_total adjacency).

Definition closure (adjacency : Adjacency) (item : HierarchyItemId)
    : gset HierarchyItemId * gset HierarchyItemId :=
  match loop_nat (closure_fuel adjacency) (closure_step adjacency) (∅, ∅, rev (default [] (adjacency !! item))) with
  | inr r => r
  | inl (descendants, leaves, _) => (descendants, leaves)
  end.

Definition u64_or_max (n : nat) : N := default U64_MAX (try_from_max U64_MAX (N.of_nat n)).

Definition branch_entry (adjacency : Adjacency) (routes longest : Counts) (item : HierarchyItemId)
    (children : list HierarchyItemId) : BranchStatistics :=
  let '(descendants, leaves) := closure adjacency item in
  MkBranchStatistics (u64_or_max (length children)) (u64_or_max (size descendants)) (u64_or_max (size leaves))
    (default 0%N (longest !! item)) (default 0%N (routes !! item)).

Definition compute_statistics (adjacency : Adjacency) (roots : gset HierarchyItemId)
    (topological : list HierarchyItemId) : gmap HierarchyItemId BranchStatistics :=
  let routes := route_counts adjacency roots topological in
  let longest := longest_downward_path adjacency topological in
  map_imap (λ item children, Some (branch_entry adjacency routes longest item children)) adjacency.

(** ** The parts of a proposal *)

Definition invalid_provenance (e : ValidationError) : HierarchyError := InvalidProvenance (ValidationError_to_string e).

Definition validate_provenance (p : HierarchyProvenance) : Result unit :=
  try? validate_text (hp_rationale p) "hierarchy_provenance.rationale" in
  map_err invalid_provenance (DerivationRef_validate (hp_derivation p)).

Definition validate_validity (v : HierarchyValidity) (built_from : SnapshotRef) : Result unit :=
  let invalid := InvalidValidity (snapshot_commit_seq built_from) in
  try? map_err (λ _, invalid) (CommitRange_validate (hv_transaction_time v)) in
  try? match hv_valid_time v with
       | Some valid_time => map_err (λ _, invalid) (TimeRange_validate valid_time)
       | None => Ok tt
       end in
  if negb (CommitRange_contains (hv_transaction_time v) (snapshot_commit_seq built_from)) then Err invalid else Ok tt.

Definition compare_memberships (left right : HierarchyMembership) : comparison :=
  then_with (cmp (hm_child left) (hm_child right))
  (then_with (cmp (role_rank (hm_role left)) (role_rank (hm_role right)))
  (then_with (cmp (precedence (hp_source (hm_provenance right))) (precedence (hp_source (hm_provenance left))))
  (then_with (cmp (hm_confidence right) (hm_confidence left))
  (then_with (cmp (hm_order_key left) (hm_order_key right))
  (cmp (hm_parent left) (hm_parent right)))))).

Definition canonicalize_memberships (memberships : list HierarchyMembership) : list HierarchyMembership :=
  sort_by compare_memberships memberships.

Definition validate_membership (m : HierarchyMembership) (p : HierarchyProposal) : Result unit :=
  if bool_decide (hm_parent m = hm_child m) then Err (SelfMembership (hm_parent m))
  else
  let? parent := ok_or (hp_nodes p !! hm_parent m) (UnknownItem (hm_parent m)) in
  let? child := ok_or (hp_nodes p !! hm_child m) (UnknownItem (hm_child m)) in
  if bool_decide (hn_partition parent ≠ hn_partition child) then Err CrossPartitionMembership
  else
  try? validate_validity (hm_validity m) (hp_built_from p) in
  validate_provenance (hm_provenance m).

(** One node of the loop over the nodes. *)
Definition validate_node (p : HierarchyProposal) (entry : HierarchyItemId * HierarchyNode) : Result unit :=
  let '(key, node) := entry in
  if bool_decide (key ≠ hn_id node) then Err ItemKeyMismatch
  else
  try? validate_text (hn_label node) "hierarchy_node.label" in
  if negb (bool_decide (is_Some (pr_partitions (hp_profile p) !! hn_partition node)))
  then Err (UnknownPolicyPartition (hn_id node) (hn_partition node))
  else
  try? validate_validity (hn_validity node) (hp_built_from p) in
  validate_provenance (hn_provenance node).

(** ** The loop over the memberships *)

Record EdgeState := MkEdgeState {
  seen_edges : gset (HierarchyItemId * HierarchyItemId);
  incoming : Counts;
  primary : gset HierarchyItemId;
  adjacency : Adjacency;
}.

Definition initial_edges (p : HierarchyProposal) : EdgeState :=
  MkEdgeState ∅ ∅ ∅ ((λ _, []) <$> hp_nodes p).

Definition add_membership (p : HierarchyProposal) (st : EdgeState) (m : HierarchyMembership) : Result EdgeState :=
  let minimum := minimum_confidence (pr_assignment (hp_profile p)) in
  try? validate_membership m p in
  if kltb (hm_confidence m) minimum
  then Err (MembershipBelowMinimum (hm_child m) (basis_points (hm_confidence m)) (basis_points minimum))
  else if bool_decide ((hm_parent m, hm_child m) ∈ seen_edges st)
  then Err (DuplicateMembership (hm_parent m) (hm_child m))
  else if bool_decide (hm_role m = RolePrimary) && bool_decide (hm_child m ∈ primary st)
  then Err (MultiplePrimaryParents (hm_child m))
  else
  let? children := ok_or (adjacency st !! hm_parent m) (UnknownItem (hm_parent m)) in
  Ok (MkEdgeState ({[(hm_parent m, hm_child m)]} ∪ seen_edges st)
    (<[hm_child m := (default 0 (incoming st !! hm_child m) + 1)%N]> (incoming st))
    (if bool_decide (hm_role m = RolePrimary) then {[hm_child m]} ∪ primary st else primary st)
    (<[hm_parent m := children ++ [hm_child m]]> (adjacency st))).

Definition check_parent_limit (maximum : option N) (incoming : Counts) : Result unit :=
  match maximum with
  | None => Ok tt
  | Some maximum =>
      if (maximum =? 0)%N then Err (InvalidBudget "assignment.max_parents")
      else for_each (λ e : HierarchyItemId * N,
        if (maximum <? e.2)%N then Err (ParentLimitExceeded e.1 e.2 maximum) else Ok tt) (bt_entries incoming)
  end.

Definition check_primary (selected : bool) (primary : gset HierarchyItemId) (incoming : Counts) : Result unit :=
  for_each (λ item, if negb (Bool.eqb (bool_decide (item ∈ primary)) selected)
                    then Err (PrimarySelectionMismatch item) else Ok tt) (bt_keys incoming).

(** [sort_unstable] of a total order. *)
Definition sort_children (adjacency : Adjacency) : Adjacency := sort_by cmp <$> adjacency.

Definition computed_roots {V} (nodes : gmap HierarchyItemId V) (incoming : Counts) : gset HierarchyItemId :=
  list_to_set (List.filter (λ item, negb (bool_decide (is_Some (incoming !! item)))) (bt_keys nodes)).

(** ** Canonical form *)

Record CanonicalProfile := MkCanonicalProfile {
  cpf_id : HierarchyViewId;
  cpf_workspace_id : WorkspaceId;
  cpf_kind : HierarchyKind;
  cpf_name : string;
  cpf_profile_revision : N;
  cpf_partitions : list PolicyPartition;
  cpf_assignment : AssignmentPolicy;
}.

Record CanonicalProposal := MkCanonicalProposal {
  cpr_profile : CanonicalProfile;
  cpr_generation : GenerationNumber;
  cpr_built_from : SnapshotRef;
  cpr_roots : list HierarchyItemId;
  cpr_nodes : list HierarchyNode;
  cpr_memberships : list HierarchyMembership;
  cpr_build_provenance : HierarchyProvenance;
}.

Definition canonical_profile (p : HierarchyProfile) : CanonicalProfile :=
  MkCanonicalProfile (pr_id p) (pr_workspace_id p) (pr_kind p) (pr_name p) (pr_profile_revision p)
    (bt_values (pr_partitions p)) (pr_assignment p).
Definition canonical_proposal (p : HierarchyProposal) : CanonicalProposal :=
  MkCanonicalProposal (canonical_profile (hp_profile p)) (hp_generation p) (hp_built_from p)
    (bt_elements (hp_roots p)) (bt_values (hp_nodes p)) (hp_memberships p) (hp_build_provenance p).

Section validation.
Context `{Blake3} `{!PartitionJson} `{!Serialize CanonicalProposal}.

Definition canonical_proposal_bytes (p : HierarchyProposal) : Result bytes := to_vec (canonical_proposal p).

(** One partition of the loop over the partitions. *)
Definition validate_partition (p : HierarchyProfile) (entry : PolicyPartitionId * PolicyPartition) : Result unit :=
  let '(key, partition) := entry in
  if bool_decide (key ≠ pp_id partition) || bool_decide (pp_workspace_id partition ≠ pr_workspace_id p)
  then Err InvalidPolicyPartition
  else
  try? validate_digest partition in
  for_each (λ scope, map_err invalid_provenance (ScopeRef_validate scope)) (bt_elements (pp_scopes partition)).

Definition validate_profile (p : HierarchyProfile) : Result unit :=
  try? validate_text (pr_name p) "hierarchy_profile.name" in
  if (pr_profile_revision p =? 0)%N
  then Err (InvalidText "hierarchy_profile.profile_revision" "must be greater than zero")
  else
  try? match pr_kind p with
       | KindDomain label => validate_text label "hierarchy_profile.kind"
       | _ => Ok tt
       end in
  if bool_decide (pr_partitions p = ∅) then Err EmptyPolicyPartitions
  else if bool_decide (max_parents (pr_assignment p) = Some 0%N) then Err (InvalidBudget "assignment.max_parents")
  else for_each (validate_partition p) (bt_entries (pr_partitions p)).

Definition manifest_digest (canonical : bytes) : ContentDigest :=
  MkContentDigest (blake3_hash (str_bytes "contextdb-hierarchy-generation-manifest-v1" ++ [x00] ++ canonical))
    (blake3_length_eqb _).

(** The checks before the loop over the memberships. *)
Definition validate_header (p : HierarchyProposal) : Result unit :=
  try? validate_profile (hp_profile p) in
  if existsb (λ partition, snapshot_commit_seq (hp_built_from p) <? pp_policy_revision partition)%N
      (bt_values (pr_partitions (hp_profile p)))
  then Err InvalidPolicyPartition
  else
  try? validate_provenance (hp_build_provenance p) in
  if bool_decide (hp_nodes p = ∅) && (negb (bool_decide (hp_roots p = ∅)) || negb (is_empty (hp_memberships p)))
  then Err RootMismatch
  else for_each (validate_node p) (bt_entries (hp_nodes p)).

Definition with_memberships (p : HierarchyProposal) (memberships : list HierarchyMembership) : HierarchyProposal :=
  MkHierarchyProposal (hp_profile p) (hp_generation p) (hp_expected_active p) (hp_built_from p) (hp_roots p)
    (hp_nodes p) memberships (hp_build_provenance p).

Definition validate_proposal (p : HierarchyProposal) : Result ValidatedHierarchyProposal :=
  try? validate_header p in
  let p := with_memberships p (canonicalize_memberships (hp_memberships p)) in
  let? st := try_fold (add_membership p) (initial_edges p) (hp_memberships p) in
  let assignment := pr_assignment (hp_profile p) in
  try? check_parent_limit (max_parents assignment) (incoming st) in
  try? check_primary (select_primary assignment) (primary st) (incoming st) in
  let adjacency := sort_children (adjacency st) in
  let? topological := topological_order adjacency (incoming st) in
  let roots := computed_roots (hp_nodes p) (incoming st) in
  if bool_decide (roots ≠ hp_roots p) then Err RootMismatch
  else if negb (bool_decide (hp_nodes p = ∅)) && bool_decide (roots = ∅) then Err MissingRoot
  else
  let statistics := compute_statistics adjacency (hp_roots p) topological in
  let? canonical := canonical_proposal_bytes p in
  let digest := manifest_digest canonical in
  if forallb (λ b, bool_decide (b = x00)) (digest_bytes digest) then Err InvalidManifestDigest
  else Ok (MkValidated p digest statistics).

(** [HierarchyGeneration::verify_manifest]. *)
Definition verify_manifest (g : HierarchyGeneration) : Result unit :=
  if (g_published_epoch g =? EPOCH_GENESIS)%N then Err ManifestMismatch
  else
  let? expected_active :=
    if (generation_value (g_generation g) =? 1)%N then Ok None
    else let? previous := GenerationNumber_new (generation_value (g_generation g) - 1) in Ok (Some previous) in
  let? validated := validate_proposal (MkHierarchyProposal (g_profile g) (g_generation g) expected_active
    (g_built_from g) (g_roots g) (g_nodes g) (g_memberships g) (g_build_provenance g)) in
  if bool_decide (v_digest validated ≠ g_manifest_digest g) || bool_decide (v_statistics validated ≠ g_statistics g)
  then Err ManifestMismatch
  else Ok tt.
End validation.
