(* ===== verification/HierBuild.v ===== *)
(** * Hierarchy views: the proposal builder (crate contextdb-hierarchy: builder.rs)

    The builder keeps the strongest candidate of every edge, orders the parents of
    each child and marks the first one as primary.  [add_node] changes the builder
    before it reports a duplicate, so it returns the builder beside its result. *)

From S2P Require Import Prelude.
From S2P Require Import Ordering.
From S2P Require Import Bytes.
From S2P Require Import CoreBase.
From S2P Require Import Provenance.
From S2P Require Import Hierarchy.
From S2P Require Import HierValidate.

Record AssignmentCandidate := MkCandidate {
  ac_parent : HierarchyItemId;
  ac_child : HierarchyItemId;
  ac_order_key : N;
  ac_confidence : Confidence;
  ac_validity : HierarchyValidity;
  ac_provenance : HierarchyProvenance;
}.

Record HierarchyProposalBuilder := MkBuilder {
  pb_profile : HierarchyProfile;
  pb_generation : GenerationNumber;
  pb_expected_active : option GenerationNumber;
  pb_built_from : SnapshotRef;
  pb_build_provenance : HierarchyProvenance;
  pb_nodes : gmap HierarchyItemId HierarchyNode;
  pb_candidates : list AssignmentCandidate;
}.

Definition Builder_new (profile : HierarchyProfile) (expected_active : option GenerationNumber)
    (built_from : SnapshotRef) (build_provenance : HierarchyProvenance) : Result HierarchyProposalBuilder :=
  let? generation :=
    match expected_active with
    | Some active => GenerationNumber_checked_next active
    | None => GenerationNumber_new 1
    end in
  Ok (MkBuilder profile generation expected_active built_from build_provenance ∅ []).

Definition add_node (b : HierarchyProposalBuilder) (node : HierarchyNode) : HierarchyProposalBuilder * Result unit :=
  let id := hn_id node in
  let b' := MkBuilder (pb_profile b) (pb_generation b) (pb_expected_active b) (pb_built_from b)
    (pb_build_provenance b) (<[id := node]> (pb_nodes b)) (pb_candidates b) in
  if bool_decide (is_Some (pb_nodes b !! id)) then (b', Err (DuplicateItem id)) else (b', Ok tt).

Definition add_candidate (b : HierarchyProposalBuilder) (candidate : AssignmentCandidate) : HierarchyProposalBuilder :=
  MkBuilder (pb_profile b) (pb_generation b) (pb_expected_active b) (pb_built_from b) (pb_build_provenance b)
    (pb_nodes b) (pb_candidates b ++ [candidate]).

(** ** The order of candidates *)

(** The derived orders of the mechanism and of the pipeline of a derivation. *)
Definition derivation_kind_rank (k : DerivationKind) : N :=
  match k with
  | ActorAssertion => 0
  | DeterministicProjector => 1
  | ModelExtraction => 2
  | Consolidation => 3
  | HumanAdjudication => 4
  | Provenance.Migration => 5
  | Import => 6
  end.
Definition pipeline_key (p : PipelineIdentity) : string * (string * string) :=
  (pipeline_name p, (pipeline_version p, pipeline_schema_version p)).

Definition compare_validity (left right : HierarchyValidity) : comparison :=
  then_with (cmp (commit_start (hv_transaction_time left)) (commit_start (hv_transaction_time right)))
  (then_with (cmp (commit_end (hv_transaction_time left)) (commit_end (hv_transaction_time right)))
  (then_with (cmp (time_start <$> hv_valid_time left) (time_start <$> hv_valid_time right))
  (cmp (hv_valid_time left ≫= time_end) (hv_valid_time right ≫= time_end)))).

Definition compare_candidate (left right : AssignmentCandidate) : comparison :=
  let l := hp_derivation (ac_provenance left) in
  let r := hp_derivation (ac_provenance right) in
  then_with (cmp (precedence (hp_source (ac_provenance right))) (precedence (hp_source (ac_provenance left))))
  (then_with (cmp (ac_confidence right) (ac_confidence left))
  (then_with (cmp (ac_order_key left) (ac_order_key right))
  (then_with (cmp (ac_parent left) (ac_parent right))
  (then_with (cmp (ac_child left) (ac_child right))
  (then_with (compare_validity (ac_validity left) (ac_validity right))
  (then_with (cmp (hp_rationale (ac_provenance left)) (hp_rationale (ac_provenance right)))
  (then_with (cmp (derivation_id l) (derivation_id r))
  (then_with (cmp (derivation_kind_rank (derivation_kind l)) (derivation_kind_rank (derivation_kind r)))
  (then_with (cmp (derivation_actor l) (derivation_actor r))
  (then_with (cmp (model_call l) (model_call r))
  (then_with (cmp (pipeline_key (pipeline l)) (pipeline_key (pipeline r)))
  (cmp (inputs l) (inputs r))))))))))))).

(** [Ordering::is_le]. *)
Definition is_le (c : comparison) : bool := match c with Gt => false | _ => true end.

(** ** [finish] *)

Abbreviation Strongest := (gmap (HierarchyItemId * HierarchyItemId) AssignmentCandidate).

Definition keep_strongest (minimum : Confidence) (strongest : Strongest) (candidate : AssignmentCandidate) : Strongest :=
  if kltb (ac_confidence candidate) minimum then strongest
  else
  let edge := (ac_parent candidate, ac_child candidate) in
  match strongest !! edge with
  | Some current =>
      if is_le (compare_candidate current candidate) then strongest else <[edge := candidate]> strongest
  | None => <[edge := candidate]> strongest
  end.
Definition strongest_by_edge (minimum : Confidence) (candidates : list AssignmentCandidate) : Strongest :=
  foldl (keep_strongest minimum) ∅ candidates.

Definition group_by_child (candidates : list AssignmentCandidate) : gmap HierarchyItemId (list AssignmentCandidate) :=
  foldl (λ m c, <[ac_child c := default [] (m !! ac_child c) ++ [c]]> m) ∅ candidates.

Definition membership_of (select_primary : bool) (index : nat) (c : AssignmentCandidate) : HierarchyMembership :=
  MkHierarchyMembership (ac_parent c) (ac_child c)
    (if (index =? 0)%nat && select_primary then RolePrimary else RoleAlternative)
    (ac_order_key c) (ac_confidence c) (ac_validity c) (ac_provenance c).

(** The memberships of one child. *)
Definition assign_child (policy : AssignmentPolicy) (candidates : list AssignmentCandidate) : list HierarchyMembership :=
  let candidates := sort_by compare_candidate candidates in
  let candidates := match max_parents policy with
                    | Some maximum => take (N.to_nat maximum) candidates
                    | None => candidates
                    end in
  imap (membership_of (select_primary policy)) candidates.

Definition compare_built (left right : HierarchyMembership) : comparison :=
  then_with (cmp (hm_child left) (hm_child right))
  (then_with (cmp (role_rank (hm_role left)) (role_rank (hm_role right)))
  (cmp (hm_parent left) (hm_parent right))).

Definition built_memberships (policy : AssignmentPolicy) (candidates : list AssignmentCandidate) : list HierarchyMembership :=
  let strongest := strongest_by_edge (minimum_confidence policy) candidates in
  let by_child := group_by_child (bt_values strongest) in
  sort_by compare_built (mjoin (assign_child policy <$> bt_values by_child)).

Definition finish (b : HierarchyProposalBuilder) : HierarchyProposal :=
  let memberships := built_memberships (pr_assignment (pb_profile b)) (pb_candidates b) in
  let children : gset HierarchyItemId := list_to_set (hm_child <$> memberships) in
  let roots := list_to_set (List.filter (λ item, negb (bool_decide (item ∈ children))) (bt_keys (pb_nodes b))) in
  MkHierarchyProposal (pb_profile b) (pb_generation b) (pb_expected_active b) (pb_built_from b) roots (pb_nodes b)
    memberships (pb_build_provenance b).
