(* ===== verification/HierDag.v ===== *)
(** * Hierarchy views: the order and the statistics of a DAG

    Kahn's algorithm on counts that agree with the edges, and the statistics of
    the branches: descendants, leaves, longest paths and numbers of routes. *)

From S2P Require Import Prelude.
From S2P Require Import Ordering.
From S2P Require Import Bytes.
From S2P Require Import Hierarchy.
From S2P Require Import HierValidate.

(** ** Generic lemmas *)

Definition occurs `{EqDecision A} (x : A) (l : list A) : nat := length (filter (x =.) l).

Section occurs.
Context `{EqDecision A}.
Implicit Types (x : A) (l : list A).

Lemma occurs_nil x : occurs x [] = 0%nat.
Proof. done. Qed.
Lemma occurs_cons x y l : occurs x (y :: l) = ((if decide (x = y) then 1 else 0) + occurs x l)%nat.
Proof. unfold occurs. rewrite filter_cons. by destruct (decide (x = y)). Qed.
Lemma occurs_app x l1 l2 : occurs x (l1 ++ l2) = (occurs x l1 + occurs x l2)%nat.
Proof. unfold occurs. by rewrite filter_app, length_app. Qed.
Lemma occurs_Permutation x l1 l2 : l1 ≡ₚ l2 → occurs x l1 = occurs x l2.
Proof. intros Hl. unfold occurs. by rewrite Hl. Qed.
Lemma occurs_pos x l : (0 < occurs x l)%nat ↔ x ∈ l.
Proof.
  induction l as [|y l IH]; [rewrite elem_of_nil; split; [|done]; rewrite occurs_nil; lia|].
  rewrite occurs_cons, elem_of_cons. destruct (decide (x = y)); rewrite <- IH; split; intros; try lia; tauto.
Qed.
Lemma occurs_zero x l : x ∉ l → occurs x l = 0%nat.
Proof. rewrite <- occurs_pos. lia. Qed.
Lemma occurs_NoDup x l : NoDup l → x ∈ l → occurs x l = 1%nat.
Proof.
  induction 1 as [|y l Hy Hl IH]; [by intros ?%elem_of_nil|]. rewrite elem_of_cons, occurs_cons.
  destruct (decide (x = y)) as [->|Hne]; [by rewrite occurs_zero|]. intros [?|Hx]; [done|]. by rewrite IH.
Qed.
End occurs.

(** A list sorted by a relation that repeats an element relates it to itself. *)
Lemma sorted_repeats `{EqDecision A} (R : relation A) l : StronglySorted R l → ¬ NoDup l → ∃ x, R x x.
Proof.
  induction 1 as [|x l Hl IH Hx]; intros Hnd; [by destruct Hnd; constructor|].
  destruct (decide (x ∈ l)) as [Hin|Hnin].
  - exists x. by eapply Forall_forall in Hx.
  - apply IH. intros Hnd'. apply Hnd. by constructor.
Qed.

(** ** The graph of an adjacency map *)

Definition edge (adj : Adjacency) (a b : HierarchyItemId) : Prop := ∃ l, adj !! a = Some l ∧ b ∈ l.
Definition acyclic (adj : Adjacency) : Prop := ∀ a, ¬ tc (edge adj) a a.
Definition closed (adj : Adjacency) : Prop := ∀ a b, edge adj a b → is_Some (adj !! b).

Definition children (adj : Adjacency) (items : list HierarchyItemId) : list HierarchyItemId :=
  mjoin ((λ i, default [] (adj !! i)) <$> items).

(** The counts of the algorithm are the numbers of edges into each item. *)
Definition counts_edges (adj : Adjacency) (incoming : Counts) : Prop :=
  ∀ x, is_Some (adj !! x) → default 0%N (incoming !! x) = N.of_nat (occurs x (children adj (bt_keys adj))).

Lemma elem_of_children adj items x : x ∈ children adj items ↔ ∃ a, a ∈ items ∧ edge adj a x.
Proof.
  unfold children. rewrite list_elem_of_join. setoid_rewrite list_elem_of_fmap. split.
  - intros (l & Hx & a & -> & Ha). exists a. split; [done|]. destruct (adj !! a) as [l|] eqn:Hl; [by exists l|].
    by apply elem_of_nil in Hx.
  - intros (a & Ha & l & Hl & Hx). exists l. split; [done|]. exists a. by rewrite Hl.
Qed.

Lemma children_app adj l1 l2 : children adj (l1 ++ l2) = children adj l1 ++ children adj l2.
Proof. unfold children. by rewrite fmap_app, join_app. Qed.
Lemma children_one adj x l : adj !! x = Some l → children adj [x] = l.
Proof. intros Hl. unfold children. simpl. by rewrite Hl, app_nil_r. Qed.
Lemma children_Permutation adj l1 l2 : l1 ≡ₚ l2 → children adj l1 ≡ₚ children adj l2.
Proof. intros Hl. unfold children. by rewrite Hl. Qed.

Lemma bt_keys_NoDup `{Countable K, Ordered K} {V} (m : gmap K V) : NoDup (bt_keys m).
Proof. unfold bt_keys. rewrite bt_entries_Permutation. apply NoDup_fst_map_to_list. Qed.
Lemma length_bt_keys `{Countable K, Ordered K} {V} (m : gmap K V) : length (bt_keys m) = size m.
Proof. unfold bt_keys. by rewrite length_fmap, length_bt_entries. Qed.

Section part.
Context (adj : Adjacency) (part : list HierarchyItemId).
Hypothesis part_NoDup : NoDup part.
Hypothesis part_keys : ∀ x, x ∈ part → is_Some (adj !! x).

Lemma part_rest : ∃ rest, bt_keys adj ≡ₚ part ++ rest.
Proof.
  apply submseteq_Permutation, NoDup_submseteq; [done|]. intros x Hx. by apply elem_of_bt_keys, part_keys.
Qed.
Lemma part_length : (length part ≤ size adj)%nat.
Proof. destruct part_rest as [rest Hrest]. rewrite <- length_bt_keys, Hrest, length_app. lia. Qed.
Lemma part_occurs x : (occurs x (children adj part) ≤ occurs x (children adj (bt_keys adj)))%nat.
Proof.
  destruct part_rest as [rest Hrest]. rewrite (occurs_Permutation x (children adj (bt_keys adj)) (children adj part ++ children adj rest)).
  - rewrite occurs_app. lia.
  - rewrite <- children_app. by apply children_Permutation.
Qed.
Lemma part_complete a x :
  occurs x (children adj (bt_keys adj)) = occurs x (children adj part) → edge adj a x → a ∈ part.
Proof.
  intros Heq Hax. destruct part_rest as [rest Hrest].
  rewrite (occurs_Permutation x _ _ (children_Permutation adj _ _ Hrest)), children_app, occurs_app in Heq.
  assert (a ∈ bt_keys adj) as Ha by (apply elem_of_bt_keys; destruct Hax as (l & Hl & _); by exists l).
  rewrite Hrest in Ha. apply elem_of_app in Ha as [Ha|Ha]; [done|]. exfalso.
  assert (x ∈ children adj rest) as Hx%occurs_pos by (apply elem_of_children; eauto). lia.
Qed.
End part.

(** ** Kahn's algorithm *)

Lemma release_children cs rem ready :
  (∀ c, c ∈ cs → is_Some (rem !! c)) →
  ∃ rem' ready', try_fold release_child (rem, ready) cs = Ok (rem', ready') ∧
    (∀ x, rem' !! x = (λ v, v - N.of_nat (occurs x cs))%N <$> rem !! x) ∧
    (∀ x, x ∈ ready' ↔ x ∈ ready ∨ (x ∈ cs ∧ rem' !! x = Some 0%N)).
Proof.
  revert rem ready; induction cs as [|c cs IH]; intros rem ready Hcs; cbn [try_fold].
  { exists rem, ready. split_and!; [done| |set_solver]. intros x. destruct (rem !! x); simpl; [|done]. by rewrite N.sub_0_r. }
  destruct (Hcs c ltac:(by left)) as [v Hv]. unfold release_child at 1. rewrite Hv. cbn [ok_or result_bind].
  destruct (IH (<[c := (v - 1)%N]> rem) (if (v - 1 =? 0)%N then {[c]} ∪ ready else ready)) as (rem' & ready' & Hf & Hrem & Hready).
  { intros d Hd. destruct (decide (c = d)) as [->|Hne]; [rewrite lookup_insert_eq; eauto|].
    rewrite lookup_insert_ne by done. apply Hcs. by right. }
  exists rem', ready'. split_and!; [done| |].
  - intros x. rewrite Hrem, occurs_cons. destruct (decide (x = c)) as [->|Hne].
    + rewrite lookup_insert_eq, Hv. simpl. f_equal. lia.
    + by rewrite lookup_insert_ne by done.
  - intros x. rewrite Hready, elem_of_cons.
    assert (rem' !! c = Some (v - 1 - N.of_nat (occurs c cs))%N) as Hc by (by rewrite Hrem, lookup_insert_eq).
    destruct (N.eqb_spec (v - 1) 0) as [H0|H0]; [rewrite elem_of_union, elem_of_singleton|].
    + split; [intros [[->|?]|[? ?]]|intros [?|[[->|?] ?]]]; try tauto.
      right. split; [tauto|]. rewrite Hc. f_equal. lia.
    + split; [tauto|]. intros [?|[[->|?] Hx]]; [tauto| |tauto].
      right. split; [|done]. apply occurs_pos. rewrite Hc in Hx. injection Hx. lia.
Qed.

Lemma pop_first_None ready : pop_first ready = None ↔ ready = ∅.
Proof.
  unfold pop_first. destruct (bt_elements ready) as [|x l] eqn:Hl; split; try done.
  - intros _. apply set_eq. intros y. rewrite <- bt_elements_elem, Hl. set_solver.
  - intros ->. assert (x ∈ bt_elements (∅ : gset HierarchyItemId)) as Hx by (rewrite Hl; by left).
    apply bt_elements_elem in Hx. set_solver.
Qed.
Lemma pop_first_Some ready x ready' : pop_first ready = Some (x, ready') → x ∈ ready ∧ ready' = ready ∖ {[x]}.
Proof.
  unfold pop_first. destruct (bt_elements ready) as [|y l] eqn:Hl; [done|]. intros [= -> <-]. split; [|done].
  apply bt_elements_elem. rewrite Hl. by left.
Qed.

Section order.
Context (adj : Adjacency) (incoming : Counts).
Hypothesis adj_closed : closed adj.
Hypothesis adj_counts : counts_edges adj incoming.

Definition total (x : HierarchyItemId) : nat := occurs x (children adj (bt_keys adj)).

(** Parents come before their children. *)
Definition parents_first (order : list HierarchyItemId) : Prop :=
  ∀ l1 x l2 a, order = l1 ++ x :: l2 → edge adj a x → a ∈ l1.

Record order_invariant (st : OrderState) : Prop := {
  ordered_NoDup : NoDup st.2;
  ordered_keys : ∀ x, x ∈ st.2 → is_Some (adj !! x);
  ordered_first : parents_first st.2;
  remaining_exact : ∀ x, st.1.1 !! x = (λ _, N.of_nat (total x - occurs x (children adj st.2))) <$> adj !! x;
  ready_exact : ∀ x, x ∈ st.1.2 ↔ x ∉ st.2 ∧ st.1.1 !! x = Some 0%N;
}.

Lemma initial_order_invariant :
  order_invariant (initial_counts adj incoming, initial_ready (initial_counts adj incoming), []).
Proof.
  assert (∀ x, initial_counts adj incoming !! x = (λ _, N.of_nat (total x)) <$> adj !! x) as Hinit.
  { intros x. unfold initial_counts. rewrite map_lookup_imap. destruct (adj !! x) as [l|] eqn:Hl; [|done]. simpl.
    f_equal. apply adj_counts. eauto. }
  split; cbn [fst snd].
  - constructor.
  - by intros x ?%elem_of_nil.
  - intros l1 x l2 a Hl. by destruct l1.
  - intros x. rewrite Hinit. unfold children. simpl. by rewrite Nat.sub_0_r.
  - intros x. unfold initial_ready. rewrite elem_of_list_to_set, list_elem_of_omap. split.
    + intros ([y v] & Hy%bt_entries_elem & Hx). cbn in Hx. destruct (N.eqb_spec v 0) as [->|]; [|done].
      injection Hx as ->. split; [apply not_elem_of_nil|done].
    + intros [_ Hx]. exists (x, 0%N). split; [by apply bt_entries_elem|done].
Qed.

Lemma parents_first_snoc order x :
  parents_first order → (∀ a, edge adj a x → a ∈ order) → parents_first (order ++ [x]).
Proof.
  intros Ho Hx l1 y l2 a Heq Hay. destruct l2 as [|z l2 _] using rev_ind.
  - apply app_inj_tail in Heq as [-> ->]. by apply Hx.
  - rewrite app_comm_cons, app_assoc in Heq. apply app_inj_tail in Heq as [-> _]. by apply (Ho l1 y l2).
Qed.

Lemma order_step_invariant st :
  order_invariant st →
  match order_step adj st with
  | inl st' => order_invariant st' ∧ (size adj - length st'.2 < size adj - length st.2)%nat
  | inr r => r = Ok st.2 ∧ st.1.2 = ∅
  end.
Proof.
  destruct st as [[rem ready] ordered]. intros [Hnd Hkeys Hfirst Hrem Hready]; cbn [fst snd] in *. unfold order_step.
  destruct (pop_first ready) as [[item ready']|] eqn:Hpop; [|by apply pop_first_None in Hpop].
  apply pop_first_Some in Hpop as [Hin ->]. apply Hready in Hin as [Hnin Hzero].
  rewrite Hrem in Hzero. destruct (adj !! item) as [cs|] eqn:Hcs; [|done]. injection Hzero as Hzero.
  assert (∀ c, c ∈ cs → is_Some (rem !! c)) as Hsome.
  { intros c Hc. rewrite Hrem. apply fmap_is_Some, (adj_closed item). by exists cs. }
  destruct (release_children cs rem (ready ∖ {[item]}) Hsome) as (rem' & ready' & -> & Hrem' & Hready').
  assert (NoDup (ordered ++ [item])) as Hnd'.
  { apply NoDup_app. split_and!; [done| |apply NoDup_singleton]. intros x Hx ->%list_elem_of_singleton. done. }
  assert (∀ x, x ∈ ordered ++ [item] → is_Some (adj !! x)) as Hkeys'.
  { intros x [Hx| ->%list_elem_of_singleton]%elem_of_app; [by apply Hkeys|eauto]. }
  assert (∀ a, edge adj a item → a ∈ ordered) as Hparents.
  { intros a. apply part_complete; [done..|]. fold (total item).
    pose proof (part_occurs adj ordered Hnd Hkeys item). unfold total in *. lia. }
  pose proof (part_length adj _ Hnd' Hkeys') as Hlen. rewrite length_app in Hlen. cbn in Hlen.
  split; [|cbn [snd]; rewrite length_app; cbn; lia].
  split; cbn [fst snd]; [done|done|by apply parents_first_snoc| |].
  - intros x. rewrite Hrem', Hrem. destruct (adj !! x) as [l|]; [|done]. simpl. f_equal.
    rewrite children_app, (children_one adj item cs Hcs), occurs_app. lia.
  - intros x. rewrite Hready', elem_of_difference, elem_of_singleton, Hready, not_elem_of_app, list_elem_of_singleton.
    assert (∀ n, rem !! x = Some n → x ∈ cs → n ≠ 0%N) as Hpos.
    { intros n Hn Hx ->. rewrite Hrem in Hn. destruct (adj !! x) as [l|] eqn:Hl; [|done]. injection Hn as Hn.
      pose proof (part_occurs adj _ Hnd' Hkeys' x) as Hle. rewrite children_app, occurs_app, (children_one adj item cs Hcs) in Hle.
      apply occurs_pos in Hx. unfold total in Hn. lia. }
    rewrite Hrem'. destruct (decide (x ∈ cs)) as [Hx|Hx].
    + split; [|tauto]. intros [[[? H0] ?]|[_ H0]]; [by destruct (Hpos _ H0 Hx)|]. split; [|done].
      assert (x ≠ item) as Hne.
      { intros ->. apply Hnin, Hparents. by exists cs. }
      split; [|done]. intros Hxo. apply fmap_Some in H0 as (n & Hn & H0).
      rewrite Hrem in Hn. destruct (adj !! x) as [l|] eqn:Hl; [|done].
      apply list_elem_of_split in Hxo as (l1 & l2 & Hsplit).
      apply Hnin. rewrite Hsplit. apply elem_of_app. left. eapply Hfirst; [exact Hsplit|]. by exists cs.
    + rewrite (occurs_zero _ _ Hx). destruct (rem !! x) as [n|]; simpl; [rewrite N.sub_0_r|]; tauto.
Qed.

Lemma order_loop :
  ∃ ordered, loop_nat (S (size adj)) (order_step adj)
      (initial_counts adj incoming, initial_ready (initial_counts adj incoming), []) = inr (Ok ordered) ∧
    ∃ rem, order_invariant (rem, ∅, ordered).
Proof.
  destruct (loop_nat_terminates (order_step adj) order_invariant (λ st, size adj - length st.2)%nat
    (S (size adj)) (initial_counts adj incoming, initial_ready (initial_counts adj incoming), [])) as [r Hr].
  - intros s s' HI Hs. pose proof (order_step_invariant _ HI) as Hstep. by rewrite Hs in Hstep.
  - apply initial_order_invariant.
  - cbn. lia.
  - rewrite Hr. eapply (loop_nat_invariant (order_step adj) order_invariant
      (λ r, ∃ ordered, r = Ok ordered ∧ ∃ rem, order_invariant (rem, ∅, ordered))) in Hr as (ordered & -> & HI); eauto using initial_order_invariant.
    intros s HI. pose proof (order_step_invariant _ HI) as Hstep. destruct (order_step adj s) as [s'|r']; [tauto|].
    destruct Hstep as [-> Hempty]. destruct s as [[rem ready] ordered]. cbn in *. subst ready. eauto.
Qed.

(** An item that was not taken has a parent that was not taken. *)
Lemma stuck_parent rem ordered x :
  order_invariant (rem, ∅, ordered) → is_Some (adj !! x) → x ∉ ordered →
  ∃ a, is_Some (adj !! a) ∧ a ∉ ordered ∧ edge adj a x.
Proof.
  intros [Hnd Hkeys _ Hrem Hready] [l Hl] Hx. cbn [fst snd] in *.
  destruct (part_rest adj ordered Hnd Hkeys) as [rest Hrest].
  assert (NoDup (ordered ++ rest)) as (_ & Hdisj & _)%NoDup_app by (rewrite <- Hrest; apply bt_keys_NoDup).
  assert (0 < occurs x (children adj rest))%nat as Hpos.
  { assert (rem !! x ≠ Some 0%N) as H0 by (intros H0; by apply (not_elem_of_empty (C := gset HierarchyItemId) x), Hready).
    rewrite Hrem, Hl in H0. cbn in H0. unfold total in H0.
    rewrite (occurs_Permutation x _ _ (children_Permutation adj _ _ Hrest)), children_app, occurs_app in H0.
    destruct (decide (occurs x (children adj rest) = 0%nat)) as [Hz|]; [|lia]. destruct H0. f_equal. lia. }
  apply occurs_pos, elem_of_children in Hpos as (a & Ha & Hax). exists a. split_and!; [|by intros ?%Hdisj|done].
  destruct Hax as (la & Hla & _). eauto.
Qed.
End order.

(** A finite set in which every item has a parent contains a cycle. *)
Lemma parents_cycle (R : relation HierarchyItemId) (U : gset HierarchyItemId) :
  U ≠ ∅ → (∀ x, x ∈ U → ∃ a, a ∈ U ∧ R a x) → ∃ x, tc R x x.
Proof.
  intros Hne Hparent.
  assert (∀ n, ∃ x l, length l = n ∧ (∀ y, y ∈ x :: l → y ∈ U) ∧ StronglySorted (tc R) (x :: l)) as Hchain.
  { induction n as [|n (x & l & Hlen & Hin & Hs)].
    - apply set_choose_L in Hne as [x Hx]. exists x, []. split_and!; [done| |by repeat constructor].
      intros y ->%list_elem_of_singleton. done.
    - destruct (Hparent x) as (a & Ha & Hax); [apply Hin; by left|]. exists a, (x :: l).
      split_and!; [by rewrite <- Hlen| |].
      + intros y [->|Hy]%elem_of_cons; auto.
      + constructor; [done|]. apply StronglySorted_inv in Hs as [_ Hx]. constructor; [by constructor|].
        eapply Forall_impl; [exact Hx|]. intros y Hxy. by eapply tc_l. }
  destruct (Hchain (size U)) as (x & l & Hlen & Hin & Hs). eapply sorted_repeats; [exact Hs|]. intros Hnd.
  assert (size (list_to_set (x :: l) : gset HierarchyItemId) ≤ size U)%nat as Hle.
  { apply subseteq_size. intros y. rewrite elem_of_list_to_set. apply Hin. }
  rewrite size_list_to_set in Hle by done. cbn in Hle. lia.
Qed.

(** A list that lists all parents first has no cycle. *)
Lemma parents_first_acyclic adj order :
  NoDup order → (∀ x, is_Some (adj !! x) → x ∈ order) → closed adj → parents_first adj order → acyclic adj.
Proof.
  intros Hnd Hall Hclosed Hfirst.
  assert (∀ l1 x l2, order = l1 ++ x :: l2 → ∀ a, tc (edge adj) a x → a ∈ l1) as Htc.
  { intros l1 x l2 Heq a Ha. revert l1 l2 Heq. induction Ha as [a x Hax|a b x Hab Hbx IH]; intros l1 l2 Heq.
    - by eapply Hfirst.
    - pose proof (IH _ _ Heq) as Hb. apply list_elem_of_split in Hb as (k1 & k2 & ->).
      apply elem_of_app. left. eapply (Hfirst k1 b (k2 ++ x :: l2)); [by rewrite Heq, <- app_assoc|done]. }
  intros x Hx. assert (x ∈ order) as Hin.
  { apply Hall. assert (∀ a b, tc (edge adj) a b → is_Some (adj !! a)) as Hkey; [|by eapply Hkey].
    intros a b Hab. destruct Hab as [? ? (l & Hl & _)|? ? ? (l & Hl & _) _]; eauto. }
  apply list_elem_of_split in Hin as (l1 & l2 & Heq). pose proof (Htc _ _ _ Heq _ Hx) as Hin.
  rewrite Heq in Hnd. apply NoDup_app in Hnd as (_ & Hd & _). by destruct (Hd x Hin); left.
Qed.

(** on counts that agree with the edges, the algorithm accepts exactly the
    acyclic graphs, with an order of all items in which parents come before their
    children; every other graph is refused as a cycle. *)
Theorem topological_order_exact (adj : Adjacency) (incoming : Counts) :
  closed adj → counts_edges adj incoming →
  (acyclic adj ∧ (∃ order, topological_order adj incoming = Ok order ∧ order ≡ₚ bt_keys adj ∧ parents_first adj order)) ∨
  (¬ acyclic adj ∧ topological_order adj incoming = Err Cycle).
Proof.
  intros Hclosed Hcounts. destruct (order_loop adj incoming Hclosed Hcounts) as (order & Hloop & rem & HI).
  unfold topological_order. rewrite Hloop. pose proof HI as [Hnd Hkeys Hfirst _ _]. cbn [fst snd] in *.
  destruct (part_rest adj order Hnd Hkeys) as [rest Hrest].
  pose proof (length_bt_keys adj) as Hsize. rewrite Hrest, length_app in Hsize.
  destruct (Nat.eqb_spec (length order) (size adj)) as [Heq|Hne]; cbn [negb].
  - left. assert (rest = []) as -> by (apply nil_length_inv; lia). rewrite app_nil_r in Hrest.
    split; [|by exists order]. eapply parents_first_acyclic; [exact Hnd| |done|done].
    intros x Hx. rewrite <- Hrest. by apply elem_of_bt_keys.
  - right. split; [|done]. intros Hac. destruct (parents_cycle (edge adj) (dom adj ∖ list_to_set order)) as [x Hx].
    + destruct rest as [|x rest]; [cbn in Hsize; lia|]. intros Hempty.
      assert (NoDup (order ++ x :: rest)) as (_ & Hd & _)%NoDup_app by (rewrite <- Hrest; apply bt_keys_NoDup).
      assert (is_Some (adj !! x)) as Hx by (apply elem_of_bt_keys; rewrite Hrest; set_solver).
      apply elem_of_dom in Hx. assert (x ∈ order) as Hxo by set_solver. destruct (Hd x Hxo). by left.
    + intros x [Hx Hxo]%elem_of_difference. rewrite elem_of_list_to_set in Hxo. apply elem_of_dom in Hx.
      destruct (stuck_parent adj rem order x HI Hx Hxo) as (a & Ha & Hao & Hax). exists a. split; [|done].
      apply elem_of_difference. split; [by apply elem_of_dom|by rewrite elem_of_list_to_set].
    + by apply (Hac x).
Qed.
