(* ===== verification/HierStats.v ===== *)
(** * Hierarchy views: the statistics of a DAG

    The statistics of a branch are what their names say: the descendants and
    leaves of the closure, the longest downward path, and the number of routes
    from the roots, the last two saturating at their width. *)

From S2P Require Import Prelude.
From S2P Require Import Ordering.
From S2P Require Import Bytes.
From S2P Require Import Hierarchy.
From S2P Require Import HierValidate.
From S2P Require Import HierDag.

Lemma filter_ext_in {A} (P Q : A → Prop) `{∀ x, Decision (P x), ∀ x, Decision (Q x)} (l : list A) :
  (∀ x, x ∈ l → P x ↔ Q x) → filter P l = filter Q l.
Proof.
  induction l as [|x l IH]; intros Hl; [done|]. rewrite !filter_cons, IH by (intros; apply Hl; by right).
  pose proof (Hl x ltac:(by left)) as Hx. repeat destruct (decide _); tauto.
Qed.

Lemma elem_of_rev {A} (x : A) l : x ∈ rev l ↔ x ∈ l.
Proof. rewrite !list_elem_of_In. symmetry. apply in_rev. Qed.

(** ** Descendants and leaves *)

Definition leaf (R : relation HierarchyItemId) (x : HierarchyItemId) : Prop := ¬ ∃ y, R x y.

Lemma leaf_lookup adj x : leaf (edge adj) x ↔ adj !! x = None ∨ adj !! x = Some [].
Proof.
  unfold leaf, edge. destruct (adj !! x) as [[|y l]|]; split; try tauto.
  - by intros _ (y & l & [= <-] & ?%elem_of_nil).
  - intros Hno. destruct Hno. exists y, (y :: l). split; [done|by left].
  - by intros [|].
  - by intros _ (y & l & ? & _).
Qed.

(** The edges that the search has not pushed yet. *)
Definition pending (adj : Adjacency) (seen : gset HierarchyItemId) : nat :=
  sum_list ((λ e, length e.2) <$> filter (λ e : HierarchyItemId * list HierarchyItemId, e.1 ∉ seen) (bt_entries adj)).

Lemma pending_empty adj : pending adj ∅ = edge_total adj.
Proof.
  unfold pending, edge_total, bt_values. rewrite filter_all by (apply Forall_forall; set_solver).
  by rewrite <- list_fmap_compose.
Qed.

Lemma pending_add adj seen x l :
  adj !! x = Some l → x ∉ seen → pending adj seen = (length l + pending adj ({[x]} ∪ seen))%nat.
Proof.
  intros Hl Hx. assert ((x, l) ∈ bt_entries adj) as (l1 & l2 & Heq)%list_elem_of_split by (by apply bt_entries_elem).
  assert (∀ e, e ∈ l1 ++ l2 → e.1 ≠ x) as Hne.
  { intros e He Hex. pose proof (bt_keys_NoDup adj) as Hnd. unfold bt_keys in Hnd. rewrite Heq in Hnd.
    rewrite <- Permutation_middle, fmap_cons, NoDup_cons in Hnd. destruct Hnd as [Hnin _]. apply Hnin.
    apply list_elem_of_fmap. exists e. by rewrite Hex. }
  unfold pending. rewrite Heq, !filter_app, !filter_cons. rewrite decide_True by done. rewrite decide_False by (cbn; set_solver).
  rewrite !fmap_app, fmap_cons.
  assert (∀ k : list (HierarchyItemId * list HierarchyItemId), (∀ e, e ∈ k → e.1 ≠ x) →
    filter (λ e : HierarchyItemId * list HierarchyItemId, e.1 ∉ {[x]} ∪ seen) k = filter (λ e, e.1 ∉ seen) k) as Hfilter.
  { intros k Hk. apply filter_ext_in. intros e He. pose proof (Hk e He). set_solver. }
  rewrite !Hfilter by (intros e He; apply Hne; set_solver).
  assert (∀ a b : list nat, sum_list (a ++ b) = (sum_list a + sum_list b)%nat) as Hsum.
  { intros a b. induction a as [|n a IH]; cbn; [done|]. rewrite IH. lia. }
  rewrite !Hsum. cbn. lia.
Qed.

Section closure.
Context (adj : Adjacency) (item : HierarchyItemId).

Record closure_invariant (st : ClosureState) : Prop := {
  cl_sound : ∀ x, x ∈ st.1.1 ∨ x ∈ st.2 → tc (edge adj) item x;
  cl_start : ∀ x, edge adj item x → x ∈ st.1.1 ∨ x ∈ st.2;
  cl_step : ∀ a x, a ∈ st.1.1 → edge adj a x → x ∈ st.1.1 ∨ x ∈ st.2;
  cl_leaves : ∀ x, x ∈ st.1.2 ↔ x ∈ st.1.1 ∧ leaf (edge adj) x;
}.

Lemma closure_initial : closure_invariant (∅, ∅, rev (default [] (adj !! item))).
Proof.
  assert (∀ x, x ∈ rev (default [] (adj !! item)) ↔ edge adj item x) as Hrev.
  { intros x. rewrite elem_of_rev. unfold edge.
    destruct (adj !! item) as [l|]; simpl; [naive_solver|]. rewrite elem_of_nil. naive_solver. }
  split; cbn [fst snd].
  - intros x [?|Hx]; [set_solver|]. by apply tc_once, Hrev.
  - intros x Hx. right. by apply Hrev.
  - set_solver.
  - set_solver.
Qed.

Definition closure_measure (st : ClosureState) : nat := (length st.2 + pending adj st.1.1)%nat.

Lemma closure_step_invariant st :
  closure_invariant st →
  match closure_step adj st with
  | inl st' => closure_invariant st' ∧ (closure_measure st' < closure_measure st)%nat
  | inr r => r = st.1 ∧ st.2 = []
  end.
Proof.
  destruct st as [[desc leaves] [|x stack]]; intros [Hsound Hstart Hstep Hleaves]; cbn [fst snd] in *; [done|].
  unfold closure_step. case_bool_decide as Hx.
  { split; [|unfold closure_measure; cbn; lia]. split; cbn [fst snd]; try done; set_solver. }
  destruct (adj !! x) as [[|c cs]|] eqn:Hadj.
  - assert (leaf (edge adj) x) as Hleaf by (apply leaf_lookup; tauto).
    split; [|unfold closure_measure; cbn; rewrite (pending_add adj desc x []) by done; cbn; lia].
    split; cbn [fst snd]; [set_solver|set_solver| |].
    + intros a y [->%elem_of_singleton|Ha]%elem_of_union Hay; [by destruct Hleaf; exists y|]. set_solver.
    + intros y. rewrite !elem_of_union, Hleaves, elem_of_singleton. split; [intros [->|]; tauto|]. tauto.
  - split.
    2:{ unfold closure_measure. cbn [fst snd]. rewrite (pending_add adj desc x (c :: cs)) by done.
        rewrite length_app, length_rev. cbn [length]. lia. }
    split; cbn [fst snd].
    + intros y Hy. assert (tc (edge adj) item x) as Hix by (apply Hsound; right; by left).
      rewrite elem_of_union, elem_of_app, elem_of_rev, elem_of_singleton in Hy.
      destruct Hy as [[->|Hy]|[Hy|Hy]]; [done|auto| |apply Hsound; right; by right].
      eapply tc_r; [exact Hix|]. by exists (c :: cs).
    + intros y Hy. destruct (Hstart y Hy) as [|[->|]%elem_of_cons]; set_solver.
    + intros a y [->%elem_of_singleton|Ha]%elem_of_union Hay.
      * right. apply elem_of_app. left. apply elem_of_rev.
        destruct Hay as (l & Hl & Hy). by simplify_eq.
      * destruct (Hstep a y Ha Hay) as [|[->|]%elem_of_cons]; set_solver.
    + intros y. rewrite Hleaves, elem_of_union, elem_of_singleton. split; [tauto|].
      intros [[->|Hy] Hl]; [|tauto]. apply leaf_lookup in Hl as [Hl|Hl]; by simplify_eq.
  - assert (leaf (edge adj) x) as Hleaf by (apply leaf_lookup; tauto).
    split.
    + split; cbn [fst snd]; [set_solver|set_solver| |].
      * intros a y [->%elem_of_singleton|Ha]%elem_of_union Hay; [by destruct Hleaf; exists y|]. set_solver.
      * intros y. rewrite !elem_of_union, Hleaves, elem_of_singleton. split; [intros [->|]; tauto|]. tauto.
    + unfold closure_measure. cbn [fst snd length].
      assert (pending adj ({[x]} ∪ desc) = pending adj desc) as ->; [|lia].
      unfold pending. do 2 f_equal. apply filter_ext_in. intros [k l] Hk%bt_entries_elem. cbn.
      assert (k ≠ x) by congruence. set_solver.
Qed.

Lemma closure_exact x :
  (x ∈ (closure adj item).1 ↔ tc (edge adj) item x) ∧
  (x ∈ (closure adj item).2 ↔ tc (edge adj) item x ∧ leaf (edge adj) x).
Proof.
  unfold closure.
  destruct (loop_nat_terminates (closure_step adj) closure_invariant closure_measure (closure_fuel adj)
    (∅, ∅, rev (default [] (adj !! item)))) as [r Hr].
  - intros s s' HI Hs. pose proof (closure_step_invariant _ HI) as Hstep. by rewrite Hs in Hstep.
  - apply closure_initial.
  - unfold closure_measure, closure_fuel. cbn [fst snd]. rewrite length_rev, pending_empty.
    assert (length (default [] (adj !! item)) ≤ edge_total adj)%nat; [|lia].
    destruct (adj !! item) as [l|] eqn:Hl; cbn; [|lia].
    rewrite <- pending_empty, (pending_add adj ∅ item l) by set_solver. lia.
  - rewrite Hr. destruct r as [desc leaves].
    eapply (loop_nat_invariant (closure_step adj) closure_invariant (λ r, closure_invariant (r, []))) in Hr;
      [|intros s HI; pose proof (closure_step_invariant _ HI) as Hstep; destruct (closure_step adj s); [tauto|]
       |apply closure_initial].
    + destruct Hr as [Hsound Hstart Hstep Hleaves]. cbn [fst snd] in *.
      assert (∀ y, y ∈ desc ↔ tc (edge adj) item y) as Hd; [|by rewrite Hleaves, Hd].
      intros y. split; [intros Hy; apply Hsound; tauto|].
      assert (∀ a b, edge adj a b → a = item ∨ a ∈ desc → b ∈ desc) as Hone.
      { intros a b Hab [->|Ha]; [destruct (Hstart b Hab)|destruct (Hstep a b Ha Hab)]; set_solver. }
      assert (∀ a b, tc (edge adj) a b → a = item ∨ a ∈ desc → b ∈ desc) as Hall; [|intros Hy; eauto].
      intros a b Hab. induction Hab; eauto.
    + destruct Hstep as [-> Hnil]. destruct s as [s1 s2]. cbn in *. by subst s2.
Qed.
End closure.

(** ** Paths *)

Fixpoint linked (R : relation HierarchyItemId) (p : list HierarchyItemId) : Prop :=
  match p with
  | [] => True
  | a :: rest => match rest with [] => True | b :: _ => R a b ∧ linked R rest end
  end.

(** The length of the longest path from an item. *)
Definition deepest (R : relation HierarchyItemId) (x : HierarchyItemId) (depth : N) : Prop :=
  (∃ p, linked R (x :: p) ∧ len p = depth) ∧ ∀ p, linked R (x :: p) → (len p ≤ depth)%N.

(** A path from a root to an item. *)
Definition is_route (R : relation HierarchyItemId) (roots : gset HierarchyItemId) (x : HierarchyItemId)
    (p : list HierarchyItemId) : Prop :=
  linked R p ∧ last p = Some x ∧ ∃ r, head p = Some r ∧ r ∈ roots.

Lemma linked_iff R S p : (∀ a b, R a b ↔ S a b) → linked R p ↔ linked S p.
Proof. intros HRS. induction p as [|a [|b p] IH]; [done..|]. cbn [linked] in *. rewrite HRS. tauto. Qed.

Lemma linked_cons R a b p : linked R (a :: b :: p) ↔ R a b ∧ linked R (b :: p).
Proof. done. Qed.

Lemma linked_snoc R p y : linked R (p ++ [y]) ↔ linked R p ∧ ∀ a, last p = Some a → R a y.
Proof.
  induction p as [|a [|b p] IH]; [simpl; naive_solver| |].
  - cbn. split; [intros [He _]; split; [done|by intros ? [= <-]]|]. intros [_ He]. split; [by apply He|done].
  - change ((a :: b :: p) ++ [y]) with (a :: b :: (p ++ [y])). rewrite !linked_cons.
    change (b :: (p ++ [y])) with ((b :: p) ++ [y]). rewrite IH. change (last (a :: b :: p)) with (last (b :: p)). tauto.
Qed.

Section sorted_graph.
Context (adj : Adjacency) (order : list HierarchyItemId).
Hypothesis adj_closed : closed adj.
Hypothesis order_keys : order ≡ₚ bt_keys adj.
Hypothesis order_first : parents_first adj order.

Lemma order_NoDup : NoDup order.
Proof. rewrite order_keys. apply bt_keys_NoDup. Qed.
Lemma elem_of_order x : x ∈ order ↔ is_Some (adj !! x).
Proof. rewrite order_keys. apply elem_of_bt_keys. Qed.

(** A child comes after its parent. *)
Lemma child_after pre x post c : order = pre ++ x :: post → edge adj x c → c ∈ post.
Proof.
  intros Heq Hxc. pose proof order_NoDup as Hnd. rewrite Heq in Hnd. apply NoDup_app in Hnd as (_ & Hd & _).
  assert (c ∈ order) as Hc by (by apply elem_of_order, (adj_closed x)). rewrite Heq in Hc.
  apply elem_of_app in Hc as [Hc|[->|Hc]%elem_of_cons]; [| |done]; exfalso.
  - apply list_elem_of_split in Hc as (k1 & k2 & ->).
    assert (x ∈ k1) as Hx by (apply (order_first k1 c (k2 ++ x :: post)); [by rewrite Heq, <- app_assoc|done]).
    apply (Hd x); [apply elem_of_app; by left|by left].
  - apply (Hd x); [by apply (order_first pre x post)|by left].
Qed.

(** ** The longest downward path *)

Lemma foldl_max acc l : foldl N.max acc l = N.max acc (foldl N.max 0%N l).
Proof. revert acc; induction l as [|n l IH]; intros acc; cbn [foldl]; [lia|]. rewrite IH, (IH (N.max 0 n)). lia. Qed.
Lemma max_or_zero_cons n l : max_or_zero (n :: l) = N.max n (max_or_zero l).
Proof. unfold max_or_zero. cbn [foldl]. rewrite foldl_max. lia. Qed.
Lemma max_or_zero_le n l : n ∈ l → (n ≤ max_or_zero l)%N.
Proof. induction 1 as [|? ? ? ? IH]; rewrite max_or_zero_cons; lia. Qed.
Lemma max_or_zero_in l : max_or_zero l = 0%N ∨ max_or_zero l ∈ l.
Proof.
  induction l as [|n l [IH|IH]]; [by left| |]; rewrite max_or_zero_cons.
  - right. rewrite IH, N.max_0_r. by left.
  - destruct (N.max_spec n (max_or_zero l)) as [[_ ->]|[_ ->]]; right; [by right|by left].
Qed.
Lemma max_or_zero_min m l : max_or_zero (N.min m <$> l) = N.min m (max_or_zero l).
Proof. induction l as [|n l IH]; [cbn; lia|]. rewrite fmap_cons, !max_or_zero_cons, IH. lia. Qed.

Lemma deepest_children x cs depths :
  default [] (adj !! x) = cs → Forall2 (deepest (edge adj)) cs depths → deepest (edge adj) x (max_or_zero ((λ d, (d + 1)%N) <$> depths)).
Proof.
  intros Hcs Hds. assert (∀ c, edge adj x c ↔ c ∈ cs) as Hedge.
  { intros c. unfold edge. destruct (adj !! x); simpl in Hcs; subst; [naive_solver|]. rewrite elem_of_nil. naive_solver. }
  split.
  - destruct (max_or_zero_in ((λ d, (d + 1)%N) <$> depths)) as [->|Hin]; [by exists []|].
    apply list_elem_of_fmap in Hin as (d & -> & Hd). apply list_elem_of_lookup in Hd as [i Hi].
    destruct (Forall2_lookup_r _ _ _ _ _ Hds Hi) as (c & Hc & ((p & Hp & <-) & _)).
    exists (c :: p). rewrite linked_cons, len_cons. split; [|lia]. split; [|done]. apply Hedge, list_elem_of_lookup. eauto.
  - intros [|c p]; [intros; apply N.le_0_l|]. rewrite linked_cons, Hedge, len_cons. intros [Hc Hp].
    apply list_elem_of_lookup in Hc as [i Hi]. destruct (Forall2_lookup_l _ _ _ _ _ Hds Hi) as (d & Hd & (_ & Hle)).
    specialize (Hle p Hp). assert ((d + 1)%N ∈ (λ d, (d + 1)%N) <$> depths) as Hin%max_or_zero_le; [|lia].
    apply list_elem_of_fmap. exists d. split; [done|]. apply list_elem_of_lookup. eauto.
Qed.

Lemma longest_exact post : ∀ pre, order = pre ++ post → ∀ x, x ∈ post →
  ∃ d, deepest (edge adj) x d ∧ longest_downward_path adj post !! x = Some (N.min U32_MAX d).
Proof.
  induction post as [|y post IH]; intros pre Heq x Hx; [by apply elem_of_nil in Hx|].
  assert (longest_downward_path adj (y :: post) = add_depth adj (longest_downward_path adj post) y) as ->.
  { unfold longest_downward_path. cbn [rev]. by rewrite foldl_app. }
  specialize (IH (pre ++ [y])). rewrite <- app_assoc in IH. specialize (IH Heq). unfold add_depth.
  destruct (decide (x = y)) as [->|Hne]; [|rewrite lookup_insert_ne by done; apply IH; by apply elem_of_cons in Hx as [?|?]].
  rewrite lookup_insert_eq.
  assert (∃ depths, Forall2 (deepest (edge adj)) (default [] (adj !! y)) depths ∧
    (λ c, default 0%N (longest_downward_path adj post !! c)) <$> default [] (adj !! y) = N.min U32_MAX <$> depths) as (ds & Hds & Hmap).
  { assert (∀ c, c ∈ default [] (adj !! y) → c ∈ post) as Hin.
    { intros c Hc. apply (child_after pre y post); [done|]. destruct (adj !! y) as [l|] eqn:Hl; [by exists l|by apply elem_of_nil in Hc]. }
    induction (default [] (adj !! y)) as [|c cs IHcs]; [by exists []|].
    destruct IHcs as (ds & Hds & Hmap); [intros; apply Hin; by right|].
    destruct (IH c) as (d & Hd & Hlk); [apply Hin; by left|]. exists (d :: ds). split; [by constructor|].
    rewrite !fmap_cons, Hlk, Hmap. done. }
  eexists. split; [by eapply deepest_children|]. f_equal. rewrite <- max_or_zero_min, <- list_fmap_compose. f_equal.
  assert ((λ c, saturating_add U32_MAX (default 0%N (longest_downward_path adj post !! c)) 1) <$> default [] (adj !! y)
    = (λ v, saturating_add U32_MAX v 1) <$> (N.min U32_MAX <$> ds)) as -> by (by rewrite <- Hmap, <- list_fmap_compose).
  rewrite <- list_fmap_compose. apply list_fmap_ext. intros i d _. unfold compose, saturating_add, U32_MAX. lia.
Qed.

(** ** Routes from the roots *)

Context (roots : gset HierarchyItemId).

(** A route whose last edge leaves one of the items [pre]. *)
Definition route_via (pre : list HierarchyItemId) (x : HierarchyItemId) (p : list HierarchyItemId) : Prop :=
  is_route (edge adj) roots x p ∧ (p = [x] ∨ ∃ q a, p = q ++ [a; x] ∧ a ∈ pre).

(** A duplicate-free list of exactly the wanted routes, whose length is counted. *)
Definition counted (P : list HierarchyItemId → Prop) (n : N) : Prop :=
  ∃ ps, NoDup ps ∧ (∀ p, p ∈ ps ↔ P p) ∧ n = N.min U64_MAX (len ps).

Lemma counted_ext P Q n : (∀ p, P p ↔ Q p) → counted P n → counted Q n.
Proof. intros HPQ (ps & Hnd & Hps & Hn). exists ps. split_and!; [done| |done]. intros p. by rewrite Hps. Qed.

Lemma counted_union P Q n m :
  (∀ p, P p → ¬ Q p) → counted P n → counted Q m → counted (λ p, P p ∨ Q p) (saturating_add U64_MAX n m).
Proof.
  intros Hdisj (ps & Hps & HP & ->) (qs & Hqs & HQ & ->). exists (ps ++ qs). split_and!.
  - apply NoDup_app. split_and!; [done| |done]. intros p Hp Hq. by apply (Hdisj p); [apply HP|apply HQ].
  - intros p. by rewrite elem_of_app, HP, HQ.
  - rewrite len_app. unfold saturating_add. lia.
Qed.

Lemma counted_snoc P n y : counted P n → counted (λ p, ∃ q, p = q ++ [y] ∧ P q) n.
Proof.
  intros (ps & Hps & HP & ->). exists ((λ q, q ++ [y]) <$> ps). split_and!.
  - apply NoDup_fmap_2; [|done]. intros q1 q2 Hq. by apply app_inj_tail in Hq as [-> _].
  - intros p. rewrite list_elem_of_fmap. by setoid_rewrite HP.
  - unfold len. by rewrite length_fmap.
Qed.

(** Before the items [pre] are spread, a route is a root or ends with their edges;
    the routes to the next item are complete. *)
Lemma route_via_next pre x post p : order = pre ++ x :: post → route_via pre x p ↔ is_route (edge adj) roots x p.
Proof.
  intros Heq. split; [by intros [? _]|]. intros Hr. split; [done|]. destruct Hr as (Hl & Hlast & _).
  destruct p as [|y p _] using rev_ind; [done|]. rewrite last_snoc in Hlast. injection Hlast as ->.
  destruct p as [|a p _] using rev_ind; [by left|]. right. exists p, a. rewrite <- app_assoc. split; [done|].
  apply linked_snoc in Hl as [_ Hl]. eapply order_first; [exact Heq|]. apply Hl. apply last_snoc.
Qed.

Lemma route_via_grow pre x post y p :
  order = pre ++ x :: post →
  route_via (pre ++ [x]) y p ↔ route_via pre y p ∨ (edge adj x y ∧ ∃ q, p = q ++ [y] ∧ is_route (edge adj) roots x q).
Proof.
  intros Heq. split.
  - intros [Hr [->|(q & a & -> & Ha)]]; [left; split; [done|by left]|].
    apply elem_of_app in Ha as [Ha| ->%list_elem_of_singleton]; [left; split; [done|right; eauto]|].
    right. destruct Hr as (Hl & _ & r & Hr & Hroot). change (q ++ [x; y]) with (q ++ [x] ++ [y]) in *.
    rewrite app_assoc in *. apply linked_snoc in Hl as [Hl Hxy]. split; [by apply Hxy, last_snoc|].
    exists (q ++ [x]). split; [done|]. split_and!; [done|apply last_snoc|]. exists r. split; [|done].
    by destruct q.
  - intros [[Hr [->|(q & a & -> & Ha)]]|(Hxy & q & -> & Hl & Hlast & r & Hr & Hroot)].
    + split; [done|by left].
    + split; [done|]. right. exists q, a. split; [done|]. apply elem_of_app. by left.
    + destruct q as [|z q _] using rev_ind; [done|]. rewrite last_snoc in Hlast. injection Hlast as ->. split.
      * split_and!; [|apply last_snoc|exists r; split; [by destruct q|done]]. apply linked_snoc. split; [done|].
        intros a. rewrite last_snoc. by intros [= <-].
      * right. exists q, x. rewrite <- app_assoc. split; [done|]. apply elem_of_app. right. by left.
Qed.

Lemma add_routes_lookup n cs (m : Counts) y :
  NoDup cs → default 0%N (foldl (add_route n) m cs !! y) =
    if decide (y ∈ cs) then saturating_add U64_MAX (default 0%N (m !! y)) n else default 0%N (m !! y).
Proof.
  revert m; induction cs as [|c cs IH]; intros m Hnd; cbn [foldl].
  { by rewrite decide_False by apply not_elem_of_nil. }
  apply NoDup_cons in Hnd as [Hc Hnd]. rewrite IH by done. unfold add_route.
  destruct (decide (y = c)) as [->|Hne].
  - rewrite decide_False by done. rewrite lookup_insert_eq, decide_True by (by left). done.
  - rewrite lookup_insert_ne by done. destruct (decide (y ∈ cs)).
    + by rewrite decide_True by (by right).
    + rewrite decide_False; [done|]. rewrite elem_of_cons. tauto.
Qed.

Hypothesis adj_NoDup : ∀ x l, adj !! x = Some l → NoDup l.

Lemma initial_routes x :
  counted (route_via [] x)
    (default 0%N (foldl (λ (m : Counts) root, <[root := 1%N]> m) ((λ _, 0%N) <$> adj) (bt_elements roots) !! x)).
Proof.
  assert (∀ l (m : Counts), default 0%N (foldl (λ (m : Counts) root, <[root := 1%N]> m) m l !! x)
    = if decide (x ∈ l) then 1%N else default 0%N (m !! x)) as Hfold.
  { induction l as [|r l IH]; intros m; cbn [foldl]; [by rewrite decide_False by apply not_elem_of_nil|].
    rewrite IH. destruct (decide (x ∈ l)); [by rewrite decide_True by (by right)|].
    destruct (decide (x = r)) as [->|]; [by rewrite lookup_insert_eq, decide_True by (by left)|].
    rewrite lookup_insert_ne, decide_False; [done| |done]. rewrite elem_of_cons. tauto. }
  rewrite Hfold, lookup_fmap.
  assert (∀ p, route_via [] x p ↔ p = [x] ∧ x ∈ roots) as Hvia.
  { intros p. split.
    - intros [(_ & _ & r & Hr & Hroot) [->|(q & a & _ & ?%elem_of_nil)]]; [|done]. by injection Hr as ->.
    - intros [-> Hx]. split; [|by left]. split_and!; [done..|]. by exists x. }
  eapply counted_ext; [intros p; symmetry; apply Hvia|]. destruct (decide (x ∈ bt_elements roots)) as [Hx|Hx].
  - apply bt_elements_elem in Hx. exists [[x]]. split_and!; [apply NoDup_singleton| |done].
    intros p. rewrite list_elem_of_singleton. tauto.
  - rewrite bt_elements_elem in Hx. exists []. split_and!; [constructor| |].
    + intros p. rewrite elem_of_nil. tauto.
    + by destruct (adj !! x).
Qed.

Lemma routes_exact pre : ∀ post, order = pre ++ post → ∀ x,
  counted (route_via pre x) (default 0%N (route_counts adj roots pre !! x)).
Proof.
  induction pre as [|y pre IH] using rev_ind; intros post Heq x; [apply initial_routes|].
  rewrite <- app_assoc in Heq. specialize (IH _ Heq). unfold route_counts. cbn zeta. rewrite foldl_app. cbn [foldl].
  change (foldl (spread_routes adj) _ pre) with (route_counts adj roots pre). unfold spread_routes.
  assert (NoDup (default [] (adj !! y))) as Hnd.
  { destruct (adj !! y) eqn:Hl; simpl; [by eapply adj_NoDup|constructor]. }
  rewrite add_routes_lookup by done.
  assert (∀ c, edge adj y c ↔ c ∈ default [] (adj !! y)) as Hedge.
  { intros c. unfold edge. destruct (adj !! y); simpl; [naive_solver|]. rewrite elem_of_nil. naive_solver. }
  eapply counted_ext; [intros p; symmetry; apply (route_via_grow _ _ _ _ _ Heq)|].
  destruct (decide (x ∈ default [] (adj !! y))) as [Hx|Hx]; rewrite <- Hedge in Hx.
  - eapply (counted_ext (λ p, route_via pre x p ∨ ∃ q, p = q ++ [x] ∧ is_route (edge adj) roots y q)); [tauto|].
    apply counted_union; [|apply IH|].
    + intros p [_ Hp] (q & -> & _ & Hlast & _). destruct Hp as [Hp|(q' & a & Hp & Ha)].
      * destruct q as [|? [|? ?]]; [by cbn in Hlast|done..].
      * change (q' ++ [a; x]) with (q' ++ [a] ++ [x]) in Hp. rewrite app_assoc in Hp. apply app_inj_tail in Hp as [-> _].
        rewrite last_snoc in Hlast. injection Hlast as ->.
        pose proof order_NoDup as Hno. rewrite Heq in Hno. apply NoDup_app in Hno as (_ & Hd & _). apply (Hd y Ha). by left.
    + apply counted_snoc. eapply counted_ext; [intros p; by apply (route_via_next pre y post)|]. apply IH.
  - eapply counted_ext; [|apply IH]. tauto.
Qed.

Lemma all_routes_exact x : counted (is_route (edge adj) roots x) (default 0%N (route_counts adj roots order !! x)).
Proof.
  eapply counted_ext; [|apply (routes_exact order []); by rewrite app_nil_r]. intros p. split; [by intros [? _]|].
  intros Hr. split; [done|]. destruct Hr as (Hl & Hlast & _).
  destruct p as [|y p _] using rev_ind; [done|]. rewrite last_snoc in Hlast. injection Hlast as ->.
  destruct p as [|a p _] using rev_ind; [by left|]. right. exists p, a. rewrite <- app_assoc. split; [done|].
  apply linked_snoc in Hl as [_ Hl]. destruct (Hl a) as (l & Ha & _); [apply last_snoc|]. apply elem_of_order. eauto.
Qed.
End sorted_graph.

(** ** The statistics *)

Lemma u64_or_max_min n : u64_or_max n = N.min U64_MAX (N.of_nat n).
Proof. unfold u64_or_max, try_from_max. destruct (N.leb_spec (N.of_nat n) U64_MAX); cbn [default from_option id]; lia. Qed.

(** on a sorted DAG without repeated edges the statistics of every item are
    exact: its children, the set of items reachable from it and the leaves among
    them, the length of its longest downward path, and the number of routes to it
    from the roots, each saturating at the width of its integer. *)
Theorem compute_statistics_exact (adj : Adjacency) roots order :
  closed adj → (∀ x l, adj !! x = Some l → NoDup l) → order ≡ₚ bt_keys adj → parents_first adj order →
  dom (compute_statistics adj roots order) = dom adj ∧
  ∀ x children, adj !! x = Some children →
  ∃ stats (descendants leaves : gset HierarchyItemId) (routes : list (list HierarchyItemId)) depth,
    compute_statistics adj roots order !! x = Some stats ∧
    direct_children stats = N.min U64_MAX (len children) ∧
    (∀ y, y ∈ descendants ↔ tc (edge adj) x y) ∧ unique_descendants stats = N.min U64_MAX (N.of_nat (size descendants)) ∧
    (∀ y, y ∈ leaves ↔ tc (edge adj) x y ∧ leaf (edge adj) y) ∧ leaf_descendants stats = N.min U64_MAX (N.of_nat (size leaves)) ∧
    deepest (edge adj) x depth ∧ max_depth stats = N.min U32_MAX depth ∧
    NoDup routes ∧ (∀ p, p ∈ routes ↔ is_route (edge adj) roots x p) ∧ routes_from_roots stats = N.min U64_MAX (len routes).
Proof.
  intros Hclosed Hnd Hkeys Hfirst. unfold compute_statistics. split.
  { apply set_eq. intros x. rewrite !elem_of_dom, map_lookup_imap. destruct (adj !! x); cbn; split; intros []; eauto; done. }
  intros x cs Hcs. assert (x ∈ order) as Hx by (rewrite Hkeys; apply elem_of_bt_keys; eauto).
  destruct (longest_exact adj order Hclosed Hkeys Hfirst order [] eq_refl x Hx) as (d & Hd & Hlong).
  destruct (all_routes_exact adj order Hkeys Hfirst roots Hnd x) as (ps & Hps & HP & Hn).
  eexists _, (closure adj x).1, (closure adj x).2, ps, d. rewrite map_lookup_imap, Hcs. cbn [option_bind mbind].
  split; [done|]. unfold branch_entry. destruct (closure adj x) as [ds ls] eqn:Hcl.
  pose proof (closure_exact adj x) as Hexact. rewrite Hcl in Hexact. cbn [fst snd direct_children unique_descendants leaf_descendants max_depth routes_from_roots] in *.
  split_and!; [apply u64_or_max_min|apply Hexact|apply u64_or_max_min|apply Hexact|apply u64_or_max_min|done| |done|done|done].
  by rewrite Hlong.
Qed.
