(* ===== verification/HierProposal.v ===== *)
(** * Hierarchy views: what validation accepts

    A declarative contract of a build proposal, and the theorem that
    [validate_proposal] accepts exactly the proposals that meet it.  The
    statistics of an accepted proposal are those of its memberships. *)

From S2P Require Import Prelude.
From S2P Require Import Ordering.
From S2P Require Import Bytes.
From S2P Require Import Format.
From S2P Require Import CoreBase.
From S2P Require Import Provenance.
From S2P Require Import Policy.
From S2P Require Import Identity.
From S2P Require Import Evidence.
From S2P Require Import Hierarchy.
From S2P Require Import HierValidate.
From S2P Require Import HierDag.
From S2P Require Import HierStats.

(** ** The contract *)

Definition text_ok (t : string) : Prop := trim_is_empty t = false ∧ (str_len t ≤ MAX_TEXT_BYTES)%N.

Definition validity_ok (v : HierarchyValidity) (built_from : SnapshotRef) : Prop :=
  (∀ e, commit_end (hv_transaction_time v) = Some e → (commit_start (hv_transaction_time v) < e)%N) ∧
  (∀ r e, hv_valid_time v = Some r → time_end r = Some e → (time_start r < e)%Z) ∧
  CommitRange_contains (hv_transaction_time v) (snapshot_commit_seq built_from) = true.

Definition provenance_ok (p : HierarchyProvenance) : Prop :=
  text_ok (hp_rationale p) ∧ DerivationRef_validate (hp_derivation p) = Ok tt.

Definition node_ok (p : HierarchyProposal) (key : HierarchyItemId) (n : HierarchyNode) : Prop :=
  key = hn_id n ∧ text_ok (hn_label n) ∧ is_Some (pr_partitions (hp_profile p) !! hn_partition n) ∧
  validity_ok (hn_validity n) (hp_built_from p) ∧ provenance_ok (hn_provenance n).

(** A membership connects two different nodes of one partition. *)
Definition membership_ok (p : HierarchyProposal) (m : HierarchyMembership) : Prop :=
  hm_parent m ≠ hm_child m ∧
  (∃ parent child, hp_nodes p !! hm_parent m = Some parent ∧ hp_nodes p !! hm_child m = Some child ∧
     hn_partition parent = hn_partition child) ∧
  validity_ok (hm_validity m) (hp_built_from p) ∧ provenance_ok (hm_provenance m) ∧
  kle (minimum_confidence (pr_assignment (hp_profile p))) (hm_confidence m).

Definition edge_of (m : HierarchyMembership) : HierarchyItemId * HierarchyItemId := (hm_parent m, hm_child m).
Definition is_primary (m : HierarchyMembership) : Prop := hm_role m = RolePrimary.
#[export] Instance is_primary_dec m : Decision (is_primary m) := decide (hm_role m = RolePrimary).
Definition primary_children (ms : list HierarchyMembership) : list HierarchyItemId := hm_child <$> filter is_primary ms.

(** The parent-child relation of a list of memberships. *)
Definition member (ms : list HierarchyMembership) (a b : HierarchyItemId) : Prop :=
  ∃ m, m ∈ ms ∧ hm_parent m = a ∧ hm_child m = b.

Section contract.
Context `{Blake3} `{!PartitionJson}.

Record profile_ok (p : HierarchyProfile) : Prop := {
  po_name : text_ok (pr_name p);
  po_revision : pr_profile_revision p ≠ 0%N;
  po_kind : ∀ label, pr_kind p = KindDomain label → text_ok label;
  po_partitions : pr_partitions p ≠ ∅;
  po_parents : max_parents (pr_assignment p) ≠ Some 0%N;
  po_each : ∀ key q, pr_partitions p !! key = Some q →
    key = pp_id q ∧ pp_workspace_id q = pr_workspace_id p ∧
    partition_digest (pp_workspace_id q) (pp_memory_spaces q) (pp_scopes q) (pp_policy_revision q) = Ok (pp_id q) ∧
    ∀ s, s ∈ pp_scopes q → ScopeRef_validate s = Ok tt;
}.

Record proposal_ok (p : HierarchyProposal) : Prop := {
  pk_profile : profile_ok (hp_profile p);
  pk_revisions : ∀ key q, pr_partitions (hp_profile p) !! key = Some q →
    (pp_policy_revision q ≤ snapshot_commit_seq (hp_built_from p))%N;
  pk_build : provenance_ok (hp_build_provenance p);
  pk_nodes : ∀ key n, hp_nodes p !! key = Some n → node_ok p key n;
  pk_memberships : ∀ m, m ∈ hp_memberships p → membership_ok p m;
  pk_edges : NoDup (edge_of <$> hp_memberships p);
  pk_parents : ∀ maximum x, max_parents (pr_assignment (hp_profile p)) = Some maximum →
    (N.of_nat (occurs x (hm_child <$> hp_memberships p)) ≤ maximum)%N;
  pk_primary : ∀ m, m ∈ hp_memberships p →
    occurs (hm_child m) (primary_children (hp_memberships p)) = if select_primary (pr_assignment (hp_profile p)) then 1%nat else 0%nat;
  pk_acyclic : ∀ x, ¬ tc (member (hp_memberships p)) x x;
  pk_roots : ∀ x, x ∈ hp_roots p ↔ is_Some (hp_nodes p !! x) ∧ ∀ m, m ∈ hp_memberships p → hm_child m ≠ x;
}.
End contract.

(** ** The single checks *)

Lemma validate_text_Ok t f : validate_text t f = Ok tt ↔ text_ok t.
Proof.
  unfold validate_text, text_ok. destruct (trim_is_empty t); [naive_solver|].
  destruct (N.ltb_spec MAX_TEXT_BYTES (str_len t)); split; try done. intros [_ ?]. lia.
Qed.

Lemma validate_provenance_Ok p : validate_provenance p = Ok tt ↔ provenance_ok p.
Proof. unfold validate_provenance, provenance_ok. by rewrite try_Ok, validate_text_Ok, map_err_Ok. Qed.

Lemma validate_validity_Ok v b : validate_validity v b = Ok tt ↔ validity_ok v b.
Proof.
  unfold validate_validity, validity_ok. cbn zeta. rewrite !try_Ok, map_err_Ok, CommitRange_validate_Ok.
  apply and_iff_compat_l. destruct (CommitRange_contains _ _); cbn [negb].
  - destruct (hv_valid_time v) as [r|]; [rewrite map_err_Ok, TimeRange_validate_Ok; naive_solver|naive_solver].
  - naive_solver.
Qed.

Lemma validate_node_Ok p key n : validate_node p (key, n) = Ok tt ↔ node_ok p key n.
Proof.
  unfold validate_node, node_ok. case_bool_decide as Hkey; [naive_solver|].
  rewrite try_Ok, validate_text_Ok. case_bool_decide as Hpart; cbn [negb]; [|naive_solver].
  rewrite try_Ok, validate_validity_Ok, validate_provenance_Ok. tauto.
Qed.

Lemma validate_membership_Ok p m :
  validate_membership m p = Ok tt ↔
  hm_parent m ≠ hm_child m ∧
  (∃ parent child, hp_nodes p !! hm_parent m = Some parent ∧ hp_nodes p !! hm_child m = Some child ∧
     hn_partition parent = hn_partition child) ∧
  validity_ok (hm_validity m) (hp_built_from p) ∧ provenance_ok (hm_provenance m).
Proof.
  unfold validate_membership. case_bool_decide as Hself; [naive_solver|].
  rewrite result_bind_Ok. setoid_rewrite result_bind_Ok. setoid_rewrite ok_or_Ok. split.
  - intros (parent & Hp & child & Hc & Hrest). case_bool_decide as Hpart; [done|].
    apply try_Ok in Hrest as [?%validate_validity_Ok ?%validate_provenance_Ok]. naive_solver.
  - intros (_ & (parent & child & Hp & Hc & Hpart) & Hv & Hpv). exists parent. split; [done|]. exists child.
    split; [done|]. rewrite bool_decide_eq_false_2 by (by intros []). apply try_Ok.
    by rewrite validate_validity_Ok, validate_provenance_Ok.
Qed.

Section checks.
Context `{Blake3} `{!PartitionJson} `{!Serialize CanonicalProposal}.

Lemma validate_partition_Ok p key q :
  validate_partition p (key, q) = Ok tt ↔
  key = pp_id q ∧ pp_workspace_id q = pr_workspace_id p ∧
  partition_digest (pp_workspace_id q) (pp_memory_spaces q) (pp_scopes q) (pp_policy_revision q) = Ok (pp_id q) ∧
  ∀ s, s ∈ pp_scopes q → ScopeRef_validate s = Ok tt.
Proof.
  unfold validate_partition, validate_digest.
  case_bool_decide as Hkey; cbn [orb]; [naive_solver|]. case_bool_decide as Hws; [naive_solver|].
  rewrite try_Ok, for_each_Ok, Forall_forall. setoid_rewrite map_err_Ok. setoid_rewrite bt_elements_elem.
  destruct (partition_digest _ _ _ _) as [d|e]; cbn [result_bind]; [|naive_solver].
  case_bool_decide as Hd; naive_solver.
Qed.

Lemma validate_profile_Ok p : validate_profile p = Ok tt ↔ profile_ok p.
Proof.
  unfold validate_profile. rewrite try_Ok, validate_text_Ok.
  destruct (N.eqb_spec (pr_profile_revision p) 0) as [Hrev|Hrev]; [split; [naive_solver|by intros []]|].
  rewrite try_Ok. case_bool_decide as Hempty; [split; [naive_solver|by intros []]|].
  case_bool_decide as Hpar; [split; [naive_solver|by intros []]|]. rewrite for_each_Ok, Forall_forall.
  assert ((match pr_kind p with KindDomain label => validate_text label "hierarchy_profile.kind" | _ => Ok tt end) = Ok tt
    ↔ ∀ label, pr_kind p = KindDomain label → text_ok label) as ->.
  { destruct (pr_kind p); try (by split); []. rewrite validate_text_Ok. naive_solver. }
  split.
  - intros (Hname & Hkind & Hall). split; try done. intros key q Hq. apply validate_partition_Ok, Hall. by apply bt_entries_elem.
  - intros []. split_and!; [done..|]. intros [key q] Hq%bt_entries_elem. by apply validate_partition_Ok, po_each0.
Qed.

Lemma validate_header_Ok p :
  validate_header p = Ok tt ↔
  profile_ok (hp_profile p) ∧
  (∀ key q, pr_partitions (hp_profile p) !! key = Some q → (pp_policy_revision q ≤ snapshot_commit_seq (hp_built_from p))%N) ∧
  provenance_ok (hp_build_provenance p) ∧
  (hp_nodes p = ∅ → hp_roots p = ∅ ∧ hp_memberships p = []) ∧
  (∀ key n, hp_nodes p !! key = Some n → node_ok p key n).
Proof.
  unfold validate_header. rewrite try_Ok, validate_profile_Ok. apply and_iff_compat_l.
  destruct (existsb _ _) eqn:Hex.
  { split; [done|]. intros [Hall _]. apply existsb_exists in Hex as (q & Hin & Hq).
    apply list_elem_of_In, elem_of_bt_values in Hin as [key Hkey]. apply Hall in Hkey. bool_simpl. lia. }
  assert (∀ key q, pr_partitions (hp_profile p) !! key = Some q → (pp_policy_revision q ≤ snapshot_commit_seq (hp_built_from p))%N) as Hrev.
  { intros key q Hq. apply N.nlt_ge. intros Hlt. apply not_true_iff_false in Hex. apply Hex, existsb_exists.
    exists q. split; [apply list_elem_of_In, elem_of_bt_values; eauto|by apply N.ltb_lt]. }
  rewrite try_Ok, validate_provenance_Ok.
  assert (for_each (validate_node p) (bt_entries (hp_nodes p)) = Ok tt ↔ ∀ key n, hp_nodes p !! key = Some n → node_ok p key n) as Hnodes.
  { rewrite for_each_Ok, Forall_forall. split.
    - intros Hall key n Hn. apply validate_node_Ok, Hall. by apply bt_entries_elem.
    - intros Hall [key n] Hn%bt_entries_elem. by apply validate_node_Ok, Hall. }
  case_bool_decide as Hempty; cbn [andb]; [|rewrite Hnodes; tauto].
  case_bool_decide as Hroots; cbn [negb orb]; [|split; [naive_solver|]; intros (_ & _ & He & _); by destruct (He Hempty)].
  destruct (hp_memberships p) as [|m ms]; cbn [is_empty negb]; [rewrite Hnodes; tauto|].
  split; [naive_solver|]. intros (_ & _ & He & _). by destruct (He Hempty).
Qed.
End checks.

(** ** The loop over the memberships *)

Definition incoming_of (ms : list HierarchyMembership) : Counts :=
  foldl (λ (m : Counts) c, <[c := (default 0 (m !! c) + 1)%N]> m) ∅ (hm_child <$> ms).
Definition children_of (ms : list HierarchyMembership) (x : HierarchyItemId) : list HierarchyItemId :=
  hm_child <$> filter (λ m, hm_parent m = x) ms.
Definition adjacency_of {V} (nodes : gmap HierarchyItemId V) (ms : list HierarchyMembership) : Adjacency :=
  map_imap (λ x _, Some (children_of ms x)) nodes.

Definition edge_state (p : HierarchyProposal) (ms : list HierarchyMembership) : EdgeState :=
  MkEdgeState (list_to_set (edge_of <$> ms)) (incoming_of ms) (list_to_set (primary_children ms))
    (adjacency_of (hp_nodes p) ms).

Lemma incoming_of_lookup ms x :
  incoming_of ms !! x = if decide (x ∈ hm_child <$> ms) then Some (N.of_nat (occurs x (hm_child <$> ms))) else None.
Proof.
  unfold incoming_of. induction (hm_child <$> ms) as [|c cs IH] using rev_ind; [done|].
  rewrite foldl_app. cbn [foldl]. destruct (decide (x = c)) as [->|Hne].
  - destruct (decide (c ∈ cs ++ [c])) as [_|Hn]; [|destruct Hn; apply elem_of_app; right; by left].
    rewrite lookup_insert_eq, IH, occurs_app, occurs_cons, (decide_True (P := c = c)) by done.
    destruct (decide (c ∈ cs)) as [Hc|Hc]; cbn; f_equal; [|rewrite (occurs_zero _ _ Hc)]; rewrite ?occurs_nil; lia.
  - rewrite lookup_insert_ne by done. rewrite IH, occurs_app, (occurs_zero x [c]), Nat.add_0_r by (rewrite list_elem_of_singleton; done).
    assert (x ∈ cs ++ [c] ↔ x ∈ cs) as Hin by (rewrite elem_of_app, list_elem_of_singleton; tauto).
    repeat destruct (decide _); tauto.
Qed.

Lemma adjacency_of_lookup {V} (nodes : gmap HierarchyItemId V) ms x :
  adjacency_of nodes ms !! x = (λ _, children_of ms x) <$> nodes !! x.
Proof. unfold adjacency_of. rewrite map_lookup_imap. by destruct (nodes !! x). Qed.

Lemma children_of_snoc ms m x :
  children_of (ms ++ [m]) x = if decide (hm_parent m = x) then children_of ms x ++ [hm_child m] else children_of ms x.
Proof.
  unfold children_of. rewrite filter_app, fmap_app, filter_cons, filter_nil.
  destruct (decide (hm_parent m = x)); [done|by rewrite app_nil_r].
Qed.

Lemma primary_children_snoc ms m :
  primary_children (ms ++ [m]) = if decide (is_primary m) then primary_children ms ++ [hm_child m] else primary_children ms.
Proof.
  unfold primary_children. rewrite filter_app, fmap_app, filter_cons, filter_nil.
  destruct (decide (is_primary m)); [done|by rewrite app_nil_r].
Qed.

Lemma edge_state_nil p : edge_state p [] = initial_edges p.
Proof.
  unfold edge_state, initial_edges. cbn. f_equal; try done. apply map_eq. intros x.
  rewrite adjacency_of_lookup, lookup_fmap. done.
Qed.

(** The new parts of the state after one membership. *)
Lemma edge_state_snoc p ms m children :
  adjacency_of (hp_nodes p) ms !! hm_parent m = Some children →
  edge_state p (ms ++ [m]) =
    MkEdgeState ({[(hm_parent m, hm_child m)]} ∪ list_to_set (edge_of <$> ms))
      (<[hm_child m := (default 0 (incoming_of ms !! hm_child m) + 1)%N]> (incoming_of ms))
      (if bool_decide (hm_role m = RolePrimary) then {[hm_child m]} ∪ list_to_set (primary_children ms) else list_to_set (primary_children ms))
      (<[hm_parent m := children ++ [hm_child m]]> (adjacency_of (hp_nodes p) ms)).
Proof.
  intros Hch. unfold edge_state. f_equal.
  - rewrite fmap_app, list_to_set_app_L. cbn. unfold edge_of at 2. set_solver.
  - unfold incoming_of. rewrite fmap_app, foldl_app. done.
  - rewrite primary_children_snoc. unfold is_primary. destruct (decide (hm_role m = RolePrimary)) as [Hr|Hr].
    + rewrite bool_decide_eq_true_2, list_to_set_app_L by done. cbn. set_solver.
    + by rewrite bool_decide_eq_false_2 by done.
  - apply map_eq. intros x. rewrite adjacency_of_lookup, children_of_snoc.
    destruct (decide (hm_parent m = x)) as [<-|Hne].
    + rewrite lookup_insert_eq. rewrite adjacency_of_lookup in Hch. destruct (hp_nodes p !! hm_parent m); [|done].
      injection Hch as <-. done.
    + rewrite lookup_insert_ne by done. by rewrite adjacency_of_lookup.
Qed.

Definition edges_ok (p : HierarchyProposal) (ms : list HierarchyMembership) : Prop :=
  (∀ m, m ∈ ms → membership_ok p m) ∧ NoDup (edge_of <$> ms) ∧ NoDup (primary_children ms).

Lemma add_membership_Ok p ms m st :
  add_membership p (edge_state p ms) m = Ok st ↔
  membership_ok p m ∧ edge_of m ∉ edge_of <$> ms ∧ (is_primary m → hm_child m ∉ primary_children ms) ∧
  st = edge_state p (ms ++ [m]).
Proof.
  unfold add_membership, membership_ok. cbn zeta. rewrite result_bind_Ok. split.
  - intros ([] & (Hself & Hends & Hv & Hp)%validate_membership_Ok & Hrest).
    destruct (kltb _ _) eqn:Hmin; [done|]. apply kltb_false in Hmin.
    cbn [seen_edges primary incoming adjacency edge_state] in Hrest.
    case_bool_decide as Hseen; [done|]. rewrite elem_of_list_to_set in Hseen.
    destruct (bool_decide (hm_role m = RolePrimary) && _) eqn:Hprim; [done|].
    apply result_bind_Ok in Hrest as (children & Hch%ok_or_Ok & [= <-]).
    split_and!; try done; [|by rewrite (edge_state_snoc p ms m children)].
    intros Hr. unfold is_primary in Hr. rewrite (bool_decide_eq_true_2 _ Hr) in Hprim. cbn in Hprim.
    apply bool_decide_eq_false in Hprim. by rewrite elem_of_list_to_set in Hprim.
  - intros ((Hself & Hends & Hv & Hp & Hmin) & Hseen & Hprim & ->). exists tt. split; [by apply validate_membership_Ok|].
    apply kltb_false in Hmin. rewrite Hmin. cbn [seen_edges primary incoming adjacency edge_state].
    rewrite bool_decide_eq_false_2 by (by rewrite elem_of_list_to_set).
    destruct (bool_decide (hm_role m = RolePrimary) && _) eqn:Hpc.
    { apply andb_true_iff in Hpc as [Hr%bool_decide_eq_true Hc%bool_decide_eq_true].
      apply elem_of_list_to_set in Hc. by apply Hprim in Hr. }
    destruct Hends as (parent & child & Hpar & _).
    rewrite (edge_state_snoc p ms m (children_of ms (hm_parent m))) by (by rewrite adjacency_of_lookup, Hpar).
    rewrite adjacency_of_lookup, Hpar. done.
Qed.

Lemma NoDup_snoc {A} (l : list A) x : NoDup (l ++ [x]) ↔ NoDup l ∧ x ∉ l.
Proof.
  rewrite NoDup_app. split.
  - intros (Hl & Hd & _). split; [done|]. intros Hx. apply (Hd x Hx). by left.
  - intros [Hl Hx]. split_and!; [done| |apply NoDup_singleton]. intros y Hy ->%list_elem_of_singleton. done.
Qed.

Lemma edges_fold_Ok p ms st :
  try_fold (add_membership p) (initial_edges p) ms = Ok st ↔ edges_ok p ms ∧ st = edge_state p ms.
Proof.
  rewrite <- edge_state_nil. revert st; induction ms as [|m ms IH] using rev_ind; intros st.
  { cbn. split; [|by intros [_ ->]]. intros [= <-]. split; [|done]. split_and!; [by intros m ?%elem_of_nil|constructor..]. }
  rewrite try_fold_app, result_bind_Ok. setoid_rewrite IH. cbn [try_fold].
  assert (edges_ok p (ms ++ [m]) ↔ edges_ok p ms ∧ membership_ok p m ∧ edge_of m ∉ edge_of <$> ms ∧
    (is_primary m → hm_child m ∉ primary_children ms)) as Hok.
  { unfold edges_ok. rewrite fmap_app. change (edge_of <$> [m]) with [edge_of m]. rewrite NoDup_snoc, primary_children_snoc.
    assert ((∀ m', m' ∈ ms ++ [m] → membership_ok p m') ↔ (∀ m', m' ∈ ms → membership_ok p m') ∧ membership_ok p m) as ->.
    { setoid_rewrite elem_of_app. setoid_rewrite list_elem_of_singleton. naive_solver. }
    destruct (decide (is_primary m)); [rewrite NoDup_snoc|]; tauto. }
  rewrite Hok. split.
  - intros (st1 & (Hms & ->) & Hadd). apply result_bind_Ok in Hadd as (st2 & Hadd & [= <-]).
    apply add_membership_Ok in Hadd. tauto.
  - intros ((Hms & Hm) & ->). exists (edge_state p ms). split; [done|].
    apply result_bind_Ok. exists (edge_state p (ms ++ [m])). split; [|done]. apply add_membership_Ok. tauto.
Qed.

(** ** The graph of the memberships *)

Definition graph {V} (nodes : gmap HierarchyItemId V) (ms : list HierarchyMembership) : Adjacency :=
  sort_children (adjacency_of nodes ms).

Lemma graph_lookup {V} (nodes : gmap HierarchyItemId V) ms x :
  graph nodes ms !! x = (λ _, sort_by cmp (children_of ms x)) <$> nodes !! x.
Proof. unfold graph, sort_children. rewrite lookup_fmap, adjacency_of_lookup. by destruct (nodes !! x). Qed.

Lemma elem_of_children_of ms x c : c ∈ children_of ms x ↔ member ms x c.
Proof.
  unfold children_of, member. rewrite list_elem_of_fmap. setoid_rewrite list_elem_of_filter. naive_solver.
Qed.

(** Grouping a list by a key that takes its values in a list without duplicates. *)
Lemma group_Permutation {A B} `{EqDecision B} (f : A → B) (ks : list B) (l : list A) :
  NoDup ks → (∀ a, a ∈ l → f a ∈ ks) → mjoin ((λ k, filter (λ a, f a = k) l) <$> ks) ≡ₚ l.
Proof.
  intros Hnd Hin. trans (filter (λ a, f a ∈ ks) l).
  2:{ rewrite filter_all; [done|]. by apply Forall_forall. }
  clear Hin. induction Hnd as [|k ks Hk Hnd IH]; cbn.
  { rewrite filter_none; [done|]. apply Forall_forall. intros a _. apply not_elem_of_nil. }
  rewrite IH. clear IH. induction l as [|a l IHl]; [done|]. rewrite !filter_cons.
  destruct (decide (f a = k)) as [Ha|Ha].
  - rewrite (decide_False (P := f a ∈ ks)) by (by rewrite Ha). rewrite decide_True by (rewrite Ha; by left).
    cbn. by rewrite IHl.
  - assert (f a ∈ k :: ks ↔ f a ∈ ks) as Hiff by (rewrite elem_of_cons; tauto).
    destruct (decide (f a ∈ ks)), (decide (f a ∈ k :: ks)); try tauto. by rewrite <- Permutation_middle, IHl.
Qed.

Section graph.
Context {V : Type} (nodes : gmap HierarchyItemId V) (ms : list HierarchyMembership).
Hypothesis ms_ends : ∀ m, m ∈ ms → is_Some (nodes !! hm_parent m) ∧ is_Some (nodes !! hm_child m).

Lemma graph_edge a b : edge (graph nodes ms) a b ↔ member ms a b.
Proof.
  unfold edge. setoid_rewrite graph_lookup. split.
  - intros (l & (n & Hn & ->)%fmap_Some & Hb). rewrite sort_by_Permutation in Hb. by apply elem_of_children_of.
  - intros Hm. pose proof Hm as (m & Hin & <- & <-). destruct (ms_ends m Hin) as [[n ->] _].
    exists (sort_by cmp (children_of ms (hm_parent m))). split; [done|]. rewrite sort_by_Permutation. by apply elem_of_children_of.
Qed.

Lemma graph_tc a b : tc (edge (graph nodes ms)) a b ↔ tc (member ms) a b.
Proof. split; intros Hab; induction Hab; [apply tc_once|eapply tc_l|apply tc_once|eapply tc_l]; try apply graph_edge; eauto; by apply graph_edge. Qed.

Lemma graph_dom x : is_Some (graph nodes ms !! x) ↔ is_Some (nodes !! x).
Proof. rewrite graph_lookup. apply fmap_is_Some. Qed.

Lemma graph_closed : closed (graph nodes ms).
Proof. intros a b Hab. apply graph_dom. apply graph_edge in Hab as (m & Hm & _ & <-). by apply ms_ends. Qed.

Lemma graph_NoDup : NoDup (edge_of <$> ms) → ∀ x l, graph nodes ms !! x = Some l → NoDup l.
Proof.
  intros Hnd x l. rewrite graph_lookup. intros (n & _ & ->)%fmap_Some. rewrite sort_by_Permutation.
  apply (NoDup_fmap_1 (λ c, (x, c))). unfold children_of. rewrite <- list_fmap_compose.
  eapply sublist_NoDup; [exact Hnd|]. clear Hnd ms_ends. induction ms as [|m l IH]; [constructor|].
  rewrite filter_cons. destruct (decide (hm_parent m = x)) as [<-|]; cbn; [by constructor|by constructor].
Qed.

Lemma graph_keys : bt_keys (graph nodes ms) ≡ₚ bt_keys nodes.
Proof.
  apply NoDup_Permutation; [apply bt_keys_NoDup..|]. intros x. by rewrite !elem_of_bt_keys, graph_dom.
Qed.

Lemma graph_counts : counts_edges (graph nodes ms) (incoming_of ms).
Proof.
  intros x _. trans (N.of_nat (occurs x (hm_child <$> ms))).
  { rewrite incoming_of_lookup. destruct (decide _) as [|Hx]; [done|]. by rewrite occurs_zero. }
  f_equal. apply occurs_Permutation. rewrite (children_Permutation _ _ _ graph_keys). unfold children.
  trans (mjoin ((λ k, hm_child <$> filter (λ m, hm_parent m = k) ms) <$> bt_keys nodes)).
  - rewrite <- (group_Permutation hm_parent (bt_keys nodes) ms) at 1; [|apply bt_keys_NoDup|].
    2:{ intros m Hm. apply elem_of_bt_keys. by apply ms_ends. }
    clear ms_ends. induction (bt_keys nodes) as [|k ks IH]; cbn; [done|]. rewrite fmap_app. by rewrite IH.
  - assert (∀ k, k ∈ bt_keys nodes → is_Some (nodes !! k)) as Hks by (intros k; apply elem_of_bt_keys).
    induction (bt_keys nodes) as [|k ks IH]; cbn; [done|]. rewrite IH by (intros; apply Hks; by right).
    apply Permutation_app_tail. rewrite graph_lookup. destruct (Hks k ltac:(by left)) as [n ->]. cbn.
    by rewrite sort_by_Permutation.
Qed.
End graph.

(** ** The checks after the loop *)

Lemma check_parent_limit_Ok maximum ms :
  maximum ≠ Some 0%N →
  check_parent_limit maximum (incoming_of ms) = Ok tt ↔
  ∀ limit x, maximum = Some limit → (N.of_nat (occurs x (hm_child <$> ms)) ≤ limit)%N.
Proof.
  intros Hzero. unfold check_parent_limit. destruct maximum as [limit|]; [|by split].
  destruct (N.eqb_spec limit 0) as [->|_]; [done|]. rewrite for_each_Ok, Forall_forall. split.
  - intros Hall limit' x [= <-]. destruct (decide (x ∈ hm_child <$> ms)) as [Hx|Hx]; [|rewrite occurs_zero by done; lia].
    specialize (Hall (x, N.of_nat (occurs x (hm_child <$> ms)))). cbn in Hall.
    destruct (N.ltb_spec limit (N.of_nat (occurs x (hm_child <$> ms)))); [|done]. discriminate Hall.
    apply bt_entries_elem. by rewrite incoming_of_lookup, decide_True.
  - intros Hall [x n] Hx%bt_entries_elem. cbn. rewrite incoming_of_lookup in Hx. destruct (decide _); [|done].
    injection Hx as <-. specialize (Hall limit x eq_refl). by rewrite (proj2 (N.ltb_ge _ _)).
Qed.

Lemma NoDup_occurs `{EqDecision A} (l : list A) : NoDup l ↔ ∀ x, (occurs x l ≤ 1)%nat.
Proof.
  split.
  - intros Hnd x. destruct (decide (x ∈ l)); [by rewrite occurs_NoDup|rewrite occurs_zero by done; lia].
  - induction l as [|y l IH]; intros Hall; [constructor|]. apply NoDup_cons. split.
    + intros Hy%occurs_pos. specialize (Hall y). rewrite occurs_cons, decide_True in Hall by done. lia.
    + apply IH. intros x. specialize (Hall x). rewrite occurs_cons in Hall. lia.
Qed.

Lemma check_primary_Ok selected ms :
  NoDup (primary_children ms) ∧ check_primary selected (list_to_set (primary_children ms)) (incoming_of ms) = Ok tt ↔
  ∀ m, m ∈ ms → occurs (hm_child m) (primary_children ms) = if selected then 1%nat else 0%nat.
Proof.
  unfold check_primary. rewrite for_each_Ok, Forall_forall, NoDup_occurs.
  assert (∀ x, x ∈ bt_keys (incoming_of ms) ↔ ∃ m, m ∈ ms ∧ hm_child m = x) as Hkeys.
  { intros x. rewrite elem_of_bt_keys, incoming_of_lookup.
    assert (x ∈ hm_child <$> ms ↔ ∃ m, m ∈ ms ∧ hm_child m = x) as <- by (rewrite list_elem_of_fmap; naive_solver).
    destruct (decide _); split; try done; intros []; done. }
  assert (∀ x, (if negb (Bool.eqb (bool_decide (x ∈ (list_to_set (primary_children ms) : gset HierarchyItemId))) selected)
    then Err (PrimarySelectionMismatch x) else Ok tt) = Ok tt ↔ (0 < occurs x (primary_children ms) ↔ selected = true)%nat) as Hone.
  { intros x. rewrite occurs_pos. case_bool_decide as Hx; rewrite elem_of_list_to_set in Hx; destruct selected; cbn; naive_solver. }
  setoid_rewrite Hone. split.
  - intros [Hle Hall] m Hm. specialize (Hall (hm_child m)). rewrite Hkeys in Hall. specialize (Hall ltac:(eauto)).
    specialize (Hle (hm_child m)). destruct selected; [destruct Hall as [_ Hall]; specialize (Hall eq_refl); lia|].
    destruct (decide (occurs (hm_child m) (primary_children ms) = 0%nat)); [done|]. destruct Hall as [Hall _]. discriminate Hall. lia.
  - intros Hall. split.
    + intros x. destruct (decide (x ∈ primary_children ms)) as [Hx|Hx]; [|rewrite occurs_zero by done; lia].
      unfold primary_children in Hx. apply list_elem_of_fmap in Hx as (m & -> & [_ Hm]%list_elem_of_filter).
      rewrite Hall by done. destruct selected; lia.
    + intros x (m & Hm & <-)%Hkeys. rewrite Hall by done. destruct selected; split; try done; lia.
Qed.

Lemma elem_of_computed_roots {V} (nodes : gmap HierarchyItemId V) ms x :
  x ∈ computed_roots nodes (incoming_of ms) ↔ is_Some (nodes !! x) ∧ ∀ m, m ∈ ms → hm_child m ≠ x.
Proof.
  unfold computed_roots. rewrite elem_of_list_to_set, list_elem_of_In, filter_In, <- list_elem_of_In, elem_of_bt_keys.
  apply and_iff_compat_l. rewrite negb_true_iff, bool_decide_eq_false, incoming_of_lookup.
  assert (x ∈ hm_child <$> ms ↔ ∃ m, m ∈ ms ∧ hm_child m = x) as Hin by (rewrite list_elem_of_fmap; naive_solver).
  destruct (decide _) as [Hx|Hx]; rewrite Hin in Hx.
  - split; [intros Hn; by destruct Hn|]. intros Hn. destruct Hx as (m & Hm & Hx). by destruct (Hn m Hm).
  - split; [|intros _; by intros []]. intros _ m Hm Hc. apply Hx. eauto.
Qed.

(** ** The theorems *)

Section validation_exact.
Context `{Blake3} `{!PartitionJson} `{!Serialize CanonicalProposal}.

Lemma member_Permutation ms ms' a b : ms ≡ₚ ms' → member ms a b ↔ member ms' a b.
Proof. intros Hms. unfold member. by setoid_rewrite Hms. Qed.

Lemma primary_children_Permutation ms ms' : ms ≡ₚ ms' → primary_children ms ≡ₚ primary_children ms'.
Proof. intros Hms. unfold primary_children. by rewrite Hms. Qed.

Lemma proposal_ok_Permutation p ms : ms ≡ₚ hp_memberships p → proposal_ok p → proposal_ok (with_memberships p ms).
Proof.
  intros Hms []. split; cbn [with_memberships hp_profile hp_built_from hp_build_provenance hp_nodes hp_memberships hp_roots]; try done.
  - intros m Hm. rewrite Hms in Hm. by apply pk_memberships0.
  - by rewrite Hms.
  - intros maximum x Hmax. rewrite (occurs_Permutation x _ (hm_child <$> hp_memberships p)) by (by rewrite Hms). by apply pk_parents0.
  - intros m Hm. rewrite Hms in Hm. rewrite (occurs_Permutation _ _ _ (primary_children_Permutation _ _ Hms)). by apply pk_primary0.
  - intros x Hx. apply (pk_acyclic0 x). assert (∀ a b, tc (member ms) a b → tc (member (hp_memberships p)) a b) as Hmono; [|by apply Hmono].
    intros a b Hab. induction Hab; [apply tc_once|eapply tc_l; [|done]]; by apply (member_Permutation ms).
  - intros x. rewrite pk_roots0. apply and_iff_compat_l. split; intros Hall m Hm; apply Hall; [by rewrite <- Hms|by rewrite Hms].
Qed.

Lemma with_memberships_twice p ms ms' : with_memberships (with_memberships p ms) ms' = with_memberships p ms'.
Proof. done. Qed.
Lemma with_memberships_id p : with_memberships p (hp_memberships p) = p.
Proof. by destruct p. Qed.

Lemma membership_ends p m :
  membership_ok p m → is_Some (hp_nodes p !! hm_parent m) ∧ is_Some (hp_nodes p !! hm_child m).
Proof. intros (_ & (parent & child & Hp & Hc & _) & _). eauto. Qed.

(** A proposal that meets the contract has a root unless it is empty. *)
Lemma roots_exist p : proposal_ok p → hp_nodes p ≠ ∅ → hp_roots p ≠ ∅.
Proof.
  intros Hok Hne Hroots. destruct (parents_cycle (member (hp_memberships p)) (dom (hp_nodes p))) as [x Hx].
  - by intros ?%dom_empty_inv_L.
  - intros x Hx%elem_of_dom. destruct (decide (Forall (λ m, hm_child m ≠ x) (hp_memberships p))) as [Hall|Hex].
    + rewrite Forall_forall in Hall. assert (x ∈ hp_roots p) as Hr by (by apply (pk_roots p Hok)). set_solver.
    + apply not_Forall_Exists, Exists_exists in Hex as (m & Hm & Hc); [|apply _]. cbn in Hc. apply dec_stable in Hc.
      exists (hm_parent m). destruct (membership_ends p m) as [Hp _]; [by apply (pk_memberships p Hok)|].
      split; [by apply elem_of_dom|]. exists m. done.
  - by apply (pk_acyclic p Hok x).
Qed.

(** What validation computes for a proposal that meets the contract. *)
Lemma validate_proposal_Ok p v :
  let p' := with_memberships p (canonicalize_memberships (hp_memberships p)) in
  validate_proposal p = Ok v ↔
  proposal_ok p ∧ ∃ order canonical,
    topological_order (graph (hp_nodes p') (hp_memberships p')) (incoming_of (hp_memberships p')) = Ok order ∧
    canonical_proposal_bytes p' = Ok canonical ∧
    forallb (λ b, bool_decide (b = x00)) (digest_bytes (manifest_digest canonical)) = false ∧
    v = MkValidated p' (manifest_digest canonical)
      (compute_statistics (graph (hp_nodes p') (hp_memberships p')) (hp_roots p') order).
Proof.
  cbn zeta. set (p' := with_memberships p (canonicalize_memberships (hp_memberships p))).
  assert (hp_memberships p' ≡ₚ hp_memberships p) as Hperm by apply sort_by_Permutation.
  unfold validate_proposal. rewrite result_bind_Ok. cbn zeta. fold p'. split.
  - intros ([] & (Hprof & Hrev & Hbuild & Hempty & Hnodes)%validate_header_Ok & Hrest).
    apply result_bind_Ok in Hrest as (st & (Hedges & ->)%edges_fold_Ok & Hrest).
    cbn [incoming primary adjacency edge_state] in Hrest.
    apply result_bind_Ok in Hrest as ([] & Hlimit & Hrest). apply result_bind_Ok in Hrest as ([] & Hprim & Hrest).
    apply result_bind_Ok in Hrest as (order & Horder & Hrest).
    case_bool_decide as Hroots; [done|]. destruct (negb _ && _) eqn:Hmissing; [done|].
    apply result_bind_Ok in Hrest as (canonical & Hcan & Hrest). destruct (forallb _ _) eqn:Hzero; [done|]. injection Hrest as <-.
    destruct Hedges as (Hms & Hnd & Hndp).
    assert (∀ m, m ∈ hp_memberships p' → is_Some (hp_nodes p' !! hm_parent m) ∧ is_Some (hp_nodes p' !! hm_child m)) as Hends
      by (intros m Hm; by apply membership_ends, Hms).
    split; [|by exists order, canonical].
    rewrite <- (with_memberships_id p). change (proposal_ok (with_memberships p' (hp_memberships p))).
    apply proposal_ok_Permutation; [by rewrite Hperm|]. split; try done.
    + apply check_parent_limit_Ok; [by destruct Hprof|done].
    + by apply check_primary_Ok.
    + destruct (topological_order_exact _ _ (graph_closed _ _ Hends) (graph_counts _ _ Hends)) as [[Hac _]|[_ Hc]]; [|by pose proof (eq_trans (eq_sym Hc) Horder)].
      intros x Hx. apply (Hac x). by apply (graph_tc _ _ Hends).
    + intros x. rewrite <- Hroots. apply elem_of_computed_roots.
  - intros (Hok & order & canonical & Horder & Hcan & Hzero & ->). pose proof Hok as Hok0.
    apply (proposal_ok_Permutation p (hp_memberships p')) in Hok; [|done]. change (with_memberships p (hp_memberships p')) with p' in Hok.
    exists tt. split.
    { apply validate_header_Ok. destruct Hok0. split_and!; try done. intros Hempty. split.
      - apply set_eq. intros x. rewrite pk_roots0, Hempty, lookup_empty. split; [by intros [[] _]|set_solver].
      - destruct (hp_memberships p) as [|m ms] eqn:Hm; [done|].
        destruct (pk_memberships0 m) as (_ & (? & ? & Hp & _) & _); [by left|]. by rewrite Hempty in Hp. }
    destruct Hok. apply result_bind_Ok. exists (edge_state p' (hp_memberships p')).
    pose proof (proj2 (check_primary_Ok (select_primary (pr_assignment (hp_profile p'))) (hp_memberships p')) pk_primary0) as [Hndp Hprim].
    split; [by apply edges_fold_Ok|]. cbn [incoming primary adjacency edge_state].
    apply result_bind_Ok. exists tt. split; [apply check_parent_limit_Ok; [by destruct pk_profile0|done]|].
    rewrite Hprim. cbn [result_bind]. unfold graph in Horder. rewrite Horder. cbn [result_bind].
    assert (computed_roots (hp_nodes p') (incoming_of (hp_memberships p')) = hp_roots p') as Hroots.
    { apply set_eq. intros x. by rewrite elem_of_computed_roots, pk_roots0. }
    rewrite Hroots, bool_decide_eq_false_2 by (by intros []). destruct (negb _ && _) eqn:Hmissing.
    { apply andb_true_iff in Hmissing as [Hne%negb_true_iff%bool_decide_eq_false He%bool_decide_eq_true].
      by destruct (roots_exist p Hok0). }
    rewrite Hcan. cbn [result_bind]. by rewrite Hzero.
Qed.

Lemma zero_digest (d : ContentDigest) :
  forallb (λ b, bool_decide (b = x00)) (digest_bytes d) = false ↔ digest_bytes d ≠ replicate 32 x00.
Proof.
  destruct d as [bs Hbs]. cbn [digest_bytes]. rewrite <- not_true_iff_false, forallb_forall. apply not_iff_compat.
  apply Nat.eqb_eq in Hbs. split.
  - intros Hall. rewrite <- Hbs. clear Hbs. induction bs as [|b bs IH]; [done|]. cbn. rewrite <- IH by (intros; apply Hall; by right).
    pose proof (Hall b ltac:(by left)) as Hb%bool_decide_eq_true. by subst.
  - intros -> b Hb. apply list_elem_of_In, elem_of_replicate in Hb as [-> _]. by apply bool_decide_eq_true.
Qed.

(** The proposal has a manifest: its canonical form is serialised and hashed to a
    digest that is not the zero sentinel. *)
Definition has_manifest (p : HierarchyProposal) : Prop :=
  ∃ canonical, canonical_proposal_bytes (with_memberships p (canonicalize_memberships (hp_memberships p))) = Ok canonical ∧
    digest_bytes (manifest_digest canonical) ≠ replicate 32 x00.

Lemma validate_proposal_accepts p : proposal_ok p → has_manifest p → ∃ v, validate_proposal p = Ok v.
Proof.
  intros Hok (canonical & Hcan & Hnz). pose proof Hok as Hok'.
  apply (proposal_ok_Permutation p (canonicalize_memberships (hp_memberships p))) in Hok'; [|apply sort_by_Permutation].
  set (p' := with_memberships p (canonicalize_memberships (hp_memberships p))) in *. destruct Hok'.
  assert (∀ m, m ∈ hp_memberships p' → is_Some (hp_nodes p' !! hm_parent m) ∧ is_Some (hp_nodes p' !! hm_child m)) as Hends
    by (intros m Hm; by apply membership_ends, pk_memberships0).
  destruct (topological_order_exact _ _ (graph_closed _ _ Hends) (graph_counts _ _ Hends)) as [(_ & order & Horder & _)|[Hc _]].
  - eexists. apply validate_proposal_Ok. split; [done|]. exists order, canonical. split_and!; [done|done|by apply zero_digest|done].
  - destruct Hc. intros x Hx. apply (pk_acyclic0 x). by apply (graph_tc _ _ Hends).
Qed.

(** C17: the validator accepts exactly the proposals that meet the contract: a valid
    profile, sound nodes and memberships inside one partition, distinct edges, the
    limits of the assignment policy, no cycle, and the roots that the memberships
    imply; beyond that only the serialisation or a zero digest can refuse it. *)
Theorem validate_proposal_exact p :
  is_ok (validate_proposal p) = true ↔ proposal_ok p ∧ has_manifest p.
Proof.
  split.
  - destruct (validate_proposal p) as [v|e] eqn:Hv; [|done]. intros _.
    apply validate_proposal_Ok in Hv as (Hok & order & canonical & _ & Hcan & Hnz & _). split; [done|].
    exists canonical. split; [done|by apply zero_digest].
  - intros [Hok Hman]. by destruct (validate_proposal_accepts p Hok Hman) as [v ->].
Qed.

(** the statistics of an accepted proposal are exact for every node: its
    children, its descendants and leaves, its longest downward path and the number
    of routes to it from the roots, along the memberships of the proposal. *)
Theorem validated_statistics_exact p v x n :
  validate_proposal p = Ok v → hp_nodes p !! x = Some n →
  let R := member (hp_memberships p) in
  ∃ stats (descendants leaves : gset HierarchyItemId) (routes : list (list HierarchyItemId)) depth,
    v_statistics v !! x = Some stats ∧
    direct_children stats = N.min U64_MAX (len (filter (λ m, hm_parent m = x) (hp_memberships p))) ∧
    (∀ y, y ∈ descendants ↔ tc R x y) ∧ unique_descendants stats = N.min U64_MAX (N.of_nat (size descendants)) ∧
    (∀ y, y ∈ leaves ↔ tc R x y ∧ leaf R y) ∧ leaf_descendants stats = N.min U64_MAX (N.of_nat (size leaves)) ∧
    deepest R x depth ∧ max_depth stats = N.min U32_MAX depth ∧
    NoDup routes ∧ (∀ q, q ∈ routes ↔ is_route R (hp_roots p) x q) ∧ routes_from_roots stats = N.min U64_MAX (len routes).
Proof.
  intros (Hok & order & canonical & Horder & _ & _ & ->)%validate_proposal_Ok Hn. cbn zeta. cbn [v_statistics].
  assert (canonicalize_memberships (hp_memberships p) ≡ₚ hp_memberships p) as Hperm by apply sort_by_Permutation.
  apply (proposal_ok_Permutation p (canonicalize_memberships (hp_memberships p))) in Hok; [|done].
  set (ms := canonicalize_memberships (hp_memberships p)) in *.
  cbn [with_memberships hp_nodes hp_memberships hp_roots] in *.
  assert (∀ m, m ∈ ms → is_Some (hp_nodes p !! hm_parent m) ∧ is_Some (hp_nodes p !! hm_child m)) as Hends.
  { intros m Hm. apply (membership_ends (with_memberships p ms)). by apply (pk_memberships _ Hok). }
  destruct (topological_order_exact _ _ (graph_closed _ _ Hends) (graph_counts _ _ Hends)) as [(_ & order' & Ho & Hkeys & Hfirst)|[_ Hc]];
    [|by pose proof (eq_trans (eq_sym Hc) Horder)].
  assert (order' = order) as -> by (pose proof (eq_trans (eq_sym Ho) Horder); congruence).
  assert (∀ a b, edge (graph (hp_nodes p) ms) a b ↔ member (hp_memberships p) a b) as Hedge.
  { intros a b. rewrite graph_edge by done. by apply member_Permutation. }
  destruct (compute_statistics_exact _ (hp_roots p) order (graph_closed _ _ Hends) (graph_NoDup _ _ (pk_edges _ Hok)) Hkeys Hfirst)
    as [_ Hall].
  destruct (Hall x (sort_by cmp (children_of ms x))) as (stats & ds & ls & rs & d & Hst & Hdc & Hd & Hds & Hl & Hls & Hdeep & Hmax & Hnd & Hr & Hrs);
    [by rewrite graph_lookup, Hn|].
  exists stats, ds, ls, rs, d. split_and!; try done.
  - rewrite Hdc. f_equal. unfold len. f_equal. rewrite sort_by_Permutation. unfold children_of. rewrite length_fmap. by rewrite Hperm.
  - intros y. rewrite Hd. by apply tc_iff.
  - intros y. rewrite Hl. unfold leaf. setoid_rewrite Hedge. by rewrite (tc_iff _ _ _ _ Hedge).
  - destruct Hdeep as [(q & Hq & Hlen) Hle]. split; [exists q; by rewrite <- (linked_iff _ _ _ Hedge)|].
    intros q' Hq'. apply Hle. by apply (linked_iff _ _ _ Hedge).
  - intros q. rewrite Hr. unfold is_route. by rewrite (linked_iff _ _ _ Hedge).
Qed.
End validation_exact.
