(* ===== verification/HierAssign.v ===== *)
(** * Hierarchy views: what the builder builds

    The order of candidates is total, so the result of the builder does not
    depend on the order in which candidates were added; the memberships it builds
    meet the assignment policy, so that validation accepts them. *)

From S2P Require Import Prelude.
From S2P Require Import Ordering.
From S2P Require Import Bytes.
From S2P Require Import Format.
From S2P Require Import CoreBase.
From S2P Require Import Provenance.
From S2P Require Import Evidence.
From S2P Require Import Hierarchy.
From S2P Require Import HierValidate.
From S2P Require Import HierBuild.
From S2P Require Import HierDag.
From S2P Require Import HierStats.
From S2P Require Import HierProposal.

(** ** The order of candidates is total *)

Abbreviation ValidityKey := (N * (option N * (option Z * option Z)))%type.
Definition validity_key (v : HierarchyValidity) : ValidityKey :=
  (commit_start (hv_transaction_time v), (commit_end (hv_transaction_time v),
    (time_start <$> hv_valid_time v, hv_valid_time v ≫= time_end))).

Abbreviation DerivationKey :=
  (DerivationId * (N * (option ActorId * (option ModelCallId * ((string * (string * string)) * list LineageNode)))))%type.
Definition derivation_key (d : DerivationRef) : DerivationKey :=
  (derivation_id d, (derivation_kind_rank (derivation_kind d), (derivation_actor d, (model_call d,
    (pipeline_key (pipeline d), inputs d))))).

Abbreviation CandidateKey :=
  (Reverse N * (Reverse Confidence * (N * (HierarchyItemId * (HierarchyItemId * (ValidityKey * (string * DerivationKey)))))))%type.
Definition candidate_key (c : AssignmentCandidate) : CandidateKey :=
  (MkReverse (precedence (hp_source (ac_provenance c))), (MkReverse (ac_confidence c), (ac_order_key c,
    (ac_parent c, (ac_child c, (validity_key (ac_validity c), (hp_rationale (ac_provenance c),
    derivation_key (hp_derivation (ac_provenance c))))))))).

#[export] Instance candidate_key_inj : Inj (=) (=) candidate_key.
Proof.
  intros [p1 c1 o1 f1 [v1 [s1 e1]] [src1 [d1 k1 a1 m1 [n1 w1 y1] i1] r1]] [p2 c2 o2 f2 [v2 [s2 e2]] [src2 [d2 k2 a2 m2 [n2 w2 y2] i2] r2]].
  unfold candidate_key, validity_key, derivation_key, pipeline_key. cbn. intros [=]; subst.
  assert (src1 = src2) as -> by (by destruct src1, src2). assert (k1 = k2) as -> by (by destruct k1, k2).
  assert (v1 = v2) as ->; [|done].
  destruct v1 as [[]|], v2 as [[]|]; cbn in *; try done. congruence.
Qed.
#[export] Instance AssignmentCandidate_Ordered : Ordered AssignmentCandidate := Ordered_inj candidate_key.

Lemma compare_candidate_cmp a b : compare_candidate a b = cmp a b.
Proof.
  change (cmp a b) with (cmp (candidate_key a) (candidate_key b)).
  unfold candidate_key, validity_key, derivation_key. rewrite !cmp_pair. reflexivity.
Qed.

(** ** The strongest candidate of an edge *)

Definition candidate_edge (c : AssignmentCandidate) : HierarchyItemId * HierarchyItemId := (ac_parent c, ac_child c).
Definition qualifies (minimum : Confidence) (c : AssignmentCandidate) : Prop := kle minimum (ac_confidence c).

(** The least candidate among those of an edge that qualify. *)
Definition strongest_of (minimum : Confidence) (cs : list AssignmentCandidate)
    (edge : HierarchyItemId * HierarchyItemId) (c : AssignmentCandidate) : Prop :=
  c ∈ cs ∧ qualifies minimum c ∧ candidate_edge c = edge ∧
  ∀ c', c' ∈ cs → qualifies minimum c' → candidate_edge c' = edge → kle c c'.

Lemma strongest_of_unique minimum cs cs' edge c c' :
  cs ≡ₚ cs' → strongest_of minimum cs edge c → strongest_of minimum cs' edge c' → c = c'.
Proof.
  intros Hcs (Hin & Hq & He & Hmin) (Hin' & Hq' & He' & Hmin').
  assert (kle c c') as Hle by (apply Hmin; [by rewrite Hcs|done..]).
  assert (kle c' c) as Hle' by (apply Hmin'; [by rewrite <- Hcs|done..]).
  apply kle_klt_eq in Hle as [Hlt|]; [|done]. by apply not_kle in Hlt.
Qed.

Lemma strongest_spec minimum cs edge :
  match strongest_by_edge minimum cs !! edge with
  | Some c => strongest_of minimum cs edge c
  | None => ∀ c, c ∈ cs → qualifies minimum c → candidate_edge c ≠ edge
  end.
Proof.
  unfold strongest_by_edge. induction cs as [|c cs IH] using rev_ind; [cbn [foldl]; rewrite lookup_empty; by intros c ?%elem_of_nil|].
  rewrite foldl_app. cbn [foldl]. set (m := foldl (keep_strongest minimum) ∅ cs) in *. unfold keep_strongest.
  destruct (kltb (ac_confidence c) minimum) eqn:Hq.
  { apply kltb_true in Hq. destruct (m !! edge) as [d|].
    - destruct IH as (Hin & Hqd & He & Hmin). split_and!; [set_solver|done|done|].
      intros c' [Hc'| ->%list_elem_of_singleton]%elem_of_app Hqc; [by apply Hmin|]. by apply not_kle in Hq.
    - intros c' [Hc'| ->%list_elem_of_singleton]%elem_of_app Hqc; [by apply IH|]. by apply not_kle in Hq. }
  apply kltb_false in Hq. change (ac_parent c, ac_child c) with (candidate_edge c).
  destruct (decide (candidate_edge c = edge)) as [Hedge|Hne].
  - rewrite Hedge. destruct (m !! edge) as [d|] eqn:Hd.
    + rewrite compare_candidate_cmp. change (is_le (cmp d c)) with (kleb d c). destruct (kleb d c) eqn:Hle.
      * rewrite Hd. apply kleb_true in Hle. destruct IH as (Hin & Hqd & He & Hmin). split_and!; [set_solver|done|done|].
        intros c' [Hc'| ->%list_elem_of_singleton]%elem_of_app Hqc Hec; [by apply Hmin|done].
      * rewrite lookup_insert_eq. apply kleb_false in Hle. destruct IH as (Hin & Hqd & He & Hmin). split_and!; [set_solver|done|done|].
        intros c' [Hc'| ->%list_elem_of_singleton]%elem_of_app Hqc Hec.
        -- apply kle_klt_eq. left. eapply klt_kle_trans; [exact Hle|]. by apply Hmin.
        -- apply kle_klt_eq. by right.
    + rewrite lookup_insert_eq. split_and!; [set_solver|done|done|].
      intros c' [Hc'| ->%list_elem_of_singleton]%elem_of_app Hqc Hec; [by destruct (IH c' Hc' Hqc)|]. apply kle_klt_eq. by right.
  - assert ((match m !! candidate_edge c with
      | Some current => if is_le (compare_candidate current c) then m else <[candidate_edge c := c]> m
      | None => <[candidate_edge c := c]> m
      end) !! edge = m !! edge) as ->.
    { destruct (m !! candidate_edge c); [destruct (is_le _)|]; try done; by rewrite lookup_insert_ne. }
    destruct (m !! edge) as [d|].
    + destruct IH as (Hin & Hqd & He & Hmin). split_and!; [set_solver|done|done|].
      intros c' [Hc'| ->%list_elem_of_singleton]%elem_of_app Hqc Hec; [by apply Hmin|done].
    + intros c' [Hc'| ->%list_elem_of_singleton]%elem_of_app Hqc Hec; [by apply (IH c')|done].
Qed.

Lemma strongest_Permutation minimum cs cs' : cs ≡ₚ cs' → strongest_by_edge minimum cs = strongest_by_edge minimum cs'.
Proof.
  intros Hcs. apply map_eq. intros edge. pose proof (strongest_spec minimum cs edge) as H1.
  pose proof (strongest_spec minimum cs' edge) as H2.
  destruct (strongest_by_edge minimum cs !! edge) as [c|], (strongest_by_edge minimum cs' !! edge) as [c'|]; [|exfalso..|done].
  - f_equal. by eapply strongest_of_unique.
  - destruct H1 as (Hin & Hq & He & _). apply (H2 c); [by rewrite <- Hcs|done..].
  - destruct H2 as (Hin & Hq & He & _). apply (H1 c'); [by rewrite Hcs|done..].
Qed.

(** the proposal does not depend on the order in which the candidates were
    added. *)
Theorem finish_ignores_order b cs :
  cs ≡ₚ pb_candidates b →
  finish (MkBuilder (pb_profile b) (pb_generation b) (pb_expected_active b) (pb_built_from b) (pb_build_provenance b)
    (pb_nodes b) cs) = finish b.
Proof.
  intros Hcs. unfold finish, built_memberships. cbn [pb_profile pb_generation pb_expected_active pb_built_from pb_build_provenance pb_nodes pb_candidates].
  by rewrite (strongest_Permutation _ _ _ Hcs).
Qed.

(** ** The memberships of a child *)

Lemma group_by_child_lookup l c :
  group_by_child l !! c = if decide (c ∈ ac_child <$> l) then Some (filter (λ a, ac_child a = c) l) else None.
Proof.
  unfold group_by_child. induction l as [|a l IH] using rev_ind; [done|].
  rewrite foldl_app, filter_app, filter_cons, filter_nil, fmap_app. cbn [foldl].
  assert (c ∈ (ac_child <$> l) ++ (ac_child <$> [a]) ↔ c ∈ ac_child <$> l ∨ c = ac_child a) as Hin
    by (rewrite elem_of_app; cbn; by rewrite list_elem_of_singleton).
  destruct (decide (ac_child a = c)) as [<-|Hne].
  - rewrite lookup_insert_eq, IH. destruct (decide (ac_child a ∈ (ac_child <$> l) ++ _)); [|tauto].
    destruct (decide (ac_child a ∈ ac_child <$> l)) as [|Hn]; [done|]. cbn. rewrite filter_none; [done|].
    apply Forall_forall. intros b Hb Hc. apply Hn. apply list_elem_of_fmap. eauto.
  - rewrite lookup_insert_ne, IH, app_nil_r by done. repeat destruct (decide _); try done; naive_solver.
Qed.

Lemma bt_values_fmap `{Countable K, Ordered K} {V} (m : gmap K V) (f : K → V) :
  (∀ k v, m !! k = Some v → v = f k) → bt_values m = f <$> bt_keys m.
Proof.
  intros Hf. unfold bt_values, bt_keys. rewrite <- list_fmap_compose. apply list_fmap_ext. intros i [k v] Hi. cbn.
  apply Hf, bt_entries_elem, list_elem_of_lookup. eauto.
Qed.

(** The memberships in groups, one for each child, before the final sort. *)
Definition child_group (policy : AssignmentPolicy) (vs : list AssignmentCandidate) (c : HierarchyItemId) : list HierarchyMembership :=
  assign_child policy (filter (λ a, ac_child a = c) vs).

Lemma built_groups policy cs :
  let vs := bt_values (strongest_by_edge (minimum_confidence policy) cs) in
  ∃ ks, NoDup ks ∧ (∀ c, c ∈ ks ↔ c ∈ ac_child <$> vs) ∧
    built_memberships policy cs ≡ₚ mjoin (child_group policy vs <$> ks).
Proof.
  cbn zeta. unfold built_memberships. cbn zeta. set (vs := bt_values _). exists (bt_keys (group_by_child vs)).
  split_and!; [apply bt_keys_NoDup| |].
  - intros c. rewrite elem_of_bt_keys, group_by_child_lookup. destruct (decide _); split; try done; by intros [].
  - rewrite sort_by_Permutation, (bt_values_fmap _ (λ c, filter (λ a, ac_child a = c) vs)).
    + by rewrite <- list_fmap_compose.
    + intros k v. rewrite group_by_child_lookup. destruct (decide _); [|done]. by intros [= <-].
Qed.

Lemma imap_const {A B C} (f : nat → A → B) (g : B → C) (h : A → C) l :
  (∀ i a, g (f i a) = h a) → g <$> imap f l = h <$> l.
Proof.
  intros Hf. revert f Hf; induction l as [|a l IH]; intros f Hf; [done|]. cbn. rewrite Hf. f_equal. apply IH. intros. apply Hf.
Qed.

Definition kept (policy : AssignmentPolicy) (l : list AssignmentCandidate) : list AssignmentCandidate :=
  let l := sort_by compare_candidate l in
  match max_parents policy with Some maximum => take (N.to_nat maximum) l | None => l end.

Lemma kept_submseteq policy l : kept policy l ⊆+ l.
Proof.
  unfold kept. cbn zeta. destruct (max_parents policy); [|by rewrite sort_by_Permutation].
  trans (sort_by compare_candidate l); [apply sublist_submseteq, sublist_take|by rewrite sort_by_Permutation].
Qed.
Lemma assign_child_kept policy l : assign_child policy l = imap (membership_of (select_primary policy)) (kept policy l).
Proof. done. Qed.

Lemma mjoin_submseteq {A B} (f g : A → list B) ks : (∀ k, f k ⊆+ g k) → mjoin (f <$> ks) ⊆+ mjoin (g <$> ks).
Proof. intros Hfg. induction ks as [|k ks IH]; cbn; [done|]. by apply submseteq_app. Qed.

Lemma fmap_mjoin {A B} (f : A → B) (ls : list (list A)) : f <$> mjoin ls = mjoin (fmap f <$> ls).
Proof. induction ls as [|l ls IH]; [done|]. change (mjoin (l :: ls)) with (l ++ mjoin ls). by rewrite fmap_app, IH. Qed.

Lemma built_submseteq {A} (policy : AssignmentPolicy) cs (g : HierarchyMembership → A) (h : AssignmentCandidate → A) :
  (∀ i c, g (membership_of (select_primary policy) i c) = h c) →
  g <$> built_memberships policy cs ⊆+ h <$> bt_values (strongest_by_edge (minimum_confidence policy) cs).
Proof.
  intros Hgh. destruct (built_groups policy cs) as (ks & Hnd & Hks & Hperm). set (vs := bt_values _) in *.
  rewrite Hperm, fmap_mjoin, <- list_fmap_compose.
  trans (h <$> mjoin ((λ c, filter (λ a, ac_child a = c) vs) <$> ks)).
  2:{ rewrite group_Permutation; [done|done|]. intros a Ha. apply Hks, list_elem_of_fmap. eauto. }
  rewrite fmap_mjoin, <- list_fmap_compose. apply mjoin_submseteq. intros k. unfold compose, child_group.
  rewrite assign_child_kept, (imap_const _ g h) by done. apply fmap_submseteq, kept_submseteq.
Qed.

Lemma strongest_values_edges minimum cs :
  candidate_edge <$> bt_values (strongest_by_edge minimum cs) = bt_keys (strongest_by_edge minimum cs).
Proof.
  unfold bt_values, bt_keys. rewrite <- list_fmap_compose. apply list_fmap_ext. intros i [e c] Hi. cbn.
  assert ((e, c) ∈ bt_entries (strongest_by_edge minimum cs)) as Hin by (apply list_elem_of_lookup; eauto).
  apply bt_entries_elem in Hin. pose proof (strongest_spec minimum cs e) as Hs. rewrite Hin in Hs. by destruct Hs as (_ & _ & ? & _).
Qed.

(** Every edge is built at most once. *)
Lemma built_edges_NoDup policy cs : NoDup (edge_of <$> built_memberships policy cs).
Proof.
  destruct (submseteq_Permutation _ _ (built_submseteq policy cs edge_of candidate_edge (λ _ _, eq_refl))) as [k Hk].
  pose proof (bt_keys_NoDup (strongest_by_edge (minimum_confidence policy) cs)) as Hnd.
  rewrite <- strongest_values_edges, Hk in Hnd. by apply NoDup_app in Hnd as [? _].
Qed.

(** A membership comes from a candidate that qualifies. *)
Lemma built_from_candidate policy cs m :
  m ∈ built_memberships policy cs →
  ∃ c, c ∈ cs ∧ qualifies (minimum_confidence policy) c ∧
    hm_parent m = ac_parent c ∧ hm_child m = ac_child c ∧ hm_confidence m = ac_confidence c ∧
    hm_validity m = ac_validity c ∧ hm_provenance m = ac_provenance c.
Proof.
  intros Hm.
  pose proof (built_submseteq policy cs (λ m, (hm_parent m, hm_child m, hm_confidence m, hm_validity m, hm_provenance m))
    (λ c, (ac_parent c, ac_child c, ac_confidence c, ac_validity c, ac_provenance c)) (λ _ _, eq_refl)) as Hsub.
  pose proof (elem_of_submseteq _ _ _ (list_elem_of_fmap_2 _ _ _ Hm) Hsub) as (c & [=] & Hc)%list_elem_of_fmap.
  apply elem_of_bt_values in Hc as [e He]. pose proof (strongest_spec (minimum_confidence policy) cs e) as Hs.
  rewrite He in Hs. destruct Hs as (Hin & Hq & _). exists c. done.
Qed.

(** ** The assignment policy holds *)

Lemma occurs_groups (g : HierarchyItemId → list HierarchyItemId) ks x :
  NoDup ks → (∀ k y, y ∈ g k → y = k) →
  occurs x (mjoin (g <$> ks)) = if decide (x ∈ ks) then length (g x) else 0%nat.
Proof.
  intros Hnd Hg. assert (∀ k, occurs k (g k) = length (g k)) as Hall.
  { intros k. unfold occurs. f_equal. apply filter_all, Forall_forall. intros y Hy. symmetry. by apply Hg. }
  induction Hnd as [|k ks Hk Hnd IH]; [done|]. change (mjoin (g <$> k :: ks)) with (g k ++ mjoin (g <$> ks)). rewrite occurs_app, IH.
  destruct (decide (x = k)) as [->|Hne].
  - rewrite (decide_False (P := k ∈ ks)), (decide_True (P := k ∈ k :: ks)) by (done || by left). rewrite Hall. lia.
  - rewrite (occurs_zero x (g k)) by (intros Hx; by apply Hg in Hx).
    assert (x ∈ k :: ks ↔ x ∈ ks) as Hin by (rewrite elem_of_cons; tauto). repeat destruct (decide _); tauto.
Qed.

Lemma child_group_child policy vs c y : y ∈ hm_child <$> child_group policy vs c → y = c.
Proof.
  unfold child_group. rewrite assign_child_kept, (imap_const _ hm_child ac_child) by done.
  intros (a & -> & Ha)%list_elem_of_fmap. eapply elem_of_submseteq in Ha; [|apply kept_submseteq].
  by apply list_elem_of_filter in Ha as [? _].
Qed.

Lemma primary_imap selected l :
  primary_children (imap (membership_of selected) l) = if selected then ac_child <$> take 1 l else [].
Proof.
  unfold primary_children. destruct l as [|a l]; [by destruct selected|]. cbn [imap].
  assert (filter is_primary (imap (membership_of selected ∘ S) l) = []) as Hrest.
  { apply filter_none, Forall_forall. intros m Hm. apply elem_of_lookup_imap_1 in Hm as (i & c & -> & _). unfold is_primary. cbn. done. }
  rewrite filter_cons, Hrest. unfold is_primary. cbn. by destruct selected.
Qed.

Lemma kept_length policy l maximum : max_parents policy = Some maximum → (N.of_nat (length (kept policy l)) ≤ maximum)%N.
Proof. intros Hmax. unfold kept. rewrite Hmax, length_take. lia. Qed.

Lemma kept_nonempty policy l : max_parents policy ≠ Some 0%N → l ≠ [] → kept policy l ≠ [].
Proof.
  intros Hmax Hl Hk. apply (f_equal length) in Hk. unfold kept in Hk. cbn zeta in Hk.
  assert (length (sort_by compare_candidate l) ≠ 0%nat) as Hlen by (rewrite sort_by_Permutation; by destruct l).
  destruct (max_parents policy) as [maximum|]; [|done]. rewrite length_take in Hk.
  assert (maximum ≠ 0%N) by congruence. cbn in Hk. lia.
Qed.

Section policy.
Context (policy : AssignmentPolicy) (cs : list AssignmentCandidate).
Let ms := built_memberships policy cs.

Lemma built_parent_limit maximum x :
  max_parents policy = Some maximum → (N.of_nat (occurs x (hm_child <$> ms)) ≤ maximum)%N.
Proof.
  intros Hmax. destruct (built_groups policy cs) as (ks & Hnd & _ & Hperm). set (vs := bt_values _) in *.
  rewrite (occurs_Permutation x _ (hm_child <$> mjoin (child_group policy vs <$> ks))) by (by unfold ms; rewrite Hperm).
  rewrite fmap_mjoin, <- list_fmap_compose, (occurs_groups (fmap hm_child ∘ child_group policy vs)); [|done|intros k y; apply child_group_child].
  destruct (decide _); [|lia]. unfold compose, child_group. rewrite length_fmap, assign_child_kept, length_imap. by apply kept_length.
Qed.

Lemma built_primary m :
  max_parents policy ≠ Some 0%N → m ∈ ms →
  occurs (hm_child m) (primary_children ms) = if select_primary policy then 1%nat else 0%nat.
Proof.
  intros Hmax Hm. destruct (built_groups policy cs) as (ks & Hnd & Hks & Hperm). set (vs := bt_values _) in *.
  assert (hm_child m ∈ ks) as Hin.
  { unfold ms in Hm. rewrite Hperm in Hm. apply list_elem_of_join in Hm as (l & Hm & (k & -> & Hk)%list_elem_of_fmap).
    assert (hm_child m = k) as ->; [|done]. eapply child_group_child, list_elem_of_fmap_2, Hm. }
  rewrite (occurs_Permutation _ _ _ (primary_children_Permutation _ _ Hperm)).
  assert (primary_children (mjoin (child_group policy vs <$> ks)) = mjoin ((λ k, primary_children (child_group policy vs k)) <$> ks)) as ->.
  { clear. induction ks as [|k ks IH]; [done|]. change (mjoin (child_group policy vs <$> k :: ks)) with (child_group policy vs k ++ mjoin (child_group policy vs <$> ks)).
    unfold primary_children in *. by rewrite filter_app, fmap_app, IH. }
  rewrite (occurs_groups (λ k, primary_children (child_group policy vs k))); [|done|].
  2:{ intros k y (m' & -> & [_ Hm']%list_elem_of_filter)%list_elem_of_fmap. eapply child_group_child, list_elem_of_fmap_2, Hm'. }
  rewrite decide_True by done. unfold child_group. rewrite assign_child_kept, primary_imap.
  destruct (select_primary policy); [|done]. rewrite length_fmap, length_take.
  assert (kept policy (filter (λ a, ac_child a = hm_child m) vs) ≠ []) as Hne.
  { apply kept_nonempty; [done|]. apply Hks, list_elem_of_fmap in Hin as (a & Ha & Hav). intros Hnil.
    apply (not_elem_of_nil a). rewrite <- Hnil. by apply list_elem_of_filter. }
  destruct (kept policy _); [done|]. cbn. lia.
Qed.
End policy.

(** ** Built proposals are valid *)

Section built.
Context `{Blake3} `{!PartitionJson} `{!Serialize CanonicalProposal}.

(** What the builder does not check: the profile, the nodes, the ends and the
    provenance of the candidates, and that they form no cycle. *)
Record builder_ok (b : HierarchyProposalBuilder) : Prop := {
  bo_profile : profile_ok (pb_profile b);
  bo_revisions : ∀ key q, pr_partitions (pb_profile b) !! key = Some q →
    (pp_policy_revision q ≤ snapshot_commit_seq (pb_built_from b))%N;
  bo_build : provenance_ok (pb_build_provenance b);
  bo_nodes : ∀ key n, pb_nodes b !! key = Some n → node_ok (finish b) key n;
  bo_candidates : ∀ c, c ∈ pb_candidates b →
    ac_parent c ≠ ac_child c ∧
    (∃ parent child, pb_nodes b !! ac_parent c = Some parent ∧ pb_nodes b !! ac_child c = Some child ∧
       hn_partition parent = hn_partition child) ∧
    validity_ok (ac_validity c) (pb_built_from b) ∧ provenance_ok (ac_provenance c);
  bo_acyclic : ∀ x, ¬ tc (λ a b', ∃ c, c ∈ pb_candidates b ∧ ac_parent c = a ∧ ac_child c = b') x x;
}.

Lemma finish_ok b : builder_ok b → proposal_ok (finish b).
Proof.
  intros []. split; cbn [finish hp_profile hp_built_from hp_build_provenance hp_nodes hp_memberships hp_roots]; try done.
  - intros m (c & Hc & Hq & Hp & Hch & Hconf & Hv & Hpv)%built_from_candidate.
    destruct (bo_candidates0 c Hc) as (Hne & Hends & Hval & Hprov). unfold membership_ok. rewrite Hp, Hch, Hconf, Hv, Hpv. done.
  - apply built_edges_NoDup.
  - intros maximum x. apply built_parent_limit.
  - intros m. apply built_primary. by destruct bo_profile0.
  - intros x Hx. apply (bo_acyclic0 x). assert (∀ a b', tc (member (built_memberships (pr_assignment (pb_profile b)) (pb_candidates b))) a b' →
      tc (λ a b', ∃ c, c ∈ pb_candidates b ∧ ac_parent c = a ∧ ac_child c = b') a b') as Hmono; [|by apply Hmono].
    intros a b' Hab. induction Hab as [a b' (m & Hm & <- & <-)|a b' d (m & Hm & <- & <-) _ IH];
      [apply tc_once|eapply tc_l; [|exact IH]]; apply built_from_candidate in Hm as (c & Hc & _ & -> & -> & _); eauto.
  - intros x. rewrite elem_of_list_to_set, list_elem_of_In, filter_In, <- list_elem_of_In, elem_of_bt_keys.
    apply and_iff_compat_l. rewrite negb_true_iff, bool_decide_eq_false, elem_of_list_to_set, list_elem_of_fmap. naive_solver.
Qed.

(** whatever candidates were added, a proposal that the builder finishes
    satisfies the assignment policy: when the nodes and candidates are sound and
    acyclic, the validator accepts it. *)
Theorem built_proposals_validate b :
  builder_ok b → has_manifest (finish b) → is_ok (validate_proposal (finish b)) = true.
Proof. intros Hok Hman. by destruct (validate_proposal_accepts _ (finish_ok b Hok) Hman) as [v ->]. Qed.
End built.
