(* ===== verification/HierEngine.v ===== *)
(** * Hierarchy views: the repository (crate contextdb-hierarchy: engine.rs)

    The catalog with its retained epochs, the deletion registry, and the three
    writes: [publish], [invalidate] and [record_deletions].  Each holds the locks
    it needs for its whole body, so it is one step; it returns the engine beside
    its result, because [record_deletions] may change the registry and fail. *)

From S2P Require Import Prelude.
From S2P Require Import Ordering.
From S2P Require Import Bytes.
From S2P Require Import CoreBase.
From S2P Require Import Provenance.
From S2P Require Import Hierarchy.
From S2P Require Import HierValidate.

(** ** State *)

Definition membership_order (left right : HierarchyMembership) : comparison :=
  then_with (cmp (role_rank (hm_role left)) (role_rank (hm_role right)))
  (then_with (cmp (hm_confidence right) (hm_confidence left))
  (then_with (cmp (hm_order_key left) (hm_order_key right))
  (cmp (hm_parent left) (hm_parent right)))).

Record NavigationIndex := MkNavigationIndex { nav_children : gmap HierarchyItemId (list nat) }.

(** The indexes come from the list itself, so the lookups succeed. *)
Definition compare_indexes (memberships : list HierarchyMembership) (left right : nat) : comparison :=
  match memberships !! left, memberships !! right with
  | Some l, Some r => then_with (membership_order l r) (cmp (hm_child l) (hm_child r))
  | _, _ => Eq
  end.
Definition add_index (children : gmap HierarchyItemId (list nat)) (entry : nat * HierarchyMembership)
    : gmap HierarchyItemId (list nat) :=
  <[hm_parent entry.2 := default [] (children !! hm_parent entry.2) ++ [entry.1]]> children.
Definition NavigationIndex_build (g : HierarchyGeneration) : NavigationIndex :=
  let children := foldl add_index ∅ (imap pair (g_memberships g)) in
  MkNavigationIndex (sort_by (compare_indexes (g_memberships g)) <$> children).

Record ViewState := MkViewState {
  vs_active : option GenerationNumber;
  vs_generations : gmap GenerationNumber HierarchyGeneration;
  vs_navigation : gmap GenerationNumber NavigationIndex;
  vs_dirty_through : option CommitSeq;
  vs_invalidations : list HierarchyInvalidation;
}.
Definition ViewState_default : ViewState := MkViewState None ∅ ∅ None [].

Record Catalog := MkCatalog {
  cat_epoch : HierarchyEpoch;
  cat_views : gmap HierarchyViewId ViewState;
}.
Definition Catalog_default : Catalog := MkCatalog EPOCH_GENESIS ∅.

Record RepositoryState := MkRepositoryState {
  rs_current : Catalog;
  rs_history : gmap HierarchyEpoch Catalog;
}.

Record DeletionRegistry := MkDeletionRegistry {
  reg_epoch : HierarchyEpoch;
  deleted_nodes : gmap (WorkspaceId * NodeId) CommitSeq;
  deleted_lineage : gmap (WorkspaceId * LineageNode) CommitSeq;
}.
Definition DeletionRegistry_default : DeletionRegistry := MkDeletionRegistry EPOCH_GENESIS ∅ ∅.

Record HierarchyEngine := MkHierarchyEngine {
  en_state : RepositoryState;
  en_deletions : DeletionRegistry;
}.
Definition HierarchyEngine_new : HierarchyEngine :=
  MkHierarchyEngine (MkRepositoryState Catalog_default {[EPOCH_GENESIS := Catalog_default]}) DeletionRegistry_default.

(** The new catalog becomes current and is retained under its epoch. *)
Definition install (s : RepositoryState) (catalog : Catalog) : RepositoryState :=
  MkRepositoryState catalog (<[cat_epoch catalog := catalog]> (rs_history s)).

(** ** Dependencies *)

Definition provenance_depends_on_node (p : HierarchyProvenance) (node_id : NodeId) : bool :=
  existsb (λ input, match input with LineageNodeRevision id _ => bool_decide (id = node_id) | _ => false end)
    (inputs (hp_derivation p)).
Definition item_depends_on_node (item : HierarchyItemId) (p : HierarchyProvenance) (node_id : NodeId) : bool :=
  bool_decide (item = ItemSemantic node_id) || provenance_depends_on_node p node_id.
Definition provenance_depends_on_lineage (p : HierarchyProvenance) (dependency : LineageNode) : bool :=
  bool_decide (dependency ∈ inputs (hp_derivation p)).

(** A proposal and a generation are searched in the same way. *)
Definition contents_depend_on_node (nodes : gmap HierarchyItemId HierarchyNode) (memberships : list HierarchyMembership)
    (build : HierarchyProvenance) (node_id : NodeId) : bool :=
  existsb (λ node, item_depends_on_node (hn_id node) (hn_provenance node) node_id) (bt_values nodes)
  || existsb (λ m, provenance_depends_on_node (hm_provenance m) node_id) memberships
  || provenance_depends_on_node build node_id.
Definition contents_depend_on_lineage (nodes : gmap HierarchyItemId HierarchyNode) (memberships : list HierarchyMembership)
    (build : HierarchyProvenance) (dependency : LineageNode) : bool :=
  existsb (λ node, provenance_depends_on_lineage (hn_provenance node) dependency) (bt_values nodes)
  || existsb (λ m, provenance_depends_on_lineage (hm_provenance m) dependency) memberships
  || provenance_depends_on_lineage build dependency.

Definition proposal_depends_on_node (v : ValidatedHierarchyProposal) (node_id : NodeId) : bool :=
  contents_depend_on_node (hp_nodes (v_proposal v)) (hp_memberships (v_proposal v)) (hp_build_provenance (v_proposal v)) node_id.
Definition proposal_depends_on_lineage (v : ValidatedHierarchyProposal) (dependency : LineageNode) : bool :=
  contents_depend_on_lineage (hp_nodes (v_proposal v)) (hp_memberships (v_proposal v)) (hp_build_provenance (v_proposal v)) dependency.
Definition generation_depends_on_node (g : HierarchyGeneration) (node_id : NodeId) : bool :=
  contents_depend_on_node (g_nodes g) (g_memberships g) (g_build_provenance g) node_id.
Definition generation_depends_on_lineage (g : HierarchyGeneration) (dependency : LineageNode) : bool :=
  contents_depend_on_lineage (g_nodes g) (g_memberships g) (g_build_provenance g) dependency.
Definition generation_depends_on_deletion (g : HierarchyGeneration) (d : DeletionRecord) : bool :=
  existsb (generation_depends_on_node g) (bt_elements (dr_node_ids d))
  || existsb (generation_depends_on_lineage g) (bt_elements (dr_lineage_dependencies d)).

Definition reject_deleted_dependencies (v : ValidatedHierarchyProposal) (deletions : DeletionRegistry) : Result unit :=
  let workspace := pr_workspace_id (hp_profile (v_proposal v)) in
  try? for_each (λ key : WorkspaceId * NodeId,
      if bool_decide (key.1 = workspace) && proposal_depends_on_node v key.2
      then Err (DeletedDependency key.2) else Ok tt) (bt_keys (deleted_nodes deletions)) in
  for_each (λ key : WorkspaceId * LineageNode,
    if bool_decide (key.1 = workspace) && proposal_depends_on_lineage v key.2
    then Err (DeletedLineageDependency key.2) else Ok tt) (bt_keys (deleted_lineage deletions)).

(** ** [publish] *)

(** The watermark that the active generation and an invalidation require. *)
Definition required_watermark (view : option ViewState) (p : HierarchyProposal) : Result CommitSeq :=
  match view with
  | None => Ok GENESIS
  | Some view =>
      let? required :=
        match vs_active view ≫= λ number, vs_generations view !! number with
        | None => Ok GENESIS
        | Some active =>
            let profile := hp_profile p in
            if bool_decide (pr_workspace_id (g_profile active) ≠ pr_workspace_id profile)
            then Err (WorkspaceMismatch (pr_id profile) (pr_workspace_id profile))
            else if (pr_profile_revision profile <? pr_profile_revision (g_profile active))%N
            then Err (ProfileRevisionRegression (pr_profile_revision (g_profile active)) (pr_profile_revision profile))
            else if (pr_profile_revision profile =? pr_profile_revision (g_profile active))%N
                 && bool_decide (profile ≠ g_profile active)
            then Err (ProfileRevisionReuse (pr_profile_revision profile))
            else Ok (snapshot_commit_seq (g_built_from active))
        end in
      Ok match vs_dirty_through view with
         | Some dirty => N.max required dirty
         | None => required
         end
  end.

Definition published_generation (v : ValidatedHierarchyProposal) (epoch : HierarchyEpoch) : HierarchyGeneration :=
  let p := v_proposal v in
  MkHierarchyGeneration (hp_profile p) (hp_generation p) (hp_built_from p) epoch (hp_roots p) (hp_nodes p)
    (hp_memberships p) (v_statistics v) (v_digest v) (hp_build_provenance p).

Definition add_generation (view : ViewState) (g : HierarchyGeneration) : ViewState :=
  MkViewState (Some (g_generation g))
    (<[g_generation g := g]> (vs_generations view))
    (<[g_generation g := NavigationIndex_build g]> (vs_navigation view))
    (match vs_dirty_through view with
     | Some dirty => if (dirty <=? snapshot_commit_seq (g_built_from g))%N then None else Some dirty
     | None => None
     end)
    (vs_invalidations view).

Definition publish_checked (e : HierarchyEngine) (v : ValidatedHierarchyProposal)
    : Result (HierarchyEngine * HierarchyGenerationRef) :=
  try? reject_deleted_dependencies v (en_deletions e) in
  let p := v_proposal v in
  let current := rs_current (en_state e) in
  let current_view := cat_views current !! pr_id (hp_profile p) in
  let active := current_view ≫= vs_active in
  if bool_decide (active ≠ hp_expected_active p) then Err ActiveGenerationConflict
  else
  let? expected :=
    match active with
    | Some generation => GenerationNumber_checked_next generation
    | None => GenerationNumber_new 1
    end in
  if bool_decide (hp_generation p ≠ expected) then Err (GenerationConflict expected (hp_generation p))
  else
  let? required := required_watermark current_view p in
  if (snapshot_commit_seq (hp_built_from p) <? required)%N
  then Err (StaleProposal (snapshot_commit_seq (hp_built_from p)) required)
  else
  let? epoch := HierarchyEpoch_checked_next (cat_epoch current) in
  let generation := published_generation v epoch in
  let view := add_generation (default ViewState_default current_view) generation in
  let catalog := MkCatalog epoch (<[pr_id (hp_profile p) := view]> (cat_views current)) in
  Ok (MkHierarchyEngine (install (en_state e) catalog) (en_deletions e), generation_reference generation).

Definition publish (e : HierarchyEngine) (v : ValidatedHierarchyProposal)
    : HierarchyEngine * Result HierarchyGenerationRef :=
  match publish_checked e v with
  | Ok (e', reference) => (e', Ok reference)
  | Err error => (e, Err error)
  end.

(** ** [invalidate] *)

Definition mark_dirty (view : ViewState) (through : CommitSeq) (invalidation : HierarchyInvalidation) : ViewState :=
  MkViewState (vs_active view) (vs_generations view) (vs_navigation view)
    (Some match vs_dirty_through view with Some current => N.max current through | None => through end)
    (vs_invalidations view ++ [invalidation]).

Definition invalidate_checked (e : HierarchyEngine) (i : HierarchyInvalidation) : Result (HierarchyEngine * HierarchyEpoch) :=
  try? match iv_reason i with
       | ReasonDomain label => validate_text label "hierarchy_invalidation.reason"
       | _ => Ok tt
       end in
  let current := rs_current (en_state e) in
  let? view := ok_or (cat_views current !! iv_view_id i) ViewUnavailable in
  let? active := ok_or (vs_active view ≫= λ number, vs_generations view !! number) ViewUnavailable in
  if bool_decide (pr_workspace_id (g_profile active) ≠ iv_workspace_id i)
  then Err (WorkspaceMismatch (iv_view_id i) (iv_workspace_id i))
  else
  let? epoch := HierarchyEpoch_checked_next (cat_epoch current) in
  let view := mark_dirty view (iv_dirty_through i) i in
  let catalog := MkCatalog epoch (<[iv_view_id i := view]> (cat_views current)) in
  Ok (MkHierarchyEngine (install (en_state e) catalog) (en_deletions e), epoch).

Definition invalidate (e : HierarchyEngine) (i : HierarchyInvalidation) : HierarchyEngine * Result HierarchyEpoch :=
  match invalidate_checked e i with
  | Ok (e', epoch) => (e', Ok epoch)
  | Err error => (e, Err error)
  end.

(** ** [record_deletions] *)

(** [entry(key).and_modify(min).or_insert(effective_at)]. *)
Definition delete_entry `{Countable K} (effective_at : CommitSeq) (m : gmap K CommitSeq) (key : K) : gmap K CommitSeq :=
  <[key := match m !! key with Some current => N.min current effective_at | None => effective_at end]> m.

Definition register (r : DeletionRegistry) (d : DeletionRecord) (epoch : HierarchyEpoch) : DeletionRegistry :=
  MkDeletionRegistry epoch
    (foldl (delete_entry (dr_effective_at d)) (deleted_nodes r) (pair (dr_workspace_id d) <$> bt_elements (dr_node_ids d)))
    (foldl (delete_entry (dr_effective_at d)) (deleted_lineage r)
      (pair (dr_workspace_id d) <$> bt_elements (dr_lineage_dependencies d))).

Definition affected_items (g : HierarchyGeneration) (d : DeletionRecord) : gset HierarchyItemId :=
  list_to_set (hn_id <$> List.filter (λ node,
    existsb (item_depends_on_node (hn_id node) (hn_provenance node)) (bt_elements (dr_node_ids d))
    || existsb (provenance_depends_on_lineage (hn_provenance node)) (bt_elements (dr_lineage_dependencies d)))
    (bt_values (g_nodes g))).

Definition close_view (d : DeletionRecord) (view_id : HierarchyViewId) (view : ViewState) : ViewState :=
  match vs_active view ≫= λ number, vs_generations view !! number with
  | None => view
  | Some active =>
      if bool_decide (pr_workspace_id (g_profile active) ≠ dr_workspace_id d) || negb (generation_depends_on_deletion active d)
      then view
      else mark_dirty view (dr_effective_at d)
        (MkInvalidation view_id (dr_workspace_id d) (dr_effective_at d) ReasonDeletion (affected_items active d))
  end.

Definition record_deletions (e : HierarchyEngine) (d : DeletionRecord) : HierarchyEngine * Result HierarchyEpoch :=
  if bool_decide (dr_node_ids d = ∅) && bool_decide (dr_lineage_dependencies d = ∅)
  then (e, Ok (reg_epoch (en_deletions e)))
  else
  match for_each (λ dependency, map_err invalid_provenance (LineageNode_validate dependency))
          (bt_elements (dr_lineage_dependencies d)) with
  | Err error => (e, Err error)
  | Ok _ =>
      match HierarchyEpoch_checked_next (reg_epoch (en_deletions e)) with
      | Err error => (e, Err error)
      | Ok deletion_epoch =>
          let registry := register (en_deletions e) d deletion_epoch in
          let current := rs_current (en_state e) in
          match HierarchyEpoch_checked_next (cat_epoch current) with
          | Err error => (MkHierarchyEngine (en_state e) registry, Err error)
          | Ok epoch =>
              let catalog := MkCatalog epoch (map_imap (λ view_id view, Some (close_view d view_id view)) (cat_views current)) in
              (MkHierarchyEngine (install (en_state e) catalog) registry, Ok deletion_epoch)
          end
      end
  end.

(** ** [snapshot] *)

(** The catalog of a snapshot; reads see the live deletion registry beside it. *)
Definition snapshot (e : HierarchyEngine) (selector : HierarchySnapshotSelector) : Result Catalog :=
  match selector with
  | Latest => Ok (rs_current (en_state e))
  | At epoch =>
      ok_or (rs_history (en_state e) !! epoch) (SnapshotUnavailable epoch (cat_epoch (rs_current (en_state e))))
  end.
