(* ===== verification/HierReads.v ===== *)
(** * Hierarchy views: the queries (crate contextdb-hierarchy: engine.rs)

    Selection of a generation, visibility of nodes and memberships, single nodes,
    branch statistics, routes, beam traversal and the validation of cached routes.
    A read takes the catalog of its snapshot and the deletion registry at the time
    of the read.  The digest of a route uses BLAKE3 and JSON texts. *)

From S2P Require Import Prelude.
From S2P Require Import Ordering.
From S2P Require Import Bytes.
From S2P Require Import Format.
From S2P Require Import CoreBase.
From S2P Require Import Provenance.
From S2P Require Import Evidence.
From S2P Require Import Hierarchy.
From S2P Require Import HierValidate.
From S2P Require Import HierEngine.

(** ** Selection and freshness *)

Definition select_generation (view : ViewState) (semantic_snapshot : SnapshotRef) (authorization : AuthorizationSnapshot)
    : Result HierarchyGeneration :=
  let commit_seq := snapshot_commit_seq semantic_snapshot in
  if (auth_evaluated_at authorization <? commit_seq)%N then Err RouteUnavailable
  else
  let? generation := ok_or (List.find (λ g, snapshot_commit_seq (g_built_from g) <=? commit_seq)%N
    (rev (bt_values (vs_generations view)))) (GenerationUnavailable commit_seq) in
  if bool_decide (pr_workspace_id (g_profile generation) ≠ auth_workspace_id authorization)
     || negb (existsb (λ partition, (pp_policy_revision partition <=? auth_evaluated_at authorization)%N
                                    && allows authorization (pp_id partition))
          (bt_values (pr_partitions (g_profile generation))))
  then Err RouteUnavailable
  else Ok generation.

Definition generation_freshness (view : ViewState) (generation : HierarchyGeneration) (semantic_snapshot : SnapshotRef)
    : GenerationFreshness :=
  let covered := snapshot_commit_seq (g_built_from generation) in
  let commit_seq := snapshot_commit_seq semantic_snapshot in
  let dirty_relevant :=
    match vs_dirty_through view with
    | Some dirty => (dirty <=? commit_seq)%N && (covered <? dirty)%N
    | None => false
    end in
  MkFreshness covered commit_seq (vs_dirty_through view) ((covered =? commit_seq)%N && negb dirty_relevant).

Definition require_freshness (freshness : GenerationFreshness) (requirement : FreshnessRequirement) : Result unit :=
  if bool_decide (requirement = RequireCurrent) && negb (is_current freshness)
  then Err (StaleGeneration (covered_through freshness) (requested freshness))
  else Ok tt.

(** The common beginning of the reads of one view. *)
Definition open_view (catalog : Catalog) (view_id : HierarchyViewId) (semantic_snapshot : SnapshotRef)
    (requirement : FreshnessRequirement) (authorization : AuthorizationSnapshot)
    : Result (ViewState * HierarchyGeneration * GenerationFreshness) :=
  let? view := ok_or (cat_views catalog !! view_id) RouteUnavailable in
  let? generation := select_generation view semantic_snapshot authorization in
  let freshness := generation_freshness view generation semantic_snapshot in
  try? require_freshness freshness requirement in
  Ok (view, generation, freshness).

(** ** Visibility *)

Definition has_key `{Countable K} {V} (m : gmap K V) (key : K) : bool := bool_decide (is_Some (m !! key)).

Definition provenance_deleted (workspace_id : WorkspaceId) (p : HierarchyProvenance) (deletions : DeletionRegistry) : bool :=
  existsb (λ input,
    has_key (deleted_lineage deletions) (workspace_id, input)
    || match input with
       | LineageNodeRevision id _ => has_key (deleted_nodes deletions) (workspace_id, id)
       | _ => false
       end) (inputs (hp_derivation p)).

Definition item_or_provenance_deleted (workspace_id : WorkspaceId) (item : HierarchyItemId) (p : HierarchyProvenance)
    (deletions : DeletionRegistry) : bool :=
  match item with
  | ItemSemantic node_id => has_key (deleted_nodes deletions) (workspace_id, node_id)
  | ItemBranch _ => false
  end || provenance_deleted workspace_id p deletions.

Section visibility.
Context (deletions : DeletionRegistry) (authorization : AuthorizationSnapshot).
Context (semantic_snapshot : SnapshotRef) (domain_time : option TimestampMicros).
Context (generation : HierarchyGeneration).

Definition node_visible (item : HierarchyItemId) : bool :=
  let workspace_id := pr_workspace_id (g_profile generation) in
  match g_nodes generation !! item with
  | None => false
  | Some node =>
      bool_decide (workspace_id = auth_workspace_id authorization)
      && allows authorization (hn_partition node)
      && visible_at (hn_validity node) semantic_snapshot domain_time
      && negb (provenance_deleted workspace_id (g_build_provenance generation) deletions)
      && negb (item_or_provenance_deleted workspace_id (hn_id node) (hn_provenance node) deletions)
  end.

Definition membership_visible (m : HierarchyMembership) : bool :=
  visible_at (hm_validity m) semantic_snapshot domain_time
  && node_visible (hm_parent m)
  && node_visible (hm_child m)
  && negb (provenance_deleted (pr_workspace_id (g_profile generation)) (hm_provenance m) deletions).

Abbreviation Parents := (gmap HierarchyItemId (list HierarchyMembership)).
Definition add_parent (parents : Parents) (m : HierarchyMembership) : Parents :=
  if membership_visible m then <[hm_child m := default [] (parents !! hm_child m) ++ [m]]> parents else parents.
Definition visible_parents : Parents :=
  sort_by membership_order <$> foldl add_parent ∅ (g_memberships generation).

Definition add_child (adjacency : Adjacency) (m : HierarchyMembership) : Adjacency :=
  if membership_visible m
  then match adjacency !! hm_parent m with
       | Some children => <[hm_parent m := children ++ [hm_child m]]> adjacency
       | None => adjacency
       end
  else adjacency.
Definition visible_adjacency : Adjacency :=
  let adjacency : Adjacency :=
    list_to_map ((λ item, (item, [])) <$> List.filter node_visible (bt_keys (g_nodes generation))) in
  sort_by cmp <$> foldl add_child adjacency (g_memberships generation).
End visibility.

Definition count_child (incoming : Counts) (child : HierarchyItemId) : Counts :=
  <[child := (default 0 (incoming !! child) + 1)%N]> incoming.
Definition incoming_counts (adjacency : Adjacency) : Counts := foldl count_child ∅ (mjoin (bt_values adjacency)).

(** ** Single items *)

Definition resolve_node (catalog : Catalog) (deletions : DeletionRegistry) (view_id : HierarchyViewId)
    (item : HierarchyItemId) (semantic_snapshot : SnapshotRef) (domain_time : option TimestampMicros)
    (requirement : FreshnessRequirement) (authorization : AuthorizationSnapshot)
    : Result (HierarchyNode * GenerationFreshness) :=
  let? '(view, generation, freshness) := open_view catalog view_id semantic_snapshot requirement authorization in
  if negb (node_visible deletions authorization semantic_snapshot domain_time generation item) then Err RouteUnavailable
  else
  let? node := ok_or (g_nodes generation !! item) RouteUnavailable in
  Ok (node, freshness).

Definition branch_statistics (catalog : Catalog) (deletions : DeletionRegistry) (view_id : HierarchyViewId)
    (item : HierarchyItemId) (semantic_snapshot : SnapshotRef) (requirement : FreshnessRequirement)
    (authorization : AuthorizationSnapshot) : Result (BranchStatistics * GenerationFreshness) :=
  let? '(view, generation, freshness) := open_view catalog view_id semantic_snapshot requirement authorization in
  if negb (node_visible deletions authorization semantic_snapshot None generation item) then Err RouteUnavailable
  else
  let adjacency := visible_adjacency deletions authorization semantic_snapshot None generation in
  let incoming := incoming_counts adjacency in
  let? topological := topological_order adjacency incoming in
  let roots := computed_roots adjacency incoming in
  let? statistics := ok_or (compute_statistics adjacency roots topological !! item) RouteUnavailable in
  Ok (statistics, freshness).

Definition available_views (catalog : Catalog) (deletions : DeletionRegistry) (semantic_snapshot : SnapshotRef)
    (authorization : AuthorizationSnapshot) : list HierarchyViewId :=
  omap (λ entry : HierarchyViewId * ViewState,
    match select_generation entry.2 semantic_snapshot authorization with
    | Err _ => None
    | Ok generation =>
        if bool_decide (g_nodes generation = ∅)
           || existsb (node_visible deletions authorization semantic_snapshot None generation) (bt_keys (g_nodes generation))
        then Some entry.1 else None
    end) (bt_entries (cat_views catalog)).

(** ** Routes *)

Class RouteJson := {
  #[global] domain_time_json :: Serialize (option TimestampMicros);
  #[global] items_json :: Serialize (list HierarchyItemId);
  #[global] nodes_json :: Serialize (list HierarchyNode);
  #[global] memberships_json :: Serialize (list HierarchyMembership);
}.

Definition count_alternatives (r : HierarchyRoute) : N :=
  len (filter (λ m, hm_role m = RoleAlternative) (rt_memberships r)).
Definition route_order (left right : HierarchyRoute) : comparison :=
  then_with (cmp (count_alternatives left) (count_alternatives right))
  (then_with (cmp (rt_confidence right) (rt_confidence left))
  (cmp (rt_items left) (rt_items right))).

Definition validate_route_budget (r : RouteRequest) : Result unit :=
  if (rr_max_routes r =? 0)%N then Err (InvalidBudget "max_routes")
  else if (rr_max_depth r =? 0)%N then Err (InvalidBudget "max_depth")
  else Ok tt.

Record RouteState := MkRouteState {
  st_current : HierarchyItemId;
  reversed_items : list HierarchyItemId;
  reversed_memberships : list HierarchyMembership;
  st_confidence : Confidence;
}.

(** One parent of the item at the end of a partial route. *)
Definition extend_route (generation : HierarchyGeneration) (st : RouteState) (m : HierarchyMembership) : option RouteState :=
  if bool_decide (hm_parent m ∈ reversed_items st) then None
  else
  parent ← g_nodes generation !! hm_parent m;
  Some (MkRouteState (hm_parent m) (reversed_items st ++ [hm_parent m]) (reversed_memberships st ++ [m])
    (combine (combine (st_confidence st) (hm_confidence m)) (hn_confidence parent))).

(** The stack is a list with its top at the head; the pushed states come from the
    last parent to the first. *)
Definition push_parents (generation : HierarchyGeneration) (st : RouteState) (stack : list RouteState)
    (edges : list HierarchyMembership) : list RouteState :=
  foldl (λ stack m, match extend_route generation st m with Some next => next :: stack | None => stack end)
    stack (rev edges).

(** A partial route at least of length [n] has at most [n] further items, each with
    at most as many parents as there are memberships. *)
Definition route_fuel (generation : HierarchyGeneration) : positive :=
  N.succ_pos ((len (g_memberships generation) + 1) ^ (N.of_nat (size (g_nodes generation)) + 1)).

Section routes.
Context `{Blake3} `{!RouteJson}.

Definition route_digest (r : HierarchyRoute) : Result bytes :=
  let? domain_time := to_vec (rt_domain_time r) in
  let? items := to_vec (rt_items r) in
  let? nodes := to_vec (rt_nodes r) in
  let? memberships := to_vec (rt_memberships r) in
  Ok (blake3_hash (str_bytes "contextdb-hierarchy-materialized-route-v1" ++ [x00]
    ++ as_bytes (as_uuid (gr_view_id (rt_generation r)))
    ++ to_be_bytes 8 (generation_value (gr_generation (rt_generation r)))
    ++ to_be_bytes 8 (rt_hierarchy_epoch r) ++ to_be_bytes 8 (rt_deletion_epoch r)
    ++ to_be_bytes 8 (snapshot_commit_seq (rt_semantic_snapshot r))
    ++ domain_time ++ items ++ nodes ++ memberships
    ++ to_be_bytes 2 (basis_points (rt_confidence r)))).

Abbreviation Search := (list RouteState * list HierarchyRoute * bool)%type.
Abbreviation Found := (Result (list HierarchyRoute * bool)).

Section search.
Context (catalog : Catalog) (deletions : DeletionRegistry) (request : RouteRequest).
Context (generation : HierarchyGeneration) (freshness : GenerationFreshness).
Context (visible_roots : gset HierarchyItemId) (parents : gmap HierarchyItemId (list HierarchyMembership)).

Definition with_digest (r : HierarchyRoute) (digest : bytes) : HierarchyRoute :=
  MkHierarchyRoute (rt_generation r) (rt_hierarchy_epoch r) (rt_deletion_epoch r) (rt_semantic_snapshot r)
    (rt_domain_time r) (rt_items r) (rt_nodes r) (rt_memberships r) (rt_confidence r) (rt_freshness r) digest.

(** The route of a state that reached a root. *)
Definition finish_route (st : RouteState) : Result HierarchyRoute :=
  let items := rev (reversed_items st) in
  let memberships := rev (reversed_memberships st) in
  let nodes := omap (λ item, g_nodes generation !! item) items in
  if negb (length nodes =? length items)%nat then Err RouteUnavailable
  else
  let route := MkHierarchyRoute (generation_reference generation) (cat_epoch catalog) (reg_epoch deletions)
    (rr_semantic_snapshot request) (rr_domain_time request) items nodes memberships (st_confidence st) freshness
    (replicate 32 x00) in
  let? digest := route_digest route in
  Ok (with_digest route digest).

Definition route_step (s : Search) : Search + Found :=
  let '(stack, routes, truncated) := s in
  match stack with
  | [] => inr (Ok (routes, truncated))
  | st :: stack =>
      if bool_decide (st_current st ∈ visible_roots) then
        match finish_route st with
        | Err e => inr (Err e)
        | Ok route =>
            let routes := routes ++ [route] in
            if (len routes =? rr_max_routes request)%N then inr (Ok (routes, truncated || negb (is_empty stack)))
            else inl (stack, routes, truncated)
        end
      else if (rr_max_depth request <=? len (reversed_memberships st))%N then inl (stack, routes, true)
      else
      match parents !! st_current st with
      | None => inl (stack, routes, truncated)
      | Some parent_edges => inl (push_parents generation st stack parent_edges, routes, truncated)
      end
  end.
End search.

(** What is reported of a search that ended. *)
Definition report_routes (freshness : GenerationFreshness) (found : Found) : Result RouteMaterialization :=
  let? '(routes, truncated) := found in
  if is_empty routes then Err RouteUnavailable
  else Ok (MkRouteMaterialization (sort_by route_order routes) truncated freshness).

(** [None] means that the search did not end within its fuel. *)
Definition materialize_routes (catalog : Catalog) (deletions : DeletionRegistry) (request : RouteRequest)
    (authorization : AuthorizationSnapshot) : option (Result RouteMaterialization) :=
  let prepared : Result (HierarchyGeneration * GenerationFreshness * HierarchyNode) :=
    try? validate_route_budget request in
    let? '(view, generation, freshness) :=
      open_view catalog (rr_view_id request) (rr_semantic_snapshot request) (rr_freshness request) authorization in
    if negb (node_visible deletions authorization (rr_semantic_snapshot request) (rr_domain_time request) generation
               (rr_target request)) then Err RouteUnavailable
    else
    let? target := ok_or (g_nodes generation !! rr_target request) RouteUnavailable in
    Ok (generation, freshness, target) in
  match prepared with
  | Err e => Some (Err e)
  | Ok (generation, freshness, target) =>
      let visible := node_visible deletions authorization (rr_semantic_snapshot request) (rr_domain_time request) generation in
      let visible_roots : gset HierarchyItemId := list_to_set (List.filter visible (bt_elements (g_roots generation))) in
      let parents := visible_parents deletions authorization (rr_semantic_snapshot request) (rr_domain_time request) generation in
      let start := MkRouteState (rr_target request) [rr_target request] [] (hn_confidence target) in
      match loop_pos (route_fuel generation)
          (route_step catalog deletions request generation freshness visible_roots parents) ([start], [], false) with
      | inl _ => None
      | inr found => Some (report_routes freshness found)
      end
  end.

(** ** Cached routes *)

Definition node_current (deletions : DeletionRegistry) (authorization : AuthorizationSnapshot) (route : HierarchyRoute)
    (generation : HierarchyGeneration) (entry : HierarchyItemId * HierarchyNode) : Result unit :=
  let '(item, cached_node) := entry in
  if negb (node_visible deletions authorization (rt_semantic_snapshot route) (rt_domain_time route) generation item)
     || bool_decide (g_nodes generation !! item ≠ Some cached_node)
     || bool_decide (hn_id cached_node ≠ item)
  then Err StaleRoute else Ok tt.

(** The lengths were compared before, so the lookups succeed. *)
Definition membership_current (deletions : DeletionRegistry) (authorization : AuthorizationSnapshot) (route : HierarchyRoute)
    (generation : HierarchyGeneration) (entry : nat * HierarchyMembership) : Result unit :=
  let '(index, m) := entry in
  if bool_decide (Some (hm_parent m) ≠ rt_items route !! index)
     || bool_decide (Some (hm_child m) ≠ rt_items route !! S index)
     || negb (bool_decide (m ∈ g_memberships generation))
     || negb (membership_visible deletions authorization (rt_semantic_snapshot route) (rt_domain_time route) generation m)
  then Err StaleRoute else Ok tt.

Definition validate_route (catalog : Catalog) (deletions : DeletionRegistry) (route : HierarchyRoute)
    (authorization : AuthorizationSnapshot) : Result unit :=
  if negb (rt_hierarchy_epoch route =? cat_epoch catalog)%N
     || is_empty (rt_items route)
     || negb (length (rt_nodes route) =? length (rt_items route))%nat
     || negb (saturating_add USIZE_MAX (len (rt_memberships route)) 1 =? len (rt_items route))%N
  then Err StaleRoute
  else
  let? digest := route_digest route in
  if bool_decide (rt_integrity_digest route ≠ digest) then Err StaleRoute
  else if negb (rt_deletion_epoch route =? reg_epoch deletions)%N then Err StaleRoute
  else
  let? view := ok_or (cat_views catalog !! gr_view_id (rt_generation route)) StaleRoute in
  let? generation := ok_or (vs_generations view !! gr_generation (rt_generation route)) StaleRoute in
  if bool_decide (generation_reference generation ≠ rt_generation route)
     || bool_decide (generation_freshness view generation (rt_semantic_snapshot route) ≠ rt_freshness route)
     || match head (rt_items route) with Some root => negb (bool_decide (root ∈ g_roots generation)) | None => true end
  then Err StaleRoute
  else
  try? for_each (node_current deletions authorization route generation) (zip (rt_items route) (rt_nodes route)) in
  for_each (membership_current deletions authorization route generation) (imap pair (rt_memberships route)).
End routes.

(** ** Beam traversal *)

Definition traversal_order (left right : TraversalHit) : comparison :=
  then_with (cmp (th_confidence right) (th_confidence left)) (cmp (th_path left) (th_path right)).

Definition validate_beam_budget (r : BeamTraversalRequest) : Result unit :=
  if (br_beam_width r =? 0)%N then Err (InvalidBudget "beam_width")
  else if (br_max_depth r =? 0)%N then Err (InvalidBudget "max_depth")
  else if (br_max_expansions r =? 0)%N then Err (InvalidBudget "max_expansions")
  else Ok tt.

(** A loop over a list: [inl] goes on, [inr] leaves the loop. *)
Fixpoint fold_break {A B} (f : B → A → B + B) (acc : B) (xs : list A) : B + B :=
  match xs with
  | [] => inl acc
  | x :: xs =>
      match f acc x with
      | inl acc => fold_break f acc xs
      | inr acc => inr acc
      end
  end.
Definition either {B} (r : B + B) : B := match r with inl b | inr b => b end.

(** [Vec::dedup_by] on paths: neighbours with one path are merged. *)
Fixpoint dedup_paths (hits : list TraversalHit) : list TraversalHit :=
  match hits with
  | [] => []
  | h :: rest =>
      match dedup_paths rest with
      | h' :: rest' => if bool_decide (th_path h = th_path h') then h :: rest' else h :: h' :: rest'
      | [] => [h]
      end
  end.

Record BeamState := MkBeamState {
  bs_depth : N;
  bs_frontier : list TraversalHit;
  bs_hits : list TraversalHit;
  bs_expansions : N;
  bs_truncated : bool;
}.

Section beam.
Context (deletions : DeletionRegistry) (authorization : AuthorizationSnapshot) (request : BeamTraversalRequest).
Context (generation : HierarchyGeneration) (navigation : NavigationIndex).

Abbreviation Expansion := (list TraversalHit * N * bool)%type.

Definition expand_edge (depth : N) (hit : TraversalHit) (acc : Expansion) (index : nat) : Expansion + Expansion :=
  let '(candidates, expansions, truncated) := acc in
  match g_memberships generation !! index with
  | None => inl acc
  | Some m =>
      if negb (membership_visible deletions authorization (br_semantic_snapshot request) (br_domain_time request) generation m)
      then inl acc
      else if (expansions =? br_max_expansions request)%N then inr (candidates, expansions, true)
      else
      let expansions := (expansions + 1)%N in
      if bool_decide (hm_child m ∈ th_path hit) then inl (candidates, expansions, truncated)
      else
      match g_nodes generation !! hm_child m with
      | None => inl (candidates, expansions, truncated)
      | Some child =>
          let next := MkTraversalHit (hm_child m) (th_path hit ++ [hm_child m])
            (combine (combine (th_confidence hit) (hm_confidence m)) (hn_confidence child)) depth in
          inl (candidates ++ [next], expansions, truncated)
      end
  end.

Definition expand_hit (depth : N) (acc : Expansion) (hit : TraversalHit) : Expansion + Expansion :=
  match nav_children navigation !! th_item hit with
  | Some indexes => fold_break (expand_edge depth hit) acc indexes
  | None => inl acc
  end.

Definition has_children (hit : TraversalHit) : bool :=
  match nav_children navigation !! th_item hit with Some edges => negb (is_empty edges) | None => false end.

Definition beam_step (st : BeamState) : BeamState + BeamState :=
  let depth := bs_depth st in
  let '(candidates, expansions, truncated) :=
    either (fold_break (expand_hit depth) ([], bs_expansions st, bs_truncated st) (bs_frontier st)) in
  let candidates := dedup_paths (sort_by traversal_order candidates) in
  let '(candidates, truncated) :=
    if (br_beam_width request <? len candidates)%N
    then (take (N.to_nat (br_beam_width request)) candidates, true) else (candidates, truncated) in
  if is_empty candidates then inr (MkBeamState depth (bs_frontier st) (bs_hits st) expansions truncated)
  else
  let hits := bs_hits st ++ candidates in
  if (expansions =? br_max_expansions request)%N then inr (MkBeamState depth candidates hits expansions truncated)
  else
  let truncated := truncated || ((depth =? br_max_depth request)%N && existsb has_children candidates) in
  inl (MkBeamState (depth + 1) candidates hits expansions truncated).

Definition start_hit (root : HierarchyItemId) : option TraversalHit :=
  if bool_decide (root ∈ g_roots generation)
     && node_visible deletions authorization (br_semantic_snapshot request) (br_domain_time request) generation root
  then (λ node, MkTraversalHit root [root] (hn_confidence node) 0) <$> g_nodes generation !! root
  else None.
End beam.

Definition beam_traverse (catalog : Catalog) (deletions : DeletionRegistry) (request : BeamTraversalRequest)
    (authorization : AuthorizationSnapshot) : Result BeamTraversalResult :=
  try? validate_beam_budget request in
  let? '(view, generation, freshness) :=
    open_view catalog (br_view_id request) (br_semantic_snapshot request) (br_freshness request) authorization in
  let requested_roots := if bool_decide (br_roots request = ∅) then g_roots generation else br_roots request in
  let frontier := sort_by traversal_order
    (omap (start_hit deletions authorization request generation) (bt_elements requested_roots)) in
  let root_count := len frontier in
  let frontier := take (N.to_nat (br_beam_width request)) frontier in
  if is_empty frontier then Err RouteUnavailable
  else
  let? navigation := ok_or (vs_navigation view !! g_generation generation) ManifestMismatch in
  let start := MkBeamState 1 frontier frontier 0 (br_beam_width request <? root_count)%N in
  let final :=
    match br_max_depth request with
    | 0%N => start
    | Npos rounds => either (loop_pos rounds (beam_step deletions authorization request generation navigation) start)
    end in
  Ok (MkBeamResult (bs_hits final) (bs_expansions final) (bs_truncated final) freshness (generation_reference generation)).
