(* ===== verification/HierPersist.v ===== *)
(** * Hierarchy views: the persistent bundle (crate contextdb-hierarchy: engine.rs)

    [export_persistent] and [from_persistent] with the payload types between them.
    The JSON text of the payload and its parser are parameters. *)

From S2P Require Import Prelude.
From S2P Require Import Ordering.
From S2P Require Import Bytes.
From S2P Require Import Format.
From S2P Require Import CoreBase.
From S2P Require Import Provenance.
From S2P Require Import Evidence.
From S2P Require Import Hierarchy.
From S2P Require Import HierValidate.
From S2P Require Import HierEngine.

Definition FORMAT_VERSION : N := 1.

Record PersistentHierarchyBundle := MkBundle {
  pb_schema_version : N;
  pb_current_epoch : HierarchyEpoch;
  pb_payload_digest : bytes;
  pb_payload : bytes;
}.

Record ProfilePayload := MkProfilePayload {
  fp_id : HierarchyViewId;
  fp_workspace_id : WorkspaceId;
  fp_kind : HierarchyKind;
  fp_name : string;
  fp_profile_revision : N;
  fp_partitions : list PolicyPartition;
  fp_assignment : AssignmentPolicy;
}.

Record ItemStatisticsPayload := MkItemStatistics {
  is_item : HierarchyItemId;
  is_statistics : BranchStatistics;
}.

Record GenerationPayload := MkGenerationPayload {
  gp_profile : ProfilePayload;
  gp_generation : GenerationNumber;
  gp_built_from : SnapshotRef;
  gp_published_epoch : HierarchyEpoch;
  gp_roots : list HierarchyItemId;
  gp_nodes : list HierarchyNode;
  gp_memberships : list HierarchyMembership;
  gp_statistics : list ItemStatisticsPayload;
  gp_manifest_digest : ContentDigest;
  gp_build_provenance : HierarchyProvenance;
}.

Record ViewPayload := MkViewPayload {
  vp_view_id : HierarchyViewId;
  vp_active : option GenerationNumber;
  vp_generations : list GenerationPayload;
  vp_dirty_through : option CommitSeq;
  vp_invalidations : list HierarchyInvalidation;
}.

Record CatalogPayload := MkCatalogPayload {
  cp_epoch : HierarchyEpoch;
  cp_views : list ViewPayload;
}.

Record DeletedNodePayload := MkDeletedNode {
  dn_workspace_id : WorkspaceId;
  dn_node_id : NodeId;
  dn_effective_at : CommitSeq;
}.

Record DeletedLineagePayload := MkDeletedLineage {
  dl_workspace_id : WorkspaceId;
  dl_dependency : LineageNode;
  dl_effective_at : CommitSeq;
}.

Record HierarchyStatePayload := MkStatePayload {
  sp_schema_version : N;
  sp_current_epoch : HierarchyEpoch;
  sp_catalogs : list CatalogPayload;
  sp_deletion_epoch : HierarchyEpoch;
  sp_deleted_nodes : list DeletedNodePayload;
  sp_deleted_lineage : list DeletedLineagePayload;
}.

(** ** Export *)

Definition GenerationPayload_from (g : HierarchyGeneration) : GenerationPayload :=
  let p := g_profile g in
  MkGenerationPayload
    (MkProfilePayload (pr_id p) (pr_workspace_id p) (pr_kind p) (pr_name p) (pr_profile_revision p)
      (bt_values (pr_partitions p)) (pr_assignment p))
    (g_generation g) (g_built_from g) (g_published_epoch g) (bt_elements (g_roots g)) (bt_values (g_nodes g))
    (g_memberships g) ((λ e : HierarchyItemId * BranchStatistics, MkItemStatistics e.1 e.2) <$> bt_entries (g_statistics g))
    (g_manifest_digest g) (g_build_provenance g).

Definition export_view (entry : HierarchyViewId * ViewState) : ViewPayload :=
  let '(view_id, view) := entry in
  MkViewPayload view_id (vs_active view) (GenerationPayload_from <$> bt_values (vs_generations view))
    (vs_dirty_through view) (vs_invalidations view).

Definition export_catalog (catalog : Catalog) : CatalogPayload :=
  MkCatalogPayload (cat_epoch catalog) (export_view <$> bt_entries (cat_views catalog)).

Definition export_payload (e : HierarchyEngine) : HierarchyStatePayload :=
  let state := en_state e in
  let deletions := en_deletions e in
  MkStatePayload FORMAT_VERSION (cat_epoch (rs_current state)) (export_catalog <$> bt_values (rs_history state))
    (reg_epoch deletions)
    ((λ e : (WorkspaceId * NodeId) * CommitSeq, MkDeletedNode e.1.1 e.1.2 e.2) <$> bt_entries (deleted_nodes deletions))
    ((λ e : (WorkspaceId * LineageNode) * CommitSeq, MkDeletedLineage e.1.1 e.1.2 e.2) <$> bt_entries (deleted_lineage deletions)).

(** ** Restore *)

(** [insert(key, value).is_some()] is a mismatch. *)
Definition insert_new `{Countable K} {V} (m : gmap K V) (key : K) (value : V) : Result (gmap K V) :=
  if bool_decide (is_Some (m !! key)) then Err ManifestMismatch else Ok (<[key := value]> m).
Definition collect_new `{Countable K} {V A} (key : A → K) (value : A → V) (l : list A) : Result (gmap K V) :=
  try_fold (λ m a, insert_new m (key a) (value a)) ∅ l.

Definition try_into_generation (g : GenerationPayload) : Result HierarchyGeneration :=
  let p := gp_profile g in
  let? partitions := collect_new pp_id id (fp_partitions p) in
  let? nodes := collect_new hn_id id (gp_nodes g) in
  let? statistics := collect_new is_item is_statistics (gp_statistics g) in
  Ok (MkHierarchyGeneration
    (MkHierarchyProfile (fp_id p) (fp_workspace_id p) (fp_kind p) (fp_name p) (fp_profile_revision p) partitions (fp_assignment p))
    (gp_generation g) (gp_built_from g) (gp_published_epoch g) (list_to_set (gp_roots g)) nodes (gp_memberships g)
    statistics (gp_manifest_digest g) (gp_build_provenance g)).

(** [serde_json::from_slice] for the payload; [None] is its error. *)
Class PayloadJson := {
  #[global] payload_json :: Serialize HierarchyStatePayload;
  payload_parse : bytes → option HierarchyStatePayload;
}.
Class PayloadJsonLaws `{!PayloadJson} : Prop := {
  payload_round_trip (p : HierarchyStatePayload) text : to_json p = Some text → payload_parse text = Some p;
}.

Section persistence.
Context `{Blake3} `{!PartitionJson} `{!Serialize CanonicalProposal} `{!PayloadJson}.

Definition export_persistent (e : HierarchyEngine) : Result PersistentHierarchyBundle :=
  let payload := export_payload e in
  let? bytes := to_vec payload in
  Ok (MkBundle FORMAT_VERSION (sp_current_epoch payload) (blake3_hash bytes) bytes).

Abbreviation Generations := (gmap GenerationNumber HierarchyGeneration).
Abbreviation Navigations := (gmap GenerationNumber NavigationIndex).

Definition restore_generation (view_id : HierarchyViewId) (epoch : HierarchyEpoch) (acc : Generations * Navigations)
    (payload : GenerationPayload) : Result (Generations * Navigations) :=
  let '(generations, navigation) := acc in
  let? generation := try_into_generation payload in
  try? verify_manifest generation in
  let number := g_generation generation in
  let index := NavigationIndex_build generation in
  if bool_decide (pr_id (g_profile generation) ≠ view_id) || (epoch <? g_published_epoch generation)%N
     || bool_decide (is_Some (generations !! number)) || bool_decide (is_Some (navigation !! number))
  then Err ManifestMismatch
  else Ok (<[number := generation]> generations, <[number := index]> navigation).

Definition restore_view (epoch : HierarchyEpoch) (views : gmap HierarchyViewId ViewState) (payload : ViewPayload)
    : Result (gmap HierarchyViewId ViewState) :=
  let? '(generations, navigation) :=
    try_fold (restore_generation (vp_view_id payload) epoch) (∅, ∅) (vp_generations payload) in
  if match vp_active payload with Some active => negb (bool_decide (is_Some (generations !! active))) | None => false end
     || bool_decide (is_Some (views !! vp_view_id payload))
  then Err ManifestMismatch
  else Ok (<[vp_view_id payload := MkViewState (vp_active payload) generations navigation (vp_dirty_through payload)
                                     (vp_invalidations payload)]> views).

Definition restore_catalog (history : gmap HierarchyEpoch Catalog) (entry : nat * CatalogPayload)
    : Result (gmap HierarchyEpoch Catalog) :=
  let '(ordinal, payload) := entry in
  let? expected_epoch := ok_or (try_from_max U64_MAX (N.of_nat ordinal)) SequenceExhausted in
  if negb (cp_epoch payload =? expected_epoch)%N then Err ManifestMismatch
  else
  let? views := try_fold (restore_view (cp_epoch payload)) ∅ (cp_views payload) in
  insert_new history (cp_epoch payload) (MkCatalog (cp_epoch payload) views).

Definition restore_lineage (m : gmap (WorkspaceId * LineageNode) CommitSeq) (entry : DeletedLineagePayload)
    : Result (gmap (WorkspaceId * LineageNode) CommitSeq) :=
  try? map_err invalid_provenance (LineageNode_validate (dl_dependency entry)) in
  insert_new m (dl_workspace_id entry, dl_dependency entry) (dl_effective_at entry).

Definition from_persistent (bundle : PersistentHierarchyBundle) : Result HierarchyEngine :=
  if negb (pb_schema_version bundle =? FORMAT_VERSION)%N
     || bool_decide (blake3_hash (pb_payload bundle) ≠ pb_payload_digest bundle)
  then Err ManifestMismatch
  else
  let? payload := ok_or (payload_parse (pb_payload bundle)) Serialization in
  if negb (sp_schema_version payload =? pb_schema_version bundle)%N
     || negb (sp_current_epoch payload =? pb_current_epoch bundle)%N
  then Err ManifestMismatch
  else
  let? history := try_fold restore_catalog ∅ (imap pair (sp_catalogs payload)) in
  let? current := ok_or (history !! sp_current_epoch payload) ManifestMismatch in
  if match last (bt_entries history) with Some (epoch, _) => negb (epoch =? sp_current_epoch payload)%N | None => true end
  then Err ManifestMismatch
  else
  let? deleted_nodes :=
    collect_new (λ e, (dn_workspace_id e, dn_node_id e)) dn_effective_at (sp_deleted_nodes payload) in
  let? deleted_lineage := try_fold restore_lineage ∅ (sp_deleted_lineage payload) in
  Ok (MkHierarchyEngine (MkRepositoryState current history)
    (MkDeletionRegistry (sp_deletion_epoch payload) deleted_nodes deleted_lineage)).
End persistence.
