(* ===== verification/HierRuns.v ===== *)
(** * Hierarchy views: runs of the repository

    Publications of validated proposals, invalidations and deletions as a step
    relation, the invariant of every state they reach, and that the retained
    catalogs never change. *)

From S2P Require Import Prelude.
From S2P Require Import Ordering.
From S2P Require Import Bytes.
From S2P Require Import Format.
From S2P Require Import CoreBase.
From S2P Require Import Provenance.
From S2P Require Import Evidence.
From S2P Require Import Hierarchy.
From S2P Require Import HierValidate.
From S2P Require Import HierDag.
From S2P Require Import HierStats.
From S2P Require Import HierProposal.
From S2P Require Import HierEngine.

(** ** Canonical memberships stay as they are *)

Definition membership_key (m : HierarchyMembership)
    : HierarchyItemId * (N * (Reverse N * (Reverse Confidence * (N * HierarchyItemId)))) :=
  (hm_child m, (role_rank (hm_role m), (MkReverse (precedence (hp_source (hm_provenance m))),
    (MkReverse (hm_confidence m), (hm_order_key m, hm_parent m))))).

Lemma compare_memberships_key a b : compare_memberships a b = cmp (membership_key a) (membership_key b).
Proof. unfold membership_key. rewrite !cmp_pair. reflexivity. Qed.

Lemma sort_by_id {A} `{Ordered K} (compare : A → A → comparison) (key : A → K) l :
  (∀ x y, compare x y = cmp (key x) (key y)) → StronglySorted (λ a b, kle (key a) (key b)) l → sort_by compare l = l.
Proof.
  intros Hkey. induction 1 as [|x l Hl IH Hx]; [done|]. cbn. change (foldr (insert_by compare) [] l) with (sort_by compare l).
  rewrite IH. destruct l as [|y l]; [done|]. cbn. rewrite Hkey. apply Forall_cons in Hx as [Hxy _]. unfold kle in Hxy.
  by destruct (cmp (key x) (key y)).
Qed.

Lemma canonicalize_twice ms : canonicalize_memberships (canonicalize_memberships ms) = canonicalize_memberships ms.
Proof.
  unfold canonicalize_memberships. apply (sort_by_id _ membership_key); [apply compare_memberships_key|].
  apply sort_by_sorted, compare_memberships_key.
Qed.

Section runs.
Context `{Blake3} `{!PartitionJson} `{!Serialize CanonicalProposal}.

Definition with_expected (p : HierarchyProposal) (expected : option GenerationNumber) : HierarchyProposal :=
  MkHierarchyProposal (hp_profile p) (hp_generation p) expected (hp_built_from p) (hp_roots p) (hp_nodes p)
    (hp_memberships p) (hp_build_provenance p).

Lemma proposal_ok_expected p expected : proposal_ok p → proposal_ok (with_expected p expected).
Proof. intros []. by split. Qed.

(** A validated proposal validates again, with the same digest and statistics. *)
Lemma validate_again p v expected :
  validate_proposal p = Ok v →
  validate_proposal (with_expected (v_proposal v) expected) = Ok (MkValidated (with_expected (v_proposal v) expected) (v_digest v) (v_statistics v)).
Proof.
  intros (Hok & order & canonical & Horder & Hcan & Hnz & ->)%validate_proposal_Ok. cbn [v_proposal v_digest v_statistics].
  apply validate_proposal_Ok. split.
  - apply proposal_ok_expected, proposal_ok_Permutation; [apply sort_by_Permutation|done].
  - exists order, canonical. unfold with_expected, with_memberships in *. cbn in *. rewrite canonicalize_twice. done.
Qed.

Lemma published_verifies p v epoch :
  validate_proposal p = Ok v → epoch ≠ 0%N → verify_manifest (published_generation v epoch) = Ok tt.
Proof.
  intros Hv Hepoch. unfold verify_manifest. cbn [g_published_epoch published_generation].
  rewrite (proj2 (N.eqb_neq _ _)) by done. apply result_bind_Ok.
  assert (∃ expected, (if (generation_value (g_generation (published_generation v epoch)) =? 1)%N then Ok None
    else let? previous := GenerationNumber_new (generation_value (g_generation (published_generation v epoch)) - 1) in Ok (Some previous))
    = (Ok expected : Result _)) as [expected Hexp].
  { destruct (N.eqb_spec (generation_value (g_generation (published_generation v epoch))) 1) as [|Hne]; [eauto|].
    destruct (GenerationNumber_new _) as [g|e] eqn:Hg; [eexists; reflexivity|]. exfalso.
    pose proof (generation_nonzero (g_generation (published_generation v epoch))) as Hnz. apply N.eqb_neq in Hnz.
    assert ((generation_value (g_generation (published_generation v epoch)) - 1 =? 0)%N = false) as Hz by (apply N.eqb_neq; lia).
    pose proof (proj2 (GenerationNumber_new_Ok _ (MkGenerationNumber _ Hz)) eq_refl) as Hnew. cbn [generation_value] in Hnew. congruence. }
  exists expected. split; [done|].
  pose proof (validate_again p v expected Hv) as Hagain. unfold with_expected in Hagain.
  cbn [g_profile g_generation g_built_from g_roots g_nodes g_memberships g_build_provenance g_manifest_digest g_statistics published_generation].
  rewrite Hagain. cbn [result_bind v_digest v_statistics]. by rewrite !bool_decide_eq_false_2 by (by intros []).
Qed.

(** ** The step relation *)

Inductive hierarchy_step : HierarchyEngine → HierarchyEngine → Prop :=
  | step_publish e p v : validate_proposal p = Ok v → hierarchy_step e (publish e v).1
  | step_invalidate e i : hierarchy_step e (invalidate e i).1
  | step_delete e d : hierarchy_step e (record_deletions e d).1.

Definition reachable (e : HierarchyEngine) : Prop := rtc hierarchy_step HierarchyEngine_new e.

(** ** The invariant *)

(** A view: its generations are numbered from one to the active one, each is the
    verified publication under its number, and the watermarks of the primary state
    and the epochs never go back. *)
Record view_ok (epoch : HierarchyEpoch) (view_id : HierarchyViewId) (view : ViewState) : Prop := {
  vo_active : ∃ active, vs_active view = Some active ∧
    ∀ k, is_Some (vs_generations view !! k) ↔ (generation_value k ≤ generation_value active)%N;
  vo_generation : ∀ k g, vs_generations view !! k = Some g →
    g_generation g = k ∧ pr_id (g_profile g) = view_id ∧ (g_published_epoch g ≤ epoch)%N ∧ verify_manifest g = Ok tt;
  vo_order : ∀ k k' g g', vs_generations view !! k = Some g → vs_generations view !! k' = Some g' →
    (generation_value k < generation_value k')%N →
    pr_workspace_id (g_profile g) = pr_workspace_id (g_profile g') ∧
    (pr_profile_revision (g_profile g) ≤ pr_profile_revision (g_profile g'))%N ∧
    (snapshot_commit_seq (g_built_from g) ≤ snapshot_commit_seq (g_built_from g'))%N ∧
    (g_published_epoch g < g_published_epoch g')%N;
  vo_navigation : vs_navigation view = NavigationIndex_build <$> vs_generations view;
}.

Record engine_ok (e : HierarchyEngine) : Prop := {
  eo_head : (cat_epoch (rs_current (en_state e)) ≤ U64_MAX)%N;
  eo_current : rs_history (en_state e) !! cat_epoch (rs_current (en_state e)) = Some (rs_current (en_state e));
  eo_epochs : ∀ n, is_Some (rs_history (en_state e) !! n) ↔ (n ≤ cat_epoch (rs_current (en_state e)))%N;
  eo_catalog : ∀ n c, rs_history (en_state e) !! n = Some c →
    cat_epoch c = n ∧ ∀ view_id view, cat_views c !! view_id = Some view → view_ok n view_id view;
  eo_lineage : ∀ w l, is_Some (deleted_lineage (en_deletions e) !! (w, l)) → LineageNode_validate l = Ok tt;
}.

Lemma engine_ok_new : engine_ok HierarchyEngine_new.
Proof.
  split; cbn [HierarchyEngine_new en_state en_deletions rs_current rs_history cat_epoch Catalog_default deleted_lineage DeletionRegistry_default].
  - unfold EPOCH_GENESIS. lia.
  - by rewrite lookup_singleton_eq.
  - intros n. unfold EPOCH_GENESIS. destruct (decide (n = 0%N)) as [->|Hne].
    + rewrite lookup_singleton_eq. split; [done|]. eauto.
    + rewrite lookup_singleton_ne by done. split; [by intros []|]. lia.
  - intros n c [<- <-]%lookup_singleton_Some. split; [done|]. intros view_id view. unfold Catalog_default. cbn [cat_views]. by rewrite lookup_empty.
  - intros w l. unfold DeletionRegistry_default. cbn [deleted_lineage]. rewrite lookup_empty. by intros [].
Qed.

Lemma checked_next_epoch n epoch :
  HierarchyEpoch_checked_next n = Ok epoch → epoch = (n + 1)%N ∧ (epoch ≤ U64_MAX)%N.
Proof. unfold HierarchyEpoch_checked_next. rewrite ok_or_Ok. intros [? ?]%checked_add_Some. subst. done. Qed.

(** Installing a catalog at the next epoch keeps the invariant when its views are
    fine, and changes no retained catalog. *)
Lemma install_ok e catalog registry :
  engine_ok e → HierarchyEpoch_checked_next (cat_epoch (rs_current (en_state e))) = Ok (cat_epoch catalog) →
  (∀ view_id view, cat_views catalog !! view_id = Some view → view_ok (cat_epoch catalog) view_id view) →
  (∀ w l, is_Some (deleted_lineage registry !! (w, l)) → LineageNode_validate l = Ok tt) →
  engine_ok (MkHierarchyEngine (install (en_state e) catalog) registry) ∧
  ∀ n c, rs_history (en_state e) !! n = Some c → rs_history (install (en_state e) catalog) !! n = Some c.
Proof.
  intros [Hhead Hcur Hep Hcat Hlin] [Hnext Hmax]%checked_next_epoch Hviews Hreg. unfold install.
  assert (rs_history (en_state e) !! cat_epoch catalog = None) as Hfresh.
  { apply eq_None_not_Some. rewrite Hep. lia. }
  split; [|intros n c Hn; cbn; rewrite lookup_insert_ne; [done|congruence]].
  split; cbn [en_state en_deletions rs_current rs_history]; [done|by rewrite lookup_insert_eq| | |done].
  - intros n. destruct (decide (cat_epoch catalog = n)) as [<-|Hne].
    + rewrite lookup_insert_eq. split; [lia|eauto].
    + rewrite lookup_insert_ne, Hep by done. lia.
  - intros n c. destruct (decide (cat_epoch catalog = n)) as [<-|Hne].
    + rewrite lookup_insert_eq. by intros [= <-].
    + rewrite lookup_insert_ne by done. apply Hcat.
Qed.

Lemma view_ok_later epoch epoch' view_id view : (epoch ≤ epoch')%N → view_ok epoch view_id view → view_ok epoch' view_id view.
Proof.
  intros Hle []. split; try done. intros k g Hg. destruct (vo_generation0 k g Hg) as (? & ? & ? & ?). split_and!; try done. lia.
Qed.

Lemma mark_dirty_ok epoch view_id view through i : view_ok epoch view_id view → view_ok epoch view_id (mark_dirty view through i).
Proof. intros []. by split. Qed.

Lemma required_watermark_ok view p required active g :
  required_watermark (Some view) p = Ok required → vs_active view = Some active → vs_generations view !! active = Some g →
  pr_workspace_id (g_profile g) = pr_workspace_id (hp_profile p) ∧
  (pr_profile_revision (g_profile g) ≤ pr_profile_revision (hp_profile p))%N ∧
  (snapshot_commit_seq (g_built_from g) ≤ required)%N.
Proof.
  intros Hreq Ha Hg. cbn in Hreq. rewrite Ha in Hreq. cbn in Hreq. rewrite Hg in Hreq. cbn in Hreq.
  case_bool_decide as Hws; [done|]. destruct (N.ltb_spec (pr_profile_revision (hp_profile p)) (pr_profile_revision (g_profile g))); [done|].
  destruct (_ && _); [done|]. cbn in Hreq. injection Hreq as <-. split_and!; [done|done|]. destruct (vs_dirty_through view); lia.
Qed.

(** The new generation extends a view by the next number. *)
Lemma add_generation_ok epoch view_id view active g :
  view_ok epoch view_id view → vs_active view = Some active →
  generation_value (g_generation g) = (generation_value active + 1)%N → pr_id (g_profile g) = view_id →
  g_published_epoch g = (epoch + 1)%N → verify_manifest g = Ok tt →
  (∀ a, vs_generations view !! active = Some a →
    pr_workspace_id (g_profile a) = pr_workspace_id (g_profile g) ∧
    (pr_profile_revision (g_profile a) ≤ pr_profile_revision (g_profile g))%N ∧
    (snapshot_commit_seq (g_built_from a) ≤ snapshot_commit_seq (g_built_from g))%N) →
  view_ok (epoch + 1) view_id (add_generation view g).
Proof.
  intros [(active' & Hact & Hkeys) Hgens Hord Hnav] Ha Hnum Hid Hep Hver Hprev. simplify_eq.
  assert (vs_generations view !! g_generation g = None) as Hfresh by (apply eq_None_not_Some; rewrite Hkeys; lia).
  destruct (proj2 (Hkeys active')) as [last Hlast]; [lia|].
  split; cbn [add_generation vs_active vs_generations vs_navigation].
  - exists (g_generation g). split; [done|]. intros k. destruct (decide (g_generation g = k)) as [<-|Hne].
    + rewrite lookup_insert_eq. split; [lia|eauto].
    + rewrite lookup_insert_ne, Hkeys by done. assert (generation_value (g_generation g) ≠ generation_value k) by (by intros ?%GenerationNumber_inj). lia.
  - intros k h. destruct (decide (g_generation g = k)) as [<-|Hne].
    + rewrite lookup_insert_eq. intros [= <-]. split_and!; try done. lia.
    + rewrite lookup_insert_ne by done. intros Hh. destruct (Hgens k h Hh) as (? & ? & ? & ?). split_and!; try done. lia.
  - intros k k' h h'. destruct (decide (g_generation g = k)) as [<-|Hne].
    { rewrite lookup_insert_eq. intros _ Hh' Hlt. destruct (decide (g_generation g = k')) as [<-|Hne']; [lia|].
      rewrite lookup_insert_ne in Hh' by done. assert (generation_value k' ≤ generation_value active')%N by (apply Hkeys; eauto). lia. }
    rewrite lookup_insert_ne by done. intros Hh. destruct (decide (g_generation g = k')) as [<-|Hne'].
    2:{ rewrite lookup_insert_ne by done. by apply Hord. }
    rewrite lookup_insert_eq. intros [= <-] _. destruct (Hprev last Hlast) as (Hws & Hrev & Hbuilt).
    assert (g_published_epoch h ≤ epoch)%N by (by destruct (Hgens k h Hh) as (_ & _ & ? & _)).
    destruct (decide (k = active')) as [->|Hneq]; [simplify_eq; split_and!; [done|done|done|lia]|].
    assert (generation_value k < generation_value active')%N as Hlt.
    { assert (generation_value k ≤ generation_value active')%N by (apply Hkeys; eauto).
      assert (generation_value k ≠ generation_value active') by (by intros ?%GenerationNumber_inj). lia. }
    destruct (Hord k active' h last Hh Hlast Hlt) as (? & ? & ? & ?). split_and!; [congruence|lia|lia|lia].
  - by rewrite fmap_insert, Hnav.
Qed.

Lemma first_generation_ok epoch g :
  generation_value (g_generation g) = 1%N → g_published_epoch g = epoch → verify_manifest g = Ok tt →
  view_ok epoch (pr_id (g_profile g)) (add_generation ViewState_default g).
Proof.
  intros Hnum Hep Hver. split; cbn [add_generation vs_active vs_generations vs_navigation ViewState_default].
  - exists (g_generation g). split; [done|]. intros k. destruct (decide (g_generation g = k)) as [<-|Hne].
    + rewrite lookup_insert_eq. split; [lia|eauto].
    + rewrite lookup_insert_ne, lookup_empty by done. split; [by intros []|]. intros Hle. destruct Hne.
      apply GenerationNumber_inj. pose proof (generation_nonzero k) as Hk%N.eqb_neq. lia.
  - intros k h [[<- <-]|[_ ?]]%lookup_insert_Some; [|done]. split_and!; try done. lia.
  - intros k k' h h' [[<- <-]|[_ ?]]%lookup_insert_Some [[<- <-]|[_ ?]]%lookup_insert_Some Hlt; try done. lia.
  - rewrite fmap_insert, fmap_empty. done.
Qed.

Lemma publish_checked_ok e p v e' r :
  validate_proposal p = Ok v → engine_ok e → publish_checked e v = Ok (e', r) →
  engine_ok e' ∧ ∀ n c, rs_history (en_state e) !! n = Some c → rs_history (en_state e') !! n = Some c.
Proof.
  intros Hv Hok Hpub. unfold publish_checked in Hpub. cbn zeta in Hpub.
  apply result_bind_Ok in Hpub as ([] & _ & Hpub). case_bool_decide as Hexp; [done|].
  apply result_bind_Ok in Hpub as (expected & Hexpected & Hpub). case_bool_decide as Hgen; [done|].
  apply result_bind_Ok in Hpub as (required & Hreq & Hpub).
  destruct (N.ltb_spec (snapshot_commit_seq (hp_built_from (v_proposal v))) required) as [|Hstale]; [done|].
  apply result_bind_Ok in Hpub as (epoch & Hepoch & [= <- <-]). pose proof (checked_next_epoch _ _ Hepoch) as [-> _].
  pose proof Hok as [_ Hcur _ Hcat Hlin]. destruct (Hcat _ _ Hcur) as [_ Hviews].
  set (g := published_generation v (cat_epoch (rs_current (en_state e)) + 1)).
  assert (verify_manifest g = Ok tt) as Hver by (by apply (published_verifies p v); [|lia]).
  apply install_ok; cbn [cat_epoch cat_views]; [done|done| |done].
  intros view_id view. destruct (decide (pr_id (hp_profile (v_proposal v)) = view_id)) as [<-|Hne].
  2:{ rewrite lookup_insert_ne by done. intros Hview. apply (view_ok_later (cat_epoch (rs_current (en_state e)))); [lia|by apply Hviews]. }
  rewrite lookup_insert_eq. intros [= <-].
  destruct (cat_views (rs_current (en_state e)) !! pr_id (hp_profile (v_proposal v))) as [old|] eqn:Hold; cbn [default from_option id].
  - pose proof (Hviews _ _ Hold) as Hvok. destruct (vo_active _ _ _ Hvok) as (active & Ha & _).
    cbn [mbind option_bind] in Hexpected. rewrite Ha in Hexpected.
    unfold GenerationNumber_checked_next in Hexpected. apply result_bind_Ok in Hexpected as (next & Hnext%ok_or_Ok & Hnew%GenerationNumber_new_Ok).
    apply checked_add_Some in Hnext as [Hnext _]. apply (add_generation_ok _ _ _ active); try done.
    + cbn. rewrite Hgen. lia.
    + intros a Hga. destruct (required_watermark_ok _ _ _ _ _ Hreq Ha Hga) as (? & ? & ?). cbn. split_and!; [done|done|lia].
  - cbn [mbind option_bind] in Hexpected. apply GenerationNumber_new_Ok in Hexpected.
    apply (first_generation_ok _ g); [|done|done]. cbn. by rewrite Hgen.
Qed.

Lemma close_view_ok epoch d view_id view : view_ok epoch view_id view → view_ok epoch view_id (close_view d view_id view).
Proof.
  intros Hok. unfold close_view. destruct (_ ≫= _) as [active|]; [|done]. destruct (_ || _); [done|]. by apply mark_dirty_ok.
Qed.

Lemma delete_entries_keys `{Countable K} at_ (m : gmap K CommitSeq) keys k :
  is_Some (foldl (delete_entry at_) m keys !! k) ↔ k ∈ keys ∨ is_Some (m !! k).
Proof.
  revert m; induction keys as [|x keys IH]; intros m; cbn [foldl]; [rewrite elem_of_nil; tauto|].
  rewrite IH, elem_of_cons. unfold delete_entry. destruct (decide (x = k)) as [->|Hne].
  - rewrite lookup_insert_eq. split; [tauto|]. intros _. right. eauto.
  - rewrite lookup_insert_ne by done. split; [tauto|]. intros [[?|?]|?]; [congruence|tauto..].
Qed.

(** Every step keeps the invariant and the retained catalogs. *)
Lemma step_ok e e' :
  hierarchy_step e e' → engine_ok e →
  engine_ok e' ∧ ∀ n c, rs_history (en_state e) !! n = Some c → rs_history (en_state e') !! n = Some c.
Proof.
  intros Hstep Hok. destruct Hstep as [e p v Hv|e i|e d].
  - unfold publish. destruct (publish_checked e v) as [[e' r]|error] eqn:Hpub; [|done]. by apply (publish_checked_ok e p v e' r).
  - unfold invalidate. destruct (invalidate_checked e i) as [[e' epoch]|error] eqn:Hinv; [|done]. cbn [fst].
    unfold invalidate_checked in Hinv. apply result_bind_Ok in Hinv as ([] & _ & Hinv). cbn zeta in Hinv.
    apply result_bind_Ok in Hinv as (view & Hview%ok_or_Ok & Hinv). apply result_bind_Ok in Hinv as (active & _ & Hinv).
    case_bool_decide; [done|]. apply result_bind_Ok in Hinv as (next & Hnext & [= <- <-]).
    pose proof Hok as [_ Hcur _ Hcat Hlin]. destruct (Hcat _ _ Hcur) as [_ Hviews].
    apply install_ok; cbn [cat_epoch cat_views]; [done|done| |done]. intros view_id view'.
    pose proof (checked_next_epoch _ _ Hnext) as [-> _].
    intros [[<- <-]|[_ Hv]]%lookup_insert_Some; [apply mark_dirty_ok|]; (apply (view_ok_later (cat_epoch (rs_current (en_state e)))); [lia|by apply Hviews]).
  - unfold record_deletions. destruct (_ && _); [done|]. destruct (for_each _ _) as [[]|error] eqn:Hvalid; [|done].
    destruct (HierarchyEpoch_checked_next (reg_epoch _)) as [deletion_epoch|error]; [|done]. cbn zeta.
    assert (∀ w l, is_Some (deleted_lineage (register (en_deletions e) d deletion_epoch) !! (w, l)) → LineageNode_validate l = Ok tt) as Hreg.
    { intros w l [(x & [= _ ->] & Hx%bt_elements_elem)%list_elem_of_fmap|Hold]%delete_entries_keys; [|by apply (eo_lineage e Hok w l)].
      apply for_each_Ok in Hvalid. rewrite Forall_forall in Hvalid. apply bt_elements_elem in Hx. by apply Hvalid in Hx as ?%map_err_Ok. }
    destruct (HierarchyEpoch_checked_next (cat_epoch _)) as [epoch|error] eqn:Hnext; cbn [fst].
    + pose proof Hok as [_ Hcur _ Hcat _]. destruct (Hcat _ _ Hcur) as [_ Hviews].
      apply install_ok; cbn [cat_epoch cat_views]; [done|done| |done]. intros view_id view.
      rewrite map_lookup_imap. destruct (cat_views (rs_current (en_state e)) !! view_id) as [old|] eqn:Hold; [|done].
      intros [= <-]. pose proof (checked_next_epoch _ _ Hnext) as [-> _]. apply close_view_ok.
      apply (view_ok_later (cat_epoch (rs_current (en_state e)))); [lia|by apply Hviews].
    + split; [|done]. destruct Hok. by split.
Qed.

Lemma steps_ok e e' :
  rtc hierarchy_step e e' → engine_ok e →
  engine_ok e' ∧ ∀ n c, rs_history (en_state e) !! n = Some c → rs_history (en_state e') !! n = Some c.
Proof.
  induction 1 as [e|e e1 e2 Hstep _ IH]; intros Hok; [done|]. destruct (step_ok _ _ Hstep Hok) as [Hok1 Hkeep1].
  destruct (IH Hok1) as [Hok2 Hkeep2]. split; [done|]. eauto.
Qed.

Lemma reachable_ok e : reachable e → engine_ok e.
Proof. intros Hr. by apply (steps_ok _ _ Hr engine_ok_new). Qed.

(** C11: in every state that publications, invalidations and deletions reach, the
    retained catalogs are exactly those of the epochs up to the head; in each of
    them the generations of a view are numbered without gaps up to the active one,
    verify against their manifest, have their navigation index, and advance in
    profile revision, semantic watermark and epoch; and later steps change none of
    these catalogs. *)
Theorem retained_catalogs_sound e e' n :
  reachable e → rtc hierarchy_step e e' →
  match snapshot e (At n) with
  | Ok c => (n ≤ cat_epoch (rs_current (en_state e)))%N ∧ cat_epoch c = n ∧
      (∀ view_id view, cat_views c !! view_id = Some view → view_ok n view_id view) ∧ snapshot e' (At n) = Ok c
  | Err error => (cat_epoch (rs_current (en_state e)) < n)%N ∧ error = SnapshotUnavailable n (cat_epoch (rs_current (en_state e)))
  end.
Proof.
  intros Hr%reachable_ok Hsteps. destruct (steps_ok _ _ Hsteps Hr) as [_ Hkeep]. pose proof Hr as [_ _ Hep Hcat _].
  unfold snapshot. destruct (rs_history (en_state e) !! n) as [c|] eqn:Hn; cbn.
  - destruct (Hcat n c Hn) as [Hce Hviews]. split_and!; [apply Hep; eauto|done|done|]. by rewrite (Hkeep n c Hn).
  - split; [|done]. apply N.lt_nge. intros Hle. apply Hep in Hle. rewrite Hn in Hle. by destruct Hle.
Qed.
End runs.

(** ** The deletion registry *)

Definition covers (r : DeletionRegistry) (d : DeletionRecord) : Prop :=
  (∀ id, id ∈ dr_node_ids d → is_Some (deleted_nodes r !! (dr_workspace_id d, id))) ∧
  (∀ l, l ∈ dr_lineage_dependencies d → is_Some (deleted_lineage r !! (dr_workspace_id d, l))).

Lemma register_grows r d epoch :
  (∀ k, is_Some (deleted_nodes r !! k) → is_Some (deleted_nodes (register r d epoch) !! k)) ∧
  (∀ k, is_Some (deleted_lineage r !! k) → is_Some (deleted_lineage (register r d epoch) !! k)) ∧ covers (register r d epoch) d.
Proof.
  unfold covers, register. cbn [deleted_nodes deleted_lineage]. split_and!; [| |intros id Hid|intros l Hl].
  - intros k Hk. apply delete_entries_keys. by right.
  - intros k Hk. apply delete_entries_keys. by right.
  - apply delete_entries_keys. left. by apply list_elem_of_fmap_2, bt_elements_elem.
  - apply delete_entries_keys. left. by apply list_elem_of_fmap_2, bt_elements_elem.
Qed.

(** What later registries keep of an earlier one. *)
Definition registry_le (r r' : DeletionRegistry) : Prop :=
  (reg_epoch r ≤ reg_epoch r')%N ∧ (∀ k, is_Some (deleted_nodes r !! k) → is_Some (deleted_nodes r' !! k)) ∧
  (∀ k, is_Some (deleted_lineage r !! k) → is_Some (deleted_lineage r' !! k)).
#[export] Instance registry_le_preorder : PreOrder registry_le.
Proof. split; [by intros r|]. intros r1 r2 r3 (? & ? & ?) (? & ? & ?). split_and!; [lia|auto|auto]. Qed.

Lemma covers_later r r' d : registry_le r r' → covers r d → covers r' d.
Proof. intros (_ & Hn & Hl) [Hcn Hcl]. split; eauto. Qed.

Section registries.
Context `{Blake3} `{!PartitionJson} `{!Serialize CanonicalProposal}.

(** A deletion either leaves the registry or extends it at the next epoch. *)
Lemma record_deletions_registry e d :
  let '(e', result) := record_deletions e d in
  (en_deletions e' = en_deletions e ∧ (is_ok result = true → dr_node_ids d = ∅ ∧ dr_lineage_dependencies d = ∅)) ∨
  ∃ epoch, HierarchyEpoch_checked_next (reg_epoch (en_deletions e)) = Ok epoch ∧ en_deletions e' = register (en_deletions e) d epoch.
Proof.
  unfold record_deletions. case_bool_decide as Hn; case_bool_decide as Hl; cbn [andb]; [by left|..].
  all: destruct (for_each _ _); [|by left]; destruct (HierarchyEpoch_checked_next (reg_epoch _)) as [epoch|]; [|by left].
  all: cbn zeta; destruct (HierarchyEpoch_checked_next (cat_epoch _)); right; eauto.
Qed.

(** A step keeps the registry or extends it at a later epoch. *)
Lemma step_registry e e' :
  hierarchy_step e e' → registry_le (en_deletions e) (en_deletions e') ∧
  (reg_epoch (en_deletions e') = reg_epoch (en_deletions e) → en_deletions e' = en_deletions e).
Proof.
  intros [e0 p v _|e0 i|e0 d].
  - unfold publish. destruct (publish_checked e0 v) as [[e1 r]|error] eqn:Hpub; [|done]. cbn [fst].
    unfold publish_checked in Hpub. apply result_bind_Ok in Hpub as ([] & _ & Hpub). cbn zeta in Hpub. case_bool_decide; [done|].
    apply result_bind_Ok in Hpub as (? & _ & Hpub). case_bool_decide; [done|]. apply result_bind_Ok in Hpub as (? & _ & Hpub).
    destruct (_ <? _)%N; [done|]. by apply result_bind_Ok in Hpub as (? & _ & [= <- _]).
  - unfold invalidate. destruct (invalidate_checked e0 i) as [[e1 r]|error] eqn:Hinv; [|done]. cbn [fst].
    unfold invalidate_checked in Hinv. apply result_bind_Ok in Hinv as ([] & _ & Hinv). cbn zeta in Hinv.
    apply result_bind_Ok in Hinv as (? & _ & Hinv). apply result_bind_Ok in Hinv as (? & _ & Hinv). case_bool_decide; [done|].
    by apply result_bind_Ok in Hinv as (? & _ & [= <- _]).
  - pose proof (record_deletions_registry e0 d) as Hreg. destruct (record_deletions e0 d) as [e1 result]. cbn [fst].
    destruct Hreg as [[-> _]|(epoch & Hnext & ->)]; [done|]. destruct (register_grows (en_deletions e0) d epoch) as (Hn & Hl & _).
    apply checked_next_epoch in Hnext as [-> _]. split; [split_and!; [cbn; lia|done|done]|]. cbn. lia.
Qed.

Lemma steps_registry e e' :
  rtc hierarchy_step e e' → registry_le (en_deletions e) (en_deletions e') ∧
  (reg_epoch (en_deletions e') = reg_epoch (en_deletions e) → en_deletions e' = en_deletions e).
Proof.
  induction 1 as [|e1 e2 e3 [Hle1 Hsame1]%step_registry _ [Hle2 Hsame2]]; [done|]. split; [by etrans|].
  intros Heq. destruct Hle1 as [? _], Hle2 as [? _]. rewrite Hsame2, Hsame1 by lia. done.
Qed.

Lemma acknowledged_covers e d e1 epoch e2 :
  record_deletions e d = (e1, Ok epoch) → rtc hierarchy_step e1 e2 → covers (en_deletions e2) d.
Proof.
  intros Hd Hsteps. apply (covers_later (en_deletions e1)); [by apply steps_registry|].
  pose proof (record_deletions_registry e d) as Hreg. rewrite Hd in Hreg. destruct Hreg as [[_ Hempty]|(n & _ & ->)].
  - destruct (Hempty eq_refl) as [Hn Hl]. unfold covers. rewrite Hn, Hl. split; intros x Hx; by apply elem_of_empty in Hx.
  - by apply register_grows.
Qed.
End registries.
