(* ===== verification/HierPaths.v ===== *)
(** * Hierarchy views: visible paths

    What a published generation guarantees, and the paths of visible items that the
    queries report. *)

From S2P Require Import Prelude.
From S2P Require Import Ordering.
From S2P Require Import Bytes.
From S2P Require Import Format.
From S2P Require Import CoreBase.
From S2P Require Import Provenance.
From S2P Require Import Evidence.
From S2P Require Import Hierarchy.
From S2P Require Import HierValidate.
From S2P Require Import HierDag.
From S2P Require Import HierProposal.
From S2P Require Import HierEngine.
From S2P Require Import HierReads.
From S2P Require Import HierRuns.

(** ** Published generations *)

Record generation_ok (g : HierarchyGeneration) : Prop := {
  go_partitions : ∀ k q, pr_partitions (g_profile g) !! k = Some q → pp_id q = k;
  go_keys : ∀ k n, g_nodes g !! k = Some n → hn_id n = k;
  go_edges : NoDup (edge_of <$> g_memberships g);
  go_ends : ∀ m, m ∈ g_memberships g → is_Some (g_nodes g !! hm_parent m) ∧ is_Some (g_nodes g !! hm_child m);
  go_acyclic : ∀ x, ¬ tc (member (g_memberships g)) x x;
  go_roots : ∀ x, x ∈ g_roots g ↔ is_Some (g_nodes g !! x) ∧ ∀ m, m ∈ g_memberships g → hm_child m ≠ x;
}.

Definition catalog_ok `{Blake3} `{!PartitionJson} `{!Serialize CanonicalProposal} (catalog : Catalog) : Prop :=
  ∀ view_id view, cat_views catalog !! view_id = Some view → view_ok (cat_epoch catalog) view_id view.

Section published.
Context `{Blake3} `{!PartitionJson} `{!Serialize CanonicalProposal}.

Lemma verified_ok g : verify_manifest g = Ok tt → generation_ok g.
Proof.
  unfold verify_manifest. destruct (_ =? _)%N; [done|]. intros (expected & _ & Hv)%result_bind_Ok.
  apply result_bind_Ok in Hv as (v & Hv & _). apply validate_proposal_Ok in Hv as [Hok _]. split.
  - intros k q Hq. symmetry. by apply (po_each _ (pk_profile _ Hok) k q).
  - intros k n Hn. symmetry. by apply (pk_nodes _ Hok k n).
  - apply (pk_edges _ Hok).
  - intros m Hm. by apply (membership_ends _ m (pk_memberships _ Hok m Hm)).
  - apply (pk_acyclic _ Hok).
  - apply (pk_roots _ Hok).
Qed.

Lemma snapshot_ok e selector catalog : engine_ok e → snapshot e selector = Ok catalog → catalog_ok catalog.
Proof.
  intros [_ Hcur _ Hcat _] Hs view_id view. destruct selector as [|n]; cbn in Hs.
  - injection Hs as <-. by apply (Hcat _ _ Hcur).
  - apply ok_or_Ok in Hs. destruct (Hcat _ _ Hs) as [-> Hviews]. apply Hviews.
Qed.

(** What a read knows about the generation it opens. *)
Record opened (catalog : Catalog) (view_id : HierarchyViewId) (semantic_snapshot : SnapshotRef)
    (authorization : AuthorizationSnapshot) (view : ViewState) (g : HierarchyGeneration) (f : GenerationFreshness) : Prop := {
  op_view : cat_views catalog !! view_id = Some view;
  op_id : pr_id (g_profile g) = view_id;
  op_generation : vs_generations view !! g_generation g = Some g;
  op_navigation : vs_navigation view !! g_generation g = Some (NavigationIndex_build g);
  op_covered : (snapshot_commit_seq (g_built_from g) ≤ snapshot_commit_seq semantic_snapshot)%N;
  op_workspace : pr_workspace_id (g_profile g) = auth_workspace_id authorization;
  op_freshness : f = generation_freshness view g semantic_snapshot;
  op_ok : generation_ok g;
}.

Lemma open_view_Ok catalog view_id semantic_snapshot requirement authorization view g f :
  catalog_ok catalog → open_view catalog view_id semantic_snapshot requirement authorization = Ok (view, g, f) →
  opened catalog view_id semantic_snapshot authorization view g f.
Proof.
  intros Hcat Hopen. unfold open_view in Hopen. apply result_bind_Ok in Hopen as (v & Hv%ok_or_Ok & Hopen).
  apply result_bind_Ok in Hopen as (g' & Hsel & Hopen). cbn zeta in Hopen.
  apply result_bind_Ok in Hopen as ([] & _ & [= -> -> <-]).
  unfold select_generation in Hsel. destruct (_ <? _)%N; [done|].
  apply result_bind_Ok in Hsel as (g' & Hfind%ok_or_Ok & Hsel). case_bool_decide as Hws; [done|].
  destruct (negb _); [done|]. injection Hsel as ->.
  apply List.find_some in Hfind as [Hin%in_rev%list_elem_of_In Hcov%N.leb_le].
  apply elem_of_bt_values in Hin as [k Hk]. destruct (Hcat _ _ Hv) as [_ Hgens _ Hnav].
  destruct (Hgens k g Hk) as (<- & Hid & _ & Hver). split; try done.
  - by rewrite Hnav, lookup_fmap, Hk.
  - by apply verified_ok.
Qed.
End published.

(** ** Sorting *)

(** A comparison by a key leaves no neighbour, near or far, out of order. *)
Lemma sort_by_compare `{Ordered K} {A} (compare : A → A → comparison) (key : A → K) l :
  (∀ a b, compare a b = cmp (key a) (key b)) → StronglySorted (λ a b, compare a b ≠ Gt) (sort_by compare l).
Proof.
  intros Hkey. induction (sort_by_sorted compare key Hkey l) as [|a l' _ IH Ha]; constructor; [done|].
  eapply Forall_impl; [exact Ha|]. intros b Hb. rewrite Hkey. exact Hb.
Qed.

(** ** Paths *)

(** [ms] are the memberships between the neighbours of [items]. *)
Definition joins (items : list HierarchyItemId) (ms : list HierarchyMembership) : Prop :=
  length items = S (length ms) ∧
  ∀ i m, ms !! i = Some m → items !! i = Some (hm_parent m) ∧ items !! S i = Some (hm_child m).

Lemma joins_cons x y items m ms :
  joins (x :: y :: items) (m :: ms) ↔ hm_parent m = x ∧ hm_child m = y ∧ joins (y :: items) ms.
Proof.
  unfold joins. cbn [length]. split.
  - intros [Hlen Hj]. destruct (Hj 0%nat m eq_refl) as [[= ->] [= ->]]. split_and!; [done|done|lia|].
    intros i m' Hm'. apply (Hj (S i) m' Hm').
  - intros (Hp & Hc & Hlen & Hj). split; [lia|]. intros [|i] m' Hm'; [|apply (Hj i m' Hm')].
    injection Hm' as <-. cbn. by rewrite Hp, Hc.
Qed.

Lemma joins_one x ms : joins [x] ms ↔ ms = [].
Proof. unfold joins. cbn. split; [intros [Hlen _]; by destruct ms|]. intros ->. split; [done|]. intros i m. by rewrite lookup_nil. Qed.

Lemma joins_nil ms : ¬ joins [] ms.
Proof. intros [Hlen _]. done. Qed.

Lemma joins_two x y items ms : joins (x :: y :: items) ms → ∃ m ms', ms = m :: ms'.
Proof. intros [Hlen _]. destruct ms as [|m ms']; [done|eauto]. Qed.

Lemma joins_snoc items ms m :
  last items = Some (hm_parent m) → joins items ms → joins (items ++ [hm_child m]) (ms ++ [m]).
Proof.
  intros Hlast [Hlen Hj]. split; [rewrite !length_app; cbn; lia|]. intros i m' Hm'.
  destruct (decide (i < length ms)%nat) as [Hi|Hi].
  - rewrite lookup_app_l in Hm' by done. destruct (Hj i m' Hm') as [H1 H2].
    rewrite !lookup_app_l by (apply lookup_lt_Some in H1, H2; lia). done.
  - rewrite lookup_app_r in Hm' by lia. apply list_lookup_singleton_Some in Hm' as [Hi' <-].
    rewrite last_lookup in Hlast. rewrite lookup_app_l by lia. rewrite lookup_app_r by lia.
    replace (S i - length items)%nat with 0%nat by lia. split; [|done]. rewrite <- Hlast. f_equal. lia.
Qed.

Lemma joins_snoc_inv items x ms :
  joins (items ++ [x]) ms → items ≠ [] →
  ∃ ms' m, ms = ms' ++ [m] ∧ joins items ms' ∧ last items = Some (hm_parent m) ∧ hm_child m = x.
Proof.
  intros [Hlen Hj] Hne. rewrite length_app in Hlen. cbn in Hlen.
  assert (0 < length items)%nat by (destruct items; [done|cbn; lia]).
  destruct ms as [|m ms _] using rev_ind; [cbn in Hlen; lia|]. rewrite length_app in Hlen. cbn in Hlen.
  exists ms, m. destruct (Hj (length ms) m) as [Hp Hc]; [by rewrite lookup_app_r, Nat.sub_diag by lia|].
  rewrite lookup_app_l in Hp by lia. rewrite lookup_app_r in Hc by lia.
  replace (S (length ms) - length items)%nat with 0%nat in Hc by lia. injection Hc as ->. split_and!; [done| |by rewrite last_lookup, <- Hp; f_equal; lia|done].
  split; [lia|]. intros i m' Hm'. pose proof (lookup_lt_Some _ _ _ Hm') as Hi.
  destruct (Hj i m') as [H1 H2]; [by rewrite lookup_app_l by lia|]. rewrite !lookup_app_l in * by lia. done.
Qed.

Section paths.
Context (deletions : DeletionRegistry) (authorization : AuthorizationSnapshot).
Context (semantic_snapshot : SnapshotRef) (domain_time : option TimestampMicros) (g : HierarchyGeneration).
Let visible := node_visible deletions authorization semantic_snapshot domain_time g.
Let edge_visible := membership_visible deletions authorization semantic_snapshot domain_time g.

Definition visible_edge (m : HierarchyMembership) : Prop := m ∈ g_memberships g ∧ edge_visible m = true.

(** A downward path of visible items over visible memberships. *)
Definition visible_path (items : list HierarchyItemId) (ms : list HierarchyMembership) : Prop :=
  joins items ms ∧ Forall (λ x, visible x = true) items ∧ Forall visible_edge ms.

Lemma visible_edge_ends m : visible_edge m → visible (hm_parent m) = true ∧ visible (hm_child m) = true.
Proof. intros [_ Hm]. unfold edge_visible, membership_visible in Hm. rewrite !andb_true_iff in Hm. tauto. Qed.

Lemma visible_Some x : visible x = true → ∃ n, g_nodes g !! x = Some n.
Proof. unfold visible, node_visible. destruct (g_nodes g !! x) as [n|]; [eauto|done]. Qed.

Lemma visible_path_cons x items m ms :
  visible_edge m → hm_parent m = x → head items = Some (hm_child m) → visible_path items ms → visible_path (x :: items) (m :: ms).
Proof.
  intros Hm Hp Hhead (Hj & Hitems & Hms). destruct items as [|y items]; [done|]. injection Hhead as Hy.
  destruct (visible_edge_ends m Hm). split_and!; [by apply joins_cons|constructor; [congruence|done]|by constructor].
Qed.

Lemma visible_path_snoc items m ms :
  visible_edge m → last items = Some (hm_parent m) → visible_path items ms → visible_path (items ++ [hm_child m]) (ms ++ [m]).
Proof.
  intros Hm Hlast (Hj & Hitems & Hms). destruct (visible_edge_ends m Hm).
  split_and!; [by apply joins_snoc|by apply Forall_app; split; [|constructor]|by apply Forall_app; split; [|constructor]].
Qed.

Lemma visible_path_sorted items ms : visible_path items ms → StronglySorted (tc (member (g_memberships g))) items.
Proof.
  revert ms; induction items as [|x items IH]; intros ms (Hj & Hitems & Hms); [constructor|].
  destruct items as [|y items]; [repeat constructor|]. destruct (joins_two _ _ _ _ Hj) as (m & ms' & ->).
  apply joins_cons in Hj as (Hp & Hc & Hj). apply Forall_cons in Hitems as [_ Hitems]. apply Forall_cons in Hms as [[Hm _] Hms].
  assert (member (g_memberships g) x y) as Hxy by (exists m; done).
  pose proof (IH ms' (conj Hj (conj Hitems Hms))) as Hs. constructor; [done|]. apply StronglySorted_inv in Hs as [_ Hall].
  constructor; [by apply tc_once|]. eapply Forall_impl; [exact Hall|]. intros z Hz. by eapply tc_l.
Qed.

Lemma visible_path_NoDup items ms : generation_ok g → visible_path items ms → NoDup items.
Proof.
  intros Hok Hp%visible_path_sorted. destruct (decide (NoDup items)) as [|Hd]; [done|].
  destruct (sorted_repeats _ _ Hp Hd) as [x Hx]. by destruct (go_acyclic g Hok x).
Qed.

Lemma visible_path_length items ms : generation_ok g → visible_path items ms → (length items ≤ size (g_nodes g))%nat.
Proof.
  intros Hok Hp. pose proof (visible_path_NoDup _ _ Hok Hp) as Hnd. rewrite <- (length_bt_keys (g_nodes g)).
  apply submseteq_length, NoDup_submseteq; [done|]. destruct Hp as (_ & Hv & _). intros x Hx. rewrite Forall_forall in Hv.
  apply elem_of_bt_keys. destruct (visible_Some x (Hv x Hx)). eauto.
Qed.
End paths.
