(* ===== verification/HierRestore.v ===== *)
(** * Hierarchy views: restoring a bundle

    A bundle exported from a reachable state restores that state: every retained
    catalog, the navigation indexes and the deletion barrier. *)

From S2P Require Import Prelude.
From S2P Require Import Ordering.
From S2P Require Import Bytes.
From S2P Require Import Format.
From S2P Require Import CoreBase.
From S2P Require Import Provenance.
From S2P Require Import Evidence.
From S2P Require Import Hierarchy.
From S2P Require Import HierValidate.
From S2P Require Import HierDag.
From S2P Require Import HierProposal.
From S2P Require Import HierEngine.
From S2P Require Import HierRuns.
From S2P Require Import HierPaths.
From S2P Require Import HierPersist.

(** ** Rebuilding maps from their entries *)

Section rebuild.
Context `{Countable K, Ordered K} {V A S : Type}.
Context (ι : gmap K V → S) (step : S → A → Result S) (f : K * V → A).

Lemma fold_insert_list l acc :
  NoDup l.*1 → (∀ k, k ∈ l.*1 → acc !! k = None) →
  (∀ m e, e ∈ l → m !! e.1 = None → step (ι m) (f e) = Ok (ι (<[e.1 := e.2]> m))) →
  try_fold step (ι acc) (f <$> l) = Ok (ι (list_to_map l ∪ acc)).
Proof.
  revert acc; induction l as [|[k v] l IH]; intros acc Hnd Hfresh Hstep.
  { cbn. by rewrite (left_id_L ∅ _). }
  apply NoDup_cons in Hnd as [Hk Hnd]. rewrite fmap_cons. cbn [try_fold].
  rewrite Hstep; [|by left|by apply Hfresh; left]. cbn [result_bind]. rewrite IH; [|done| |].
  - do 2 f_equal. cbn [list_to_map foldr curry fst snd]. rewrite <- insert_union_l.
    change (foldr _ _ l) with (list_to_map l : gmap K V).
    rewrite insert_union_r; [done|]. by apply not_elem_of_list_to_map.
  - intros k' Hk'. rewrite lookup_insert_ne by (by intros <-). apply Hfresh. by right.
  - intros m e He. apply Hstep. by right.
Qed.

Lemma fold_insert_entries (m : gmap K V) :
  (∀ m' k v, m !! k = Some v → m' !! k = None → step (ι m') (f (k, v)) = Ok (ι (<[k := v]> m'))) →
  try_fold step (ι ∅) (f <$> bt_entries m) = Ok (ι m).
Proof.
  intros Hstep. rewrite fold_insert_list.
  - rewrite (right_id_L ∅ _). do 2 f_equal. rewrite <- (list_to_map_to_list m) at 2.
    apply list_to_map_proper; [apply bt_keys_NoDup|apply bt_entries_Permutation].
  - apply bt_keys_NoDup.
  - intros k _. apply lookup_empty.
  - intros m' [k v] He. apply bt_entries_elem in He. by apply Hstep.
Qed.
End rebuild.

Lemma insert_new_fresh `{Countable K} {V} (m : gmap K V) k v : m !! k = None → insert_new m k v = Ok (<[k := v]> m).
Proof. intros Hk. unfold insert_new. rewrite bool_decide_eq_false_2; [done|]. rewrite Hk. by intros []. Qed.

Lemma collect_entries `{Countable K, Ordered K} {V A} (key : A → K) (value : A → V) (f : K * V → A) (m : gmap K V) :
  (∀ k v, m !! k = Some v → key (f (k, v)) = k ∧ value (f (k, v)) = v) →
  collect_new key value (f <$> bt_entries m) = Ok m.
Proof.
  intros Hf. apply (fold_insert_entries id (λ m a, insert_new m (key a) (value a)) f m).
  intros m' k v Hk Hfresh. destruct (Hf k v Hk) as [-> ->]. by apply insert_new_fresh.
Qed.

Lemma collect_values `{Countable K, Ordered K} {V} (key : V → K) (m : gmap K V) :
  (∀ k v, m !! k = Some v → key v = k) → collect_new key id (bt_values m) = Ok m.
Proof. intros Hkey. unfold bt_values. apply (collect_entries key id snd m). intros k v Hk. split; [by apply Hkey|done]. Qed.

(** The entries of a map whose keys are the numbers up to a bound. *)
Lemma entries_index {V} (m : gmap N V) (h : N) :
  (∀ n, is_Some (m !! n) ↔ (n ≤ h)%N) →
  ∃ value : nat → V, bt_entries m = (λ i, (N.of_nat i, value i)) <$> seq 0 (S (N.to_nat h)).
Proof.
  intros Hkeys. destruct (proj2 (Hkeys 0%N)) as [v0 Hv0]; [lia|]. exists (λ i, default v0 (m !! N.of_nat i)).
  symmetry. apply bt_entries_unique.
  - generalize 0%nat as start. generalize (S (N.to_nat h)) as n. induction n as [|n IH]; intros start; [constructor|].
    cbn. constructor; [apply IH|]. apply Forall_forall. intros e (i & -> & Hi)%list_elem_of_fmap. apply elem_of_seq in Hi.
    unfold fst_lt, klt. cbn. apply N.compare_lt_iff. lia.
  - intros k v. rewrite list_elem_of_fmap. split.
    + intros (i & [= -> ->] & Hi%elem_of_seq). destruct (proj2 (Hkeys (N.of_nat i))) as [w Hw]; [lia|]. by rewrite Hw.
    + intros Hk. exists (N.to_nat k). rewrite N2Nat.id, Hk. split; [done|]. apply elem_of_seq.
      assert (k ≤ h)%N by (apply Hkeys; eauto). lia.
Qed.

Lemma entries_ordinals {V} (m : gmap N V) (h : N) :
  (∀ n, is_Some (m !! n) ↔ (n ≤ h)%N) →
  (∀ v, m !! h = Some v → last (bt_entries m) = Some (h, v)) ∧
  ∀ {B} (g : V → B), imap pair (g <$> bt_values m) = (λ e : N * V, (N.to_nat e.1, g e.2)) <$> bt_entries m.
Proof.
  intros Hkeys. destruct (entries_index m h Hkeys) as [value Hentries]. split.
  - intros v Hv. apply bt_entries_elem in Hv. rewrite Hentries in Hv |- *. rewrite seq_S, fmap_app. rewrite list_fmap_singleton, last_snoc. cbn.
    apply list_elem_of_fmap in Hv as (i & [= Hi ->] & _). by rewrite Hi, Nat2N.id.
  - intros B g. apply list_eq. intros i. rewrite list_lookup_imap. unfold bt_values. rewrite !list_lookup_fmap, Hentries, list_lookup_fmap.
    destruct (seq 0 (S (N.to_nat h)) !! i) as [j|] eqn:Hj; [|done]. apply lookup_seq in Hj as [-> _]. cbn. by rewrite Nat2N.id.
Qed.

(** ** Generations *)

Section restore.
Context `{Blake3} `{!PartitionJson} `{!Serialize CanonicalProposal} `{!PayloadJson} `{!PayloadJsonLaws}.

Lemma generation_round_trip g : verify_manifest g = Ok tt → try_into_generation (GenerationPayload_from g) = Ok g.
Proof.
  intros [Hparts Hnodes _ _ _ _]%verified_ok. unfold try_into_generation. cbn [GenerationPayload_from gp_profile fp_partitions gp_nodes gp_statistics].
  rewrite (collect_values pp_id) by done. cbn [result_bind]. rewrite (collect_values hn_id) by done. cbn [result_bind].
  rewrite (collect_entries is_item is_statistics (λ e, MkItemStatistics e.1 e.2)) by done. cbn.
  assert (list_to_set (bt_elements (g_roots g)) = g_roots g) as ->.
  { apply set_eq. intros x. by rewrite elem_of_list_to_set, bt_elements_elem. }
  by destruct g as [[]].
Qed.

Lemma generations_round_trip epoch view_id view :
  view_ok epoch view_id view →
  try_fold (restore_generation view_id epoch) (∅, ∅) (GenerationPayload_from <$> bt_values (vs_generations view))
  = Ok (vs_generations view, vs_navigation view).
Proof.
  intros [_ Hgens _ ->]. unfold bt_values. rewrite <- list_fmap_compose.
  pose proof (fold_insert_entries (λ m, (m, NavigationIndex_build <$> m)) (restore_generation view_id epoch)
    (GenerationPayload_from ∘ snd) (vs_generations view)) as Hfold. cbn beta in Hfold. rewrite fmap_empty in Hfold. apply Hfold.
  intros m' k g Hg Hfresh. destruct (Hgens k g Hg) as (Hk & Hid & Hep & Hver). unfold restore_generation, compose. cbn [snd].
  rewrite generation_round_trip by done. cbn [result_bind]. rewrite Hver. cbn [result_bind].
  rewrite Hk, Hid, lookup_fmap, Hfresh, (proj2 (N.ltb_ge _ _)) by done. rewrite bool_decide_eq_false_2 by (by intros []).
  rewrite bool_decide_eq_false_2 by (by intros []). cbn. by rewrite fmap_insert.
Qed.

Lemma views_round_trip epoch views :
  (∀ view_id view, views !! view_id = Some view → view_ok epoch view_id view) →
  try_fold (restore_view epoch) ∅ (export_view <$> bt_entries views) = Ok views.
Proof.
  intros Hviews. apply (fold_insert_entries id (restore_view epoch) export_view views).
  intros m' view_id view Hview Hfresh. pose proof (Hviews _ _ Hview) as Hok. unfold restore_view. cbn [export_view vp_view_id vp_generations].
  rewrite (generations_round_trip _ _ _ Hok). cbn [result_bind vp_active vp_dirty_through vp_invalidations].
  destruct (vo_active _ _ _ Hok) as (active & Ha & Hkeys). rewrite Ha, bool_decide_eq_true_2 by (apply Hkeys; lia).
  unfold id in *. rewrite Hfresh, bool_decide_eq_false_2 by (by intros []). cbn. rewrite <- Ha. by destruct view.
Qed.

Lemma catalogs_round_trip e :
  engine_ok e →
  try_fold restore_catalog ∅ ((λ e : N * Catalog, (N.to_nat e.1, export_catalog e.2)) <$> bt_entries (rs_history (en_state e)))
  = Ok (rs_history (en_state e)).
Proof.
  intros [Hhead _ Hep Hcat _].
  apply (fold_insert_entries id restore_catalog (λ e : N * Catalog, (N.to_nat e.1, export_catalog e.2)) (rs_history (en_state e))).
  intros m' n c Hc Hfresh. destruct (Hcat n c Hc) as [Hce Hviews]. unfold restore_catalog. cbn [fst snd].
  assert (n ≤ U64_MAX)%N as Hn by (assert (n ≤ cat_epoch (rs_current (en_state e)))%N by (apply Hep; eauto); lia).
  unfold try_from_max. rewrite N2Nat.id, (proj2 (N.leb_le _ _)) by done. cbn [ok_or result_bind export_catalog cp_epoch cp_views].
  rewrite Hce, N.eqb_refl. cbn [negb]. rewrite views_round_trip by done. cbn [result_bind].
  unfold id. rewrite insert_new_fresh by done. rewrite <- Hce at 2. by destruct c.
Qed.

Lemma lineage_round_trip e :
  engine_ok e →
  try_fold restore_lineage ∅ ((λ e : (WorkspaceId * LineageNode) * CommitSeq, MkDeletedLineage e.1.1 e.1.2 e.2)
    <$> bt_entries (deleted_lineage (en_deletions e))) = Ok (deleted_lineage (en_deletions e)).
Proof.
  intros Hok. apply (fold_insert_entries id restore_lineage
    (λ e : (WorkspaceId * LineageNode) * CommitSeq, MkDeletedLineage e.1.1 e.1.2 e.2) (deleted_lineage (en_deletions e))).
  intros m' [w l] at_ Hl Hfresh. unfold restore_lineage. cbn [fst snd dl_dependency dl_workspace_id dl_effective_at].
  rewrite (eo_lineage e Hok w l) by eauto. by apply insert_new_fresh.
Qed.

(** C16: a bundle that a reachable engine exports restores exactly that engine: every
    retained catalog with its generations and navigation indexes, the active
    generations and invalidations, and the deletion registry. *)
Theorem restore_returns_export e bundle :
  reachable e → export_persistent e = Ok bundle → from_persistent bundle = Ok e.
Proof.
  intros Hr%reachable_ok Hexport. pose proof Hr as [Hhead Hcur Hep Hcat Hlin]. unfold export_persistent in Hexport.
  apply result_bind_Ok in Hexport as (text & Htext%ok_or_Ok & [= <-]). apply payload_round_trip in Htext as Hparse.
  unfold from_persistent. cbn [pb_schema_version pb_payload pb_payload_digest pb_current_epoch].
  rewrite N.eqb_refl, bool_decide_eq_false_2, Hparse by (by intros []). cbn [negb orb ok_or result_bind export_payload sp_schema_version sp_current_epoch].
  rewrite !N.eqb_refl. cbn [negb orb sp_catalogs sp_deleted_nodes sp_deleted_lineage sp_deletion_epoch export_payload].
  destruct (entries_ordinals _ _ Hep) as [Hlast Hord]. rewrite Hord.
  rewrite catalogs_round_trip by done.
  cbn [result_bind id]. rewrite Hcur. cbn [ok_or result_bind]. rewrite (Hlast _ Hcur), N.eqb_refl. cbn [negb sp_deleted_nodes sp_deleted_lineage sp_deletion_epoch].
  rewrite (collect_entries _ dn_effective_at (λ e, MkDeletedNode e.1.1 e.1.2 e.2)) by (by intros [] ?). cbn [result_bind].
  rewrite lineage_round_trip by done.
  cbn. by destruct e as [[] []].
Qed.
End restore.
