(* ===== verification/HierRoutes.v ===== *)
(** * Hierarchy views: routes

    [materialize_routes] against the visible root-to-target paths of the generation it
    opens: the search ends, every reported route is such a path, and a complete report
    has them all. *)

From S2P Require Import Prelude.
From S2P Require Import Ordering.
From S2P Require Import Bytes.
From S2P Require Import Format.
From S2P Require Import CoreBase.
From S2P Require Import Provenance.
From S2P Require Import Evidence.
From S2P Require Import Hierarchy.
From S2P Require Import HierValidate.
From S2P Require Import HierDag.
From S2P Require Import HierStats.
From S2P Require Import HierProposal.
From S2P Require Import HierEngine.
From S2P Require Import HierReads.
From S2P Require Import HierRuns.
From S2P Require Import HierPaths.

(** ** Parents of an item *)

Section parents.
Context (deletions : DeletionRegistry) (authorization : AuthorizationSnapshot).
Context (semantic_snapshot : SnapshotRef) (domain_time : option TimestampMicros) (g : HierarchyGeneration).

Lemma visible_parents_lookup c :
  let edges := filter (λ m, membership_visible deletions authorization semantic_snapshot domain_time g m = true ∧ hm_child m = c)
    (g_memberships g) in
  visible_parents deletions authorization semantic_snapshot domain_time g !! c =
  if is_empty edges then None else Some (sort_by membership_order edges).
Proof.
  cbn zeta. unfold visible_parents. rewrite lookup_fmap. generalize (g_memberships g) as ms.
  intros ms. assert (foldl (add_parent deletions authorization semantic_snapshot domain_time g) ∅ ms !! c =
    (let edges := filter (λ m, membership_visible deletions authorization semantic_snapshot domain_time g m = true ∧ hm_child m = c) ms in
     if is_empty edges then None else Some edges)) as ->.
  2:{ cbn zeta. by destruct (is_empty _). }
  induction ms as [|m ms IH] using rev_ind; [done|]. cbn zeta in *. rewrite foldl_app, filter_app. cbn [foldl].
  unfold add_parent at 1. rewrite filter_cons, filter_nil. destruct (membership_visible _ _ _ _ _ m) eqn:Hm.
  2:{ rewrite decide_False by (by intros []). by rewrite app_nil_r. }
  destruct (decide (hm_child m = c)) as [<-|Hne].
  - rewrite decide_True by done. rewrite lookup_insert_eq, IH. destruct (filter _ ms); done.
  - rewrite decide_False by (by intros []). by rewrite app_nil_r, lookup_insert_ne.
Qed.

Lemma visible_parents_edges c edges :
  visible_parents deletions authorization semantic_snapshot domain_time g !! c = Some edges →
  (∀ m, m ∈ edges ↔ visible_edge deletions authorization semantic_snapshot domain_time g m ∧ hm_child m = c) ∧
  (length edges ≤ length (g_memberships g))%nat ∧
  (NoDup (edge_of <$> g_memberships g) → NoDup (hm_parent <$> edges)).
Proof.
  rewrite visible_parents_lookup. destruct (is_empty _); [done|]. intros [= <-]. split_and!.
  - intros m. rewrite sort_by_Permutation, list_elem_of_filter. unfold visible_edge. tauto.
  - rewrite sort_by_Permutation. apply length_filter.
  - intros Hnd. rewrite sort_by_Permutation. induction (g_memberships g) as [|m ms IH]; [constructor|].
    rewrite fmap_cons in Hnd. apply NoDup_cons in Hnd as [Hm Hnd]. rewrite filter_cons. destruct (decide _) as [[_ Hc]|]; [|by apply IH].
    rewrite fmap_cons. apply NoDup_cons. split; [|by apply IH].
    intros (m' & Hp & Hm')%list_elem_of_fmap. apply list_elem_of_filter in Hm' as [[_ Hc'] Hm']. apply Hm, list_elem_of_fmap.
    exists m'. split; [|done]. unfold edge_of. congruence.
Qed.

Lemma visible_parents_None m :
  visible_edge deletions authorization semantic_snapshot domain_time g m →
  is_Some (visible_parents deletions authorization semantic_snapshot domain_time g !! hm_child m).
Proof.
  intros [Hin Hm]. rewrite visible_parents_lookup. destruct (is_empty _) eqn:He; [|eauto]. exfalso.
  assert (m ∈ filter (λ x, membership_visible deletions authorization semantic_snapshot domain_time g x = true ∧ hm_child x = hm_child m)
    (g_memberships g)) as Hf by (by apply list_elem_of_filter).
  destruct (filter _ _); [by apply elem_of_nil in Hf|done].
Qed.
End parents.

Lemma push_parents_eq g st stack edges : push_parents g st stack edges = omap (extend_route g st) edges ++ stack.
Proof.
  unfold push_parents. induction edges as [|m edges IH]; [done|]. cbn [rev omap list_omap].
  rewrite foldl_app, IH. cbn. by destruct (extend_route g st m).
Qed.

(** ** The search *)

(** Neither list of items continues the other. *)
Definition apart (a b : RouteState) : Prop :=
  ¬ reversed_items a `prefix_of` reversed_items b ∧ ¬ reversed_items b `prefix_of` reversed_items a.

Lemma apart_children a st st' x : apart a st → reversed_items st' = reversed_items st ++ [x] → apart a st'.
Proof.
  intros [H1 H2] Heq. split; rewrite Heq.
  - intros [k Hk]. destruct k as [|y k _] using rev_ind.
    + rewrite app_nil_r in Hk. apply H2. exists [x]. by rewrite <- Hk.
    + rewrite app_assoc in Hk. apply app_inj_tail in Hk as [Hk _]. apply H1. by exists k.
  - intros [k Hk]. apply H2. exists (x :: k). rewrite Hk. by rewrite <- app_assoc.
Qed.

Lemma apart_siblings st a b x y :
  reversed_items a = reversed_items st ++ [x] → reversed_items b = reversed_items st ++ [y] → x ≠ y → apart a b.
Proof.
  intros Ha Hb Hne. unfold apart. rewrite Ha, Hb.
  split; intros Hp%prefix_app_inv; apply prefix_cons_inv_1 in Hp; congruence.
Qed.

Section search.
Context `{Blake3} `{!RouteJson}.
Context (catalog : Catalog) (deletions : DeletionRegistry) (request : RouteRequest) (authorization : AuthorizationSnapshot).
Context (g : HierarchyGeneration) (freshness : GenerationFreshness).
Hypothesis Hok : generation_ok g.

Let visible := node_visible deletions authorization (rr_semantic_snapshot request) (rr_domain_time request) g.
Let path := visible_path deletions authorization (rr_semantic_snapshot request) (rr_domain_time request) g.
Let parents := visible_parents deletions authorization (rr_semantic_snapshot request) (rr_domain_time request) g.

Definition visible_roots : gset HierarchyItemId := list_to_set (List.filter visible (bt_elements (g_roots g))).

Lemma elem_of_visible_roots x : x ∈ visible_roots ↔ x ∈ g_roots g ∧ visible x = true.
Proof.
  unfold visible_roots. rewrite elem_of_list_to_set, list_elem_of_In, List.filter_In, <- list_elem_of_In, bt_elements_elem. done.
Qed.

(** A partial route from the target upwards. *)
Record state_ok (st : RouteState) : Prop := {
  so_path : path (rev (reversed_items st)) (rev (reversed_memberships st));
  so_current : head (rev (reversed_items st)) = Some (st_current st);
  so_target : last (rev (reversed_items st)) = Some (rr_target request);
  so_depth : (len (reversed_memberships st) ≤ rr_max_depth request)%N;
  so_nodes : ∀ x n, x ∈ reversed_items st → g_nodes g !! x = Some n →
    (basis_points (st_confidence st) ≤ basis_points (hn_confidence n))%N;
  so_memberships : ∀ m, m ∈ reversed_memberships st → (basis_points (st_confidence st) ≤ basis_points (hm_confidence m))%N;
}.

Definition extends (st st' : RouteState) : Prop :=
  st_current st ∉ visible_roots ∧ (len (reversed_memberships st) < rr_max_depth request)%N ∧
  ∃ edges m, parents !! st_current st = Some edges ∧ m ∈ edges ∧ extend_route g st m = Some st'.
Definition cut (st : RouteState) : Prop :=
  st_current st ∉ visible_roots ∧ (rr_max_depth request ≤ len (reversed_memberships st))%N.

Lemma extend_route_Some st m st' :
  extend_route g st m = Some st' ↔ hm_parent m ∉ reversed_items st ∧ ∃ parent, g_nodes g !! hm_parent m = Some parent ∧
    st' = MkRouteState (hm_parent m) (reversed_items st ++ [hm_parent m]) (reversed_memberships st ++ [m])
      (combine (combine (st_confidence st) (hm_confidence m)) (hn_confidence parent)).
Proof.
  unfold extend_route. case_bool_decide as Hin; [split; [done|by intros []]|].
  destruct (g_nodes g !! hm_parent m) as [parent|]; cbn; split.
  - intros [= <-]. eauto.
  - intros (_ & ? & [= <-] & ->). done.
  - done.
  - by intros (_ & ? & ? & _).
Qed.

Lemma start_ok node :
  visible (rr_target request) = true → g_nodes g !! rr_target request = Some node →
  state_ok (MkRouteState (rr_target request) [rr_target request] [] (hn_confidence node)).
Proof.
  intros Hv Hn. split; cbn; [|done|done|unfold len; cbn; lia| |by intros m ?%elem_of_nil].
  - split_and!; [by apply joins_one|by constructor|constructor].
  - intros x n ->%list_elem_of_singleton Hx. rewrite Hn in Hx. by injection Hx as <-.
Qed.

Lemma child_ok st st' : state_ok st → extends st st' → state_ok st' ∧ reversed_items st' = reversed_items st ++ [st_current st'].
Proof.
  intros [Hp Hc Ht Hd Hn Hm] (_ & Hlt & edges & m & He & Hin & Hx). apply extend_route_Some in Hx as (_ & parent & Hparent & ->).
  split; [|done]. apply visible_parents_edges in He as [He _]. apply He in Hin as [Hvis Hchild].
  destruct (combine_le (combine (st_confidence st) (hm_confidence m)) (hn_confidence parent)) as [H1 H2].
  destruct (combine_le (st_confidence st) (hm_confidence m)) as [H3 H4].
  split; cbn [reversed_items reversed_memberships st_current st_confidence]; rewrite ?rev_app_distr; cbn [rev app head].
  - apply visible_path_cons; [done|done| |done]. by rewrite Hchild.
  - done.
  - destruct (rev (reversed_items st)) as [|y l]; [done|]. by rewrite last_cons_cons.
  - unfold len in *. rewrite length_app. cbn. lia.
  - intros x n [Hold| ->%list_elem_of_singleton]%elem_of_app Hx; [specialize (Hn x n Hold Hx); lia|].
    rewrite Hparent in Hx. by injection Hx as <-.
  - intros m' [Hold| ->%list_elem_of_singleton]%elem_of_app; [specialize (Hm m' Hold)|]; lia.
Qed.

Lemma reach_ok st f : rtc extends st f → state_ok st → state_ok f.
Proof. induction 1 as [|st st' f Hx _ IH]; intros Hst; [done|]. apply IH. by apply (child_ok st). Qed.

Lemma no_children st f : rtc extends st f → (∀ st', ¬ extends st st') → f = st.
Proof. intros Hr Hno. inversion Hr as [|? st' ? Hx]; [done|]. by destruct (Hno st'). Qed.

(** Every visible path down to the target is a state that the search reaches, unless
    the depth bound stops it. *)
Lemma reach_path node items ms :
  let start := MkRouteState (rr_target request) [rr_target request] [] (hn_confidence node) in
  path items ms → last items = Some (rr_target request) →
  ((len ms ≤ rr_max_depth request)%N ∧
     ∃ f, rtc extends start f ∧ rev (reversed_items f) = items ∧ rev (reversed_memberships f) = ms ∧ head items = Some (st_current f)) ∨
  ((rr_max_depth request < len ms)%N ∧ ∃ f, rtc extends start f ∧ cut f).
Proof.
  intros start. revert ms; induction items as [|x items IH]; intros ms Hpath Hlast; [done|].
  destruct items as [|y items].
  { injection Hlast as ->. destruct Hpath as (->%joins_one & _). left. split; [unfold len; cbn; lia|]. by exists start. }
  pose proof (visible_path_NoDup _ _ _ _ _ _ _ Hok Hpath) as Hnd. pose proof Hpath as (Hj & Hv & He).
  destruct (joins_two _ _ _ _ Hj) as (m & ms' & ->). apply joins_cons in Hj as (Hp & Hc & Hj).
  apply Forall_cons in Hv as [Hx Hv]. apply Forall_cons in He as [Hm He].
  rewrite last_cons_cons in Hlast. assert (len (m :: ms') = (len ms' + 1)%N) as Hlen by (unfold len; cbn [length]; lia).
  destruct (IH ms' (conj Hj (conj Hv He)) Hlast) as [(Hd & f & Hf & Hitems & Hms & [= Hcur])|(Hd & Hcut)]; [|right; split; [lia|done]].
  assert (st_current f ∉ visible_roots) as Hroot.
  { intros [[_ Hno]%(go_roots g Hok) _]%elem_of_visible_roots. apply (Hno m); [apply Hm|congruence]. }
  assert (len (reversed_memberships f) = len ms') as Hlen' by (unfold len; by rewrite <- Hms, length_rev).
  destruct (decide (len ms' < rr_max_depth request)%N) as [Hlt|Hge].
  2:{ right. split; [lia|]. exists f. split; [done|]. split; [done|lia]. }
  left. split; [lia|]. destruct (visible_parents_None _ _ _ _ _ m Hm) as [edges Hedges].
  destruct (visible_Some _ _ _ _ _ x Hx) as [parent Hparent].
  eexists (MkRouteState x (reversed_items f ++ [x]) (reversed_memberships f ++ [m])
    (combine (combine (st_confidence f) (hm_confidence m)) (hn_confidence parent))).
  cbn [reversed_items reversed_memberships st_current]. rewrite !rev_app_distr. cbn [rev app].
  split_and!; [|by rewrite Hitems|by rewrite Hms|done]. eapply rtc_r; [exact Hf|]. split_and!; [done|lia|].
  exists edges, m. rewrite <- Hcur, <- Hc. split_and!; [done|by apply (visible_parents_edges _ _ _ _ _ _ _ Hedges)|].
  apply extend_route_Some. rewrite Hp. split; [|eauto]. apply NoDup_cons in Hnd as [Hnd _]. by rewrite <- elem_of_rev, Hitems.
Qed.

(** *** Results of the search *)

Definition finished (st : RouteState) (r : HierarchyRoute) : Prop :=
  finish_route catalog deletions request g freshness st = Ok r.

Lemma route_digest_Err r e : route_digest r = Err e → e = Serialization.
Proof.
  unfold route_digest, to_vec. destruct (to_json (rt_domain_time r)); cbn; [|congruence].
  destruct (to_json (rt_items r)); cbn; [|congruence]. destruct (to_json (rt_nodes r)); cbn; [|congruence].
  destruct (to_json (rt_memberships r)); cbn; congruence.
Qed.

Lemma path_nodes items :
  Forall (λ x, visible x = true) items →
  (λ x, g_nodes g !! x) <$> items = Some <$> omap (λ x, g_nodes g !! x) items ∧
  length (omap (λ x, g_nodes g !! x) items) = length items.
Proof.
  induction 1 as [|x items Hx _ [IH1 IH2]]; [done|]. destruct (visible_Some _ _ _ _ _ x Hx) as [n Hn].
  cbn. rewrite Hn. cbn. by rewrite IH1, IH2.
Qed.

Lemma finish_route_result st :
  state_ok st → match finish_route catalog deletions request g freshness st with Ok _ => True | Err e => e = Serialization end.
Proof.
  intros [(_ & Hv & _) _ _ _ _ _]. unfold finish_route. destruct (path_nodes _ Hv) as [_ ->]. rewrite Nat.eqb_refl. cbn [negb].
  destruct (route_digest _) as [digest|e] eqn:Hd; [done|]. by apply route_digest_Err in Hd.
Qed.

Lemma finished_fields st r :
  state_ok st → finished st r →
  rt_items r = rev (reversed_items st) ∧ rt_memberships r = rev (reversed_memberships st) ∧
  (λ x, g_nodes g !! x) <$> rt_items r = Some <$> rt_nodes r ∧ rt_confidence r = st_confidence st ∧
  rt_generation r = generation_reference g ∧ rt_hierarchy_epoch r = cat_epoch catalog ∧
  rt_deletion_epoch r = reg_epoch deletions ∧ rt_semantic_snapshot r = rr_semantic_snapshot request ∧
  rt_domain_time r = rr_domain_time request ∧ rt_freshness r = freshness ∧ route_digest r = Ok (rt_integrity_digest r).
Proof.
  intros [(_ & Hv & _) _ _ _ _ _] Hf. unfold finished, finish_route in Hf. destruct (path_nodes _ Hv) as [Hn Hlen].
  rewrite Hlen, Nat.eqb_refl in Hf. cbn [negb] in Hf. apply result_bind_Ok in Hf as (digest & Hd & [= <-]).
  cbn [with_digest rt_items rt_memberships rt_nodes rt_confidence rt_generation rt_hierarchy_epoch rt_deletion_epoch
    rt_semantic_snapshot rt_domain_time rt_freshness rt_integrity_digest]. split_and!; done.
Qed.

Definition found_ok (found : list RouteState) (routes : list HierarchyRoute) : Prop :=
  Forall2 finished found routes ∧ Forall (λ st, st_current st ∈ visible_roots) found.

Definition search_ok (start : RouteState) (s : list RouteState * list HierarchyRoute * bool) : Prop :=
  let '(stack, routes, truncated) := s in
  ∃ found, found_ok found routes ∧ Forall state_ok (found ++ stack) ∧ StronglySorted apart (found ++ stack) ∧
    (len routes < rr_max_routes request)%N ∧
    (∀ f, rtc extends start f → st_current f ∈ visible_roots → f ∈ found ∨ ∃ st, st ∈ stack ∧ rtc extends st f) ∧
    (∀ f, rtc extends start f → cut f → truncated = true ∨ ∃ st, st ∈ stack ∧ rtc extends st f).

Definition search_result (start : RouteState) (r : Result (list HierarchyRoute * bool)) : Prop :=
  match r with
  | Err e => e = Serialization
  | Ok (routes, truncated) =>
      ∃ found, found_ok found routes ∧ Forall state_ok found ∧ StronglySorted apart found ∧
        (len routes ≤ rr_max_routes request)%N ∧
        (truncated = false ∨ (len routes < rr_max_routes request)%N →
          ∀ f, rtc extends start f → st_current f ∈ visible_roots → f ∈ found) ∧
        (truncated = false → ∀ f, rtc extends start f → ¬ cut f)
  end.

Abbreviation step := (route_step catalog deletions request g freshness visible_roots parents).

Lemma search_finishes start st stack routes truncated route :
  search_ok start (st :: stack, routes, truncated) → st_current st ∈ visible_roots → finished st route →
  if (len (routes ++ [route]) =? rr_max_routes request)%N
  then search_result start (Ok (routes ++ [route], truncated || negb (is_empty stack)))
  else search_ok start (stack, routes ++ [route], truncated).
Proof.
  intros (found & [Hf Hr] & Hst & Hs & Hlen & Hall & Hcut) Hroot Hfin.
  replace (found ++ st :: stack) with ((found ++ [st]) ++ stack) in Hst, Hs by (by rewrite <- app_assoc).
  assert (found_ok (found ++ [st]) (routes ++ [route])) as Hfound.
  { split; [by apply Forall2_app; [|constructor]|by apply Forall_app; split; [|constructor]]. }
  assert (∀ f, rtc extends st f → f = st) as Hno by (intros f Hf'; apply no_children; [done|by intros st' []]).
  assert (∀ f, rtc extends start f → st_current f ∈ visible_roots → f ∈ found ++ [st] ∨ ∃ st', st' ∈ stack ∧ rtc extends st' f) as Hall'.
  { intros f Hr1 Hr2. destruct (Hall f Hr1 Hr2) as [?|(st' & [->|?]%elem_of_cons & Hst')].
    - left. apply elem_of_app. by left.
    - left. apply Hno in Hst' as ->. apply elem_of_app. right. by apply list_elem_of_singleton.
    - right. eauto. }
  assert (∀ f, rtc extends start f → cut f → truncated = true ∨ ∃ st', st' ∈ stack ∧ rtc extends st' f) as Hcut'.
  { intros f Hr1 Hr2. destruct (Hcut f Hr1 Hr2) as [?|(st' & [->|?]%elem_of_cons & Hst')]; [by left| |right; eauto].
    apply Hno in Hst' as ->. by destruct Hr2. }
  assert (len (routes ++ [route]) = (len routes + 1)%N) as Hlen' by (unfold len; rewrite length_app; cbn; lia).
  destruct (N.eqb_spec (len (routes ++ [route])) (rr_max_routes request)) as [Heq|Hne].
  2:{ exists (found ++ [st]). split_and!; try done. lia. }
  exists (found ++ [st]). split_and!; [done|by apply Forall_app in Hst as [? _]|by apply StronglySorted_app_1_l in Hs|lia| |].
  - intros [[-> Hempty]%orb_false_iff|?] f Hr1 Hr2; [|lia]. destruct stack; [|done].
    destruct (Hall' f Hr1 Hr2) as [?|(? & []%elem_of_nil & _)]. done.
  - intros [-> Hempty]%orb_false_iff f Hr1 Hr2. destruct stack; [|done]. destruct (Hcut' f Hr1 Hr2) as [?|(? & []%elem_of_nil & _)]. done.
Qed.

Lemma pushed_children st edges :
  state_ok st → st_current st ∉ visible_roots → (len (reversed_memberships st) < rr_max_depth request)%N →
  parents !! st_current st = Some edges →
  let children := omap (extend_route g st) edges in
  (∀ st', extends st st' ↔ st' ∈ children) ∧ Forall state_ok children ∧ StronglySorted apart children ∧
  (length children ≤ length (g_memberships g))%nat ∧
  ∀ st', st' ∈ children → reversed_items st' = reversed_items st ++ [st_current st'].
Proof.
  intros Hst Hroot Hd He children. assert (∀ st', extends st st' ↔ st' ∈ children) as Hiff.
  { intros st'. unfold children. rewrite list_elem_of_omap. split.
    - intros (_ & _ & edges' & m & He' & Hm & Hx). rewrite He in He'. injection He' as <-. eauto.
    - intros (m & Hm & Hx). split_and!; [done|done|eauto]. }
  destruct (visible_parents_edges _ _ _ _ _ _ _ He) as (_ & Hlen & Hnd). split_and!; [done| | | |].
  - apply Forall_forall. intros st' Hst'. apply Hiff in Hst'. by apply (child_ok st).
  - specialize (Hnd (go_edges g Hok)). unfold children. clear -Hnd. induction edges as [|m edges IH]; [constructor|].
    rewrite fmap_cons in Hnd. apply NoDup_cons in Hnd as [Hm Hnd]. cbn.
    destruct (extend_route g st m) as [a|] eqn:Ha; [|by apply IH]. constructor; [by apply IH|].
    apply Forall_forall. intros b (m' & Hm' & Hb)%list_elem_of_omap.
    apply extend_route_Some in Ha as (_ & ? & _ & ->), Hb as (_ & ? & _ & ->).
    apply (apart_siblings st _ _ (hm_parent m) (hm_parent m')); [done|done|]. intros Heq. apply Hm. rewrite Heq. by apply list_elem_of_fmap_2.
  - etrans; [|exact Hlen]. unfold children. clear. induction edges as [|m edges IH]; [done|]. cbn. destruct (extend_route g st m); cbn; lia.
  - intros st' Hst'. apply Hiff in Hst'. by apply (child_ok st).
Qed.

Lemma search_pushes start st stack routes truncated edges :
  search_ok start (st :: stack, routes, truncated) → st_current st ∉ visible_roots →
  (len (reversed_memberships st) < rr_max_depth request)%N → parents !! st_current st = Some edges →
  search_ok start (push_parents g st stack edges, routes, truncated).
Proof.
  intros (found & Hf & Hst & Hs & Hlen & Hall & Hcut) Hroot Hd He. rewrite push_parents_eq.
  apply Forall_app in Hst as [Hst1 [Hst2 Hst3]%Forall_cons].
  destruct (pushed_children st edges Hst2 Hroot Hd He) as (Hiff & Hok' & Happ & _ & Hitems).
  set (children := omap (extend_route g st) edges) in *.
  assert (∀ f, rtc extends st f → st_current f ∈ visible_roots ∨ cut f → ∃ st', st' ∈ children ++ stack ∧ rtc extends st' f) as Hmove.
  { intros f Hr Hend. inversion Hr as [|? st' ? Hx]; subst.
    - destruct Hend as [?|[_ ?]]; [done|]. lia.
    - exists st'. split; [|done]. apply elem_of_app. left. by apply Hiff. }
  exists found. split_and!; [done|by repeat (apply Forall_app; split)| |done| |].
  - apply StronglySorted_app in Hs as (Hx & Hs1 & Hs2). apply StronglySorted_inv in Hs2 as [Hs2 Hs3]. rewrite Forall_forall in Hs3.
    assert (∀ a c, (apart st a ∨ apart a st) → c ∈ children → apart a c) as Hc.
    { intros a c Ha Hin. apply (apart_children a st c (st_current c)); [|by apply Hitems]. destruct Ha as [[]|[]]; by split. }
    apply StronglySorted_app. split_and!; [|done|].
    + intros a b Ha [Hb|Hb]%elem_of_app; [apply Hc; [right; apply Hx; [done|by left]|done]|apply Hx; [done|by right]].
    + apply StronglySorted_app. split_and!; [|done|done]. intros a b Ha Hb.
      destruct (Hc b a (or_introl (Hs3 b Hb)) Ha). by split.
  - intros f Hr1 Hr2. destruct (Hall f Hr1 Hr2) as [?|(st' & [->|?]%elem_of_cons & Hst')]; [by left|right; eauto|].
    right. exists st'. split; [|done]. apply elem_of_app. by right.
  - intros f Hr1 Hr2. destruct (Hcut f Hr1 Hr2) as [?|(st' & [->|?]%elem_of_cons & Hst')]; [by left|right; eauto|].
    right. exists st'. split; [|done]. apply elem_of_app. by right.
Qed.

(** Dropping a state that neither continues nor is a route. *)
Lemma search_drops start st stack routes truncated truncated' :
  search_ok start (st :: stack, routes, truncated) → st_current st ∉ visible_roots → (∀ st', ¬ extends st st') →
  (truncated' = true ∨ (¬ cut st ∧ truncated' = truncated)) → search_ok start (stack, routes, truncated').
Proof.
  intros (found & Hf & Hst & Hs & Hlen & Hall & Hcut) Hroot Hno Htr. exists found.
  apply Forall_app in Hst as [Hst1 [_ Hst3]%Forall_cons]. apply StronglySorted_app in Hs as (Hx & Hs1 & Hs2).
  apply StronglySorted_inv in Hs2 as [Hs2 _]. split_and!; [done|by apply Forall_app| |done| |].
  - apply StronglySorted_app. split_and!; [|done|done]. intros a b Ha Hb. apply Hx; [done|by right].
  - intros f Hr1 Hr2. destruct (Hall f Hr1 Hr2) as [?|(st' & [->|?]%elem_of_cons & Hst')]; [by left| |right; eauto].
    apply no_children in Hst' as ->; done.
  - intros f Hr1 Hr2. destruct Htr as [->|[Hncut ->]]; [by left|].
    destruct (Hcut f Hr1 Hr2) as [?|(st' & [->|?]%elem_of_cons & Hst')]; [by left| |right; eauto].
    apply no_children in Hst' as ->; done.
Qed.

Lemma search_step start s :
  search_ok start s → match step s with inl s' => search_ok start s' | inr r => search_result start r end.
Proof.
  destruct s as [[stack routes] truncated]. intros Hs. unfold route_step. destruct stack as [|st stack].
  { destruct Hs as (found & Hf & Hst & Hs & Hlen & Hall & Hcut). rewrite app_nil_r in *. exists found. split_and!; [done..|lia| |].
    - intros _ f Hr1 Hr2. destruct (Hall f Hr1 Hr2) as [?|(? & []%elem_of_nil & _)]. done.
    - intros -> f Hr1 Hr2. destruct (Hcut f Hr1 Hr2) as [?|(? & []%elem_of_nil & _)]. done. }
  assert (state_ok st) as Hst.
  { destruct Hs as (found & _ & Hst & _). by apply Forall_app in Hst as [_ [? _]%Forall_cons]. }
  case_bool_decide as Hroot.
  - pose proof (finish_route_result st Hst) as Hres. destruct (finish_route _ _ _ _ _ st) as [route|e] eqn:Hfin; [|done].
    pose proof (search_finishes start st stack routes truncated route Hs Hroot Hfin) as Hnext. cbn zeta. by destruct (_ =? _)%N.
  - destruct (N.leb_spec (rr_max_depth request) (len (reversed_memberships st))) as [Hd|Hd].
    { apply (search_drops start st stack routes truncated); [done|done| |by left]. intros st' (_ & ? & _). lia. }
    destruct (parents !! st_current st) as [edges|] eqn:He; [by apply search_pushes|].
    apply (search_drops start st stack routes truncated); [done|done| |right; split; [|done]].
    + intros st' (_ & _ & edges & m & He' & _). congruence.
    + intros [_ ?]. lia.
Qed.

(** *** Termination *)

Definition weight (st : RouteState) : nat := (length (g_memberships g) + 1) ^ (size (g_nodes g) - length (reversed_items st)).
Definition work (s : list RouteState * list HierarchyRoute * bool) : nat := list_sum (weight <$> s.1.1).

Lemma weight_pos st : (0 < weight st)%nat.
Proof. unfold weight. assert ((length (g_memberships g) + 1) ^ (size (g_nodes g) - length (reversed_items st)) ≠ 0)%nat; [|lia]. apply Nat.pow_nonzero. lia. Qed.

Lemma sum_bound l w : Forall (λ st, weight st = w) l → list_sum (weight <$> l) = (length l * w)%nat.
Proof. induction 1 as [|st l Hst _ IH]; [done|]. cbn. rewrite Hst. change (foldr Nat.add 0%nat (weight <$> l)) with (list_sum (weight <$> l)). lia. Qed.

Lemma children_lighter st edges :
  state_ok st → st_current st ∉ visible_roots → (len (reversed_memberships st) < rr_max_depth request)%N →
  parents !! st_current st = Some edges → (list_sum (weight <$> omap (extend_route g st) edges) < weight st)%nat.
Proof.
  intros Hst Hroot Hd He. destruct (pushed_children st edges Hst Hroot Hd He) as (_ & Hok' & _ & Hlen & Hitems).
  set (children := omap (extend_route g st) edges) in *.
  rewrite (sum_bound _ ((length (g_memberships g) + 1) ^ (size (g_nodes g) - S (length (reversed_items st))))).
  2:{ apply Forall_forall. intros c Hc. unfold weight. rewrite (Hitems c Hc), length_app. cbn. do 2 f_equal. lia. }
  destruct children as [|c children]; [apply weight_pos|].
  assert (S (length (reversed_items st)) ≤ size (g_nodes g))%nat as Hsize.
  { apply Forall_cons in Hok' as [[Hp _ _ _ _ _] _]. apply visible_path_length in Hp; [|done].
    rewrite length_rev, (Hitems c), length_app in Hp by (by left). cbn in Hp. lia. }
  unfold weight. replace (size (g_nodes g) - length (reversed_items st))%nat
    with (S (size (g_nodes g) - S (length (reversed_items st))))%nat by lia.
  rewrite Nat.pow_succ_r'. apply Nat.mul_lt_mono_pos_r; [|lia]. apply Nat.neq_0_lt_0, Nat.pow_nonzero. lia.
Qed.

Lemma search_decreases start s s' : search_ok start s → step s = inl s' → search_ok start s' ∧ (work s' < work s)%nat.
Proof.
  intros Hs Hstep. split; [pose proof (search_step start s Hs) as Hn; by rewrite Hstep in Hn|].
  destruct s as [[[|st stack] routes] truncated]; [done|]. pose proof (weight_pos st) as Hpos.
  assert (state_ok st) as Hst.
  { destruct Hs as (found & _ & Hst & _). by apply Forall_app in Hst as [_ [? _]%Forall_cons]. }
  assert (work (st :: stack, routes, truncated) = weight st + list_sum (weight <$> stack))%nat as -> by done.
  unfold route_step in Hstep. case_bool_decide as Hroot.
  - destruct (finish_route _ _ _ _ _ st); [|done]. cbn zeta in Hstep. destruct (_ =? _)%N; [done|]. injection Hstep as <-. unfold work. cbn [fst]. lia.
  - destruct (N.leb_spec (rr_max_depth request) (len (reversed_memberships st))) as [Hd|Hd]; [injection Hstep as <-; unfold work; cbn [fst]; lia|].
    destruct (parents !! st_current st) as [edges|] eqn:He; injection Hstep as <-; unfold work; cbn [fst]; [|lia].
    rewrite push_parents_eq, fmap_app, list_sum_app. pose proof (children_lighter st edges Hst Hroot Hd He). lia.
Qed.

Lemma search_total node :
  visible (rr_target request) = true → g_nodes g !! rr_target request = Some node → rr_max_routes request ≠ 0%N →
  let start := MkRouteState (rr_target request) [rr_target request] [] (hn_confidence node) in
  ∃ r, loop_pos (route_fuel g) step ([start], [], false) = inr r ∧ search_result start r.
Proof.
  intros Hv Hn Hmax start. assert (search_ok start ([start], [], false)) as Hs.
  { exists []. split; [by split; constructor|]. split; [by apply Forall_singleton, start_ok|].
    split; [by apply SSorted_cons; constructor|]. split; [unfold len; cbn; lia|].
    split; intros f Hf _; right; exists start; (split; [by left|done]). }
  rewrite loop_pos_nat. destruct (loop_nat_terminates step (search_ok start) work (Pos.to_nat (route_fuel g)) ([start], [], false)) as [r Hr].
  - intros s s'. apply search_decreases.
  - done.
  - assert (work ([start], [], false) = weight start)%nat as -> by (unfold work; cbn; lia). unfold weight, route_fuel.
    rewrite <- positive_N_nat, N.succ_pos_spec, N2Nat.inj_succ, N2Nat.inj_pow, !N2Nat.inj_add. unfold len. rewrite !Nat2N.id.
    apply Nat.lt_succ_r, Nat.pow_le_mono_r; cbn; lia.
  - exists r. split; [done|]. by eapply (loop_nat_invariant step (search_ok start) (search_result start)); [exact (search_step start)|exact Hs|exact Hr].
Qed.
End search.

(** ** Reported routes *)

Section reported.
Context `{Blake3} `{!RouteJson} `{!PartitionJson} `{!Serialize CanonicalProposal}.

(** A route of the request's target: a visible path from a root, within the depth
    bound, with the metadata of its items, a confidence that no part of it
    undercuts, and bound to the generation, epochs and snapshots of the read. *)
Record reported_route (catalog : Catalog) (deletions : DeletionRegistry) (request : RouteRequest)
    (authorization : AuthorizationSnapshot) (g : HierarchyGeneration) (f : GenerationFreshness) (r : HierarchyRoute) : Prop := {
  rp_path : visible_path deletions authorization (rr_semantic_snapshot request) (rr_domain_time request) g (rt_items r) (rt_memberships r);
  rp_root : ∃ root, head (rt_items r) = Some root ∧ root ∈ g_roots g;
  rp_target : last (rt_items r) = Some (rr_target request);
  rp_depth : (len (rt_memberships r) ≤ rr_max_depth request)%N;
  rp_nodes : (λ x, g_nodes g !! x) <$> rt_items r = Some <$> rt_nodes r;
  rp_confidence : (∀ n, n ∈ rt_nodes r → kle (rt_confidence r) (hn_confidence n)) ∧
    (∀ m, m ∈ rt_memberships r → kle (rt_confidence r) (hm_confidence m));
  rp_bound : rt_generation r = generation_reference g ∧ rt_hierarchy_epoch r = cat_epoch catalog ∧
    rt_deletion_epoch r = reg_epoch deletions ∧ rt_semantic_snapshot r = rr_semantic_snapshot request ∧
    rt_domain_time r = rr_domain_time request ∧ rt_freshness r = f;
  rp_digest : route_digest r = Ok (rt_integrity_digest r);
}.

Lemma finished_reported catalog deletions request authorization g f st r :
  state_ok deletions request authorization g st → st_current st ∈ visible_roots deletions request authorization g →
  finished catalog deletions request g f st r → reported_route catalog deletions request authorization g f r.
Proof.
  intros Hst [Hroot _]%elem_of_visible_roots Hf. destruct (finished_fields _ _ _ _ _ _ _ _ Hst Hf) as (Hi & Hm & Hn & Hc & Hb).
  destruct Hst as [Hp Hcur Ht Hd Hnodes Hms]. split.
  - by rewrite Hi, Hm.
  - rewrite Hi. eauto.
  - by rewrite Hi.
  - rewrite Hm. unfold len in *. by rewrite length_rev.
  - done.
  - assert (∀ a b : Confidence, (basis_points a ≤ basis_points b)%N → kle a b) as Hle by (intros a b; by apply N.compare_le_iff).
    split; [intros n Hin|intros m Hin]; rewrite Hc; apply Hle.
    + apply list_elem_of_lookup in Hin as [i Hin]. pose proof (f_equal (.!! i) Hn) as Hl. cbn in Hl. rewrite !list_lookup_fmap, Hin in Hl.
      destruct (rt_items r !! i) as [x|] eqn:Hx; [|done]. injection Hl as Hl. apply (Hnodes x n); [|done].
      apply elem_of_rev. rewrite <- Hi. by apply list_elem_of_lookup_2 in Hx.
    + apply Hms. apply elem_of_rev. by rewrite <- Hm.
  - tauto.
  - tauto.
Qed.

Lemma found_distinct catalog deletions request authorization g f found routes :
  Forall2 (finished catalog deletions request g f) found routes → Forall (state_ok deletions request authorization g) found →
  StronglySorted apart found → NoDup (rt_items <$> routes).
Proof.
  induction 1 as [|st r found routes Hf Hall IH]; intros Hst Hs; [constructor|].
  apply Forall_cons in Hst as [Hst1 Hst2]. apply StronglySorted_inv in Hs as [Hs Hapart]. rewrite fmap_cons. apply NoDup_cons.
  split; [|by apply IH]. intros (r' & Heq & Hr')%list_elem_of_fmap. apply list_elem_of_lookup in Hr' as [i Hr'].
  destruct (Forall2_lookup_r _ _ _ _ _ Hall Hr') as (st' & Hst' & Hf').
  rewrite Forall_forall in Hapart, Hst2. apply list_elem_of_lookup_2 in Hst'.
  destruct (finished_fields _ _ _ _ _ _ _ _ Hst1 Hf) as [Hi _]. destruct (finished_fields _ _ _ _ _ _ _ _ (Hst2 _ Hst') Hf') as [Hi' _].
  destruct (Hapart st' Hst') as [Hno _]. apply Hno. rewrite Hi, Hi' in Heq. apply (f_equal (@rev _)) in Heq. rewrite !rev_involutive in Heq. by rewrite Heq.
Qed.

Lemma routes_sorted routes : StronglySorted (λ a b, route_order a b ≠ Gt) (sort_by route_order routes).
Proof.
  apply (sort_by_compare route_order (λ r, (count_alternatives r, (MkReverse (rt_confidence r), rt_items r)))).
  intros a b. unfold route_order. by rewrite !cmp_pair.
Qed.

(** A visible path from a root to the target of a request. *)
Definition route_path (deletions : DeletionRegistry) (request : RouteRequest) (authorization : AuthorizationSnapshot)
    (g : HierarchyGeneration) (items : list HierarchyItemId) (ms : list HierarchyMembership) : Prop :=
  visible_path deletions authorization (rr_semantic_snapshot request) (rr_domain_time request) g items ms ∧
  (∃ root, head items = Some root ∧ root ∈ g_roots g) ∧ last items = Some (rr_target request).

Lemma validate_route_budget_Ok request :
  validate_route_budget request = Ok tt ↔ rr_max_routes request ≠ 0%N ∧ rr_max_depth request ≠ 0%N.
Proof.
  unfold validate_route_budget. destruct (N.eqb_spec (rr_max_routes request) 0); [naive_solver|].
  destruct (N.eqb_spec (rr_max_depth request) 0); naive_solver.
Qed.

(** The search finds the visible paths. *)
Lemma found_path catalog deletions request authorization g f node found routes items ms :
  generation_ok g → found_ok catalog deletions request authorization g f found routes →
  Forall (state_ok deletions request authorization g) found → route_path deletions request authorization g items ms →
  let start := MkRouteState (rr_target request) [rr_target request] [] (hn_confidence node) in
  (∀ st, rtc (extends deletions request authorization g) start st →
    st_current st ∈ visible_roots deletions request authorization g → st ∈ found) →
  (len ms ≤ rr_max_depth request)%N ∨ (∀ st, rtc (extends deletions request authorization g) start st → ¬ cut deletions request authorization g st) →
  ∃ r, r ∈ routes ∧ rt_items r = items ∧ rt_memberships r = ms.
Proof.
  intros Hok [Hf _] Hst (Hp & (root & Hhead & Hroot) & Ht) start Hall Hd.
  destruct (reach_path deletions request authorization g Hok node items ms Hp Ht) as [(_ & st & Hr & Hi & Hm & Hcur)|(Hlt & st & Hr & Hcut)].
  2:{ destruct Hd as [Hd|Hno]; [lia|by destruct (Hno st)]. }
  rewrite Hhead in Hcur. injection Hcur as ->. assert (st ∈ found) as Hin.
  { apply Hall; [done|]. apply elem_of_visible_roots. split; [done|]. destruct Hp as (_ & Hv & _). rewrite Forall_forall in Hv. apply Hv.
    by apply head_Some_elem_of. }
  apply list_elem_of_lookup in Hin as [i Hin]. destruct (Forall2_lookup_l _ _ _ _ _ Hf Hin) as (r & Hr' & Hfin).
  exists r. split; [by apply list_elem_of_lookup_2 in Hr'|]. rewrite Forall_forall in Hst. apply list_elem_of_lookup_2 in Hin.
  destruct (finished_fields _ _ _ _ _ _ _ _ (Hst st Hin) Hfin) as (-> & -> & _). done.
Qed.

Lemma search_reports catalog deletions request authorization g f node routes truncated :
  generation_ok g →
  search_result catalog deletions request authorization g f
    (MkRouteState (rr_target request) [rr_target request] [] (hn_confidence node)) (Ok (routes, truncated)) →
  let sorted := sort_by route_order routes in
  (len sorted ≤ rr_max_routes request)%N ∧ Forall (reported_route catalog deletions request authorization g f) sorted ∧
  NoDup (rt_items <$> sorted) ∧ StronglySorted (λ a b, route_order a b ≠ Gt) sorted ∧
  ∀ items ms, route_path deletions request authorization g items ms →
    truncated = false ∨ (len ms ≤ rr_max_depth request ∧ len sorted < rr_max_routes request)%N →
    ∃ r, r ∈ sorted ∧ rt_items r = items ∧ rt_memberships r = ms.
Proof.
  intros Hok (found & Hf & Hst & Hapart & Hlen & Hall & Hcut) sorted.
  pose proof (sort_by_Permutation route_order routes : sorted ≡ₚ routes) as Hperm.
  assert (len sorted = len routes) as -> by (unfold len; by rewrite Hperm). split; [done|].
  split; [|split; [rewrite Hperm; by eapply found_distinct; [apply Hf| |]|split; [apply routes_sorted|]]].
  - rewrite Hperm. apply Forall_forall. intros r Hr. apply list_elem_of_lookup in Hr as [i Hr]. destruct Hf as [Hf Hroots].
    destruct (Forall2_lookup_r _ _ _ _ _ Hf Hr) as (st & Hst' & Hfin). apply list_elem_of_lookup_2 in Hst'.
    rewrite Forall_forall in Hst, Hroots. by apply (finished_reported _ _ _ _ _ _ st); [apply Hst|apply Hroots|].
  - intros items ms Hp Hcase.
    destruct (found_path catalog deletions request authorization g f node found routes items ms) as (r & Hr & Hrest); [done..| | |].
    + apply Hall. tauto.
    + destruct Hcase as [->|[? _]]; [by right; apply Hcut|by left].
    + exists r. by rewrite Hperm.
Qed.

Lemma materialized_routes catalog deletions request authorization rm :
  catalog_ok catalog → materialize_routes catalog deletions request authorization = Some (Ok rm) →
  ∃ view g, opened catalog (rr_view_id request) (rr_semantic_snapshot request) authorization view g (rm_freshness rm) ∧
    Forall (reported_route catalog deletions request authorization g (rm_freshness rm)) (rm_routes rm).
Proof.
  intros Hcat Hm. unfold materialize_routes in Hm. cbn zeta in Hm.
  destruct (validate_route_budget request) as [[]|] eqn:Hbudget; [|done]. apply validate_route_budget_Ok in Hbudget as [Hmax _].
  cbn [result_bind] in Hm. destruct (open_view _ _ _ _ _) as [[[view g] f]|] eqn:Hopen; [|done]. cbn [result_bind] in Hm.
  destruct (node_visible _ _ _ _ g _) eqn:Htarget; [|done]. destruct (g_nodes g !! rr_target request) as [node|] eqn:Hnode; [|done].
  cbn [negb ok_or result_bind] in Hm. apply open_view_Ok in Hopen; [|done]. pose proof (op_ok _ _ _ _ _ _ _ Hopen) as Hok.
  destruct (search_total catalog deletions request authorization g f Hok node Htarget Hnode Hmax) as (r & Hloop & Hres).
  unfold visible_roots in Hloop. rewrite Hloop in Hm. destruct r as [[routes truncated]|error]; [|done]. cbn in Hm.
  destruct (is_empty routes); [done|]. injection Hm as <-. exists view, g. split; [done|].
  by apply search_reports in Hres as (_ & Hrep & _).
Qed.

(** C12: the search for the routes to an item ends, and its report is exact: every reported route is a visible
    path from a root to the item within the depth bound, with the current metadata,
    a confidence no higher than any of its parts and a valid binding; routes are
    distinct, in order and no more than asked for; a route is missing only when the
    report says that it was cut, or when it is too long or the route budget is used
    up; and the item is unavailable only when no visible route fits the depth bound. *)
Theorem materialize_routes_exact e selector catalog request authorization :
  reachable e → snapshot e selector = Ok catalog →
  let deletions := en_deletions e in
  let opening := open_view catalog (rr_view_id request) (rr_semantic_snapshot request) (rr_freshness request) authorization in
  ∃ answer, materialize_routes catalog deletions request authorization = Some answer ∧
  match answer with
  | Ok rm => ∃ view g, opening = Ok (view, g, rm_freshness rm) ∧
      rm_routes rm ≠ [] ∧ (len (rm_routes rm) ≤ rr_max_routes request)%N ∧
      Forall (reported_route catalog deletions request authorization g (rm_freshness rm)) (rm_routes rm) ∧
      NoDup (rt_items <$> rm_routes rm) ∧ StronglySorted (λ a b, route_order a b ≠ Gt) (rm_routes rm) ∧
      ∀ items ms, route_path deletions request authorization g items ms →
        rm_truncated rm = false ∨ (len ms ≤ rr_max_depth request ∧ len (rm_routes rm) < rr_max_routes request)%N →
        ∃ r, r ∈ rm_routes rm ∧ rt_items r = items ∧ rt_memberships r = ms
  | Err error =>
      validate_route_budget request = Err error ∨ opening = Err error ∨ error = Serialization ∨
      error = RouteUnavailable ∧ ∃ view g f, opening = Ok (view, g, f) ∧
        ∀ items ms, route_path deletions request authorization g items ms → (rr_max_depth request < len ms)%N
  end.
Proof.
  intros He%reachable_ok Hs deletions opening. pose proof (snapshot_ok _ _ _ He Hs) as Hcat. unfold materialize_routes.
  cbn zeta. destruct (validate_route_budget request) as [[]|error] eqn:Hbudget; [|eexists; split; [done|]; by left]. cbn [result_bind].
  fold opening. destruct opening as [[[view g] f]|error] eqn:Hopen; [|eexists; split; [done|]; right; by left]. cbn [result_bind].
  apply validate_route_budget_Ok in Hbudget as [Hmax _]. pose proof (op_ok _ _ _ _ _ _ _ (open_view_Ok _ _ _ _ _ _ _ _ Hcat Hopen)) as Hok.
  destruct (node_visible deletions authorization (rr_semantic_snapshot request) (rr_domain_time request) g (rr_target request)) eqn:Htarget; cbn [negb].
  2:{ eexists; split; [done|]. do 2 right. right. split; [done|]. exists view, g, f. split; [done|].
      intros items ms ((_ & Hv & _) & _ & Ht). exfalso.
      rewrite Forall_forall in Hv. apply last_Some_elem_of in Ht. rewrite (Hv _ Ht) in Htarget. done. }
  destruct (visible_Some _ _ _ _ _ _ Htarget) as [node Hnode]. rewrite Hnode. cbn [ok_or result_bind].
  destruct (search_total catalog deletions request authorization g f Hok node Htarget Hnode Hmax) as (r & Hloop & Hres).
  unfold visible_roots in Hloop. rewrite Hloop. eexists. split; [reflexivity|].
  destruct r as [[routes truncated]|error]; cbn [report_routes result_bind]; [|by right; right; left].
  apply search_reports in Hres as (Hlen & Hrep & Hnd & Hsort & Hfound); [|done].
  destruct routes as [|route routes]; cbn [is_empty].
  - right. right. right. split; [done|]. exists view, g, f. split; [done|]. intros items ms Hp.
    apply N.lt_nge. intros Hd. destruct (Hfound items ms Hp) as (r & []%elem_of_nil & _). right. split; [done|]. unfold len. cbn. lia.
  - exists view, g. cbn [rm_freshness rm_routes rm_truncated]. split_and!; try done.
    intros Hnil. pose proof (sort_by_Permutation route_order (route :: routes)) as Hperm. rewrite Hnil in Hperm. by apply Permutation_nil_l in Hperm.
Qed.
End reported.
