(* ===== verification/HierCached.v ===== *)
(** * Hierarchy views: cached routes

    What [validate_route] accepts: of the routes that [materialize_routes] reported,
    those whose catalog, deletions and partitions are still the ones they were
    reported under. *)

From S2P Require Import Prelude.
From S2P Require Import Ordering.
From S2P Require Import Bytes.
From S2P Require Import Format.
From S2P Require Import CoreBase.
From S2P Require Import Provenance.
From S2P Require Import Evidence.
From S2P Require Import Hierarchy.
From S2P Require Import HierValidate.
From S2P Require Import HierDag.
From S2P Require Import HierStats.
From S2P Require Import HierProposal.
From S2P Require Import HierEngine.
From S2P Require Import HierReads.
From S2P Require Import HierRuns.
From S2P Require Import HierPaths.
From S2P Require Import HierRoutes.

Section cached.
Context `{Blake3} `{!RouteJson} `{!PartitionJson} `{!Serialize CanonicalProposal}.
Context (catalog : Catalog) (deletions : DeletionRegistry) (authorization : AuthorizationSnapshot).

(** The generation a cached route names still has it. *)
Definition route_in (r : HierarchyRoute) (view : ViewState) (g : HierarchyGeneration) : Prop :=
  cat_views catalog !! gr_view_id (rt_generation r) = Some view ∧
  vs_generations view !! gr_generation (rt_generation r) = Some g ∧
  generation_reference g = rt_generation r ∧ generation_freshness view g (rt_semantic_snapshot r) = rt_freshness r ∧
  (∃ root, head (rt_items r) = Some root ∧ root ∈ g_roots g) ∧
  visible_path deletions authorization (rt_semantic_snapshot r) (rt_domain_time r) g (rt_items r) (rt_memberships r) ∧
  (λ x, g_nodes g !! x) <$> rt_items r = Some <$> rt_nodes r ∧ hn_id <$> rt_nodes r = rt_items r.

Definition current_route (r : HierarchyRoute) : Prop :=
  rt_hierarchy_epoch r = cat_epoch catalog ∧ rt_deletion_epoch r = reg_epoch deletions ∧
  route_digest r = Ok (rt_integrity_digest r) ∧ ∃ view g, route_in r view g.

Lemma nodes_current_Ok r g :
  length (rt_nodes r) = length (rt_items r) →
  for_each (node_current deletions authorization r g) (zip (rt_items r) (rt_nodes r)) = Ok tt ↔
  Forall (λ x, node_visible deletions authorization (rt_semantic_snapshot r) (rt_domain_time r) g x = true) (rt_items r) ∧
  (λ x, g_nodes g !! x) <$> rt_items r = Some <$> rt_nodes r ∧ hn_id <$> rt_nodes r = rt_items r.
Proof.
  intros Hlen. rewrite for_each_Ok. revert Hlen. generalize (rt_nodes r) as nodes. generalize (rt_items r) as items.
  induction items as [|x items IH]; intros [|n nodes] Hlen; try done.
  cbn [zip zip_with]. rewrite Forall_cons, IH by (cbn in Hlen; lia). rewrite Forall_cons, !fmap_cons. cbn [node_current].
  destruct (node_visible _ _ _ _ g x) eqn:Hv; cbn [negb orb]; [|naive_solver].
  case_bool_decide as Hn; cbn [orb]; [split; [naive_solver|]; intros (_ & [= ? _] & _); done|].
  rewrite Hn. case_bool_decide as Hid; [split; [naive_solver|]; intros (_ & _ & [= ? _]); done|].
  split.
  - intros (_ & Hvs & Hns & Hids). split_and!; [done|done|by rewrite Hns|by rewrite Hids, Hid].
  - intros ([_ Hvs] & [= Hns] & [= _ Hids]). done.
Qed.

Lemma memberships_current_Ok r g :
  for_each (membership_current deletions authorization r g) (imap pair (rt_memberships r)) = Ok tt ↔
  Forall (visible_edge deletions authorization (rt_semantic_snapshot r) (rt_domain_time r) g) (rt_memberships r) ∧
  ∀ i m, rt_memberships r !! i = Some m → rt_items r !! i = Some (hm_parent m) ∧ rt_items r !! S i = Some (hm_child m).
Proof.
  rewrite for_each_Ok, !Forall_forall. assert (∀ i m, membership_current deletions authorization r g (i, m) = Ok tt ↔
    (rt_items r !! i = Some (hm_parent m) ∧ rt_items r !! S i = Some (hm_child m)) ∧
    visible_edge deletions authorization (rt_semantic_snapshot r) (rt_domain_time r) g m) as Hone.
  { intros i m. unfold membership_current, visible_edge. repeat case_bool_decide; cbn [orb negb]; try (split; [done|naive_solver]).
    destruct (membership_visible _ _ _ _ g m); cbn [negb]; naive_solver. }
  split.
  - intros Hall. assert (∀ i m, rt_memberships r !! i = Some m → membership_current deletions authorization r g (i, m) = Ok tt) as Hi.
    { intros i m Hm. apply Hall. apply list_elem_of_lookup. exists i. by rewrite list_lookup_imap, Hm. }
    split; [|intros i m Hm; by apply Hone, Hi]. intros m [i Hm]%list_elem_of_lookup. by apply (Hone i m), Hi.
  - intros [He Hj] [i m] Hin. apply elem_of_lookup_imap in Hin as (i' & m' & [= <- <-] & Hm). apply Hone. split; [by apply Hj|].
    apply He. by apply list_elem_of_lookup_2 in Hm.
Qed.

Lemma route_in_shape r view g :
  route_in r view g →
  rt_items r ≠ [] ∧ length (rt_nodes r) = length (rt_items r) ∧ length (rt_items r) = S (length (rt_memberships r)).
Proof.
  intros (_ & _ & _ & _ & (root & Hhead & _) & ((Hlen & _) & _) & _ & Hids). split_and!; [by destruct (rt_items r)| |done].
  by rewrite <- Hids, length_fmap.
Qed.

(** The checks against the generation, once the lengths are known to fit. *)
Lemma generation_checks r :
  length (rt_nodes r) = length (rt_items r) → length (rt_items r) = S (length (rt_memberships r)) →
  (let? view := ok_or (cat_views catalog !! gr_view_id (rt_generation r)) StaleRoute in
   let? generation := ok_or (vs_generations view !! gr_generation (rt_generation r)) StaleRoute in
   if bool_decide (generation_reference generation ≠ rt_generation r)
      || bool_decide (generation_freshness view generation (rt_semantic_snapshot r) ≠ rt_freshness r)
      || match head (rt_items r) with Some root => negb (bool_decide (root ∈ g_roots generation)) | None => true end
   then Err StaleRoute
   else
   try? for_each (node_current deletions authorization r generation) (zip (rt_items r) (rt_nodes r)) in
   for_each (membership_current deletions authorization r generation) (imap pair (rt_memberships r))) = Ok tt
  ↔ ∃ view g, route_in r view g.
Proof.
  intros Hn Hm. unfold route_in. split.
  - intros (view & Hview%ok_or_Ok & Hrest)%result_bind_Ok. apply result_bind_Ok in Hrest as (g & Hg%ok_or_Ok & Hrest).
    case_bool_decide as Href; [done|]. case_bool_decide as Hfresh; [done|]. cbn [orb] in Hrest.
    destruct (head (rt_items r)) as [root|] eqn:Hhead; [|done]. case_bool_decide as Hroot; cbn [negb] in Hrest; [|done].
    apply try_Ok in Hrest as [(Hv & Hns & Hids)%nodes_current_Ok [He Hj]%memberships_current_Ok]; [|done].
    exists view, g. split_and!; try done. by exists root.
  - intros (view & g & Hview & Hg & Href & Hfresh & (root & Hhead & Hroot) & ((_ & Hj) & Hv & He) & Hns & Hids).
    rewrite Hview. cbn [ok_or result_bind]. rewrite Hg. cbn [ok_or result_bind]. rewrite Hhead.
    rewrite !bool_decide_eq_false_2 by (by intros []). rewrite bool_decide_eq_true_2 by done. cbn [orb negb].
    apply try_Ok. split; [by apply nodes_current_Ok|by apply memberships_current_Ok].
Qed.

Lemma validate_route_Ok r :
  (len (rt_memberships r) < USIZE_MAX)%N → validate_route catalog deletions r authorization = Ok tt ↔ current_route r.
Proof.
  intros Hbound. unfold validate_route, current_route.
  destruct (N.eqb_spec (rt_hierarchy_epoch r) (cat_epoch catalog)) as [He|]; cbn [negb orb]; [|naive_solver].
  assert (saturating_add USIZE_MAX (len (rt_memberships r)) 1 = len (rt_memberships r) + 1)%N as ->
    by (unfold saturating_add; lia).
  destruct (is_empty (rt_items r)) eqn:Hnil; cbn [orb].
  { split; [done|]. intros (_ & _ & _ & view & g & (Hne & _)%route_in_shape). by destruct (rt_items r). }
  destruct (Nat.eqb_spec (length (rt_nodes r)) (length (rt_items r))) as [Hn|Hn]; cbn [negb orb].
  2:{ split; [done|]. by intros (_ & _ & _ & view & g & (_ & ? & _)%route_in_shape). }
  destruct (N.eqb_spec (len (rt_memberships r) + 1) (len (rt_items r))) as [Hm|Hm]; cbn [negb orb]; unfold len in Hm.
  2:{ split; [done|]. intros (_ & _ & _ & view & g & (_ & _ & ?)%route_in_shape). lia. }
  rewrite <- generation_checks by lia. destruct (route_digest r) as [digest|error]; cbn [result_bind]; [|naive_solver].
  case_bool_decide as Hd; [naive_solver|]. rewrite Hd.
  destruct (N.eqb_spec (rt_deletion_epoch r) (reg_epoch deletions)); cbn [negb]; naive_solver.
Qed.
End cached.

Section acceptance.
Context `{Blake3} `{!RouteJson} `{!PartitionJson} `{!Serialize CanonicalProposal}.

Lemma reported_current catalog deletions request authorization view g f r :
  opened catalog (rr_view_id request) (rr_semantic_snapshot request) authorization view g f →
  reported_route catalog deletions request authorization g f r → current_route catalog deletions authorization r.
Proof.
  intros [Hview Hid Hgen _ _ _ Hfresh Hok] [Hpath Hroot _ _ Hnodes _ (Href & He & Hd & Hsnap & Htime & Hf) Hdigest].
  split_and!; [done|done|done|]. exists view, g. unfold route_in. rewrite Href, Hsnap, Htime, Hf. cbn [generation_reference gr_view_id gr_generation].
  rewrite Hid. split_and!; try done.
  apply list_eq. intros i. pose proof (f_equal (.!! i) Hnodes) as Hi. cbn beta in Hi. rewrite !list_lookup_fmap in Hi. rewrite list_lookup_fmap.
  destruct (rt_items r !! i) as [x|], (rt_nodes r !! i) as [n|]; try done. injection Hi as Hi. cbn. by rewrite (go_keys g Hok x n).
Qed.

(** The catalog of an epoch stays what it was, and so do the deletions of an epoch. *)
Lemma snapshot_retained e selector catalog :
  engine_ok e → snapshot e selector = Ok catalog → rs_history (en_state e) !! cat_epoch catalog = Some catalog.
Proof.
  intros [_ Hcur _ Hcat _] Hs. destruct selector as [|n]; cbn in Hs; [by injection Hs as <-|].
  apply ok_or_Ok in Hs. by destruct (Hcat _ _ Hs) as [-> _].
Qed.

Lemma same_epochs e e' selector selector' catalog catalog' :
  engine_ok e → rtc hierarchy_step e e' → snapshot e selector = Ok catalog → snapshot e' selector' = Ok catalog' →
  cat_epoch catalog' = cat_epoch catalog → reg_epoch (en_deletions e') = reg_epoch (en_deletions e) →
  catalog' = catalog ∧ en_deletions e' = en_deletions e.
Proof.
  intros He Hsteps Hs Hs' Hepoch Hreg. destruct (steps_ok _ _ Hsteps He) as [He' Hkeep]. split; [|by apply steps_registry].
  apply snapshot_retained in Hs; [|done]. apply snapshot_retained in Hs'; [|done]. apply Hkeep in Hs. congruence.
Qed.

(** The generations of a view belong to one workspace. *)
Lemma generations_workspace epoch view_id view k k' g g' :
  view_ok epoch view_id view → vs_generations view !! k = Some g → vs_generations view !! k' = Some g' →
  pr_workspace_id (g_profile g) = pr_workspace_id (g_profile g').
Proof.
  intros Hok Hg Hg'. destruct (N.lt_trichotomy (generation_value k) (generation_value k')) as [Hlt|[Heq|Hlt]].
  - by apply (vo_order _ _ _ Hok k k' g g').
  - assert (k = k') as <- by (destruct k, k'; cbn in Heq; subst; f_equal; apply proof_irrel). congruence.
  - symmetry. by apply (vo_order _ _ _ Hok k' k g' g).
Qed.

(** What a node needs to be seen under another authorization. *)
Lemma visible_under deletions a a' at_ time g x n :
  g_nodes g !! x = Some n → node_visible deletions a at_ time g x = true →
  node_visible deletions a' at_ time g x = true ↔ auth_workspace_id a' = auth_workspace_id a ∧ allows a' (hn_partition n) = true.
Proof.
  intros Hn. unfold node_visible. rewrite Hn, !andb_true_iff, !bool_decide_eq_true. intros ((((Hws & _) & ?) & ?) & ?).
  rewrite Hws in *. split; [by intros ((((-> & ?) & _) & _) & _)|]. by intros [-> ?].
Qed.

Lemma path_under deletions a a' at_ time g items ms nodes :
  visible_path deletions a at_ time g items ms → (λ x, g_nodes g !! x) <$> items = Some <$> nodes →
  auth_workspace_id a' = auth_workspace_id a → Forall (λ n, allows a' (hn_partition n) = true) nodes →
  visible_path deletions a' at_ time g items ms.
Proof.
  intros ((Hlen & Hjoin) & Hv & He) Hnodes Hws Hall. rewrite Forall_forall in Hv.
  assert (∀ x, x ∈ items → node_visible deletions a' at_ time g x = true) as Hv'.
  { intros x Hx. pose proof Hx as [i Hi]%list_elem_of_lookup. pose proof (f_equal (.!! i) Hnodes) as Hl. cbn beta in Hl.
    rewrite !list_lookup_fmap, Hi in Hl. destruct (nodes !! i) as [n|] eqn:Hn; [|done]. injection Hl as Hl.
    apply (visible_under deletions a a' at_ time g x n Hl (Hv x Hx)). split; [done|].
    rewrite Forall_forall in Hall. apply (Hall n). by apply list_elem_of_lookup_2 in Hn. }
  split; [done|]. split; [by apply Forall_forall|]. rewrite Forall_forall in He. apply Forall_forall. intros m Hm.
  destruct (He m Hm) as [Hin Hvis]. split; [done|]. unfold membership_visible in Hvis |- *. rewrite !andb_true_iff in Hvis |- *.
  destruct Hvis as (((? & _) & _) & ?). apply list_elem_of_lookup in Hm as [i Hm]. destruct (Hjoin i m Hm) as [Hp Hc].
  apply list_elem_of_lookup_2 in Hp, Hc. split_and!; [done|by apply Hv'|by apply Hv'|done].
Qed.

Lemma path_allows deletions a at_ time g items ms nodes :
  visible_path deletions a at_ time g items ms → (λ x, g_nodes g !! x) <$> items = Some <$> nodes →
  Forall (λ n, allows a (hn_partition n) = true) nodes.
Proof.
  intros (_ & Hv & _) Hnodes. rewrite Forall_forall in Hv. apply Forall_forall. intros n [i Hi]%list_elem_of_lookup.
  pose proof (f_equal (.!! i) Hnodes) as Hl. cbn beta in Hl. rewrite !list_lookup_fmap, Hi in Hl.
  destruct (items !! i) as [x|] eqn:Hx; [|done]. injection Hl as Hl. apply list_elem_of_lookup_2 in Hx.
  by apply (visible_under deletions a a at_ time g x n Hl (Hv x Hx)), Hv.
Qed.

(** Two authorizations under which a route is current in the same catalog. *)
Lemma current_twice catalog deletions a a' r :
  current_route catalog deletions a r → current_route catalog deletions a' r →
  auth_workspace_id a' = auth_workspace_id a ∧ Forall (λ n, allows a' (hn_partition n) = true) (rt_nodes r).
Proof.
  intros (_ & _ & _ & view & g & Hin) (_ & _ & _ & view' & g' & Hin').
  destruct (route_in_shape _ _ _ _ _ _ Hin) as [Hne _].
  destruct Hin as (Hview & Hg & _ & _ & _ & (_ & Hv & _) & Hnodes & _), Hin' as (Hview' & Hg' & _ & _ & _ & Hp' & Hnodes' & _).
  assert (view' = view) as -> by congruence. assert (g' = g) as -> by congruence.
  split; [|by eapply path_allows]. destruct Hp' as (_ & Hv' & _).
  destruct (rt_items r) as [|x items]; [done|]. apply Forall_cons in Hv as [Hv _]. apply Forall_cons in Hv' as [Hv' _].
  destruct (visible_Some _ _ _ _ _ _ Hv) as [n Hn]. by destruct (proj1 (visible_under deletions a a' _ _ g x n Hn Hv) Hv').
Qed.

Lemma current_under catalog deletions a a' r view' g' f' :
  catalog_ok catalog → current_route catalog deletions a r →
  opened catalog (gr_view_id (rt_generation r)) (rt_semantic_snapshot r) a' view' g' f' →
  Forall (λ n, allows a' (hn_partition n) = true) (rt_nodes r) → current_route catalog deletions a' r.
Proof.
  intros Hcat (He & Hd & Hdigest & view & g & Hin) [Hview' _ Hg' _ _ Hws' _ _] Hall. split_and!; [done..|]. exists view, g.
  destruct (route_in_shape _ _ _ _ _ _ Hin) as [Hne _].
  destruct Hin as (Hview & Hg & Href & Hfresh & Hroot & Hp & Hnodes & Hids). assert (view' = view) as -> by congruence.
  split_and!; try done. apply (path_under deletions a a' _ _ g _ _ _ Hp Hnodes); [|done].
  rewrite <- Hws', <- (generations_workspace _ _ _ _ _ _ _ (Hcat _ _ Hview) Hg Hg'). destruct Hp as (_ & Hv & _).
  destruct (rt_items r) as [|x items]; [done|]. apply Forall_cons in Hv as [Hv _]. unfold node_visible in Hv.
  destruct (g_nodes g !! x); [|done]. rewrite !andb_true_iff, bool_decide_eq_true in Hv. tauto.
Qed.

(** [validate_route] does not look at when the authorization was evaluated. *)
Theorem validation_ignores_evaluation catalog deletions r a evaluated_at :
  validate_route catalog deletions r (MkAuthorizationSnapshot (auth_workspace_id a) (auth_partitions a) evaluated_at)
  = validate_route catalog deletions r a.
Proof. reflexivity. Qed.

(** C19: a cached route that is accepted, whoever made it, names this catalog and the
    present deletions, carries its own digest and is a path from a root of its
    generation with unchanged metadata that the authorization sees.  A route that was
    materialized is accepted later only while neither the catalog nor the deletions
    moved on, in its workspace and with every partition of its nodes allowed; and it
    is accepted then under every authorization that can still open the view at the
    snapshot of the route. *)
Theorem cached_routes_exact e selector catalog request authorization rm r e' selector' catalog' :
  reachable e → snapshot e selector = Ok catalog → (rr_max_depth request < USIZE_MAX)%N →
  materialize_routes catalog (en_deletions e) request authorization = Some (Ok rm) → r ∈ rm_routes rm →
  rtc hierarchy_step e e' → snapshot e' selector' = Ok catalog' →
  let unchanged := cat_epoch catalog' = cat_epoch catalog ∧ reg_epoch (en_deletions e') = reg_epoch (en_deletions e) in
  let allowed a := Forall (λ n, allows a (hn_partition n) = true) (rt_nodes r) in
  (∀ c a, (len (rt_memberships c) < USIZE_MAX)%N → validate_route catalog' (en_deletions e') c a = Ok tt →
    current_route catalog' (en_deletions e') a c) ∧
  (∀ a, validate_route catalog' (en_deletions e') r a = Ok tt →
    unchanged ∧ auth_workspace_id a = auth_workspace_id authorization ∧ allowed a) ∧
  (∀ a, is_ok (open_view catalog' (gr_view_id (rt_generation r)) (rt_semantic_snapshot r) AllowStale a) = true →
    unchanged → allowed a → validate_route catalog' (en_deletions e') r a = Ok tt).
Proof.
  intros He%reachable_ok Hs Hmax Hm Hr Hsteps Hs' unchanged allowed. pose proof (snapshot_ok _ _ _ He Hs) as Hcat.
  apply materialized_routes in Hm as (view & g & Hopen & Hall); [|done]. rewrite Forall_forall in Hall. specialize (Hall r Hr).
  pose proof (rp_depth _ _ _ _ _ _ _ Hall) as Hdepth. assert (len (rt_memberships r) < USIZE_MAX)%N as Hlen by lia.
  pose proof (reported_current _ _ _ _ _ _ _ _ Hopen Hall) as Hcur. split_and!.
  - intros c a Hc. by apply validate_route_Ok.
  - intros a Hok%validate_route_Ok; [|done]. assert unchanged as Hsame.
    { unfold unchanged. destruct Hcur as (<- & <- & _), Hok as (-> & -> & _). done. }
    split; [done|]. destruct Hsame as [Hepoch Hreg].
    destruct (same_epochs _ _ _ _ _ _ He Hsteps Hs Hs' Hepoch Hreg) as [-> Hdel]. rewrite Hdel in Hok. by apply (current_twice _ _ _ _ _ Hcur).
  - intros a Ha [Hepoch Hreg] Hallowed.
    destruct (same_epochs _ _ _ _ _ _ He Hsteps Hs Hs' Hepoch Hreg) as [-> ->].
    destruct (open_view catalog _ _ AllowStale a) as [[[view' g'] f']|] eqn:Hopen'; [|done]. apply open_view_Ok in Hopen'; [|done].
    apply validate_route_Ok; [done|]. by eapply current_under.
Qed.
End acceptance.
