(* ===== verification/HierBeam.v ===== *)
(** * Hierarchy views: beam traversal

    [beam_traverse] against the visible paths from the requested roots: every hit is
    one, the budgets hold, and a traversal that no budget stopped reports them all. *)

From S2P Require Import Prelude.
From S2P Require Import Ordering.
From S2P Require Import Bytes.
From S2P Require Import Format.
From S2P Require Import CoreBase.
From S2P Require Import Provenance.
From S2P Require Import Evidence.
From S2P Require Import Hierarchy.
From S2P Require Import HierValidate.
From S2P Require Import HierDag.
From S2P Require Import HierStats.
From S2P Require Import HierProposal.
From S2P Require Import HierEngine.
From S2P Require Import HierReads.
From S2P Require Import HierRuns.
From S2P Require Import HierPaths.

(** ** The navigation index *)

Lemma add_indexes ms x :
  let indexes := default [] (foldl add_index ∅ (imap pair ms) !! x) in
  (∀ i, i ∈ indexes ↔ ∃ m, ms !! i = Some m ∧ hm_parent m = x) ∧ NoDup indexes.
Proof.
  induction ms as [|m ms [IH1 IH2]] using rev_ind; cbn zeta in *.
  { cbn. split; [|constructor]. intros i. rewrite elem_of_nil, lookup_nil. naive_solver. }
  rewrite imap_app, foldl_app. cbn [imap foldl]. unfold add_index at 1 3. cbn [fst snd]. rewrite Nat.add_0_r.
  destruct (decide (hm_parent m = x)) as [<-|Hne].
  - rewrite lookup_insert_eq. cbn [default from_option id]. split.
    + intros i. rewrite elem_of_app, IH1, list_elem_of_singleton. split.
      * intros [(m' & Hm' & Hp)| ->]; [exists m'; split; [by apply lookup_app_l_Some|done]|].
        exists m. by rewrite lookup_app_r, Nat.sub_diag by lia.
      * intros (m' & [Hm'|[Hi Hm']]%lookup_app_Some & Hp); [left; eauto|]. apply list_lookup_singleton_Some in Hm' as [? _]. right. lia.
    + apply NoDup_app. split_and!; [done| |apply NoDup_singleton]. intros i (m' & Hm'%lookup_lt_Some & _)%IH1 ->%list_elem_of_singleton. lia.
  - rewrite lookup_insert_ne by done. split; [|done]. intros i. rewrite IH1. split.
    + intros (m' & Hm' & Hp). exists m'. split; [by apply lookup_app_l_Some|done].
    + intros (m' & [Hm'|[_ Hm']]%lookup_app_Some & Hp); [eauto|]. apply list_lookup_singleton_Some in Hm' as [_ <-]. done.
Qed.

Lemma navigation_indexes g x :
  let indexes := default [] (nav_children (NavigationIndex_build g) !! x) in
  (∀ i, i ∈ indexes ↔ ∃ m, g_memberships g !! i = Some m ∧ hm_parent m = x) ∧ NoDup indexes.
Proof.
  cbn zeta. unfold NavigationIndex_build. cbn [nav_children]. rewrite lookup_fmap. destruct (add_indexes (g_memberships g) x) as [Hin Hnd].
  destruct (foldl add_index ∅ _ !! x) as [l|]; cbn [fmap option_fmap option_map default from_option id] in *; [|done].
  split; [intros i; by rewrite sort_by_Permutation|by rewrite sort_by_Permutation].
Qed.

(** Paths that differ are not merged. *)
Lemma dedup_paths_id hits : NoDup (th_path <$> hits) → dedup_paths hits = hits.
Proof.
  induction hits as [|h hits IH]; [done|]. rewrite fmap_cons. intros [Hh Hnd]%NoDup_cons. cbn. rewrite IH by done.
  destruct hits as [|h' hits]; [done|]. rewrite bool_decide_eq_false_2; [done|]. intros Heq. apply Hh. rewrite Heq. by left.
Qed.

Section beam.
Context (deletions : DeletionRegistry) (authorization : AuthorizationSnapshot) (request : BeamTraversalRequest).
Context (g : HierarchyGeneration) (requested : gset HierarchyItemId).
Hypothesis Hok : generation_ok g.

Let path := visible_path deletions authorization (br_semantic_snapshot request) (br_domain_time request) g.
Let nav := NavigationIndex_build g.
Let edge_visible := membership_visible deletions authorization (br_semantic_snapshot request) (br_domain_time request) g.

(** A visible path from a requested root. *)
Definition root_path (items : list HierarchyItemId) (ms : list HierarchyMembership) : Prop :=
  path items ms ∧ ∃ root, head items = Some root ∧ root ∈ requested ∧ root ∈ g_roots g.

(** A hit: such a path with its end, its length and a confidence that no part of the
    path undercuts. *)
Definition hit_ok (h : TraversalHit) : Prop :=
  ∃ ms, root_path (th_path h) ms ∧ last (th_path h) = Some (th_item h) ∧ th_depth h = len ms ∧
    (∀ x n, x ∈ th_path h → g_nodes g !! x = Some n → kle (th_confidence h) (hn_confidence n)) ∧
    (∀ m, m ∈ ms → kle (th_confidence h) (hm_confidence m)).

(** *** Expansion of one hit *)

Definition next_hit (depth : N) (h : TraversalHit) (index : nat) : option TraversalHit :=
  m ← g_memberships g !! index;
  child ← g_nodes g !! hm_child m;
  if edge_visible m
  then Some (MkTraversalHit (hm_child m) (th_path h ++ [hm_child m])
    (combine (combine (th_confidence h) (hm_confidence m)) (hn_confidence child)) depth)
  else None.
Definition next_hits (depth : N) (h : TraversalHit) : list TraversalHit :=
  omap (next_hit depth h) (default [] (nav_children nav !! th_item h)).

Lemma next_hits_elem depth h c :
  c ∈ next_hits depth h ↔ ∃ m child,
    visible_edge deletions authorization (br_semantic_snapshot request) (br_domain_time request) g m ∧ hm_parent m = th_item h ∧
    g_nodes g !! hm_child m = Some child ∧ c = MkTraversalHit (hm_child m) (th_path h ++ [hm_child m])
      (combine (combine (th_confidence h) (hm_confidence m)) (hn_confidence child)) depth.
Proof.
  unfold next_hits. rewrite list_elem_of_omap. destruct (navigation_indexes g (th_item h)) as [Hin _]. unfold next_hit, visible_edge. split.
  - intros (i & (m & Hm & Hp)%Hin & Hc). rewrite Hm in Hc. cbn in Hc. destruct (g_nodes g !! hm_child m) as [child|] eqn:Hchild; [|done].
    cbn in Hc. destruct (edge_visible m) eqn:Hv; [|done]. injection Hc as <-. exists m, child.
    split_and!; try done. by apply list_elem_of_lookup_2 in Hm.
  - intros (m & child & [[i Hm]%list_elem_of_lookup Hv] & Hp & Hchild & ->). exists i. split; [by apply Hin; eauto|].
    rewrite Hm. cbn. rewrite Hchild. cbn. unfold edge_visible. by rewrite Hv.
Qed.

Lemma next_hits_paths depth h : NoDup (th_path <$> next_hits depth h).
Proof.
  unfold next_hits. destruct (navigation_indexes g (th_item h)) as [Hin Hnd]. fold nav in Hin, Hnd.
  set (indexes := default [] (nav_children nav !! th_item h)) in *.
  assert (∀ i, i ∈ indexes → ∃ m, g_memberships g !! i = Some m ∧ hm_parent m = th_item h) as Hall by (intros i; apply Hin).
  clear Hin. induction Hnd as [|i indexes Hi Hnd IH]; [constructor|]. cbn.
  assert (NoDup (th_path <$> omap (next_hit depth h) indexes)) as Htail by (apply IH; intros j Hj; apply Hall; by right).
  destruct (next_hit depth h i) as [c|] eqn:Hc; [|done]. rewrite fmap_cons. apply NoDup_cons. split; [|done].
  intros (c' & Heq & (j & Hj & Hc')%list_elem_of_omap)%list_elem_of_fmap.
  destruct (Hall i) as (m & Hm & Hp); [by left|]. destruct (Hall j) as (m' & Hm' & Hp'); [by right|].
  unfold next_hit in Hc, Hc'. rewrite Hm in Hc. rewrite Hm' in Hc'. cbn in Hc, Hc'.
  destruct (g_nodes g !! hm_child m); [|done]. destruct (g_nodes g !! hm_child m'); [|done]. cbn in Hc, Hc'.
  destruct (edge_visible m); [|done]. destruct (edge_visible m'); [|done]. injection Hc as <-. injection Hc' as <-. cbn in Heq.
  apply app_inj_tail in Heq as [_ Hchild]. apply Hi. assert (i = j) as ->; [|done].
  apply (NoDup_lookup (edge_of <$> g_memberships g) i j (edge_of m)); [apply (go_edges g Hok)| |]; rewrite list_lookup_fmap; [by rewrite Hm|].
  rewrite Hm'. cbn. unfold edge_of. congruence.
Qed.

Lemma next_hit_ok depth h c : hit_ok h → depth = (th_depth h + 1)%N → c ∈ next_hits depth h → hit_ok c.
Proof.
  intros (ms & [Hp (root & Hhead & Hroot)] & Hlast & Hd & Hnodes & Hms) -> (m & child & Hm & Hparent & Hchild & ->)%next_hits_elem.
  exists (ms ++ [m]). cbn [th_path th_item th_depth th_confidence].
  destruct (combine_le (combine (th_confidence h) (hm_confidence m)) (hn_confidence child)) as [H1 H2].
  destruct (combine_le (th_confidence h) (hm_confidence m)) as [H3 H4].
  assert (∀ a b : Confidence, kle a b ↔ (basis_points a ≤ basis_points b)%N) as Hle by (intros a b; apply N.compare_le_iff).
  split_and!.
  - split; [by apply visible_path_snoc; [done|by rewrite Hparent|]|]. exists root. split; [|done]. by destruct (th_path h).
  - by rewrite last_snoc.
  - rewrite Hd. unfold len. rewrite length_app. cbn. lia.
  - intros x n [Hx| ->%list_elem_of_singleton]%elem_of_app Hn; rewrite Hle; [specialize (Hnodes x n Hx Hn); rewrite Hle in Hnodes; lia|].
    rewrite Hchild in Hn. by injection Hn as <-.
  - intros m' [Hx| ->%list_elem_of_singleton]%elem_of_app; rewrite Hle; [specialize (Hms m' Hx); rewrite Hle in Hms|]; lia.
Qed.

(** *** Expansion of a frontier *)

Abbreviation budget := (br_max_expansions request).

(** The candidates [all] are added one by one until the budget is used up. *)
Definition expanded (cs : list TraversalHit) (ex : N) (tr : bool) (all : list TraversalHit)
    : (list TraversalHit * N * bool) + (list TraversalHit * N * bool) :=
  if (ex + len all <=? budget)%N then inl (cs ++ all, (ex + len all)%N, tr)
  else inr (cs ++ take (N.to_nat (budget - ex)) all, budget, true).

Lemma expanded_nil cs ex tr : (ex ≤ budget)%N → expanded cs ex tr [] = inl (cs, ex, tr).
Proof. intros Hex. unfold expanded, len. cbn. rewrite N.add_0_r, app_nil_r. by rewrite (proj2 (N.leb_le _ _)). Qed.

Lemma fold_expanded {A} f (produce : A → list TraversalHit) xs cs ex tr :
  (∀ x cs ex tr, x ∈ xs → (ex ≤ budget)%N → f (cs, ex, tr) x = expanded cs ex tr (produce x)) → (ex ≤ budget)%N →
  fold_break f (cs, ex, tr) xs = expanded cs ex tr (xs ≫= produce).
Proof.
  intros Hf. revert cs ex tr; induction xs as [|x xs IH]; intros cs ex tr Hex; [by rewrite expanded_nil|].
  cbn [fold_break]. rewrite Hf by (by left || done). rewrite bind_cons. unfold expanded at 1 2.
  assert (len (produce x ++ (xs ≫= produce)) = len (produce x) + len (xs ≫= produce))%N as -> by (unfold len; rewrite length_app; lia).
  destruct (N.leb_spec (ex + len (produce x)) budget) as [Hle|Hgt].
  - rewrite IH; [|intros y ? ? ? Hy; apply Hf; by right|done]. unfold expanded. rewrite <- N.add_assoc.
    destruct (_ <=? _)%N eqn:Hc; [by rewrite <- app_assoc|]. rewrite take_app, <- app_assoc. do 4 f_equal; unfold len in *.
    rewrite (take_ge (produce x)) by lia. do 2 f_equal. lia.
  - rewrite (proj2 (N.leb_gt _ _)) by lia. rewrite take_app_le; [done|]. unfold len in *. lia.
Qed.

Lemma expand_edge_expanded depth h index cs ex tr :
  hit_ok h → (∃ m, g_memberships g !! index = Some m ∧ hm_parent m = th_item h) → (ex ≤ budget)%N →
  expand_edge deletions authorization request g depth h (cs, ex, tr) index = expanded cs ex tr (option_list (next_hit depth h index)).
Proof.
  intros (ms & [Hp _] & Hlast & _) (m & Hm & Hparent) Hex. unfold expand_edge, next_hit. rewrite Hm. cbn [mbind option_bind]. fold (edge_visible m).
  destruct (edge_visible m) eqn:Hv; cbn [negb]; [|by destruct (g_nodes g !! hm_child m); cbn [option_list]; rewrite expanded_nil].
  assert (visible_edge deletions authorization (br_semantic_snapshot request) (br_domain_time request) g m) as Hedge
    by (split; [by apply list_elem_of_lookup_2 in Hm|done]).
  assert (hm_child m ∉ th_path h) as Hnew.
  { rewrite <- Hparent in Hlast. pose proof (visible_path_snoc _ _ _ _ _ _ _ _ Hedge Hlast Hp) as Hp'.
    apply visible_path_NoDup in Hp'; [|done]. by apply NoDup_snoc in Hp' as [_ ?]. }
  destruct (visible_Some _ _ _ _ _ _ (proj2 (visible_edge_ends _ _ _ _ _ _ Hedge))) as [child Hchild]. rewrite Hchild. cbn [mbind option_bind]. unfold option_list, option_rect.
  assert (∀ c : TraversalHit, len [c] = 1%N) as Hone by done. unfold expanded. rewrite !Hone. destruct (N.eqb_spec ex budget) as [->|Hne].
  - rewrite (proj2 (N.leb_gt _ _)) by lia. by rewrite N.sub_diag, app_nil_r.
  - rewrite bool_decide_eq_false_2 by done. by rewrite (proj2 (N.leb_le _ _)) by lia.
Qed.

Lemma expand_frontier depth frontier ex tr :
  Forall hit_ok frontier → (ex ≤ budget)%N →
  fold_break (expand_hit deletions authorization request g nav depth) ([], ex, tr) frontier
  = expanded [] ex tr (frontier ≫= next_hits depth).
Proof.
  intros Hall Hex. rewrite Forall_forall in Hall. apply fold_expanded; [|done]. clear ex tr Hex. intros h cs ex tr Hh Hex.
  unfold expand_hit, next_hits. destruct (navigation_indexes g (th_item h)) as [Hin _]. fold nav in Hin.
  destruct (nav_children nav !! th_item h) as [indexes|]; cbn [default from_option id] in *; [|by rewrite expanded_nil].
  rewrite (fold_expanded _ (λ i, option_list (next_hit depth h i))); [|intros i ? ? ? Hi Hex'; apply expand_edge_expanded; [by apply Hall|by apply Hin|done]|done].
  f_equal. clear. induction indexes as [|i indexes IH]; [done|]. rewrite bind_cons, IH. cbn. by destruct (next_hit depth h i).
Qed.

Lemma frontier_paths depth frontier :
  NoDup (th_path <$> frontier) → NoDup (th_path <$> (frontier ≫= next_hits depth)).
Proof.
  induction frontier as [|h frontier IH]; intros Hnd; [constructor|]. rewrite fmap_cons in Hnd. apply NoDup_cons in Hnd as [Hh Hnd].
  rewrite bind_cons, fmap_app. apply NoDup_app. split_and!; [apply next_hits_paths| |by apply IH].
  intros p (c & -> & (m & child & _ & _ & _ & ->)%next_hits_elem)%list_elem_of_fmap. cbn [th_path].
  intros (c' & Heq & (h' & Hc' & Hh')%list_elem_of_bind)%list_elem_of_fmap.
  apply next_hits_elem in Hc' as (m' & child' & _ & _ & _ & ->). cbn in Heq. apply app_inj_tail in Heq as [Heq _].
  apply Hh. rewrite Heq. by apply list_elem_of_fmap_2.
Qed.

(** *** Levels *)

Lemma root_path_shorter items ms :
  root_path items ms → ms ≠ [] → ∃ p ms' m, items = p ++ [hm_child m] ∧ ms = ms' ++ [m] ∧ root_path p ms' ∧
    last p = Some (hm_parent m) ∧ visible_edge deletions authorization (br_semantic_snapshot request) (br_domain_time request) g m.
Proof.
  intros [(Hj & Hv & He) (root & Hhead & Hroot)] Hne. destruct items as [|x p _] using rev_ind; [done|].
  assert (p ≠ []) as Hp by (intros ->; apply joins_one in Hj; done).
  apply joins_snoc_inv in Hj as (ms' & m & -> & Hj & Hlast & <-); [|done].
  apply Forall_app in Hv as [Hv _]. apply Forall_app in He as [He [Hm _]%Forall_cons].
  exists p, ms', m. split_and!; try done. split; [done|]. exists root. split; [|done]. by destruct p.
Qed.

Lemma no_longer_path d items ms :
  (∀ items ms, root_path items ms → len ms ≠ d) → root_path items ms → (len ms < d)%N.
Proof.
  intros Hno. revert items. induction ms as [|m ms IH] using rev_ind; intros items Hp.
  - specialize (Hno _ _ Hp). unfold len in *. cbn in *. lia.
  - pose proof (Hno _ _ Hp) as Hlen. destruct (root_path_shorter _ _ Hp) as (p & ms' & m' & _ & [<- _]%app_inj_tail & Hp' & _); [by destruct ms|].
    specialize (IH _ Hp'). unfold len in *. rewrite length_app in *. cbn in *. lia.
Qed.

Lemma longer_path depth frontier items ms :
  Forall hit_ok frontier →
  (∀ items ms, root_path items ms → (len ms + 1 = depth)%N → items ∈ th_path <$> frontier) →
  root_path items ms → len ms = depth → depth ≠ 0%N → items ∈ th_path <$> (frontier ≫= next_hits depth).
Proof.
  intros Hf Hall Hp Hlen Hd. assert (ms ≠ []) as Hne by (intros ->; unfold len in Hlen; cbn in Hlen; lia).
  destruct (root_path_shorter _ _ Hp Hne) as (p & ms' & m & -> & -> & Hp' & Hlast & Hm).
  assert (p ∈ th_path <$> frontier) as (h & -> & Hh)%list_elem_of_fmap.
  { apply (Hall p ms'); [done|]. unfold len in *. rewrite length_app in Hlen. cbn in Hlen. lia. }
  rewrite Forall_forall in Hf. destruct (Hf h Hh) as (ms'' & _ & Hitem & _). rewrite Hitem in Hlast. injection Hlast as Hitem'.
  destruct (visible_Some _ _ _ _ _ _ (proj2 (visible_edge_ends _ _ _ _ _ _ Hm))) as [child Hchild].
  apply list_elem_of_fmap. eexists (MkTraversalHit (hm_child m) (th_path h ++ [hm_child m])
    (combine (combine (th_confidence h) (hm_confidence m)) (hn_confidence child)) depth). split; [done|].
  apply list_elem_of_bind. exists h. split; [|done]. apply next_hits_elem. eauto 10.
Qed.

Lemma expanded_either ex tr all :
  (ex ≤ budget)%N → ∃ cs ex' tr', either (expanded [] ex tr all) = (cs, ex', tr') ∧
    cs `prefix_of` all ∧ (ex' ≤ budget)%N ∧ (tr' = false → tr = false ∧ cs = all).
Proof.
  intros Hex. unfold expanded. destruct (N.leb_spec (ex + len all) budget); cbn [either]; do 3 eexists; split; [done| |done|].
  - by split_and!.
  - split_and!; [|done|done]. exists (drop (N.to_nat (budget - ex)) all). cbn [app]. by rewrite take_drop.
Qed.

(** The order of the hits: by level, then by confidence and path. *)
Definition hit_order (a b : TraversalHit) : Prop :=
  (th_depth a < th_depth b)%N ∨ (th_depth a = th_depth b ∧ traversal_order a b ≠ Gt).

Lemma candidates_sorted cs : StronglySorted (λ a b, traversal_order a b ≠ Gt) (sort_by traversal_order cs).
Proof.
  apply (sort_by_compare traversal_order (λ h, (MkReverse (th_confidence h), th_path h))).
  intros a b. unfold traversal_order. by rewrite cmp_pair.
Qed.

Lemma level_sorted depth cs :
  Forall (λ h, th_depth h = depth) cs → StronglySorted (λ a b, traversal_order a b ≠ Gt) cs → StronglySorted hit_order cs.
Proof.
  intros Hd. induction 1 as [|h cs Hs IH Hh]; [constructor|]. apply Forall_cons in Hd as [Hd1 Hd2]. constructor; [by apply IH|].
  rewrite Forall_forall in *. intros h' Hh'. right. split; [by rewrite Hd1, (Hd2 h')|by apply Hh].
Qed.

(** What the loop keeps: the hits of the levels above [bs_depth], the last of them as
    the frontier. *)
Record hits_ok (hits : list TraversalHit) (depth : N) : Prop := {
  hk_hits : Forall hit_ok hits;
  hk_order : StronglySorted hit_order hits;
  hk_paths : NoDup (th_path <$> hits);
  hk_width : ∀ k, (len (filter (λ h, th_depth h = k) hits) ≤ br_beam_width request)%N;
  hk_depth : Forall (λ h, (th_depth h < depth)%N) hits;
}.

Record beam_ok (st : BeamState) : Prop := {
  bk_hits : hits_ok (bs_hits st) (bs_depth st);
  bk_frontier : Forall hit_ok (bs_frontier st) ∧ Forall (λ h, (th_depth h + 1 = bs_depth st)%N) (bs_frontier st) ∧
    NoDup (th_path <$> bs_frontier st);
  bk_positive : bs_depth st ≠ 0%N;
  bk_budget : (bs_expansions st ≤ budget)%N;
  bk_level : bs_truncated st = false → ∀ items ms, root_path items ms → (len ms + 1 = bs_depth st)%N → items ∈ th_path <$> bs_frontier st;
  bk_complete : bs_truncated st = false → ∀ items ms, root_path items ms → (len ms < bs_depth st)%N → items ∈ th_path <$> bs_hits st;
  bk_last : bs_depth st = (br_max_depth request + 1)%N → bs_truncated st = false →
    Forall (λ h, has_children nav h = false) (bs_frontier st);
}.

Record beam_final (st : BeamState) : Prop := {
  bf_hits : hits_ok (bs_hits st) (br_max_depth request + 1);
  bf_budget : (bs_expansions st ≤ budget)%N;
  bf_complete : bs_truncated st = false → bs_expansions st ≠ budget → ∀ items ms, root_path items ms → items ∈ th_path <$> bs_hits st;
}.

Lemma hit_depth h : hit_ok h → (N.of_nat (length (th_path h)) = th_depth h + 1)%N.
Proof. intros (ms & [((Hlen & _) & _) _] & _ & -> & _). unfold len. lia. Qed.

(** A level as the loop adds it. *)
Record level_ok (depth : N) (taken : list TraversalHit) : Prop := {
  lk_hits : Forall hit_ok taken;
  lk_depth : Forall (λ h, th_depth h = depth) taken;
  lk_order : StronglySorted (λ a b, traversal_order a b ≠ Gt) taken;
  lk_paths : NoDup (th_path <$> taken);
  lk_width : (len taken ≤ br_beam_width request)%N;
}.

Lemma hits_extend hits depth taken : hits_ok hits depth → level_ok depth taken → hits_ok (hits ++ taken) (depth + 1).
Proof.
  intros [Hh Ho Hp Hw Hd] [Ht Htd Hto Htp Htw]. rewrite Forall_forall in Hd, Htd. split.
  - by apply Forall_app.
  - apply StronglySorted_app. split_and!; [|done|by apply (level_sorted depth); [apply Forall_forall|]].
    intros a b Ha Hb. left. rewrite (Htd b Hb). by apply Hd.
  - rewrite fmap_app. apply NoDup_app. split_and!; [done| |done].
    intros q (a & -> & Ha)%list_elem_of_fmap (b & Heq & Hb)%list_elem_of_fmap. rewrite Forall_forall in Hh, Ht.
    pose proof (hit_depth a (Hh a Ha)) as Hda. pose proof (hit_depth b (Ht b Hb)) as Hdb. rewrite Heq in Hda.
    specialize (Hd a Ha). specialize (Htd b Hb). cbn in Hd, Htd. lia.
  - intros k. rewrite filter_app. unfold len in *. rewrite length_app. specialize (Hw k). destruct (decide (k = depth)) as [->|Hne].
    + assert (filter (λ h, th_depth h = depth) hits = []) as ->.
      { apply filter_none, Forall_forall. intros h Hin Heq. specialize (Hd h Hin). cbn in Hd. lia. }
      pose proof (length_filter (λ h, th_depth h = depth) taken). cbn. lia.
    + assert (filter (λ h, th_depth h = k) taken = []) as ->.
      { apply filter_none, Forall_forall. intros h Hin Heq. specialize (Htd h Hin). cbn in Htd. congruence. }
      cbn. lia.
  - apply Forall_forall. intros h [Hin|Hin]%elem_of_app; [specialize (Hd h Hin); cbn in Hd; lia|]. specialize (Htd h Hin). cbn in Htd. lia.
Qed.

Lemma take_level depth cs frontier :
  Forall hit_ok frontier → Forall (λ h, (th_depth h + 1 = depth)%N) frontier → NoDup (th_path <$> frontier) →
  cs `prefix_of` (frontier ≫= next_hits depth) →
  let sorted := sort_by traversal_order cs in
  dedup_paths sorted = sorted ∧ level_ok depth (take (N.to_nat (br_beam_width request)) sorted).
Proof.
  intros Hf Hd Hp Hcs sorted. pose proof (sort_by_Permutation traversal_order cs : sorted ≡ₚ cs) as Hperm.
  assert (NoDup (th_path <$> sorted)) as Hnd.
  { rewrite Hperm. destruct Hcs as [rest Hcs]. pose proof (frontier_paths depth frontier Hp) as Hall. rewrite Hcs, fmap_app in Hall.
    by apply NoDup_app in Hall as [? _]. }
  assert (∀ c, c ∈ take (N.to_nat (br_beam_width request)) sorted → hit_ok c ∧ th_depth c = depth) as Hone.
  { intros c (i & Hc%list_elem_of_lookup_2 & _)%elem_of_take. rewrite Hperm in Hc. destruct Hcs as [rest Hcs].
    assert (c ∈ frontier ≫= next_hits depth) as (h & Hn & Hh)%list_elem_of_bind by (rewrite Hcs; apply elem_of_app; by left).
    rewrite Forall_forall in Hf, Hd. split; [apply (next_hit_ok depth h); [by apply Hf| |done]; by rewrite <- (Hd h Hh)|].
    by apply next_hits_elem in Hn as (? & ? & _ & _ & _ & ->). }
  split; [by apply dedup_paths_id|]. split.
  - apply Forall_forall. intros c Hc. by apply Hone.
  - apply Forall_forall. intros c Hc. by apply Hone.
  - pose proof (candidates_sorted cs) as Hs. fold sorted in Hs. rewrite <- (take_drop (N.to_nat (br_beam_width request)) sorted) in Hs.
    by apply StronglySorted_app_1_l in Hs.
  - rewrite <- (take_drop (N.to_nat (br_beam_width request)) sorted), fmap_app in Hnd. by apply NoDup_app in Hnd as [? _].
  - unfold len. rewrite length_take. lia.
Qed.

Abbreviation step := (beam_step deletions authorization request g nav).

(** One round in terms of the level it adds. *)
Lemma beam_step_level st :
  beam_ok st → ∃ taken ex tr, level_ok (bs_depth st) taken ∧ (ex ≤ budget)%N ∧
    (tr = false → bs_truncated st = false ∧ taken ≡ₚ bs_frontier st ≫= next_hits (bs_depth st)) ∧
    step st =
      if is_empty taken then inr (MkBeamState (bs_depth st) (bs_frontier st) (bs_hits st) ex tr)
      else if (ex =? budget)%N then inr (MkBeamState (bs_depth st) taken (bs_hits st ++ taken) ex tr)
      else inl (MkBeamState (bs_depth st + 1) taken (bs_hits st ++ taken) ex
        (tr || ((bs_depth st =? br_max_depth request)%N && existsb (has_children nav) taken))).
Proof.
  intros [_ (Hf & Hfd & Hfp) _ Hex _ _ _]. unfold beam_step. rewrite expand_frontier by done.
  destruct (expanded_either (bs_expansions st) (bs_truncated st) (bs_frontier st ≫= next_hits (bs_depth st)) Hex)
    as (cs & ex & tr & -> & Hcs & Hex' & Htr).
  destruct (take_level _ cs _ Hf Hfd Hfp Hcs) as [-> Hlevel].
  set (sorted := sort_by traversal_order cs) in *. set (w := N.to_nat (br_beam_width request)) in *.
  assert (∃ tr', (if (br_beam_width request <? len sorted)%N then (take w sorted, true) else (sorted, tr)) = (take w sorted, tr') ∧
    (tr' = false → tr = false ∧ take w sorted = sorted)) as (tr' & -> & Htr').
  { destruct (N.ltb_spec (br_beam_width request) (len sorted)) as [Hlt|Hge]; [by exists true|].
    assert (take w sorted = sorted) as Htake by (apply take_ge; unfold w, len in *; lia). exists tr. by rewrite Htake. }
  exists (take w sorted), ex, tr'. split_and!; [done|done| |done].
  intros Hfalse. destruct (Htr' Hfalse) as [Htr1 Htake]. destruct (Htr Htr1) as [Htr2 Hall]. split; [done|].
  rewrite Htake. unfold sorted. by rewrite sort_by_Permutation, Hall.
Qed.

Lemma level_exhausted st taken :
  beam_ok st → bs_truncated st = false → taken ≡ₚ bs_frontier st ≫= next_hits (bs_depth st) →
  ∀ items ms, root_path items ms → len ms = bs_depth st → items ∈ th_path <$> taken.
Proof.
  intros [_ (Hf & _) Hpos _ Hlevel _ _] Htr Hperm items ms Hp Hlen. rewrite Hperm.
  apply (longer_path _ _ items ms); try done. by apply Hlevel.
Qed.

Lemma beam_step_ok st :
  beam_ok st → (bs_depth st ≤ br_max_depth request)%N →
  match step st with inl st' => beam_ok st' ∧ bs_depth st' = (bs_depth st + 1)%N | inr st' => beam_final st' end.
Proof.
  intros Hst Hd. destruct (beam_step_level st Hst) as (taken & ex & tr & Hlevel & Hex & Htr & ->).
  assert (tr = false → ∀ items ms, root_path items ms → len ms = bs_depth st → items ∈ th_path <$> taken) as Hnext.
  { intros Hfalse. destruct (Htr Hfalse) as [Htr1 Hperm]. by apply (level_exhausted st). }
  assert (∀ depth, (depth ≤ br_max_depth request + 1)%N → ∀ hits, hits_ok hits depth → hits_ok hits (br_max_depth request + 1)) as Hlater.
  { intros depth Hle hits [? ? ? ? Hdepth]. split; try done. eapply Forall_impl; [exact Hdepth|]. cbn. lia. }
  destruct taken as [|c taken]; cbn [is_empty].
  { split; cbn [bs_hits bs_expansions bs_truncated]; [by apply (Hlater (bs_depth st)); [lia|apply Hst]|done|].
    intros Hfalse _ items ms Hp. destruct (Htr Hfalse) as [Htr1 _]. apply (bk_complete st Hst Htr1 items ms Hp).
    apply (no_longer_path _ items ms); [|done]. intros i m Hi Hm. by apply (Hnext Hfalse i m Hi), elem_of_nil in Hm. }
  set (all := c :: taken) in *. pose proof (hits_extend _ _ _ (bk_hits st Hst) Hlevel) as Hhits.
  destruct (N.eqb_spec ex budget) as [->|Hne]; [split; cbn; [by apply (Hlater (bs_depth st + 1)%N); [lia|]|done|done]|].
  split; [|done]. destruct Hlevel as [Hl1 Hl2 _ Hl4 _].
  split; cbn [bs_hits bs_depth bs_frontier bs_expansions bs_truncated]; [done| |lia|done| | |].
  - split_and!; [done| |done]. eapply Forall_impl; [exact Hl2|]. cbn. lia.
  - intros [Hfalse _]%orb_false_iff items ms Hp Hm. apply (Hnext Hfalse items ms Hp). lia.
  - intros [Hfalse _]%orb_false_iff items ms Hp Hm. rewrite fmap_app. apply elem_of_app.
    destruct (decide (len ms = bs_depth st)); [right; by apply (Hnext Hfalse items ms)|left].
    destruct (Htr Hfalse) as [Htr1 _]. apply (bk_complete st Hst Htr1 items ms Hp). lia.
  - intros Hmax [_ Hno]%orb_false_iff. rewrite (proj2 (N.eqb_eq _ _)) in Hno by lia. cbn [andb] in Hno.
    apply Forall_forall. intros h Hh. destruct (has_children nav h) eqn:Hc; [|done].
    assert (existsb (has_children nav) all = true) as Hyes; [|congruence]. apply existsb_exists. exists h. split; [by apply list_elem_of_In|done].
Qed.

Lemma beam_rounds n st :
  beam_ok st → (bs_depth st + N.of_nat n = br_max_depth request + 1)%N → beam_final (either (loop_nat n step st)).
Proof.
  revert st; induction n as [|n IH]; intros st Hst Hn; cbn [loop_nat either].
  - assert (bs_depth st = br_max_depth request + 1)%N as Hd by lia. split; [rewrite <- Hd; apply Hst|apply Hst|].
    intros Htr _ items ms Hp. apply (bk_complete st Hst Htr items ms Hp), (no_longer_path _ items ms); [|done].
    intros i m Hi Hm. assert (m ≠ []) as Hne by (intros ->; unfold len in Hm; cbn in Hm; pose proof (bk_positive st Hst); lia).
    destruct (root_path_shorter _ _ Hi Hne) as (p & ms' & e & -> & -> & Hp' & Hlast & He).
    pose proof (bk_level st Hst Htr p ms' Hp') as Hin. unfold len in Hin, Hm. rewrite length_app in Hm. cbn in Hm.
    assert (p ∈ th_path <$> bs_frontier st) as (h & -> & Hh)%list_elem_of_fmap by (apply Hin; lia). pose proof (bk_last st Hst Hd Htr) as Hno.
    destruct (bk_frontier st Hst) as (Hf & _). rewrite Forall_forall in Hno, Hf. specialize (Hno h Hh).
    destruct (Hf h Hh) as (? & _ & Hitem & _). rewrite Hitem in Hlast. injection Hlast as Hitem'. destruct He as [[j Hj]%list_elem_of_lookup _].
    assert (j ∈ default [] (nav_children nav !! th_item h)) as Hidx by (apply navigation_indexes; eauto).
    unfold has_children in Hno. destruct (nav_children nav !! th_item h) as [l|]; [|by apply elem_of_nil in Hidx].
    destruct l; [by apply elem_of_nil in Hidx|done].
  - pose proof (beam_step_ok st Hst) as Hstep. destruct (step st) as [st'|st']; [|by apply Hstep; lia].
    destruct Hstep as [Hst' Hd]; [lia|]. apply IH; [done|lia].
Qed.

(** *** The first level *)

Lemma start_hit_Some root c :
  start_hit deletions authorization request g root = Some c ↔ root ∈ g_roots g ∧
    node_visible deletions authorization (br_semantic_snapshot request) (br_domain_time request) g root = true ∧
    ∃ n, g_nodes g !! root = Some n ∧ c = MkTraversalHit root [root] (hn_confidence n) 0.
Proof.
  unfold start_hit. case_bool_decide as Hr; cbn [andb]; [|naive_solver].
  destruct (node_visible _ _ _ _ g root); [|naive_solver]. destruct (g_nodes g !! root); naive_solver.
Qed.

Let starts := omap (start_hit deletions authorization request g) (bt_elements requested).

Lemma starts_elem c :
  c ∈ starts ↔ ∃ root n, root ∈ requested ∧ root ∈ g_roots g ∧
    node_visible deletions authorization (br_semantic_snapshot request) (br_domain_time request) g root = true ∧
    g_nodes g !! root = Some n ∧ c = MkTraversalHit root [root] (hn_confidence n) 0.
Proof.
  unfold starts. rewrite list_elem_of_omap. split.
  - intros (root & Hr%bt_elements_elem & (Hroot & Hv & n & Hn & ->)%start_hit_Some). eauto 10.
  - intros (root & n & Hr & Hroot & Hv & Hn & ->). exists root. split; [by apply bt_elements_elem|]. apply start_hit_Some. eauto.
Qed.

Lemma starts_paths : NoDup (th_path <$> starts).
Proof.
  unfold starts. assert (NoDup (bt_elements requested)) as Hnd by (unfold bt_elements; rewrite merge_sort_Permutation; apply NoDup_elements).
  induction Hnd as [|x xs Hx Hnd IH]; [constructor|]. cbn. destruct (start_hit _ _ _ g x) as [c|] eqn:Hc; [|done].
  rewrite fmap_cons. apply NoDup_cons. split; [|done]. intros (c' & Heq & (y & Hy & Hc')%list_elem_of_omap)%list_elem_of_fmap.
  apply start_hit_Some in Hc as (_ & _ & n & _ & ->), Hc' as (_ & _ & n' & _ & ->). cbn in Heq. injection Heq as ->. done.
Qed.

Lemma start_level : level_ok 0 (take (N.to_nat (br_beam_width request)) (sort_by traversal_order starts)).
Proof.
  pose proof (sort_by_Permutation traversal_order starts) as Hperm. set (sorted := sort_by traversal_order starts) in *.
  set (w := N.to_nat (br_beam_width request)).
  assert (∀ c, c ∈ take w sorted → hit_ok c ∧ th_depth c = 0%N) as Hone.
  { intros c (i & Hc%list_elem_of_lookup_2 & _)%elem_of_take. rewrite Hperm in Hc.
    apply starts_elem in Hc as (root & n & Hr & Hroot & Hv & Hn & ->). split; [|done]. exists []. cbn [th_path th_item th_depth th_confidence].
    split_and!; [|done|done| |by intros m ?%elem_of_nil].
    - split; [split_and!; [by apply joins_one|by constructor|constructor]|]. by exists root.
    - intros x n' ->%list_elem_of_singleton Hx. rewrite Hn in Hx. injection Hx as <-. by apply N.compare_le_iff. }
  split.
  - apply Forall_forall. intros c Hc. by apply Hone.
  - apply Forall_forall. intros c Hc. by apply Hone.
  - pose proof (candidates_sorted starts) as Hs. fold sorted in Hs. rewrite <- (take_drop w sorted) in Hs. by apply StronglySorted_app_1_l in Hs.
  - assert (NoDup (th_path <$> sorted)) as Hnd by (rewrite Hperm; apply starts_paths).
    rewrite <- (take_drop w sorted), fmap_app in Hnd. by apply NoDup_app in Hnd as [? _].
  - unfold len, w. rewrite length_take. lia.
Qed.

Lemma path_starts items ms : root_path items ms → ms = [] → items ∈ th_path <$> starts.
Proof.
  intros [((Hlen & _) & Hv & _) (root & Hhead & Hr & Hroot)] ->. destruct items as [|x [|]]; [done| |done]. injection Hhead as ->.
  apply Forall_cons in Hv as [Hv _]. destruct (visible_Some _ _ _ _ _ _ Hv) as [n Hn]. apply list_elem_of_fmap.
  eexists (MkTraversalHit root [root] (hn_confidence n) 0). split; [done|]. apply starts_elem. eauto 10.
Qed.

Lemma beam_start :
  br_max_depth request ≠ 0%N →
  let frontier := take (N.to_nat (br_beam_width request)) (sort_by traversal_order starts) in
  beam_ok (MkBeamState 1 frontier frontier 0 (br_beam_width request <? len (sort_by traversal_order starts))%N).
Proof.
  intros Hmax frontier. pose proof start_level as Hlevel. fold frontier in Hlevel.
  assert ((br_beam_width request <? len (sort_by traversal_order starts))%N = false →
    ∀ items ms, root_path items ms → (len ms < 1)%N → items ∈ th_path <$> frontier) as Hall.
  { intros Hle%N.ltb_ge items ms Hp Hm. unfold frontier. rewrite take_ge by (unfold len in Hle; lia). rewrite sort_by_Permutation.
    apply (path_starts items ms Hp). destruct ms; [done|]. unfold len in Hm. cbn in Hm. lia. }
  split; cbn [bs_hits bs_depth bs_frontier bs_expansions bs_truncated]; [|split_and!; [apply Hlevel| |apply Hlevel]|done|lia| |done|intros Hd; exfalso; lia].
  - apply (hits_extend [] 0 frontier); [|done]. split; [constructor|constructor|constructor| |constructor]. intros k. unfold len. cbn. lia.
  - eapply Forall_impl; [apply (lk_depth 0 _ Hlevel)|]. cbn. lia.
  - intros Htr items ms Hp Hm. apply (Hall Htr items ms Hp). lia.
Qed.
End beam.

(** ** Traversals *)

Section traversals.
Context `{Blake3} `{!PartitionJson} `{!Serialize CanonicalProposal}.

(** The roots a request starts from. *)
Definition start_roots (request : BeamTraversalRequest) (g : HierarchyGeneration) : gset HierarchyItemId :=
  if bool_decide (br_roots request = ∅) then g_roots g else br_roots request.

Lemma validate_beam_budget_Ok request :
  validate_beam_budget request = Ok tt ↔
  br_beam_width request ≠ 0%N ∧ br_max_depth request ≠ 0%N ∧ br_max_expansions request ≠ 0%N.
Proof.
  unfold validate_beam_budget. destruct (N.eqb_spec (br_beam_width request) 0); [naive_solver|].
  destruct (N.eqb_spec (br_max_depth request) 0); [naive_solver|]. destruct (N.eqb_spec (br_max_expansions request) 0); naive_solver.
Qed.

(** The traversal of an opened view: no start, or the loop from its first level. *)
Lemma beam_traverse_opened catalog deletions request authorization view g f :
  catalog_ok catalog → validate_beam_budget request = Ok tt →
  open_view catalog (br_view_id request) (br_semantic_snapshot request) (br_freshness request) authorization = Ok (view, g, f) →
  let roots := start_roots request g in
  match beam_traverse catalog deletions request authorization with
  | Err error => error = RouteUnavailable ∧ ∀ items ms, ¬ root_path deletions authorization request g roots items ms
  | Ok r => bm_freshness r = f ∧ bm_generation r = generation_reference g ∧
      ∃ st, beam_final deletions authorization request g roots st ∧
        bm_hits r = bs_hits st ∧ bm_expansions r = bs_expansions st ∧ bm_truncated r = bs_truncated st
  end.
Proof.
  intros Hcat Hbudget Hopen roots. pose proof (open_view_Ok _ _ _ _ _ _ _ _ Hcat Hopen) as Hopened.
  pose proof (op_ok _ _ _ _ _ _ _ Hopened) as Hok. unfold beam_traverse. rewrite Hbudget, Hopen. cbn [result_bind].
  apply validate_beam_budget_Ok in Hbudget as (Hwidth & Hdepth & _). fold (start_roots request g). fold roots.
  pose proof (beam_start deletions authorization request g roots Hdepth) as Hstart. cbn zeta in Hstart.
  set (sorted := sort_by traversal_order (omap (start_hit deletions authorization request g) (bt_elements roots))) in *.
  destruct (is_empty (take (N.to_nat (br_beam_width request)) sorted)) eqn:Hempty.
  - split; [done|]. intros items ms Hp. assert (len ms < 0)%N; [|lia]. apply (no_longer_path deletions authorization request g roots 0 items ms); [|done].
    intros i m Hi Hm. pose proof (path_starts deletions authorization request g roots i m Hi) as Hin.
    assert (m = []) as Hnil by (destruct m; [done|unfold len in Hm; cbn in Hm; lia]). specialize (Hin Hnil).
    rewrite <- (sort_by_Permutation traversal_order) in Hin. fold sorted in Hin. destruct sorted as [|c l]; [by apply elem_of_nil in Hin|].
    destruct (N.to_nat (br_beam_width request)) eqn:Hw; [lia|done].
  - rewrite (op_navigation _ _ _ _ _ _ _ Hopened). cbn [ok_or result_bind]. split_and!; [done|done|].
    eexists. split; [|done]. destruct (br_max_depth request) as [|rounds] eqn:Hr; [done|]. rewrite loop_pos_nat.
    apply beam_rounds; [done|done|]. rewrite Hr. cbn [bs_depth]. rewrite positive_nat_N. lia.
Qed.
(** C18: a traversal reports only visible paths from the requested roots, each once, level
    by level in order, at most the beam's width on a level and none deeper than asked,
    with confidences no higher than any part of the path; it examines no more
    memberships than its budget; and when neither a truncation is reported nor the
    budget used up, it has reported every visible path.  It is unavailable only when
    no requested root is visible. *)
Theorem beam_traverse_exact e selector catalog request authorization :
  reachable e → snapshot e selector = Ok catalog →
  let deletions := en_deletions e in
  let opening := open_view catalog (br_view_id request) (br_semantic_snapshot request) (br_freshness request) authorization in
  match beam_traverse catalog deletions request authorization with
  | Ok r => ∃ view g, opening = Ok (view, g, bm_freshness r) ∧ bm_generation r = generation_reference g ∧
      hits_ok deletions authorization request g (start_roots request g) (bm_hits r) (br_max_depth request + 1) ∧
      (bm_expansions r ≤ br_max_expansions request)%N ∧
      (bm_truncated r = false → bm_expansions r ≠ br_max_expansions request →
        ∀ items ms, root_path deletions authorization request g (start_roots request g) items ms → items ∈ th_path <$> bm_hits r)
  | Err error => validate_beam_budget request = Err error ∨ opening = Err error ∨
      error = RouteUnavailable ∧ ∃ view g f, opening = Ok (view, g, f) ∧
        ∀ items ms, ¬ root_path deletions authorization request g (start_roots request g) items ms
  end.
Proof.
  intros He%reachable_ok Hs deletions opening. pose proof (snapshot_ok _ _ _ He Hs) as Hcat.
  destruct (validate_beam_budget request) as [[]|error] eqn:Hbudget.
  2:{ unfold beam_traverse. rewrite Hbudget. by left. }
  destruct opening as [[[view g] f]|error] eqn:Hopen; unfold opening in Hopen.
  2:{ unfold beam_traverse. rewrite Hbudget, Hopen. right. by left. }
  pose proof (beam_traverse_opened catalog deletions request authorization view g f Hcat Hbudget Hopen) as Hres.
  destruct (beam_traverse catalog deletions request authorization) as [r|error].
  - destruct Hres as (<- & Hgen & st & [Hhits Hb Hall] & -> & -> & ->). exists view, g. by split_and!.
  - destruct Hres as [-> Hno]. right. right. eauto 10.
Qed.
End traversals.
