(* ===== verification/HierDelete.v ===== *)
(** * Hierarchy views: deletions

    An acknowledged deletion closes every read of every retained catalog at once, is
    never forgotten, revokes the cached routes and keeps what depends on the deleted
    material from being published again. *)

From S2P Require Import Prelude.
From S2P Require Import Ordering.
From S2P Require Import Bytes.
From S2P Require Import Format.
From S2P Require Import CoreBase.
From S2P Require Import Provenance.
From S2P Require Import Evidence.
From S2P Require Import Hierarchy.
From S2P Require Import HierValidate.
From S2P Require Import HierDag.
From S2P Require Import HierStats.
From S2P Require Import HierProposal.
From S2P Require Import HierEngine.
From S2P Require Import HierReads.
From S2P Require Import HierRuns.
From S2P Require Import HierPaths.
From S2P Require Import HierRoutes.
From S2P Require Import HierCached.
From S2P Require Import HierBeam.

(** ** Dependence on a deletion *)

Definition provenance_touched (d : DeletionRecord) (p : HierarchyProvenance) : Prop :=
  ∃ input, input ∈ inputs (hp_derivation p) ∧
    (input ∈ dr_lineage_dependencies d ∨ ∃ id revision, input = LineageNodeRevision id revision ∧ id ∈ dr_node_ids d).
(** A navigation item that is a deleted node or is derived from deleted material. *)
Definition node_touched (d : DeletionRecord) (n : HierarchyNode) : Prop :=
  (∃ id, hn_id n = ItemSemantic id ∧ id ∈ dr_node_ids d) ∨ provenance_touched d (hn_provenance n).

(** ** Reads *)

(** The item of the generation, if it has one, does not depend on the deletion. *)
Definition untouched_item (d : DeletionRecord) (g : HierarchyGeneration) (x : HierarchyItemId) : Prop :=
  ∀ n, g_nodes g !! x = Some n → ¬ node_touched d n.

(** The adjacency that statistics are computed from holds visible items and, under
    each of them, the children of visible memberships. *)
Lemma visible_adjacency_edges r authorization semantic_snapshot domain_time g parent children :
  visible_adjacency r authorization semantic_snapshot domain_time g !! parent = Some children →
  node_visible r authorization semantic_snapshot domain_time g parent = true ∧
  ∀ child, child ∈ children →
    ∃ m, visible_edge r authorization semantic_snapshot domain_time g m ∧ hm_parent m = parent ∧ hm_child m = child.
Proof.
  unfold visible_adjacency. set (start := list_to_map _). rewrite lookup_fmap, fmap_Some. intros (cs & Hcs & ->).
  setoid_rewrite (sort_by_Permutation cmp cs).
  assert (∀ ms adjacency, ms ⊆ g_memberships g →
    (∀ p cs, adjacency !! p = Some cs → is_Some (start !! p) ∧ ∀ c, c ∈ cs →
      ∃ m, visible_edge r authorization semantic_snapshot domain_time g m ∧ hm_parent m = p ∧ hm_child m = c) →
    ∀ p cs, foldl (add_child r authorization semantic_snapshot domain_time g) adjacency ms !! p = Some cs →
      is_Some (start !! p) ∧ ∀ c, c ∈ cs →
      ∃ m, visible_edge r authorization semantic_snapshot domain_time g m ∧ hm_parent m = p ∧ hm_child m = c) as Hfold.
  { induction ms as [|m ms IH]; intros adjacency Hsub Hadj; [done|]. cbn [foldl]. apply IH; [set_solver|]. clear IH.
    unfold add_child. destruct (membership_visible _ _ _ _ g m) eqn:Hm; [|done].
    destruct (adjacency !! hm_parent m) as [cs0|] eqn:Hp; [|done]. intros p cs1. destruct (decide (hm_parent m = p)) as [<-|Hne].
    - rewrite lookup_insert_eq. intros [= <-]. destruct (Hadj _ _ Hp) as [Hin Hall]. split; [done|]. intros c.
      rewrite elem_of_app, list_elem_of_singleton. intros [Hc| ->]; [by apply Hall|]. exists m. split_and!; [|done|done].
      split; [apply Hsub; by left|done].
    - rewrite lookup_insert_ne by done. apply Hadj. }
  destruct (Hfold (g_memberships g) start (reflexivity _)) with (p := parent) (cs := cs) as [[cs0 Hin] Hall]; [|done|].
  - intros p cs0 Hp. split; [done|]. apply elem_of_list_to_map_2, list_elem_of_fmap in Hp as (x & [= _ ->] & _).
    by intros c ?%elem_of_nil.
  - split; [|done]. apply elem_of_list_to_map_2, list_elem_of_fmap in Hin as (x & [= <- _] & Hx).
    apply list_elem_of_In, filter_In in Hx. tauto.
Qed.

Section hidden.
Context (r : DeletionRegistry) (d : DeletionRecord).
Hypothesis Hcovers : covers r d.

Lemma touched_deleted p : provenance_touched d p → provenance_deleted (dr_workspace_id d) p r = true.
Proof.
  intros (input & Hin & Hcase). unfold provenance_deleted. apply existsb_exists. exists input. split; [by apply list_elem_of_In|].
  apply orb_true_iff. unfold has_key. destruct Hcase as [Hl|(id & revision & -> & Hid)].
  - left. apply bool_decide_eq_true_2. by apply Hcovers.
  - right. apply bool_decide_eq_true_2. by apply Hcovers.
Qed.

Context (authorization : AuthorizationSnapshot) (semantic_snapshot : SnapshotRef) (domain_time : option TimestampMicros).
Context (g : HierarchyGeneration).
Hypothesis Hworkspace : auth_workspace_id authorization = dr_workspace_id d.

Lemma visible_untouched x n :
  node_visible r authorization semantic_snapshot domain_time g x = true → g_nodes g !! x = Some n →
  ¬ node_touched d n ∧ ¬ provenance_touched d (g_build_provenance g).
Proof.
  unfold node_visible. intros Hv Hn. rewrite Hn in Hv. rewrite !andb_true_iff, !negb_true_iff in Hv.
  destruct Hv as ((((Hws%bool_decide_eq_true_1 & _) & _) & Hbuild) & Hitem). rewrite Hws, Hworkspace in *.
  unfold item_or_provenance_deleted in Hitem. apply orb_false_iff in Hitem as [Hid Hp].
  split; [|intros Ht%touched_deleted; congruence]. intros [(id & Heq & Hin)|Ht%touched_deleted]; [|congruence].
  rewrite Heq in Hid. unfold has_key in Hid. apply bool_decide_eq_false_1 in Hid. apply Hid. by apply Hcovers.
Qed.

Lemma visible_workspace x :
  node_visible r authorization semantic_snapshot domain_time g x = true → pr_workspace_id (g_profile g) = auth_workspace_id authorization.
Proof.
  unfold node_visible. destruct (g_nodes g !! x); [|done]. rewrite !andb_true_iff. by intros ((((Hws%bool_decide_eq_true_1 & _) & _) & _) & _).
Qed.

Lemma edge_untouched m :
  visible_edge r authorization semantic_snapshot domain_time g m → ¬ provenance_touched d (hm_provenance m).
Proof.
  intros Hm Ht%touched_deleted. destruct (visible_edge_ends _ _ _ _ _ m Hm) as [Hws%visible_workspace _]. destruct Hm as [_ Hv]. unfold membership_visible in Hv. rewrite !andb_true_iff, negb_true_iff in Hv.
  rewrite Hws, Hworkspace in Hv. destruct Hv as [_ Hv]. congruence.
Qed.

Lemma path_untouched items ms nodes :
  visible_path r authorization semantic_snapshot domain_time g items ms →
  (λ x, g_nodes g !! x) <$> items = Some <$> nodes →
  Forall (λ n, ¬ node_touched d n) nodes ∧ Forall (λ m, ¬ provenance_touched d (hm_provenance m)) ms.
Proof.
  intros (_ & Hv & He) Hnodes. rewrite Forall_forall in Hv. rewrite Forall_forall in He. rewrite !Forall_forall. split.
  - intros n [i Hi]%list_elem_of_lookup. pose proof (f_equal (.!! i) Hnodes) as Hl. cbn beta in Hl. rewrite !list_lookup_fmap, Hi in Hl.
    destruct (items !! i) as [x|] eqn:Hx; [|done]. injection Hl as Hl. apply list_elem_of_lookup_2 in Hx. by apply (visible_untouched x n (Hv x Hx) Hl).
  - intros m Hm. by apply edge_untouched, He.
Qed.

Lemma item_untouched x : node_visible r authorization semantic_snapshot domain_time g x = true → untouched_item d g x.
Proof. intros Hv n Hn. by apply (visible_untouched x n). Qed.

Lemma path_items_untouched items ms :
  visible_path r authorization semantic_snapshot domain_time g items ms →
  Forall (untouched_item d g) items ∧ Forall (λ m, ¬ provenance_touched d (hm_provenance m)) ms.
Proof.
  intros (_ & Hv & He). split; (eapply Forall_impl; [done|]); [apply item_untouched|apply edge_untouched].
Qed.

Lemma adjacency_untouched parent children :
  visible_adjacency r authorization semantic_snapshot domain_time g !! parent = Some children →
  untouched_item d g parent ∧ ∀ child, child ∈ children → ∃ m, m ∈ g_memberships g ∧ hm_parent m = parent ∧ hm_child m = child ∧
    ¬ provenance_touched d (hm_provenance m) ∧ untouched_item d g child.
Proof.
  intros [Hv Hall]%visible_adjacency_edges. split; [by apply item_untouched|]. intros child Hc.
  destruct (Hall child Hc) as (m & Hm & <- & <-). exists m. pose proof (visible_edge_ends _ _ _ _ _ m Hm) as [_ Hv'].
  split_and!; [apply Hm|done|done|by apply edge_untouched|by apply item_untouched].
Qed.
End hidden.

(** ** Publication *)

Definition proposal_touched (d : DeletionRecord) (p : HierarchyProposal) : Prop :=
  (∃ k n, hp_nodes p !! k = Some n ∧ node_touched d n) ∨
  (∃ m, m ∈ hp_memberships p ∧ provenance_touched d (hm_provenance m)) ∨ provenance_touched d (hp_build_provenance p).

Lemma touched_depends d p :
  provenance_touched d p →
  (∃ id, id ∈ dr_node_ids d ∧ provenance_depends_on_node p id = true) ∨
  (∃ l, l ∈ dr_lineage_dependencies d ∧ provenance_depends_on_lineage p l = true).
Proof.
  intros (input & Hin & [Hl|(id & revision & -> & Hid)]).
  - right. exists input. split; [done|]. by apply bool_decide_eq_true_2.
  - left. exists id. split; [done|]. apply existsb_exists. eexists. split; [by apply list_elem_of_In|]. by apply bool_decide_eq_true_2.
Qed.

Lemma proposal_depends d v :
  proposal_touched d (v_proposal v) →
  (∃ id, id ∈ dr_node_ids d ∧ proposal_depends_on_node v id = true) ∨
  (∃ l, l ∈ dr_lineage_dependencies d ∧ proposal_depends_on_lineage v l = true).
Proof.
  unfold proposal_depends_on_node, proposal_depends_on_lineage, contents_depend_on_node, contents_depend_on_lineage.
  intros [(k & n & Hn & Ht)|[(m & Hm & Ht)|Ht]].
  - assert (In n (bt_values (hp_nodes (v_proposal v)))) as Hin by (apply list_elem_of_In, elem_of_bt_values; eauto).
    destruct Ht as [(id & Heq & Hid)|[(id & Hid & Hdep)|(l & Hl & Hdep)]%touched_depends].
    + left. exists id. split; [done|]. rewrite !orb_true_iff. left. left. apply existsb_exists. exists n. split; [done|].
      unfold item_depends_on_node. by rewrite bool_decide_eq_true_2.
    + left. exists id. split; [done|]. rewrite !orb_true_iff. left. left. apply existsb_exists. exists n. split; [done|].
      unfold item_depends_on_node. by rewrite Hdep, orb_true_r.
    + right. exists l. split; [done|]. rewrite !orb_true_iff. left. left. apply existsb_exists. eauto.
  - apply list_elem_of_In in Hm. apply touched_depends in Ht as [(id & Hid & Hdep)|(l & Hl & Hdep)].
    + left. exists id. split; [done|]. rewrite !orb_true_iff. left. right. apply existsb_exists. eauto.
    + right. exists l. split; [done|]. rewrite !orb_true_iff. left. right. apply existsb_exists. eauto.
  - apply touched_depends in Ht as [(id & Hid & Hdep)|(l & Hl & Hdep)].
    + left. exists id. split; [done|]. rewrite !orb_true_iff. by right.
    + right. exists l. split; [done|]. rewrite !orb_true_iff. by right.
Qed.

Lemma deleted_dependencies_rejected r d v :
  covers r d → pr_workspace_id (hp_profile (v_proposal v)) = dr_workspace_id d → proposal_touched d (v_proposal v) →
  reject_deleted_dependencies v r ≠ Ok tt.
Proof.
  intros [Hn Hl] Hws Ht [Hnodes%for_each_Ok Hlineage%for_each_Ok]%try_Ok. rewrite Forall_forall in Hnodes. rewrite Forall_forall in Hlineage.
  destruct (proposal_depends d v Ht) as [(id & Hid & Hdep)|(l & Hin & Hdep)].
  - specialize (Hnodes (dr_workspace_id d, id)). cbn in Hnodes. rewrite Hws, bool_decide_eq_true_2, Hdep in Hnodes by done.
    discriminate Hnodes. by apply elem_of_bt_keys, Hn.
  - specialize (Hlineage (dr_workspace_id d, l)). cbn in Hlineage. rewrite Hws, bool_decide_eq_true_2, Hdep in Hlineage by done.
    discriminate Hlineage. by apply elem_of_bt_keys, Hl.
Qed.

Section barrier.
Context `{Blake3} `{!RouteJson} `{!PartitionJson} `{!Serialize CanonicalProposal}.

Lemma statistics_untouched catalog deletions d authorization view_id item at_ freshness s f :
  covers deletions d → auth_workspace_id authorization = dr_workspace_id d →
  branch_statistics catalog deletions view_id item at_ freshness authorization = Ok (s, f) →
  ∃ view g adjacency order, open_view catalog view_id at_ freshness authorization = Ok (view, g, f) ∧
    compute_statistics adjacency (computed_roots adjacency (incoming_counts adjacency)) order !! item = Some s ∧
    topological_order adjacency (incoming_counts adjacency) = Ok order ∧ untouched_item d g item ∧
    ∀ parent children, adjacency !! parent = Some children → untouched_item d g parent ∧
      ∀ child, child ∈ children → ∃ m, m ∈ g_memberships g ∧ hm_parent m = parent ∧ hm_child m = child ∧
        ¬ provenance_touched d (hm_provenance m) ∧ untouched_item d g child.
Proof.
  intros Hcov Hws Hr. unfold branch_statistics in Hr. apply result_bind_Ok in Hr as ([[view g] f'] & Hopen & Hr).
  destruct (node_visible _ _ _ _ g item) eqn:Hv; [|done]. cbn [negb] in Hr. cbn zeta in Hr.
  apply result_bind_Ok in Hr as (order & Horder & Hr). apply result_bind_Ok in Hr as (s' & Hs%ok_or_Ok & [= -> ->]).
  exists view, g, (visible_adjacency deletions authorization at_ None g), order. split_and!; try done.
  - by eapply item_untouched.
  - intros parent children. by apply adjacency_untouched.
Qed.

Lemma traversal_untouched catalog deletions d authorization request result :
  catalog_ok catalog → covers deletions d → auth_workspace_id authorization = dr_workspace_id d →
  beam_traverse catalog deletions request authorization = Ok result →
  ∃ view g, open_view catalog (br_view_id request) (br_semantic_snapshot request) (br_freshness request) authorization
      = Ok (view, g, bm_freshness result) ∧
    ∀ h, h ∈ bm_hits result → ∃ ms, joins (th_path h) ms ∧ ms ⊆ g_memberships g ∧
      Forall (untouched_item d g) (th_path h) ∧ Forall (λ m, ¬ provenance_touched d (hm_provenance m)) ms.
Proof.
  intros Hcat Hcov Hws Hb.
  assert (∃ view g f, open_view catalog (br_view_id request) (br_semantic_snapshot request) (br_freshness request) authorization
    = Ok (view, g, f) ∧ validate_beam_budget request = Ok tt) as (view & g & f & Hopen & Hbudget).
  { unfold beam_traverse in Hb. apply result_bind_Ok in Hb as ([] & ? & Hb). apply result_bind_Ok in Hb as ([[view g] f] & ? & _). eauto. }
  pose proof (beam_traverse_opened catalog deletions request authorization view g f Hcat Hbudget Hopen) as Hres. cbn zeta in Hres.
  rewrite Hb in Hres. destruct Hres as (<- & _ & st & [Hhits _ _] & -> & _ & _). exists view, g. split; [done|].
  intros h Hh. pose proof (hk_hits _ _ _ _ _ _ _ Hhits) as Hall. rewrite Forall_forall in Hall.
  destruct (Hall h Hh) as (ms & [Hp _] & _). exists ms. pose proof Hp as (Hjoin & _ & He). split_and!; [done| |by eapply path_items_untouched..].
  intros m Hm. rewrite Forall_forall in He. by apply He.
Qed.

Lemma listed_untouched catalog deletions d authorization view_id at_ :
  covers deletions d → auth_workspace_id authorization = dr_workspace_id d →
  view_id ∈ available_views catalog deletions at_ authorization →
  ∃ view g, cat_views catalog !! view_id = Some view ∧ select_generation view at_ authorization = Ok g ∧
    (g_nodes g = ∅ ∨ ∃ x n, g_nodes g !! x = Some n ∧ ¬ node_touched d n).
Proof.
  intros Hcov Hws ([id view] & Hin%bt_entries_elem & Hsel)%list_elem_of_omap. cbn [fst snd] in Hsel.
  destruct (select_generation view at_ authorization) as [g|] eqn:Hg; [|done].
  destruct (_ || _) eqn:Hor; [|done]. injection Hsel as <-. exists view, g. split_and!; [done|done|].
  apply orb_true_iff in Hor as [Hempty%bool_decide_eq_true_1|(x & _ & Hv)%existsb_exists]; [by left|]. right.
  destruct (visible_Some _ _ _ _ _ _ Hv) as [n Hn]. exists x, n. split; [done|]. by eapply visible_untouched.
Qed.

(** C10: after an acknowledged deletion and whatever follows, no read of any retained
    catalog in that workspace returns or uses a deleted node, an item derived from
    deleted material or a membership derived from it: not the lookup of a node, not
    branch statistics, which are computed from other items and memberships only, not a
    materialized route, not a traversal, whose paths run over other memberships; no
    cached route is accepted with one; and a view is listed only for an item that does
    not depend on the deletion, or for a generation without items. *)
Theorem deleted_items_stay_hidden e d e1 epoch e2 selector catalog authorization :
  reachable e → record_deletions e d = (e1, Ok epoch) → rtc hierarchy_step e1 e2 →
  snapshot e2 selector = Ok catalog → auth_workspace_id authorization = dr_workspace_id d →
  let deletions := en_deletions e2 in
  let untouched m := ¬ provenance_touched d (hm_provenance m) in
  (∀ view_id item at_ time freshness n f,
    resolve_node catalog deletions view_id item at_ time freshness authorization = Ok (n, f) → ¬ node_touched d n) ∧
  (∀ view_id item at_ freshness s f, branch_statistics catalog deletions view_id item at_ freshness authorization = Ok (s, f) →
    ∃ view g adjacency order, open_view catalog view_id at_ freshness authorization = Ok (view, g, f) ∧
      compute_statistics adjacency (computed_roots adjacency (incoming_counts adjacency)) order !! item = Some s ∧
      topological_order adjacency (incoming_counts adjacency) = Ok order ∧ untouched_item d g item ∧
      ∀ parent children, adjacency !! parent = Some children → untouched_item d g parent ∧
        ∀ child, child ∈ children → ∃ m, m ∈ g_memberships g ∧ hm_parent m = parent ∧ hm_child m = child ∧
          untouched m ∧ untouched_item d g child) ∧
  (∀ request rm route, materialize_routes catalog deletions request authorization = Some (Ok rm) → route ∈ rm_routes rm →
    Forall (λ n, ¬ node_touched d n) (rt_nodes route) ∧ Forall untouched (rt_memberships route)) ∧
  (∀ request result, beam_traverse catalog deletions request authorization = Ok result →
    ∃ view g, open_view catalog (br_view_id request) (br_semantic_snapshot request) (br_freshness request) authorization
        = Ok (view, g, bm_freshness result) ∧
      ∀ h, h ∈ bm_hits result → ∃ ms, joins (th_path h) ms ∧ ms ⊆ g_memberships g ∧
        Forall (untouched_item d g) (th_path h) ∧ Forall untouched ms) ∧
  (∀ route, (len (rt_memberships route) < USIZE_MAX)%N → validate_route catalog deletions route authorization = Ok tt →
    Forall (λ n, ¬ node_touched d n) (rt_nodes route) ∧ Forall untouched (rt_memberships route)) ∧
  (∀ view_id at_, view_id ∈ available_views catalog deletions at_ authorization →
    ∃ view g, cat_views catalog !! view_id = Some view ∧ select_generation view at_ authorization = Ok g ∧
      (g_nodes g = ∅ ∨ ∃ x n, g_nodes g !! x = Some n ∧ ¬ node_touched d n)).
Proof.
  intros He Hd Hsteps Hs Hws deletions untouched. pose proof (acknowledged_covers _ _ _ _ _ Hd Hsteps) as Hcov. fold deletions in Hcov.
  assert (catalog_ok catalog) as Hcat.
  { apply (snapshot_ok e2 selector); [|done]. apply (steps_ok e1); [done|]. apply (step_ok e); [|by apply reachable_ok].
    replace e1 with (record_deletions e d).1 by (by rewrite Hd). constructor. }
  split_and!.
  - intros view_id item at_ time freshness n f Hr. unfold resolve_node in Hr. apply result_bind_Ok in Hr as ([[view g] f'] & _ & Hr).
    destruct (node_visible _ _ _ _ g item) eqn:Hv; [|done]. cbn [negb] in Hr. apply result_bind_Ok in Hr as (n' & Hn%ok_or_Ok & [= -> ->]).
    by apply (visible_untouched deletions d Hcov authorization at_ time g Hws item n).
  - intros view_id item at_ freshness s f Hr. by eapply statistics_untouched.
  - intros request rm route Hm Hin. apply materialized_routes in Hm as (view & g & _ & Hall); [|done]. rewrite Forall_forall in Hall.
    destruct (Hall route Hin) as [Hp _ _ _ Hn _ _ _]. by apply (path_untouched deletions d Hcov _ _ _ g Hws _ _ _ Hp Hn).
  - intros request result Hb. by eapply traversal_untouched.
  - intros route Hlen (_ & _ & _ & view & g & _ & _ & _ & _ & _ & Hp & Hn & _)%validate_route_Ok; [|done].
    by apply (path_untouched deletions d Hcov _ _ _ g Hws _ _ _ Hp Hn).
  - intros view_id at_ Hin. by eapply listed_untouched.
Qed.

(** C20: an acknowledged deletion revokes: every route cached before it is refused from then
    on, under every authorization, and no proposal of the workspace that contains or
    derives from the deleted material is ever published again. *)
Theorem deletions_revoke e d e1 epoch e2 :
  record_deletions e d = (e1, Ok epoch) → rtc hierarchy_step e1 e2 →
  (dr_node_ids d ≠ ∅ ∨ dr_lineage_dependencies d ≠ ∅ →
    ∀ catalog route authorization, (rt_deletion_epoch route ≤ reg_epoch (en_deletions e))%N →
    is_ok (validate_route catalog (en_deletions e2) route authorization) = false) ∧
  (∀ v, pr_workspace_id (hp_profile (v_proposal v)) = dr_workspace_id d → proposal_touched d (v_proposal v) →
    ∃ error, publish e2 v = (e2, Err error)).
Proof.
  intros Hd Hsteps. split.
  - intros Hne catalog route authorization Hold. assert (reg_epoch (en_deletions e) < reg_epoch (en_deletions e2))%N as Hlt.
    { apply steps_registry in Hsteps as [[Hle _] _]. pose proof (record_deletions_registry e d) as Hreg. rewrite Hd in Hreg.
      destruct Hreg as [[_ Hempty]|(n & Hnext & Hreg)]; [destruct (Hempty eq_refl); naive_solver|].
      apply checked_next_epoch in Hnext as [-> _]. rewrite Hreg in Hle. cbn in Hle. lia. }
    unfold validate_route. destruct (_ || _); [done|]. destruct (route_digest route) as [digest|]; [|done]. cbn [result_bind].
    case_bool_decide; [done|]. by rewrite (proj2 (N.eqb_neq _ _)) by lia.
  - intros v Hws Ht. pose proof (acknowledged_covers _ _ _ _ _ Hd Hsteps) as Hcov.
    pose proof (deleted_dependencies_rejected _ _ _ Hcov Hws Ht) as Hrej. unfold publish, publish_checked.
    destruct (reject_deleted_dependencies v (en_deletions e2)) as [[]|error]; [done|]. cbn [result_bind]. by exists error.
Qed.
End barrier.
