(* ===== verification/HierWitness.v ===== *)
(** * Hierarchy views: a sample view

    A profile with one policy partition and a small navigation graph with two routes
    to its leaf, published, invalidated and partly deleted; the theorems about the
    hierarchy engine are applied to it. *)

From S2P Require Import Prelude.
From S2P Require Import Ordering.
From S2P Require Import Bytes.
From S2P Require Import Format.
From S2P Require Import CoreBase.
From S2P Require Import Provenance.
From S2P Require Import Evidence.
From S2P Require Import Hierarchy.
From S2P Require Import HierValidate.
From S2P Require Import HierBuild.
From S2P Require Import HierProposal.
From S2P Require Import HierAssign.
From S2P Require Import HierEngine.
From S2P Require Import HierReads.
From S2P Require Import HierPersist.
From S2P Require Import HierRuns.
From S2P Require Import HierPaths.
From S2P Require Import HierRestore.
From S2P Require Import HierRoutes.
From S2P Require Import HierCached.
From S2P Require Import HierBeam.
From S2P Require Import HierDelete.

(** ** Texts and digests *)

Definition sample_hash (bs : bytes) : bytes :=
  to_be_bytes 32 (1 + foldl (λ acc b, (acc * 5 + Byte.to_N b) mod 65521) 0 bs)%N.
#[local] Instance sample_blake3 : Blake3 := {|
  blake3_hash := sample_hash;
  blake3_length bs := length_to_be_bytes 32 _;
|}.
#[local] Instance sample_partition_json : PartitionJson := {|
  memory_spaces_json := countable_serialize;
  scopes_json := countable_serialize;
|}.
#[local] Instance sample_canonical_json : Serialize CanonicalProposal := λ p, Some (to_be_bytes 8 (generation_value (cpr_generation p))).
#[local] Instance sample_route_json : RouteJson := {|
  domain_time_json := λ _, Some [];
  items_json := countable_serialize;
  nodes_json := λ nodes, Some (to_be_bytes 8 (len nodes));
  memberships_json := λ ms, Some (to_be_bytes 8 (len ms));
|}.

(** ** The view *)

Definition sid (kind : string) (n : N) : StableId kind := default (sample_id kind) (id_of kind n).
Definition sample_workspace : WorkspaceId := sid _ 5.
Definition sample_view : HierarchyViewId := sid _ 7.
Definition sample_partition : PolicyPartition :=
  match PolicyPartition_new sample_workspace {[sid _ 9]} ∅ 1 with
  | Ok p => p
  | Err _ => MkPolicyPartition [] sample_workspace ∅ ∅ 0
  end.
Definition sample_profile : HierarchyProfile :=
  MkHierarchyProfile sample_view sample_workspace TopicsKnowledge "topics" 1
    {[pp_id sample_partition := sample_partition]} (MkAssignmentPolicy Confidence_ZERO None true).

(** Derived from a revision of the node [source]. *)
Definition sample_provenance (source : N) : HierarchyProvenance :=
  MkHierarchyProvenance TypedRelation
    (MkDerivationRef (sid _ 21) DeterministicProjector None None (MkPipelineIdentity "hierarchy" "1" "1")
      [LineageNodeRevision (sid _ source) 1]) "assigned by topic".
Definition sample_validity : HierarchyValidity := MkHierarchyValidity None (MkCommitRange 1 None).

Definition top : HierarchyItemId := ItemBranch (replicate 32 x01).
Definition note (n : N) : HierarchyItemId := ItemSemantic (sid _ n).
Definition sample_node (item : HierarchyItemId) (label : string) (confidence source : N) : HierarchyNode :=
  MkHierarchyNode item label (pp_id sample_partition) (confidence_of confidence) sample_validity (sample_provenance source).
Definition sample_nodes : list HierarchyNode :=
  [sample_node top "topics" 10000 40; sample_node (note 41) "engines" 9000 41;
   sample_node (note 42) "storage" 8000 42; sample_node (note 43) "journal" 9500 43].
Definition candidate (parent child : HierarchyItemId) (order confidence source : N) : AssignmentCandidate :=
  MkCandidate parent child order (confidence_of confidence) sample_validity (sample_provenance source).
Definition sample_candidates : list AssignmentCandidate :=
  [candidate top (note 41) 0 9000 41; candidate top (note 42) 1 7000 42;
   candidate (note 41) (note 43) 0 8000 43; candidate (note 42) (note 43) 0 6000 43].

Definition sample_builder : HierarchyProposalBuilder :=
  MkBuilder sample_profile (MkGenerationNumber 1 eq_refl) None (MkSnapshotRef 3) (sample_provenance 40)
    (list_to_map ((λ n, (hn_id n, n)) <$> sample_nodes)) sample_candidates.
Definition sample_proposal : HierarchyProposal := finish sample_builder.

Definition published (e : HierarchyEngine) (p : HierarchyProposal) : HierarchyEngine :=
  match validate_proposal p with Ok v => (publish e v).1 | Err _ => e end.
Definition sample_engine : HierarchyEngine := published HierarchyEngine_new sample_proposal.

(** The node 41 is deleted, and with it what is derived from it. *)
Definition sample_deletion : DeletionRecord := MkDeletionRecord sample_workspace {[sid _ 41]} ∅ 3.
Definition deleted_engine : HierarchyEngine := (record_deletions sample_engine sample_deletion).1.

Definition sample_authorization : AuthorizationSnapshot := MkAuthorizationSnapshot sample_workspace {[pp_id sample_partition]} 3.
Definition sample_routes : RouteRequest := MkRouteRequest sample_view (note 43) (MkSnapshotRef 3) None 8 8 RequireCurrent.
Definition sample_beam : BeamTraversalRequest := MkBeamRequest sample_view (MkSnapshotRef 3) None ∅ 8 8 8 RequireCurrent.

Definition catalog_of (e : HierarchyEngine) : Catalog := rs_current (en_state e).

Lemma published_step e p : rtc hierarchy_step e (published e p).
Proof. unfold published. destruct (validate_proposal p) as [v|] eqn:Hv; [|done]. apply rtc_once. by econstructor. Qed.
Lemma sample_reachable : reachable sample_engine.
Proof. apply published_step. Qed.
Lemma deleted_step : rtc hierarchy_step sample_engine deleted_engine.
Proof. apply rtc_once. exact (step_delete sample_engine sample_deletion). Qed.

Lemma deleted_reachable : reachable deleted_engine.
Proof. unfold reachable. transitivity sample_engine; [exact sample_reachable|exact deleted_step]. Qed.

(** ** Concrete runs *)

Definition value {A} (d : A) (r : Result A) : A := match r with Ok a => a | Err _ => d end.
Lemma value_Ok {A} (d : A) (r : Result A) : is_ok r = true → r = Ok (value d r).
Proof. by destruct r. Qed.

Definition sample_validated : ValidatedHierarchyProposal :=
  value (MkValidated sample_proposal (manifest_digest []) ∅) (validate_proposal sample_proposal).
Lemma sample_validates : validate_proposal sample_proposal = Ok sample_validated.
Proof. apply value_Ok. vm_compute. reflexivity. Qed.

Lemma sample_latest : snapshot sample_engine Latest = Ok (catalog_of sample_engine).
Proof. reflexivity. Qed.
Lemma deleted_latest : snapshot deleted_engine Latest = Ok (catalog_of deleted_engine).
Proof. reflexivity. Qed.
Lemma deletion_acknowledged : record_deletions sample_engine sample_deletion = (deleted_engine, Ok 1%N).
Proof.
  unfold deleted_engine. assert ((record_deletions sample_engine sample_deletion).2 = Ok 1%N) as Hr by (vm_compute; reflexivity).
  rewrite <- Hr. apply surjective_pairing.
Qed.

(** ** Proposals *)

Lemma validated_statistics_exact_witness :
  validate_proposal sample_proposal = Ok sample_validated ∧
  ∃ stats routes, v_statistics sample_validated !! note 43 = Some stats ∧
    (∀ q, q ∈ routes ↔ HierStats.is_route (member (hp_memberships sample_proposal)) (hp_roots sample_proposal) (note 43) q) ∧
    routes_from_roots stats = N.min U64_MAX (len routes).
Proof.
  split; [exact sample_validates|].
  destruct (validated_statistics_exact sample_proposal sample_validated (note 43) (sample_node (note 43) "journal" 9500 43)
    sample_validates ltac:(vm_compute; reflexivity)) as (stats & _ & _ & routes & _ & Hs & _ & _ & _ & _ & _ & _ & _ & _ & Hq & Hr).
  exists stats, routes. split; [exact Hs|]. split; [exact Hq|exact Hr].
Defined.

Lemma finish_ignores_order_witness :
  finish (MkBuilder sample_profile (MkGenerationNumber 1 eq_refl) None (MkSnapshotRef 3) (sample_provenance 40)
    (pb_nodes sample_builder) (rev sample_candidates)) = finish sample_builder.
Proof. apply (finish_ignores_order sample_builder (rev sample_candidates)). symmetry. apply Permutation_rev. Defined.

(** Every candidate of the sample is kept. *)
Lemma candidates_kept c :
  c ∈ sample_candidates → ∃ m, m ∈ hp_memberships sample_proposal ∧
    (hm_parent m, hm_child m, hm_validity m, hm_provenance m) = (ac_parent c, ac_child c, ac_validity c, ac_provenance c).
Proof.
  intros Hc%list_elem_of_In.
  assert (forallb (λ c, existsb (λ m, bool_decide ((hm_parent m, hm_child m, hm_validity m, hm_provenance m)
    = (ac_parent c, ac_child c, ac_validity c, ac_provenance c))) (hp_memberships sample_proposal)) sample_candidates = true)
    as Hall by (vm_compute; reflexivity).
  rewrite forallb_forall in Hall. destruct (proj1 (existsb_exists _ _) (Hall c Hc)) as (m & Hm & Heq%bool_decide_eq_true_1).
  exists m. split; [by apply list_elem_of_In|exact Heq].
Qed.

Lemma sample_builder_ok : builder_ok sample_builder.
Proof.
  pose proof sample_validates as [Hok _]%validate_proposal_Ok. destruct Hok as [Hprofile Hrev Hbuild Hnodes Hms _ _ _ Hacyclic _].
  split; [exact Hprofile|exact Hrev|exact Hbuild|exact Hnodes| |].
  - intros c (m & Hm & [= Hp Hchild Hv Hprov])%candidates_kept. destruct (Hms m Hm) as (Hne & Hends & Hval & Hpr & _).
    rewrite Hp, Hchild, Hv, Hprov in *. done.
  - intros x Hx. apply (Hacyclic x). revert Hx. generalize x at 2 4. intros y Hy.
    induction Hy as [a b (c & (m & Hm & [= Hp Hchild _ _])%candidates_kept & Ha & Hb)|a b z (c & (m & Hm & [= Hp Hchild _ _])%candidates_kept & Ha & Hb) _ IH].
    + apply tc_once. exists m. split_and!; [done|congruence|congruence].
    + eapply tc_l; [|exact IH]. exists m. split_and!; [done|congruence|congruence].
Qed.

Lemma built_proposals_validate_witness : is_ok (validate_proposal (finish sample_builder)) = true.
Proof.
  apply (built_proposals_validate sample_builder sample_builder_ok).
  eexists. split; [reflexivity|]. intros Hd. vm_compute in Hd. discriminate Hd.
Defined.

(** ** Runs *)

Lemma retained_catalogs_sound_witness :
  is_ok (snapshot sample_engine (At 1)) = true ∧
  match snapshot sample_engine (At 1) with
  | Ok c => (1 ≤ cat_epoch (rs_current (en_state sample_engine)))%N ∧ cat_epoch c = 1%N ∧
      (∀ view_id view, cat_views c !! view_id = Some view → view_ok 1 view_id view) ∧ snapshot deleted_engine (At 1) = Ok c
  | Err error => (cat_epoch (rs_current (en_state sample_engine)) < 1)%N ∧
      error = SnapshotUnavailable 1 (cat_epoch (rs_current (en_state sample_engine)))
  end.
Proof.
  split; [vm_compute; reflexivity|]. exact (retained_catalogs_sound sample_engine deleted_engine 1 sample_reachable deleted_step).
Defined.

(** ** Restoring a bundle *)

#[local] Instance HierarchyStatePayload_eq_dec : EqDecision HierarchyStatePayload.
Proof.
  assert (EqDecision PolicyPartition) by solve_decision.
  assert (EqDecision ProfilePayload) by solve_decision. assert (EqDecision ItemStatisticsPayload) by solve_decision.
  assert (EqDecision GenerationPayload) by solve_decision.
  assert (EqDecision InvalidationReason) by solve_decision. assert (EqDecision HierarchyInvalidation) by solve_decision.
  assert (EqDecision ViewPayload) by solve_decision.
  assert (EqDecision CatalogPayload) by solve_decision. assert (EqDecision DeletedNodePayload) by solve_decision.
  assert (EqDecision DeletedLineagePayload) by solve_decision. solve_decision.
Defined.

(** A codec for the payload of the sample. *)
Definition sample_payload : HierarchyStatePayload := export_payload deleted_engine.
#[local] Instance sample_payload_json : PayloadJson := {|
  payload_json := λ p, if decide (p = sample_payload) then Some [x01] else None;
  payload_parse := λ text, if decide (text = [x01]) then Some sample_payload else None;
|}.
#[local] Instance sample_payload_laws : PayloadJsonLaws.
Proof.
  split. intros p text. unfold to_json. cbn [payload_json sample_payload_json payload_parse].
  destruct (decide (p = sample_payload)) as [->|]; [|done]. intros [= <-]. by rewrite decide_True.
Qed.

Definition sample_bundle : PersistentHierarchyBundle := MkBundle FORMAT_VERSION (sp_current_epoch sample_payload) (sample_hash [x01]) [x01].
Lemma sample_exports : export_persistent deleted_engine = Ok sample_bundle.
Proof.
  unfold export_persistent, to_vec, to_json. cbn [payload_json sample_payload_json]. rewrite decide_True by reflexivity. reflexivity.
Qed.

Lemma restore_returns_export_witness : from_persistent sample_bundle = Ok deleted_engine.
Proof.
  apply (restore_returns_export deleted_engine sample_bundle); [exact deleted_reachable|exact sample_exports].
Defined.

(** ** Queries *)

Definition sample_materialization : RouteMaterialization :=
  value (MkRouteMaterialization [] true (MkFreshness 0 0 None false)) (default (Err RouteUnavailable)
    (materialize_routes (catalog_of sample_engine) (en_deletions sample_engine) sample_routes sample_authorization)).
Lemma sample_materializes :
  materialize_routes (catalog_of sample_engine) (en_deletions sample_engine) sample_routes sample_authorization
  = Some (Ok sample_materialization).
Proof.
  unfold sample_materialization. destruct (materialize_routes _ _ _ _) as [[rm|error]|] eqn:Hm; [reflexivity|..]; vm_compute in Hm; discriminate Hm.
Qed.

Lemma materialize_routes_exact_witness :
  length (rm_routes sample_materialization) = 2%nat ∧ rm_truncated sample_materialization = false ∧
  ∃ g, ∀ items ms, route_path (en_deletions sample_engine) sample_routes sample_authorization g items ms →
    ∃ r, r ∈ rm_routes sample_materialization ∧ rt_items r = items ∧ rt_memberships r = ms.
Proof.
  split; [vm_compute; reflexivity|]. assert (rm_truncated sample_materialization = false) as Htr by (vm_compute; reflexivity).
  split; [exact Htr|].
  pose proof (materialize_routes_exact sample_engine Latest (catalog_of sample_engine) sample_routes sample_authorization
    sample_reachable sample_latest) as Hexact. cbn zeta in Hexact. destruct Hexact as (answer & Ha & Hexact).
  rewrite sample_materializes in Ha. injection Ha as <-.
  destruct Hexact as (view & g & _ & _ & _ & _ & _ & _ & Hall). exists g. intros items ms Hp. apply Hall; [exact Hp|]. left. exact Htr.
Defined.

(** The routes are accepted under a later authorization as long as nothing happened,
    and no longer after a deletion. *)
Definition later_authorization : AuthorizationSnapshot :=
  MkAuthorizationSnapshot (auth_workspace_id sample_authorization) (auth_partitions sample_authorization) 9.

Lemma cached_routes_exact_witness :
  Forall (λ r, validate_route (catalog_of sample_engine) (en_deletions sample_engine) r later_authorization = Ok tt ∧
    validate_route (catalog_of deleted_engine) (en_deletions deleted_engine) r later_authorization ≠ Ok tt)
    (rm_routes sample_materialization).
Proof.
  apply Forall_forall. intros r Hr.
  assert (rr_max_depth sample_routes < USIZE_MAX)%N as Hdepth by (vm_compute; reflexivity).
  destruct (cached_routes_exact sample_engine Latest (catalog_of sample_engine) sample_routes sample_authorization
    sample_materialization r sample_engine Latest (catalog_of sample_engine) sample_reachable sample_latest Hdepth
    sample_materializes Hr (rtc_refl _ _) sample_latest) as (_ & _ & Hsame).
  destruct (cached_routes_exact sample_engine Latest (catalog_of sample_engine) sample_routes sample_authorization
    sample_materialization r deleted_engine Latest (catalog_of deleted_engine) sample_reachable sample_latest Hdepth
    sample_materializes Hr deleted_step deleted_latest) as (_ & Hlater & _).
  split.
  - assert (forallb (λ r, is_ok (open_view (catalog_of sample_engine) (gr_view_id (rt_generation r)) (rt_semantic_snapshot r)
        AllowStale later_authorization) && forallb (λ n, allows later_authorization (hn_partition n)) (rt_nodes r))
      (rm_routes sample_materialization) = true) as Hall by (vm_compute; reflexivity).
    rewrite forallb_forall in Hall. apply list_elem_of_In in Hr. specialize (Hall r Hr). apply andb_true_iff in Hall as [Hopen Hallowed].
    apply Hsame; [exact Hopen|split; reflexivity|]. apply Forall_forall. intros n Hn. rewrite forallb_forall in Hallowed.
    by apply Hallowed, list_elem_of_In.
  - intros Hok. destruct (Hlater _ Hok) as [[_ Hepoch] _]. vm_compute in Hepoch. discriminate Hepoch.
Defined.

Definition sample_traversal : BeamTraversalResult :=
  value (MkBeamResult [] 0 true (MkFreshness 0 0 None false) (MkGenerationRef sample_view (MkGenerationNumber 1 eq_refl) 0 (MkSnapshotRef 0) (manifest_digest [])))
    (beam_traverse (catalog_of sample_engine) (en_deletions sample_engine) sample_beam sample_authorization).
Lemma sample_traverses :
  beam_traverse (catalog_of sample_engine) (en_deletions sample_engine) sample_beam sample_authorization = Ok sample_traversal.
Proof. apply value_Ok. vm_compute. reflexivity. Qed.

Lemma beam_traverse_exact_witness :
  length (bm_hits sample_traversal) = 5%nat ∧
  ∃ g, ∀ items ms, root_path (en_deletions sample_engine) sample_authorization sample_beam g (start_roots sample_beam g) items ms →
    items ∈ th_path <$> bm_hits sample_traversal.
Proof.
  split; [vm_compute; reflexivity|].
  pose proof (beam_traverse_exact sample_engine Latest (catalog_of sample_engine) sample_beam sample_authorization
    sample_reachable sample_latest) as Hexact. cbn zeta in Hexact. rewrite sample_traverses in Hexact.
  destruct Hexact as (view & g & _ & _ & _ & _ & Hall). exists g. apply Hall; [vm_compute; reflexivity|].
  intros He. vm_compute in He. discriminate He.
Defined.

(** ** Budgets *)

Definition small_beam : BeamTraversalRequest := MkBeamRequest sample_view (MkSnapshotRef 3) None ∅ 8 8 2 RequireCurrent.
Definition reaches (item : HierarchyItemId) (r : Result BeamTraversalResult) : option bool :=
  match r with
  | Ok r => Some (existsb (λ h, bool_decide (th_item h = item)) (bm_hits r))
  | Err _ => None
  end.
Definition reports_truncation (r : Result BeamTraversalResult) : option bool :=
  match r with Ok r => Some (bm_truncated r) | Err _ => None end.

(** a traversal whose expansion budget runs out at the end of a level stops there and
    reports that nothing was cut, although a visible item below was not reached: the
    same request with a larger budget reaches it. *)
Theorem expansion_budget_unreported :
  let run request := beam_traverse (catalog_of sample_engine) (en_deletions sample_engine) request sample_authorization in
  reports_truncation (run small_beam) = Some false ∧ reaches (note 43) (run small_beam) = Some false ∧
  reaches (note 43) (run sample_beam) = Some true.
Proof. vm_compute. split; [reflexivity|]. split; reflexivity. Qed.

(** ** Deletions *)

Lemma deleted_items_stay_hidden_witness :
  is_ok (resolve_node (catalog_of sample_engine) (en_deletions sample_engine) sample_view (note 41) (MkSnapshotRef 3) None
    RequireCurrent sample_authorization) = true ∧
  ∀ view_id item at_ time freshness n f,
    resolve_node (catalog_of deleted_engine) (en_deletions deleted_engine) view_id item at_ time freshness sample_authorization = Ok (n, f) →
    ¬ node_touched sample_deletion n.
Proof.
  split; [vm_compute; reflexivity|].
  exact (proj1 (deleted_items_stay_hidden sample_engine sample_deletion deleted_engine 1 deleted_engine Latest (catalog_of deleted_engine)
    sample_authorization sample_reachable deletion_acknowledged (rtc_refl _ _) deleted_latest eq_refl)).
Defined.

Lemma deletions_revoke_witness :
  Forall (λ r, ∀ catalog authorization, is_ok (validate_route catalog (en_deletions deleted_engine) r authorization) = false)
    (rm_routes sample_materialization) ∧
  ∃ error, publish deleted_engine sample_validated = (deleted_engine, Err error).
Proof.
  destruct (deletions_revoke sample_engine sample_deletion deleted_engine 1 deleted_engine deletion_acknowledged (rtc_refl _ _))
    as [Hroutes Hpublish]. split.
  - apply Forall_forall. intros r Hr catalog authorization.
    refine (Hroutes (or_introl (non_empty_singleton_L _)) catalog r authorization _).
    assert (forallb (λ r, rt_deletion_epoch r =? 0)%N (rm_routes sample_materialization) = true) as Hall by (vm_compute; reflexivity).
    rewrite forallb_forall in Hall. apply list_elem_of_In in Hr. rewrite (proj1 (N.eqb_eq _ _) (Hall r Hr)). apply N.le_0_l.
  - refine (Hpublish sample_validated _ _); [vm_compute; reflexivity|]. left. exists (note 41), (sample_node (note 41) "engines" 9000 41).
    split; [vm_compute; reflexivity|]. left. exists (sid _ 41). split; [reflexivity|]. exact (elem_of_singleton_2 _ _ eq_refl).
Defined.
